(* ===== verification/_CoqProject ===== *)
-Q . S2P
Prelude.v
Snowflake.v
Decimal.v
Errors.v
SyncState.v
ChannelScope.v
FailureLedger.v
Discord.v
World.v
Provider.v
GoTime.v
MessageSync.v
ChannelSync.v
GuildSync.v
Fixture.v
CrawlSafety.v
Completeness.v
Termination.v
GuildSafety.v
Exclusions.v
GoText.v
Rows.v
Receipts.v
Attachments.v
Mentions.v
MessageWrite.v
MessageSafety.v
StoreRefinement.v
Canonical.v
CanonicalMessage.v
ShareFilter.v
SharePublish.v
ShareMerge.v
TailTask.v
TailRun.v
TailSafety.v
FailureJournal.v
EntityRows.v
EntitySafety.v
MemberSafety.v
RestClient.v
RestSafety.v
CatalogData.v
TailHandler.v
Catalog.v
CatalogSafety.v
CatalogCursor.v
CatalogWrites.v
MemberRefresh.v
SyncEntry.v
SyncSafety.v
TailReplay.v
TailEvidence.v
ChangeFeed.v
FeedSafety.v
Runes.v
MessageText.v
TextSafety.v
Embeddings.v
EmbeddingSlots.v
EmbeddingSafety.v
EmbeddingAccount.v
EmbeddingLiveness.v
