(* ===== verification/Prelude.v ===== *)
(** * Verification of discrawl: a local archive of Discord history

    discrawl (src/cmd, src/internal) crawls the message history of Discord
    guilds over REST, follows the Gateway, keeps everything in one SQLite file,
    and publishes and merges snapshots of it through Git. This library models
    the parts that decide what is stored, in which order, and what may be
    published, and proves what makes them correct.

    ** How the parts interact

    The syncer (src/internal/syncer) is a client of two others: the provider
    (REST and Gateway, src/internal/discord) and the store
    (src/internal/store). A crawl walks a channel's pages towards older or newer
    messages, writes each page in one transaction, and moves cursors in
    sync_state; what fails goes into the failure ledger and is reconciled later.
    Gateway events pass through per-message queues with deadlines, reach the
    handler, and are written through the same message writer. Before any write
    the channel must be in the collection scope. The store keeps derived tables
    (attachments, mentions, lexical and vector indexes, receipts) in step with
    the rows. The share package filters the rows that may be published, and
    merges imported rows into the archive.

    ** Files

    Shared ground:
    - [Prelude]: tactics, Go's package strings on bytes, generic lemmas.
    - [Decimal], [Snowflake], [Errors], [GoTime], [GoText]: strconv's decimals,
      ids as cursors (syncer/message_sync.go), error trees and their
      classification (syncer/errors.go), instants and their texts, RFC 3339
      included.
    - [World]: the monad of the syncer. A world is the tables and a step
      counter; the environment [Env] answers each step: the clock, the outcome
      of a store call (done, failed, or durable but reported as failed), the
      cancellation of the context, the provider. Theorems quantify over all
      environments, hence over all fault schedules; a killed run is a schedule
      in which every later step fails.
    - [Provider], [Fixture]: the laws of a provider that serves a fixed
      history, and concrete instances for the witnesses.

    The crawl (syncer/message_sync.go, history_window.go, channel_availability.go,
    reconcile.go, and the tables it uses):
    - [SyncState] (store/sync_state.go), [ChannelScope]
      (store/collection_scope.go), [FailureLedger] (store/failures.go,
      integrity.go; ids of the ledger are never given twice), [Discord] (the
      provider's records).
    - [MessageSync] is one page and the three pagination loops, [ChannelSync]
      one channel, [GuildSync] a guild's channels and the availability markers.
    - [CrawlSafety], [Completeness], [Termination], [GuildSafety]: no stored
      message is lost and only a channel's own cursors move; a full sync of a
      provider that answers completes and stores the whole history; the loops
      end, with a number of rounds that the history bounds; a channel is skipped
      only with recorded evidence.
    - [Exclusions] (syncer/channel_exclusions.go, collection_scope.go): the
      scope of a channel and its persistence.

    The store (store/write.go, messages.go, entity_state.go, member_refresh.go):
    - [Rows], [Receipts], [Attachments], [Mentions], [MessageWrite]: the message
      row, the receipts of checks, the two relations, the writer and the
      tombstone, with the lexical index, the vectors and the embedding queue.
    - [MessageSafety]: newer edits win, unchanged content writes nothing,
      tombstones stay, the index follows the rows, vectors are kept or archived.
    - [StoreRefinement]: the writer refines the interface [MessageStore] that
      the crawl's theorems are proved against.
    - [Canonical], [CanonicalMessage] (store/canonical_payload.go): the
      canonical JSON of messages and guilds, merging with what is stored.
    - [EntityRows], [EntitySafety], [MemberSafety]: guilds, channels, members,
      tombstones, and the refresh of a member list.
    - [FailureJournal] (store/tail_failure_fallback.go): the directory of failed
      events that the ledger could not take, and its import.

    - [ChangeFeed], [FeedSafety] (store/change_feed.go): the log of changed
      messages with its chain of digests, its contract, the reading of a batch
      and the compaction. A reader that follows the feed copies the archive
      exactly; the retained window survives compaction.
    - [Runes] (UTF-8 as Go decodes it), [Embeddings] (store/embedding_worker.go,
      embeddings.go): the queue of embedding jobs with its leases, the passes of
      a worker, the vectors and their archive.
    - [EmbeddingSlots], [EmbeddingSafety], [EmbeddingAccount],
      [EmbeddingLiveness]: leases exclude each other and a vector embeds the
      present text, in any order of writes and queue calls, and after each
      transaction of a drain. A drain holds the sync lock (cli/sync_lock.go),
      which [EmbeddingSafety.system_step] models by what it excludes: while a
      drain is under way nothing else commits; without it a drain may store the
      vector of an old text (Example [unlocked_edit_gets_a_stale_vector]). A
      message whose own writes queue embeddings keeps a job that accounts for
      its text; a pass of an honest provider embeds what is due and a drain ends
      with no backlog.

    The catalog (discord/client.go, member_budget.go, syncer/channel_catalog.go,
    channel_hydration.go):
    - [RestClient], [RestSafety]: the paginated listings of guilds, archived
      threads and members, with their retries and budgets, and the permissions
      a history read needs. An enumeration that reports success lists the whole
      roster, and every enumeration ends. The scan of archived threads pages by
      the time of archiving, which Discord does not promise to be unique: what it
      leaves out has the time of a thread it lists.
    - [CatalogData], [Catalog]: the channels and threads a run will crawl, in
      the full, incremental and targeted modes; what of them is stored, and the
      cursor of archived threads. Pointers are addresses, as the code compares
      and shares them.
    - [CatalogSafety], [CatalogCursor], [CatalogWrites]: the selection and the
      channels rebuilt from rows, what the cursor of archived threads passes
      over (listed threads, and those archived at the very time of one), and that
      a run writes no row of a channel the provider did not
      mention.

    A run (syncer/syncer.go, records.go):
    - [MemberRefresh]: when the members of a guild are read again, their
      enumeration, conversion and merge, and the marker of the last complete
      refresh, which certifies that the whole roster was merged.
    - [SyncEntry], [SyncSafety]: the guilds of a run, the batches left over by a
      full sync, and the composition of catalog, members and messages; the
      marker of success certifies that every selected guild was crawled without
      error. A batch names its channels, so one level of recursion is enough.

    The text of a message (messagetext/text.go):
    - [MessageText], [TextSafety]: the parts of a message under their JSON
      pointers and the normalized text. The parts are exactly the searchable
      texts, and the lines of the normalized text are the parts.

    The Gateway (discord/tail*.go, syncer/tail*.go, syncer/failures.go):
    - [TailTask], [TailRun]: the deadlines of one event's execution, and the
      ordered queues with their circuits.
    - [TailSafety]: order per message, no event lost before it is recorded,
      bounds of an execution.
    - [TailHandler], [TailReplay]: what the handler does with each event, the
      recording of a failed one, and the bounded replay of recorded failures.
    - [TailEvidence]: what a reported outcome entitles its reader to: stored
      rows, tombstones, denials by the provider, and for a failure settled as out
      of scope that the channel is outside the collection.

    Publication (share/filter.go, publish.go, merge.go):
    - [ShareFilter], [SharePublish]: which rows a snapshot may hold.
    - [ShareMerge]: how an imported table merges into the archive.

    ** How to read the definitions

    A Go function is the definition of the same name. Its errors are values of
    [err] in an option or a sum, its early returns are the branches in the order
    of the source; functions that call the store or the provider run in the
    monad [M]. SQL statements are functions on the records of their tables;
    [gmap] is a table with a unique key, a list one where order or duplicates
    matter. Instants are nanoseconds in Z; ids are texts. A loop whose progress
    depends on the provider takes fuel: [None] is exhausted fuel, and
    [Termination] gives a fuel that suffices for every history. Loops that the
    source bounds use that bound (16 hops of channel ancestry, 16 names of a
    journal file, 256 ids of a statement).

    What is not Go of this repository, or is a service, is a parameter with its
    documented laws: [Env], [TailEnv], [RestEnv] and [CatalogEnv] (REST, file
    system, the store's answers), [RunEnv] and [GuildEnv] (the run's context, the
    guild record), [EmbedLib] (the embedding, vector and worker
    packages of crawlkit; a provider answers by position), [FeedText] (the texts
    and digests of feed entries; generation ids never repeat), [ErrorReport]
    (dynamic types and redaction), [JSON], [JSONText], [JournalText],
    [SnapshotJSON] (encoding/json, SHA-256), [TimeParse] (time.Parse of texts
    the program did not write), [Lexical] (tokenizers), [RawPayloads] and
    [MutationRecords] (the projection of a Discord payload to a record),
    [ChannelJSON], [MemberJSON] and [GuildJSON] (marshalled records),
    [Normalization] (Unicode NFKC). Every
    property with such a law has a witness on concrete instances.

    ** What is simplified

    - Progress reports, logs and metrics of latency are left out.
    - [ToLower] and [ToUpper] are those of ASCII letters.
    - The body of a worker's loop after the handler has returned is one step of
      [TailRun], as no other goroutine can observe it half done.
    - A map that Go iterates in random order is iterated in the order of the
      model's finite maps where the order cannot be observed in the archive; in
      the catalog it may decide which of several failures is reported first.
    - Random tokens of leases are fresh. The status row of the embedding worker
      and its wake-up callback are left out, as are JSON nulls in the lists the
      provider answers with.

    ** What is not modelled

    Network I/O and discordgo's callbacks; the generated SQL bindings and the
    schema migrations; Git, the publication's files and their shards; media
    download; the scan of the desktop client's cache; terminal output, flags,
    configuration files and credentials; file locks and process identity (of the
    sync lock, that it excludes other writers from a drain). They
    are platform code whose outcomes are the environment's answers here, or
    hold no state that the theorems speak of. The read side (queries, reports,
    coverage, metrics) is SQL text assembled from filters and the scanning of
    its rows: a model of it would be a model of SQLite. The repair lanes schedule
    runs that are modelled, on goroutines and tickers. The tokenizers of the
    lexical indexes are libraries and helper processes, behind the class
    [Lexical]. Messages of a run are crawled by one worker; with several the
    channels of a guild are crawled side by side. *)
From Stdlib Require Export ZArith String Ascii List Lia Bool Sorted.
From stdpp Require Export base tactics numbers option list gmap fin_maps strings sorting pretty.
#[export] Set Warnings "-notation-overridden".
Export ListNotations.

Declare Scope discrawl_scope.
Delimit Scope discrawl_scope with discrawl.

(** ** Automation *)

(** Case analysis on the scrutinee of the outermost stuck [match] or [if]. *)
Ltac case_step :=
  match goal with
  | |- context [ match ?x with _ => _ end ] =>
      lazymatch x with context [ match _ with _ => _ end ] => fail | _ => destruct x eqn:? end
  end.

Ltac case_step_in H :=
  match type of H with
  | context [ match ?x with _ => _ end ] =>
      lazymatch x with context [ match _ with _ => _ end ] => fail | _ => destruct x eqn:? end
  end.

(** Turns boolean tests in the context into propositions. *)
Ltac propify :=
  repeat match goal with
  | H : (_ && _)%bool = true |- _ => apply andb_true_iff in H; destruct H
  | H : (_ || _)%bool = false |- _ => apply orb_false_iff in H; destruct H
  | H : (_ && _)%bool = false |- _ => apply andb_false_iff in H
  | H : (_ || _)%bool = true |- _ => apply orb_true_iff in H
  | H : negb _ = true |- _ => apply negb_true_iff in H
  | H : negb _ = false |- _ => apply negb_false_iff in H
  | H : (_ =? _)%Z = true |- _ => apply Z.eqb_eq in H
  | H : (_ =? _)%Z = false |- _ => apply Z.eqb_neq in H
  | H : (_ <? _)%Z = true |- _ => apply Z.ltb_lt in H
  | H : (_ <? _)%Z = false |- _ => apply Z.ltb_ge in H
  | H : (_ <=? _)%Z = true |- _ => apply Z.leb_le in H
  | H : (_ <=? _)%Z = false |- _ => apply Z.leb_gt in H
  | H : (_ =? _)%nat = true |- _ => apply Nat.eqb_eq in H
  | H : (_ =? _)%nat = false |- _ => apply Nat.eqb_neq in H
  | H : (_ <? _)%nat = true |- _ => apply Nat.ltb_lt in H
  | H : (_ <? _)%nat = false |- _ => apply Nat.ltb_ge in H
  | H : (_ =? _)%string = true |- _ => apply String.eqb_eq in H
  | H : (_ =? _)%string = false |- _ => apply String.eqb_neq in H
  | H : bool_decide _ = true |- _ => apply bool_decide_eq_true in H
  | H : bool_decide _ = false |- _ => apply bool_decide_eq_false in H
  end.

(** ** Go strings

    A Go string is a sequence of bytes, here a [string] of 8-bit [ascii].
    The functions below are those of Go's package [strings] the program uses. *)

Definition byte_of (c : ascii) : Z := Z.of_N (N_of_ascii c).

Fixpoint HasPrefix (s prefix : string) {struct prefix} : bool :=
  match prefix, s with
  | EmptyString, _ => true
  | String a p, String b t => if Ascii.eqb a b then HasPrefix t p else false
  | String _ _, EmptyString => false
  end.

(** [strings.CutPrefix]: the rest of [s] after [prefix], or [None]. *)
Fixpoint CutPrefix (s prefix : string) {struct prefix} : option string :=
  match prefix, s with
  | EmptyString, _ => Some s
  | String a p, String b t => if Ascii.eqb a b then CutPrefix t p else None
  | String _ _, EmptyString => None
  end.

(** [strings.CutSuffix]: what precedes the final occurrence of [suffix]. *)
Fixpoint CutSuffix (s suffix : string) : option string :=
  if String.eqb s suffix then Some ""%string
  else match s with
       | EmptyString => None
       | String a t => String a <$> CutSuffix t suffix
       end.

Definition HasSuffix (s suffix : string) : bool :=
  match CutSuffix s suffix with Some _ => true | None => false end.

Definition TrimPrefix (s prefix : string) : string := default s (CutPrefix s prefix).
Definition TrimSuffix (s suffix : string) : string := default s (CutSuffix s suffix).

(** [strings.Contains]. *)
Fixpoint Contains (s sub : string) : bool :=
  HasPrefix s sub ||
  match s with
  | EmptyString => false
  | String _ t => Contains t sub
  end.

(** [strings.Cut]: splits around the first occurrence of a one-byte separator;
    when it does not occur the whole string comes first and nothing after. *)
Fixpoint CutByte (s : string) (sep : ascii) : string * string * bool :=
  match s with
  | EmptyString => (EmptyString, EmptyString, false)
  | String a t =>
      if Ascii.eqb a sep then (EmptyString, t, true)
      else let '(before, after, found) := CutByte t sep in (String a before, after, found)
  end.

(** [strings.ToLower], for the ASCII letters: every other byte is kept. The
    strings the program lowers are provider kinds and error texts. *)
Definition lower_byte (c : ascii) : ascii :=
  let n := N_of_ascii c in
  if (65 <=? n)%N && (n <=? 90)%N then ascii_of_N (n + 32) else c.

Fixpoint ToLower (s : string) : string :=
  match s with
  | EmptyString => EmptyString
  | String a t => String (lower_byte a) (ToLower t)
  end.

Definition nonempty (s : string) : bool := negb (s =? "")%string.

(** [strings.TrimSpace] trims Unicode white space, in its UTF-8 encoding: the
    ASCII spaces, U+0085 and U+00A0 on two bytes, and U+1680, U+2000..U+200A,
    U+2028, U+2029, U+202F, U+205F, U+3000 on three. *)
Definition space1 (a : Z) : bool := ((9 <=? a) && (a <=? 13) || (a =? 32))%Z.
Definition space2 (a b : Z) : bool := ((a =? 194) && ((b =? 133) || (b =? 160)))%Z.
Definition space3 (a b c : Z) : bool :=
  ((a =? 225) && (b =? 154) && (c =? 128)
   || (a =? 226) && (b =? 128) && ((128 <=? c) && (c <=? 138) || (c =? 168) || (c =? 169) || (c =? 175))
   || (a =? 226) && (b =? 129) && (c =? 159)
   || (a =? 227) && (b =? 128) && (c =? 128))%Z.

Fixpoint trim_left (s : string) : string :=
  match s with
  | String a ((String b ((String c t2) as t1)) as t) =>
      if space1 (byte_of a) then trim_left t
      else if space2 (byte_of a) (byte_of b) then trim_left t1
      else if space3 (byte_of a) (byte_of b) (byte_of c) then trim_left t2 else s
  | String a ((String b EmptyString) as t) =>
      if space1 (byte_of a) then trim_left t
      else if space2 (byte_of a) (byte_of b) then EmptyString else s
  | String a EmptyString => if space1 (byte_of a) then EmptyString else s
  | EmptyString => EmptyString
  end.

Fixpoint rev_string (s acc : string) : string :=
  match s with
  | EmptyString => acc
  | String a t => rev_string t (String a acc)
  end.

(** The same on the reversed bytes: the last rune's bytes come in reverse. *)
Fixpoint trim_left_rev (s : string) : string :=
  match s with
  | String c ((String b ((String a t2) as t1)) as t) =>
      if space1 (byte_of c) then trim_left_rev t
      else if space2 (byte_of b) (byte_of c) then trim_left_rev t1
      else if space3 (byte_of a) (byte_of b) (byte_of c) then trim_left_rev t2 else s
  | String c ((String b EmptyString) as t) =>
      if space1 (byte_of c) then trim_left_rev t
      else if space2 (byte_of b) (byte_of c) then EmptyString else s
  | String c EmptyString => if space1 (byte_of c) then EmptyString else s
  | EmptyString => EmptyString
  end.

Definition TrimSpace (s : string) : string :=
  rev_string (trim_left_rev (rev_string (trim_left s) EmptyString)) EmptyString.

(** ** Lemmas on strings *)

#[global] Arguments String.append !_ _ /.
#[global] Arguments String.eqb : simpl never.
#[global] Arguments Ascii.eqb : simpl never.

Lemma append_nil_r (s : string) : (s ++ "")%string = s.
Proof. induction s as [|a s IH]; [done|]. simpl. by rewrite IH. Qed.

Lemma append_assoc (s t u : string) : ((s ++ t) ++ u)%string = (s ++ (t ++ u))%string.
Proof. induction s as [|a s IH]; [done|]. simpl. by rewrite IH. Qed.

Lemma append_inj_l (s t u : string) : (s ++ t)%string = (s ++ u)%string → t = u.
Proof. induction s as [|a s IH]; [done|]. simpl. intros [= H]. auto. Qed.

Lemma length_append (s t : string) :
  String.length (s ++ t) = (String.length s + String.length t)%nat.
Proof. induction s as [|a s IH]; [done|]. simpl. by rewrite IH. Qed.

Lemma append_inj_r (s t u : string) : (s ++ u)%string = (t ++ u)%string → s = t.
Proof.
  revert t. induction s as [|a s IH]; intros [|b t]; simpl; intros H; [done| | |].
  - exfalso. apply (f_equal String.length) in H. simpl in H. rewrite length_append in H. lia.
  - exfalso. apply (f_equal String.length) in H. simpl in H. rewrite length_append in H. lia.
  - injection H as -> H. f_equal. auto.
Qed.

Lemma nonempty_spec s : nonempty s = true ↔ s ≠ ""%string.
Proof. unfold nonempty. rewrite negb_true_iff. apply String.eqb_neq. Qed.

Lemma nonempty_false s : nonempty s = false ↔ s = ""%string.
Proof. unfold nonempty. rewrite negb_false_iff. apply String.eqb_eq. Qed.

Lemma CutPrefix_app (p s : string) : CutPrefix (p ++ s) p = Some s.
Proof. induction p as [|a p IH]; [done|]. simpl. by rewrite Ascii.eqb_refl. Qed.

Lemma CutPrefix_Some (s p r : string) : CutPrefix s p = Some r ↔ s = (p ++ r)%string.
Proof.
  revert s. induction p as [|a p IH]; intros s; simpl.
  { split; [by intros [= ->]|intros ->; done]. }
  destruct s as [|b s]; [split; discriminate|].
  destruct (Ascii.eqb_spec a b) as [->|Hne].
  - rewrite IH. split; [by intros ->|by intros [= ->]].
  - split; [discriminate|]. intros [= -> _]. done.
Qed.

Lemma HasPrefix_CutPrefix (s p : string) :
  HasPrefix s p = match CutPrefix s p with Some _ => true | None => false end.
Proof.
  revert s. induction p as [|a p IH]; intros [|b s]; simpl; try done.
  destruct (Ascii.eqb a b); [apply IH|done].
Qed.

Lemma HasPrefix_app (p s : string) : HasPrefix (p ++ s) p = true.
Proof. by rewrite HasPrefix_CutPrefix, CutPrefix_app. Qed.

Lemma CutSuffix_Some (s suf r : string) : CutSuffix s suf = Some r ↔ s = (r ++ suf)%string.
Proof.
  revert r. induction s as [|a s IH]; intros r; simpl.
  - destruct (String.eqb_spec "" suf) as [<-|Hne].
    + split; [by intros [= <-]|]. by destruct r.
    + split; [discriminate|]. destruct r; [|discriminate]. simpl. congruence.
  - destruct (String.eqb_spec (String a s) suf) as [<-|Hne].
    + split; [by intros [= <-]|]. intros H. f_equal.
      by apply (append_inj_r "" r (String a s)).
    + destruct r as [|b r]; simpl.
      * split; [|by intros <-]. by destruct (CutSuffix s suf).
      * destruct (CutSuffix s suf) as [q|]; simpl.
        -- split; [intros [= -> ->]; f_equal; by apply IH|].
           intros [= -> H]. apply IH in H. congruence.
        -- split; [discriminate|]. intros [= -> H]. apply IH in H. discriminate.
Qed.

Lemma HasSuffix_app (p s : string) : HasSuffix (p ++ s) s = true.
Proof. unfold HasSuffix. by rewrite (proj2 (CutSuffix_Some (p ++ s) s p) eq_refl). Qed.

Create HintDb discrawl.
Create Rewrite HintDb discrawl.
#[export] Hint Rewrite append_nil_r append_assoc CutPrefix_app HasPrefix_app HasSuffix_app : discrawl.

(** ** Lemmas on lists *)

Lemma elem_of_lfilter {A} (p : A → bool) l x : x ∈ List.filter p l ↔ x ∈ l ∧ p x = true.
Proof. rewrite !list_elem_of_In. apply filter_In. Qed.

Lemma ex_elem_of_cons {A} (P : A → Prop) a l : (∃ x, x ∈ a :: l ∧ P x) ↔ P a ∨ ∃ x, x ∈ l ∧ P x.
Proof. setoid_rewrite elem_of_cons. naive_solver. Qed.

Lemma ex_elem_of_nil {A} (P : A → Prop) : (∃ x, x ∈ [] ∧ P x) ↔ False.
Proof. split; [|done]. by intros (x & ?%elem_of_nil & _). Qed.

Lemma elem_of_take_in {A} n (l : list A) x : x ∈ take n l → x ∈ l.
Proof. intros (i & H & _)%elem_of_take. by apply list_elem_of_lookup_2 in H. Qed.

Lemma elem_of_take_or_drop {A} n (l : list A) x : x ∈ l → x ∈ take n l ∨ x ∈ drop n l.
Proof. rewrite <- (take_drop n l) at 1. apply elem_of_app. Qed.

Lemma elem_of_rev {A} (x : A) l : x ∈ rev l ↔ x ∈ l.
Proof. by rewrite !list_elem_of_In, <- in_rev. Qed.

Lemma NoDup_fmap_lfilter {A B} (k : A → B) (p : A → bool) l : NoDup (k <$> l) → NoDup (k <$> List.filter p l).
Proof.
  induction l as [|x l IH]; [done|]. rewrite fmap_cons. intros [Hx Hn]%NoDup_cons. cbn [List.filter]. destruct (p x); [|by apply IH].
  rewrite fmap_cons. constructor; [|by apply IH]. intros (y & E & [Hy _]%elem_of_lfilter)%list_elem_of_fmap. apply Hx. rewrite E. by apply list_elem_of_fmap_2.
Qed.

(** Elements with a key of their own. *)
Lemma NoDup_key_inj {A B} (k : A → B) (xs : list A) x y :
  NoDup (k <$> xs) → x ∈ xs → y ∈ xs → k x = k y → x = y.
Proof.
  induction xs as [|z xs IH]; simpl; [by intros _ ?%elem_of_nil|].
  intros [Hn Hd]%NoDup_cons Hx Hy E.
  apply elem_of_cons in Hx as [->|Hx], Hy as [->|Hy]; auto; exfalso; apply Hn;
    [rewrite E|rewrite <- E]; by apply list_elem_of_fmap_2.
Qed.

Lemma filter_shortens {A} (f : A → bool) l x : x ∈ l → f x = false → (length (List.filter f l) < length l)%nat.
Proof.
  intros Hx Hf. induction Hx as [x l|x y l _ IH]; cbn [List.filter length]; [rewrite Hf; pose proof (List.filter_length_le f l); lia|].
  specialize (IH Hf). destruct (f y); cbn [length]; lia.
Qed.

Lemma filter_sorted {A} (R : A → A → Prop) f l : StronglySorted R l → StronglySorted R (List.filter f l).
Proof.
  induction 1 as [|x l Hl IH Hx]; simpl; [constructor|]. destruct (f x); [|done].
  constructor; [done|]. rewrite Forall_forall in *. intros y Hy%elem_of_lfilter.
  apply Hx. naive_solver.
Qed.

Lemma take_drop_sorted {A} (R : A → A → Prop) n l x y :
  StronglySorted R l → x ∈ take n l → y ∈ drop n l → R x y.
Proof. intros Hs. rewrite <- (take_drop n l) in Hs. by apply StronglySorted_app_1_elem_of. Qed.

Lemma rev_sorted {A} (R : A → A → Prop) l : StronglySorted R l → StronglySorted (λ a b, R b a) (rev l).
Proof.
  induction 1 as [|x l Hl IH Hx]; simpl; [constructor|].
  apply StronglySorted_app_2; [|done|by repeat constructor].
  intros a b Ha ->%list_elem_of_singleton. rewrite Forall_forall in Hx.
  apply Hx. by apply elem_of_rev.
Qed.
