(* ===== verification/Snowflake.v ===== *)
(** * Snowflake identifiers as cursors

    Discord ids are unsigned 64-bit integers carried as decimal strings.
    [maxSnowflake] (internal/syncer/records.go) compares them by parsing;
    [AdvanceChannelLatestMessageID] (internal/store/write.go) compares them in
    SQL by length and then bytewise. This file models both comparisons and
    relates them to the numeric order. *)
From S2P Require Import Prelude.
Local Open Scope Z_scope.

(** ** Definitions *)

Definition is_digit (c : ascii) : bool := (48 <=? byte_of c) && (byte_of c <=? 57).

Fixpoint all_digits (s : string) : bool :=
  match s with
  | EmptyString => true
  | String c t => is_digit c && all_digits t
  end.

(** The value of a digit string, most significant digit first. *)
Fixpoint digits_value (acc : Z) (s : string) : Z :=
  match s with
  | EmptyString => acc
  | String c t => digits_value (acc * 10 + (byte_of c - 48)) t
  end.

(** [strconv.ParseUint(s, 10, 64)]: [None] on a syntax or a range error. *)
Definition ParseUint (s : string) : option Z :=
  if (s =? "")%string then None
  else if all_digits s then
    let n := digits_value 0 s in if n <? 2 ^ 64 then Some n else None
  else None.

Definition maxSnowflake (current candidate : string) : string :=
  if (current =? "")%string then candidate
  else if (candidate =? "")%string then current
  else match ParseUint current, ParseUint candidate with
       | Some a, Some b => if a <? b then candidate else current
       | _, _ => if String.ltb current candidate then candidate else current
       end.

Definition isCanonicalDecimalSnowflake (value : string) : bool :=
  match value with
  | EmptyString => false
  | String c t =>
      if (1 <? String.length value)%nat && Ascii.eqb c "0" then false
      else all_digits value
  end.

(** The [where] clause of the upsert in [AdvanceChannelLatestMessageID]: the
    stored cursor ([None] for SQL null) gives way to the excluded one. *)
Definition latest_gives_way (stored : option string) (excluded : string) : bool :=
  match stored with
  | None => true
  | Some c =>
      (c =? "")%string
      || (all_digits c && ((c =? "0")%string || negb (HasPrefix c "0")))
         && ((String.length c <? String.length excluded)%nat
             || (String.length excluded =? String.length c)%nat && String.ltb c excluded)
  end.

(** ** Cursors and their rank *)

(** An id as Discord hands it out: canonical decimal, within 64 bits. *)
Definition snowflake_id (s : string) : bool :=
  isCanonicalDecimalSnowflake s && (digits_value 0 s <? 2 ^ 64).

(** A stored cursor: empty, or an id. *)
Definition is_cursor (s : string) : bool := (s =? "")%string || snowflake_id s.

(** Position of a cursor: the empty one is below every id. *)
Definition rank (s : string) : Z := if (s =? "")%string then -1 else digits_value 0 s.

(** ** Digit strings *)

Lemma byte_of_inj c d : byte_of c = byte_of d → c = d.
Proof.
  unfold byte_of. intros H%N2Z.inj.
  rewrite <- (ascii_N_embedding c), <- (ascii_N_embedding d). by rewrite H.
Qed.

Lemma is_digit_bounds c : is_digit c = true → 0 <= byte_of c - 48 <= 9.
Proof. unfold is_digit. intros H. propify. lia. Qed.

Lemma digits_value_acc s acc :
  digits_value acc s = acc * 10 ^ Z.of_nat (String.length s) + digits_value 0 s.
Proof.
  revert acc. induction s as [|c s IH]; intros acc; simpl digits_value; simpl String.length.
  { lia. }
  rewrite IH, (IH (0 * 10 + _)), Nat2Z.inj_succ, Z.pow_succ_r by lia. lia.
Qed.

Lemma digits_value_bounds s :
  all_digits s = true → 0 <= digits_value 0 s < 10 ^ Z.of_nat (String.length s).
Proof.
  induction s as [|c s IH]; simpl all_digits; simpl digits_value; simpl String.length; [lia|].
  intros H. propify. specialize (IH ltac:(assumption)).
  apply is_digit_bounds in H. rewrite digits_value_acc, Nat2Z.inj_succ, Z.pow_succ_r by lia. nia.
Qed.

Lemma canonical_all_digits s : isCanonicalDecimalSnowflake s = true → all_digits s = true.
Proof. destruct s; simpl; [done|]. by case_match. Qed.

Lemma canonical_nonempty s : isCanonicalDecimalSnowflake s = true → s ≠ ""%string.
Proof. by destruct s. Qed.

(** A canonical id with [n] digits is at least [10 ^ (n - 1)], unless it is 0. *)
Lemma canonical_lower_bound c t :
  isCanonicalDecimalSnowflake (String c t) = true → t ≠ ""%string →
  10 ^ Z.of_nat (String.length t) <= digits_value 0 (String c t).
Proof.
  intros H Ht. unfold isCanonicalDecimalSnowflake in H.
  destruct t as [|d t]; [done|].
  replace (1 <? String.length (String c (String d t)))%nat with true in H by done.
  destruct (Ascii.eqb_spec c "0") as [->|Hne]; [done|]. cbn [andb] in H.
  cbn [all_digits] in H. propify.
  assert (byte_of c ≠ 48) by (intros E; apply Hne, byte_of_inj; by rewrite E).
  apply is_digit_bounds in H.
  cbn [digits_value]. fold (digits_value (0 * 10 + (byte_of c - 48)) (String d t)).
  pose proof (digits_value_bounds (String d t)) as B. cbn [all_digits] in B.
  rewrite H1, H0 in B. specialize (B eq_refl).
  change (digits_value ((0 * 10 + (byte_of c - 48)) * 10 + (byte_of d - 48)) t)
    with (digits_value (0 * 10 + (byte_of c - 48)) (String d t)).
  rewrite digits_value_acc. nia.
Qed.

Lemma canonical_length_lt a b :
  isCanonicalDecimalSnowflake a = true → isCanonicalDecimalSnowflake b = true →
  (String.length a < String.length b)%nat → digits_value 0 a < digits_value 0 b.
Proof.
  intros Ha Hb Hl.
  pose proof (digits_value_bounds a (canonical_all_digits a Ha)) as Ba.
  destruct b as [|c t]; [done|].
  assert (t ≠ ""%string).
  { intros ->. destruct a; [done|]. simpl in Hl. lia. }
  pose proof (canonical_lower_bound c t Hb ltac:(done)) as Bb.
  assert (10 ^ Z.of_nat (String.length a) <= 10 ^ Z.of_nat (String.length t)); [|lia].
  apply Z.pow_le_mono_r; simpl in Hl; lia.
Qed.

Lemma ascii_compare_byte c d : Ascii.compare c d = Z.compare (byte_of c) (byte_of d).
Proof. unfold Ascii.compare, byte_of. by rewrite N2Z.inj_compare. Qed.

(** On digit strings of equal length the bytewise order is the numeric one. *)
Lemma digits_compare a b :
  all_digits a = true → all_digits b = true → String.length a = String.length b →
  String.compare a b = Z.compare (digits_value 0 a) (digits_value 0 b).
Proof.
  revert b. induction a as [|c a IH]; intros [|d b]; try done.
  cbn [all_digits String.compare String.length digits_value]. intros Ha Hb Hl. propify.
  injection Hl as Hl.
  pose proof (digits_value_bounds a ltac:(done)). pose proof (digits_value_bounds b ltac:(done)).
  rewrite digits_value_acc, (digits_value_acc b), ascii_compare_byte, <- Hl.
  rewrite <- Hl in *. set (p := 10 ^ Z.of_nat (String.length a)) in *.
  destruct (Z.compare_spec (byte_of c) (byte_of d)) as [E|E|E].
  - rewrite IH by done. rewrite E. symmetry. destruct (Z.compare_spec (digits_value 0 a) (digits_value 0 b));
      [apply Z.compare_eq_iff|apply Z.compare_lt_iff|apply Z.compare_gt_iff]; lia.
  - symmetry. apply Z.compare_lt_iff. nia.
  - symmetry. apply Z.compare_gt_iff. nia.
Qed.

Lemma ltb_compare a b : String.ltb a b = match String.compare a b with Lt => true | _ => false end.
Proof. done. Qed.

Lemma canonical_same_length_ltb a b :
  isCanonicalDecimalSnowflake a = true → isCanonicalDecimalSnowflake b = true →
  String.length a = String.length b →
  String.ltb a b = (digits_value 0 a <? digits_value 0 b).
Proof.
  intros Ha%canonical_all_digits Hb%canonical_all_digits Hl.
  rewrite ltb_compare, digits_compare by done. by unfold Z.ltb.
Qed.

(** Length first, then bytes: the numeric order on canonical ids. *)
Lemma canonical_order a b :
  isCanonicalDecimalSnowflake a = true → isCanonicalDecimalSnowflake b = true →
  ((String.length a <? String.length b)%nat
   || (String.length b =? String.length a)%nat && String.ltb a b)
  = (digits_value 0 a <? digits_value 0 b).
Proof.
  intros Ha Hb.
  destruct (Nat.ltb_spec (String.length a) (String.length b)) as [Hl|Hl].
  - symmetry. apply Z.ltb_lt. by apply canonical_length_lt.
  - destruct (Nat.eqb_spec (String.length b) (String.length a)) as [He|Hne]; simpl.
    + by apply canonical_same_length_ltb.
    + symmetry. apply Z.ltb_ge. pose proof (canonical_length_lt b a Hb Ha). lia.
Qed.

Lemma canonical_inj a b :
  isCanonicalDecimalSnowflake a = true → isCanonicalDecimalSnowflake b = true →
  digits_value 0 a = digits_value 0 b → a = b.
Proof.
  intros Ha Hb He.
  assert (String.length a = String.length b) as Hl.
  { pose proof (canonical_length_lt a b Ha Hb). pose proof (canonical_length_lt b a Hb Ha). lia. }
  pose proof (digits_compare a b (canonical_all_digits a Ha) (canonical_all_digits b Hb) Hl) as Hc.
  rewrite He, Z.compare_refl in Hc. by apply String.compare_eq_iff.
Qed.

(** ** Ids and cursors *)

Lemma snowflake_id_canonical s : snowflake_id s = true → isCanonicalDecimalSnowflake s = true.
Proof. unfold snowflake_id. intros H. by propify. Qed.

Lemma ParseUint_snowflake s : snowflake_id s = true → ParseUint s = Some (digits_value 0 s).
Proof.
  unfold snowflake_id, ParseUint. intros H. propify.
  rewrite (canonical_all_digits s) by done.
  destruct (String.eqb_spec s "") as [->|]; [done|].
  by destruct (Z.ltb_spec (digits_value 0 s) (2 ^ 64)); [|lia].
Qed.

Lemma rank_snowflake s : snowflake_id s = true → rank s = digits_value 0 s ∧ 0 <= rank s.
Proof.
  intros H%snowflake_id_canonical. unfold rank.
  destruct (String.eqb_spec s "") as [->|]; [done|].
  pose proof (digits_value_bounds s (canonical_all_digits s H)). lia.
Qed.

Lemma is_cursor_cases s : is_cursor s = true → s = ""%string ∨ snowflake_id s = true.
Proof. unfold is_cursor. intros H. propify. destruct H as [H|H]; [left|by right]. by propify. Qed.

Lemma is_cursor_snowflake s : snowflake_id s = true → is_cursor s = true.
Proof. unfold is_cursor. intros ->. apply orb_true_r. Qed.

Lemma is_cursor_empty : is_cursor "" = true.
Proof. done. Qed.

Lemma rank_inj a b : is_cursor a = true → is_cursor b = true → rank a = rank b → a = b.
Proof.
  intros [->|Ha]%is_cursor_cases [->|Hb]%is_cursor_cases H; [done| | |].
  - destruct (rank_snowflake b Hb). change (rank "") with (-1) in H. lia.
  - destruct (rank_snowflake a Ha). change (rank "") with (-1) in H. lia.
  - destruct (rank_snowflake a Ha), (rank_snowflake b Hb).
    apply canonical_inj; [by apply snowflake_id_canonical..|lia].
Qed.

Lemma rank_lower s : is_cursor s = true → -1 <= rank s.
Proof. intros [->|H]%is_cursor_cases; [done|]. destruct (rank_snowflake s H). lia. Qed.

Lemma rank_empty_iff s : is_cursor s = true → rank s = -1 ↔ s = ""%string.
Proof.
  intros Hs. split; [|by intros ->]. intros H. by apply rank_inj.
Qed.

(** [maxSnowflake] on cursors, as a function of ranks. *)
Lemma maxSnowflake_cursor a b :
  is_cursor a = true → is_cursor b = true →
  maxSnowflake a b = if rank a <? rank b then b else a.
Proof.
  intros Ha Hb. unfold maxSnowflake.
  destruct (is_cursor_cases a Ha) as [->|Sa].
  { cbn [String.eqb]. pose proof (rank_lower b Hb). change (rank "") with (-1).
    destruct (Z.ltb_spec (-1) (rank b)); [done|]. simpl. apply rank_empty_iff; [done|lia]. }
  destruct (String.eqb_spec a "") as [->|]; [done|].
  destruct (is_cursor_cases b Hb) as [->|Sb].
  { destruct (rank_snowflake a Sa). change (rank "") with (-1). simpl.
    destruct (Z.ltb_spec (rank a) (-1)); [lia|done]. }
  destruct (String.eqb_spec b "") as [->|]; [done|].
  rewrite !ParseUint_snowflake by done.
  destruct (rank_snowflake a Sa) as [<- _], (rank_snowflake b Sb) as [<- _]. done.
Qed.

Lemma maxSnowflake_is_cursor a b :
  is_cursor a = true → is_cursor b = true → is_cursor (maxSnowflake a b) = true.
Proof. intros Ha Hb. rewrite maxSnowflake_cursor by done. by case_match. Qed.

Lemma maxSnowflake_rank a b :
  is_cursor a = true → is_cursor b = true → rank (maxSnowflake a b) = Z.max (rank a) (rank b).
Proof.
  intros Ha Hb. rewrite maxSnowflake_cursor by done.
  destruct (Z.ltb_spec (rank a) (rank b)); lia.
Qed.

Lemma maxSnowflake_empty_l b : maxSnowflake "" b = b.
Proof. done. Qed.

Lemma maxSnowflake_empty_r a : maxSnowflake a "" = a.
Proof. unfold maxSnowflake. by destruct (String.eqb_spec a "") as [->|]. Qed.

#[export] Hint Resolve is_cursor_snowflake maxSnowflake_is_cursor is_cursor_empty : discrawl.

(** ** Properties *)

(** on stored cursors (the empty cursor or a 64-bit decimal id)
    [maxSnowflake] is the join of the numeric order: it returns one of its
    arguments, the result is an upper bound with the empty cursor as unit, and
    it is commutative, associative and idempotent, so the newest id of a run
    does not depend on the order in which pages and cursors are folded. *)
Theorem maxSnowflake_join (a b c : string) :
  is_cursor a = true → is_cursor b = true → is_cursor c = true →
  (maxSnowflake a b = a ∨ maxSnowflake a b = b)
  ∧ rank a <= rank (maxSnowflake a b) ∧ rank b <= rank (maxSnowflake a b)
  ∧ maxSnowflake a b = maxSnowflake b a
  ∧ maxSnowflake a (maxSnowflake b c) = maxSnowflake (maxSnowflake a b) c
  ∧ maxSnowflake a a = a ∧ maxSnowflake "" a = a ∧ maxSnowflake a "" = a.
Proof.
  intros Ha Hb Hc. pose proof (maxSnowflake_rank a b Ha Hb) as R.
  split; [rewrite maxSnowflake_cursor by done; case_match; auto|].
  split; [lia|]. split; [lia|].
  split; [apply rank_inj; rewrite ?maxSnowflake_rank by done; auto with discrawl; lia|].
  split.
  { apply rank_inj; rewrite ?maxSnowflake_rank by auto with discrawl; auto with discrawl; lia. }
  split; [rewrite maxSnowflake_cursor by done; by case_match|].
  split; [done|apply maxSnowflake_empty_r].
Qed.

Lemma maxSnowflake_join_witness :
  maxSnowflake "999" "1000" = "1000"%string
  ∧ maxSnowflake "999" "1000" = maxSnowflake "1000" "999".
Proof.
  pose proof (maxSnowflake_join "999" "1000" "" ltac:(reflexivity) ltac:(reflexivity) ltac:(reflexivity))
    as (_ & _ & _ & H & _).
  split; [reflexivity|exact H].
Defined.
