(* ===== verification/Decimal.v ===== *)
(** * Decimal texts

    Package strconv on 64-bit integers: [FormatInt] (and [Itoa]), [ParseInt]
    (and [Atoi]), base ten, and their round trip. *)
From S2P Require Import Prelude Snowflake.
Local Open Scope Z_scope.

(** The last decimal digit of [n]. *)
Definition digit (n : Z) : ascii := ascii_of_N (Z.to_N (48 + n mod 10)).

(** [strconv.FormatInt(n, 10)] for an int64. *)
Fixpoint FormatUint (fuel : nat) (n : Z) (acc : string) : string :=
  match fuel with
  | O => acc
  | S k => if n <? 10 then String (digit n) acc else FormatUint k (n / 10) (String (digit n) acc)
  end.

Definition FormatInt (n : Z) : string :=
  if n <? 0 then String "-" (FormatUint 20 (- n) "") else FormatUint 20 n "".

Definition int64 (n : Z) : Prop := - 2 ^ 63 <= n < 2 ^ 63.

(** [strconv.ParseInt(s, 10, 64)], [None] on an error. *)
Definition ParseInt (s : string) : option Z :=
  let '(neg, digits) := match s with
                        | String "-" t => (true, t)
                        | String "+" t => (false, t)
                        | _ => (false, s)
                        end in
  if (digits =? "")%string || negb (all_digits digits) then None
  else let n := digits_value 0 digits in
       if neg then (if 2 ^ 63 <? n then None else Some (- n))
       else (if 2 ^ 63 <=? n then None else Some n).

Lemma is_digit_digit n : is_digit (digit n) = true ∧ byte_of (digit n) - 48 = n mod 10.
Proof.
  unfold is_digit, digit, byte_of. pose proof (Z.mod_pos_bound n 10 ltac:(lia)).
  rewrite N_ascii_embedding by lia. rewrite Z2N.id by lia. lia.
Qed.

(** ** Round trip *)

Lemma FormatUint_app k n acc : FormatUint k n acc = (FormatUint k n "" ++ acc)%string.
Proof.
  revert n acc. induction k as [|k IH]; intros n acc; simpl; [done|]. destruct (n <? 10); [done|].
  rewrite IH, (IH _ (String _ "")), append_assoc. done.
Qed.

Lemma digits_value_snoc s c : digits_value 0 (s ++ String c "") = digits_value 0 s * 10 + (byte_of c - 48).
Proof.
  generalize 0 at 1 2 as a. induction s as [|d s IH]; intros a; simpl; [done|]. apply IH.
Qed.

Lemma all_digits_app s t : all_digits (s ++ t) = all_digits s && all_digits t.
Proof. induction s as [|c s IH]; simpl; [done|]. rewrite IH. by destruct (is_digit c). Qed.

Lemma FormatUint_spec k n :
  0 <= n < 10 ^ Z.of_nat k → (0 < k)%nat →
  FormatUint k n "" ≠ ""%string ∧ all_digits (FormatUint k n "") = true ∧ digits_value 0 (FormatUint k n "") = n.
Proof.
  revert n. induction k as [|k IH]; intros n Hn Hk; [lia|]. simpl. destruct (is_digit_digit n) as [Hd Hv].
  destruct (Z.ltb_spec n 10) as [Hlt|Hge].
  - rewrite Z.mod_small in Hv by lia. simpl. rewrite Hd. split_and!; [done|done|lia].
  - rewrite Nat2Z.inj_succ, Z.pow_succ_r in Hn by lia. destruct k as [|k]; [simpl in Hn; lia|].
    destruct (IH (n / 10)) as (Hne & Had & Hval); [|lia|].
    { split; [apply Z.div_pos; lia|apply Z.div_lt_upper_bound; lia]. }
    rewrite FormatUint_app, all_digits_app, digits_value_snoc, Had, Hval, Hv. cbn [all_digits]. rewrite Hd. split_and!; [|done|].
    + by destruct (FormatUint (S k) (n / 10) "").
    + pose proof (Z.div_mod n 10 ltac:(lia)). lia.
Qed.

Lemma FormatUint_head k n c t : 0 <= n < 10 ^ Z.of_nat k → (0 < k)%nat → FormatUint k n "" = String c t → is_digit c = true.
Proof. intros H Hk E. destruct (FormatUint_spec k n H Hk) as (_ & Hd & _). rewrite E in Hd. simpl in Hd. by apply andb_true_iff in Hd as [? _]. Qed.

(** A signed integer survives being printed and parsed. *)
Lemma ParseInt_FormatInt n : int64 n → ParseInt (FormatInt n) = Some n.
Proof.
  unfold int64, FormatInt. intros Hn. destruct (Z.ltb_spec n 0) as [Hneg|Hpos].
  - destruct (FormatUint_spec 20 (- n)) as (Hne & Hd & Hv); [split; [lia|]; change (10 ^ Z.of_nat 20) with 100000000000000000000; lia|lia|].
    unfold ParseInt. apply String.eqb_neq in Hne. rewrite Hne, Hd, Hv. simpl negb. cbv iota. cbn [orb].
    assert (2 ^ 63 <? - n = false) as -> by lia. f_equal. lia.
  - assert (0 <= n < 10 ^ Z.of_nat 20) as Hr by (change (10 ^ Z.of_nat 20) with 100000000000000000000; lia).
    destruct (FormatUint_spec 20 n Hr ltac:(lia)) as (Hne & Hd & Hv).
    assert (match FormatUint 20 n "" with String "-" t => (true, t) | String "+" t => (false, t) | _ => (false, FormatUint 20 n "") end
            = (false, FormatUint 20 n "")) as E.
    { destruct (FormatUint 20 n "") as [|c t] eqn:Ef; [done|]. pose proof (FormatUint_head 20 n c t Hr ltac:(lia) Ef) as Hc.
      destruct c as [[] [] [] [] [] [] [] []]; try done; by vm_compute in Hc. }
    unfold ParseInt. rewrite E. apply String.eqb_neq in Hne. rewrite Hne, Hd, Hv. cbn [orb negb].
    assert (2 ^ 63 <=? n = false) as -> by lia. done.
Qed.

Lemma ParseInt_int64 s n : ParseInt s = Some n → int64 n.
Proof.
  unfold ParseInt, int64. destruct (match s with String "-" t => _ | _ => _ end) as [neg d]. intros H. repeat case_step_in H; simplify_eq; propify.
  - destruct (all_digits d) eqn:Hd; [|done]. pose proof (digits_value_bounds d Hd). lia.
  - destruct (all_digits d) eqn:Hd; [|done]. pose proof (digits_value_bounds d Hd). lia.
Qed.
