(* ===== verification/Errors.v ===== *)
(** * Go error values and the classification of crawl errors

    [err] is the tree of a Go error: sentinels, provider (REST) errors, network
    errors and the wrapping built by [fmt.Errorf] with one or two [%w] verbs.
    [errors.Is]/[errors.As] search that tree; [Error] is the message. The rest
    of the file is internal/syncer/errors.go. *)
From S2P Require Import Prelude.

Inductive err : Type :=
  | EText (msg : string)                                (** [errors.New], or a driver's error *)
  | ECollectionScope                                    (** [store.ErrCollectionScope] *)
  | EHistoryPermissionDenied                            (** [errHistoryPermissionDenied] *)
  | ECanceled                                           (** [context.Canceled] *)
  | EDeadlineExceeded                                   (** [context.DeadlineExceeded] *)
  | ENet (timeout : bool) (msg : string)                (** a [net.Error] *)
  | ERest (status code : option Z) (msg : string)       (** [*discordgo.RESTError] *)
  | EWrap (prefix : string) (cause : err) (suffix : string)       (** one [%w] *)
  | EWrap2 (prefix : string) (a : err) (mid : string) (b : err) (suffix : string). (** two *)

Fixpoint Error (e : err) : string :=
  match e with
  | EText m => m
  | ECollectionScope => "message collection scope is not allowed"
  | EHistoryPermissionDenied => "required history permissions are denied"
  | ECanceled => "context canceled"
  | EDeadlineExceeded => "context deadline exceeded"
  | ENet _ m => m
  | ERest _ _ m => m
  | EWrap p c s => (p ++ Error c ++ s)%string
  | EWrap2 p a m b s => (p ++ Error a ++ m ++ Error b ++ s)%string
  end.

(** [errors.As]: the first error of the tree, depth first, that matches. *)
Fixpoint error_as {A} (f : err → option A) (e : err) : option A :=
  match f e with
  | Some x => Some x
  | None =>
      match e with
      | EWrap _ c _ => error_as f c
      | EWrap2 _ a _ b _ =>
          match error_as f a with Some x => Some x | None => error_as f b end
      | _ => None
      end
  end.

Definition is_scope (e : err) : bool :=
  match error_as (λ x, match x with ECollectionScope => Some tt | _ => None end) e with
  | Some _ => true | None => false end.
Definition is_permission_denied (e : err) : bool :=
  match error_as (λ x, match x with EHistoryPermissionDenied => Some tt | _ => None end) e with
  | Some _ => true | None => false end.
Definition is_canceled (e : err) : bool :=
  match error_as (λ x, match x with ECanceled => Some tt | _ => None end) e with
  | Some _ => true | None => false end.
Definition is_deadline (e : err) : bool :=
  match error_as (λ x, match x with EDeadlineExceeded => Some tt | _ => None end) e with
  | Some _ => true | None => false end.

(** [errors.AsType[net.Error]]: its [Timeout()]. *)
Definition as_net (e : err) : option bool :=
  error_as (λ x, match x with
                 | ENet t _ => Some t
                 | EDeadlineExceeded => Some true
                 | _ => None end) e.

(** [errors.As(err, &rest)]: status and provider code. *)
Definition as_rest (e : err) : option (option Z * option Z) :=
  error_as (λ x, match x with ERest s c _ => Some (s, c) | _ => None end) e.

(** [errors.Join] of two possibly nil errors. A join of one error has the
    message and the tree of that error. *)
Definition errors_Join (a b : option err) : option err :=
  match a, b with
  | Some x, Some y => Some (EWrap2 "" x (String "010" EmptyString) y "")
  | Some x, None => Some x
  | None, o => o
  end.

(** internal/syncer/failures.go, [withFailureRecordError]. *)
Definition withFailureRecordError (failure : err) (recordErr : option err) : err :=
  match recordErr with
  | None => failure
  | Some r => EWrap2 "" failure " (record failure ledger: " r ")"
  end.

(** ** internal/syncer/errors.go *)

Definition isUnknownChannel (e : err) : bool :=
  let msg := ToLower (Error e) in
  Contains msg "unknown channel"
  || Contains msg "http 404"
     && Contains msg (String "034" ("code" ++ String "034" ": 10003"))%string.

Definition isMissingAccess (e : err) : bool :=
  let msg := Error e in Contains msg "403 Forbidden" || Contains msg "Missing Access".

Definition unavailableReason (e : err) : string :=
  if is_permission_denied e then "missing_history_permissions"
  else if isMissingAccess e then "missing_access"
  else if isUnknownChannel e then "unknown_channel"
  else "".

Definition retryable_texts : list string :=
  ["deadline exceeded"; "timeout"; "eof"; "connection reset"; "broken pipe"; "stream error";
   "goaway"; "http 429"; "http 500"; "http 502"; "http 503"; "http 504"]%string.

(** [ctx_done] is [ctx != nil && ctx.Err() != nil]. *)
Definition isRetryableSyncError (ctx_done : bool) (e : option err) : bool :=
  match e with
  | None => false
  | Some e =>
      if ctx_done then false
      else if is_canceled e then false
      else if is_deadline e then true
      else match as_net e with
           | Some t => t
           | None => existsb (Contains (ToLower (Error e))) retryable_texts
           end
  end.

(** internal/syncer/reconcile.go, [confirmedDiscordMissing]. *)
Definition confirmedDiscordMissing (e : option err) (code : Z) : bool :=
  match e with
  | None => false
  | Some e =>
      match as_rest e with
      | Some (Some status, Some c) => (status =? 404)%Z && (c =? code)%Z
      | _ => false
      end
  end.

(** internal/syncer/message_sync.go, [syncErrorOutcome]. *)
Definition syncErrorOutcome (e : err) : string :=
  let reason := unavailableReason e in
  if (reason =? "missing_access")%string then "skipped_missing_access"
  else if (reason =? "unknown_channel")%string then "skipped_unknown_channel"
  else if isRetryableSyncError false (Some e) then "deferred_retryable"
  else "skipped".

(** ** Lemmas *)

Lemma error_as_wrap {A} (f : err → option A) p c s :
  f (EWrap p c s) = None → error_as f (EWrap p c s) = error_as f c.
Proof. simpl. by intros ->. Qed.

Lemma is_scope_wrap p c s : is_scope (EWrap p c s) = is_scope c.
Proof. done. Qed.

Lemma is_scope_record e r : is_scope e = true → is_scope (withFailureRecordError e r) = true.
Proof.
  unfold is_scope. destruct r as [r|]; simpl; [|done].
  by destruct (error_as _ e) eqn:E.
Qed.

Lemma errors_Join_None a b : errors_Join a b = None ↔ a = None ∧ b = None.
Proof. destruct a, b; simpl; naive_solver. Qed.

Lemma Contains_app_l a b sub : Contains b sub = true → Contains (a ++ b) sub = true.
Proof.
  induction a as [|c a IH]; simpl; [done|]. intros H. rewrite IH by done. apply orb_true_r.
Qed.
