(* ===== verification/SyncState.v ===== *)
(** * The sync_state table

    internal/store/write.go and query.go: one cursor per scope string, with the
    instant of the last write; internal/syncer/records.go: the scope names;
    internal/store/unavailable.go: the markers of unavailable channels. A row's
    [updated_at] is the instant in nanoseconds, [None] when the stored text does
    not parse. *)
From S2P Require Import Prelude Snowflake Errors.
Local Open Scope Z_scope.

Record sync_row := SyncRow { cursor : option string; updated_at : option Z }.

(** ** Scope names (internal/syncer/records.go) *)

Definition channelScope (channelID suffix : string) : string :=
  ("channel:" ++ channelID ++ suffix)%string.
Definition channelLatestScope (id : string) := channelScope id ":latest_message_id".
Definition channelBackfillScope (id : string) := channelScope id ":backfill_before_id".
Definition channelHistoryCompleteScope (id : string) := channelScope id ":history_complete".
Definition channelHistoryVerificationScope (id : string) :=
  channelScope id ":history_verification_pending".
Definition channelVerifiedEmptyScope (id : string) := channelScope id ":verified_empty".
Definition channelMessageUnavailableScope (id : string) := channelScope id ":unavailable".
Definition channelThreadCatalogUnavailableScope (id : string) :=
  channelScope id ":thread_catalog_unavailable".

(** ** Operations *)

Definition GetSyncState (scope : string) (t : gmap string sync_row) : string :=
  match t !! scope with
  | Some r => default ""%string (cursor r)
  | None => ""
  end.

Definition SetSyncState (now : Z) (scope cur : string) (t : gmap string sync_row) :
    gmap string sync_row :=
  <[scope := SyncRow (Some cur) (Some now)]> t.

Definition DeleteSyncState (scope : string) (t : gmap string sync_row) : gmap string sync_row :=
  delete scope t.

(** [AdvanceChannelLatestMessageID]: the guarded upsert, then the check of what
    is stored when the upsert changed no row. *)
Definition AdvanceChannelLatestMessageID (now : Z) (channelID messageID : string)
    (t : gmap string sync_row) : option err * gmap string sync_row :=
  if (messageID =? "")%string then (None, t)
  else if (channelID =? "")%string then (Some (EText "channel id is required"), t)
  else if negb (isCanonicalDecimalSnowflake messageID) then
    (Some (EText "channel latest message id must be a canonical decimal snowflake"), t)
  else
    let scope := channelLatestScope channelID in
    let gives_way := match t !! scope with
                     | None => true
                     | Some r => latest_gives_way (cursor r) messageID
                     end in
    if gives_way then (None, SetSyncState now scope messageID t)
    else
      let current := GetSyncState scope t in
      if negb (current =? "")%string && negb (isCanonicalDecimalSnowflake current) then
        (Some (EText "stored channel latest message id is not a canonical decimal snowflake"), t)
      else (None, t).

Definition EnsureChannelLatestMessageState (now : Z) (channelID : string)
    (t : gmap string sync_row) : option err * gmap string sync_row :=
  if (channelID =? "")%string then (Some (EText "channel id is required"), t)
  else
    let scope := channelLatestScope channelID in
    match t !! scope with
    | Some _ => (None, t)
    | None => (None, SetSyncState now scope "" t)
    end.

(** ** Unavailable markers (internal/store/unavailable.go) *)

Definition ChannelUnavailableSuffix : string := ":unavailable".
Definition UnavailableMarkerWindow : Z := 7 * 24 * 3600 * 1000000000.

(** The zero time of a row that does not parse is [None]. *)
Definition UnavailableMarkerActive (updatedAt : option Z) (now : Z) : bool :=
  match updatedAt with
  | None => false
  | Some t => now - UnavailableMarkerWindow <? t
  end.

(** SQLite's [scope like '%' || suffix] for a suffix without wildcards: a
    suffix match that ignores the case of ASCII letters. *)
Definition sql_like_suffix (scope suffix : string) : bool :=
  HasSuffix (ToLower scope) (ToLower suffix).

Definition SyncStateBySuffix (suffix : string) (t : gmap string sync_row) :
    list (string * option Z) :=
  if (suffix =? "")%string then []
  else omap (λ '(scope, r), if sql_like_suffix scope suffix then Some (scope, updated_at r) else None)
            (map_to_list t).

(** [slices.Sort] on strings: bytewise ascending. *)
Definition string_le (a b : string) : Prop := String.leb a b = true.
#[export] Instance string_le_dec : RelDecision string_le.
Proof. unfold string_le. intros a b. apply _. Defined.

Definition FreshUnavailableChannelIDs (now : Z) (t : gmap string sync_row) : list string :=
  merge_sort string_le
    (omap (λ '(scope, updated),
             match CutPrefix scope "channel:" with
             | None => None
             | Some rest =>
                 let id := TrimSuffix rest ChannelUnavailableSuffix in
                 if negb (id =? "")%string && UnavailableMarkerActive updated now
                 then Some id else None
             end)
          (SyncStateBySuffix ChannelUnavailableSuffix t)).

(** ** Lemmas: reading after writing *)

Lemma GetSyncState_Set_eq now s c t : GetSyncState s (SetSyncState now s c t) = c.
Proof. unfold GetSyncState, SetSyncState. by rewrite lookup_insert_eq. Qed.

Lemma GetSyncState_Set_ne now s s' c t :
  s ≠ s' → GetSyncState s' (SetSyncState now s c t) = GetSyncState s' t.
Proof. intros. unfold GetSyncState, SetSyncState. by rewrite lookup_insert_ne. Qed.

Lemma GetSyncState_Delete_eq s t : GetSyncState s (DeleteSyncState s t) = ""%string.
Proof. unfold GetSyncState, DeleteSyncState. by rewrite lookup_delete_eq. Qed.

Lemma GetSyncState_Delete_ne s s' t :
  s ≠ s' → GetSyncState s' (DeleteSyncState s t) = GetSyncState s' t.
Proof. intros. unfold GetSyncState, DeleteSyncState. by rewrite lookup_delete_ne. Qed.

(** Scopes of two channels or two suffixes without a colon inside differ. *)
Lemma channelScope_inj_id id id' suf : channelScope id suf = channelScope id' suf → id = id'.
Proof. unfold channelScope. intros H%append_inj_l. by apply append_inj_r in H. Qed.

Fixpoint last_colon_free (s : string) : bool :=
  match s with
  | EmptyString => true
  | String c t => negb (Ascii.eqb c ":") && last_colon_free t
  end.

Lemma colon_suffix_inj (a b s t : string) :
  last_colon_free s = true → last_colon_free t = true →
  (a ++ String ":" s)%string = (b ++ String ":" t)%string → a = b ∧ s = t.
Proof.
  intros Hs Ht. revert b. induction a as [|c a IH]; intros [|d b]; simpl; intros H.
  - by injection H as ->.
  - injection H as <- ->. exfalso. clear -Hs. induction b as [|c b IH]; simpl in Hs; [done|].
    propify. auto.
  - injection H as -> <-. exfalso. clear -Ht. induction a as [|c a IH]; simpl in Ht; [done|].
    propify. auto.
  - injection H as -> H. destruct (IH _ H) as [-> ->]. done.
Qed.

Lemma channelScope_inj id id' suf suf' :
  last_colon_free suf = true → last_colon_free suf' = true →
  channelScope id (String ":" suf) = channelScope id' (String ":" suf') → id = id' ∧ suf = suf'.
Proof. unfold channelScope. intros ? ? H%append_inj_l. by apply colon_suffix_inj. Qed.

(** Decides that two scope names differ, whatever the channel. *)
Ltac scope_ne :=
  let H := fresh in
  intros H; apply channelScope_inj in H; [destruct H; first [discriminate|congruence]|reflexivity|reflexivity].

#[export] Hint Rewrite GetSyncState_Set_eq GetSyncState_Delete_eq : discrawl.

(** Rewrites reads of other scopes away. *)
Ltac scope_simpl :=
  repeat first
    [ rewrite GetSyncState_Set_eq | rewrite GetSyncState_Delete_eq
    | rewrite GetSyncState_Set_ne by scope_ne | rewrite GetSyncState_Delete_ne by scope_ne ].

(** ** The latest pointer *)

Lemma advance_frame now ch id t e t' s :
  AdvanceChannelLatestMessageID now ch id t = (e, t') → s ≠ channelLatestScope ch →
  t' !! s = t !! s.
Proof.
  unfold AdvanceChannelLatestMessageID, SetSyncState. intros H Hs.
  repeat case_step_in H; simplify_eq; try done; rewrite lookup_insert_ne; congruence.
Qed.

Lemma advance_frame_get now ch id t e t' s :
  AdvanceChannelLatestMessageID now ch id t = (e, t') → s ≠ channelLatestScope ch →
  GetSyncState s t' = GetSyncState s t.
Proof. intros H Hs. unfold GetSyncState. by rewrite (advance_frame _ _ _ _ _ _ _ H Hs). Qed.

Lemma latest_gives_way_cursor c id :
  is_cursor c = true → snowflake_id id = true →
  latest_gives_way (Some c) id = (rank c <? rank id).
Proof.
  intros Hc Hid. destruct (is_cursor_cases c Hc) as [->|Sc].
  { simpl. symmetry. apply Z.ltb_lt. destruct (rank_snowflake id Hid). change (rank "") with (-1). lia. }
  unfold latest_gives_way.
  destruct (rank_snowflake c Sc) as [-> _], (rank_snowflake id Hid) as [-> _].
  apply snowflake_id_canonical in Sc, Hid.
  destruct (String.eqb_spec c "") as [->|_]; [done|].
  rewrite (canonical_all_digits c Sc), (canonical_order c id Sc Hid). simpl.
  destruct c as [|a c]; [done|]. simpl in Sc.
  destruct (String.eqb_spec (String a c) "0") as [E|Hne]; [done|].
  destruct (Ascii.eqb_spec "0" a) as [<-|]; [|done].
  destruct c; [done|]. simpl in Sc. discriminate.
Qed.

(** On stored cursors the guarded upsert never fails and computes the
    [maxSnowflake] of what was stored and the new id. *)
Lemma advance_cursor now ch id t :
  ch ≠ ""%string → is_cursor (GetSyncState (channelLatestScope ch) t) = true → snowflake_id id = true →
  ∃ t', AdvanceChannelLatestMessageID now ch id t = (None, t')
        ∧ GetSyncState (channelLatestScope ch) t'
          = maxSnowflake (GetSyncState (channelLatestScope ch) t) id.
Proof.
  intros Hch Hc Hid. unfold AdvanceChannelLatestMessageID.
  pose proof (snowflake_id_canonical id Hid) as Hcan.
  destruct (String.eqb_spec id "") as [->|_]; [done|].
  destruct (String.eqb_spec ch "") as [->|_]; [done|].
  rewrite Hcan. cbn [negb].
  rewrite maxSnowflake_cursor by auto with discrawl.
  destruct (t !! channelLatestScope ch) as [[[c|] u]|] eqn:Hl.
  - assert (GetSyncState (channelLatestScope ch) t = c) as Hg by (unfold GetSyncState; by rewrite Hl).
    rewrite Hg in *. simpl cursor. rewrite latest_gives_way_cursor by done.
    destruct (rank c <? rank id); [by eexists; split; [|apply GetSyncState_Set_eq]|].
    exists t. split; [|done].
    destruct (is_cursor_cases c Hc) as [->|Sc]; [done|].
    by rewrite (snowflake_id_canonical c Sc), andb_false_r.
  - assert (GetSyncState (channelLatestScope ch) t = ""%string) as Hg by (unfold GetSyncState; by rewrite Hl).
    rewrite Hg. simpl. destruct (rank_snowflake id Hid). change (rank "") with (-1).
    destruct (Z.ltb_spec (-1) (rank id)); [|lia].
    by eexists; split; [|apply GetSyncState_Set_eq].
  - assert (GetSyncState (channelLatestScope ch) t = ""%string) as Hg by (unfold GetSyncState; by rewrite Hl).
    rewrite Hg. simpl. destruct (rank_snowflake id Hid). change (rank "") with (-1).
    destruct (Z.ltb_spec (-1) (rank id)); [|lia].
    by eexists; split; [|apply GetSyncState_Set_eq].
Qed.

Lemma ToLower_app a b : ToLower (a ++ b) = (ToLower a ++ ToLower b)%string.
Proof. induction a as [|c a IH]; simpl; [done|]. by rewrite IH. Qed.

Lemma sql_like_suffix_app a suf : sql_like_suffix (a ++ suf) suf = true.
Proof. unfold sql_like_suffix. rewrite ToLower_app. apply HasSuffix_app. Qed.

Lemma all_digits_lower s : all_digits s = true → ToLower s = s.
Proof.
  induction s as [|c s IH]; simpl; [done|]. intros H. propify. rewrite IH by done. f_equal.
  unfold lower_byte, is_digit, byte_of in *. propify.
  destruct (N.leb_spec 65 (N_of_ascii c)); [lia|done].
Qed.

Lemma all_digits_colon_free s : all_digits s = true → last_colon_free s = true.
Proof.
  induction s as [|c s IH]; simpl; [done|]. intros H. propify. rewrite IH by done.
  destruct (Ascii.eqb_spec c ":") as [->|]; [discriminate|done].
Qed.

#[export] Instance string_le_total : Total string_le.
Proof. intros a b. unfold string_le. apply String.leb_total. Qed.

(** ** Properties *)

(** on a well-formed table the SQL compare-and-set of
    [AdvanceChannelLatestMessageID], which orders cursors by length and then
    bytewise, implements the abstract operation "store [maxSnowflake] of the
    old cursor and the new id": it succeeds, never moves the pointer back, and
    touches no other scope. *)
Theorem AdvanceChannelLatest_refines_max (now : Z) (ch id : string) (t : gmap string sync_row) :
  ch ≠ ""%string → snowflake_id id = true →
  is_cursor (GetSyncState (channelLatestScope ch) t) = true →
  let '(e, t') := AdvanceChannelLatestMessageID now ch id t in
  e = None
  ∧ GetSyncState (channelLatestScope ch) t' = maxSnowflake (GetSyncState (channelLatestScope ch) t) id
  ∧ rank (GetSyncState (channelLatestScope ch) t) <= rank (GetSyncState (channelLatestScope ch) t')
  ∧ (∀ s, s ≠ channelLatestScope ch → t' !! s = t !! s).
Proof.
  intros Hch Hid Hc. destruct (advance_cursor now ch id t Hch Hc Hid) as (t' & E & Hg). rewrite E.
  split; [done|]. split; [done|]. split.
  - rewrite Hg, maxSnowflake_rank by auto with discrawl. lia.
  - intros s Hs. eauto using advance_frame.
Qed.

Lemma AdvanceChannelLatest_refines_max_witness :
  let t := SetSyncState 5 (channelLatestScope "7") "999" ∅ in
  GetSyncState (channelLatestScope "7") (snd (AdvanceChannelLatestMessageID 6 "7" "1000" t))
  = maxSnowflake (GetSyncState (channelLatestScope "7") t) "1000".
Proof.
  intros t.
  pose proof (AdvanceChannelLatest_refines_max 6 "7" "1000" t ltac:(done) eq_refl eq_refl) as H.
  destruct (AdvanceChannelLatestMessageID 6 "7" "1000" t) as [e t'].
  destruct H as (_ & H & _). exact H.
Defined.

(** a channel is skipped as freshly unavailable exactly when its own
    unavailable marker was written less than the seven-day window ago; the
    thread-catalog marker and markers of other channels never count, and the
    list is sorted. *)
Theorem FreshUnavailable_spec (now : Z) (t : gmap string sync_row) (id : string) :
  id ≠ ""%string → all_digits id = true →
  (id ∈ FreshUnavailableChannelIDs now t
   ↔ ∃ r u, t !! channelMessageUnavailableScope id = Some r
            ∧ updated_at r = Some u ∧ now - u < UnavailableMarkerWindow)
  ∧ Sorted string_le (FreshUnavailableChannelIDs now t).
Proof.
  intros Hne Hdig. split; [|apply (Sorted_merge_sort _)].
  unfold FreshUnavailableChannelIDs. rewrite (merge_sort_Permutation string_le), list_elem_of_omap.
  unfold SyncStateBySuffix. change (ChannelUnavailableSuffix =? "")%string with false. cbv iota.
  split.
  - intros ([scope upd] & Hin & Hc). apply list_elem_of_omap in Hin as ([s r] & Hin & Hs).
    apply elem_of_map_to_list in Hin.
    destruct (sql_like_suffix s _) eqn:Hlike; [|done]. injection Hs as -> <-.
    destruct (CutPrefix scope "channel:") as [rest|] eqn:Hcut; [|done].
    apply CutPrefix_Some in Hcut as ->.
    destruct (_ && _) eqn:E; [|done]. injection Hc as Hid. propify.
    assert (rest = (id ++ ChannelUnavailableSuffix)%string) as ->.
    { unfold TrimSuffix in Hid. destruct (CutSuffix rest _) as [q|] eqn:Eq.
      - apply CutSuffix_Some in Eq. by simpl in Hid; subst.
      - simpl in Hid. subst rest. exfalso. unfold sql_like_suffix, HasSuffix in Hlike.
        destruct (CutSuffix (ToLower ("channel:" ++ id)) _) as [q|] eqn:El; [|done].
        apply CutSuffix_Some in El.
        change (ToLower ChannelUnavailableSuffix) with (String ":" "unavailable") in El.
        rewrite ToLower_app, (all_digits_lower id) in El by done.
        change (("channel" ++ String ":" id) = q ++ String ":" "unavailable")%string in El.
        apply colon_suffix_inj in El; [|by apply all_digits_colon_free|done].
        destruct El as [_ ->]. discriminate. }
    destruct (updated_at r) as [u|] eqn:Hu; [|done].
    exists r, u. unfold UnavailableMarkerActive in *. propify. split; [done|]. split; [done|]. lia.
  - intros (r & u & Hl & Hu & Hw).
    exists (channelMessageUnavailableScope id, Some u). split.
    + apply list_elem_of_omap. exists (channelMessageUnavailableScope id, r).
      rewrite elem_of_map_to_list. split; [done|].
      unfold channelMessageUnavailableScope, channelScope. rewrite <- append_assoc.
      rewrite sql_like_suffix_app, append_assoc. by rewrite Hu.
    + unfold channelMessageUnavailableScope, channelScope. rewrite CutPrefix_app. cbv zeta.
      unfold TrimSuffix. rewrite (proj2 (CutSuffix_Some _ _ id) eq_refl). simpl default.
      destruct (String.eqb_spec id ""); [done|]. unfold UnavailableMarkerActive.
      destruct (Z.ltb_spec (now - UnavailableMarkerWindow) u); [done|lia].
Qed.

Lemma FreshUnavailable_spec_witness :
  let t := SetSyncState 100 (channelMessageUnavailableScope "42") "missing_access" ∅ in
  "42"%string ∈ FreshUnavailableChannelIDs 200 t.
Proof.
  intros t. apply (FreshUnavailable_spec 200 t "42" ltac:(done) eq_refl).
  exists (SyncRow (Some "missing_access"%string) (Some 100)), 100.
  split; [reflexivity|split; reflexivity].
Defined.
