(* ===== verification/ChannelScope.v ===== *)
(** * Collection scope in the store

    internal/store/integrity.go: the channels table as far as collection scope
    is concerned. The recursive SQL queries are the closures they denote: a
    [union] that keeps each row once, so a cyclic parent chain terminates. *)
From S2P Require Import Prelude Errors.
Local Open Scope Z_scope.

(** One row of [channels]; SQL nulls are [None]. *)
Record channel_row := ChannelRow {
  c_guild : string;
  c_parent : option string;
  c_kind : string;
  c_deleted : option Z;
  c_source : option string;
  c_scope : string;
  c_policy : string;
  c_updated : Z
}.

Abbreviation channels := (gmap string channel_row).

Definition parent_of (t : channels) (id : string) : option string :=
  t !! id ≫= c_parent.

(** ** Ancestors and descendants *)

(** [with recursive ancestry ...]: the rows met going up from [id]; a row
    already collected is not collected again. *)
Fixpoint ancestry (fuel : nat) (t : channels) (seen : list string) (id : string) :
    list (string * channel_row) :=
  match fuel with
  | O => []
  | S f =>
      if bool_decide (id ∈ seen) then []
      else match t !! id with
           | None => []
           | Some r =>
               (id, r) :: match c_parent r with
                          | None => []
                          | Some p => ancestry f t (id :: seen) p
                          end
           end
  end.

Definition tombstones (t : channels) (id : string) : nat :=
  length (List.filter (λ '(_, r), match c_deleted r with Some _ => true | None => false end)
                 (ancestry (S (size t)) t [] id)).

(** [with recursive descendants ...]. *)
Definition children (t : channels) (d : gset string) : gset string :=
  list_to_set (omap (M := list) (λ '(id, r), match c_parent r with
                                 | Some p => if bool_decide (p ∈ d) then Some id else None
                                 | None => None
                                 end) (map_to_list t)).

Fixpoint descendants (fuel : nat) (t : channels) (d : gset string) : gset string :=
  match fuel with
  | O => d
  | S f => descendants f t (d ∪ children t d)
  end.

(** ** Operations *)

Definition ChannelTombstoned (t : channels) (id : string) : bool :=
  match t !! id with
  | Some r => match c_deleted r with Some _ => true | None => false end
  | None => false
  end.

Definition ChannelFailureSupersession (t : channels) (id policy : string) : string :=
  if (0 <? tombstones t id)%nat then "superseded_by_deletion"
  else if (policy =? "")%string then ""
  else match t !! id with
       | Some r => if ((c_scope r =? "excluded") && (c_policy r =? policy))%string
                   then "excluded_by_collection_policy" else ""
       | None => ""
       end.

Definition ChannelCollectionAllowed (t : channels) (id policy : string) : bool :=
  match t !! id with
  | Some r => match c_deleted r with Some _ => false | None => true end
              && (c_scope r =? "allowed")%string && (c_policy r =? policy)%string
  | None => false
  end.

Definition ChannelCollectionAdmitted (t : channels) (id policy : string) : bool :=
  if negb (policy =? "")%string then ChannelCollectionAllowed t id policy
  else (tombstones t id =? 0)%nat.

Definition requireMessageScope (t : channels) (messageChannel messageGuild policy : string) :
    option err :=
  if (policy =? "")%string then
    if (0 <? tombstones t messageChannel)%nat then Some ECollectionScope else None
  else
    match t !! messageChannel with
    | Some r =>
        match c_deleted r with
        | Some _ => Some ECollectionScope
        | None =>
            if negb (c_scope r =? "allowed")%string || negb (c_policy r =? policy)%string
               || negb (c_guild r =? messageGuild)%string
            then Some (EWrap "" ECollectionScope (": channel " ++ messageChannel))
            else None
        end
    | None => Some ECollectionScope
    end.

Record scope_decision := ScopeDecision { d_state : string; d_revision : Z }.

Definition valid_scope (s : string) : bool :=
  ((s =? "allowed") || (s =? "excluded") || (s =? "unknown"))%string.

(** One [update ... where id=? and updated_at=? and (scope or policy differ)]. *)
Definition set_scope_row (now : Z) (policy : string) (id : string) (d : scope_decision)
    (t : channels) : channels :=
  match t !! id with
  | Some r =>
      if (c_updated r =? d_revision d)
         && (negb (c_scope r =? d_state d)%string || negb (c_policy r =? policy)%string)
      then <[id := ChannelRow (c_guild r) (c_parent r) (c_kind r) (c_deleted r) (c_source r)
                              (d_state d) policy now]> t
      else t
  | None => t
  end.

Fixpoint set_scopes (now : Z) (policy : string) (changes : list (string * scope_decision))
    (t : channels) : option err * channels :=
  match changes with
  | [] => (None, t)
  | (id, d) :: rest =>
      if negb (valid_scope (d_state d)) then (Some (EText "invalid collection scope"), t)
      else set_scopes now policy rest (set_scope_row now policy id d t)
  end.

(** The transaction is rolled back on error. *)
Definition SetChannelScopes (now : Z) (changes : list (string * scope_decision)) (policy : string)
    (t : channels) : option err * channels :=
  match set_scopes now policy changes t with
  | (None, t') => (None, t')
  | (Some e, _) => (Some e, t)
  end.

Definition invalidateChannelScope (now : Z) (id : string) (t : channels) : channels :=
  let d := descendants (size t) t {[id]} in
  map_imap (λ cid r, Some (if bool_decide (cid ∈ d)
                           then ChannelRow (c_guild r) (c_parent r) (c_kind r) (c_deleted r)
                                           (c_source r) "unknown" "" now
                           else r)) t.

Definition MarkChannelDeleted (now : Z) (guildID id source : string) (t : channels) :
    option err * channels :=
  if (guildID =? "")%string || (id =? "")%string || (source =? "")%string then
    (Some (EText "channel tombstone requires scope and source"), t)
  else
    let mark (t : channels) : channels :=
      let t := invalidateChannelScope now id t in
      match t !! id with
      | Some r =>
          if (c_guild r =? guildID)%string
          then <[id := ChannelRow (c_guild r) (c_parent r) (c_kind r)
                                  (Some (default now (c_deleted r))) (Some source)
                                  "excluded" (c_policy r) now]> t
          else t
      | None => t
      end in
    match t !! id with
    | Some r =>
        if negb (c_guild r =? guildID)%string then
          (Some (EText "channel deletion guild mismatch"), t)
        else (None, mark t)
    | None =>
        (None, mark (<[id := ChannelRow guildID None "unknown" None None "unknown" "" now]> t))
    end.

(** ** The closures *)

(** [ancestor t x y]: [y] is the stored parent of [x]. *)
Definition parent_step (t : channels) (x y : string) : Prop := parent_of t x = Some y.

Lemma ancestry_lookup fuel t seen id x r :
  (x, r) ∈ ancestry fuel t seen id → t !! x = Some r.
Proof.
  revert seen id. induction fuel as [|f IH]; intros seen id; simpl; [by intros ?%elem_of_nil|].
  case_bool_decide; [by intros ?%elem_of_nil|].
  destruct (t !! id) as [r0|] eqn:E; [|by intros ?%elem_of_nil].
  intros [[= -> ->]|H']%elem_of_cons; [done|].
  destruct (c_parent r0); [eauto|by apply elem_of_nil in H'].
Qed.

Lemma ancestry_sound fuel t seen id x r :
  (x, r) ∈ ancestry fuel t seen id → rtc (parent_step t) id x.
Proof.
  revert seen id. induction fuel as [|f IH]; intros seen id; simpl; [by intros ?%elem_of_nil|].
  case_bool_decide; [by intros ?%elem_of_nil|].
  destruct (t !! id) as [r0|] eqn:E; [|by intros ?%elem_of_nil].
  intros [[= -> ->]|H']%elem_of_cons; [done|].
  destruct (c_parent r0) as [p|] eqn:Ep; [|by apply elem_of_nil in H'].
  apply rtc_l with p; [|eauto]. unfold parent_step, parent_of. by rewrite E.
Qed.

Lemma seen_bound (t : channels) (seen : list string) :
  NoDup seen → (∀ x, x ∈ seen → is_Some (t !! x)) → (length seen <= size t)%nat.
Proof.
  intros Hnd Hin. rewrite <- size_dom, <- (size_list_to_set (C := gset string)) by done.
  apply subseteq_size. intros x Hx%elem_of_list_to_set. apply elem_of_dom. auto.
Qed.

Lemma seen_cons (t : channels) (seen : list string) id r :
  t !! id = Some r → id ∉ seen → NoDup seen → (∀ x, x ∈ seen → is_Some (t !! x)) →
  NoDup (id :: seen) ∧ (∀ x, x ∈ id :: seen → is_Some (t !! x)).
Proof.
  intros. split; [by constructor|]. intros x [->|?]%elem_of_cons; eauto.
Qed.

Lemma ancestry_head fuel t seen id r :
  (size t < fuel + length seen)%nat → NoDup seen → (∀ x, x ∈ seen → is_Some (t !! x)) →
  t !! id = Some r → id ∉ seen → (id, r) ∈ ancestry fuel t seen id.
Proof.
  intros Hf Hnd Hin Hl Hns. pose proof (seen_bound t seen Hnd Hin).
  destruct fuel as [|f]; [simpl in Hf; lia|]. simpl.
  rewrite bool_decide_eq_false_2 by done. rewrite Hl. left.
Qed.

(** The collected rows are closed under taking the parent. *)
Lemma ancestry_closed fuel t seen id x rx p rp :
  (size t < fuel + length seen)%nat → NoDup seen → (∀ x, x ∈ seen → is_Some (t !! x)) →
  (x, rx) ∈ ancestry fuel t seen id → c_parent rx = Some p → t !! p = Some rp →
  (p, rp) ∈ ancestry fuel t seen id ∨ p ∈ seen.
Proof.
  revert seen id. induction fuel as [|f IH]; intros seen id Hf Hnd Hin; simpl;
    [by intros ?%elem_of_nil|].
  case_bool_decide as Hs; [by intros ?%elem_of_nil|].
  destruct (t !! id) as [r0|] eqn:E; [|by intros ?%elem_of_nil].
  destruct (seen_cons t seen id r0 E Hs Hnd Hin) as [Hnd' Hin'].
  assert (size t < f + length (id :: seen))%nat as Hf' by (simpl; lia).
  intros Hx Hp Hlp.
  destruct (decide (p ∈ id :: seen)) as [Hps|Hps].
  { apply elem_of_cons in Hps as [->|Hps]; [|by right]. rewrite E in Hlp. injection Hlp as ->.
    left. left. }
  apply elem_of_cons in Hx as [[= -> ->]|Hx].
  - rewrite Hp. left. right. by apply ancestry_head.
  - destruct (c_parent r0) as [q|]; [|by apply elem_of_nil in Hx].
    destruct (IH (id :: seen) q Hf' Hnd' Hin' Hx Hp Hlp) as [H|H]; [|done]. left. by right.
Qed.

Lemma ancestry_complete t id x r :
  is_Some (t !! id) → rtc (parent_step t) id x → t !! x = Some r →
  (x, r) ∈ ancestry (S (size t)) t [] id.
Proof.
  intros [r0 Hid] Hrtc. revert r.
  apply (rtc_ind_r (R := parent_step t) (λ x, ∀ r, t !! x = Some r → (x, r) ∈ ancestry (S (size t)) t [] id) id); [| |done].
  - intros r Hr. apply ancestry_head; [simpl; lia|constructor|by intros y ?%elem_of_nil|done|apply not_elem_of_nil].
  - intros y z _ Hyz IH r Hr. unfold parent_step, parent_of in Hyz.
    destruct (t !! y) as [ry|] eqn:Ey; [|done]. simpl in Hyz.
    destruct (ancestry_closed (S (size t)) t [] id y ry z r) as [H|H]; try done;
      [simpl; lia|constructor|by intros w ?%elem_of_nil|by apply IH|by apply elem_of_nil in H].
Qed.

(** A tombstone is counted exactly when the channel or an ancestor has one. *)
Lemma tombstones_spec t id :
  (0 < tombstones t id)%nat
  ↔ ∃ x r d, rtc (parent_step t) id x ∧ t !! x = Some r ∧ c_deleted r = Some d.
Proof.
  unfold tombstones. split.
  - destruct (List.filter _ _) as [|[x r] l] eqn:E; [simpl; lia|]. intros _.
    assert ((x, r) ∈ (x, r) :: l) as Hin by left. rewrite <- E in Hin.
    apply list_elem_of_In, filter_In in Hin as [Hin Hd]. apply list_elem_of_In in Hin.
    destruct (c_deleted r) as [d|] eqn:Ed; [|done].
    exists x, r, d. eauto using ancestry_lookup, ancestry_sound.
  - intros (x & r & d & Hr & Hx & Hd).
    assert (is_Some (t !! id)) as Hid.
    { inversion Hr as [|? y ? Hy _]; subst; [eauto|].
      unfold parent_step, parent_of in Hy. destruct (t !! id); [eauto|done]. }
    pose proof (ancestry_complete t id x r Hid Hr Hx) as Hin.
    assert (In (x, r) (List.filter (λ '(_, r), match c_deleted r with Some _ => true | None => false end)
                        (ancestry (S (size t)) t [] id))) as HF.
    { apply filter_In. split; [by apply list_elem_of_In|]. by rewrite Hd. }
    destruct (List.filter _ _); [done|simpl; lia].
Qed.

Lemma children_spec t d id :
  id ∈ children t d ↔ ∃ r p, t !! id = Some r ∧ c_parent r = Some p ∧ p ∈ d.
Proof.
  unfold children. rewrite elem_of_list_to_set, list_elem_of_omap. split.
  - intros ([x r] & Hin & H). apply elem_of_map_to_list in Hin.
    destruct (c_parent r) as [p|] eqn:Ep; [|done].
    case_bool_decide; [|done]. injection H as ->. eauto.
  - intros (r & p & Hl & Hp & Hd). exists (id, r). rewrite elem_of_map_to_list.
    split; [done|]. by rewrite Hp, bool_decide_eq_true_2.
Qed.

Lemma children_dom t d : children t d ⊆ dom t.
Proof. intros x (r & p & Hl & _)%children_spec. apply elem_of_dom. eauto. Qed.

Lemma descendants_fix fuel t d : children t d ⊆ d → descendants fuel t d = d.
Proof.
  intros H. assert (d ∪ children t d = d) as E by set_solver.
  induction fuel as [|f IH]; simpl; [done|]. by rewrite E.
Qed.

Lemma descendants_closed fuel t id d :
  d ⊆ {[id]} ∪ dom t → (1 + size t <= fuel + size d)%nat →
  children t (descendants fuel t d) ⊆ descendants fuel t d.
Proof.
  revert d. induction fuel as [|f IH]; intros d Hd Hs; simpl.
  - assert (size ({[id]} ∪ dom t) <= 1 + size t)%nat as Hu.
    { rewrite size_union_alt, size_singleton, <- (size_dom t).
      assert (size (dom t ∖ {[id]}) <= size (dom t))%nat by (apply subseteq_size; set_solver). lia. }
    assert (d = {[id]} ∪ dom t) as ->.
    { apply set_eq. intros x. split; [set_solver|]. intros Hx.
      destruct (decide (x ∈ d)) as [|Hn]; [done|]. exfalso.
      assert (size d < size ({[id]} ∪ dom t))%nat by (apply subset_size; set_solver). lia. }
    pose proof (children_dom t ({[id]} ∪ dom t)). set_solver.
  - destruct (decide (children t d ⊆ d)) as [Hc|Hc].
    { assert (d ∪ children t d = d) as -> by set_solver. by rewrite descendants_fix. }
    apply IH; [pose proof (children_dom t d); set_solver|].
    assert (size d < size (d ∪ children t d))%nat by (apply subset_size; set_solver). lia.
Qed.

Lemma descendants_incl fuel t d : d ⊆ descendants fuel t d.
Proof.
  revert d. induction fuel as [|f IH]; intros d; simpl; [done|].
  specialize (IH (d ∪ children t d)). set_solver.
Qed.

Lemma descendants_sound fuel t id d :
  (∀ x, x ∈ d → rtc (parent_step t) x id) → ∀ x, x ∈ descendants fuel t d → rtc (parent_step t) x id.
Proof.
  revert d. induction fuel as [|f IH]; intros d Hd; simpl; [done|]. apply IH.
  intros x [?|(r & p & Hl & Hp & Hin)%children_spec]%elem_of_union; [auto|].
  apply rtc_l with p; [|auto]. unfold parent_step, parent_of. by rewrite Hl.
Qed.

(** The recursive query collects exactly the channels below [id]. *)
Lemma descendants_spec t id x :
  x ∈ descendants (size t) t {[id]} ↔ rtc (parent_step t) x id.
Proof.
  split.
  - apply descendants_sound. by intros y ->%elem_of_singleton.
  - intros H. induction H as [z|z y w Hzy _ IH].
    + apply (descendants_incl (size t) t {[z]}). set_solver.
    + pose proof (descendants_closed (size t) t w {[w]}) as Hcl.
      rewrite size_singleton in Hcl. apply Hcl; [set_solver|lia|].
      apply children_spec. unfold parent_step, parent_of in Hzy.
      destruct (t !! z) as [r|] eqn:Ez; [|done]. simpl in Hzy. eauto.
Qed.

Lemma invalidate_lookup now id t x :
  invalidateChannelScope now id t !! x
  = (λ r, if bool_decide (x ∈ descendants (size t) t {[id]})
          then ChannelRow (c_guild r) (c_parent r) (c_kind r) (c_deleted r) (c_source r) "unknown" "" now
          else r) <$> t !! x.
Proof. unfold invalidateChannelScope. rewrite map_lookup_imap. by destruct (t !! x). Qed.

Lemma parent_of_invalidate now id t x : parent_of (invalidateChannelScope now id t) x = parent_of t x.
Proof.
  unfold parent_of. rewrite invalidate_lookup. destruct (t !! x); simpl; [|done]. by case_bool_decide.
Qed.

Lemma rtc_parent_ext t t' x y :
  (∀ z, parent_of t z = parent_of t' z) → rtc (parent_step t) x y → rtc (parent_step t') x y.
Proof.
  intros E H. induction H as [|a b c Hab _ IH]; [done|].
  apply rtc_l with b; [|done]. unfold parent_step in *. by rewrite <- E.
Qed.

(** ** Properties *)

(** the admission check made before content I/O agrees with the write-time
    guard. Without a policy both refuse exactly the channels that have a
    tombstone on themselves or on an ancestor, cyclic parent chains included;
    under a policy, what the guard accepts is admitted, and an admitted channel
    of the message's guild passes the guard. Every refusal is a scope error. *)
Theorem admission_matches_write_guard (t : channels) (id guild policy : string) :
  (ChannelCollectionAdmitted t id "" = true
   ↔ ¬ ∃ x r d, rtc (parent_step t) id x ∧ t !! x = Some r ∧ c_deleted r = Some d)
  ∧ (requireMessageScope t id guild "" = None ↔ ChannelCollectionAdmitted t id "" = true)
  ∧ (requireMessageScope t id guild policy = None → ChannelCollectionAdmitted t id policy = true)
  ∧ (ChannelCollectionAdmitted t id policy = true → c_guild <$> t !! id = Some guild →
     requireMessageScope t id guild policy = None)
  ∧ (∀ e, requireMessageScope t id guild policy = Some e → is_scope e = true).
Proof.
  assert (requireMessageScope t id guild "" = None ↔ ChannelCollectionAdmitted t id "" = true) as Hno.
  { unfold requireMessageScope, ChannelCollectionAdmitted. cbn [String.eqb negb].
    change ("" =? "")%string with true. cbn [negb].
    destruct (tombstones t id); simpl; split; done. }
  split.
  { rewrite <- tombstones_spec. unfold ChannelCollectionAdmitted.
    change ("" =? "")%string with true. cbn [negb].
    destruct (Nat.eqb_spec (tombstones t id) 0); split; try done; lia. }
  split; [done|].
  destruct (String.eqb_spec policy "") as [->|Hp].
  { split; [apply Hno|]. split; [intros H _; by apply Hno|].
    unfold requireMessageScope. change ("" =? "")%string with true. cbv iota.
    intros e. case_match; [|done]. by intros [= <-]. }
  unfold requireMessageScope, ChannelCollectionAdmitted, ChannelCollectionAllowed.
  destruct (String.eqb_spec policy ""); [done|]. cbn [negb].
  destruct (t !! id) as [r|]; [|by split_and!; [| |intros ? [= <-]]].
  destruct (c_deleted r); [by split_and!; [| |intros ? [= <-]]|].
  destruct (String.eqb_spec (c_scope r) "allowed"); [|by split_and!; [| |intros ? [= <-]]].
  destruct (String.eqb_spec (c_policy r) policy); [|by split_and!; [| |intros ? [= <-]]].
  simpl. destruct (String.eqb_spec (c_guild r) guild); [done|].
  split_and!; [done|congruence|by intros ? [= <-]].
Qed.

Lemma admission_matches_write_guard_witness :
  let t : channels := {["1" := ChannelRow "9" (Some "2"%string) "text" None None "allowed" "p" 0]} in
  requireMessageScope t "1" "9" "p" = None.
Proof.
  intros t. apply (admission_matches_write_guard t "1" "9" "p"); reflexivity.
Defined.

(** after a successful [MarkChannelDeleted] neither the channel nor any
    channel below it is admitted, with or without a policy, until its scope is
    decided again; an earlier deletion instant is kept, rows elsewhere in the
    catalog are untouched, and no row is removed. *)
Theorem MarkChannelDeleted_denies_subtree (now : Z) (guild id source : string) (t t' : channels) :
  MarkChannelDeleted now guild id source t = (None, t') →
  (∀ c policy, rtc (parent_step t) c id → ChannelCollectionAdmitted t' c policy = false)
  ∧ (∀ r d, t !! id = Some r → c_deleted r = Some d → c_deleted <$> t' !! id = Some (Some d))
  ∧ (∀ c, ¬ rtc (parent_step t) c id → t' !! c = t !! c)
  ∧ dom t' = dom t ∪ {[id]}.
Proof.
  unfold MarkChannelDeleted.
  destruct ((guild =? "")%string || (id =? "")%string || (source =? "")%string); [done|].
  set (t1 := match t !! id with
             | Some _ => t
             | None => <[id := ChannelRow guild None "unknown" None None "unknown" "" now]> t
             end).
  assert (∀ z, parent_of t z = parent_of t1 z) as Hpar.
  { intros z. unfold t1, parent_of. destruct (t !! id) eqn:E; [done|].
    rewrite lookup_insert. case_decide; [subst; by rewrite E|done]. }
  intros Hmark.
  assert (∃ r, t1 !! id = Some r ∧ c_guild r = guild
    ∧ (∀ r0, t !! id = Some r0 → r0 = r)
    ∧ t' = <[id := ChannelRow guild (c_parent r) (c_kind r) (Some (default now (c_deleted r)))
                     (Some source) "excluded" "" now]> (invalidateChannelScope now id t1)) as Hr.
  { assert (∀ r, t1 !! id = Some r → invalidateChannelScope now id t1 !! id
        = Some (ChannelRow (c_guild r) (c_parent r) (c_kind r) (c_deleted r) (c_source r) "unknown" "" now)) as Hinv.
    { intros r Hl. rewrite invalidate_lookup, Hl. simpl. rewrite bool_decide_eq_true_2; [done|].
      by apply descendants_spec. }
    unfold t1 in *. destruct (t !! id) as [r|] eqn:E.
    - destruct (String.eqb_spec (c_guild r) guild) as [<-|]; [|done]. simpl in Hmark.
      rewrite (Hinv r E) in Hmark. simpl in Hmark. rewrite String.eqb_refl in Hmark.
      exists r. split_and!; [done|done|congruence|congruence].
    - rewrite lookup_insert_eq in Hinv. rewrite (Hinv _ eq_refl) in Hmark. simpl in Hmark.
      rewrite String.eqb_refl in Hmark. rewrite lookup_insert_eq.
      eexists. split_and!; [done|done|done|]. simpl. congruence. }
  destruct Hr as (r & Hl & Hg & Hr0 & ->). clear Hmark.
  assert (∀ c, rtc (parent_step t) c id → c ∈ descendants (size t1) t1 {[id]}) as Hdesc.
  { intros c Hc. apply descendants_spec. by eapply rtc_parent_ext. }
  split_and!.
  - intros c policy Hc. unfold ChannelCollectionAdmitted.
    destruct (String.eqb_spec policy "") as [->|Hp]; simpl.
    + apply Nat.eqb_neq. apply Nat.neq_0_lt_0, tombstones_spec.
      eexists id, _, _. rewrite lookup_insert_eq. split_and!; [|done|done].
      eapply rtc_parent_ext; [|exact Hc]. intros z. rewrite Hpar. unfold parent_of.
      rewrite lookup_insert. case_decide as Hz; [subst z; by rewrite Hl|].
      change (parent_of t1 z = parent_of (invalidateChannelScope now id t1) z).
      by rewrite parent_of_invalidate.
    + unfold ChannelCollectionAllowed. rewrite lookup_insert. case_decide; [done|].
      rewrite invalidate_lookup. destruct (t1 !! c) as [rc|]; [|done]. simpl.
      rewrite bool_decide_eq_true_2 by auto. simpl. by rewrite andb_false_r.
  - intros r0 d H0 Hd. rewrite lookup_insert_eq. rewrite (Hr0 _ H0) in Hd. simpl. by rewrite Hd.
  - intros c Hc. rewrite lookup_insert_ne by (intros ->; by apply Hc).
    rewrite invalidate_lookup. rewrite bool_decide_eq_false_2.
    2: { intros Hin%descendants_spec. apply Hc. eapply rtc_parent_ext; [|exact Hin]. done. }
    assert (c ≠ id) by (intros ->; by apply Hc).
    unfold t1. destruct (t !! id) eqn:E; [|rewrite lookup_insert_ne by done]; by destruct (t !! c).
  - rewrite dom_insert_L.
    assert (dom (invalidateChannelScope now id t1) = dom t1) as ->.
    { apply set_eq. intros z. rewrite !elem_of_dom, invalidate_lookup. by rewrite fmap_is_Some. }
    unfold t1. destruct (t !! id) eqn:E; [|rewrite dom_insert_L; set_solver].
    assert (id ∈ dom t) by (apply elem_of_dom; eauto). set_solver.
Qed.

Lemma MarkChannelDeleted_denies_subtree_witness :
  let t : channels := {["1" := ChannelRow "9" (Some "2"%string) "text" None None "allowed" "p" 0;
                        "2" := ChannelRow "9" None "category" None None "allowed" "p" 0]} in
  ChannelCollectionAdmitted (snd (MarkChannelDeleted 5 "9" "2" "gateway" t)) "1" "p" = false.
Proof.
  intros t. destruct (MarkChannelDeleted 5 "9" "2" "gateway" t) as [e t'] eqn:E.
  assert (e = None) as -> by (apply (f_equal fst) in E; vm_compute in E; congruence).
  apply (MarkChannelDeleted_denies_subtree 5 "9" "2" "gateway" t t' E).
  apply rtc_once. reflexivity.
Defined.
