(* ===== verification/FailureLedger.v ===== *)
(** * The failure ledger

    internal/store/failures.go and the two resolvers of internal/store/integrity.go:
    the table failure_ledger with its unique identity, the recording upsert,
    the resolvers, pruning, and the bounded replay queries. Instants are
    nanoseconds; the fixed-width UTC text of the table orders the same way. *)
From S2P Require Import Prelude Errors.
Local Open Scope Z_scope.

Record FailureRef := mkRef {
  Operation : string; Source : string; GuildID : string; ChannelID : string;
  MessageID : string; RelatedKind : string; RelatedID : string
}.
#[export] Instance FailureRef_eq_dec : EqDecision FailureRef.
Proof. solve_decision. Defined.

Record Failure := mkFailure {
  FailureID : Z; Ref : FailureRef; ErrorClass : string; ErrorMessage : string;
  FirstSeenAt : Z; LastSeenAt : Z; RetryCount : Z;
  ResolvedAt : option Z; ResolutionReason : string
}.

#[export] Instance Failure_eq_dec : EqDecision Failure.
Proof. solve_decision. Defined.

(** The table and the counter of its autoincrement key. *)
Record ledger := mkLedger { rows : list Failure; last_id : Z }.
Definition empty_ledger : ledger := mkLedger [] 0.

Definition defaultFailureLimit : Z := 100.
Definition maxFailureLimit : Z := 1000.
Definition resolvedFailureMaxAge : Z := 90 * 24 * 3600 * 1000000000.

(** What the ledger takes from an error value: Go's dynamic type name of the
    innermost error, the redacted message, and the reference carried by a
    [RowWriteError] (empty when there is none). *)
Class ErrorReport := {
  type_name : err → string;
  sanitizeFailureMessage : string → string;
  FailureRefFromError : err → FailureRef
}.

Fixpoint unwrap_root (e : err) : err :=
  match e with
  | EWrap _ c _ => unwrap_root c
  | _ => e
  end.

Definition mergeFailureRef (base contextual : FailureRef) : FailureRef :=
  let pick (a b : string) := if (a =? "")%string then b else a in
  mkRef (pick (Operation base) (Operation contextual)) (pick (Source base) (Source contextual))
        (pick (GuildID base) (GuildID contextual)) (pick (ChannelID base) (ChannelID contextual))
        (pick (MessageID base) (MessageID contextual))
        (pick (RelatedKind base) (RelatedKind contextual))
        (pick (RelatedID base) (RelatedID contextual)).

Definition normalizeFailureRef (r : FailureRef) : FailureRef :=
  mkRef (TrimSpace (Operation r)) (TrimSpace (Source r)) (TrimSpace (GuildID r))
        (TrimSpace (ChannelID r)) (TrimSpace (MessageID r)) (TrimSpace (RelatedKind r))
        (TrimSpace (RelatedID r)).

Definition ref_required (r : FailureRef) : option err :=
  if (Operation r =? "")%string || (Source r =? "")%string
  then Some (EText "failure operation and source are required") else None.

Definition unresolved (f : Failure) : bool :=
  match ResolvedAt f with None => true | Some _ => false end.

Definition set_resolved (now : Z) (reason : option string) (f : Failure) : Failure :=
  mkFailure (FailureID f) (Ref f) (ErrorClass f) (ErrorMessage f) (FirstSeenAt f) (LastSeenAt f)
            (RetryCount f) (Some now) (default (ResolutionReason f) reason).

(** [update failure_ledger set ... where p]. *)
Definition update_where (p : Failure → bool) (g : Failure → Failure) (l : ledger) : ledger :=
  mkLedger (map (λ f, if p f then g f else f) (rows l)) (last_id l).

Definition pruneResolvedFailures (now : Z) (l : ledger) : ledger :=
  mkLedger (List.filter (λ f, match ResolvedAt f with
                         | Some r => negb (r <? now - resolvedFailureMaxAge)
                         | None => true
                         end) (rows l)) (last_id l).

Section operations.
Context `{ErrorReport}.

Definition failureClass (e : err) : string :=
  if is_canceled e then "context_canceled"
  else if is_deadline e then "deadline_exceeded"
  else let name := TrimPrefix (type_name (unwrap_root e)) "*" in
       if Contains (ToLower name) "sqlite" then "sqlite" else name.

(** The [insert ... on conflict do update] of [recordFailure]. *)
Definition record_row (now : Z) (e : err) (f : Failure) : Failure :=
  mkFailure (FailureID f) (Ref f) (failureClass e) (sanitizeFailureMessage (Error e))
            (FirstSeenAt f) now (RetryCount f + 1) None "".

Definition recordFailure (now : Z) (ref : FailureRef) (e : err) (l : ledger) :
    option err * ledger :=
  let r := normalizeFailureRef (mergeFailureRef ref (FailureRefFromError e)) in
  match ref_required r with
  | Some er => (Some er, l)
  | None =>
      if existsb (λ f, bool_decide (Ref f = r)) (rows l)
      then (None, update_where (λ f, bool_decide (Ref f = r)) (record_row now e) l)
      else (None, mkLedger (rows l ++ [mkFailure (last_id l + 1) r (failureClass e)
                                       (sanitizeFailureMessage (Error e)) now now 0 None ""])
                           (last_id l + 1))
  end.

(** Matching of the resolvers: an empty identifier of [ref] is no constraint. *)
Definition field_matches (want have : string) : bool := (want =? "")%string || (have =? want)%string.

Definition ResolveFailures (now : Z) (ref : FailureRef) (l : ledger) : option err * ledger :=
  let r := normalizeFailureRef ref in
  match ref_required r with
  | Some er => (Some er, l)
  | None =>
      let p f := unresolved f && (Operation (Ref f) =? Operation r)%string
                 && (Source (Ref f) =? Source r)%string
                 && field_matches (GuildID r) (GuildID (Ref f))
                 && field_matches (ChannelID r) (ChannelID (Ref f))
                 && field_matches (MessageID r) (MessageID (Ref f))
                 && field_matches (RelatedKind r) (RelatedKind (Ref f))
                 && field_matches (RelatedID r) (RelatedID (Ref f)) in
      (None, pruneResolvedFailures now (update_where p (set_resolved now None) l))
  end.

Definition RecordFailure (now : Z) (ref : FailureRef) (failure : option err) (l : ledger) :
    option err * ledger :=
  match failure with
  | None => ResolveFailures now ref l
  | Some e =>
      match recordFailure now ref e l with
      | (Some er, l') => (Some er, l')
      | (None, l') => (None, pruneResolvedFailures now l')
      end
  end.

(** One transaction; [receivedAt] is [None] for the zero time. *)
Definition RecordEventFailure (now : Z) (ref : FailureRef) (failure : option err)
    (receivedAt : option Z) (l : ledger) : option err * ledger :=
  match failure with
  | None => (Some (EText "event failure is required"), l)
  | Some e =>
      let eventAt := match receivedAt with
                     | Some t => if t <? now then t else now
                     | None => now
                     end in
      match recordFailure now ref e l with
      | (Some er, _) => (Some er, l)
      | (None, l1) =>
          let r := normalizeFailureRef (mergeFailureRef ref (FailureRefFromError e)) in
          let set_first f := mkFailure (FailureID f) (Ref f) (ErrorClass f) (ErrorMessage f) eventAt
                               (LastSeenAt f) (RetryCount f) (ResolvedAt f) (ResolutionReason f) in
          (None, pruneResolvedFailures now
                   (update_where (λ f, bool_decide (Ref f = r)) set_first l1))
      end
  end.

(** [RecordFailureWithMessageScopeTimed]: [stored] is the guild and channel
    of the message row with the reference's message id, if any. *)
Definition RecordFailureWithMessageScope (now : Z) (ref : FailureRef) (failure : option err)
    (stored : string → option (string * string)) (l : ledger) : option err * ledger :=
  match failure with
  | None => (Some (EText "message-scoped failure is required"), l)
  | Some e =>
      let r := normalizeFailureRef (mergeFailureRef ref (FailureRefFromError e)) in
      match ref_required r with
      | Some er => (Some er, l)
      | None =>
          if (MessageID r =? "")%string then (Some (EText "message id is required"), l)
          else
            let scoped : FailureRef + err :=
              match stored (MessageID r) with
              | None => inl r
              | Some (g, c) =>
                  if negb (ChannelID r =? "")%string && negb (c =? "")%string
                     && negb (ChannelID r =? c)%string
                  then inr (EText "message channel mismatch")
                  else if negb (GuildID r =? "")%string && negb (g =? "")%string
                          && negb (GuildID r =? g)%string
                  then inr (EText "message guild mismatch")
                  else inl (mkRef (Operation r) (Source r)
                              (if (GuildID r =? "")%string then g else GuildID r)
                              (if (ChannelID r =? "")%string then c else ChannelID r)
                              (MessageID r) (RelatedKind r) (RelatedID r))
              end in
            match scoped with
            | inr er => (Some er, l)
            | inl r =>
                if (GuildID r =? "")%string || (ChannelID r =? "")%string
                then (Some (EText "message identity is incomplete"), l)
                else match recordFailure now r e l with
                     | (Some er, _) => (Some er, l)
                     | (None, l') => (None, pruneResolvedFailures now l')
                     end
            end
      end
  end.

Definition ResolveFailureIdentity (now : Z) (ref : FailureRef) (l : ledger) : option err * ledger :=
  let r := normalizeFailureRef ref in
  match ref_required r with
  | Some er => (Some er, l)
  | None =>
      (None, pruneResolvedFailures now
               (update_where (λ f, unresolved f && bool_decide (Ref f = r)) (set_resolved now None) l))
  end.

(** Trimmed, non-empty, first occurrences only. *)
Fixpoint distinct_ids (seen : list string) (ids : list string) : list string :=
  match ids with
  | [] => []
  | id :: rest =>
      let id := TrimSpace id in
      if (id =? "")%string || bool_decide (id ∈ seen) then distinct_ids seen rest
      else id :: distinct_ids (id :: seen) rest
  end.

(** The updates are issued in batches of 500 ids; every batch uses the same
    instant and the same other clauses. *)
Fixpoint batches (fuel : nat) (ids : list string) : list (list string) :=
  match fuel, ids with
  | _, [] => []
  | O, _ => []
  | S f, _ => take 500 ids :: batches f (drop 500 ids)
  end.

Definition message_failure_matches (r : FailureRef) (batch : list string) (f : Failure) : bool :=
  unresolved f && (Operation (Ref f) =? Operation r)%string && (Source (Ref f) =? Source r)%string
  && field_matches (GuildID r) (GuildID (Ref f)) && field_matches (ChannelID r) (ChannelID (Ref f))
  && field_matches (RelatedKind r) (RelatedKind (Ref f))
  && field_matches (RelatedID r) (RelatedID (Ref f))
  && bool_decide (MessageID (Ref f) ∈ batch).

Definition ResolveMessageFailures (now : Z) (ref : FailureRef) (messageIDs : list string)
    (l : ledger) : option err * ledger :=
  let r := normalizeFailureRef ref in
  match ref_required r with
  | Some er => (Some er, l)
  | None =>
      let ids := distinct_ids [] messageIDs in
      match ids with
      | [] => (None, l)
      | _ => (None, pruneResolvedFailures now
                (fold_left (λ l b, update_where (message_failure_matches r b) (set_resolved now None) l)
                           (batches (length ids) ids) l))
      end
  end.

Definition ResolveFailureWithReason (now : Z) (ref : FailureRef) (reason : string) (l : ledger) :
    option err * ledger :=
  if (reason =? "")%string then (Some (EText "resolution reason required"), l)
  else (None, update_where (λ f, unresolved f && bool_decide (Ref f = ref))
                           (set_resolved now (Some reason)) l).

Definition ResolveFailureGeneration (now : Z) (failure : Failure) (reason : string) (l : ledger) :
    option err * ledger :=
  if (reason =? "")%string then (Some (EText "resolution reason required"), l)
  else if FailureID failure =? 0 then (Some (EText "failure id required"), l)
  else (None, update_where (λ f, (FailureID f =? FailureID failure)
                                 && (RetryCount f =? RetryCount failure) && unresolved f)
                           (set_resolved now (Some reason)) l).

(** ** Queries *)

Inductive replay_order := OldestSeen | AfterID (id : Z).

Definition candidate (r : FailureRef) (guildIDs relatedIDs : list string) (o : replay_order)
    (f : Failure) : bool :=
  unresolved f && (Operation (Ref f) =? Operation r)%string && (Source (Ref f) =? Source r)%string
  && (bool_decide (guildIDs = []) || bool_decide (GuildID (Ref f) ∈ guildIDs))
  && field_matches (GuildID r) (GuildID (Ref f)) && field_matches (ChannelID r) (ChannelID (Ref f))
  && field_matches (MessageID r) (MessageID (Ref f))
  && field_matches (RelatedKind r) (RelatedKind (Ref f))
  && field_matches (RelatedID r) (RelatedID (Ref f))
  && (bool_decide (relatedIDs = []) || bool_decide (RelatedID (Ref f) ∈ relatedIDs))
  && match o with OldestSeen => true | AfterID a => a <? FailureID f end.

(** [order by last_seen_at asc, failure_id asc] or [order by failure_id asc]. *)
Definition replay_le (o : replay_order) (f g : Failure) : Prop :=
  match o with
  | OldestSeen => LastSeenAt f < LastSeenAt g ∨ LastSeenAt f = LastSeenAt g ∧ FailureID f <= FailureID g
  | AfterID _ => FailureID f <= FailureID g
  end.
#[export] Instance replay_le_dec o : RelDecision (replay_le o).
Proof. intros f g. destruct o; unfold replay_le; apply _. Defined.

Definition listFailureReplayCandidates (ref : FailureRef) (guildIDs relatedIDs : list string)
    (o : replay_order) (limit : Z) (l : ledger) : list Failure + err :=
  let r := normalizeFailureRef ref in
  match ref_required r with
  | Some er => inr er
  | None =>
      let limit := if limit <=? 0 then defaultFailureLimit else limit in
      if maxFailureLimit <? limit then inr (EText "failure replay limit must be at most 1000")
      else inl (take (Z.to_nat limit)
                  (merge_sort (replay_le o) (List.filter (candidate r guildIDs relatedIDs o) (rows l))))
  end.

Definition ListFailureReplayCandidates ref guildIDs limit l :=
  listFailureReplayCandidates ref guildIDs [] OldestSeen limit l.

Definition ListFailureReplayCandidatesAfter (ref : FailureRef) (guildIDs : list string) (afterID limit : Z)
    (l : ledger) :=
  listFailureReplayCandidates ref guildIDs [] (AfterID (if afterID <? 0 then 0 else afterID)) limit l.

Definition ListFailureReplayCandidatesMatchingRelatedIDs (ref : FailureRef)
    (guildIDs relatedIDs : list string) (limit : Z) (l : ledger) : list Failure + err :=
  if negb (TrimSpace (RelatedID ref) =? "")%string
  then inr (EText "failure related ID and related ID list cannot both be set")
  else match distinct_ids [] relatedIDs with
       | [] => inr (EText "at least one failure related ID is required")
       | ids => listFailureReplayCandidates ref guildIDs ids OldestSeen limit l
       end.

Record list_options := ListOptions {
  IncludeResolved : bool; o_Source : string; o_GuildID : string; o_ChannelID : string; o_Limit : Z
}.

Definition failureWhere (include_resolved : bool) (source guild chan : string) (f : Failure) : bool :=
  (include_resolved || unresolved f) && field_matches source (Source (Ref f))
  && field_matches guild (GuildID (Ref f)) && field_matches chan (ChannelID (Ref f)).

(** [order by (resolved_at is null) desc, last_seen_at desc, failure_id desc]. *)
Definition report_le (f g : Failure) : Prop :=
  if unresolved f then
    if unresolved g then LastSeenAt g < LastSeenAt f ∨ LastSeenAt g = LastSeenAt f ∧ FailureID g <= FailureID f
    else True
  else if unresolved g then False
  else LastSeenAt g < LastSeenAt f ∨ LastSeenAt g = LastSeenAt f ∧ FailureID g <= FailureID f.
#[export] Instance report_le_dec : RelDecision report_le.
Proof. intros f g. unfold report_le. destruct (unresolved f), (unresolved g); apply _. Defined.

(** The unresolved count and the listed rows. *)
Definition ListFailures (opts : list_options) (l : ledger) : (nat * list Failure) + err :=
  let source := TrimSpace (o_Source opts) in
  let guild := TrimSpace (o_GuildID opts) in
  let chan := TrimSpace (o_ChannelID opts) in
  let limit := if o_Limit opts <=? 0 then defaultFailureLimit else o_Limit opts in
  if maxFailureLimit <? limit then inr (EText "failure limit must be at most 1000")
  else inl (length (List.filter (failureWhere false source guild chan) (rows l)),
            take (Z.to_nat limit)
              (merge_sort report_le
                 (List.filter (failureWhere (IncludeResolved opts) source guild chan) (rows l)))).
End operations.

(** ** Well-formed ledgers *)

Record ledger_ok (l : ledger) : Prop := {
  ok_refs : NoDup (Ref <$> rows l);
  ok_ids : NoDup (FailureID <$> rows l);
  ok_bound : ∀ f, f ∈ rows l → 1 <= FailureID f <= last_id l;
  ok_last : 0 <= last_id l;
  ok_retry : ∀ f, f ∈ rows l → 0 <= RetryCount f;
  ok_keys : ∀ f, f ∈ rows l → ref_required (Ref f) = None
}.

Lemma empty_ledger_ok : ledger_ok empty_ledger.
Proof. split; simpl; try apply NoDup_nil_2; try lia; intros f Hf; by apply elem_of_nil in Hf. Qed.

(** An update of non-key columns that does not lower the retry count. *)
Definition keeps_key (g : Failure → Failure) : Prop :=
  ∀ f, Ref (g f) = Ref f ∧ FailureID (g f) = FailureID f ∧ RetryCount f <= RetryCount (g f).

Lemma fmap_update {A} (k : Failure → A) p g l :
  (∀ f, k (g f) = k f) → k <$> rows (update_where p g l) = k <$> rows l.
Proof.
  intros H. unfold update_where. simpl. induction (rows l) as [|f fs IH]; [done|].
  cbn. f_equal; [by destruct (p f)|exact IH].
Qed.

Lemma elem_of_update p g l f :
  f ∈ rows (update_where p g l) ↔ ∃ f0, f = (if p f0 then g f0 else f0) ∧ f0 ∈ rows l.
Proof. apply (list_elem_of_fmap (λ f, if p f then g f else f)). Qed.

Lemma update_ok p g l : keeps_key g → ledger_ok l → ledger_ok (update_where p g l).
Proof.
  intros Hg [H1 H2 H3 H0 H4 H5]. split.
  - rewrite fmap_update; [done|]. intros f. by destruct (Hg f).
  - rewrite fmap_update; [done|]. intros f. by destruct (Hg f) as (_ & ? & _).
  - intros f (f0 & -> & Hf)%elem_of_update. destruct (Hg f0) as (_ & E & _).
    destruct (p f0); rewrite ?E; by apply H3.
  - done.
  - intros f (f0 & -> & Hf)%elem_of_update. specialize (H4 f0 Hf).
    destruct (Hg f0) as (_ & _ & ?). destruct (p f0); lia.
  - intros f (f0 & -> & Hf)%elem_of_update. destruct (Hg f0) as (E & _ & _).
    destruct (p f0); rewrite ?E; by apply H5.
Qed.

Lemma NoDup_fmap_filter {A} (k : Failure → A) (p : Failure → bool) fs :
  NoDup (k <$> fs) → NoDup (k <$> List.filter p fs).
Proof.
  induction fs as [|f fs IH]; simpl; [done|]. intros [Hn Hd]%NoDup_cons.
  destruct (p f); simpl; [|auto]. apply NoDup_cons. split; [|auto].
  intros (g & Hg & Hin)%list_elem_of_fmap. apply Hn. rewrite Hg. apply list_elem_of_fmap_2.
  apply list_elem_of_In, filter_In in Hin as [Hin _]. by apply list_elem_of_In.
Qed.


Lemma prune_ok now l : ledger_ok l → ledger_ok (pruneResolvedFailures now l).
Proof.
  intros [H1 H2 H3 H0 H4 H5].
  assert (∀ f, f ∈ rows (pruneResolvedFailures now l) → f ∈ rows l) as Hin
    by (intros f [? _]%elem_of_lfilter; done).
  split; auto; by apply NoDup_fmap_filter.
Qed.

Lemma prune_unresolved now l f :
  unresolved f = true → f ∈ rows (pruneResolvedFailures now l) ↔ f ∈ rows l.
Proof.
  intros Hu. simpl. rewrite elem_of_lfilter. unfold unresolved in Hu.
  destruct (ResolvedAt f); [done|]. tauto.
Qed.

Lemma set_resolved_key now reason : keeps_key (set_resolved now reason).
Proof. intros f. cbn. split_and!; [done|done|lia]. Qed.

Lemma ref_lookup l r :
  existsb (λ f, bool_decide (Ref f = r)) (rows l) = true ↔ r ∈ Ref <$> rows l.
Proof.
  rewrite existsb_exists, list_elem_of_fmap. split.
  - intros (f & Hf & E). propify. exists f. split; [done|by apply list_elem_of_In].
  - intros (f & -> & Hf). exists f. split; [by apply list_elem_of_In|by apply bool_decide_eq_true].
Qed.

(** Rows are identified by their reference, and by their id. *)
Lemma ok_ref_inj l f g : ledger_ok l → f ∈ rows l → g ∈ rows l → Ref f = Ref g → f = g.
Proof. intros []. by apply NoDup_key_inj. Qed.

Lemma ok_id_inj l f g :
  ledger_ok l → f ∈ rows l → g ∈ rows l → FailureID f = FailureID g → f = g.
Proof. intros []. by apply NoDup_key_inj. Qed.

Section properties.
Context `{ErrorReport}.

Lemma record_row_key now e : keeps_key (record_row now e).
Proof. intros f. cbn. split_and!; [done|done|lia]. Qed.

(** What every operation is made of: an update of columns that are no key, a
    row under the next id, and pruning. *)
Inductive table_step (l : ledger) : ledger → Prop :=
  | table_update p g : keeps_key g → table_step l (update_where p g l)
  | table_insert f : FailureID f = last_id l + 1 → RetryCount f = 0 → ref_required (Ref f) = None → Ref f ∉ Ref <$> rows l →
      table_step l (mkLedger (rows l ++ [f]) (last_id l + 1))
  | table_prune now : table_step l (pruneResolvedFailures now l).
#[local] Hint Constructors table_step : ledger.
#[local] Hint Resolve rtc_refl rtc_once set_resolved_key record_row_key : ledger.

Lemma table_step_ok l l' : table_step l l' → ledger_ok l → ledger_ok l'.
Proof.
  intros [p g Hg|f Hid Hrc Hreq Hnew|now] Hok; [by apply update_ok| |by apply prune_ok].
  destruct Hok as [H1 H2 H3 H0 H4 H5].
  assert (FailureID f ∉ FailureID <$> rows l) as Hfresh.
  { intros (g & E & Hg)%list_elem_of_fmap. specialize (H3 g Hg). lia. }
  split; cbn; try (rewrite fmap_app; apply NoDup_app; split_and!; [done| |apply NoDup_singleton]; intros x Hx ->%list_elem_of_singleton; done);
    try lia; intros g [Hg| ->%list_elem_of_singleton]%elem_of_app; auto; try lia. specialize (H3 g Hg). lia.
Qed.

Lemma table_steps_ok l l' : rtc table_step l l' → ledger_ok l → ledger_ok l'.
Proof. induction 1; eauto using table_step_ok. Qed.

(** What the later ledger says of the ids the earlier one has issued: a row
    under such an id is the row of then, with its identity. *)
Record issues_fresh (l l' : ledger) : Prop := {
  if_counter : last_id l <= last_id l';
  if_rows f' : f' ∈ rows l' → FailureID f' <= last_id l → ∃ f, f ∈ rows l ∧ FailureID f = FailureID f' ∧ Ref f = Ref f' }.

#[export] Instance issues_fresh_preorder : PreOrder issues_fresh.
Proof.
  split; [intros l; split; [done|eauto]|]. intros l1 l2 l3 [Hc1 Hr1] [Hc2 Hr2]. split; [lia|]. intros f3 Hf3 Hid.
  destruct (Hr2 f3 Hf3 ltac:(lia)) as (f2 & Hf2 & E2 & Er2). destruct (Hr1 f2 Hf2 ltac:(lia)) as (f1 & ? & ? & ?). exists f1. split_and!; congruence.
Qed.

Lemma table_step_fresh l l' : table_step l l' → issues_fresh l l'.
Proof.
  intros [p g Hg|f Hid Hrc Hreq Hnew|now]; (split; cbn; [lia|]).
  - intros f' (f & -> & Hf)%elem_of_update _. exists f. destruct (Hg f) as (Hr & Hi & _). by destruct (p f).
  - intros f' [Hf| ->%list_elem_of_singleton]%elem_of_app Hle; [by exists f'|lia].
  - intros f' [Hf _]%elem_of_lfilter _. by exists f'.
Qed.

Lemma table_steps_fresh l l' : rtc table_step l l' → issues_fresh l l'.
Proof. induction 1 as [|x y z Hxy _ IH]; [done|]. by transitivity y; [apply table_step_fresh|]. Qed.

Lemma recordFailure_steps now ref e l er l' : recordFailure now ref e l = (er, l') → rtc table_step l l'.
Proof.
  unfold recordFailure. set (r := normalizeFailureRef _).
  destruct (ref_required r) eqn:Hreq; [by intros [= _ <-]; apply rtc_refl|].
  destruct (existsb _ _) eqn:Hex; intros [= _ <-]; apply rtc_once; [eauto with ledger|].
  apply table_insert; [done..|]. cbn. intros Hin%ref_lookup. congruence.
Qed.

Lemma recordFailure_ok now ref e l er l' :
  recordFailure now ref e l = (er, l') → ledger_ok l → ledger_ok l'.
Proof. intros Hs%recordFailure_steps. by apply table_steps_ok. Qed.

(** Every operation that changes the table, with any arguments. *)
Inductive ledger_step : ledger → ledger → Prop :=
  | step_record now ref e l er l' :
      RecordFailure now ref e l = (er, l') → ledger_step l l'
  | step_record_event now ref e at_ l er l' :
      RecordEventFailure now ref e at_ l = (er, l') → ledger_step l l'
  | step_record_scoped now ref e stored l er l' :
      RecordFailureWithMessageScope now ref e stored l = (er, l') → ledger_step l l'
  | step_resolve now ref l er l' :
      ResolveFailures now ref l = (er, l') → ledger_step l l'
  | step_resolve_identity now ref l er l' :
      ResolveFailureIdentity now ref l = (er, l') → ledger_step l l'
  | step_resolve_messages now ref ids l er l' :
      ResolveMessageFailures now ref ids l = (er, l') → ledger_step l l'
  | step_resolve_reason now ref reason l er l' :
      ResolveFailureWithReason now ref reason l = (er, l') → ledger_step l l'
  | step_resolve_generation now f reason l er l' :
      ResolveFailureGeneration now f reason l = (er, l') → ledger_step l l'
  | step_prune now l : ledger_step l (pruneResolvedFailures now l).

Lemma update_then_prune p g now l : keeps_key g → rtc table_step l (pruneResolvedFailures now (update_where p g l)).
Proof. intros Hg. eapply rtc_l; [by apply table_update|]. eauto with ledger. Qed.
#[local] Hint Resolve update_then_prune : ledger.

Lemma ResolveFailures_steps now ref l er l' : ResolveFailures now ref l = (er, l') → rtc table_step l l'.
Proof. unfold ResolveFailures. case_match; intros [= _ <-]; eauto with ledger. Qed.

Lemma record_then_steps now ref e (k : ledger → ledger) l er l' :
  (∀ l1, rtc table_step l1 (k l1)) →
  match recordFailure now ref e l with
  | (Some er, _) => (Some er, l)
  | (None, l1) => (None, k l1)
  end = (er, l') → rtc table_step l l'.
Proof.
  intros Hk. destruct (recordFailure now ref e l) as [[?|] l1] eqn:E; intros [= _ <-]; [apply rtc_refl|].
  eapply rtc_trans; [by eapply recordFailure_steps|apply Hk].
Qed.

Lemma fold_batches_steps now r bs l :
  rtc table_step l (fold_left (λ l b, update_where (message_failure_matches r b) (set_resolved now None) l) bs l).
Proof. revert l. induction bs as [|b bs IH]; intros l; cbn; [apply rtc_refl|]. eapply rtc_l; [|apply IH]. eauto with ledger. Qed.

Lemma ledger_step_steps l l' : ledger_step l l' → rtc table_step l l'.
Proof.
  intros Hs. destruct Hs as
    [now ref [e|] l er l' Hs|now ref [e|] rcv l er l' Hs|now ref [e|] sto l er l' Hs|now ref l er l' Hs
    |now ref l er l' Hs|now ref ids l er l' Hs|now ref why l er l' Hs|now f why l er l' Hs|now l];
    try (cbn [RecordFailure RecordEventFailure] in Hs).
  - destruct (recordFailure now ref e l) as [[?|] l1] eqn:E; injection Hs as _ <-;
      [by eapply recordFailure_steps|]. eapply rtc_r; [by eapply recordFailure_steps|]. apply table_prune.
  - by eapply ResolveFailures_steps.
  - eapply record_then_steps; [|exact Hs]. intros l1. cbv zeta. apply update_then_prune. intros f. cbn. split_and!; [done|done|lia].
  - injection Hs as _ <-. apply rtc_refl.
  - unfold RecordFailureWithMessageScope in Hs. cbv zeta in Hs.
    destruct (ref_required _); [injection Hs as _ <-; apply rtc_refl|].
    destruct (MessageID _ =? "")%string; [injection Hs as _ <-; apply rtc_refl|].
    match type of Hs with match ?x with _ => _ end = _ => destruct x as [r|] end; [|injection Hs as _ <-; apply rtc_refl].
    destruct ((GuildID r =? "")%string || _); [injection Hs as _ <-; apply rtc_refl|].
    eapply record_then_steps; [|exact Hs]. eauto with ledger.
  - unfold RecordFailureWithMessageScope in Hs. injection Hs as _ <-. apply rtc_refl.
  - by eapply ResolveFailures_steps.
  - unfold ResolveFailureIdentity in Hs. destruct (ref_required _); injection Hs as _ <-; eauto with ledger.
  - unfold ResolveMessageFailures in Hs. destruct (ref_required _); [injection Hs as _ <-; apply rtc_refl|].
    cbv zeta in Hs. destruct (distinct_ids [] ids); injection Hs as _ <-; [apply rtc_refl|].
    eapply rtc_r; [apply (fold_batches_steps now (normalizeFailureRef ref) (batches (length (s :: l0)) (s :: l0)))|apply table_prune].
  - unfold ResolveFailureWithReason in Hs. case_match; injection Hs as _ <-; eauto with ledger.
  - unfold ResolveFailureGeneration in Hs. repeat (case_match; [injection Hs as _ <-; apply rtc_refl|]). injection Hs as _ <-. eauto with ledger.
  - eauto with ledger.
Qed.

Lemma ledger_step_ok l l' : ledger_step l l' → ledger_ok l → ledger_ok l'.
Proof. intros Hs%ledger_step_steps. by apply table_steps_ok. Qed.

(** C29: in every ledger [l] reachable from the empty one by recording,
    resolving and pruning in any order, an identity has at most one row, ids
    are distinct, retry counts are not negative and every row names an operation
    and a source. Ids are never reused: in whatever ledger [l'] comes later, a
    row under an id that had been issued by [l] is a row that [l] has, under the
    same identity; an id whose row is gone stays unused. *)
Theorem ledger_invariant (l l' : ledger) :
  rtc ledger_step empty_ledger l → rtc ledger_step l l' →
  ledger_ok l
  ∧ last_id l <= last_id l'
  ∧ ∀ f', f' ∈ rows l' → FailureID f' <= last_id l → ∃ f, f ∈ rows l ∧ FailureID f = FailureID f' ∧ Ref f = Ref f'.
Proof.
  intros H0 Hrun. split.
  - apply (rtc_ind_r (R := ledger_step) ledger_ok empty_ledger); [apply empty_ledger_ok| |done]. intros y z _ Hs IH. by eapply ledger_step_ok.
  - assert (issues_fresh l l') as [? ?]; [|done]. clear H0. induction Hrun as [|x y z Hs _ IH]; [done|].
    transitivity y; [|done]. by apply table_steps_fresh, ledger_step_steps.
Qed.

(** recording a failure leaves exactly one row for its normalized
    identity, pending, seen now, with the failure's class and redacted text;
    a row that existed keeps its id and first-seen instant and counts one
    more retry, even if it had been resolved; other pending rows are kept. *)
Theorem RecordFailure_pending (now : Z) (ref : FailureRef) (e : err) (l l' : ledger) :
  ledger_ok l → RecordFailure now ref (Some e) l = (None, l') →
  let r := normalizeFailureRef (mergeFailureRef ref (FailureRefFromError e)) in
  ∃ f, f ∈ rows l' ∧ Ref f = r ∧ (∀ g, g ∈ rows l' → Ref g = r → g = f)
     ∧ ResolvedAt f = None ∧ LastSeenAt f = now ∧ ErrorClass f = failureClass e
     ∧ ErrorMessage f = sanitizeFailureMessage (Error e)
     ∧ (∀ g, g ∈ rows l → Ref g = r →
          FailureID f = FailureID g ∧ FirstSeenAt f = FirstSeenAt g ∧ RetryCount f = RetryCount g + 1)
     ∧ (∀ g, unresolved g = true → Ref g ≠ r → g ∈ rows l' ↔ g ∈ rows l).
Proof.
  intros Hok Hrec r. unfold RecordFailure in Hrec.
  destruct (recordFailure now ref e l) as [[?|] l1] eqn:E; [done|]. injection Hrec as <-.
  pose proof (prune_ok now l1 (recordFailure_ok _ _ _ _ _ _ E Hok)) as Hok'.
  unfold recordFailure in E. fold r in E. destruct (ref_required r); [done|].
  destruct (existsb _ _) eqn:Hex; injection E as <-.
  - apply ref_lookup, list_elem_of_fmap in Hex as (g & Hg & Hin).
    exists (record_row now e g).
    assert (record_row now e g ∈ rows (update_where (λ f, bool_decide (Ref f = r)) (record_row now e) l)) as Hf.
    { apply elem_of_update. exists g. by rewrite bool_decide_eq_true_2. }
    split_and!; try done; [by apply prune_unresolved| | |].
    + intros h Hh Hr. apply (ok_ref_inj _ _ _ Hok' Hh); [by apply prune_unresolved|]. by rewrite Hr, Hg.
    + intros h Hh Hr. assert (h = g) as -> by (apply (ok_ref_inj l); congruence). done.
    + intros h Hu Hne. rewrite prune_unresolved, elem_of_update by done. split.
      * intros (h0 & -> & Hh). case_bool_decide; [|done]. simpl in Hne. done.
      * intros Hh. exists h. by rewrite bool_decide_eq_false_2.
  - set (f := mkFailure _ _ _ _ _ _ _ _ _) in *. exists f.
    assert (f ∈ rows l ++ [f]) as Hf by (apply elem_of_app; right; by apply list_elem_of_singleton).
    assert (∀ g, g ∈ rows l → Ref g ≠ r) as Hno.
    { intros g Hg Hr. assert (r ∈ Ref <$> rows l) as Hin by (rewrite <- Hr; by apply list_elem_of_fmap_2).
      apply ref_lookup in Hin. congruence. }
    split_and!; try done; [by apply prune_unresolved| |by intros g Hg Hr; destruct (Hno g)|].
    + intros h Hh Hr. apply (ok_ref_inj _ _ _ Hok' Hh); [by apply prune_unresolved|done].
    + intros h Hu Hne. rewrite prune_unresolved by done. simpl.
      rewrite elem_of_app, list_elem_of_singleton. split; [intros [?| ->]|]; naive_solver.
Qed.

(** [ResolveFailureGeneration] resolves only the generation a replay
    read. A row recorded again in between stays exactly as it is; a row
    still at the generation that was read, and pending, is resolved with the
    reason, and no other row changes. *)
Theorem ResolveFailureGeneration_fenced (now now' : Z) (e : err) (f : Failure) (reason : string)
    (l l1 : ledger) :
  ledger_ok l → f ∈ rows l → reason ≠ ""%string →
  normalizeFailureRef (mergeFailureRef (Ref f) (FailureRefFromError e)) = Ref f →
  RecordFailure now (Ref f) (Some e) l = (None, l1) →
  ResolveFailureGeneration now' f reason l1 = (None, l1)
  ∧ ∃ l2, ResolveFailureGeneration now' f reason l = (None, l2)
       ∧ rows l2 = map (λ g, if bool_decide (g = f) && unresolved f
                             then set_resolved now' (Some reason) f else g) (rows l).
Proof.
  intros Hok Hf Hreason Hnorm Hrec.
  pose proof (ok_bound l Hok f Hf) as Hid.
  unfold ResolveFailureGeneration.
  destruct (String.eqb_spec reason ""); [done|].
  destruct (Z.eqb_spec (FailureID f) 0); [lia|].
  assert (ledger_ok l1) as Hok1.
  { apply (ledger_step_ok l l1); [|done]. by eapply step_record. }
  destruct (RecordFailure_pending now (Ref f) e l l1 Hok Hrec)
    as (f1 & Hf1 & Hr1 & Hu1 & _ & _ & _ & _ & Hprev & _).
  rewrite Hnorm in *. destruct (Hprev f Hf eq_refl) as (Hid1 & _ & Hret1).
  split.
  - f_equal. unfold update_where. destruct l1 as [rs n1]; simpl in *. f_equal.
    rewrite <- (map_id rs) at 2. apply map_ext_in. intros g Hg%list_elem_of_In.
    destruct (Z.eqb_spec (FailureID g) (FailureID f)) as [E|]; [|done].
    assert (g = f1) as ->.
    { apply (ok_id_inj _ _ _ Hok1); [done|done|]. congruence. }
    destruct (Z.eqb_spec (RetryCount f1) (RetryCount f)); [lia|done].
  - eexists. split; [done|]. simpl. apply map_ext_in. intros g Hg%list_elem_of_In.
    case_bool_decide as Hgf.
    + subst g. rewrite !Z.eqb_refl. simpl. by destruct (unresolved f).
    + destruct (Z.eqb_spec (FailureID g) (FailureID f)) as [E|]; [|done].
      exfalso. apply Hgf. by apply (ok_id_inj l).
Qed.
End properties.

(** ** Batched resolution *)

Lemma concat_batches n ids : (length ids <= n)%nat → List.concat (batches n ids) = ids.
Proof.
  revert ids. induction n as [|n IH]; intros [|id ids] Hn; try done; [simpl in Hn; lia|].
  cbn [batches List.concat]. rewrite IH; [apply take_drop|].
  rewrite length_drop. simpl in *. lia.
Qed.

Lemma message_matches_app r b1 b2 f :
  message_failure_matches r (b1 ++ b2) f
  = message_failure_matches r b1 f || message_failure_matches r b2 f.
Proof.
  unfold message_failure_matches. rewrite <- andb_orb_distrib_r. f_equal.
  rewrite <- bool_decide_or. apply bool_decide_ext. apply elem_of_app.
Qed.

Lemma update_messages_app now r b1 b2 l :
  update_where (message_failure_matches r b2) (set_resolved now None)
    (update_where (message_failure_matches r b1) (set_resolved now None) l)
  = update_where (message_failure_matches r (b1 ++ b2)) (set_resolved now None) l.
Proof.
  unfold update_where. simpl. f_equal. rewrite map_map. apply map_ext. intros f.
  rewrite message_matches_app.
  destruct (message_failure_matches r b1 f); [|done]. simpl.
  by destruct (message_failure_matches r b2 (set_resolved now None f)) eqn:E.
Qed.

Lemma fold_batches_concat now r bs b0 l :
  fold_left (λ l b, update_where (message_failure_matches r b) (set_resolved now None) l) bs
    (update_where (message_failure_matches r b0) (set_resolved now None) l)
  = update_where (message_failure_matches r (b0 ++ List.concat bs)) (set_resolved now None) l.
Proof.
  revert b0. induction bs as [|b bs IH]; intros b0; simpl; [by rewrite app_nil_r|].
  by rewrite update_messages_app, IH, app_assoc.
Qed.

Lemma update_no_messages now r l :
  update_where (message_failure_matches r []) (set_resolved now None) l = l.
Proof.
  destruct l as [rs n]. unfold update_where. simpl. f_equal. rewrite <- (map_id rs) at 2.
  apply map_ext. intros f. unfold message_failure_matches.
  rewrite bool_decide_eq_false_2 by apply not_elem_of_nil. by rewrite andb_false_r.
Qed.

(** resolving the failures of a page of messages in batches of 500 ids is
    the same as one update over all of the distinct, trimmed, non-empty ids. *)
Theorem ResolveMessageFailures_batches (now : Z) (ref : FailureRef) (ids : list string) (l : ledger) :
  ref_required (normalizeFailureRef ref) = None → distinct_ids [] ids ≠ [] →
  ResolveMessageFailures now ref ids l
  = (None, pruneResolvedFailures now
             (update_where (message_failure_matches (normalizeFailureRef ref) (distinct_ids [] ids))
                           (set_resolved now None) l)).
Proof.
  intros Hreq Hne. unfold ResolveMessageFailures. rewrite Hreq. cbv zeta.
  destruct (distinct_ids [] ids) as [|i is_] eqn:Eids; [done|]. f_equal. f_equal.
  rewrite <- (update_no_messages now (normalizeFailureRef ref) l) at 1.
  rewrite fold_batches_concat. by rewrite concat_batches.
Qed.

Lemma ResolveMessageFailures_batches_witness :
  let f := mkFailure 1 (mkRef "tail_message" "discord" "g" "c" "m" "message_event" "create")
                     "e" "msg" 1 1 0 None "" in
  let l := mkLedger [f] 1 in
  ResolveMessageFailures 9 (mkRef "tail_message" "discord" "g" "c" "" "message_event" "create")
    [" m"; ""; "m"]%string l
  = (None, pruneResolvedFailures 9 (mkLedger [set_resolved 9 None f] 1)).
Proof.
  intros f l.
  rewrite (ResolveMessageFailures_batches 9
             (mkRef "tail_message" "discord" "g" "c" "" "message_event" "create")
             [" m"; ""; "m"]%string l ltac:(reflexivity) ltac:(discriminate)).
  vm_compute. reflexivity.
Defined.

(** ** Replay pages *)

#[export] Instance replay_after_total a : Total (replay_le (AfterID a)).
Proof. intros f g. simpl. lia. Qed.
#[export] Instance replay_after_trans a : Transitive (replay_le (AfterID a)).
Proof. intros f g h. simpl. lia. Qed.

Lemma replay_page_spec ref gs rel a limit l page :
  listFailureReplayCandidates ref gs rel (AfterID a) limit l = inl page →
  ∃ rest, Permutation (page ++ rest)
                      (List.filter (candidate (normalizeFailureRef ref) gs rel (AfterID a)) (rows l))
        ∧ StronglySorted (replay_le (AfterID a)) (page ++ rest)
        ∧ (rest ≠ [] → length page = Z.to_nat (if limit <=? 0 then defaultFailureLimit else limit)).
Proof.
  unfold listFailureReplayCandidates. case_match; [done|].
  case_match; [done|]. intros [= <-].
  set (n := Z.to_nat _). set (xs := merge_sort _ _).
  exists (drop n xs). rewrite take_drop. split_and!.
  - apply merge_sort_Permutation.
  - apply (StronglySorted_merge_sort _).
  - intros Hne. rewrite length_take. destruct (decide (n <= length xs)%nat); [lia|].
    destruct Hne. apply drop_ge. lia.
Qed.

(** a page of the rotating replay lane holds only pending rows of the
    requested identity with ids above the cursor, each once and in ascending
    id order, and no pending row is skipped: one that is not in the page has
    an id above every id of a full page, so resuming after the page's last id
    reaches it. *)
Theorem replay_page_complete (ref : FailureRef) (gs : list string) (a limit : Z) (l : ledger)
    (page : list Failure) :
  ledger_ok l → 0 <= a → ListFailureReplayCandidatesAfter ref gs a limit l = inl page →
  let c := candidate (normalizeFailureRef ref) gs [] (AfterID a) in
  (∀ f, f ∈ page → f ∈ rows l ∧ c f = true ∧ unresolved f = true ∧ a < FailureID f)
  ∧ StronglySorted (λ f g, FailureID f <= FailureID g) page ∧ NoDup (FailureID <$> page)
  ∧ (∀ f, f ∈ rows l → c f = true → f ∉ page →
       length page = Z.to_nat (if limit <=? 0 then defaultFailureLimit else limit)
       ∧ ∀ g, g ∈ page → FailureID g < FailureID f).
Proof.
  intros Hok Ha Hpage c. unfold ListFailureReplayCandidatesAfter in Hpage.
  replace (if a <? 0 then 0 else a) with a in Hpage by (destruct (Z.ltb_spec a 0); lia).
  destruct (replay_page_spec _ _ _ _ _ _ _ Hpage) as (rest & Hperm & Hsort & Hlen). fold c in Hperm.
  assert (∀ f, f ∈ page ++ rest ↔ f ∈ rows l ∧ c f = true) as Hin.
  { intros f. by rewrite Hperm, elem_of_lfilter. }
  assert (NoDup (FailureID <$> page ++ rest)) as Hnd.
  { rewrite Hperm. apply NoDup_fmap_filter, Hok. }
  split_and!.
  - intros f Hf. destruct (proj1 (Hin f) ltac:(apply elem_of_app; by left)) as [Hr Hc].
    split_and!; try done; unfold c, candidate in Hc; propify; [done|lia].
  - by apply StronglySorted_app_1_l in Hsort.
  - rewrite fmap_app in Hnd. by apply NoDup_app in Hnd as [? _].
  - intros f Hf Hc Hnot. assert (f ∈ rest) as Hrest.
    { destruct (proj1 (elem_of_app _ _ _) (proj2 (Hin f) (conj Hf Hc))); done. }
    split; [apply Hlen; intros ->; by apply elem_of_nil in Hrest|].
    intros g Hg. pose proof (StronglySorted_app_1_elem_of _ _ _ _ _ Hsort Hg Hrest) as Hle.
    simpl in Hle. destruct (Z.eq_dec (FailureID g) (FailureID f)) as [E|]; [|lia].
    exfalso. apply Hnot. rewrite <- (ok_id_inj l g f Hok); [done| |done|done].
    apply Hin, elem_of_app. by left.
Qed.

(** A reporter for the witnesses: plain text errors, nothing redacted. *)
Definition plain_report : ErrorReport :=
  {| type_name := λ _, "*errors.errorString"%string;
     sanitizeFailureMessage := λ m, m;
     FailureRefFromError := λ _, mkRef "" "" "" "" "" "" "" |}.

Definition example_ref : FailureRef := mkRef "sync_messages" "discord" "g" "c" "" "" "".

Definition example_ledger : ledger :=
  snd (RecordFailure (H := plain_report) 5 example_ref (Some (EText "boom")) empty_ledger).

Definition example_failure : Failure :=
  mkFailure 1 example_ref "errors.errorString" "boom" 5 5 0 None "".

Lemma example_ledger_ok : ledger_ok example_ledger.
Proof.
  apply (ledger_step_ok (H := plain_report) empty_ledger); [|apply empty_ledger_ok].
  apply (step_record (H := plain_report) 5 example_ref (Some (EText "boom")) _ None). reflexivity.
Qed.

(** The row of the first failure is resolved and pruned, and a failure of the
    same identity is recorded again: it gets the id 2. *)
Definition pruned_ledger : ledger :=
  pruneResolvedFailures (10 + 2 * resolvedFailureMaxAge) (snd (ResolveFailures 10 example_ref example_ledger)).
Definition recorded_again : ledger :=
  snd (RecordFailure (H := plain_report) (10 + 2 * resolvedFailureMaxAge) example_ref (Some (EText "boom")) pruned_ledger).

Lemma ledger_invariant_witness :
  ledger_ok example_ledger ∧ rows pruned_ledger = [] ∧ (FailureID <$> rows recorded_again) = [2]
  ∧ ∀ f', f' ∈ rows recorded_again → ¬ FailureID f' <= last_id pruned_ledger.
Proof.
  assert (ledger_step (H := plain_report) empty_ledger example_ledger) as H1 by (apply (step_record (H := plain_report) 5 example_ref (Some (EText "boom")) _ None); reflexivity).
  assert (rtc (ledger_step (H := plain_report)) example_ledger pruned_ledger) as H2.
  { eapply rtc_l; [apply (step_resolve (H := plain_report) 10 example_ref _ None); reflexivity|]. apply rtc_once. apply step_prune. }
  assert (ledger_step (H := plain_report) pruned_ledger recorded_again) as H3
    by (apply (step_record (H := plain_report) (10 + 2 * resolvedFailureMaxAge) example_ref (Some (EText "boom")) _ None); reflexivity).
  destruct (ledger_invariant (H := plain_report) example_ledger recorded_again (rtc_once _ _ H1) (rtc_r _ _ _ H2 H3)) as (Hok & _ & _).
  destruct (ledger_invariant (H := plain_report) pruned_ledger recorded_again (rtc_l _ _ _ _ H1 H2) (rtc_once _ _ H3)) as (_ & _ & Hids).
  split; [exact Hok|]. split; [vm_compute; reflexivity|]. split; [vm_compute; reflexivity|].
  intros f' Hf' Hle. destruct (Hids f' Hf' Hle) as (f & Hf & _). revert Hf. assert (rows pruned_ledger = []) as -> by (vm_compute; reflexivity). by intros ?%elem_of_nil.
Defined.

Lemma RecordFailure_pending_witness :
  ∃ l', RecordFailure (H := plain_report) 7 example_ref (Some (EText "again")) example_ledger = (None, l')
        ∧ ∃ f, f ∈ rows l' ∧ Ref f = example_ref.
Proof.
  eexists. split; [reflexivity|].
  destruct (RecordFailure_pending (H := plain_report) 7 example_ref (EText "again") example_ledger _
              example_ledger_ok eq_refl) as (f & Hf & Hr & _).
  exists f. split; [exact Hf|exact Hr].
Defined.

Lemma ResolveFailureGeneration_fenced_witness :
  let l1 := snd (RecordFailure (H := plain_report) 7 example_ref (Some (EText "again")) example_ledger) in
  ResolveFailureGeneration 8 example_failure "metadata_reconciled" l1 = (None, l1).
Proof.
  intros l1.
  apply (ResolveFailureGeneration_fenced (H := plain_report) 7 8 (EText "again") example_failure
           "metadata_reconciled" example_ledger l1).
  - apply example_ledger_ok.
  - left.
  - discriminate.
  - reflexivity.
  - reflexivity.
Defined.

Lemma replay_page_complete_witness :
  unresolved example_failure = true ∧ NoDup (FailureID <$> [example_failure]).
Proof.
  destruct (replay_page_complete example_ref [] 0 10 example_ledger [example_failure]
              example_ledger_ok ltac:(lia) eq_refl) as (H & _ & Hnd & _).
  destruct (H example_failure ltac:(left)) as (_ & _ & Hu & _).
  split; [exact Hu|exact Hnd].
Defined.
