(* ===== verification/Discord.v ===== *)
(** * Provider data

    The fields of discordgo's channels and messages that the program reads.
    A Go nil pointer is [None]; instants are nanoseconds. The channel type
    numbers are those of Discord's API. internal/syncer/channel_catalog.go
    classifies channels by type. *)
From S2P Require Import Prelude Decimal.
Local Open Scope Z_scope.

Record ThreadMetadata := mkThreadMetadata { th_Archived : bool; th_Locked : bool; th_ArchiveTimestamp : Z }.

(** [ch_Overwrites] is nil or the text of the permission overwrites; [ch_rest]
    stands for the fields that are only marshalled. *)
Record Channel := mkChannel {
  ch_ID : string; ch_GuildID : string; ch_ParentID : string;
  ch_Type : Z; ch_Name : string; ch_LastMessageID : string;
  ch_Topic : string; ch_Position : Z; ch_NSFW : bool; ch_Thread : option ThreadMetadata;
  ch_Overwrites : option string; ch_rest : string
}.

(** A copy of the channel under another guild id, [observed.GuildID = guildID]. *)
Definition of_guild (guild : string) (c : Channel) : Channel :=
  mkChannel (ch_ID c) guild (ch_ParentID c) (ch_Type c) (ch_Name c) (ch_LastMessageID c)
    (ch_Topic c) (ch_Position c) (ch_NSFW c) (ch_Thread c) (ch_Overwrites c) (ch_rest c).

(** A channel of which only the first fields matter. *)
Definition plain_channel (id guild parent : string) (type : Z) (name last : string) : Channel :=
  mkChannel id guild parent type name last "" 0 false None (Some "[]"%string) "".

Definition ChannelTypeGuildText : Z := 0.
Definition ChannelTypeGuildVoice : Z := 2.
Definition ChannelTypeGuildCategory : Z := 4.
Definition ChannelTypeGuildNews : Z := 5.
Definition ChannelTypeGuildNewsThread : Z := 10.
Definition ChannelTypeGuildPublicThread : Z := 11.
Definition ChannelTypeGuildPrivateThread : Z := 12.
Definition ChannelTypeGuildStageVoice : Z := 13.
Definition ChannelTypeGuildForum : Z := 15.

(** A parsed message. [payload] stands for the part of the provider's message
    that only the writer looks at. *)
Record Message := mkMessage {
  m_ID : string; m_ChannelID : string; m_GuildID : string;
  m_Timestamp : Z; m_payload : string
}.

(** ** internal/syncer/channel_catalog.go *)

Definition isThreadChannel (c : option Channel) : bool :=
  match c with
  | None => false
  | Some c => (ch_Type c =? ChannelTypeGuildPublicThread)
              || (ch_Type c =? ChannelTypeGuildPrivateThread)
              || (ch_Type c =? ChannelTypeGuildNewsThread)
  end.

Definition IsMessageChannel (c : option Channel) : bool :=
  match c with
  | None => false
  | Some c => (ch_Type c =? ChannelTypeGuildText) || (ch_Type c =? ChannelTypeGuildNews)
              || (ch_Type c =? ChannelTypeGuildVoice) || (ch_Type c =? ChannelTypeGuildStageVoice)
              || (ch_Type c =? ChannelTypeGuildPublicThread)
              || (ch_Type c =? ChannelTypeGuildPrivateThread)
              || (ch_Type c =? ChannelTypeGuildNewsThread)
  end.

(** [fmt.Sprintf("type_%d", t)]. *)
Definition type_kind (t : Z) : string := ("type_" ++ FormatInt t)%string.

Definition channelKind (c : Channel) : string :=
  let t := ch_Type c in
  if t =? ChannelTypeGuildCategory then "category"
  else if t =? ChannelTypeGuildText then "text"
  else if t =? ChannelTypeGuildNews then "announcement"
  else if t =? ChannelTypeGuildForum then "forum"
  else if t =? ChannelTypeGuildPublicThread then "thread_public"
  else if t =? ChannelTypeGuildPrivateThread then "thread_private"
  else if t =? ChannelTypeGuildNewsThread then "thread_announcement"
  else if t =? ChannelTypeGuildVoice then "voice"
  else type_kind t.

Lemma channelKind_stage c : ch_Type c = ChannelTypeGuildStageVoice → channelKind c = "type_13"%string.
Proof. unfold channelKind. intros ->. reflexivity. Qed.
