(* ===== verification/World.v ===== *)
(** * The world the crawler runs in

    A Go function of the syncer that performs store and provider calls is a
    state transformer over [world]: the tables it reads and writes, and a step
    counter that every call and every reading of the clock advances. The
    environment [Env] decides, by step number, what time it is, whether a store
    call fails (before its transaction commits, or after: a cancellation can be
    reported after a durable commit), and what the provider answers; theorems
    quantify over all environments, hence over all fault schedules. A cancelled
    or killed run is a schedule in which every later step fails.

    The message table is behind the interface [MessageStore], whose laws are
    what the crawler needs from internal/store/write.go. Loops whose progress
    depends on the provider take fuel; [None] is an exhausted fuel, and
    termination theorems give a fuel that suffices. *)
From S2P Require Import Prelude Snowflake Errors SyncState ChannelScope FailureLedger Discord.
Local Open Scope Z_scope.

(** ** What a message write carries (store.MessageMutation, store.WriteOptions) *)

Record mutation := mkMutation {
  mu_message : Message;       (** the record's source *)
  mu_guild : string;          (** [Record.GuildID] *)
  mu_channel_name : string;
  mu_embed : bool;            (** [EnqueueEmbedding] *)
  mu_catch_up : bool;         (** [EmbeddingCatchUp] *)
  mu_preserve_newer : bool;
  mu_observed_at : Z;         (** [ObservationStartedAt] *)
  mu_policy : string          (** [ScopePolicy] *)
}.

(** ** Interface of the message table *)

Class MessageStore (T : Type) := {
  (** [messages]: id to [channel_id]. *)
  message_channels : T → gmap string string;
  (** [UpsertMessages]: one transaction; the channels table holds the scopes. *)
  UpsertMessages : Z → channels → list mutation → T → option err * T
}.

Class MessageStoreLaws (T : Type) `{MessageStore T} := {
  upsert_stored now cs ms t t' :
    UpsertMessages now cs ms t = (None, t') →
    ∀ mu, mu ∈ ms → is_Some (message_channels t' !! m_ID (mu_message mu));
  upsert_keeps now cs ms t e t' id :
    UpsertMessages now cs ms t = (e, t') →
    is_Some (message_channels t !! id) → is_Some (message_channels t' !! id);
  upsert_origin now cs ms t e t' id c :
    UpsertMessages now cs ms t = (e, t') → message_channels t' !! id = Some c →
    message_channels t !! id = Some c
    ∨ ∃ mu, mu ∈ ms ∧ m_ID (mu_message mu) = id ∧ m_ChannelID (mu_message mu) = c;
  upsert_scoped now cs ms t t' :
    UpsertMessages now cs ms t = (None, t') →
    ∀ mu, mu ∈ ms → requireMessageScope cs (m_ChannelID (mu_message mu)) (mu_guild mu) (mu_policy mu) = None
}.

(** ** The environment *)

Inductive outcome :=
  | Done                      (** the call does what it says *)
  | FailBefore (e : err)      (** it fails and nothing is written *)
  | FailAfter (e : err).      (** its effect is durable but it reports [e] *)

Class Env := {
  clock : nat → Z;
  outcome_at : nat → outcome;
  (** [ctx.Err()] of the channel's context. *)
  context_err : nat → option err;
  (** [client.ChannelMessages(ctx, channel, 100, before, after)]. *)
  ChannelMessages : nat → string → string → string → list Message + err;
  (** [client.CanReadHistory], [None] when the client has no such method. *)
  CanReadHistory : option (nat → Channel → bool + err);
  (** [client.Channel(ctx, id)]; the channel may be nil. *)
  ClientChannel : nat → string → option Channel + err;
  (** Extraction of a message's attachments, which may download text. *)
  extract_outcome : nat → Message → option err;
  (** [channelExclusions.policyID()], empty when no exclusions are configured. *)
  policyID : string
}.

Section world.
Context {T : Type}.

Record world := mkWorld {
  w_sync : gmap string sync_row;
  w_channels : channels;
  w_messages : T;
  w_ledger : ledger;
  w_step : nat
}.

Definition tick (w : world) : world :=
  mkWorld (w_sync w) (w_channels w) (w_messages w) (w_ledger w) (S (w_step w)).
Definition with_sync (s : gmap string sync_row) (w : world) : world :=
  mkWorld s (w_channels w) (w_messages w) (w_ledger w) (w_step w).
Definition with_messages (t : T) (w : world) : world :=
  mkWorld (w_sync w) (w_channels w) t (w_ledger w) (w_step w).
Definition with_ledger (l : ledger) (w : world) : world :=
  mkWorld (w_sync w) (w_channels w) (w_messages w) l (w_step w).

(** ** The monad *)

Definition M (A : Type) : Type := world → option (A * world).
Definition ret {A} (a : A) : M A := λ w, Some (a, w).
Definition bind {A B} (m : M A) (k : A → M B) : M B :=
  λ w, match m w with
       | Some (a, w') => k a w'
       | None => None
       end.
Definition out_of_fuel {A} : M A := λ _, None.

(** ** Hoare triples

    [hoare P m Q]: started where [P] holds, a run of [m] that ends does so
    with a result and a world that satisfy [Q]. *)

Definition hoare {A} (P : world → Prop) (m : M A) (Q : A → world → Prop) : Prop :=
  ∀ w a w', P w → m w = Some (a, w') → Q a w'.

Lemma hoare_ret {A} (a : A) (P : world → Prop) (Q : A → world → Prop) :
  (∀ w, P w → Q a w) → hoare P (ret a) Q.
Proof. intros H w a' w' HP [= <- <-]. auto. Qed.

Lemma hoare_bind {A B} (m : M A) (k : A → M B) P Q R :
  hoare P m Q → (∀ a, hoare (Q a) (k a) R) → hoare P (bind m k) R.
Proof.
  intros Hm Hk w b w' HP. unfold bind. destruct (m w) as [[a w1]|] eqn:E; [|done].
  intros Hb. eapply Hk; eauto.
Qed.

Lemma hoare_conseq {A} (m : M A) P P' Q Q' :
  hoare P m Q → (∀ w, P' w → P w) → (∀ a w, Q a w → Q' a w) → hoare P' m Q'.
Proof. intros H HP HQ w a w' Hw E. eauto. Qed.

Lemma hoare_fuel {A} P Q : hoare P (out_of_fuel (A:=A)) Q.
Proof. by intros w a w' _ [=]. Qed.

Lemma hoare_pre_pure {A} (m : M A) (F : Prop) P Q :
  (F → hoare P m Q) → hoare (λ w, F ∧ P w) m Q.
Proof. intros H w a w' [HF HP] E. by eapply H. Qed.

(** The same, from one starting world: the form in which a proof follows a
    function's calls one after the other. *)
Definition wp {A} (m : M A) (Q : A → world → Prop) (w : world) : Prop :=
  ∀ a w', m w = Some (a, w') → Q a w'.

Lemma hoare_wp {A} (m : M A) P Q : (∀ w, P w → wp m Q w) → hoare P m Q.
Proof. intros H w a w' HP E. by eapply H. Qed.

Lemma wp_ret {A} (a : A) (Q : A → world → Prop) w : Q a w → wp (ret a) Q w.
Proof. by intros H a' w' [= <- <-]. Qed.

Lemma wp_bind {A B} (m : M A) (k : A → M B) R Q w :
  wp m R w → (∀ a w', R a w' → wp (k a) Q w') → wp (bind m k) Q w.
Proof.
  intros Hm Hk b w' . unfold bind. destruct (m w) as [[a w1]|] eqn:E; [|done].
  intros Hb. eapply Hk; eauto.
Qed.

(** A call by its triple. *)
Lemma wp_call {A B} (m : M A) (k : A → M B) P R Q w :
  hoare P m R → P w → (∀ a w', R a w' → wp (k a) Q w') → wp (bind m k) Q w.
Proof. intros Hm HP Hk. eapply wp_bind; [|exact Hk]. intros a w' E. eauto. Qed.

Lemma wp_conseq {A} (m : M A) P R Q w :
  hoare P m R → P w → (∀ a w', R a w' → Q a w') → wp m Q w.
Proof. intros Hm HP HQ a w' E. eauto. Qed.

Lemma wp_fuel {A} (Q : A → world → Prop) w : wp out_of_fuel Q w.
Proof. by intros a w' [=]. Qed.

Lemma hoare_and {A} (m : M A) P P' Q Q' :
  hoare P m Q → hoare P' m Q' → hoare (λ w, P w ∧ P' w) m (λ a w, Q a w ∧ Q' a w).
Proof. intros H H' w a w' [? ?] E. split; eauto. Qed.
End world.
Arguments world : clear implicits.
Arguments M : clear implicits.

Notation "'let!' x ':=' m 'in' k" := (bind m (λ x, k))
  (at level 10, x pattern, k at level 200, only parsing) : discrawl_scope.
(** [if err := m; err != nil { return f(err) }; k]. *)
Notation "'check!' m 'orelse' f ';' k" :=
  (bind m (λ e : option err, match e with Some e' => f e' | None => k end))
  (at level 10, m at level 100, f at level 9, k at level 200, only parsing) : discrawl_scope.
(** [x, err := m; if err != nil { return f(err) }; k]. *)
Notation "'try!' x ':=' m 'orelse' f ';' k" :=
  (bind m (λ r, match r with inr e' => f e' | inl x => k end))
  (at level 10, x pattern, m at level 100, f at level 9, k at level 200, only parsing) : discrawl_scope.
Local Open Scope discrawl_scope.

(** ** Store and provider calls *)

Section calls.
Context {T : Type} `{MS : MessageStore T} `{ENV : Env}.
Local Abbreviation M := (M T).

Definition time_Now : M Z := λ w, Some (clock (w_step w), tick w).

Definition store_write (f : Z → world T → option err * world T) : M (option err) := λ w,
  let w1 := tick w in
  match outcome_at (w_step w) with
  | Done => Some (f (clock (w_step w)) w1)
  | FailBefore e => Some (Some e, w1)
  | FailAfter e => Some (Some e, snd (f (clock (w_step w)) w1))
  end.

Definition store_read {A} (f : Z → world T → A) : M (A + err) := λ w,
  let w1 := tick w in
  match outcome_at (w_step w) with
  | Done => Some (inl (f (clock (w_step w)) w1), w1)
  | FailBefore e | FailAfter e => Some (inr e, w1)
  end.

(** A query that can refuse its arguments. *)
Definition store_query {A} (f : Z → world T → A + err) : M (A + err) := λ w,
  let w1 := tick w in
  match outcome_at (w_step w) with
  | Done => Some (f (clock (w_step w)) w1, w1)
  | FailBefore e | FailAfter e => Some (inr e, w1)
  end.

(** An operation on one table, as a transaction on the world. *)
Definition on_sync (f : Z → gmap string sync_row → option err * gmap string sync_row)
    (now : Z) (w : world T) : option err * world T :=
  let '(e, s) := f now (w_sync w) in (e, with_sync s w).
Definition on_ledger (f : Z → ledger → option err * ledger)
    (now : Z) (w : world T) : option err * world T :=
  let '(e, l) := f now (w_ledger w) in (e, with_ledger l w).

Definition get_sync_state (scope : string) : M (string + err) :=
  store_read (λ _ w, GetSyncState scope (w_sync w)).
Definition set_sync_state (scope cur : string) : M (option err) :=
  store_write (on_sync (λ now s, (None, SetSyncState now scope cur s))).
Definition delete_sync_state (scope : string) : M (option err) :=
  store_write (on_sync (λ _ s, (None, DeleteSyncState scope s))).
Definition advanceChannelLatest (ch id : string) : M (option err) :=
  store_write (on_sync (λ now, AdvanceChannelLatestMessageID now ch id)).
Definition ensure_latest_state (ch : string) : M (option err) :=
  store_write (on_sync (λ now, EnsureChannelLatestMessageState now ch)).
Definition fresh_unavailable : M (list string + err) :=
  store_read (λ now w, FreshUnavailableChannelIDs now (w_sync w)).

(** internal/store/query.go *)
Definition has_messages (ch : string) (t : T) : bool :=
  existsb (λ '(_, c), (c =? ch)%string) (map_to_list (message_channels t)).

(** [min(id)] and [max(id)] of a text column: bytewise; empty without rows. *)
Definition min_text (a b : string) : string :=
  if (a =? "")%string || String.ltb b a then b else a.
Definition max_text (a b : string) : string := if String.ltb a b then b else a.
Definition channel_ids (ch : string) (t : T) : list string :=
  omap (λ '(id, c), if (c =? ch)%string then Some id else None) (map_to_list (message_channels t)).
Definition message_bounds (ch : string) (t : T) : string * string :=
  (foldl min_text "" (channel_ids ch t), foldl max_text "" (channel_ids ch t))%string.

Definition ChannelHasMessages (ch : string) : M (bool + err) :=
  if (ch =? "")%string then ret (inl false)
  else store_read (λ _ w, has_messages ch (w_messages w)).
Definition ChannelMessageBounds (ch : string) : M ((string * string) + err) :=
  store_read (λ _ w, message_bounds ch (w_messages w)).

Definition channel_admitted (ch policy : string) : M (bool + err) :=
  store_read (λ _ w, ChannelCollectionAdmitted (w_channels w) ch policy).

Definition upsert_messages (ms : list mutation) : M (option err) :=
  match ms with
  | [] => ret None
  | _ => store_write (λ now w,
           let '(e, t) := UpsertMessages now (w_channels w) ms (w_messages w) in
           (e, with_messages t w))
  end.

Definition ledger_call (f : Z → ledger → option err * ledger) : M (option err) :=
  store_write (on_ledger f).

Definition channel_messages (ch before after : string) : M (list Message + err) := λ w,
  Some (ChannelMessages (w_step w) ch before after, tick w).
Definition client_channel (id : string) : M (option Channel + err) := λ w,
  Some (ClientChannel (w_step w) id, tick w).
Definition can_read_history (f : nat → Channel → bool + err) (c : Channel) : M (bool + err) :=
  λ w, Some (f (w_step w) c, tick w).
Definition extract_attachments (m : Message) : M (option err) := λ w,
  Some (extract_outcome (w_step w) m, tick w).
Definition ctx_Err : M (option err) := λ w, Some (context_err (w_step w), tick w).

(** ** Rules of the calls *)

Lemma hoare_store_write f (P : world T → Prop) Q :
  (∀ w, P w → P (tick w)) →
  (∀ now w e w', P w → f now w = (e, w') → (∀ e', Q (Some e') w') ∧ Q e w') →
  (∀ w e, P w → Q (Some e) w) →
  hoare P (store_write f) Q.
Proof.
  intros Ht Hf Hb w a w' HP. unfold store_write.
  destruct (outcome_at (w_step w)); cbn zeta.
  - destruct (f _ _) as [e1 w1] eqn:E. intros [= <- <-].
    apply (Hf _ _ _ _ (Ht _ HP) E).
  - intros [= <- <-]. auto.
  - destruct (f _ _) as [e1 w1] eqn:E. intros [= <- <-].
    apply (Hf _ _ _ _ (Ht _ HP) E).
Qed.

Lemma hoare_store_read {A} (f : Z → world T → A) (P : world T → Prop) Q :
  (∀ w, P w → P (tick w)) →
  (∀ now w, P w → Q (inl (f now w)) w) →
  (∀ w e, P w → Q (inr e) w) →
  hoare P (store_read f) Q.
Proof.
  intros Ht Hf Hb w a w' HP. unfold store_read.
  destruct (outcome_at (w_step w)); intros [= <- <-]; auto.
Qed.

Lemma hoare_store_query {A} (f : Z → world T → A + err) (P : world T → Prop) Q :
  (∀ w, P w → P (tick w)) →
  (∀ now w, P w → Q (f now w) w) →
  (∀ w e, P w → Q (inr e) w) →
  hoare P (store_query f) Q.
Proof.
  intros Ht Hf Hb w a w' HP. unfold store_query.
  destruct (outcome_at (w_step w)); intros [= <- <-]; auto.
Qed.

Lemma hoare_tick {A} (f : world T → A) (P : world T → Prop) :
  (∀ w, P w → P (tick w)) → hoare P (λ w, Some (f w, tick w)) (λ _, P).
Proof. intros Ht w a w' HP [= <- <-]. auto. Qed.
End calls.

(** ** Invariants of a channel's crawl

    [crawl_closed ch S I]: the predicate [I] is kept by every elementary effect a
    crawl of channel [ch] can have, when the cursors it sets or deletes are
    those of [S]. A function then keeps [I] under every fault schedule, which
    is proved once per function; [crawl_scope] is the [S] of a whole crawl. *)

Definition crawl_scope (ch scope : string) : Prop :=
  scope = channelBackfillScope ch ∨ scope = channelHistoryCompleteScope ch
  ∨ scope = channelHistoryVerificationScope ch ∨ scope = channelVerifiedEmptyScope ch
  ∨ ∃ t, scope = channelScope ch (":history_window:v1:" ++ t) ∧ HasSuffix t "Z" = true.

Record crawl_closed {T : Type} `{MessageStore T} (ch : string) (S : string → Prop)
    (I : world T → Prop) : Prop := {
  cl_tick w : I w → I (tick w);
  cl_advance w now id :
    I w → I (with_sync (snd (AdvanceChannelLatestMessageID now ch id (w_sync w))) w);
  cl_ensure w now :
    I w → I (with_sync (snd (EnsureChannelLatestMessageState now ch (w_sync w))) w);
  cl_set w now scope cur :
    S scope → I w → I (with_sync (SetSyncState now scope cur (w_sync w)) w);
  cl_delete w scope :
    S scope → I w → I (with_sync (DeleteSyncState scope (w_sync w)) w);
  cl_upsert w now ms e t :
    UpsertMessages now (w_channels w) ms (w_messages w) = (e, t) → I w → I (with_messages t w);
  cl_ledger w l : I w → I (with_ledger l w)
}.

Section closed.
Context {T : Type} `{MS : MessageStore T} `{ENV : Env}.
Context (ch : string) (S : string → Prop) (I : world T → Prop) (HI : crawl_closed ch S I).

Lemma store_write_closed f :
  (∀ now w, I w → I (snd (f now w))) → hoare I (store_write f) (λ _, I).
Proof.
  intros Hf. apply hoare_store_write; [apply (cl_tick _ _ _ HI)| |done].
  intros now w e w' Hw E. split; intros; apply (f_equal snd) in E; simpl in E; subst; auto.
Qed.

Lemma store_read_closed {A} (f : Z → world T → A) : hoare I (store_read f) (λ _, I).
Proof. apply hoare_store_read; [apply (cl_tick _ _ _ HI)|done|done]. Qed.

Lemma store_query_closed {A} (f : Z → world T → A + err) : hoare I (store_query f) (λ _, I).
Proof. apply hoare_store_query; [apply (cl_tick _ _ _ HI)|done|done]. Qed.

Lemma on_sync_closed f :
  (∀ now w, I w → I (with_sync (snd (f now (w_sync w))) w)) →
  hoare I (store_write (on_sync f)) (λ _, I).
Proof.
  intros Hf. apply store_write_closed. intros now w Hw. unfold on_sync.
  specialize (Hf now w Hw). by destruct (f now (w_sync w)).
Qed.

Lemma set_closed scope cur : S scope → hoare I (set_sync_state scope cur) (λ _, I).
Proof. intros Hs. apply on_sync_closed. intros now w Hw. simpl. by apply (cl_set _ _ _ HI). Qed.

Lemma delete_closed scope : S scope → hoare I (delete_sync_state scope) (λ _, I).
Proof. intros Hs. apply on_sync_closed. intros now w Hw. simpl. by apply (cl_delete _ _ _ HI). Qed.

Lemma advance_closed id : hoare I (advanceChannelLatest ch id) (λ _, I).
Proof. apply on_sync_closed. intros now w Hw. by apply (cl_advance _ _ _ HI). Qed.

Lemma ensure_closed : hoare I (ensure_latest_state ch) (λ _, I).
Proof. apply on_sync_closed. intros now w Hw. by apply (cl_ensure _ _ _ HI). Qed.

Lemma ledger_closed f : hoare I (ledger_call f) (λ _, I).
Proof.
  apply store_write_closed. intros now w Hw. unfold on_ledger.
  destruct (f now (w_ledger w)). by apply (cl_ledger _ _ _ HI).
Qed.

Lemma upsert_closed ms : hoare I (upsert_messages ms) (λ _, I).
Proof.
  unfold upsert_messages. destruct ms as [|mu ms]; [by apply hoare_ret|].
  apply store_write_closed. intros now w Hw.
  destruct (UpsertMessages now (w_channels w) (mu :: ms) (w_messages w)) as [e t] eqn:E.
  by apply (cl_upsert _ _ _ HI _ _ _ _ _ E).
Qed.

Lemma tick_closed {A} (f : world T → A) : hoare I (λ w, Some (f w, tick w)) (λ _, I).
Proof. apply hoare_tick, (cl_tick _ _ _ HI). Qed.
End closed.

Lemma hoare_bind_inv {T A B} (m : M T A) (k : A → M T B) I :
  hoare I m (λ _, I) → (∀ a, hoare I (k a) (λ _, I)) → hoare I (bind m k) (λ _, I).
Proof. intros Hm Hk. eapply hoare_bind; eauto. Qed.

Lemma crawl_scope_backfill ch : crawl_scope ch (channelBackfillScope ch).
Proof. by left. Qed.
Lemma crawl_scope_complete ch : crawl_scope ch (channelHistoryCompleteScope ch).
Proof. right. by left. Qed.
Lemma crawl_scope_verification ch : crawl_scope ch (channelHistoryVerificationScope ch).
Proof. do 2 right. by left. Qed.
Lemma crawl_scope_empty ch : crawl_scope ch (channelVerifiedEmptyScope ch).
Proof. do 3 right. by left. Qed.
Lemma crawl_scope_window ch t :
  HasSuffix t "Z" = true → crawl_scope ch (channelScope ch (":history_window:v1:" ++ t)).
Proof. do 4 right. eauto. Qed.

Create HintDb crawl.
#[export] Hint Resolve set_closed delete_closed advance_closed ensure_closed ledger_closed
  upsert_closed tick_closed store_read_closed store_query_closed crawl_scope_backfill crawl_scope_complete
  crawl_scope_verification crawl_scope_empty crawl_scope_window : crawl.

(** Walks through a function's binds and branches, with an invariant. *)
Ltac crawl_walk :=
  repeat (cbv zeta; lazymatch goal with
          | |- hoare _ (bind _ _) _ => apply hoare_bind_inv; [|intros ?]
          | |- hoare _ (ret _) _ => apply hoare_ret; by intros
          | |- hoare _ out_of_fuel _ => apply hoare_fuel
          | |- hoare _ (match ?x with _ => _ end) _ => destruct x
          | |- _ => solve [eauto with crawl]
          end).
