(* ===== verification/Provider.v ===== *)
(** * The provider's pages

    What the crawler relies on of Discord's message listing
    ([client.ChannelMessages]): the answer to a request, when there is one, is
    a page of the channel's history. The history of a channel is its list of
    messages, strictly newest first. *)
From S2P Require Import Prelude Snowflake Errors Discord World.
Local Open Scope Z_scope.

Definition syncMessagesPageSize : nat := 100.

(** Strictly newest first. *)
Definition newest_first (h : list Message) : Prop :=
  StronglySorted (λ a b, rank (m_ID b) < rank (m_ID a)) h.

Definition older (before : string) (m : Message) : bool :=
  (before =? "")%string || (rank (m_ID m) <? rank before).
Definition newer (after : string) (m : Message) : bool := rank after <? rank (m_ID m).

(** The provider's contract for a page of at most 100 messages: the newest ones
    before a message, or the oldest ones after it; newest first. *)
Definition serve (h : list Message) (before after : string) : list Message :=
  if (after =? "")%string then take syncMessagesPageSize (List.filter (older before) h)
  else rev (take syncMessagesPageSize (rev (List.filter (newer after) h))).

(** The answers of a provider whose history of channel [ch] is [h]: any request
    may fail, at any step, with any error. *)
Record serves `{Env} (ch : string) (h : list Message) : Prop := {
  sv_order : newest_first h;
  sv_ids m : m ∈ h → snowflake_id (m_ID m) = true;
  sv_channel m : m ∈ h → m_ChannelID m = ch;
  sv_answer n before after page :
    ChannelMessages n ch before after = inl page → page = serve h before after
}.
