(* ===== verification/GoTime.v ===== *)
(** * Instants as text

    An instant is a number of nanoseconds since 1970-01-01T00:00:00Z. Go's
    layout [time.RFC3339Nano] in UTC drops trailing zeros of the fraction, the
    fixed-width layout of internal/store keeps nine digits. *)
From S2P Require Import Prelude Snowflake Decimal.
Local Open Scope Z_scope.

Definition second : Z := 1000000000.
Definition day : Z := 24 * 3600 * second.

(** Year, month and day of a number of days since the epoch, in the proleptic
    Gregorian calendar: eras of 400 years that start on March 1st. *)
Definition civil_from_days (d : Z) : Z * Z * Z :=
  let z := d + 719468 in
  let era := z / 146097 in
  let doe := z - era * 146097 in
  let yoe := (doe - doe / 1460 + doe / 36524 - doe / 146096) / 365 in
  let doy := doe - (365 * yoe + yoe / 4 - yoe / 100) in
  let mp := (5 * doy + 2) / 153 in
  let dd := doy - (153 * mp + 2) / 5 + 1 in
  let m := if mp <? 10 then mp + 3 else mp - 9 in
  (yoe + era * 400 + (if m <=? 2 then 1 else 0), m, dd).

(** The [width] low decimal digits of [n]. *)
Fixpoint padded (width : nat) (n : Z) (acc : string) : string :=
  match width with
  | O => acc
  | S w => padded w (n / 10) (String (digit n) acc)
  end.
Definition pad (width : nat) (n : Z) : string := padded width n "".

Fixpoint drop_zeros (s : string) : string :=
  match s with
  | EmptyString => EmptyString
  | String c t => let t' := drop_zeros t in
                  if (t' =? "")%string && Ascii.eqb c "0" then EmptyString else String c t'
  end.

(** Go's [appendInt(b, year, 4)]: at least four digits, all of them when the
    year has more. *)
Definition year_text (y : Z) : string :=
  if y <? 0 then ("-" ++ pad 4 (- y))%string else if y <? 10000 then pad 4 y else pad (Nat.max 5 (String.length (pretty y))) y.

Definition date_time (t : Z) : string :=
  let '(y, m, d) := civil_from_days (t / day) in
  let s := (t mod day) / second in
  (year_text y ++ "-" ++ pad 2 m ++ "-" ++ pad 2 d ++ "T"
   ++ pad 2 (s / 3600) ++ ":" ++ pad 2 (s / 60 mod 60) ++ ":" ++ pad 2 (s mod 60))%string.

(** [t.UTC().Format(time.RFC3339Nano)]. *)
Definition RFC3339Nano (t : Z) : string :=
  let frac := drop_zeros (pad 9 (t mod second)) in
  (date_time t ++ (if (frac =? "")%string then "" else "." ++ frac) ++ "Z")%string.

(** internal/store's [timeLayout], nine digits always. *)
Definition timeLayout (t : Z) : string := (date_time t ++ "." ++ pad 9 (t mod second) ++ "Z")%string.

#[global] Arguments timeLayout : simpl never.
#[global] Arguments RFC3339Nano : simpl never.

Example RFC3339Nano_epoch : RFC3339Nano 0 = "1970-01-01T00:00:00Z"%string.
Proof. vm_compute. reflexivity. Qed.
Example RFC3339Nano_leap : RFC3339Nano 1709210096500000000 = "2024-02-29T12:34:56.5Z"%string.
Proof. vm_compute. reflexivity. Qed.

Lemma RFC3339Nano_Z t : HasSuffix (RFC3339Nano t) "Z" = true.
Proof.
  unfold RFC3339Nano. cbv zeta. generalize (date_time t) as dt, (drop_zeros (pad 9 (t mod second))) as fr.
  intros dt fr. rewrite <- append_assoc. apply HasSuffix_app.
Qed.

(** A text that ends in [Z] does so in its last non-empty part. *)
Lemma ends_in_Z_app a b : b ≠ ""%string → HasSuffix (a ++ b) "Z" = true → HasSuffix b "Z" = true.
Proof.
  unfold HasSuffix. intros Hb. destruct (CutSuffix (a ++ b) "Z") as [r|] eqn:E; [|done].
  apply CutSuffix_Some in E. intros _.
  assert (∃ q, b = (q ++ "Z")%string) as [q Hq].
  { revert r E. induction a as [|y a IH]; intros r E; simpl in E; [eauto|].
    destruct r as [|z r]; simpl in E; injection E as -> E; [|eauto].
    destruct a; [|discriminate]. simpl in E. done. }
  by rewrite (proj2 (CutSuffix_Some _ _ _) Hq).
Qed.

(** ** Reading a text back *)

Fixpoint read_digits (n : nat) (acc : Z) (s : string) : option (Z * string) :=
  match n, s with
  | O, _ => Some (acc, s)
  | S n', String c t => if is_digit c then read_digits n' (acc * 10 + (byte_of c - 48)) t else None
  | S _, EmptyString => None
  end.

Definition days_from_civil (y m d : Z) : Z :=
  let y' := if m <=? 2 then y - 1 else y in
  let era := y' / 400 in
  let yoe := y' - era * 400 in
  let doy := (153 * ((m + 9) mod 12) + 2) / 5 + d - 1 in
  era * 146097 + (yoe * 365 + yoe / 4 - yoe / 100 + doy) - 719468.

(** A fixed-width field of [n] digits after the separator [sep]. *)
Definition field (n : nat) (sep : string) (s : string) : option (Z * string) :=
  match CutPrefix s sep with Some r => read_digits n 0 r | None => None end.

(** Reads [timeLayout] back: [time.Parse] on the texts the store writes. *)
Definition parse_timeLayout (s : string) : option Z :=
  match field 4 "" s with None => None | Some (y, s) =>
  match field 2 "-" s with None => None | Some (mo, s) =>
  match field 2 "-" s with None => None | Some (d, s) =>
  match field 2 "T" s with None => None | Some (h, s) =>
  match field 2 ":" s with None => None | Some (mi, s) =>
  match field 2 ":" s with None => None | Some (sec, s) =>
  match field 9 "." s with None => None | Some (ns, s) =>
    if (s =? "Z")%string
       && bool_decide (civil_from_days (days_from_civil y mo d) = (y, mo, d))
       && (h <? 24) && (mi <? 60) && (sec <? 60)
    then Some (days_from_civil y mo d * day + (h * 3600 + mi * 60 + sec) * second + ns)
    else None
  end end end end end end end.

Example parse_timeLayout_leap : parse_timeLayout "2024-02-29T12:34:56.500000000Z" = Some 1709210096500000000.
Proof. vm_compute. reflexivity. Qed.

Lemma padded_app w n acc : padded w n acc = (padded w n "" ++ acc)%string.
Proof.
  revert n acc. induction w as [|w IH]; intros n acc; [done|]. simpl.
  rewrite IH, (IH _ (String _ "")), append_assoc. done.
Qed.

Lemma read_digits_app w acc s t v :
  read_digits w acc s = Some (v, ""%string) → read_digits w acc (s ++ t) = Some (v, t).
Proof.
  revert acc s. induction w as [|w IH]; intros acc s; simpl; [by intros [= -> ->]|].
  destruct s as [|c s]; [done|]. simpl. destruct (is_digit c); [apply IH|done].
Qed.

Lemma read_digits_snoc w acc s v c :
  read_digits w acc s = Some (v, ""%string) → is_digit c = true →
  read_digits (S w) acc (s ++ String c "") = Some (v * 10 + (byte_of c - 48), ""%string).
Proof.
  revert acc s. induction w as [|w IH]; intros acc s; [intros [= -> ->] Hc; simpl; by rewrite Hc|].
  destruct s as [|c' s]; [done|]. cbn [read_digits]. intros Hr Hc. simpl append. cbn [read_digits].
  destruct (is_digit c'); [|done]. apply (IH _ _ Hr Hc).
Qed.

Lemma read_padded w n : 0 <= n → read_digits w 0 (padded w n "") = Some (n mod 10 ^ Z.of_nat w, ""%string).
Proof.
  revert n. induction w as [|w IH]; intros n Hn; [by rewrite Z.mod_1_r|].
  cbn [padded]. rewrite padded_app. destruct (is_digit_digit n) as [Hd Hv].
  rewrite (read_digits_snoc _ _ _ _ _ (IH (n / 10) ltac:(apply Z.div_pos; lia)) Hd), Hv.
  do 2 f_equal. rewrite Nat2Z.inj_succ, Z.pow_succ_r, Z.rem_mul_r by lia. lia.
Qed.

Lemma field_padded w n sep rest :
  0 <= n < 10 ^ Z.of_nat w → field w sep (sep ++ pad w n ++ rest) = Some (n, rest).
Proof.
  intros Hn. unfold field, pad. rewrite CutPrefix_app.
  rewrite (read_digits_app _ _ _ rest _ (read_padded w n ltac:(lia))). by rewrite Z.mod_small.
Qed.

Lemma field_padded0 w n rest : 0 <= n < 10 ^ Z.of_nat w → field w "" (pad w n ++ rest) = Some (n, rest).
Proof. apply (field_padded w n "" rest). Qed.

(** *** The calendar is a bijection: checked on the days of one era *)

Definition era_day_ok (doe : Z) : bool :=
  let yoe := (doe - doe / 1460 + doe / 36524 - doe / 146096) / 365 in
  let doy := doe - (365 * yoe + yoe / 4 - yoe / 100) in
  let mp := (5 * doy + 2) / 153 in
  let dd := doy - (153 * mp + 2) / 5 + 1 in
  let m := if mp <? 10 then mp + 3 else mp - 9 in
  (0 <=? yoe) && (yoe <? 400) && (1 <=? m) && (m <=? 12) && (1 <=? dd) && (dd <=? 31)
  && ((m + 9) mod 12 =? mp).

Fixpoint all_days (n : nat) (d : Z) : bool :=
  match n with O => true | S n' => era_day_ok d && all_days n' (d + 1) end.

Lemma all_days_spec n d x : all_days n d = true → d <= x < d + Z.of_nat n → era_day_ok x = true.
Proof.
  revert d. induction n as [|n IH]; intros d; cbn [all_days]; [lia|]. intros H Hx. propify.
  destruct (Z.eq_dec d x) as [->|]; [done|]. apply (IH (d + 1)); [done|lia].
Qed.

Lemma era_days : all_days (Z.to_nat 146097) 0 = true.
Proof. vm_compute. reflexivity. Qed.

Lemma civil_bijection d :
  let '(y, m, dd) := civil_from_days d in days_from_civil y m dd = d ∧ 1 <= m <= 12 ∧ 1 <= dd <= 31.
Proof.
  unfold civil_from_days. cbv zeta. set (z := d + 719468). set (era := z / 146097). set (doe := z - era * 146097).
  assert (Hdoe : 0 <= doe < 146097).
  { unfold doe, era. pose proof (Z.mod_pos_bound z 146097 ltac:(lia)). rewrite Z.mod_eq in H by lia. lia. }
  pose proof (all_days_spec _ _ doe era_days ltac:(lia)) as Hok. unfold era_day_ok in Hok. cbv zeta in Hok.
  set (yoe := (doe - doe / 1460 + doe / 36524 - doe / 146096) / 365) in *.
  set (doy := doe - (365 * yoe + yoe / 4 - yoe / 100)) in *.
  set (mp := (5 * doy + 2) / 153) in *. set (m := if mp <? 10 then mp + 3 else mp - 9) in *. propify.
  split_and!; try lia. unfold days_from_civil.
  assert (Hy : (if m <=? 2 then yoe + era * 400 + (if m <=? 2 then 1 else 0) - 1 else yoe + era * 400 + (if m <=? 2 then 1 else 0)) = yoe + era * 400)
    by (destruct (m <=? 2); lia).
  rewrite Hy. assert (He : (yoe + era * 400) / 400 = era) by (rewrite Z.div_add by lia; rewrite Z.div_small; lia).
  rewrite He. replace (yoe + era * 400 - era * 400) with yoe by lia.
  match goal with H : (m + 9) mod 12 = mp |- _ => rewrite H end. unfold doy, doe, z in *. lia.
Qed.

(** *** The round trip *)

Definition in_years (t : Z) : bool := let '(y, _, _) := civil_from_days (t / day) in (0 <=? y) && (y <? 10000).

Lemma parse_timeLayout_written t : in_years t = true → parse_timeLayout (timeLayout t) = Some t.
Proof.
  unfold in_years, timeLayout, date_time, parse_timeLayout.
  pose proof (civil_bijection (t / day)) as Hc. destruct (civil_from_days (t / day)) as [[y m] d] eqn:E.
  destruct Hc as (Hd & Hm & Hdd). intros Hy. propify. cbv zeta. unfold year_text.
  destruct (Z.ltb_spec y 0); [lia|]. destruct (Z.ltb_spec y 10000); [|lia].
  pose proof (Z.mod_pos_bound t day ltac:(done)) as Hs. pose proof (Z.mod_pos_bound t second ltac:(done)) as Hn.
  set (s := (t mod day) / second).
  assert (Hs' : 0 <= s < 86400) by (unfold s; split; [apply Z.div_pos; unfold second; lia|apply Z.div_lt_upper_bound; unfold day, second in *; lia]).
  assert (Hns : t mod second = (t mod day) mod second).
  { unfold day, second. rewrite (Z.mod_eq t (24 * 3600 * 1000000000)) by lia.
    replace (t - 24 * 3600 * 1000000000 * (t / (24 * 3600 * 1000000000))) with (t + (- (24 * 3600 * (t / (24 * 3600 * 1000000000)))) * 1000000000) by lia.
    by rewrite Z.mod_add. }
  rewrite !append_assoc.
  pose proof (Z.mod_pos_bound s 60 ltac:(lia)). pose proof (Z.mod_pos_bound (s / 60) 60 ltac:(lia)).
  assert (0 <= s / 3600 < 24) by (split; [apply Z.div_pos; lia|apply Z.div_lt_upper_bound; lia]).
  unfold second in Hn.
  rewrite field_padded0 by lia. rewrite (field_padded 2 m "-") by lia. rewrite (field_padded 2 d "-") by lia.
  rewrite (field_padded 2 (s / 3600) "T") by lia. rewrite (field_padded 2 (s / 60 mod 60) ":") by lia.
  rewrite (field_padded 2 (s mod 60) ":") by lia. rewrite (field_padded 9 (t mod second) ".") by (unfold second; lia).
  rewrite Hd, E, bool_decide_eq_true_2 by done. cbn [String.eqb Ascii.eqb].
  replace (s / 3600 <? 24) with true by lia. replace (s / 60 mod 60 <? 60) with true by lia. replace (s mod 60 <? 60) with true by lia.
  cbn. f_equal. rewrite Hns. clear Hns.
  assert (Hsm : s = s / 3600 * 3600 + (s / 60) mod 60 * 60 + s mod 60).
  { pose proof (Z.div_mod s 60 ltac:(lia)). pose proof (Z.div_mod (s / 60) 60 ltac:(lia)).
    rewrite (Z.div_div s 60 60) in * by lia. change (60 * 60) with 3600 in *. lia. }
  rewrite <- Hsm. pose proof (Z.div_mod t day ltac:(done)) as Ht. pose proof (Z.div_mod (t mod day) second ltac:(done)) as Hts.
  fold s in Hts. lia.
Qed.

Lemma padded_digits w n acc c : is_digit c = true →
  ∃ d s, padded (S w) n (String c acc) = String d s ∧ is_digit d = true.
Proof.
  revert n acc c. induction w as [|w IH]; intros n acc c Hc; [eexists _, _; split; [done|]; apply is_digit_digit|].
  cbn [padded]. apply IH. apply is_digit_digit.
Qed.

Lemma read_digits_too_long w n k acc rest v r :
  read_digits w acc (padded (w + S k) n "" ++ rest) = Some (v, r) → ∃ d s, r = String d s ∧ is_digit d = true.
Proof.
  assert (Hall : ∀ l m, ∃ s, padded l m "" = s ∧ String.length s = l ∧ all_digits s = true).
  { clear. induction l as [|l IH]; intros m; [by exists ""%string|]. cbn [padded]. rewrite padded_app.
    destruct (IH (m / 10)) as (s & -> & Hl & Hd). eexists. split_and!; [done|rewrite length_append; simpl; lia|].
    destruct (is_digit_digit m) as [Hm _]. clear -Hd Hm. induction s as [|c s IHs]; simpl in *; [by rewrite Hm|]. propify.
    rewrite IHs by done. by rewrite andb_true_r. }
  destruct (Hall (w + S k)%nat n) as (s & -> & Hl & Hd). clear Hall. revert acc s Hl Hd.
  induction w as [|w IH]; intros acc s Hl Hd.
  - destruct s as [|d s]; [simpl in Hl; lia|]. simpl. intros [= <- <-]. eexists _, _. split; [done|]. simpl in Hd. by propify.
  - destruct s as [|d s]; [simpl in Hl; lia|]. simpl in Hd, Hl. propify. simpl. case_match; [|done]. apply IH; [lia|done].
Qed.

(** A text outside the four-digit years reads back to nothing. *)
Lemma parse_timeLayout_only t t' : parse_timeLayout (timeLayout t) = Some t' → t' = t.
Proof.
  destruct (in_years t) eqn:Ey; [rewrite parse_timeLayout_written by done; by intros [= <-]|].
  unfold in_years in Ey. unfold timeLayout, date_time, parse_timeLayout.
  destruct (civil_from_days (t / day)) as [[y m] d]. cbv zeta. unfold year_text.
  destruct (Z.ltb_spec y 0) as [Hy|Hy]; [done|]. destruct (Z.ltb_spec y 10000); [lia|].
  unfold field at 1. rewrite !append_assoc. cbn [CutPrefix]. unfold pad at 1.
  replace (Nat.max 5 (String.length (pretty y))) with (4 + S (Nat.max 5 (String.length (pretty y)) - 5))%nat by lia.
  destruct (read_digits 4 0 _) as [[v r]|] eqn:Er; [|done].
  apply read_digits_too_long in Er as (c & s & -> & Hc). unfold field at 1. cbn [CutPrefix].
  destruct (Ascii.eqb_spec "-" c) as [<-|]; [discriminate Hc|done].
Qed.
