(* ===== verification/MessageSync.v ===== *)
(** * Message pages

    internal/syncer/message_sync.go: the scope check before every request, the
    persistence of one page, and the three pagination loops (forward from a
    cursor, backfill towards the start of the channel, bootstrap). A loop
    returns what the Go function returns, early returns included; the progress
    reports ([progress.touch]) are not modelled. *)
From S2P Require Import Prelude Snowflake Errors SyncState ChannelScope FailureLedger Discord World Provider.
Local Open Scope Z_scope.
Local Open Scope discrawl_scope.

(** ** Data *)

Record historyVerificationCheckpoint := mkCheckpoint { cp_Latest : string; cp_Before : string }.
#[export] Instance checkpoint_eq_dec : EqDecision historyVerificationCheckpoint.
Proof. solve_decision. Defined.

(** internal/syncer/history_window.go *)
Record HistoryWindow := mkWindow {
  hw_GuildID : string; hw_ChannelID : string; hw_ChannelType : Z;
  hw_Since : Z; hw_Until : Z; hw_CompletedAt : Z;
  hw_Boundary : string; hw_BoundaryMessageID : string
}.
#[export] Instance window_eq_dec : EqDecision HistoryWindow.
Proof. solve_decision. Defined.

Definition set_boundary (b id : string) (h : HistoryWindow) : HistoryWindow :=
  mkWindow (hw_GuildID h) (hw_ChannelID h) (hw_ChannelType h) (hw_Since h) (hw_Until h)
           (hw_CompletedAt h) b id.

(** What the syncer needs of encoding/json for a value it stores in a cursor. *)
Class JSON (A : Type) := { Marshal : A → string; Unmarshal : string → option A }.
(** Values of [A] that survive the round trip; an encoding is never empty. *)
Class JSONLaws (A : Type) `{JSON A} (good : A → Prop) := {
  Unmarshal_Marshal a : good a → Unmarshal (Marshal a) = Some a;
  Marshal_nonempty a : Marshal a ≠ ""%string
}.

Definition good_checkpoint (c : historyVerificationCheckpoint) : Prop :=
  is_cursor (cp_Latest c) = true ∧ is_cursor (cp_Before c) = true.

(** [filterMessagesSince]; [None] is the zero time. *)
Fixpoint messages_until (since : Z) (ms : list Message) : list Message * bool :=
  match ms with
  | [] => ([], false)
  | m :: rest =>
      if m_Timestamp m <? since then ([], true)
      else let '(out, reached) := messages_until since rest in (m :: out, reached)
  end.

Definition filterMessagesSince (ms : list Message) (since : option Z) : list Message * bool :=
  match since with
  | None => (ms, false)
  | Some t => messages_until t ms
  end.

Definition effectiveMessageGuildID (m : Message) (fallbackGuildID : string) : string :=
  if negb (TrimSpace (m_GuildID m) =? "")%string then m_GuildID m else TrimSpace fallbackGuildID.

(** [page[len(page)-1].ID]. *)
Definition last_id_of (page : list Message) : string :=
  match last page with Some m => m_ID m | None => "" end.

Definition missing_id (ch : string) : err := EText ("channel " ++ ch ++ " message page missing id").
Definition did_not_advance (ch : string) : err :=
  EText ("channel " ++ ch ++ " message page cursor did not advance").

(** The references [resolveTailMessageCreateFailuresForMessages] resolves: the
    ids of the page by guild and channel. Go iterates a map; here the groups
    come in the order of their first message. *)
Fixpoint add_to_group (g c id : string) (groups : list (string * string * list string)) :=
  match groups with
  | [] => [(g, c, [id])]
  | (g', c', ids) :: rest =>
      if (g =? g')%string && (c =? c')%string then (g', c', ids ++ [id]) :: rest
      else (g', c', ids) :: add_to_group g c id rest
  end.

Definition message_groups (fallbackGuildID : string) (ms : list Message) :
    list (string * string * list string) :=
  foldl (λ groups m,
           if (m_ID m =? "")%string || (m_ChannelID m =? "")%string then groups
           else let g := if (m_GuildID m =? "")%string then fallbackGuildID else m_GuildID m in
                add_to_group g (m_ChannelID m) (m_ID m) groups)
        [] ms.

Definition tail_create_ref (g c : string) : FailureRef :=
  mkRef "tail_message" "discord" g c "" "message_event" "create".

Section pages.
Context {T : Type} `{MS : MessageStore T} `{ENV : Env} `{JC : JSON historyVerificationCheckpoint}.
Local Abbreviation M := (M T).

Definition requirePersistedScope (ch : string) : M (option err) :=
  if (ch =? "")%string then ret None
  else try! allowed := channel_admitted ch policyID orelse (λ e, ret (Some e));
       if allowed then ret None else ret (Some ECollectionScope).

(** The mutation of a message, once its attachments are extracted. *)
Definition buildMessageMutation (m : Message) (channelName fallbackGuildID : string)
    (embeddings : bool) : M (mutation + err) :=
  check! (extract_attachments m) orelse (λ e, ret (inr e));
  ret (inl (mkMutation m (effectiveMessageGuildID m fallbackGuildID) channelName embeddings
              false true 0 "")).

Definition catch_up (mu : mutation) : mutation :=
  mkMutation (mu_message mu) (mu_guild mu) (mu_channel_name mu) (mu_embed mu) true
             (mu_preserve_newer mu) (mu_observed_at mu) (mu_policy mu).

Fixpoint buildMessageMutations_from (ms : list Message) (channelName fallbackGuildID : string)
    (embeddings : bool) (mutations : list mutation) (newest : string) :
    M ((list mutation * string) + err) :=
  match ms with
  | [] => ret (inl (mutations, newest))
  | m :: rest =>
      try! mu := buildMessageMutation m channelName fallbackGuildID embeddings
        orelse (λ e, ret (inr e));
      buildMessageMutations_from rest channelName fallbackGuildID embeddings
        (mutations ++ [catch_up mu]) (maxSnowflake newest (m_ID m))
  end.

Definition buildMessageMutations (ms : list Message) (channelName fallbackGuildID : string)
    (embeddings : bool) : M ((list mutation * string) + err) :=
  buildMessageMutations_from ms channelName fallbackGuildID embeddings [] "".

Definition observe (observedAt : Z) (mu : mutation) : mutation :=
  mkMutation (mu_message mu) (mu_guild mu) (mu_channel_name mu) (mu_embed mu) (mu_catch_up mu)
             true observedAt policyID.

Fixpoint resolve_groups (groups : list (string * string * list string)) : M (option err) :=
  match groups with
  | [] => ret None
  | (g, c, ids) :: rest =>
      check! (ledger_call (λ now, ResolveMessageFailures now (tail_create_ref g c) ids))
        orelse (λ e, ret (Some e));
      resolve_groups rest
  end.

Definition resolveTailMessageCreateFailuresForMessages (ms : list Message)
    (fallbackGuildID : string) : M (option err) :=
  resolve_groups (message_groups fallbackGuildID ms).

Definition persistMessagePage (ms : list Message) (channelName fallbackGuildID : string)
    (embeddings : bool) (observedAt : Z) : M (string * option err) :=
  match ms with
  | [] => ret (""%string, None)
  | m0 :: _ =>
      check! (requirePersistedScope (m_ChannelID m0)) orelse (λ e, ret (""%string, Some e));
      try! (mutations, newest) := buildMessageMutations ms channelName fallbackGuildID embeddings
        orelse (λ e, ret (""%string, Some e));
      check! (upsert_messages (map (observe observedAt) mutations))
        orelse (λ e, ret (""%string, Some e));
      check! (resolveTailMessageCreateFailuresForMessages ms fallbackGuildID)
        orelse (λ e, ret (""%string, Some e));
      ret (newest, None)
  end.

(** ** The loops *)

Fixpoint forward_loop (fuel : nat) (c : Channel) (embeddings : bool)
    (messageCount : nat) (newest after : string) : M (nat * string * option err) :=
  match fuel with
  | O => out_of_fuel
  | S fuel =>
      let! observedAt := time_Now in
      check! (requirePersistedScope (ch_ID c)) orelse (λ e, ret (messageCount, newest, Some e));
      try! page := channel_messages (ch_ID c) "" after
        orelse (λ e, ret (messageCount, newest, Some e));
      if (length page =? 0)%nat then ret (messageCount, newest, None)
      else
        let! (pageNewest, perr) := persistMessagePage page (ch_Name c) (ch_GuildID c) embeddings observedAt in
        match perr with
        | Some e => ret (messageCount, newest, Some e)
        | None =>
            let newest := maxSnowflake newest pageNewest in
            let messageCount := (messageCount + length page)%nat in
            check! (advanceChannelLatest (ch_ID c) newest)
              orelse (λ e, ret (messageCount, newest, Some e));
            if (length page <? syncMessagesPageSize)%nat then ret (messageCount, newest, None)
            else
              let nextAfter := maxSnowflake after pageNewest in
              if (nextAfter =? "")%string then ret (messageCount, newest, Some (missing_id (ch_ID c)))
              else if (nextAfter =? after)%string
              then ret (messageCount, newest, Some (did_not_advance (ch_ID c)))
              else forward_loop fuel c embeddings messageCount newest nextAfter
        end
  end.

Definition syncForwardPages (fuel : nat) (c : Channel) (after : string) (embeddings : bool) :
    M (nat * string * option err) :=
  forward_loop fuel c embeddings 0 after after.

Definition saveHistoryVerificationCheckpoint (ch : string) (cp : historyVerificationCheckpoint) :
    M (option err) :=
  set_sync_state (channelHistoryVerificationScope ch) (Marshal cp).

(** [set_complete_or_boundary]: what a loop does when it met the start of the
    channel; a window only notes its boundary. *)
Definition reached_start (ch boundaryID : string) (window : option HistoryWindow) :
    M (option err * option HistoryWindow) :=
  match window with
  | Some h => ret (None, Some (set_boundary "end" boundaryID h))
  | None =>
      let! e := set_sync_state (channelHistoryCompleteScope ch) "1" in ret (e, None)
  end.

(** [verification] says whether a verification checkpoint accompanies the
    crawl; the window is returned as the loop left it. *)
Fixpoint backfill_loop (fuel : nat) (c : Channel) (latestFloor channelName : string)
    (embeddings : bool) (since : option Z) (pageLimit : nat) (verification : bool)
    (messageCount : nat) (newest : string) (pages : nat) (before : string)
    (window : option HistoryWindow) :
    M (nat * string * option err * option HistoryWindow) :=
  match fuel with
  | O => out_of_fuel
  | S fuel =>
      let! observedAt := time_Now in
      check! (requirePersistedScope (ch_ID c))
        orelse (λ e, ret (messageCount, newest, Some e, window));
      try! page := channel_messages (ch_ID c) before ""
        orelse (λ e, ret (messageCount, newest, Some e, window));
      if (length page =? 0)%nat then
        let! (e, window) := reached_start (ch_ID c) (default "" (hw_BoundaryMessageID <$> window))%string window in
        ret (messageCount, newest, e, window)
      else
        let '(eligible, reachedSince) := filterMessagesSince page since in
        let! (pageNewest, perr) := persistMessagePage eligible channelName (ch_GuildID c) embeddings observedAt in
        match perr with
        | Some e => ret (messageCount, newest, Some e, window)
        | None =>
            let pages := S pages in
            let newest := maxSnowflake newest pageNewest in
            let messageCount := (messageCount + length eligible)%nat in
            check! (if negb (newest =? "")%string && (maxSnowflake latestFloor newest =? newest)%string
                    then advanceChannelLatest (ch_ID c) newest else ret None)
              orelse (λ e, ret (messageCount, newest, Some e, window));
            if reachedSince then
              match window with
              | Some h => ret (messageCount, newest, None, Some (set_boundary "since" (last_id_of page) h))
              | None =>
                  check! (if (0 <? length eligible)%nat
                          then set_sync_state (channelBackfillScope (ch_ID c)) (last_id_of eligible)
                          else ret None)
                    orelse (λ e, ret (messageCount, newest, Some e, window));
                  ret (messageCount, newest, None, window)
              end
            else
              let nextBefore := last_id_of page in
              if (length page =? syncMessagesPageSize)%nat && (nextBefore =? "")%string
              then ret (messageCount, newest, Some (missing_id (ch_ID c)), window)
              else if (length page =? syncMessagesPageSize)%nat && (nextBefore =? before)%string
              then ret (messageCount, newest, Some (did_not_advance (ch_ID c)), window)
              else
                check! (match window with
                        | None => set_sync_state (channelBackfillScope (ch_ID c)) nextBefore
                        | Some _ => ret None
                        end)
                  orelse (λ e, ret (messageCount, newest, Some e, window));
                check! (if verification
                        then saveHistoryVerificationCheckpoint (ch_ID c)
                               (mkCheckpoint (maxSnowflake latestFloor newest) nextBefore)
                        else ret None)
                  orelse (λ e, ret (messageCount, newest, Some e, window));
                if (length page <? syncMessagesPageSize)%nat then
                  match window with
                  | Some _ =>
                      if (nextBefore =? "")%string
                      then ret (messageCount, newest, Some (EText "history boundary message is missing"), window)
                      else let! (e, window) := reached_start (ch_ID c) nextBefore window in
                           ret (messageCount, newest, e, window)
                  | None =>
                      let! (e, window) := reached_start (ch_ID c) nextBefore window in
                      ret (messageCount, newest, e, window)
                  end
                else if (0 <? pageLimit)%nat && (pageLimit <=? pages)%nat
                then ret (messageCount, newest, None, window)
                else backfill_loop fuel c latestFloor channelName embeddings since pageLimit
                       verification messageCount newest pages nextBefore window
        end
  end.

Definition syncBackfillPages (fuel : nat) (c : Channel) (before latestFloor channelName : string)
    (embeddings : bool) (since : option Z) (pageLimit : nat) (verification : bool)
    (window : option HistoryWindow) : M (nat * string * option err * option HistoryWindow) :=
  backfill_loop fuel c latestFloor channelName embeddings since pageLimit verification
    0 "" 0 before window.

Fixpoint bootstrap_loop (fuel : nat) (c : Channel) (embeddings : bool) (since : option Z)
    (messageCount : nat) (newest before : string) : M (nat * string * option err) :=
  match fuel with
  | O => out_of_fuel
  | S fuel =>
      let! observedAt := time_Now in
      check! (requirePersistedScope (ch_ID c)) orelse (λ e, ret (messageCount, newest, Some e));
      try! page := channel_messages (ch_ID c) before ""
        orelse (λ e, ret (messageCount, newest, Some e));
      if (length page =? 0)%nat then ret (messageCount, newest, None)
      else
        let '(eligible, reachedSince) := filterMessagesSince page since in
        let! (pageNewest, perr) := persistMessagePage eligible (ch_Name c) (ch_GuildID c) embeddings observedAt in
        match perr with
        | Some e => ret (messageCount, newest, Some e)
        | None =>
            let newest := maxSnowflake newest pageNewest in
            let messageCount := (messageCount + length eligible)%nat in
            if reachedSince then
              check! (if (0 <? length eligible)%nat
                      then set_sync_state (channelBackfillScope (ch_ID c)) (last_id_of eligible)
                      else ret None)
                orelse (λ e, ret (messageCount, newest, Some e));
              ret (messageCount, newest, None)
            else if (length page <? syncMessagesPageSize)%nat then
              check! (if negb (newest =? "")%string
                      then set_sync_state (channelHistoryCompleteScope (ch_ID c)) "1"
                      else ret None)
                orelse (λ e, ret (messageCount, newest, Some e));
              ret (messageCount, newest, None)
            else
              let nextBefore := last_id_of page in
              if (nextBefore =? "")%string then ret (messageCount, newest, Some (missing_id (ch_ID c)))
              else if (nextBefore =? before)%string
              then ret (messageCount, newest, Some (did_not_advance (ch_ID c)))
              else bootstrap_loop fuel c embeddings since messageCount newest nextBefore
        end
  end.

(** The count, and the error of the loop or of the final advance. *)
Definition bootstrapChannelHistory (fuel : nat) (c : Channel) (embeddings : bool)
    (since : option Z) : M (nat * option err) :=
  let! (messageCount, newest, e) := bootstrap_loop fuel c embeddings since 0 "" "" in
  match e with
  | Some e => ret (messageCount, Some e)
  | None =>
      check! (if negb (newest =? "")%string then advanceChannelLatest (ch_ID c) newest else ret None)
        orelse (λ e, ret (messageCount, Some e));
      ret (messageCount, None)
  end.
End pages.

(** ** The pages keep every crawl invariant *)

Section pages_closed.
Context {T : Type} `{MS : MessageStore T} `{ENV : Env} `{JC : JSON historyVerificationCheckpoint}.
Context (ch : string) (S : string → Prop) (I : world T → Prop) (HI : crawl_closed ch S I).

Lemma requirePersistedScope_closed c : hoare I (requirePersistedScope c) (λ _, I).
Proof. unfold requirePersistedScope, channel_admitted. crawl_walk. Qed.

Lemma buildMessageMutations_closed ms cn g e mus n :
  hoare I (buildMessageMutations_from ms cn g e mus n) (λ _, I).
Proof.
  revert mus n. induction ms as [|m ms IH]; intros mus n; simpl; [crawl_walk|].
  unfold buildMessageMutation, extract_attachments. crawl_walk.
Qed.

Lemma resolve_groups_closed gs : hoare I (resolve_groups gs) (λ _, I).
Proof. induction gs as [|[[g c] ids] gs IH]; simpl; crawl_walk. Qed.

Hint Resolve requirePersistedScope_closed buildMessageMutations_closed resolve_groups_closed : crawl.

Lemma persistMessagePage_closed ms cn g e o : hoare I (persistMessagePage ms cn g e o) (λ _, I).
Proof.
  unfold persistMessagePage, buildMessageMutations, resolveTailMessageCreateFailuresForMessages.
  crawl_walk.
Qed.
Hint Resolve persistMessagePage_closed : crawl.

Lemma reached_start_closed b w :
  S (channelHistoryCompleteScope ch) → hoare I (reached_start ch b w) (λ _, I).
Proof. intros HS. unfold reached_start. crawl_walk. Qed.
Hint Resolve reached_start_closed : crawl.

End pages_closed.
#[export] Hint Resolve requirePersistedScope_closed persistMessagePage_closed reached_start_closed : crawl.

Section loops_closed.
Context {T : Type} `{MS : MessageStore T} `{ENV : Env} `{JC : JSON historyVerificationCheckpoint}.
Context (c : Channel) (I : world T → Prop).

Lemma forward_loop_closed S fuel e n newest after :
  crawl_closed (ch_ID c) S I → hoare I (forward_loop fuel c e n newest after) (λ _, I).
Proof.
  intros HI. revert n newest after.
  induction fuel as [|fuel IH]; intros n newest after; simpl forward_loop; [crawl_walk|].
  unfold time_Now, channel_messages. crawl_walk.
Qed.

Context (HI : crawl_closed (ch_ID c) (crawl_scope (ch_ID c)) I).

Lemma backfill_loop_closed fuel lf cn e since lim v n newest pages before win :
  hoare I (backfill_loop fuel c lf cn e since lim v n newest pages before win) (λ _, I).
Proof.
  revert n newest pages before win.
  induction fuel as [|fuel IH]; intros n newest pages before win; simpl backfill_loop; [crawl_walk|].
  unfold time_Now, channel_messages, saveHistoryVerificationCheckpoint. crawl_walk.
Qed.

Lemma bootstrap_loop_closed fuel e since n newest before :
  hoare I (bootstrap_loop fuel c e since n newest before) (λ _, I).
Proof.
  revert n newest before.
  induction fuel as [|fuel IH]; intros n newest before; simpl bootstrap_loop; [crawl_walk|].
  unfold time_Now, channel_messages. crawl_walk.
Qed.
Hint Resolve bootstrap_loop_closed : crawl.

Lemma bootstrapChannelHistory_closed fuel e since :
  hoare I (bootstrapChannelHistory fuel c e since) (λ _, I).
Proof. unfold bootstrapChannelHistory. crawl_walk. Qed.
End loops_closed.
#[export] Hint Resolve forward_loop_closed backfill_loop_closed bootstrapChannelHistory_closed : crawl.
