(* ===== verification/ChannelSync.v ===== *)
(** * One channel's message sync

    internal/syncer/message_sync.go and history_window.go: the state of a
    channel as its cursors describe it, the decision which history to fetch,
    the verification of a channel marked complete without rows, the full,
    latest-only and incremental paths, and the windowed traversal. *)
From S2P Require Import Prelude Snowflake Errors SyncState ChannelScope FailureLedger Discord World Provider GoTime MessageSync.
Local Open Scope Z_scope.
Local Open Scope discrawl_scope.

Record channelSyncState := mkState {
  Latest : string;
  StoredLatest : string;
  BackfillCursor : string;
  BackfillComplete : bool;
  Verification : option historyVerificationCheckpoint;
  HasMessages : bool;
  VerifiedEmpty : bool
}.

Definition set_VerifiedEmpty (b : bool) (st : channelSyncState) : channelSyncState :=
  mkState (Latest st) (StoredLatest st) (BackfillCursor st) (BackfillComplete st)
          (Verification st) (HasMessages st) b.

Definition is_some {A} (o : option A) : bool := match o with Some _ => true | None => false end.

(** The channel is never nil here: its id has been read. *)
Definition needsHistoryVerification (c : Channel) (st : channelSyncState) (since : option Z) : bool :=
  if negb (BackfillComplete st) && negb (is_some (Verification st)) then false
  else if is_some since then false
  else if is_some (Verification st) then true
  else if HasMessages st || VerifiedEmpty st then false
  else nonempty (ch_LastMessageID c).

Definition shouldSkipChannelSync (c : Channel) (st : channelSyncState) (since : option Z) : bool :=
  if negb (BackfillComplete st) then false
  else if needsHistoryVerification c st since then false
  else if (ch_LastMessageID c =? "")%string then (Latest st =? "")%string
  else if (Latest st =? "")%string then false
  else (maxSnowflake (Latest st) (ch_LastMessageID c) =? Latest st)%string.

Definition shouldSkipLatestOnlyChannelSync (c : Channel) (st : channelSyncState) : bool :=
  if (Latest st =? "")%string || (ch_LastMessageID c =? "")%string then false
  else (maxSnowflake (Latest st) (ch_LastMessageID c) =? Latest st)%string.

Definition channelHistoryWindowScope (ch : string) (since : Z) : string :=
  channelScope ch (":history_window:v1:" ++ RFC3339Nano since).

Section channel.
Context {T : Type} `{MS : MessageStore T} `{ENV : Env}
        `{JC : JSON historyVerificationCheckpoint} `{JW : JSON HistoryWindow}.
(** Fuel of every loop. *)
Context (fuel : nat).
Local Abbreviation M := (M T).

Definition loadChannelSyncState (ch : string) : M (channelSyncState + err) :=
  try! latest := get_sync_state (channelLatestScope ch) orelse (λ e, ret (inr e));
  try! backfillCursor := get_sync_state (channelBackfillScope ch) orelse (λ e, ret (inr e));
  try! backfillComplete := get_sync_state (channelHistoryCompleteScope ch) orelse (λ e, ret (inr e));
  try! verificationPending := get_sync_state (channelHistoryVerificationScope ch)
    orelse (λ e, ret (inr e));
  match (if nonempty verificationPending then Some <$> Unmarshal verificationPending else Some None) with
  | None => ret (inr (EText "decode history verification checkpoint"))
  | Some verification =>
      let st := mkState latest latest backfillCursor (nonempty backfillComplete) verification false false in
      if negb (BackfillComplete st) && negb (is_some (Verification st)) then ret (inl st)
      else
        try! hasMessages := ChannelHasMessages ch orelse (λ e, ret (inr e));
        try! verifiedEmpty := get_sync_state (channelVerifiedEmptyScope ch) orelse (λ e, ret (inr e));
        ret (inl (mkState latest latest backfillCursor (nonempty backfillComplete) verification
                          hasMessages (nonempty verifiedEmpty)))
  end.

Definition seedChannelSyncState (ch : string) (st : channelSyncState) : M (channelSyncState + err) :=
  try! st :=
    (if (Latest st =? "")%string || (BackfillCursor st =? "")%string then
       try! (oldestStored, newestStored) := ChannelMessageBounds ch orelse (λ e, ret (inr e));
       ret (inl (mkState
             (if (Latest st =? "")%string && nonempty newestStored then newestStored else Latest st)
             (StoredLatest st)
             (if (BackfillCursor st =? "")%string && nonempty oldestStored then oldestStored else BackfillCursor st)
             (BackfillComplete st) (Verification st) (HasMessages st) (VerifiedEmpty st)))
     else ret (inl st))
    orelse (λ e, ret (inr e));
  if nonempty (StoredLatest st) && (BackfillCursor st =? "")%string && negb (BackfillComplete st) then
    check! (set_sync_state (channelHistoryCompleteScope ch) "1") orelse (λ e, ret (inr e));
    ret (inl (mkState (Latest st) (StoredLatest st) (BackfillCursor st) true (Verification st)
                      (HasMessages st) (VerifiedEmpty st)))
  else ret (inl st).

Definition syncFullChannelHistory (c : Channel) (st : channelSyncState) (embeddings : bool)
    (since : option Z) (verification : bool) : M (nat * option err) :=
  let! (messageCount, newest, e) :=
    (if nonempty (Latest st) then
       let! (count, latest, e) := syncForwardPages fuel c (Latest st) embeddings in
       match e with
       | Some e => ret (count, Latest st, Some e)
       | None =>
           let newest := maxSnowflake (Latest st) latest in
           check! (advanceChannelLatest (ch_ID c) newest) orelse (λ e, ret (count, newest, Some e));
           ret (count, newest, None)
       end
     else ret (0%nat, Latest st, None)) in
  match e with
  | Some e => ret (messageCount, Some e)
  | None =>
      let! (messageCount, newest, e) :=
        (if negb (BackfillComplete st) then
           let before := if (BackfillCursor st =? "")%string && nonempty (Latest st)
                         then Latest st else BackfillCursor st in
           let! (count, latest, e, _) :=
             syncBackfillPages fuel c before newest (ch_Name c) embeddings since 0 verification None in
           ret ((messageCount + count)%nat, maxSnowflake newest latest, e)
         else ret (messageCount, newest, None)) in
      match e with
      | Some e => ret (messageCount, Some e)
      | None =>
          if nonempty newest || nonempty (Latest st) || negb (BackfillComplete st) then
            if (newest =? "")%string then
              check! (ensure_latest_state (ch_ID c)) orelse (λ e, ret (messageCount, Some e));
              ret (messageCount, None)
            else
              check! (advanceChannelLatest (ch_ID c) newest) orelse (λ e, ret (messageCount, Some e));
              ret (messageCount, None)
          else ret (messageCount, None)
      end
  end.

Definition syncLatestChannelHistory (c : Channel) (embeddings : bool) (since : option Z) :
    M (nat * option err) :=
  let! (count, newest, e, _) :=
    syncBackfillPages fuel c "" "" (ch_Name c) embeddings since 1 false None in
  if is_some e || (newest =? "")%string then ret (count, e)
  else
    check! (advanceChannelLatest (ch_ID c) newest) orelse (λ e, ret (count, Some e));
    ret (count, None).

Definition syncIncrementalChannelHistory (c : Channel) (st : channelSyncState) (embeddings : bool)
    (since : option Z) : M (nat * option err) :=
  if (Latest st =? "")%string then bootstrapChannelHistory fuel c embeddings since
  else
    let! (count, newest, e) := syncForwardPages fuel c (Latest st) embeddings in
    match e with
    | Some e => ret (count, Some e)
    | None =>
        if (newest =? "")%string && (Latest st =? "")%string then ret (count, None)
        else
          check! (advanceChannelLatest (ch_ID c) (maxSnowflake (Latest st) newest))
            orelse (λ e, ret (count, Some e));
          ret (count, None)
    end.

Definition syncChannelHistory (c : Channel) (st : channelSyncState) (full embeddings : bool)
    (since : option Z) (latestOnly : bool) : M (nat * option err) :=
  if full then
    try! st := seedChannelSyncState (ch_ID c) st orelse (λ e, ret (0%nat, Some e));
    if shouldSkipChannelSync c st since then ret (0%nat, None)
    else syncFullChannelHistory c st embeddings since false
  else if shouldSkipChannelSync c st since then ret (0%nat, None)
  else if latestOnly then
    if isThreadChannel (Some c) && negb (BackfillComplete st)
    then syncFullChannelHistory c st embeddings since false
    else if (Latest st =? "")%string then syncLatestChannelHistory c embeddings since
    else if shouldSkipLatestOnlyChannelSync c st then ret (0%nat, None)
    else syncIncrementalChannelHistory c st embeddings since
  else syncIncrementalChannelHistory c st embeddings since.

Definition restoreHistoryCompleteAfterFailedVerification (ch : string) : M (option err) :=
  if (ch =? "")%string then ret None
  else
    try! hasMessages := ChannelHasMessages ch orelse (λ e, ret (Some e));
    if hasMessages then ret None
    else set_sync_state (channelHistoryCompleteScope ch) "1".

Definition restoreAfterFailedVerification (ch : string) (failure : err) : M (option err) :=
  let! e := restoreHistoryCompleteAfterFailedVerification ch in
  ret (errors_Join (Some failure) e).

Definition recordVerifiedEmptyChannel (ch : string) : M (option err) :=
  if (ch =? "")%string then ret None
  else
    try! hasMessages := ChannelHasMessages ch orelse (λ e, ret (Some e));
    check! (if hasMessages : bool then delete_sync_state (channelVerifiedEmptyScope ch)
            else set_sync_state (channelVerifiedEmptyScope ch) "1")
      orelse (λ e, ret (Some e));
    delete_sync_state (channelHistoryVerificationScope ch).

Definition verifyChannelHistory (c : Channel) (checkpoint : option historyVerificationCheckpoint)
    (embeddings : bool) : M (nat * option err) :=
  let checkpoint := default (mkCheckpoint "" "") checkpoint in
  let st := mkState (cp_Latest checkpoint) "" (cp_Before checkpoint) false None false false in
  check! (saveHistoryVerificationCheckpoint (ch_ID c) checkpoint) orelse (λ e, ret (0%nat, Some e));
  let! e := delete_sync_state (channelHistoryCompleteScope (ch_ID c)) in
  match e with
  | Some failure =>
      let! e := restoreAfterFailedVerification (ch_ID c) failure in ret (0%nat, e)
  | None =>
      let! (count, e) := syncFullChannelHistory c st embeddings None true in
      match e with
      | Some failure =>
          let! e := restoreAfterFailedVerification (ch_ID c) failure in ret (count, e)
      | None =>
          let! e := recordVerifiedEmptyChannel (ch_ID c) in ret (count, e)
      end
  end.

(** history_window.go. The certificate [retained] proves at least the new
    window: same channel and lower bound, a complete traversal, a later end. *)
Definition window_covers (retained window : HistoryWindow) : bool :=
  (hw_GuildID retained =? hw_GuildID window)%string
  && (hw_ChannelID retained =? hw_ChannelID window)%string
  && (hw_ChannelType retained =? hw_ChannelType window)
  && (hw_Since retained =? hw_Since window)
  && (hw_Since retained <? hw_Until retained)
  && negb (hw_CompletedAt retained <? hw_Until retained)
  && ((hw_Boundary retained =? "end")%string
      || (hw_Boundary retained =? "since")%string && nonempty (hw_BoundaryMessageID retained))
  && negb (hw_Until retained <? hw_Until window).

Definition complete_window (at_ : Z) (h : HistoryWindow) : HistoryWindow :=
  mkWindow (hw_GuildID h) (hw_ChannelID h) (hw_ChannelType h) (hw_Since h) (hw_Until h)
           at_ (hw_Boundary h) (hw_BoundaryMessageID h).

Definition syncWindowChannelHistory (c : Channel) (st : channelSyncState) (embeddings : bool)
    (since : Z) : M (nat * option err) :=
  match CanReadHistory with
  | None => ret (0%nat, Some (EText "current history permission check is unavailable"))
  | Some reader =>
      try! allowed := can_read_history reader c
        orelse (λ e, ret (0%nat, errors_Join (Some (EText "history permission not proven")) (Some e)));
      if negb allowed then ret (0%nat, Some EHistoryPermissionDenied)
      else
      let! now := time_Now in
      let window := mkWindow (ch_GuildID c) (ch_ID c) (ch_Type c) since now 0 "" "" in
      if hw_Until window <? hw_Since window
      then ret (0%nat, Some (EText "history window begins in the future"))
      else
      let! (count, newest, e, w) :=
        syncBackfillPages fuel c "" (Latest st) (ch_Name c) embeddings (Some since) 0 false (Some window) in
      match e with
      | Some e => ret (count, Some e)
      | None =>
          let window := default window w in
          try! allowed := can_read_history reader c
            orelse (λ e, ret (count, errors_Join (Some (EText "history permission changed during traversal")) (Some e)));
          if negb allowed then ret (count, Some EHistoryPermissionDenied)
          else
          check! ctx_Err orelse (λ e, ret (count, Some e));
          if negb (hw_Boundary window =? "since")%string && negb (hw_Boundary window =? "end")%string
          then ret (count, Some (EText "history traversal did not reach its boundary"))
          else if (hw_Boundary window =? "since")%string && (hw_BoundaryMessageID window =? "")%string
          then ret (count, Some (EText "history boundary message is missing"))
          else
          check! (if (newest =? "")%string then ensure_latest_state (ch_ID c) else ret None)
            orelse (λ e, ret (count, Some e));
          let! completedAt := time_Now in
          let window := complete_window completedAt window in
          let scope := channelHistoryWindowScope (ch_ID c) since in
          try! previous := get_sync_state scope orelse (λ e, ret (count, Some e));
          if match Unmarshal previous with
             | Some retained => window_covers retained window
             | None => false
             end
          then ret (count, None)
          else let! e := set_sync_state scope (Marshal window) in ret (count, e)
      end
  end.

Definition syncChannelMessages (c : Channel) (full embeddings : bool) (since : option Z)
    (latestOnly : bool) : M (nat * option err) :=
  try! st := loadChannelSyncState (ch_ID c) orelse (λ e, ret (0%nat, Some e));
  match full, since with
  | true, Some t => syncWindowChannelHistory c st embeddings t
  | _, _ =>
      check! (if HasMessages st && VerifiedEmpty st
              then delete_sync_state (channelVerifiedEmptyScope (ch_ID c)) else ret None)
        orelse (λ e, ret (0%nat, Some e));
      let st := if HasMessages st && VerifiedEmpty st then set_VerifiedEmpty false st else st in
      let st := if full then set_VerifiedEmpty false st else st in
      if needsHistoryVerification c st since
      then verifyChannelHistory c (Verification st) embeddings
      else syncChannelHistory c st full embeddings since latestOnly
  end.
End channel.

(** ** A channel's sync keeps every crawl invariant *)

Section channel_closed.
Context {T : Type} `{MS : MessageStore T} `{ENV : Env}
        `{JC : JSON historyVerificationCheckpoint} `{JW : JSON HistoryWindow}.
Context (fuel : nat) (c : Channel) (I : world T → Prop) (HI : crawl_closed (ch_ID c) (crawl_scope (ch_ID c)) I).

Lemma loadChannelSyncState_closed ch : hoare I (loadChannelSyncState ch) (λ _, I).
Proof. unfold loadChannelSyncState, get_sync_state, ChannelHasMessages. crawl_walk. Qed.

Lemma seedChannelSyncState_closed st : hoare I (seedChannelSyncState (ch_ID c) st) (λ _, I).
Proof. unfold seedChannelSyncState, ChannelMessageBounds. crawl_walk. Qed.

Lemma syncFullChannelHistory_closed st e since v :
  hoare I (syncFullChannelHistory fuel c st e since v) (λ _, I).
Proof. unfold syncFullChannelHistory, syncBackfillPages, syncForwardPages. crawl_walk. Qed.
Hint Resolve loadChannelSyncState_closed seedChannelSyncState_closed syncFullChannelHistory_closed : crawl.

Lemma syncChannelHistory_closed st full e since latest :
  hoare I (syncChannelHistory fuel c st full e since latest) (λ _, I).
Proof.
  unfold syncChannelHistory, syncLatestChannelHistory, syncIncrementalChannelHistory,
    syncBackfillPages, syncForwardPages.
  crawl_walk.
Qed.

Lemma restore_closed failure : hoare I (restoreAfterFailedVerification (ch_ID c) failure) (λ _, I).
Proof.
  unfold restoreAfterFailedVerification, restoreHistoryCompleteAfterFailedVerification, ChannelHasMessages.
  crawl_walk.
Qed.

Lemma recordVerifiedEmpty_closed : hoare I (recordVerifiedEmptyChannel (ch_ID c)) (λ _, I).
Proof. unfold recordVerifiedEmptyChannel, ChannelHasMessages. crawl_walk. Qed.
Hint Resolve syncChannelHistory_closed restore_closed recordVerifiedEmpty_closed RFC3339Nano_Z : crawl.

Lemma verifyChannelHistory_closed cp e : hoare I (verifyChannelHistory fuel c cp e) (λ _, I).
Proof. unfold verifyChannelHistory, saveHistoryVerificationCheckpoint. crawl_walk. Qed.

Lemma syncWindowChannelHistory_closed st e since :
  hoare I (syncWindowChannelHistory fuel c st e since) (λ _, I).
Proof.
  unfold syncWindowChannelHistory, can_read_history, ctx_Err, time_Now, get_sync_state,
    syncBackfillPages, channelHistoryWindowScope. crawl_walk.
Qed.
Hint Resolve verifyChannelHistory_closed syncWindowChannelHistory_closed : crawl.

Lemma syncChannelMessages_closed full e since latest :
  hoare I (syncChannelMessages fuel c full e since latest) (λ _, I).
Proof. unfold syncChannelMessages. crawl_walk. Qed.
End channel_closed.
