(* ===== verification/GuildSync.v ===== *)
(** * A guild's message sync

    internal/syncer: the selection of message channels, the serial run over
    them (message_sync.go), the treatment of a channel's error (errors.go,
    failures.go) and the corroboration of Unknown Channel answers
    (channel_availability.go). *)
From S2P Require Import Prelude Snowflake Errors SyncState ChannelScope FailureLedger Discord World Provider GoTime MessageSync ChannelSync.
Local Open Scope Z_scope.
Local Open Scope discrawl_scope.

(** ** Selection *)

(** [makeGuildSet]: the non-empty ids. *)
Definition makeGuildSet (ids : list string) : gset string :=
  list_to_set (List.filter nonempty ids).

(** [channelByID]: the last channel with an id wins. *)
Definition channels_by_id (cs : list Channel) : gmap string Channel :=
  foldl (λ m c, <[ch_ID c := c]> m) ∅ cs.

Definition requestedMessageTarget (c : Channel) (channelByID : gmap string Channel)
    (requested : gset string) : bool :=
  if bool_decide (ch_ID c ∈ requested) then true
  else if negb (isThreadChannel (Some c)) then false
  else if negb (bool_decide (ch_ParentID c ∈ requested)) then false
  else match channelByID !! ch_ParentID c with
       | Some parent => ch_Type parent =? ChannelTypeGuildForum
       | None => false
       end.

Definition filterMessageChannels (cs : list Channel) (requested : list string) : list Channel :=
  let requestedSet := makeGuildSet requested in
  let channelByID := channels_by_id cs in
  List.filter (λ c, IsMessageChannel (Some c)
                    && (bool_decide (requestedSet = ∅) || requestedMessageTarget c channelByID requestedSet)) cs.

Record SyncOptions := mkOptions {
  o_Full : bool; o_Embeddings : bool; o_LatestOnly : bool;
  o_Since : option Z; o_ChannelIDs : list string
}.

Definition syncMessagesFailureOperation : string := "sync_messages".
Definition channel_failure_ref (guild ch : string) : FailureRef :=
  mkRef syncMessagesFailureOperation "discord" guild ch "" "" "".

(** ** channel_availability.go *)

Inductive unknownChannelVerdict :=
  | unknownChannelInconclusive | unknownChannelExists | unknownChannelConfirmed.

Definition providerUnavailableResolution : string := "provider_unavailable_404".
Definition ErrCodeUnknownChannel : Z := 10003.
Definition unknownChannelReplayLimit : Z := 200.
Definition channelFailureReplayCursorScope : string := "repair:sync_messages:after_failure_id".

(** [strconv.ParseInt(s, 10, 64)] with the error dropped: 0 on a syntax error,
    the nearest bound on a range error. *)
Definition ParseInt_value (s : string) : Z :=
  let '(neg, digits) := match s with
                        | String "-" t => (true, t)
                        | String "+" t => (false, t)
                        | _ => (false, s)
                        end in
  if (digits =? "")%string || negb (all_digits digits) then 0
  else let n := digits_value 0 digits in
       if neg then (if 2 ^ 63 <? n then - 2 ^ 63 else - n)
       else (if 2 ^ 63 <=? n then 2 ^ 63 - 1 else n).

(** The answer to an exact channel lookup. *)
Definition lookup_verdict (guildID channelID : string) (answer : option Channel + err) :
    unknownChannelVerdict :=
  match answer with
  | inr e => if confirmedDiscordMissing (Some e) ErrCodeUnknownChannel then unknownChannelConfirmed
             else unknownChannelInconclusive
  | inl None => unknownChannelInconclusive
  | inl (Some c) =>
      if (ch_ID c =? channelID)%string
         && ((ch_GuildID c =? "")%string || (guildID =? "")%string || (ch_GuildID c =? guildID)%string)
      then unknownChannelExists else unknownChannelInconclusive
  end.

Section guild.
Context {T : Type} `{MS : MessageStore T} `{ENV : Env} `{ER : ErrorReport}
        `{JC : JSON historyVerificationCheckpoint} `{JW : JSON HistoryWindow}.
Context (fuel : nat).
Local Abbreviation M := (M T).

Definition clearUnavailableChannel (ch : string) : M (option err) :=
  if (ch =? "")%string then ret None
  else delete_sync_state (channelMessageUnavailableScope ch).

Definition verifyUnknownChannel (guildID channelID : string) : M unknownChannelVerdict :=
  if (channelID =? "")%string then ret unknownChannelInconclusive
  else
    check! ctx_Err orelse (λ _, ret unknownChannelInconclusive);
    let! answer := client_channel channelID in
    ret (lookup_verdict guildID channelID answer).

Definition settleUnknownChannelFailure (guildID channelID : string)
    (resolve : string → M (option err)) : M (option err) :=
  let! verdict := verifyUnknownChannel guildID channelID in
  let scope := channelMessageUnavailableScope channelID in
  match verdict with
  | unknownChannelConfirmed =>
      try! current := get_sync_state scope orelse (λ e, ret (Some e));
      check! (if (current =? "")%string then set_sync_state scope "unknown_channel" else ret None)
        orelse (λ e, ret (Some e));
      resolve providerUnavailableResolution
  | unknownChannelExists =>
      try! current := get_sync_state scope orelse (λ e, ret (Some e));
      if (current =? "unknown_channel")%string then clearUnavailableChannel channelID else ret None
  | unknownChannelInconclusive => ret None
  end.

(** ** errors.go *)

Definition skipUnavailableChannelByID (channelID : string) (e : err)
    (scopeForChannel : string → string) : M bool :=
  let reason := unavailableReason e in
  if (reason =? "")%string then ret false
  else if (channelID =? "")%string then ret true
  else
    let! _ := get_sync_state (scopeForChannel channelID) in
    check! (set_sync_state (scopeForChannel channelID) reason) orelse (λ _, ret false);
    ret true.

Definition skipSyncError (c : Channel) (e : err) : M bool :=
  if is_scope e then ret true
  else
    let! skipped := skipUnavailableChannelByID (ch_ID c) e channelMessageUnavailableScope in
    if skipped then ret true
    else let! cerr := ctx_Err in ret (isRetryableSyncError (is_some cerr) (Some e)).

(** ** failures.go *)

Definition recordChannelFailure (guildID channelID : string) (failure : err) : M (option err) :=
  let ref := channel_failure_ref guildID channelID in
  if is_scope failure
  then ledger_call (λ now, ResolveFailureWithReason now ref "excluded_by_collection_policy")
  else
    check! (ledger_call (λ now, RecordFailure now ref (Some failure))) orelse (λ e, ret (Some e));
    if negb (unavailableReason failure =? "unknown_channel")%string then ret None
    else
      check! ctx_Err orelse (λ _, ret None);
      settleUnknownChannelFailure guildID channelID
        (λ reason, ledger_call (λ now, ResolveFailureWithReason now ref reason)).

Definition resolveChannelFailures (guildID channelID : string) : M (option err) :=
  ledger_call (λ now, ResolveFailures now (channel_failure_ref guildID channelID)).

(** ** message_sync.go *)

Definition filterFreshUnavailableChannels (cs : list Channel) (o : SyncOptions) :
    M (list Channel + err) :=
  if (length cs =? 0)%nat || (0 <? length (o_ChannelIDs o))%nat || o_Full o then ret (inl cs)
  else
    try! unavailable := fresh_unavailable orelse (λ e, ret (inr e));
    let skip := makeGuildSet unavailable in
    if bool_decide (skip = ∅) then ret (inl cs)
    else ret (inl (List.filter (λ c, negb (bool_decide (ch_ID c ∈ skip))) cs)).

(** What the run did with a channel, for the progress report. *)
Inductive channel_outcome := Synced (count : nat) | Skipped (outcome : string).

Fixpoint serial_loop (guildID : string) (cs : list Channel) (o : SyncOptions) (total : nat)
    (progress : list (string * channel_outcome)) :
    M (nat * option err * list (string * channel_outcome)) :=
  match cs with
  | [] => ret (total, None, progress)
  | c :: rest =>
      let! (count, e) := syncChannelMessages fuel c (o_Full o) (o_Embeddings o) (o_Since o) (o_LatestOnly o) in
      let total := (total + count)%nat in
      match e with
      | Some e =>
          let! skip := skipSyncError c e in
          if skip then
            let! _ := recordChannelFailure guildID (ch_ID c) e in
            serial_loop guildID rest o total (progress ++ [(ch_ID c, Skipped (syncErrorOutcome e))])
          else
            let! recordErr := recordChannelFailure guildID (ch_ID c) e in
            ret (total, Some (EWrap ("sync channel " ++ ch_ID c ++ ": ") (withFailureRecordError e recordErr) ""), progress)
      | None =>
          let! e := clearUnavailableChannel (ch_ID c) in
          match e with
          | Some e =>
              let! recordErr := recordChannelFailure guildID (ch_ID c) e in
              ret (total, Some (withFailureRecordError e recordErr), progress)
          | None =>
              check! (resolveChannelFailures guildID (ch_ID c)) orelse (λ e, ret (total, Some e, progress));
              serial_loop guildID rest o total (progress ++ [(ch_ID c, Synced count)])
          end
      end
  end.

Definition syncMessageChannelsSerial (guildID : string) (cs : list Channel) (o : SyncOptions) :
    M (nat * option err * list (string * channel_outcome)) :=
  serial_loop guildID cs o 0 [].

(** [syncMessageChannels] with at most one worker. *)
Definition syncMessageChannels (guildID : string) (cs : list Channel) (o : SyncOptions) :
    M (nat * option err * list (string * channel_outcome)) :=
  try! cs := filterFreshUnavailableChannels (filterMessageChannels cs (o_ChannelIDs o)) o
    orelse (λ e, ret (0%nat, Some e, []));
  if (length cs =? 0)%nat then ret (0%nat, None, [])
  else syncMessageChannelsSerial guildID cs o.

(** ** The replay lane of channel failures *)

Definition reconcileChannelMessageFailure (f : Failure) (policy : string) : M (option err) :=
  if (ChannelID (Ref f) =? "")%string || nonempty (MessageID (Ref f)) then ret None
  else
    let resolve reason := ledger_call (λ now, ResolveFailureGeneration now f reason) in
    try! reason := store_read (λ _ w, ChannelFailureSupersession (w_channels w) (ChannelID (Ref f)) policy)
      orelse (λ e, ret (Some e));
    if nonempty reason then resolve reason
    else if negb (isUnknownChannel (EText (ErrorMessage f))) then ret None
    else settleUnknownChannelFailure (GuildID (Ref f)) (ChannelID (Ref f)) resolve.

(** The rows of a page in order; [last] is the id the deferred write persists. *)
Fixpoint reconcile_rows (rows : list Failure) (policy : string) (last : Z) : M (option err * Z) :=
  match rows with
  | [] => ret (None, last)
  | f :: rest =>
      check! ctx_Err orelse (λ _, ret (None, last));
      check! (reconcileChannelMessageFailure f policy) orelse (λ e, ret (Some e, last));
      reconcile_rows rest policy (FailureID f)
  end.

Definition list_candidates_after (guildIDs : list string) (after : Z) : M (list Failure + err) :=
  store_query (λ _ w, ListFailureReplayCandidatesAfter (channel_failure_ref "" "") guildIDs after
                        unknownChannelReplayLimit (w_ledger w)).

Definition reconcileChannelMessageFailures (guildIDs : list string) : M (option err) :=
  try! cursorText := get_sync_state channelFailureReplayCursorScope orelse (λ e, ret (Some e));
  let after := ParseInt_value cursorText in
  try! rows := list_candidates_after guildIDs after orelse (λ e, ret (Some e));
  try! (rows, after) :=
    (if (length rows =? 0)%nat && (0 <? after) then
       try! rows := list_candidates_after guildIDs 0 orelse (λ e, ret (inr e)); ret (inl (rows, 0))
     else ret (inl (rows, after)))
    orelse (λ e, ret (Some e));
  let! (e, last) := reconcile_rows rows policyID after in
  let! _ := set_sync_state channelFailureReplayCursorScope (pretty last) in
  ret e.
End guild.
