(* ===== verification/Fixture.v ===== *)
(** * Concrete instances

    The interfaces of the crawl instantiated by small executable functions: a
    message table that only remembers each row's channel, the JSON of a
    verification checkpoint and of a window, and a provider that serves a
    fixed history and never fails. The witnesses run the crawl on them. *)
From S2P Require Import Prelude Snowflake Errors SyncState ChannelScope FailureLedger Discord World Provider GoTime MessageSync ChannelSync.
Local Open Scope Z_scope.

(** ** A message table *)

Abbreviation plain_table := (gmap string string).

Fixpoint plain_upsert (cs : channels) (ms : list mutation) (t : plain_table) : option plain_table :=
  match ms with
  | [] => Some t
  | mu :: rest =>
      match requireMessageScope cs (m_ChannelID (mu_message mu)) (mu_guild mu) (mu_policy mu) with
      | Some _ => None
      | None => plain_upsert cs rest (<[m_ID (mu_message mu) := m_ChannelID (mu_message mu)]> t)
      end
  end.

#[export] Instance plain_store : MessageStore plain_table := {
  message_channels t := t;
  UpsertMessages _ cs ms t :=
    match plain_upsert cs ms t with Some t' => (None, t') | None => (Some ECollectionScope, t) end
}.

Lemma plain_upsert_spec cs ms t t' :
  plain_upsert cs ms t = Some t' →
  (∀ mu, mu ∈ ms → requireMessageScope cs (m_ChannelID (mu_message mu)) (mu_guild mu) (mu_policy mu) = None
                   ∧ is_Some (t' !! m_ID (mu_message mu)))
  ∧ (∀ id, is_Some (t !! id) → is_Some (t' !! id))
  ∧ (∀ id c, t' !! id = Some c → t !! id = Some c
       ∨ ∃ mu, mu ∈ ms ∧ m_ID (mu_message mu) = id ∧ m_ChannelID (mu_message mu) = c).
Proof.
  revert t. induction ms as [|mu ms IH]; intros t; simpl.
  { intros [= ->]. split_and!; [by intros mu ?%elem_of_nil|done|by left]. }
  destruct (requireMessageScope _ _ _ _) eqn:E; [done|]. intros H.
  destruct (IH _ H) as (Hin & Hkeep & Horig). split_and!.
  - intros mu' [->|?]%elem_of_cons; [|by auto]. split; [done|]. apply Hkeep. by rewrite lookup_insert_eq.
  - intros id [c Hc]. apply Hkeep. rewrite lookup_insert. case_decide; eauto.
  - intros id c Hc. destruct (Horig id c Hc) as [Ht|(mu' & ? & ? & ?)].
    + rewrite lookup_insert in Ht. case_decide as Hd; [|by left].
      injection Ht as <-. right. exists mu. split_and!; [by left|done|done].
    + right. exists mu'. split_and!; [by right|done|done].
Qed.

#[export] Instance plain_store_laws : MessageStoreLaws plain_table.
Proof.
  split; simpl; intros now cs ms t.
  - intros t'. destruct (plain_upsert cs ms t) as [t1|] eqn:E; [|done]. intros [= <-] mu Hmu.
    destruct (plain_upsert_spec _ _ _ _ E) as (H & _ & _). by apply H.
  - intros e t' id. destruct (plain_upsert cs ms t) as [t1|] eqn:E; intros [= <- <-]; [|done].
    destruct (plain_upsert_spec _ _ _ _ E) as (_ & H & _). apply H.
  - intros e t' id c. destruct (plain_upsert cs ms t) as [t1|] eqn:E; intros [= <- <-]; [|by left].
    destruct (plain_upsert_spec _ _ _ _ E) as (_ & _ & H). apply H.
  - intros t'. destruct (plain_upsert cs ms t) as [t1|] eqn:E; [|done]. intros [= <-] mu Hmu.
    destruct (plain_upsert_spec _ _ _ _ E) as (H & _ & _). by apply H.
Qed.

(** ** JSON of values that need no escaping *)

Definition quote : string := String "034" EmptyString.
Definition json_field (key value : string) : string :=
  (quote ++ key ++ quote ++ ":" ++ quote ++ value ++ quote)%string.

(** One string field at the head of an object's body: its value and the rest. *)
Definition read_field (key s : string) : option (string * string) :=
  match CutPrefix s (quote ++ key ++ quote ++ ":" ++ quote)%string with
  | None => None
  | Some rest => let '(v, rest, found) := CutByte rest "034" in if found then Some (v, rest) else None
  end.

#[export] Instance checkpoint_json : JSON historyVerificationCheckpoint := {
  Marshal cp :=
    ("{" ++ match cp_Latest cp, cp_Before cp with
            | EmptyString, EmptyString => ""
            | l, EmptyString => json_field "latest" l
            | EmptyString, b => json_field "before" b
            | l, b => json_field "latest" l ++ "," ++ json_field "before" b
            end ++ "}")%string;
  Unmarshal s :=
    match CutPrefix s "{" with
    | None => None
    | Some body =>
        let '(l, body) := default (""%string, body) (read_field "latest" body) in
        let body := default body (CutPrefix body ",") in
        let '(b, body) := default (""%string, body) (read_field "before" body) in
        if (body =? "}")%string then Some (mkCheckpoint l b) else None
    end
}.

Lemma CutByte_digits v rest :
  all_digits v = true → CutByte (v ++ String "034" rest) "034" = (v, rest, true).
Proof.
  induction v as [|c v IH]; simpl; [done|]. intros H. propify.
  destruct (Ascii.eqb_spec c "034") as [->|]; [discriminate|]. by rewrite IH.
Qed.

Lemma cursor_digits v : is_cursor v = true → all_digits v = true.
Proof. intros [->|H]%is_cursor_cases; [done|]. by apply canonical_all_digits, snowflake_id_canonical. Qed.

Lemma read_field_written key v rest :
  all_digits v = true → read_field key (json_field key v ++ rest) = Some (v, rest).
Proof.
  intros Hv. unfold read_field, json_field.
  replace ((quote ++ key ++ quote ++ ":" ++ quote ++ v ++ quote) ++ rest)%string
    with ((quote ++ key ++ quote ++ ":" ++ quote) ++ (v ++ String "034" rest))%string.
  2: { rewrite !append_assoc. by rewrite <- (append_assoc v quote rest), append_assoc. }
  rewrite CutPrefix_app. by rewrite CutByte_digits.
Qed.

Lemma read_field_other v : read_field "latest" (json_field "before" v ++ "}") = None.
Proof. unfold read_field, json_field. rewrite !append_assoc. reflexivity. Qed.

#[export] Instance checkpoint_json_laws : JSONLaws historyVerificationCheckpoint good_checkpoint.
Proof.
  split; [|done]. intros [l b] [Hl%cursor_digits Hb%cursor_digits]. cbn [cp_Latest cp_Before] in *.
  unfold Marshal, Unmarshal, checkpoint_json. cbn [cp_Latest cp_Before]. rewrite CutPrefix_app.
  destruct l as [|x l], b as [|y b].
  - reflexivity.
  - rewrite read_field_other. cbn [default].
    change (CutPrefix (json_field "before" (String y b) ++ "}") ",") with (@None string).
    cbn [default]. rewrite read_field_written by done. reflexivity.
  - rewrite read_field_written by done. reflexivity.
  - rewrite append_assoc, read_field_written by done. cbn [default id].
    rewrite append_assoc, CutPrefix_app. cbn [default id]. rewrite read_field_written by done. reflexivity.
Qed.

(** A window is stored as its end, enough for a codec to exist. *)
#[export] Instance window_json : JSON HistoryWindow := {
  Marshal h := ("{" ++ hw_Boundary h ++ "}")%string;
  Unmarshal _ := None
}.

(** ** A provider and a world *)

(** A history of [n] messages of one channel, ids [base + n - 1] to [base]. *)
Fixpoint example_history (ch : string) (base : Z) (n : nat) : list Message :=
  match n with
  | O => []
  | S k => mkMessage (pretty (base + Z.of_nat k)) ch "9" (base + Z.of_nat k) "" :: example_history ch base k
  end.

Definition calm_env (h : list Message) (fails : nat → outcome) : Env :=
  {| clock n := Z.of_nat n; outcome_at := fails; context_err _ := None;
     ChannelMessages _ _ before after := inl (serve h before after);
     ClientChannel _ _ := inl None;
     CanReadHistory := None; extract_outcome _ _ := None; policyID := "" |}.

Definition start_world : world plain_table := mkWorld ∅ ∅ ∅ empty_ledger 0.
Definition example_channel : Channel := plain_channel "7" "9" "" ChannelTypeGuildText "general" "2000".
