(* ===== verification/CrawlSafety.v ===== *)
(** * What a channel's crawl can and cannot change

    Whatever the provider answers and whatever fails, at any step: the latest
    pointers only move forward, no stored message disappears, and the crawl of
    one channel leaves every other cursor, the channel catalog and the policy
    decisions alone. *)
From S2P Require Import Prelude Snowflake Errors SyncState ChannelScope FailureLedger Discord World Provider GoTime MessageSync ChannelSync Fixture.
Local Open Scope Z_scope.

(** ** The latest pointer *)

(** A cursor the SQL upsert can order: empty or canonical, of any size. *)
Definition ordered_cursor (s : string) : bool := (s =? "")%string || isCanonicalDecimalSnowflake s.

Lemma rank_canonical s : isCanonicalDecimalSnowflake s = true → rank s = digits_value 0 s ∧ 0 <= rank s.
Proof.
  intros H. unfold rank. destruct (String.eqb_spec s "") as [->|]; [done|].
  pose proof (digits_value_bounds s (canonical_all_digits s H)). lia.
Qed.

Lemma gives_way_rank c id :
  ordered_cursor c = true → isCanonicalDecimalSnowflake id = true →
  latest_gives_way (Some c) id = true → rank c <= rank id.
Proof.
  unfold ordered_cursor. intros Hc Hid. destruct (rank_canonical id Hid) as [Ri Hi].
  destruct (String.eqb_spec c "") as [->|Hne]; [change (rank "") with (-1); lia|].
  simpl in Hc. destruct (rank_canonical c Hc) as [Rc _].
  unfold latest_gives_way. destruct (String.eqb_spec c ""); [done|]. simpl.
  rewrite (canonical_order c id Hc Hid). intros H. propify. lia.
Qed.

Lemma advance_monotone now ch id t :
  ordered_cursor (GetSyncState (channelLatestScope ch) t) = true →
  let t' := snd (AdvanceChannelLatestMessageID now ch id t) in
  ordered_cursor (GetSyncState (channelLatestScope ch) t') = true
  ∧ rank (GetSyncState (channelLatestScope ch) t) <= rank (GetSyncState (channelLatestScope ch) t').
Proof.
  intros Hc. unfold AdvanceChannelLatestMessageID.
  destruct (id =? "")%string; [done|]. destruct (ch =? "")%string; [done|].
  destruct (isCanonicalDecimalSnowflake id) eqn:Hid; [|done]. cbn [negb]. cbv zeta.
  destruct (match t !! channelLatestScope ch with Some r => _ | None => _ end) eqn:Hg.
  - cbn [snd]. rewrite GetSyncState_Set_eq. unfold ordered_cursor at 1. rewrite Hid, orb_true_r.
    split; [done|]. unfold GetSyncState in *.
    destruct (t !! channelLatestScope ch) as [[[c|] u]|]; simpl in *.
    + by apply gives_way_rank.
    + change (rank "") with (-1). destruct (rank_canonical id Hid). lia.
    + change (rank "") with (-1). destruct (rank_canonical id Hid). lia.
  - destruct (_ && _); done.
Qed.

Lemma ensure_get now ch t scope :
  GetSyncState scope (snd (EnsureChannelLatestMessageState now ch t)) = GetSyncState scope t.
Proof.
  unfold EnsureChannelLatestMessageState. destruct (ch =? "")%string; [done|]. cbv zeta.
  destruct (t !! channelLatestScope ch) eqn:E; [done|]. simpl. unfold GetSyncState, SetSyncState.
  destruct (decide (scope = channelLatestScope ch)) as [->|].
  - by rewrite lookup_insert_eq, E.
  - by rewrite lookup_insert_ne.
Qed.


Lemma HasSuffix_app_r a t z : HasSuffix t z = true → HasSuffix (a ++ t) z = true.
Proof.
  unfold HasSuffix. destruct (CutSuffix t z) as [r|] eqn:E; [|done]. intros _.
  apply CutSuffix_Some in E as ->.
  by rewrite (proj2 (CutSuffix_Some _ _ (a ++ r)%string) (eq_sym (append_assoc a r z))).
Qed.

Lemma window_scope_Z ch t : HasSuffix t "Z" = true → HasSuffix (channelScope ch (":history_window:v1:" ++ t)) "Z" = true.
Proof. intros H. unfold channelScope. by do 3 apply HasSuffix_app_r. Qed.

Lemma channelScope_Z ch suf : suf ≠ ""%string → HasSuffix (channelScope ch suf) "Z" = true → HasSuffix suf "Z" = true.
Proof. intros Hs. unfold channelScope. rewrite <- append_assoc. by apply ends_in_Z_app. Qed.

Lemma crawl_scope_not_latest ch d scope : crawl_scope ch scope → scope ≠ channelLatestScope d.
Proof.
  intros [->|[->|[->|[->|(t & -> & Ht)]]]]; [scope_ne..|]. intros E.
  pose proof (window_scope_Z ch t Ht) as HZ. rewrite E in HZ.
  by apply channelScope_Z in HZ.
Qed.

Lemma crawl_scope_not_unavailable ch d scope :
  crawl_scope ch scope → scope ≠ channelMessageUnavailableScope d.
Proof.
  intros [->|[->|[->|[->|(t & -> & Ht)]]]]; [scope_ne..|]. intros E.
  pose proof (window_scope_Z ch t Ht) as HZ. rewrite E in HZ.
  by apply channelScope_Z in HZ.
Qed.

(** ** The invariants *)

Section safety.
Context {T : Type} `{MS : MessageStore T} {ML : MessageStoreLaws T}.

Definition latest_at_least (d L : string) (w : world T) : Prop :=
  let cur := GetSyncState (channelLatestScope d) (w_sync w) in
  ordered_cursor cur = true ∧ rank L <= rank cur.

Lemma latest_at_least_closed ch d L : crawl_closed ch (crawl_scope ch) (latest_at_least d L).
Proof.
  unfold latest_at_least. split; try done; cbn [w_sync with_sync].
  - intros w now id [Ho Hr]. destruct (decide (ch = d)) as [->|Hne].
    + destruct (advance_monotone now d id (w_sync w) Ho). split; [done|lia].
    + destruct (AdvanceChannelLatestMessageID now ch id (w_sync w)) as [e t] eqn:E. cbn [snd].
      rewrite (advance_frame_get _ _ _ _ _ _ _ E); [done|]. scope_ne.
  - intros w now. by rewrite ensure_get.
  - intros w now scope cur Hs. by rewrite GetSyncState_Set_ne by (by apply (crawl_scope_not_latest ch)).
  - intros w scope Hs. by rewrite GetSyncState_Delete_ne by (by apply (crawl_scope_not_latest ch)).
Qed.

(** Between [w0] and [w] only the crawl of [ch] has worked: the catalog is
    untouched, no message is lost, no cursor of another kind has moved. *)
Definition crawl_frame (ch : string) (w0 w : world T) : Prop :=
  w_channels w = w_channels w0
  ∧ (∀ scope, ¬ crawl_scope ch scope → scope ≠ channelLatestScope ch → w_sync w !! scope = w_sync w0 !! scope)
  ∧ (∀ id, is_Some (message_channels (w_messages w0) !! id) → is_Some (message_channels (w_messages w) !! id)).

Lemma crawl_frame_closed ch w0 : crawl_closed ch (crawl_scope ch) (crawl_frame ch w0).
Proof.
  unfold crawl_frame. split; try done; cbn [w_sync w_channels w_messages with_sync with_messages].
  - intros w now id (? & Hs & ?). split_and!; [done| |done]. intros scope H1 H2.
    destruct (AdvanceChannelLatestMessageID now ch id (w_sync w)) as [e t] eqn:E. cbn [snd].
    rewrite (advance_frame _ _ _ _ _ _ _ E H2). auto.
  - intros w now (? & Hs & ?). split_and!; [done| |done]. intros scope H1 H2. rewrite <- Hs by done.
    unfold EnsureChannelLatestMessageState, SetSyncState. destruct (ch =? "")%string; [done|]. cbv zeta.
    destruct (w_sync w !! channelLatestScope ch); [done|]. simpl. by rewrite lookup_insert_ne.
  - intros w now scope cur Hsc (? & Hs & ?). split_and!; [done| |done]. intros s H1 H2.
    unfold SetSyncState. rewrite lookup_insert_ne by (intros ->; done). auto.
  - intros w scope Hsc (? & Hs & ?). split_and!; [done| |done]. intros s H1 H2.
    unfold DeleteSyncState. rewrite lookup_delete_ne by (intros ->; done). auto.
  - intros w now ms e t HU (? & ? & Hm). split_and!; [done|done|]. intros id Hid.
    eapply upsert_keeps; eauto.
Qed.
End safety.

(** ** Properties *)

Section safety_theorems.
Context {T : Type} `{MS : MessageStore T} {ML : MessageStoreLaws T} `{ENV : Env}
        `{JC : JSON historyVerificationCheckpoint} `{JW : JSON HistoryWindow}.

(** no crawl moves the latest pointer of any channel back. Whatever pages
    the provider returns, whatever is stored, and whichever store calls fail
    before or after their commit, the latest cursor of every channel [d]
    remains a cursor the store can order and never decreases. *)
Theorem crawl_latest_monotone (fuel : nat) (c : Channel) (full embeddings latestOnly : bool)
    (since : option Z) (d : string) (w w' : world T) (r : nat * option err) :
  ordered_cursor (GetSyncState (channelLatestScope d) (w_sync w)) = true →
  syncChannelMessages fuel c full embeddings since latestOnly w = Some (r, w') →
  ordered_cursor (GetSyncState (channelLatestScope d) (w_sync w')) = true
  ∧ rank (GetSyncState (channelLatestScope d) (w_sync w))
    <= rank (GetSyncState (channelLatestScope d) (w_sync w')).
Proof.
  intros Ho Hrun.
  eapply (syncChannelMessages_closed fuel c (latest_at_least d (GetSyncState (channelLatestScope d) (w_sync w))));
    [apply latest_at_least_closed| |exact Hrun]. split; [done|lia].
Qed.

(** the crawl of a channel is confined to that channel. Under every fault
    schedule it loses no stored message of any channel, changes no row of the
    channel catalog, and writes no sync cursor except the channel's own
    latest pointer, backfill cursor, completeness and verification markers
    and history windows. *)
Theorem crawl_confined (fuel : nat) (c : Channel) (full embeddings latestOnly : bool)
    (since : option Z) (w w' : world T) (r : nat * option err) :
  syncChannelMessages fuel c full embeddings since latestOnly w = Some (r, w') →
  crawl_frame (ch_ID c) w w'.
Proof.
  intros Hrun.
  by eapply (syncChannelMessages_closed fuel c (crawl_frame (ch_ID c) w) (crawl_frame_closed _ _)); [|exact Hrun].
Qed.
End safety_theorems.

(** A latest-only crawl of ten messages whose every third store call fails. *)
Definition flaky (n : nat) : outcome :=
  if (n mod 3 =? 2)%nat then FailAfter ECanceled else Done.
Definition crawled_world : world plain_table :=
  with_sync (SetSyncState 0 (channelLatestScope "7") "1005" ∅) start_world.
Definition flaky_env : Env := calm_env (example_history "7" 1001 10) flaky.
Definition flaky_run : option ((nat * option err) * world plain_table) :=
  syncChannelMessages (ENV := flaky_env) 5 example_channel false true None true crawled_world.

Lemma crawl_latest_monotone_witness :
  ∃ r w', flaky_run = Some (r, w')
          ∧ rank "1005" <= rank (GetSyncState (channelLatestScope "7") (w_sync w')).
Proof.
  destruct flaky_run as [[r w']|] eqn:E; [|vm_compute in E; discriminate].
  exists r, w'. split; [reflexivity|].
  refine (proj2 (crawl_latest_monotone (ENV := flaky_env) 5 example_channel false true true None "7"
                   crawled_world w' r _ E)).
  vm_compute. reflexivity.
Defined.

Lemma crawl_confined_witness :
  ∃ r w', flaky_run = Some (r, w')
          ∧ w_sync w' !! channelLatestScope "8" = w_sync crawled_world !! channelLatestScope "8".
Proof.
  destruct flaky_run as [[r w']|] eqn:E; [|vm_compute in E; discriminate].
  exists r, w'. split; [reflexivity|].
  refine (proj1 (proj2 (crawl_confined (ENV := flaky_env) 5 example_channel false true true None
                          crawled_world w' r E)) _ _ _).
  - intros H%(crawl_scope_not_latest _ "8"). by apply H.
  - discriminate.
Defined.
