(* ===== verification/Completeness.v ===== *)
(** * What a crawl has proved when it succeeds

    Against a provider that serves a fixed history, and under every schedule of
    store and provider failures: a forward crawl that ends without error has
    stored everything newer than its cursor, a backfill everything older; a
    verification leaves a checkpoint that proves what it recovered, and
    certifies the channel only when all of it is stored; and the loops end. *)
From S2P Require Import Prelude Snowflake Errors SyncState ChannelScope FailureLedger Discord World Provider GoTime MessageSync ChannelSync CrawlSafety Fixture.
Local Open Scope Z_scope.

(** ** Pages of a history *)

Section pages.
Context (h : list Message) (Hh : newest_first h).

Lemma serve_in before after m : m ∈ serve h before after → m ∈ h.
Proof.
  unfold serve. destruct (after =? "")%string.
  - by intros [? _]%elem_of_take_in%elem_of_lfilter.
  - by intros [? _]%elem_of_rev%elem_of_take_in%elem_of_rev%elem_of_lfilter.
Qed.

Lemma serve_length before after : (length (serve h before after) <= syncMessagesPageSize)%nat.
Proof.
  unfold serve. destruct (after =? "")%string; rewrite ?length_rev, length_take; lia.
Qed.

(** A page before [before]: short pages are exhaustive, and a message older
    than [before] that is not on the page is older than its last message. *)
Lemma serve_short before m :
  (length (serve h before "") < syncMessagesPageSize)%nat → m ∈ h → older before m = true →
  m ∈ serve h before "".
Proof.
  unfold serve. simpl. rewrite length_take. intros Hl Hm Ho.
  rewrite take_ge by lia. by apply elem_of_lfilter.
Qed.

Lemma serve_rest before m l :
  m ∈ h → older before m = true → last (serve h before "") = Some l →
  m ∈ serve h before "" ∨ older (m_ID l) m = true.
Proof.
  unfold serve. simpl. intros Hm Ho Hl.
  destruct (elem_of_take_or_drop syncMessagesPageSize (List.filter (older before) h) m) as [?|Hd];
    [by apply elem_of_lfilter|by left|right].
  apply last_Some_elem_of in Hl.
  pose proof (take_drop_sorted _ _ _ _ _ (filter_sorted _ (older before) _ Hh) Hl Hd) as Hr.
  unfold older. apply orb_true_iff. right. by apply Z.ltb_lt.
Qed.

(** A page after [after]. *)
Lemma serve_after_short after m :
  after ≠ ""%string → (length (serve h "" after) < syncMessagesPageSize)%nat → m ∈ h →
  newer after m = true → m ∈ serve h "" after.
Proof.
  unfold serve. destruct (String.eqb_spec after ""); [done|]. rewrite length_rev, length_take.
  intros _ Hl Hm Ho. rewrite take_ge by lia. by rewrite !elem_of_rev, elem_of_lfilter.
Qed.

Lemma serve_after_rest after m x :
  after ≠ ""%string → m ∈ h → newer after m = true → x ∈ serve h "" after →
  m ∈ serve h "" after ∨ rank (m_ID x) < rank (m_ID m).
Proof.
  unfold serve. destruct (String.eqb_spec after ""); [done|]. intros _ Hm Ho Hx.
  rewrite elem_of_rev in *.
  destruct (elem_of_take_or_drop syncMessagesPageSize (rev (List.filter (newer after) h)) m) as [?|Hd];
    [by apply elem_of_rev, elem_of_lfilter|by left|right].
  apply (take_drop_sorted _ _ _ _ _ (rev_sorted _ _ (filter_sorted _ (newer after) _ Hh)) Hx Hd).
Qed.
End pages.

(** The newest id of a page, as the mutations are built. *)
Definition page_newest (n : string) (ms : list Message) : string :=
  foldl (λ n m, maxSnowflake n (m_ID m)) n ms.

Lemma page_newest_spec n ms :
  is_cursor n = true → (∀ m, m ∈ ms → snowflake_id (m_ID m) = true) →
  is_cursor (page_newest n ms) = true ∧ rank n <= rank (page_newest n ms)
  ∧ (∀ m, m ∈ ms → rank (m_ID m) <= rank (page_newest n ms))
  ∧ (page_newest n ms = n ∨ ∃ m, m ∈ ms ∧ page_newest n ms = m_ID m).
Proof.
  revert n. induction ms as [|m ms IH]; intros n Hn Hms; simpl.
  { split_and!; [done|lia|by intros m ?%elem_of_nil|by left]. }
  assert (snowflake_id (m_ID m) = true) as Hm by (apply Hms; by left).
  pose proof (maxSnowflake_rank n (m_ID m) Hn ltac:(auto with discrawl)) as Hr.
  destruct (IH (maxSnowflake n (m_ID m))) as (Hc & Hle & Hall & Hor);
    [auto with discrawl|intros; apply Hms; by right|].
  split_and!; [done|lia| |].
  - intros x [->|Hx]%elem_of_cons; [lia|auto].
  - destruct Hor as [->|(x & Hx & ->)]; [|right; exists x; split; [by right|done]].
    rewrite maxSnowflake_cursor by auto with discrawl. case_match; [right|by left].
    exists m. split; [by left|done].
Qed.

(** ** Stored pages *)

(** A function that returns an error. *)
Ltac wp_stop := apply wp_ret; split; [done|done].

Section stored.
Context {T : Type} `{MS : MessageStore T} {ML : MessageStoreLaws T} `{ENV : Env}
        `{JC : JSON historyVerificationCheckpoint}.

Definition stored (w : world T) (m : Message) : Prop :=
  is_Some (message_channels (w_messages w) !! m_ID m).
(** Every message of [h] that satisfies [p] is stored. *)
Definition all_stored (p : Message → Prop) (h : list Message) (w : world T) : Prop :=
  ∀ m, m ∈ h → p m → stored w m.

Lemma all_stored_closed ch S p h : crawl_closed ch S (all_stored p h).
Proof.
  split; try done. intros w now ms e t HU Hs m Hm Hp.
  unfold stored. cbn [w_messages with_messages]. eapply upsert_keeps; [done|]. by apply Hs.
Qed.

Lemma crawl_closed_and ch S (I J : world T → Prop) :
  crawl_closed ch S I → crawl_closed ch S J → crawl_closed ch S (λ w, I w ∧ J w).
Proof. intros [] []. split; intros; naive_solver. Qed.

Lemma crawl_closed_true ch S : crawl_closed ch S (λ _ : world T, True).
Proof. by split. Qed.

Lemma build_spec (I : world T → Prop) ms cn g e mus n :
  (∀ w, I w → I (tick w)) →
  hoare I (buildMessageMutations_from ms cn g e mus n)
    (λ r w, I w ∧ match r with
                  | inl (out, newest) => newest = page_newest n ms
                                         ∧ map mu_message out = map mu_message mus ++ ms
                  | inr _ => True
                  end).
Proof.
  intros Ht. revert mus n. induction ms as [|m ms IH]; intros mus n; simpl; apply hoare_wp; intros w Hw.
  { apply wp_ret. by rewrite app_nil_r. }
  unfold buildMessageMutation. eapply (wp_call _ _ I (λ r w, I w ∧ ∀ mu, r = inl mu → mu_message mu = m)).
  - apply hoare_wp. intros w1 Hw1.
    eapply (wp_call _ _ I (λ _, I)); [by apply hoare_tick|done|]. intros [er|] w2 Hw2; apply wp_ret;
      (split; [done|]); [done|by intros mu [= <-]].
  - done.
  - intros [mu|er] w1 [Hw1 Hmu]; [|by apply wp_ret].
    eapply wp_conseq; [apply IH|done|]. intros [[out newest]|] w2 [Hw2 Hr]; [|done].
    split; [done|]. destruct Hr as [Hn Hm]. split; [done|]. rewrite Hm, map_app, <- app_assoc. simpl.
    by rewrite (Hmu mu eq_refl).
Qed.

(** A page that persists without error is stored, and the reported newest id
    is that of the page. *)
Lemma persist_spec ch S (I : world T → Prop) ms cn g e o :
  crawl_closed ch S I →
  hoare I (persistMessagePage ms cn g e o)
    (λ '(newest, er) w, I w ∧ (er = None → newest = page_newest "" ms ∧ all_stored (λ _, True) ms w)).
Proof.
  intros HI. unfold persistMessagePage. apply hoare_wp. intros w Hw.
  destruct ms as [|m0 ms']; [apply wp_ret; split; [done|intros _; split; [done|by intros m ?%elem_of_nil]]|].
  set (ms := m0 :: ms').
  eapply wp_call; [eapply requirePersistedScope_closed, HI|done|]. intros [er|] w1 Hw1; [wp_stop|].
  eapply wp_call; [apply build_spec, (cl_tick _ _ _ HI)|done|].
  intros [[mus newest]|er] w2 [Hw2 Hb]; [|wp_stop]. destruct Hb as [-> Hmus].
  eapply (wp_call _ _ I (λ er w, I w ∧ (er = None → all_stored (λ _, True) ms w))); [|done|].
  { unfold upsert_messages. destruct (map (observe o) mus) as [|mu l] eqn:El.
    { destruct mus; [|done]. done. }
    rewrite <- El in *. apply hoare_store_write; [apply (cl_tick _ _ _ HI)| |done].
    intros now w3 er w4 Hw3 E.
    destruct (UpsertMessages now (w_channels w3) _ (w_messages w3)) as [er' t] eqn:EU.
    injection E as <- <-. assert (I (with_messages t w3)) by (by eapply (cl_upsert _ _ _ HI)).
    split; [by split|]. split; [done|]. intros -> m Hm _.
    assert (m ∈ map mu_message mus) as (mu' & -> & Hmu')%list_elem_of_fmap by (by rewrite Hmus).
    apply (upsert_stored _ _ _ _ _ EU (observe o mu')). by apply list_elem_of_fmap_2. }
  intros [er|] w3 [Hw3 Hst]; [wp_stop|].
  eapply wp_call.
  - eapply resolve_groups_closed, (crawl_closed_and ch S _ _ HI (all_stored_closed ch S (λ _, True) ms)).
  - by split; [|apply Hst].
  - intros [er|] w4 [Hw4 Hs4]; [wp_stop|]. apply wp_ret. split; [done|]. intros _. done.
Qed.
End stored.

(** ** The loops *)

Section loops.
Context {T : Type} `{MS : MessageStore T} {ML : MessageStoreLaws T} `{ENV : Env}
        `{JC : JSON historyVerificationCheckpoint}.
Context (c : Channel) (h : list Message) (Hsrv : serves (ch_ID c) h).

Lemma last_id_in page : page ≠ [] → (∀ m, m ∈ page → m ∈ h) →
  ∃ l, last page = Some l ∧ l ∈ h ∧ last_id_of page = m_ID l ∧ snowflake_id (m_ID l) = true.
Proof.
  intros Hne Hin. destruct (last page) as [l|] eqn:E; [|by apply last_None in E].
  assert (l ∈ h) by (by apply Hin, last_Some_elem_of). exists l. split_and!; [done|done| |by apply (sv_ids _ _ Hsrv)].
  unfold last_id_of. by rewrite E.
Qed.

Lemma page_newest_history page n :
  is_cursor n = true → (∀ m, m ∈ page → m ∈ h) →
  is_cursor (page_newest n page) = true ∧ rank n <= rank (page_newest n page)
  ∧ (∀ m, m ∈ page → rank (m_ID m) <= rank (page_newest n page))
  ∧ (page_newest n page = n ∨ ∃ m, m ∈ page ∧ page_newest n page = m_ID m).
Proof. intros Hn Hin. apply page_newest_spec; [done|]. intros m Hm. by apply (sv_ids _ _ Hsrv), Hin. Qed.

(** A message newer than [after] is on the page, or newer than the page and
    the page is full. *)
Lemma forward_page after m :
  let page := serve h "" after in
  after ≠ ""%string → is_cursor after = true → m ∈ h → newer after m = true →
  m ∈ page ∨ ((syncMessagesPageSize <= length page)%nat
              ∧ newer (maxSnowflake after (page_newest "" page)) m = true).
Proof.
  intros page Hne Ha Hm Hnew. assert (∀ m, m ∈ page → m ∈ h) as Hin by (intros x; apply serve_in).
  destruct (page_newest_history page "" eq_refl Hin) as (Hpc & _ & Hpmax & Hpor).
  destruct (decide (length page < syncMessagesPageSize)%nat) as [Hs|Hs]; [left; by apply serve_after_short|].
  destruct Hpor as [Hp0|(x & Hx & Hpx)].
  { exfalso. destruct page as [|x page']; [by apply Hs, Nat.lt_0_succ|].
    assert (x ∈ x :: page') as Hx by left.
    pose proof (Hpmax x Hx) as Hr. destruct (rank_snowflake (m_ID x) (sv_ids _ _ Hsrv x (Hin x Hx))).
    rewrite Hp0 in Hr. change (rank "") with (-1) in Hr. lia. }
  destruct (serve_after_rest h (sv_order _ _ Hsrv) after m x Hne Hm Hnew Hx) as [?|Hlt]; [by left|right].
  split; [lia|]. unfold newer in *. apply Z.ltb_lt. rewrite maxSnowflake_rank, Hpx by done. propify. lia.
Qed.

(** Everything newer than [a0] up to [after] is stored, at every turn; at a
    regular end everything newer than [a0]. *)
Lemma forward_spec S (I : world T → Prop) a0 fuel e n newest after :
  crawl_closed (ch_ID c) S I → is_cursor newest = true → is_cursor after = true → after ≠ ""%string →
  hoare (λ w, I w ∧ all_stored (λ m, newer a0 m = true ∧ newer after m = false) h w)
        (forward_loop fuel c e n newest after)
        (λ '(_, newest', er) w, I w ∧ is_cursor newest' = true
           ∧ (er = None → all_stored (λ m, newer a0 m = true) h w)).
Proof.
  intros HI. revert n newest after.
  induction fuel as [|fuel IH]; intros n newest after Hn Ha Hne; simpl forward_loop; [apply hoare_fuel|].
  set (J := λ w, I w ∧ all_stored (λ m, newer a0 m = true ∧ newer after m = false) h w).
  assert (crawl_closed (ch_ID c) S J) as HJ by (apply crawl_closed_and; [done|apply all_stored_closed]).
  apply hoare_wp. intros w Hw.
  eapply wp_call; [apply hoare_tick, (cl_tick _ _ _ HJ)|exact Hw|]. intros o w1 Hw1.
  eapply wp_call; [eapply requirePersistedScope_closed, HJ|done|].
  intros [er|] w2 Hw2; [apply wp_ret; split; [apply Hw2|done]|].
  eapply (wp_bind _ _ (λ r w, J w ∧ ∀ page, r = inl page → page = serve h "" after)).
  { intros r w3 [= <- <-]. split; [by apply (cl_tick _ _ _ HJ)|]. intros page. apply (sv_answer _ _ Hsrv). }
  intros [page|er] w3 [Hw3 Hpage]; [|apply wp_ret; split; [apply Hw3|done]].
  specialize (Hpage page eq_refl).
  assert (∀ m, m ∈ page → m ∈ h) as Hin by (intros m; rewrite Hpage; apply serve_in).
  destruct (Nat.eqb_spec (length page) 0) as [Hlen|Hlen].
  { apply wp_ret. split_and!; [apply Hw3|done|]. intros _ m Hm Hnew.
    destruct (newer after m) eqn:Ho; [|by apply Hw3].
    pose proof (serve_after_short h after m Hne ltac:(rewrite <- Hpage, Hlen; unfold syncMessagesPageSize; lia) Hm Ho) as Hp.
    rewrite <- Hpage in Hp. apply nil_length_inv in Hlen as ->. by apply elem_of_nil in Hp. }
  eapply wp_call; [eapply persist_spec, HJ|done|]. intros [pn [er|]] w4 [Hw4 Hst];
    [apply wp_ret; split; [apply Hw4|done]|].
  destruct (Hst eq_refl) as [-> Hst'].
  destruct (page_newest_history page "" eq_refl Hin) as (Hpc & _ & Hpmax & Hpor).
  set (pn := page_newest "" page) in *.
  set (K := λ w, I w ∧ all_stored (λ m, newer a0 m = true ∧ newer (maxSnowflake after pn) m = false) h w
                 ∧ ((length page < syncMessagesPageSize)%nat → all_stored (λ m, newer a0 m = true) h w)).
  assert (K w4) as HK.
  { split; [apply Hw4|].
    split.
    - intros m Hm [H0 H1]. destruct (newer after m) eqn:Ho; [|by apply Hw4].
      destruct (forward_page after m Hne Ha Hm Ho) as [Hp|[_ Hp]]; rewrite <- Hpage in Hp; fold pn in Hp; [by apply Hst'|congruence].
    - intros Hshort m Hm H0. destruct (newer after m) eqn:Ho; [|by apply Hw4].
      destruct (forward_page after m Hne Ha Hm Ho) as [Hp|[Hp _]]; rewrite <- Hpage in Hp; [by apply Hst'|lia]. }
  assert (crawl_closed (ch_ID c) S K) as HKc.
  { apply crawl_closed_and; [done|]. apply crawl_closed_and; [apply all_stored_closed|].
    destruct (decide (length page < syncMessagesPageSize)%nat).
    - split; intros; try (by auto). unfold all_stored, stored in *. intros m Hm Hp. simpl. eapply upsert_keeps; [done|]. naive_solver.
    - split; intros; lia. }
  eapply wp_call; [eapply advance_closed, HKc|exact HK|].
  intros [er|] w5 Hw5; [apply wp_ret; split_and!; [apply Hw5|auto with discrawl|done]|].
  destruct (Nat.ltb_spec (length page) syncMessagesPageSize) as [Hlt|Hge].
  { apply wp_ret. split_and!; [apply Hw5|auto with discrawl|]. intros _. by apply Hw5. }
  destruct (String.eqb_spec (maxSnowflake after pn) ""); [apply wp_ret; split_and!; [apply Hw5|auto with discrawl|done]|].
  destruct (String.eqb_spec (maxSnowflake after pn) after); [apply wp_ret; split_and!; [apply Hw5|auto with discrawl|done]|].
  eapply wp_conseq; [apply IH; auto with discrawl|split; apply Hw5|]. by intros [[]].
Qed.
(** Reading back what a successful write of a cursor wrote. *)
Lemma set_spec (I : world T → Prop) scope cur :
  (∀ w, I w → I (tick w)) →
  (∀ w now, I w → I (with_sync (SetSyncState now scope cur (w_sync w)) w)) →
  hoare I (set_sync_state scope cur)
          (λ er w, I w ∧ (er = None → GetSyncState scope (w_sync w) = cur)).
Proof.
  intros Ht Hs. apply hoare_store_write; [done| |done].
  intros now w er w' Hw [= <- <-]. split; [by split; [apply Hs|]|]. split; [by apply Hs|].
  intros _. simpl. apply GetSyncState_Set_eq.
Qed.

Definition backfill_scope (s : string) : Prop :=
  s = channelBackfillScope (ch_ID c) ∨ s = channelHistoryCompleteScope (ch_ID c).

Definition marked_complete (w : world T) : Prop :=
  GetSyncState (channelHistoryCompleteScope (ch_ID c)) (w_sync w) = "1"%string.

(** [I] survives saving a checkpoint that proves what it says. *)
Definition saves_checkpoint (I : world T → Prop) : Prop :=
  ∀ w now cp, good_checkpoint cp → cp_Latest cp ≠ ""%string → cp_Before cp ≠ ""%string →
    all_stored (λ m, rank (cp_Before cp) <= rank (m_ID m)) h w → I w →
    I (with_sync (SetSyncState now (channelHistoryVerificationScope (ch_ID c)) (Marshal cp) (w_sync w)) w).

Lemma mark_complete_spec I b :
  crawl_closed (ch_ID c) backfill_scope I →
  hoare (λ w, I w ∧ all_stored (λ _, True) h w) (reached_start (ch_ID c) b None)
    (λ '(er, win) w, I w ∧ win = None ∧ (er = None → all_stored (λ _, True) h w ∧ marked_complete w)).
Proof.
  intros HI. unfold reached_start. apply hoare_wp. intros w Hw.
  eapply wp_call; [apply (set_spec (λ w, I w ∧ all_stored (λ _, True) h w))|exact Hw|].
  - intros w1 [? ?]. split; [by apply (cl_tick _ _ _ HI)|done].
  - intros w1 now [? ?]. split; [apply (cl_set _ _ _ HI); [by right|done]|done].
  - intros er w1 [[? ?] Hm]. apply wp_ret. split_and!; [done|done|]. intros E. split; [done|]. by apply Hm.
Qed.

(** A message older than [before] is on the page, or older than the last of
    it and the page is full. *)
Lemma backfill_page before m :
  let page := serve h before "" in
  m ∈ h → older before m = true →
  m ∈ page ∨ ((syncMessagesPageSize <= length page)%nat ∧ older (last_id_of page) m = true).
Proof.
  intros page Hm Ho. destruct (decide (length page < syncMessagesPageSize)%nat) as [Hs|Hs];
    [left; by apply serve_short|].
  destruct (last_id_in page) as (l & Hl & _ & Hid & _).
  { intros E. rewrite E in Hs. by apply Hs, Nat.lt_0_succ. } { intros x. apply serve_in. }
  destruct (serve_rest h (sv_order _ _ Hsrv) before m l Hm Ho Hl) as [?|Ho']; [by left|right].
  rewrite Hid. split; [lia|done].
Qed.

Lemma backfill_spec (I : world T → Prop) fuel lf cn e (v : bool) n newest pages before :
  crawl_closed (ch_ID c) backfill_scope I → (v = true → saves_checkpoint I) →
  is_cursor lf = true → is_cursor newest = true →
  hoare (λ w, I w ∧ all_stored (λ m, older before m = false) h w)
    (backfill_loop fuel c lf cn e None 0 v n newest pages before None)
    (λ '(_, newest', er, _) w, I w ∧ is_cursor newest' = true
       ∧ (er = None → all_stored (λ _, True) h w ∧ marked_complete w)).
Proof.
  intros HI Hsave Hlf. revert n newest pages before.
  induction fuel as [|fuel IH]; intros n newest pages before Hn; simpl backfill_loop; [apply hoare_fuel|].
  set (J := λ w, I w ∧ all_stored (λ m, older before m = false) h w).
  assert (crawl_closed (ch_ID c) backfill_scope J) as HJ by (apply crawl_closed_and; [done|apply all_stored_closed]).
  apply hoare_wp. intros w Hw.
  eapply wp_call; [apply hoare_tick, (cl_tick _ _ _ HJ)|exact Hw|]. intros o w1 Hw1.
  eapply wp_call; [eapply requirePersistedScope_closed, HJ|done|].
  intros [er|] w2 Hw2; [apply wp_ret; split; [apply Hw2|done]|].
  eapply (wp_bind _ _ (λ r w, J w ∧ ∀ page, r = inl page → page = serve h before "")).
  { intros r w3 [= <- <-]. split; [by apply (cl_tick _ _ _ HJ)|]. intros page. apply (sv_answer _ _ Hsrv). }
  intros [page|er] w3 [Hw3 Hpage]; [|apply wp_ret; split; [apply Hw3|done]].
  specialize (Hpage page eq_refl).
  assert (∀ m, m ∈ page → m ∈ h) as Hin by (intros m; rewrite Hpage; apply serve_in).
  destruct (Nat.eqb_spec (length page) 0) as [Hlen|Hlen].
  { eapply wp_call; [exact (mark_complete_spec I ""%string HI)| |].
    - split; [apply Hw3|]. intros m Hm _. destruct (older before m) eqn:Ho; [|by apply Hw3].
      destruct (backfill_page before m Hm Ho) as [Hp|[Hp _]]; rewrite <- Hpage in Hp; [|unfold syncMessagesPageSize in Hp; lia].
      apply nil_length_inv in Hlen as ->. by apply elem_of_nil in Hp.
    - intros [er win] w4 (? & -> & ?). by apply wp_ret. }
  cbn [filterMessagesSince]. cbv iota.
  eapply wp_call; [eapply persist_spec, HJ|done|]. intros [pn [er|]] w4 [Hw4 Hst];
    [apply wp_ret; split; [apply Hw4|done]|].
  destruct (Hst eq_refl) as [-> Hst']. clear Hst.
  destruct (page_newest_history page "" eq_refl Hin) as (Hpc & _ & Hpmax & _).
  destruct (last_id_in page) as (l & Hl & Hlh & Hlid & Hsl); [by intros ->|done|]. cbv zeta.
  set (nb := last_id_of page) in *.
  assert (nb ≠ ""%string) as Hnb by (rewrite Hlid; by intros E; rewrite E in Hsl).
  set (K := λ w, I w ∧ all_stored (λ m, older nb m = false) h w
                 ∧ all_stored (λ m, (length page < syncMessagesPageSize)%nat) h w).
  assert (K w4) as HK.
  { split_and!; [apply Hw4| |]; intros m Hm Hp; destruct (older before m) eqn:Ho; try (by apply Hw4);
      destruct (backfill_page before m Hm Ho) as [Hq|[Hq1 Hq2]]; rewrite <- Hpage in *; try (by apply Hst').
    - fold nb in Hq2. congruence.
    - lia. }
  assert (crawl_closed (ch_ID c) backfill_scope K) as HKc.
  { repeat (apply crawl_closed_and; [done || apply all_stored_closed|]). apply all_stored_closed. }
  eapply (wp_call _ _ K (λ _, K)); [destruct (_ && _); [eapply advance_closed, HKc|by apply hoare_ret]|done|].
  intros [er|] w5 Hw5; [apply wp_ret; split_and!; [apply Hw5|auto with discrawl|done]|].
  destruct (String.eqb_spec nb ""); [done|]. rewrite andb_false_r.
  destruct (_ && _); [apply wp_ret; split_and!; [apply Hw5|auto with discrawl|done]|].
  eapply wp_call; [apply (set_closed _ _ _ HKc); by left|done|].
  intros [er|] w6 Hw6; [apply wp_ret; split_and!; [apply Hw6|auto with discrawl|done]|].
  eapply (wp_call _ _ K (λ _, K)); [|done|].
  { destruct v; [|by apply hoare_ret]. unfold saveHistoryVerificationCheckpoint.
    eapply hoare_conseq; [apply (set_spec K); [apply (cl_tick _ _ _ HKc)|]|done|by intros ? ? [? _]].
    intros w7 now (Hi & Ha & Hs). split_and!; [|done|done]. apply Hsave; try done.
    - split; cbn [cp_Latest cp_Before]; [auto with discrawl|rewrite Hlid; auto with discrawl].
    - cbn [cp_Latest]. intros E.
      pose proof (maxSnowflake_rank lf (maxSnowflake newest (page_newest "" page)) Hlf ltac:(auto with discrawl)) as Hr.
      rewrite E, maxSnowflake_rank in Hr by done. change (rank "") with (-1) in Hr.
      pose proof (Hpmax l ltac:(by apply last_Some_elem_of)). destruct (rank_snowflake _ Hsl). lia.
    - cbn [cp_Before]. intros m Hm Hr. apply Ha; [done|]. unfold older. apply orb_false_iff.
      split; [by apply String.eqb_neq|]. apply Z.ltb_ge. done. }
  intros [er|] w7 Hw7; [apply wp_ret; split_and!; [apply Hw7|auto with discrawl|done]|].
  destruct (Nat.ltb_spec (length page) syncMessagesPageSize) as [Hlt|Hge].
  { eapply wp_call; [exact (mark_complete_spec I nb HI)| |].
    - split; [apply Hw7|]. intros m Hm _. by apply Hw7.
    - intros [er win] w8 (? & -> & ?). apply wp_ret. split_and!; [done|auto with discrawl|done]. }
  eapply wp_conseq; [apply IH; auto with discrawl|split; apply Hw7|]. done.
Qed.
(** ** A full synchronization *)

Lemma crawl_closed_weaken ch (S S' : string → Prop) (I : world T → Prop) :
  (∀ s, S' s → S s) → crawl_closed ch S I → crawl_closed ch S' I.
Proof. intros HS []. split; eauto. Qed.

Lemma marked_complete_closed : crawl_closed (ch_ID c) (λ _, False) marked_complete.
Proof.
  split; try done; unfold marked_complete; cbn [w_sync with_sync].
  - intros w now id Hm. destruct (AdvanceChannelLatestMessageID _ _ _ _) as [er t] eqn:E. cbn [snd].
    rewrite (advance_frame_get _ _ _ _ _ _ _ E); [done|]. scope_ne.
  - intros w now. by rewrite ensure_get.
Qed.

(** The cursor a backfill starts from. *)
Definition resume_before (st : channelSyncState) : string :=
  if (BackfillCursor st =? "")%string && nonempty (Latest st) then Latest st else BackfillCursor st.

(** Between the two cursors of [st], inclusive, nothing is missing. *)
Definition resumable (st : channelSyncState) (w : world T) : Prop :=
  all_stored (λ m, older (resume_before st) m = false ∧ (Latest st ≠ ""%string → newer (Latest st) m = false)) h w.

(** Everything newer than the resumed cursor, once the forward pages ended. *)
Lemma full_forward_spec S (I : world T → Prop) fuel e st :
  crawl_closed (ch_ID c) S I → is_cursor (Latest st) = true →
  hoare (λ w, I w ∧ resumable st w)
    (if nonempty (Latest st) then
       let! (count, latest, e) := syncForwardPages fuel c (Latest st) e in
       match e with
       | Some e => ret (count, Latest st, Some e)
       | None =>
           let newest := maxSnowflake (Latest st) latest in
           check! (advanceChannelLatest (ch_ID c) newest) orelse (λ e, ret (count, newest, Some e));
           ret (count, newest, None)
       end
     else ret (0%nat, Latest st, None))%discrawl
    (λ '(_, newest, er) w, I w ∧ is_cursor newest = true
       ∧ (er = None → all_stored (λ m, older (resume_before st) m = false) h w)).
Proof.
  intros HI HL. set (J := λ w, I w ∧ resumable st w).
  assert (crawl_closed (ch_ID c) S J) as HJ by (apply crawl_closed_and; [done|apply all_stored_closed]).
  apply hoare_wp. intros w Hw. destruct (nonempty (Latest st)) eqn:Hne.
  2: { apply wp_ret. split_and!; [apply Hw|done|]. intros _ m Hm Ho. apply Hw; [done|]. split; [done|].
       intros Hl%nonempty_spec. congruence. }
  assert (Latest st ≠ ""%string) as Hl by (by apply nonempty_spec).
  unfold syncForwardPages.
  eapply wp_call; [apply (forward_spec S J (Latest st)); try done|split; [exact Hw|]|].
  { intros m _ [H1 H2]. congruence. }
  intros [[count latest] [er|]] w1 (Hw1 & Hc & Hall); [apply wp_ret; split_and!; [apply Hw1|done|done]|].
  cbv zeta. eapply (wp_call _ _ (λ w, J w ∧ all_stored (λ m, newer (Latest st) m = true) h w)).
  - eapply advance_closed, crawl_closed_and; [exact HJ|apply all_stored_closed].
  - split; [done|by apply Hall].
  - intros [er|] w2 [Hw2 Ha2]; apply wp_ret; (split_and!; [apply Hw2|auto with discrawl|]); [done|].
    intros _ m Hm Ho. destruct (newer (Latest st) m) eqn:Hn; [by apply Ha2|]. by apply Hw2.
Qed.

Lemma full_spec (I : world T → Prop) fuel e st (v : bool) :
  crawl_closed (ch_ID c) backfill_scope I → (v = true → saves_checkpoint I) →
  is_cursor (Latest st) = true → BackfillComplete st = false →
  hoare (λ w, I w ∧ resumable st w)
    (syncFullChannelHistory fuel c st e None v)
    (λ '(_, er) w, I w ∧ (er = None → all_stored (λ _, True) h w ∧ marked_complete w)).
Proof.
  intros HI Hsave HL Hbc. unfold syncFullChannelHistory. apply hoare_wp. intros w Hw.
  eapply wp_call; [by apply (full_forward_spec _ _ _ _ _ HI)|exact Hw|].
  intros [[n1 newest] [er|]] w1 (Hw1 & Hc & Hall); [by apply wp_ret|].
  rewrite Hbc. cbn [negb]. fold (resume_before st). unfold syncBackfillPages.
  eapply (wp_call _ _ (λ w, I w ∧ all_stored (λ m, older (resume_before st) m = false) h w)
            (λ '(_, newest', er) w, I w ∧ is_cursor newest' = true
               ∧ (er = None → all_stored (λ _, True) h w ∧ marked_complete w))).
  { apply hoare_wp. intros w2 Hw2. eapply wp_call; [by apply backfill_spec|done|].
    intros [[[n2 latest] er] win] w3 (? & ? & ?). apply wp_ret. split_and!; [done|auto with discrawl|done]. }
  { split; [done|by apply Hall]. }
  intros [[n2 newest2] [er|]] w2 (Hw2 & Hc2 & Hall2); [by apply wp_ret|].
  specialize (Hall2 eq_refl). rewrite orb_true_r.
  set (K := λ w, I w ∧ all_stored (λ _, True) h w ∧ marked_complete w).
  assert (crawl_closed (ch_ID c) (λ _, False) K) as HK.
  { repeat apply crawl_closed_and; [|apply all_stored_closed|apply marked_complete_closed].
    by apply (crawl_closed_weaken _ backfill_scope). }
  destruct (newest2 =? "")%string.
  - eapply wp_call; [eapply ensure_closed, HK|by split|]. intros [er|] w3 (? & ? & ?); by apply wp_ret.
  - eapply wp_call; [eapply advance_closed, HK|by split|]. intros [er|] w3 (? & ? & ?); by apply wp_ret.
Qed.
End loops.

(** ** Verification *)

Section verification.
Context {T : Type} `{MS : MessageStore T} {ML : MessageStoreLaws T} `{ENV : Env}
        `{JC : JSON historyVerificationCheckpoint}
        {JL : JSONLaws historyVerificationCheckpoint good_checkpoint}.
Context (c : Channel) (h : list Message) (Hsrv : serves (ch_ID c) h) (Hch : ch_ID c ≠ ""%string).

Definition pending (w : world T) : string :=
  GetSyncState (channelHistoryVerificationScope (ch_ID c)) (w_sync w).

(** What a checkpoint claims: nothing yet, or that everything from [Before]
    up to [Latest] is stored. *)
Definition proven (cp : historyVerificationCheckpoint) (w : world T) : Prop :=
  good_checkpoint cp ∧
  (cp = mkCheckpoint "" ""
   ∨ cp_Latest cp ≠ ""%string ∧ cp_Before cp ≠ ""%string
     ∧ all_stored (λ m, rank (cp_Before cp) <= rank (m_ID m) <= rank (cp_Latest cp)) h w).

Definition pending_proven (w : world T) : Prop :=
  pending w ≠ ""%string ∧ ∃ cp, Unmarshal (pending w) = Some cp ∧ proven cp w.

(** The stored checkpoint, if any, claims nothing that is not so. *)
Definition checkpoint_sound (w : world T) : Prop := pending w = ""%string ∨ pending_proven w.

Lemma pending_proven_closed : crawl_closed (ch_ID c) (backfill_scope c) pending_proven.
Proof.
  unfold pending_proven, pending, proven. split; try done; cbn [w_sync with_sync].
  - intros w now id Hp. destruct (AdvanceChannelLatestMessageID _ _ _ _) as [er t] eqn:E. cbn [snd].
    rewrite (advance_frame_get _ _ _ _ _ _ _ E); [done|]. scope_ne.
  - intros w now. by rewrite ensure_get.
  - intros w now scope cur [->| ->]; by scope_simpl.
  - intros w scope [->| ->]; by scope_simpl.
  - intros w now ms e t HU (Hne & cp & Hu & Hg & Hp). split; [done|]. exists cp. split_and!; [done|exact Hg|].
    destruct Hp as [?|(? & ? & Hp)]; [by left|right]. split_and!; [done|done|].
    by eapply (cl_upsert _ _ _ (all_stored_closed (ch_ID c) (λ _, False) _ h)).
Qed.

Lemma pending_saves : saves_checkpoint c h pending_proven.
Proof.
  intros w now cp Hg HL HB Hall _. unfold pending_proven, pending. cbn [w_sync with_sync].
  rewrite GetSyncState_Set_eq. split; [apply Marshal_nonempty|].
  exists cp. split; [by apply Unmarshal_Marshal|]. split; [done|]. right. split_and!; [done|done|].
  intros m Hm [? _]. by apply Hall.
Qed.

(** The state a verification starts from. *)
Definition verification_state (cp : historyVerificationCheckpoint) : channelSyncState :=
  mkState (cp_Latest cp) "" (cp_Before cp) false None false false.

Lemma proven_resumable cp w : proven cp w → resumable h (verification_state cp) w.
Proof.
  intros [Hg Hp] m Hm [Ho Hn]. unfold resume_before, verification_state in *. simpl in *.
  destruct Hp as [->|(HL & HB & Hall)]; [done|].
  destruct (String.eqb_spec (cp_Before cp) ""); [done|]. simpl in Ho.
  apply Hall; [done|]. specialize (Hn HL). unfold newer, older in *. propify. lia.
Qed.

(** Saving the checkpoint a verification starts from. *)
Lemma save_spec cp w0 :
  proven cp w0 → checkpoint_sound w0 →
  wp (saveHistoryVerificationCheckpoint (ch_ID c) cp)
     (λ er w, proven cp w ∧ checkpoint_sound w ∧ (er = None → pending_proven w)
              ∧ (pending_proven w ∨ w_sync w = w_sync w0)) w0.
Proof.
  intros Hp Hs. unfold saveHistoryVerificationCheckpoint, set_sync_state, store_write.
  assert (∀ now, pending_proven (with_sync (SetSyncState now (channelHistoryVerificationScope (ch_ID c)) (Marshal cp)
                                   (w_sync (tick w0))) (tick w0))) as Hset.
  { intros now. unfold pending_proven, pending. cbn [w_sync with_sync]. rewrite GetSyncState_Set_eq.
    split; [apply Marshal_nonempty|]. exists cp. split; [by apply Unmarshal_Marshal, Hp|]. exact Hp. }
  intros er w. destruct (outcome_at (w_step w0)); simpl; intros [= <- <-].
  - split_and!; [exact Hp|right; apply Hset|intros _; apply Hset|left; apply Hset].
  - split_and!; [exact Hp|exact Hs|done|by right].
  - split_and!; [exact Hp|right; apply Hset|done|left; apply Hset].
Qed.

Lemma restore_spec (I : world T → Prop) failure :
  crawl_closed (ch_ID c) (backfill_scope c) I →
  hoare I (restoreAfterFailedVerification (ch_ID c) failure) (λ er w, I w ∧ er ≠ None).
Proof.
  intros HI. apply hoare_wp. intros w Hw. unfold restoreAfterFailedVerification.
  eapply (wp_call _ _ I (λ _, I)); [|done|].
  - unfold restoreHistoryCompleteAfterFailedVerification, ChannelHasMessages.
    destruct (ch_ID c =? "")%string; [by apply hoare_ret|].
    apply hoare_bind_inv; [eapply store_read_closed, HI|]. intros [[|]|er]; try by apply hoare_ret.
    eapply set_closed; [exact HI|]. by right.
  - intros [er|] w' Hw'; apply wp_ret; by split.
Qed.

(** The marker [verified_empty] says what the table holds. *)
Definition emptiness_recorded (w : world T) : Prop :=
  GetSyncState (channelVerifiedEmptyScope (ch_ID c)) (w_sync w)
  = if has_messages (ch_ID c) (w_messages w) then ""%string else "1"%string.

Lemma record_spec :
  hoare (λ w, pending_proven w ∧ all_stored (λ _, True) h w ∧ marked_complete c w)
    (recordVerifiedEmptyChannel (ch_ID c))
    (λ er w, checkpoint_sound w ∧ all_stored (λ _, True) h w ∧ marked_complete c w
             ∧ (er = None → pending w = ""%string ∧ emptiness_recorded w)).
Proof.
  unfold recordVerifiedEmptyChannel. apply hoare_wp. intros w Hw.
  destruct (String.eqb_spec (ch_ID c) ""); [done|].
  set (P := λ w, pending_proven w ∧ all_stored (λ _, True) h w ∧ marked_complete c w) in *.
  eapply (wp_bind _ _ (λ r w, P w ∧ ∀ b, r = inl b → b = has_messages (ch_ID c) (w_messages w))).
  { unfold ChannelHasMessages. destruct (String.eqb_spec (ch_ID c) ""); [done|].
    eapply wp_conseq; [apply (hoare_store_read _ P); [intros w1 Hw1; exact Hw1| |]|exact Hw|by intros a w1 HQ; exact HQ].
    - intros now w1 Hw1. split; [done|]. by intros b [= <-].
    - intros w1 er Hw1. split; [done|]. discriminate. }
  intros [b|er] w1 [Hw1 Hb]; [|apply wp_ret; split_and!; [right; apply Hw1|apply Hw1|apply Hw1|done]].
  specialize (Hb b eq_refl). subst b.
  eapply (wp_bind _ _ (λ er w, P w ∧ (er = None → emptiness_recorded w))).
  { assert (∀ scope f, (∀ now s, GetSyncState (channelHistoryVerificationScope (ch_ID c)) (f now s)
                                 = GetSyncState (channelHistoryVerificationScope (ch_ID c)) s
                            ∧ GetSyncState (channelHistoryCompleteScope (ch_ID c)) (f now s)
                              = GetSyncState (channelHistoryCompleteScope (ch_ID c)) s) →
        (∀ now s, GetSyncState scope (f now s)
           = if has_messages (ch_ID c) (w_messages w1) then ""%string else "1"%string) →
        scope = channelVerifiedEmptyScope (ch_ID c) →
        wp (store_write (on_sync (λ now s, (None, f now s)))) (λ er w, P w ∧ (er = None → emptiness_recorded w)) w1) as Hgen.
    { intros scope f Hf Hv -> er w2. unfold store_write, on_sync, P, pending_proven, pending, marked_complete in *.
      destruct (outcome_at _); intros [= <- <-]; cbn [w_sync with_sync tick snd];
        rewrite ?(proj1 (Hf _ _)), ?(proj2 (Hf _ _)); (split; [exact Hw1|]); [|done|done].
      intros _. unfold emptiness_recorded. cbn [w_sync w_messages with_sync tick]. apply Hv. }
    destruct (has_messages (ch_ID c) (w_messages w1)); eapply Hgen; try done;
      [intros _ s; split; by scope_simpl|intros; apply GetSyncState_Delete_eq
      |intros now s; split; by scope_simpl|intros; apply GetSyncState_Set_eq]. }
  intros [er|] w2 [Hw2 He]; [apply wp_ret; split_and!; [right; apply Hw2|apply Hw2|apply Hw2|done]|].
  specialize (He eq_refl). destruct Hw2 as (Hp2 & Ha2 & Hm2).
  unfold delete_sync_state, store_write, on_sync. intros er w3.
  unfold checkpoint_sound, pending, marked_complete, emptiness_recorded in *.
  destruct (outcome_at _); intros [= <- <-]; cbn [w_sync w_messages with_sync tick snd];
    scope_simpl; (split_and!; [first [left; reflexivity | right; exact Hp2]|exact Ha2|exact Hm2|done]).
Qed.
(** What [loadChannelSyncState] decodes. *)
Definition loaded_checkpoint (w : world T) : option historyVerificationCheckpoint :=
  if (pending w =? "")%string then None else Unmarshal (pending w).

Lemma loaded_proven w : checkpoint_sound w → proven (default (mkCheckpoint "" "") (loaded_checkpoint w)) w.
Proof.
  unfold loaded_checkpoint. intros [E|(Hne & cp & Hu & Hp)].
  - rewrite E. simpl. split; [done|by left].
  - destruct (String.eqb_spec (pending w) ""); [done|]. by rewrite Hu.
Qed.

(** The outcome of a verification, as an invariant of its last steps. *)
Definition verified (er : option err) (w : world T) : Prop :=
  checkpoint_sound w ∧ (pending w ≠ ""%string ∨ all_stored (λ _, True) h w)
  ∧ (er = None → all_stored (λ _, True) h w ∧ marked_complete c w ∧ pending w = ""%string
                 ∧ emptiness_recorded w).

Lemma verify_started_spec fuel cp e :
  hoare (λ w, pending_proven w ∧ proven cp w)
    (let! er := delete_sync_state (channelHistoryCompleteScope (ch_ID c)) in
     match er with
     | Some failure => let! er := restoreAfterFailedVerification (ch_ID c) failure in ret (0%nat, er)
     | None =>
         let! (count, er) := syncFullChannelHistory fuel c (verification_state cp) e None true in
         match er with
         | Some failure => let! er := restoreAfterFailedVerification (ch_ID c) failure in ret (count, er)
         | None => let! er := recordVerifiedEmptyChannel (ch_ID c) in ret (count, er)
         end
     end)%discrawl
    (λ '(_, er) w, verified er w).
Proof.
  apply hoare_wp. intros w Hw.
  assert (∀ w er, pending_proven w ∧ er ≠ None → verified er w) as Hfail.
  { intros w1 er [Hp Hne]. split_and!; [by right|left; apply Hp|done]. }
  eapply (wp_call _ _ _ (λ _ w, pending_proven w ∧ resumable h (verification_state cp) w)); [| |].
  { eapply delete_closed; [apply crawl_closed_and; [apply pending_proven_closed|apply all_stored_closed]|]. by right. }
  { split; [apply Hw|apply proven_resumable, Hw]. }
  intros [failure|] w1 Hw1.
  { eapply wp_call; [apply restore_spec, pending_proven_closed|apply Hw1|]. intros er w2 H2. by apply wp_ret, Hfail. }
  eapply wp_call; [apply (full_spec c h Hsrv pending_proven)|exact Hw1|]; try done;
    [apply pending_proven_closed|intros _; apply pending_saves|by apply Hw|].
  intros [n [failure|]] w2 [Hp2 Hok].
  { eapply wp_call; [apply restore_spec, pending_proven_closed|done|]. intros er w3 H3. by apply wp_ret, Hfail. }
  eapply wp_call; [apply record_spec|by split; [|apply Hok]|].
  intros er w3 (Hs & Ha & Hm & He). apply wp_ret. split_and!; [done|by right|].
  intros E. destruct (He E). by split_and!.
Qed.
End verification.

(** ** Properties *)

Section theorems.
Context {T : Type} `{MS : MessageStore T} {ML : MessageStoreLaws T} `{ENV : Env}
        `{JC : JSON historyVerificationCheckpoint}
        {JL : JSONLaws historyVerificationCheckpoint good_checkpoint}.

(** C1: a verification certifies a channel only on proof. For a provider with
    history [h], if the saved checkpoint claims only messages that are
    stored, then whatever store or provider call fails, before or after its
    commit, the checkpoint left behind is again sound; unless nothing was
    written, the verification stays pending or all of [h] is stored; and when
    no error is reported every message of [h] is stored, the channel is
    marked complete, the checkpoint is gone and the verified-empty marker
    says exactly whether the channel has rows. *)
Theorem verification_sound (fuel : nat) (c : Channel) (h : list Message) (embeddings : bool)
    (w w' : world T) (n : nat) (er : option err) :
  serves (ch_ID c) h → ch_ID c ≠ ""%string → checkpoint_sound c h w →
  verifyChannelHistory fuel c (loaded_checkpoint c w) embeddings w = Some ((n, er), w') →
  checkpoint_sound c h w'
  ∧ (pending c w' ≠ ""%string ∨ all_stored (λ _, True) h w' ∨ w_sync w' = w_sync w)
  ∧ (er = None → all_stored (λ _, True) h w' ∧ marked_complete c w' ∧ pending c w' = ""%string
                 ∧ emptiness_recorded c w').
Proof.
  intros Hsrv Hch Hs Hrun. pose proof (loaded_proven c h w Hs) as Hp.
  enough (wp (verifyChannelHistory fuel c (loaded_checkpoint c w) embeddings)
            (λ '(_, er) w', checkpoint_sound c h w'
               ∧ (pending c w' ≠ ""%string ∨ all_stored (λ _, True) h w' ∨ w_sync w' = w_sync w)
               ∧ (er = None → all_stored (λ _, True) h w' ∧ marked_complete c w' ∧ pending c w' = ""%string
                              ∧ emptiness_recorded c w')) w) as Hwp by exact (Hwp (n, er) w' Hrun).
  unfold verifyChannelHistory. cbv zeta. set (cp := default _ _) in *.
  eapply wp_bind; [by apply save_spec|].
  intros [e1|] w1 (Hp1 & Hs1 & Hpend & Hor).
  { apply wp_ret. split_and!; [done| |done]. destruct Hor as [[? _]|?]; [by left|by do 2 right]. }
  eapply wp_conseq; [by apply (verify_started_spec c h Hsrv Hch fuel cp embeddings)|by split; [apply Hpend|]|].
  intros [n2 er2] w2 (? & [?|?] & ?); (split_and!; [done| |done]); [by left|right; by left].
Qed.

(** C2: a full synchronization that ends without error has stored the whole
    history. If nothing is missing between the channel's two cursors (nothing
    at all is required of a channel without cursors) and the channel is not
    yet complete, then under every fault schedule a successful run stores
    every message of [h] and only then marks the channel complete. *)
Theorem full_sync_completes (fuel : nat) (c : Channel) (h : list Message) (st : channelSyncState)
    (embeddings : bool) (w w' : world T) (n : nat) :
  serves (ch_ID c) h → is_cursor (Latest st) = true → BackfillComplete st = false → resumable h st w →
  syncFullChannelHistory fuel c st embeddings None false w = Some ((n, None), w') →
  all_stored (λ _, True) h w' ∧ marked_complete c w'.
Proof.
  intros Hsrv HL Hbc Hres Hrun.
  destruct (full_spec c h Hsrv (λ _, True) fuel embeddings st false (crawl_closed_true _ _)
              ltac:(done) HL Hbc w (n, None) w' (conj Logic.I Hres) Hrun) as [_ H]. by apply H.
Qed.
End theorems.

(** ** Witnesses: a provider with three messages *)

Definition three : list Message :=
  [mkMessage "1003" "7" "9" 3 ""; mkMessage "1002" "7" "9" 2 ""; mkMessage "999" "7" "9" 1 ""]%string.
Definition three_env : Env := calm_env three (λ _, Done).

Lemma three_serves : serves (H := three_env) "7" three.
Proof.
  split.
  - repeat constructor; simpl; vm_compute; reflexivity.
  - intros m Hm. repeat (apply elem_of_cons in Hm as [->|Hm]; [reflexivity|]). by apply elem_of_nil in Hm.
  - intros m Hm. repeat (apply elem_of_cons in Hm as [->|Hm]; [reflexivity|]). by apply elem_of_nil in Hm.
  - intros n b a page E. simpl in E. injection E as <-. reflexivity.
Qed.

(** Marked complete, no rows: the state a verification repairs. *)
Definition stranded_world : world plain_table :=
  with_sync (SetSyncState 0 (channelHistoryCompleteScope "7") "1" ∅) start_world.

Lemma verification_sound_witness :
  ∃ n w', verifyChannelHistory (ENV := three_env) 2 example_channel None false stranded_world = Some ((n, None), w')
          ∧ all_stored (λ _, True) three w' ∧ pending example_channel w' = ""%string.
Proof.
  destruct (verifyChannelHistory (ENV := three_env) 2 example_channel None false stranded_world)
    as [[[n er] w']|] eqn:E; [|vm_compute in E; discriminate].
  assert (er = None) as -> by (apply (f_equal (option_map (snd ∘ fst))) in E; vm_compute in E; congruence).
  exists n, w'. split; [reflexivity|].
  destruct (verification_sound (ENV := three_env) 2 example_channel three false stranded_world w' n None
              three_serves ltac:(discriminate) (or_introl eq_refl) E) as (_ & _ & H).
  destruct (H eq_refl) as (Ha & _ & Hp & _). split; [exact Ha|exact Hp].
Defined.

Definition new_state : channelSyncState := mkState "" "" "" false None false false.

Lemma full_sync_completes_witness :
  ∃ n w', syncFullChannelHistory (ENV := three_env) 2 example_channel new_state false None false start_world
          = Some ((n, None), w') ∧ all_stored (λ _, True) three w'.
Proof.
  destruct (syncFullChannelHistory (ENV := three_env) 2 example_channel new_state false None false start_world)
    as [[[n er] w']|] eqn:E; [|vm_compute in E; discriminate].
  assert (er = None) as -> by (apply (f_equal (option_map (snd ∘ fst))) in E; vm_compute in E; congruence).
  exists n, w'. split; [reflexivity|].
  apply (full_sync_completes (ENV := three_env) 2 example_channel three new_state false start_world w' n
           three_serves eq_refl eq_refl); [|exact E].
  intros m _ [H _]. discriminate.
Defined.
