(* ===== verification/Termination.v ===== *)
(** * The pagination loops end

    Against a provider that serves a fixed history every loop ends, whatever
    fails, with one page of fuel more than the history has full pages. *)
From S2P Require Import Prelude Snowflake Errors SyncState ChannelScope FailureLedger Discord World Provider GoTime MessageSync ChannelSync CrawlSafety Fixture Completeness.
Local Open Scope nat_scope.

Section total.
Context {T : Type} `{MS : MessageStore T} `{ENV : Env}.

(** [m] never runs out of fuel. *)
Definition total {A} (m : M T A) : Prop := ∀ w, is_Some (m w).

Lemma total_ret {A} (a : A) : total (ret a).
Proof. intros w. unfold ret. eauto. Qed.

Lemma total_bind {A B} (m : M T A) (k : A → M T B) : total m → (∀ a, total (k a)) → total (bind m k).
Proof. intros Hm Hk w. unfold bind. destruct (Hm w) as [[a w'] ->]. apply Hk. Qed.

(** With what is known of the first result. *)
Lemma total_bind_post {A B} (m : M T A) (k : A → M T B) (P : A → Prop) :
  total m → hoare (λ _, True) m (λ a _, P a) → (∀ a, P a → total (k a)) → total (bind m k).
Proof.
  intros Hm HP Hk w. unfold bind. destruct (Hm w) as [[a w'] E]. rewrite E. apply Hk. by eapply HP.
Qed.

Lemma total_store_write f : total (store_write f).
Proof. intros w. unfold store_write. destruct (outcome_at _); cbv zeta; eauto. Qed.
Lemma total_store_read {A} (f : Z → world T → A) : total (store_read f).
Proof. intros w. unfold store_read. destruct (outcome_at _); cbv zeta; eauto. Qed.
Lemma total_tick {A} (f : world T → A) : total (λ w, Some (f w, tick w)).
Proof. intros w. eauto. Qed.
End total.

Create HintDb total.
#[export] Hint Resolve total_store_write total_store_read total_tick : total.

(** Walks through binds and branches of code without loops. *)
Ltac total_walk :=
  repeat (cbv zeta; lazymatch goal with
          | |- total (bind _ _) => apply total_bind; [|intros ?]
          | |- total (ret _) => apply total_ret
          | |- total (match ?x with _ => _ end) => destruct x
          | |- _ => solve [auto with total]
          end).

Section pages_total.
Context {T : Type} `{MS : MessageStore T} `{ENV : Env} `{JC : JSON historyVerificationCheckpoint}.

Lemma requirePersistedScope_total ch : total (T:=T) (requirePersistedScope ch).
Proof. unfold requirePersistedScope, channel_admitted. total_walk. Qed.

Lemma build_total ms cn g e mus n : total (T:=T) (buildMessageMutations_from ms cn g e mus n).
Proof.
  revert mus n. induction ms as [|m ms IH]; intros mus n; simpl; [total_walk|].
  unfold buildMessageMutation, extract_attachments. total_walk.
Qed.

Lemma resolve_groups_total gs : total (T:=T) (resolve_groups gs).
Proof. induction gs as [|[[g c] ids] gs IH]; simpl; unfold ledger_call; total_walk. Qed.
Hint Resolve requirePersistedScope_total build_total resolve_groups_total : total.

Lemma persist_total ms cn g e o : total (T:=T) (persistMessagePage ms cn g e o).
Proof.
  unfold persistMessagePage, buildMessageMutations, resolveTailMessageCreateFailuresForMessages, upsert_messages.
  total_walk.
Qed.

Lemma set_total s x : total (T:=T) (set_sync_state s x).
Proof. apply total_store_write. Qed.
Lemma advance_total ch id : total (T:=T) (advanceChannelLatest ch id).
Proof. apply total_store_write. Qed.
Lemma now_total : total (T:=T) time_Now.
Proof. apply total_tick. Qed.
Lemma reached_start_total ch b win : total (T:=T) (reached_start ch b win).
Proof. unfold reached_start. destruct win; unfold set_sync_state; total_walk. Qed.
End pages_total.
#[export] Hint Resolve requirePersistedScope_total persist_total set_total advance_total now_total
  reached_start_total : total.

(** ** Measures *)

Section measure.
Context {T : Type} `{MS : MessageStore T} {ML : MessageStoreLaws T} `{ENV : Env}
        `{JC : JSON historyVerificationCheckpoint}.
Context (c : Channel) (h : list Message) (Hsrv : serves (ch_ID c) h).

Definition remaining_older (before : string) : nat := length (List.filter (older before) h).
Definition remaining_newer (after : string) : nat := length (List.filter (newer after) h).

(** A stronger test, false on the first [n] elements kept by a weaker one. *)
Lemma filter_shrinks {A} (p q : A → bool) n (l : list A) :
  (∀ x, p x = true → q x = true) → (∀ x, x ∈ take n (List.filter q l) → p x = false) →
  length (List.filter p l) <= length (List.filter q l) - n.
Proof.
  intros Hpq Hn.
  assert (List.filter p l = List.filter p (List.filter q l)) as ->.
  { clear Hn. induction l as [|x l IH]; [done|]. simpl. destruct (q x) eqn:Eq; simpl; rewrite IH; [done|].
    destruct (p x) eqn:Ep; [|done]. rewrite (Hpq x Ep) in Eq. done. }
  rewrite <- (take_drop n (List.filter q l)) at 1. rewrite List.filter_app, length_app.
  assert (List.filter p (take n (List.filter q l)) = []) as ->.
  { induction (take n (List.filter q l)) as [|x xs IH]; [done|]. simpl. rewrite Hn by left.
    apply IH. intros y Hy. apply Hn. by right. }
  simpl. rewrite <- length_drop. apply filter_length_le.
Qed.

Lemma older_shrinks before :
  let page := serve h before "" in
  ¬ length page < syncMessagesPageSize →
  remaining_older (last_id_of page) <= remaining_older before - syncMessagesPageSize
  ∧ syncMessagesPageSize <= remaining_older before.
Proof.
  intros page Hfull. assert (page = take syncMessagesPageSize (List.filter (older before) h)) as Hpage by done.
  destruct (last_id_in c h Hsrv page) as (l & Hl & Hlh & Hid & Hsl).
  { intros E. rewrite E in Hfull. by apply Hfull, Nat.lt_0_succ. } { intros x. apply serve_in. }
  split; [|rewrite Hpage, length_take in Hfull; unfold remaining_older; lia].
  apply filter_shrinks.
  - intros x. rewrite Hid. unfold older. destruct (String.eqb_spec (m_ID l) ""); [by rewrite e in Hsl|].
    destruct (String.eqb_spec before ""); [done|]. simpl. intros Hx%Z.ltb_lt. apply Z.ltb_lt.
    assert (l ∈ List.filter (older before) h) as HlF.
    { apply elem_of_take_in with syncMessagesPageSize. rewrite <- Hpage. by apply last_Some_elem_of. }
    apply elem_of_lfilter in HlF as [_ Ho]. unfold older in Ho. propify. destruct Ho as [Ho|Ho]; propify; [done|lia].
  - intros x Hx. rewrite <- Hpage in Hx. rewrite Hid. unfold older. apply orb_false_iff. split.
    { apply String.eqb_neq. intros E. by rewrite E in Hsl. }
    apply Z.ltb_ge. apply last_Some in Hl as [page' Hp]. rewrite Hp in Hx.
    apply elem_of_app in Hx as [Hx|Hx]; [|apply list_elem_of_singleton in Hx as ->; lia].
    assert (newest_first page) as Hs.
    { rewrite Hpage. pose proof (filter_sorted _ (older before) _ (sv_order _ _ Hsrv)) as Hs.
      rewrite <- (take_drop syncMessagesPageSize (List.filter _ h)) in Hs. by apply StronglySorted_app_1_l in Hs. }
    unfold newest_first in Hs. rewrite Hp in Hs.
    pose proof (StronglySorted_app_1_elem_of _ _ _ _ _ Hs Hx ltac:(by apply list_elem_of_singleton)). simpl in *. lia.
Qed.

Lemma newer_shrinks after :
  let page := serve h "" after in
  after ≠ ""%string → is_cursor after = true →
  remaining_newer (maxSnowflake after (page_newest "" page)) <= remaining_newer after - syncMessagesPageSize.
Proof.
  intros page Hne Ha.
  assert (∀ m, m ∈ page → m ∈ h) as Hin by (intros x; apply serve_in).
  destruct (page_newest_history c h Hsrv page "" eq_refl Hin) as (Hpc & _ & Hmax & _).
  unfold remaining_newer. rewrite <- (length_rev (List.filter (newer after) h)), <- List.filter_rev.
  rewrite <- length_rev, <- List.filter_rev. apply filter_shrinks; unfold newer.
  - intros x. rewrite maxSnowflake_rank by done. intros Hx. propify. apply Z.ltb_lt. lia.
  - intros x Hx. rewrite maxSnowflake_rank by done. apply Z.ltb_ge.
    assert (x ∈ page); [|specialize (Hmax x ltac:(done)); lia].
    unfold page, serve. destruct (String.eqb_spec after ""); [done|].
    by rewrite elem_of_rev, <- List.filter_rev.
Qed.

Lemma total_bind_page {B} before after (k : list Message + err → M T B) :
  (∀ page, page = serve h before after → total (k (inl page))) → (∀ e, total (k (inr e))) →
  total (bind (channel_messages (ch_ID c) before after) k).
Proof.
  intros Hpage Herr w. unfold bind, channel_messages.
  destruct (ChannelMessages (w_step w) (ch_ID c) before after) as [page|e] eqn:E; [|apply Herr].
  apply Hpage. by apply (sv_answer _ _ Hsrv) in E.
Qed.

Lemma backfill_total fuel lf cn e since lim v n newest pages before win :
  remaining_older before < syncMessagesPageSize * fuel →
  total (backfill_loop fuel c lf cn e since lim v n newest pages before win).
Proof.
  revert n newest pages before win. induction fuel as [|fuel IH]; intros n newest pages before win Hf; [lia|].
  simpl backfill_loop. apply total_bind; [auto with total|]. intros o.
  apply total_bind; [auto with total|]. intros [er|]; [apply total_ret|].
  apply total_bind_page; [|intros; apply total_ret]. intros page Hpage.
  destruct (Nat.eqb_spec (length page) 0); [total_walk|].
  destruct (filterMessagesSince page since) as [eligible reached].
  apply total_bind; [auto with total|]. intros [pn [er|]]; [apply total_ret|]. cbv zeta.
  unfold saveHistoryVerificationCheckpoint.
  apply total_bind; [total_walk|]. intros [er|]; [apply total_ret|].
  destruct reached; [total_walk|].
  destruct (_ && _); [apply total_ret|]. destruct (_ && _); [apply total_ret|].
  apply total_bind; [total_walk|]. intros [er|]; [apply total_ret|].
  apply total_bind; [total_walk|]. intros [er|]; [apply total_ret|].
  destruct (Nat.ltb_spec (length page) syncMessagesPageSize); [total_walk|].
  destruct (_ && _); [apply total_ret|].
  apply IH. pose proof (older_shrinks before) as Hs. cbv zeta in Hs. rewrite <- Hpage in Hs.
  specialize (Hs ltac:(lia)). unfold syncMessagesPageSize in *. lia.
Qed.

Lemma bootstrap_total fuel e since n newest before :
  remaining_older before < syncMessagesPageSize * fuel →
  total (bootstrap_loop fuel c e since n newest before).
Proof.
  revert n newest before. induction fuel as [|fuel IH]; intros n newest before Hf; [lia|].
  simpl bootstrap_loop. apply total_bind; [auto with total|]. intros o.
  apply total_bind; [auto with total|]. intros [er|]; [apply total_ret|].
  apply total_bind_page; [|intros; apply total_ret]. intros page Hpage.
  destruct (Nat.eqb_spec (length page) 0); [total_walk|].
  destruct (filterMessagesSince page since) as [eligible reached].
  apply total_bind; [auto with total|]. intros [pn [er|]]; [apply total_ret|]. cbv zeta.
  destruct reached; [total_walk|].
  destruct (Nat.ltb_spec (length page) syncMessagesPageSize); [total_walk|].
  destruct (_ =? _)%string; [apply total_ret|]. destruct (_ =? _)%string; [apply total_ret|].
  apply IH. pose proof (older_shrinks before) as Hs. cbv zeta in Hs. rewrite <- Hpage in Hs.
  specialize (Hs ltac:(lia)). unfold syncMessagesPageSize in *. lia.
Qed.

Lemma forward_total fuel e n newest after :
  after ≠ ""%string → is_cursor after = true → remaining_newer after < syncMessagesPageSize * fuel →
  total (forward_loop fuel c e n newest after).
Proof.
  revert n newest after. induction fuel as [|fuel IH]; intros n newest after Hne Ha Hf; [lia|].
  simpl forward_loop. apply total_bind; [auto with total|]. intros o.
  apply total_bind; [auto with total|]. intros [er|]; [apply total_ret|].
  apply total_bind_page; [|intros; apply total_ret]. intros page Hpage.
  destruct (Nat.eqb_spec (length page) 0); [total_walk|].
  apply (total_bind_post _ _ (λ '(pn, er), er = None → pn = page_newest "" page)); [auto with total| |].
  { eapply hoare_conseq; [apply (persist_spec (ch_ID c) (λ _, True) (λ _, True)); by split|done|].
    intros [pn er] w [_ H] E. by apply H. }
  intros [pn [er|]] Hpn; [apply total_ret|]. specialize (Hpn eq_refl). subst pn. cbv zeta.
  apply total_bind; [auto with total|]. intros [er|]; [apply total_ret|].
  destruct (Nat.ltb_spec (length page) syncMessagesPageSize); [apply total_ret|].
  destruct (String.eqb_spec (maxSnowflake after (page_newest "" page)) ""); [apply total_ret|].
  destruct (_ =? _)%string; [apply total_ret|].
  assert (∀ m, m ∈ page → m ∈ h) as Hin by (intros x; rewrite Hpage; apply serve_in).
  destruct (page_newest_history c h Hsrv page "" eq_refl Hin) as (Hpc & _ & _ & _).
  apply IH; [done|auto with discrawl|].
  pose proof (newer_shrinks after Hne Ha) as Hs. rewrite <- Hpage in Hs.
  assert (length page <= remaining_newer after).
  { rewrite Hpage. unfold serve, remaining_newer. destruct (String.eqb_spec after ""); [done|].
    rewrite length_rev, length_take, length_rev. lia. }
  unfold syncMessagesPageSize in *. lia.
Qed.
End measure.

(** ** Property *)

(** C33: the pagination loops end. Against a provider whose history of the
    channel is [h], with more fuel than [h] has full pages, the backfill (any
    window, page limit, lower bound and start), the bootstrap and the forward
    crawl from a cursor return a result in every world and under every fault
    schedule: the cursor check of the loops never lets them spin. *)
Theorem pagination_terminates {T : Type} `{MS : MessageStore T} {ML : MessageStoreLaws T} `{ENV : Env}
    `{JC : JSON historyVerificationCheckpoint}
    (fuel : nat) (c : Channel) (h : list Message) (embeddings verification : bool) (since : option Z)
    (before after latestFloor : string) (pageLimit : nat) (window : option HistoryWindow) :
  serves (ch_ID c) h → length h < syncMessagesPageSize * fuel →
  total (T:=T) (syncBackfillPages fuel c before latestFloor (ch_Name c) embeddings since pageLimit verification window)
  ∧ total (T:=T) (bootstrapChannelHistory fuel c embeddings since)
  ∧ (after ≠ ""%string → is_cursor after = true → total (T:=T) (syncForwardPages fuel c after embeddings)).
Proof.
  intros Hsrv Hf.
  assert (∀ b, remaining_older h b < syncMessagesPageSize * fuel) as Ho.
  { intros b. unfold remaining_older. pose proof (filter_length_le (older b) h). lia. }
  split_and!.
  - by apply (backfill_total c h Hsrv).
  - apply total_bind; [by apply (bootstrap_total c h Hsrv)|]. intros [[n newest] [e|]]; [apply total_ret|].
    total_walk.
  - intros Hne Ha. apply (forward_total c h Hsrv); try done.
    unfold remaining_newer. pose proof (filter_length_le (newer after) h). lia.
Qed.

Lemma pagination_terminates_witness :
  is_Some (bootstrapChannelHistory (ENV := three_env) 1 example_channel false None start_world).
Proof.
  destruct (pagination_terminates (T := gmap string string) (ENV := three_env) 1 example_channel three
              false false None "" "" "" 0 None three_serves ltac:(vm_compute; lia)) as (_ & H & _).
  exact (H start_world).
Defined.
