(* ===== verification/GuildSafety.v ===== *)
(** * What a guild's message sync guarantees

    Over a whole serial run, under every fault schedule: latest pointers only
    advance and nothing stored is lost; a skipped channel leaves evidence; and
    a recorded failure is settled as "provider unavailable" only on a
    corroborated answer. *)
From S2P Require Import Prelude Snowflake Errors SyncState ChannelScope FailureLedger Discord World Provider GoTime MessageSync ChannelSync GuildSync Fixture CrawlSafety Completeness.
Local Open Scope Z_scope.

(** The cursors a guild run may write for a channel. *)
Definition run_scope (ch scope : string) : Prop :=
  crawl_scope ch scope ∨ scope = channelMessageUnavailableScope ch.

Section run.
Context {T : Type} `{MS : MessageStore T} {ML : MessageStoreLaws T} `{ENV : Env} `{ER : ErrorReport}
        `{JC : JSON historyVerificationCheckpoint} `{JW : JSON HistoryWindow}.
Context (I : world T → Prop) (HI : ∀ ch, crawl_closed ch (run_scope ch) I).

Lemma run_crawl_closed ch : crawl_closed ch (crawl_scope ch) I.
Proof. apply (crawl_closed_weaken ch (run_scope ch)); [by left|apply HI]. Qed.

Lemma set_marker_closed ch cur : hoare I (set_sync_state (channelMessageUnavailableScope ch) cur) (λ _, I).
Proof. eapply set_closed; [apply (HI ch)|by right]. Qed.

Lemma clear_closed ch : hoare I (clearUnavailableChannel ch) (λ _, I).
Proof.
  unfold clearUnavailableChannel. destruct (ch =? "")%string; [by apply hoare_ret|].
  eapply delete_closed; [apply (HI ch)|by right].
Qed.

Hint Resolve run_crawl_closed set_marker_closed clear_closed syncChannelMessages_closed : crawl.

Lemma settle_closed g ch resolve :
  (∀ r, hoare I (resolve r) (λ _, I)) → hoare I (settleUnknownChannelFailure g ch resolve) (λ _, I).
Proof.
  intros Hr. pose proof (HI ch). unfold settleUnknownChannelFailure, verifyUnknownChannel, ctx_Err, client_channel, get_sync_state.
  crawl_walk.
Qed.
Hint Resolve settle_closed : crawl.

Lemma skip_closed c e : hoare I (skipSyncError c e) (λ _, I).
Proof.
  pose proof (HI (ch_ID c)).
  unfold skipSyncError, skipUnavailableChannelByID, ctx_Err, get_sync_state. crawl_walk.
Qed.

Lemma recordChannelFailure_closed g ch e : hoare I (recordChannelFailure g ch e) (λ _, I).
Proof. pose proof (HI ch). unfold recordChannelFailure, ctx_Err. crawl_walk. Qed.
Hint Resolve skip_closed recordChannelFailure_closed : crawl.

Lemma serial_closed fuel g cs o total progress : hoare I (serial_loop fuel g cs o total progress) (λ _, I).
Proof.
  revert total progress. induction cs as [|c cs IH]; intros total progress; simpl; [crawl_walk|].
  pose proof (run_crawl_closed (ch_ID c)). unfold resolveChannelFailures. crawl_walk.
Qed.
Hint Resolve serial_closed : crawl.

Lemma syncMessageChannels_closed fuel g cs o : hoare I (syncMessageChannels fuel g cs o) (λ _, I).
Proof.
  pose proof (HI ""). unfold syncMessageChannels, filterFreshUnavailableChannels, fresh_unavailable, syncMessageChannelsSerial.
  crawl_walk.
Qed.
End run.

Definition nothing_lost {T} `{MessageStore T} (w0 w : world T) : Prop :=
  w_channels w = w_channels w0
  ∧ ∀ id, is_Some (message_channels (w_messages w0) !! id) → is_Some (message_channels (w_messages w) !! id).

Section run_invariants.
Context {T : Type} `{MS : MessageStore T} {ML : MessageStoreLaws T}.

Lemma run_scope_not_latest ch d scope : run_scope ch scope → scope ≠ channelLatestScope d.
Proof. intros [H| ->]; [by apply (crawl_scope_not_latest ch)|scope_ne]. Qed.

Lemma latest_at_least_run ch d L : crawl_closed (T:=T) ch (run_scope ch) (latest_at_least d L).
Proof.
  destruct (latest_at_least_closed (T:=T) ch d L). split; try done; unfold latest_at_least; cbn [w_sync with_sync].
  - intros w now scope cur Hs. by rewrite GetSyncState_Set_ne by (by apply (run_scope_not_latest ch)).
  - intros w scope Hs. by rewrite GetSyncState_Delete_ne by (by apply (run_scope_not_latest ch)).
Qed.

Lemma nothing_lost_run ch w0 : crawl_closed (T:=T) ch (run_scope ch) (nothing_lost w0).
Proof.
  split; try done. intros w now ms e t HU [? Hm]. split; [done|]. intros id Hid.
  cbn [w_messages with_messages]. eapply upsert_keeps; eauto.
Qed.
End run_invariants.

(** ** Settling a failure *)

Section settle.
Context {T : Type} `{MS : MessageStore T} `{ENV : Env} `{ER : ErrorReport}.

(** At some step the exact lookup of [ch] answered 404 / Unknown Channel. *)
Definition lookup_confirmed (ch : string) : Prop :=
  ∃ n e, ClientChannel n ch = inr e ∧ confirmedDiscordMissing (Some e) ErrCodeUnknownChannel = true.

Lemma lookup_verdict_confirmed g ch a :
  lookup_verdict g ch a = unknownChannelConfirmed →
  ∃ e, a = inr e ∧ confirmedDiscordMissing (Some e) ErrCodeUnknownChannel = true.
Proof.
  destruct a as [[c|]|e]; unfold lookup_verdict; [case_match; discriminate|discriminate|].
  case_match; [eauto|discriminate].
Qed.

(** The ledger is untouched, or [resolve] was reached after a confirmation. *)
Lemma settle_ledger g ch resolve (w0 : world T) (Q : option err → world T → Prop) :
  (∀ e w, w_ledger w = w_ledger w0 → Q e w) →
  (lookup_confirmed ch → ∀ r w, w_ledger w = w_ledger w0 → wp (resolve r) Q w) →
  wp (settleUnknownChannelFailure g ch resolve) Q w0.
Proof.
  intros Hsame Hres. set (L := λ w : world T, w_ledger w = w_ledger w0).
  assert (∀ scope cur, hoare L (set_sync_state scope cur) (λ _, L)) as Hset.
  { intros scope cur. apply hoare_store_write; [done| |done]. by intros now w e w' HL [= <- <-]. }
  assert (∀ scope, hoare L (delete_sync_state scope) (λ _, L)) as Hdel.
  { intros scope. apply hoare_store_write; [done| |done]. by intros now w e w' HL [= <- <-]. }
  assert (∀ scope, hoare L (get_sync_state scope) (λ _, L)) as Hget by (intros; by apply hoare_store_read).
  unfold settleUnknownChannelFailure.
  eapply (wp_bind _ _ (λ v w, L w ∧ (v = unknownChannelConfirmed → lookup_confirmed ch))).
  { unfold verifyUnknownChannel. destruct (ch =? "")%string; [apply wp_ret; done|].
    eapply (wp_call _ _ L (λ _, L)); [by apply hoare_tick|done|]. intros [e|] w1 Hw1; [by apply wp_ret|].
    intros v w2 [= <- <-]. split; [done|]. intros Hv.
    destruct (lookup_verdict_confirmed _ _ _ Hv) as (e & ? & ?). by exists (w_step w1), e. }
  intros [ | | ] w1 [Hw1 Hc]; [by apply wp_ret, Hsame| |].
  - eapply wp_call; [apply Hget|exact Hw1|]. intros [cur|e] w2 Hw2; [|by apply wp_ret, Hsame].
    destruct (cur =? "unknown_channel")%string; [|by apply wp_ret, Hsame].
    unfold clearUnavailableChannel. destruct (ch =? "")%string; [by apply wp_ret, Hsame|].
    eapply wp_conseq; [apply Hdel|exact Hw2|]. intros; by apply Hsame.
  - eapply wp_call; [apply Hget|exact Hw1|]. intros [cur|e] w2 Hw2; [|by apply wp_ret, Hsame].
    eapply (wp_call _ _ L (λ _, L)); [destruct (cur =? "")%string; [apply Hset|by apply hoare_ret]|done|].
    intros [e|] w3 Hw3; [by apply wp_ret, Hsame|]. by apply Hres; [apply Hc|].
Qed.
End settle.

(** ** Properties *)

Section theorems.
Context {T : Type} `{MS : MessageStore T} {ML : MessageStoreLaws T} `{ENV : Env} `{ER : ErrorReport}
        `{JC : JSON historyVerificationCheckpoint} `{JW : JSON HistoryWindow}.

(** C26: a guild's message run never moves a latest pointer back. Whatever pages
    the provider returns, whatever channels are selected, skipped or fail, and
    whichever store calls fail before or after their commit, the latest cursor
    of every channel [d] of the database remains a cursor the store can order
    and never decreases; no stored message disappears and the channel catalog
    is not written. *)
Theorem guild_run_monotone (fuel : nat) (guild : string) (cs : list Channel) (o : SyncOptions)
    (d : string) (w w' : world T) r :
  ordered_cursor (GetSyncState (channelLatestScope d) (w_sync w)) = true →
  syncMessageChannels fuel guild cs o w = Some (r, w') →
  latest_at_least d (GetSyncState (channelLatestScope d) (w_sync w)) w' ∧ nothing_lost w w'.
Proof.
  intros Ho Hrun. split.
  - eapply (syncMessageChannels_closed _ (λ ch, latest_at_least_run ch d _)); [|exact Hrun]. split; [done|lia].
  - by eapply (syncMessageChannels_closed _ (λ ch, nothing_lost_run ch w)); [|exact Hrun].
Qed.

(** a channel is skipped only for a reason, and with evidence. When the run
    decides to skip a channel after an error, then the channel has left the
    collection scope, or its unavailable marker now holds the reason, or the
    error is retryable. *)
Theorem skip_leaves_evidence (c : Channel) (e : err) (w w' : world T) :
  ch_ID c ≠ ""%string → skipSyncError c e w = Some (true, w') →
  is_scope e = true
  ∨ (unavailableReason e ≠ ""%string
     ∧ GetSyncState (channelMessageUnavailableScope (ch_ID c)) (w_sync w') = unavailableReason e)
  ∨ isRetryableSyncError false (Some e) = true.
Proof.
  intros Hch. unfold skipSyncError. destruct (is_scope e); [by left|]. intros Hrun. right.
  enough (wp (let! skipped := skipUnavailableChannelByID (ch_ID c) e channelMessageUnavailableScope in
              if skipped then ret true
              else let! cerr := ctx_Err in ret (isRetryableSyncError (is_some cerr) (Some e)))%discrawl
             (λ b w', b = true → (unavailableReason e ≠ ""%string
                ∧ GetSyncState (channelMessageUnavailableScope (ch_ID c)) (w_sync w') = unavailableReason e)
              ∨ isRetryableSyncError false (Some e) = true) w) as H by (by apply (H true w' Hrun)).
  eapply (wp_bind _ _ (λ b w', b = true → unavailableReason e ≠ ""%string
            ∧ GetSyncState (channelMessageUnavailableScope (ch_ID c)) (w_sync w') = unavailableReason e)).
  { unfold skipUnavailableChannelByID. cbv zeta.
    destruct (String.eqb_spec (unavailableReason e) "") as [|Hr]; [by apply wp_ret|].
    destruct (String.eqb_spec (ch_ID c) ""); [done|].
    eapply (wp_call _ _ (λ _, True) (λ _ _, True)); [by apply hoare_store_read|done|]. intros _ w1 _.
    eapply wp_call; [apply (set_spec (λ _, True)); done|done|].
    intros [er|] w2 [_ Hm]; apply wp_ret; [done|]. intros _. split; [done|by apply Hm]. }
  intros [|] w1 H1; [apply wp_ret; left; by apply H1|].
  eapply (wp_call _ _ (λ _, True) (λ _ _, True)); [by apply hoare_tick|done|].
  intros [er|] w2 _; apply wp_ret; simpl; [done|by right].
Qed.

(** a pending channel failure is settled only on proof. When the replay
    lane reconciles a failure, either the ledger is unchanged, or the channel
    (or an ancestor) is recorded as deleted or excluded by policy, or the
    failure is an Unknown Channel answer and an exact lookup of the channel
    answered HTTP 404 with code 10003. A resolution touches only the generation
    of the failure that was read. *)
Theorem reconcile_needs_proof (f : Failure) (policy : string) (w w' : world T) (r : option err) :
  reconcileChannelMessageFailure f policy w = Some (r, w') →
  w_ledger w' = w_ledger w
  ∨ (∃ now reason e, ResolveFailureGeneration now f reason (w_ledger w) = (e, w_ledger w'))
    ∧ (ChannelFailureSupersession (w_channels w) (ChannelID (Ref f)) policy ≠ ""%string
       ∨ isUnknownChannel (EText (ErrorMessage f)) = true ∧ lookup_confirmed (ChannelID (Ref f))).
Proof.
  intros Hrun. set (P := (ChannelFailureSupersession (w_channels w) (ChannelID (Ref f)) policy ≠ ""%string
       ∨ isUnknownChannel (EText (ErrorMessage f)) = true ∧ lookup_confirmed (ChannelID (Ref f)))).
  set (Q := λ (_ : option err) (w1 : world T), w_ledger w1 = w_ledger w ∨
    (∃ now reason e, ResolveFailureGeneration now f reason (w_ledger w) = (e, w_ledger w1)) ∧ P).
  enough (wp (reconcileChannelMessageFailure f policy) Q w) as H by exact (H r w' Hrun).
  assert (P → ∀ reason w1, w_ledger w1 = w_ledger w →
    wp (ledger_call (λ now, ResolveFailureGeneration now f reason)) Q w1) as Hres.
  { intros HP reason w1 Hl er w2. unfold ledger_call, store_write, on_ledger. cbn [w_ledger tick].
    rewrite Hl. destruct (outcome_at _); [|intros [= <- <-]; left; exact Hl|];
      destruct (ResolveFailureGeneration (clock (w_step w1)) f reason (w_ledger w)) as [e2 l2] eqn:E;
      intros [= <- <-]; right; (split; [|exact HP]); eexists _, _, _; exact E. }
  unfold reconcileChannelMessageFailure. destruct (_ || _); [apply wp_ret; by left|].
  set (J := λ w1 : world T, w_ledger w1 = w_ledger w ∧ w_channels w1 = w_channels w).
  eapply (wp_bind _ _ (λ (res : string + err) w1, J w1 ∧
            ∀ s, res = inl s → s = ChannelFailureSupersession (w_channels w) (ChannelID (Ref f)) policy)).
  { eapply (wp_conseq _ J); [apply (hoare_store_read _ J); [done| |]|done|intros a w1 Ha; exact Ha].
    - intros now w1 [H1 H2]. split; [done|]. intros s [= <-]. by rewrite H2.
    - done. }
  intros [reason|er] w1 [[Hl Hc] Hs]; [|apply wp_ret; by left]. rewrite (Hs reason eq_refl).
  destruct (nonempty _) eqn:Hne; [apply Hres; [left; by apply nonempty_spec|done]|].
  destruct (isUnknownChannel (EText (ErrorMessage f))) eqn:Hu; [|apply wp_ret; by left].
  apply settle_ledger; [intros; left; congruence|].
  intros Hconf reason' w2 Hl2. apply Hres; [by right|congruence].
Qed.
End theorems.

(** ** Witnesses *)

Definition run_options : SyncOptions := mkOptions false false true None [].
Definition flaky_guild_run : option ((nat * option err * list (string * channel_outcome)) * world (gmap string string)) :=
  syncMessageChannels (ENV := flaky_env) (ER := plain_report) 5 "9" [example_channel] run_options crawled_world.

Lemma guild_run_monotone_witness :
  ∃ r w', flaky_guild_run = Some (r, w') ∧ latest_at_least "7" "1005" w'.
Proof.
  destruct flaky_guild_run as [[r w']|] eqn:E; [|vm_compute in E; discriminate].
  exists r, w'. split; [reflexivity|].
  refine (proj1 (guild_run_monotone (ENV := flaky_env) (ER := plain_report) 5 "9" [example_channel]
                   run_options "7" crawled_world w' r _ E)).
  vm_compute. reflexivity.
Defined.

Definition forbidden : err := EText "HTTP 403 Forbidden, Missing Access".

Lemma skip_leaves_evidence_witness :
  ∃ w', skipSyncError (ENV := three_env) example_channel forbidden start_world = Some (true, w')
        ∧ unavailableReason forbidden = "missing_access"%string
        ∧ GetSyncState (channelMessageUnavailableScope "7") (w_sync w') = "missing_access"%string.
Proof.
  destruct (skipSyncError (ENV := three_env) example_channel forbidden start_world) as [[b w']|] eqn:E;
    [|vm_compute in E; discriminate].
  assert (b = true) as -> by (apply (f_equal (option_map fst)) in E; vm_compute in E; congruence).
  exists w'. split; [reflexivity|]. split; [vm_compute; reflexivity|].
  destruct (skip_leaves_evidence (ENV := three_env) example_channel forbidden start_world w'
              ltac:(discriminate) E) as [H|[[_ H]|H]].
  - vm_compute in H. discriminate.
  - exact H.
  - vm_compute in H. discriminate.
Defined.

(** An environment whose exact lookup answers 404 / 10003. *)
Definition missing_env : Env :=
  {| clock n := Z.of_nat n; outcome_at _ := Done; context_err _ := None;
     ChannelMessages _ _ _ _ := inl []; ClientChannel _ _ := inr (ERest (Some 404) (Some 10003) "HTTP 404");
     CanReadHistory := None; extract_outcome _ _ := None; policyID := "" |}.
Definition unknown_failure : Failure :=
  mkFailure 1 (channel_failure_ref "9" "7") "RESTError" "Unknown Channel" 5 5 0 None "".
Definition failed_world : world (gmap string string) :=
  with_ledger (mkLedger [unknown_failure] 1) start_world.

Lemma reconcile_needs_proof_witness :
  ∃ r w', reconcileChannelMessageFailure (ENV := missing_env) unknown_failure "" failed_world = Some (r, w')
          ∧ lookup_confirmed (ENV := missing_env) "7".
Proof.
  destruct (reconcileChannelMessageFailure (ENV := missing_env) unknown_failure "" failed_world) as [[r w']|] eqn:E;
    [|vm_compute in E; discriminate].
  exists r, w'. split; [reflexivity|].
  destruct (reconcile_needs_proof (ENV := missing_env) unknown_failure "" failed_world w' r E) as [H|[_ [H|[_ H]]]].
  - apply (f_equal (option_map (w_ledger ∘ snd))) in E. vm_compute in E, H. congruence.
  - vm_compute in H. congruence.
  - exact H.
Defined.
