(* ===== verification/Exclusions.v ===== *)
(** * The collection scope of a channel

    internal/syncer/channel_exclusions.go and collection_scope.go: the
    exclusion rules of a configuration, their evaluation on the provider's and
    on the stored catalog, the three-valued decision [scope] on the stored
    catalog, and the refresh that persists the decisions. *)
From S2P Require Import Prelude Errors SyncState ChannelScope Discord World GuildSync.
Local Open Scope Z_scope.

Record channelExclusions := mkExclusions {
  ids : gset string;
  kinds : gset string;
  allowedCategoryIDs : gset string;
  categoryScopeSet : bool
}.

(** ** Construction and merge *)

Definition normalizedStringSet (values : list string) (lower : bool) : gset string :=
  list_to_set (List.filter (λ v, negb (v =? "")%string)
                 (map (λ v, let v := TrimSpace v in if lower then ToLower v else v) values)).

Definition newChannelScope (ids kinds allowedCategoryIDs : list string) : channelExclusions :=
  let categories := normalizedStringSet allowedCategoryIDs false in
  mkExclusions (normalizedStringSet ids false) (normalizedStringSet kinds true) categories
               (negb (bool_decide (categories = ∅))).

Definition intersectOptionalSets (left_ : gset string) (leftSet : bool) (right_ : gset string)
    (rightSet : bool) : gset string * bool :=
  if negb leftSet && negb rightSet then (∅, false)
  else if negb leftSet then (right_, true)
  else if negb rightSet then (left_, true)
  else (left_ ∩ right_, true).

Definition merged (e other : channelExclusions) : channelExclusions :=
  let '(categories, set_) := intersectOptionalSets (allowedCategoryIDs e) (categoryScopeSet e)
                               (allowedCategoryIDs other) (categoryScopeSet other) in
  mkExclusions (ids e ∪ ids other) (kinds e ∪ kinds other) categories set_.

Definition configured (e : channelExclusions) : bool :=
  negb (bool_decide (ids e = ∅)) || negb (bool_decide (kinds e = ∅)) || categoryScopeSet e.

(** ** Single tests *)

Definition excludesID (e : channelExclusions) (id : string) : bool := bool_decide (id ∈ ids e).

Definition stageChannelKind : string := "type_13".

Definition excludesKind (e : channelExclusions) (kind : string) : bool :=
  let kind := ToLower (TrimSpace kind) in
  if bool_decide (kind ∈ kinds e) then true
  else if (kind =? "thread_announcement")%string then bool_decide ("announcement"%string ∈ kinds e)
  else if (kind =? "stage")%string || (kind =? stageChannelKind)%string
  then bool_decide ("stage"%string ∈ kinds e) || bool_decide (stageChannelKind ∈ kinds e)
  else false.

(** ** Walks up the ancestry

    The provider's channels and the stored rows are walked by the same two
    loops; a [node] is what the loops read of either. *)

Record node := mkNode { n_ID : string; n_Kind : string; n_ParentID : string }.

Definition discord_node (c : Channel) : node := mkNode (ch_ID c) (channelKind c) (ch_ParentID c).
Definition stored_node (id : string) (r : channel_row) : node :=
  mkNode id (c_kind r) (default ""%string (c_parent r)).

Definition excludes_node (e : channelExclusions) (n : node) : bool :=
  excludesID e (n_ID n) || excludesKind e (n_Kind n) || excludesID e (n_ParentID n).

(** The first loop of [excludes*Channel]; a node met twice ends it. *)
Fixpoint excluded_above (fuel : nat) (e : channelExclusions) (byID : gmap string node)
    (seen : gset string) (current : node) : bool :=
  if excludes_node e current then true
  else if bool_decide (n_ID current ∈ seen) then false
  else match fuel, byID !! n_ParentID current with
       | S fuel, Some parent => excluded_above fuel e byID ({[n_ID current]} ∪ seen) parent
       | _, _ => false
       end.

(** [allows*Category], when a category scope is set. *)
Fixpoint category_above (fuel : nat) (e : channelExclusions) (byID : gmap string node)
    (seen : gset string) (current : node) : bool :=
  if (n_ParentID current =? "")%string then false
  else if bool_decide (n_ParentID current ∈ allowedCategoryIDs e) then true
  else if bool_decide (n_ParentID current ∈ seen) then false
  else match fuel, byID !! n_ParentID current with
       | S fuel, Some parent => category_above fuel e byID ({[n_ParentID current]} ∪ seen) parent
       | _, _ => false
       end.

(** Every turn adds a node of the map to [seen], the first one apart. *)
Definition walk_fuel (byID : gmap string node) : nat := S (size byID).

Definition allowsUnparented (e : channelExclusions) (n : node) : bool :=
  if negb (categoryScopeSet e) then true else bool_decide (n_ID n ∈ allowedCategoryIDs e).

Definition allowsCategory (e : channelExclusions) (byID : gmap string node) (n : node) : bool :=
  if negb (categoryScopeSet e) then true else category_above (walk_fuel byID) e byID ∅ n.

Definition excludes_channel (e : channelExclusions) (byID : gmap string node) (n : node) : bool :=
  if excluded_above (walk_fuel byID) e byID ∅ n then true
  else if (n_ParentID n =? "")%string then negb (allowsUnparented e n)
  else negb (allowsCategory e byID n).

Definition excludesDiscordChannel (e : channelExclusions) (c : Channel)
    (channelByID : gmap string Channel) : bool :=
  excludes_channel e (discord_node <$> channelByID) (discord_node c).

Definition excludesStoredChannel (e : channelExclusions) (id : string) (r : channel_row)
    (channelByID : gmap string channel_row) : bool :=
  excludes_channel e (map_imap (λ id r, Some (stored_node id r)) channelByID) (stored_node id r).

Definition filterExcludedDiscordChannelsWithCatalog (cs : list Channel)
    (channelByID : gmap string Channel) (e : channelExclusions) : list Channel :=
  if negb (configured e) then cs
  else List.filter (λ c, negb (excludesDiscordChannel e c channelByID)) cs.

Definition filterExcludedDiscordChannels (cs : list Channel) (e : channelExclusions) : list Channel :=
  filterExcludedDiscordChannelsWithCatalog cs (channels_by_id cs) e.

(** The stored rows are those of one guild. *)
Definition filterExcludedStoredChannelIDs (channelIDs : list string) (e : channelExclusions)
    (rows : gmap string channel_row) : list string :=
  if negb (configured e) then channelIDs
  else List.filter (λ id, match rows !! id with
                          | Some r => negb (excludesStoredChannel e id r rows)
                          | None => negb (excludesID e id)
                          end) channelIDs.

(** ** The decision (collection_scope.go) *)

Definition row_parent (r : channel_row) : string := default ""%string (c_parent r).

(** The loop of [scope]: a verdict, or the ids of a complete clean ancestry. *)
Fixpoint scope_loop (fuel : nat) (e : channelExclusions) (catalog : channels) (guild : string)
    (seen : gset string) (id : string) (c : channel_row) : string + gset string :=
  if match c_deleted c with Some _ => true | None => false end
     || excludesID e id || excludesID e (row_parent c) || excludesKind e (c_kind c)
  then inl "excluded"%string
  else if bool_decide (id ∈ seen) || (c_guild c =? "")%string || negb (c_guild c =? guild)%string
  then inl "unknown"%string
  else
    let seen := {[id]} ∪ seen in
    if (row_parent c =? "")%string then inr seen
    else match fuel, catalog !! row_parent c with
         | S fuel, Some parent => scope_loop fuel e catalog guild seen (row_parent c) parent
         | _, _ => inl "unknown"%string
         end.

Definition scope (e : channelExclusions) (id : string) (catalog : channels) : string :=
  if excludesID e id then "excluded"
  else match catalog !! id with
       | None => "unknown"
       | Some original =>
           match scope_loop (size catalog) e catalog (c_guild original) ∅ id original with
           | inl verdict => verdict
           | inr seen =>
               let rows := filter (λ '(k, _), k ∈ seen) catalog in
               if excludesStoredChannel e id original rows then "excluded" else "allowed"
           end
       end.

(** [policyID]: the digest (SHA-256 of a JSON text) is a parameter. *)
Section policy.
Context (digest : list string * list string * list string * bool → string).

Definition exclusions_policyID (e : channelExclusions) : string :=
  digest (merge_sort string_le (elements (ids e)), merge_sort string_le (elements (kinds e)),
          merge_sort string_le (elements (allowedCategoryIDs e)), categoryScopeSet e).

(** The decisions that differ from what [catalog] records. *)
Definition scope_changes (e : channelExclusions) (policy : string) (catalog : channels) :
    list (string * scope_decision) :=
  omap (λ '(id, r),
          let state := scope e id catalog in
          if negb (c_scope r =? state)%string || negb (c_policy r =? policy)%string
          then Some (id, ScopeDecision state (c_updated r)) else None)
       (map_to_list catalog).

(** [refreshCollectionScopes]: the catalog is read from [t], the decisions are
    written to [t2], which is what the table holds by then. *)
Definition refreshCollectionScopes (now : Z) (e : channelExclusions) (t t2 : channels) :
    option err * channels :=
  let policy := exclusions_policyID e in
  let changes := scope_changes e policy t in
  match changes with
  | [] => (None, t2)
  | _ => SetChannelScopes now changes policy t2
  end.
End policy.

(** ** Ancestries *)

(** [chain cat id l]: [l] leads from [id] over stored parents to a root. *)
Inductive chain (cat : channels) : string → list string → Prop :=
  | chain_root id r : cat !! id = Some r → row_parent r = ""%string → chain cat id [id]
  | chain_up id r l : cat !! id = Some r → row_parent r ≠ ""%string → chain cat (row_parent r) l →
      chain cat id (id :: l).

Lemma chain_head cat id l : chain cat id l → ∃ r rest, cat !! id = Some r ∧ l = id :: rest.
Proof. destruct 1; eauto. Qed.

Lemma chain_fun cat id l l' : chain cat id l → chain cat id l' → l = l'.
Proof.
  intros H. revert l'. induction H as [id r Hr Hp|id r l Hr Hp H IH]; intros l' H'; inversion H'; subst;
    simplify_eq; try done. f_equal. auto.
Qed.

Lemma chain_suffix cat id l x : chain cat id l → x ∈ l → ∃ l', chain cat x l' ∧ (length l' <= length l)%nat ∧ (x ≠ id → length l' < length l)%nat.
Proof.
  induction 1 as [id r Hr Hp|id r l Hr Hp H IH].
  - intros ->%list_elem_of_singleton. exists [id]. split; [by apply (chain_root _ _ r)|]. split; [done|done].
  - intros [->|Hx]%elem_of_cons.
    + exists (id :: l). split; [by apply (chain_up _ _ r)|]. split; [done|done].
    + destruct (IH Hx) as (l' & ? & ? & _). exists l'. split; [done|]. simpl. split; intros; lia.
Qed.

Lemma chain_NoDup cat id l : chain cat id l → NoDup l.
Proof.
  induction 1 as [id r Hr Hp|id r l Hr Hp H IH]; [apply NoDup_singleton|].
  constructor; [|done]. intros Hin. destruct (chain_suffix _ _ _ _ H Hin) as (l' & Hl' & Hle & _).
  pose proof (chain_fun _ _ _ _ Hl' (chain_up _ _ _ _ Hr Hp H)) as ->. simpl in Hle. lia.
Qed.

Lemma chain_dom cat id l x : chain cat id l → x ∈ l → is_Some (cat !! x).
Proof. intros H Hx. destruct (chain_suffix _ _ _ _ H Hx) as (l' & Hl' & _). destruct Hl'; eauto. Qed.

Lemma chain_length cat id l : chain cat id l → (length l <= size cat)%nat.
Proof.
  intros H. rewrite <- (size_list_to_set (C:=gset string) l) by (by eapply chain_NoDup).
  rewrite <- size_dom. apply subseteq_size. intros x Hx%elem_of_list_to_set.
  apply elem_of_dom. by eapply chain_dom.
Qed.

(** What the loop of [scope] asks of every row of an ancestry. *)
Definition clean_row (e : channelExclusions) (g id : string) (r : channel_row) : Prop :=
  c_deleted r = None ∧ excludesID e id = false ∧ excludesID e (row_parent r) = false
  ∧ excludesKind e (c_kind r) = false ∧ c_guild r = g ∧ g ≠ ""%string.
Definition clean_ancestry (e : channelExclusions) (cat : channels) (g : string) (l : list string) : Prop :=
  ∀ x r, x ∈ l → cat !! x = Some r → clean_row e g x r.

Lemma scope_loop_sound fuel e cat g seen id r s :
  cat !! id = Some r → scope_loop fuel e cat g seen id r = inr s →
  ∃ l, chain cat id l ∧ clean_ancestry e cat g l ∧ s = list_to_set l ∪ seen.
Proof.
  revert seen id r. induction fuel as [|fuel IH]; intros seen id r Hr; simpl;
    (destruct (c_deleted r) eqn:Hd; [done|]); simpl;
    (destruct (excludesID e id) eqn:H1; [done|]); (destruct (excludesID e (row_parent r)) eqn:H2; [done|]);
    (destruct (excludesKind e (c_kind r)) eqn:H3; [done|]); simpl;
    (destruct (bool_decide (id ∈ seen)) eqn:H4; [done|]); simpl;
    (destruct (String.eqb_spec (c_guild r) "") as [|H5]; [done|]); simpl;
    (destruct (String.eqb_spec (c_guild r) g) as [H6|]; [|done]); simpl;
    (assert (clean_row e g id r) as Hc by (split_and!; congruence));
    destruct (String.eqb_spec (row_parent r) "") as [Hp|Hp].
  1,3: intros [= <-]; exists [id]; split_and!; [by apply (chain_root _ _ r)| |set_solver];
    intros x r' ->%list_elem_of_singleton Hr'; simplify_eq; done.
  - done.
  - destruct (cat !! row_parent r) as [rp|] eqn:Hrp; [|done]. intros Hs.
    destruct (IH _ _ _ Hrp Hs) as (l & Hl & Hcl & ->). exists (id :: l).
    split_and!; [by apply (chain_up _ _ r)| |set_solver].
    intros x r' [->|Hx]%elem_of_cons Hr'; [by simplify_eq|by eapply Hcl].
Qed.

Lemma scope_loop_complete fuel e cat g seen id r l :
  cat !! id = Some r → chain cat id l → clean_ancestry e cat g l → (length l <= S fuel)%nat →
  (∀ x, x ∈ l → x ∉ seen) →
  scope_loop fuel e cat g seen id r = inr (list_to_set l ∪ seen).
Proof.
  intros Hr Hl. revert fuel seen r Hr. induction Hl as [id r0 Hr0 Hp|id r0 l Hr0 Hp Hl IH];
    intros fuel seen r Hr Hc Hf Hs; (assert (r0 = r) as -> by congruence).
  - destruct (Hc id r ltac:(left) Hr) as (Hd & H1 & H2 & H3 & H4 & H5).
    destruct fuel; simpl; rewrite Hd, H1, H2, H3, H4; simpl;
      rewrite bool_decide_eq_false_2 by (apply Hs; left); simpl;
      (destruct (String.eqb_spec g ""); [done|]); rewrite String.eqb_refl, Hp; simpl; f_equal; set_solver.
  - destruct (Hc id r ltac:(left) Hr) as (Hd & H1 & H2 & H3 & H4 & H5).
    pose proof (chain_NoDup _ _ _ (chain_up _ _ _ _ Hr Hp Hl)) as [Hnin _]%NoDup_cons.
    destruct (chain_head _ _ _ Hl) as (rp & rest & Hrp & Erest).
    destruct fuel as [|fuel]; [subst l; simpl in Hf; lia|].
    simpl; rewrite Hd, H1, H2, H3, H4; simpl. rewrite bool_decide_eq_false_2 by (apply Hs; left); simpl.
    destruct (String.eqb_spec g ""); [done|]. rewrite String.eqb_refl. simpl.
    destruct (String.eqb_spec (row_parent r) ""); [done|]. rewrite Hrp.
    rewrite (IH fuel ({[id]} ∪ seen) rp Hrp).
    + f_equal. set_solver.
    + intros x rx Hx. apply Hc. by right.
    + simpl in Hf. lia.
    + intros x Hx [->%elem_of_singleton|Hx']%elem_of_union; [done|]. apply (Hs x); [by right|done].
Qed.

(** ** The category condition *)

(** Where a category scope is set: a root must itself be an allowed category,
    any other channel must have one above it. *)
Definition category_ok (e : channelExclusions) (l : list string) : Prop :=
  categoryScopeSet e = true →
  match l with
  | [id] => id ∈ allowedCategoryIDs e
  | _ :: above => ∃ x, x ∈ above ∧ x ∈ allowedCategoryIDs e
  | [] => False
  end.

Section walks.
Context (e : channelExclusions) (cat : channels) (l0 : list string).

(** The rows an ancestry leaves to the last test of [scope]. *)
Definition ancestry_nodes : gmap string node :=
  map_imap (λ id r, Some (stored_node id r))
    (filter (λ '(k, _), k ∈ (list_to_set l0 : gset string)) cat).

Lemma ancestry_nodes_lookup x :
  ancestry_nodes !! x = if decide (x ∈ l0) then stored_node x <$> cat !! x else None.
Proof.
  unfold ancestry_nodes. rewrite map_lookup_imap.
  destruct (filter _ cat !! x) as [r|] eqn:E.
  - apply map_lookup_filter_Some in E as [E Hx]. rewrite elem_of_list_to_set in Hx. simpl.
    rewrite decide_True by done. by rewrite E.
  - simpl. destruct (decide (x ∈ l0)) as [Hx|]; [|done].
    apply map_lookup_filter_None in E as [E|E]; [by rewrite E|].
    destruct (cat !! x) eqn:Ex; [|done]. exfalso. apply (E _ eq_refl). by apply elem_of_list_to_set.
Qed.

Lemma excluded_above_clean g fuel seen id r :
  clean_ancestry e cat g l0 → id ∈ l0 → cat !! id = Some r →
  excluded_above fuel e ancestry_nodes seen (stored_node id r) = false.
Proof.
  intros Hc. revert seen id r. induction fuel as [|fuel IH]; intros seen id r Hid Hr;
    destruct (Hc id r Hid Hr) as (_ & H1 & H2 & H3 & _); simpl; unfold excludes_node; simpl;
    change (default ""%string (c_parent r)) with (row_parent r); rewrite H1, H2, H3; simpl;
    (destruct (bool_decide (id ∈ seen)); [done|]); [done|].
  rewrite ancestry_nodes_lookup. destruct (decide (row_parent r ∈ l0)) as [Hp|]; [|done].
  destruct (cat !! row_parent r) as [rp|] eqn:Hrp; [|done]. simpl. by apply IH.
Qed.

Lemma category_above_spec fuel seen id r l :
  chain cat id l → cat !! id = Some r → (∀ x, x ∈ l → x ∈ l0) → (length l <= S fuel)%nat →
  (∀ x, x ∈ tail l → x ∉ seen) →
  category_above fuel e ancestry_nodes seen (stored_node id r) = true
  ↔ ∃ x, x ∈ tail l ∧ x ∈ allowedCategoryIDs e.
Proof.
  intros Hl. revert fuel seen r. induction Hl as [id r0 Hr0 Hp|id r0 l Hr0 Hp Hl IH];
    intros fuel seen r Hr Hin Hf Hs; (assert (r0 = r) as -> by congruence).
  - unfold row_parent in Hp. destruct fuel; simpl; rewrite Hp; simpl; (split; [done|]);
      intros (x & Hx & _); by apply elem_of_nil in Hx.
  - destruct (chain_head _ _ _ Hl) as (rp & rest & Hrp & ->).
    pose proof (chain_NoDup _ _ _ Hl) as [Hnin _]%NoDup_cons.
    simpl tail. destruct fuel as [|fuel]; [simpl in Hf; lia|]. cbn [category_above stored_node n_ParentID].
    change (default ""%string (c_parent r)) with (row_parent r).
    destruct (String.eqb_spec (row_parent r) ""); [done|].
    destruct (decide (row_parent r ∈ allowedCategoryIDs e)) as [Ha|Ha].
    { rewrite bool_decide_eq_true_2 by done. split; [|done]. intros _. exists (row_parent r). split; [by left|done]. }
    rewrite bool_decide_eq_false_2 by done.
    rewrite (bool_decide_eq_false_2 (row_parent r ∈ seen)) by (apply Hs; left).
    rewrite ancestry_nodes_lookup, decide_True by (apply Hin; right; left). rewrite Hrp. simpl.
    rewrite IH; [|done|by intros x Hx; apply Hin; right|simpl in *; lia|].
    + simpl. split; intros (x & Hx & ?); exists x; (split; [|done]); [by right|].
      apply elem_of_cons in Hx as [->|]; done.
    + simpl. intros x Hx [->%elem_of_singleton|Hx']%elem_of_union; [done|]. apply (Hs x); [by right|done].
Qed.
End walks.

Lemma excludesStored_chain e cat g id r l :
  cat !! id = Some r → chain cat id l → clean_ancestry e cat g l →
  excludesStoredChannel e id r (filter (λ '(k, _), k ∈ (list_to_set l ∪ ∅ : gset string)) cat) = false
  ↔ category_ok e l.
Proof.
  intros Hr Hl Hc. rewrite (union_empty_r_L (list_to_set l)).
  unfold excludesStoredChannel, excludes_channel. fold (ancestry_nodes cat l).
  assert (id ∈ l) as Hid by (destruct (chain_head _ _ _ Hl) as (? & ? & _ & ->); left).
  rewrite (excluded_above_clean e cat l g) by done.
  change (n_ParentID (stored_node id r)) with (row_parent r).
  unfold category_ok, allowsUnparented, allowsCategory.
  destruct (categoryScopeSet e); cbn [negb].
  2: { split; [done|]. intros _. by destruct (_ =? _)%string. }
  assert (size (ancestry_nodes cat l) = length l) as Hsz.
  { rewrite <- (size_list_to_set (C:=gset string) l) by (by eapply chain_NoDup).
    rewrite <- size_dom. f_equal. apply set_eq. intros x.
    rewrite elem_of_dom, ancestry_nodes_lookup, elem_of_list_to_set. case_decide as Hx.
    - split; [done|]. intros _. destruct (chain_dom _ _ _ _ Hl Hx) as [rx ->]. by eexists.
    - split; [by intros [? ?]|done]. }
  destruct (String.eqb_spec (row_parent r) "") as [Hp|Hp].
  - inversion Hl; subst; simplify_eq. simpl n_ID. rewrite negb_false_iff, bool_decide_eq_true. naive_solver.
  - rewrite negb_false_iff. unfold walk_fuel. rewrite Hsz.
    rewrite (category_above_spec e cat l _ ∅ id r l Hl Hr); [|done|lia|set_solver].
    inversion Hl; subst; simplify_eq. simpl.
    destruct (chain_head _ _ _ H1) as (rp & rest & _ & ->). naive_solver.
Qed.

Lemma scope_loop_verdict fuel e cat g seen id r v :
  scope_loop fuel e cat g seen id r = inl v → v = "excluded"%string ∨ v = "unknown"%string.
Proof.
  revert seen id r. induction fuel as [|fuel IH]; intros seen id r; simpl;
    (destruct (_ || _); [intros [= <-]; by left|]); (destruct (_ || _); [intros [= <-]; by right|]);
    (destruct (_ =? _)%string; [done|]); [intros [= <-]; by right|].
  destruct (cat !! row_parent r); [apply IH|intros [= <-]; by right].
Qed.

(** ** Decisions that are written *)

Lemma lookup_set_scope_row now policy id d t x :
  set_scope_row now policy id d t !! x
  = if decide (x = id) then
      (λ r, if (c_updated r =? d_revision d) && (negb (c_scope r =? d_state d)%string || negb (c_policy r =? policy)%string)
            then ChannelRow (c_guild r) (c_parent r) (c_kind r) (c_deleted r) (c_source r) (d_state d) policy now
            else r) <$> t !! x
    else t !! x.
Proof.
  unfold set_scope_row. destruct (decide (x = id)) as [->|Hne].
  - destruct (t !! id) as [r|] eqn:E; [|done]. simpl. case_match; [by rewrite lookup_insert_eq|done].
  - destruct (t !! id) as [r|]; [|done]. case_match; [by rewrite lookup_insert_ne|done].
Qed.

(** The row of [x] after the update with decision [d]. *)
Definition decided_row (now : Z) (policy : string) (d : scope_decision) (r : channel_row) : channel_row :=
  if (c_updated r =? d_revision d) && (negb (c_scope r =? d_state d)%string || negb (c_policy r =? policy)%string)
  then ChannelRow (c_guild r) (c_parent r) (c_kind r) (c_deleted r) (c_source r) (d_state d) policy now
  else r.

Lemma set_scopes_spec now policy changes t :
  NoDup (changes.*1) → (∀ id d, (id, d) ∈ changes → valid_scope (d_state d) = true) →
  ∃ t', set_scopes now policy changes t = (None, t')
        ∧ ∀ x, t' !! x = match list_to_map (M := gmap string scope_decision) changes !! x with
                         | Some d => decided_row now policy d <$> t !! x
                         | None => t !! x
                         end.
Proof.
  revert t. induction changes as [|[id d] rest IH]; intros t Hnd Hv; simpl.
  { exists t. split; [done|]. intros x. done. }
  rewrite (Hv id d) by left. simpl. apply NoDup_cons in Hnd as [Hnin Hnd].
  destruct (IH (set_scope_row now policy id d t) Hnd) as (t' & -> & Hl); [intros; apply (Hv id0); by right|].
  exists t'. split; [done|]. intros x. rewrite Hl, lookup_set_scope_row.
  destruct (decide (x = id)) as [->|Hne].
  - rewrite lookup_insert_eq. rewrite not_elem_of_list_to_map_1 by done. done.
  - by rewrite lookup_insert_ne.
Qed.

Lemma scope_valid e id cat : valid_scope (scope e id cat) = true.
Proof.
  unfold scope. destruct (excludesID e id); [done|]. destruct (cat !! id) as [r|]; [|done].
  destruct (scope_loop _ _ _ _ _ _ _) eqn:E; [|by case_match].
  by destruct (scope_loop_verdict _ _ _ _ _ _ _ _ E) as [->| ->].
Qed.

Lemma elem_of_scope_changes e policy cat id d :
  (id, d) ∈ scope_changes e policy cat ↔
  ∃ r, cat !! id = Some r ∧ d = ScopeDecision (scope e id cat) (c_updated r)
       ∧ (c_scope r ≠ scope e id cat ∨ c_policy r ≠ policy).
Proof.
  unfold scope_changes. rewrite list_elem_of_omap. split.
  - intros ([x r] & Hin%elem_of_map_to_list & H). case_match eqn:E; [|done]. injection H as -> <-.
    exists r. split_and!; [done|done|]. propify. destruct E as [E|E]; propify; auto.
  - intros (r & Hr & -> & Hne). exists (id, r). split; [by apply elem_of_map_to_list|].
    destruct (String.eqb_spec (c_scope r) (scope e id cat)); simpl; [|done].
    destruct (String.eqb_spec (c_policy r) policy); [|done]. naive_solver.
Qed.

Lemma scope_changes_NoDup e policy cat : NoDup (scope_changes e policy cat).*1.
Proof.
  unfold scope_changes. pose proof (NoDup_fst_map_to_list cat) as Hnd.
  induction (map_to_list cat) as [|[id r] l IH]; simpl; [constructor|].
  simpl in Hnd. apply NoDup_cons in Hnd as [Hnin Hnd]. destruct (_ || _); [|by apply IH].
  simpl. constructor; [|by apply IH]. intros Hin. apply Hnin.
  apply list_elem_of_fmap in Hin as ([x d] & E & Hin). simpl in E. subst x.
  apply list_elem_of_omap in Hin as ([y ry] & Hin & Hy).
  case_match; [|done]. injection Hy as -> _. apply list_elem_of_fmap. by exists (id, ry).
Qed.

(** ** Properties *)

(** C27: the collection scope of a stored channel is "allowed" exactly when its
    stored ancestry reaches a root, every row of it exists, is not deleted, is
    not excluded by id, by its parent's id or by kind, and belongs to the
    channel's own non-empty guild, and the category condition holds. Missing,
    cyclic or cross-guild ancestry never yields "allowed", and the only other
    decisions are "excluded" and "unknown". *)
Theorem scope_allowed_spec (e : channelExclusions) (id : string) (cat : channels) :
  (scope e id cat = "allowed"%string
   ↔ ∃ g l, chain cat id l ∧ clean_ancestry e cat g l ∧ category_ok e l)
  ∧ valid_scope (scope e id cat) = true.
Proof.
  split; [|apply scope_valid]. unfold scope. split.
  - destruct (excludesID e id) eqn:Hid; [done|]. destruct (cat !! id) as [r|] eqn:Hr; [|done].
    destruct (scope_loop _ _ _ _ _ _ _) as [v|s] eqn:E.
    { intros ->. by destruct (scope_loop_verdict _ _ _ _ _ _ _ _ E). }
    destruct (scope_loop_sound _ _ _ _ _ _ _ _ Hr E) as (l & Hl & Hc & ->).
    destruct (excludesStoredChannel _ _ _ _) eqn:Hx; [done|]. intros _.
    exists (c_guild r), l. split_and!; [done|done|]. by eapply excludesStored_chain.
  - intros (g & l & Hl & Hc & Hcat).
    destruct (chain_head _ _ _ Hl) as (r & rest & Hr & El).
    destruct (Hc id r ltac:(subst; left) Hr) as (_ & Hid & _ & _ & Hg & _). rewrite Hid, Hr, Hg.
    rewrite (scope_loop_complete (size cat) e cat g ∅ id r l Hr Hl Hc); [| |set_solver].
    2: { pose proof (chain_length _ _ _ Hl). lia. }
    by rewrite (proj2 (excludesStored_chain e cat g id r l Hr Hl Hc) Hcat).
Qed.

(** refreshing the scopes persists the decisions, and only on rows that did
    not change since the catalog was read. After a refresh a row that still is
    what was read carries the decision and the policy, so the admission check
    grants it exactly when [scope] says "allowed"; a row with another revision
    is left alone; no row appears, disappears or changes in any other column. *)
Theorem refresh_persists_scopes digest (now : Z) (e : channelExclusions) (t t2 : channels) :
  let policy := exclusions_policyID digest e in
  policy ≠ ""%string →
  ∃ t', refreshCollectionScopes digest now e t t2 = (None, t')
  ∧ dom t' = dom t2
  ∧ (∀ id r, t !! id = Some r → t2 !! id = Some r →
       (c_scope <$> t' !! id) = Some (scope e id t) ∧ (c_policy <$> t' !! id) = Some policy
       ∧ (ChannelCollectionAdmitted t' id policy = true ↔ scope e id t = "allowed"%string))
  ∧ (∀ id r2, t2 !! id = Some r2 → (∀ r, t !! id = Some r → c_updated r ≠ c_updated r2) → t' !! id = Some r2).
Proof.
  intros policy Hpol.
  destruct (set_scopes_spec now policy (scope_changes e policy t) t2) as (t' & Hset & Hl).
  { apply scope_changes_NoDup. }
  { intros id d (r & _ & -> & _)%elem_of_scope_changes. apply scope_valid. }
  exists t'. split.
  { unfold refreshCollectionScopes. fold policy. unfold SetChannelScopes. rewrite Hset.
    destruct (scope_changes e policy t); [|done]. simpl in Hset. congruence. }
  assert (∀ id d, list_to_map (M := gmap string scope_decision) (scope_changes e policy t) !! id = Some d ↔
    ∃ r, t !! id = Some r ∧ d = ScopeDecision (scope e id t) (c_updated r)
         ∧ (c_scope r ≠ scope e id t ∨ c_policy r ≠ policy)) as Hch.
  { intros id d. rewrite <- elem_of_scope_changes. symmetry. apply elem_of_list_to_map, scope_changes_NoDup. }
  split_and!.
  - apply set_eq. intros x. rewrite !elem_of_dom, Hl. destruct (list_to_map (M := gmap string scope_decision) _ !! x); [|done]. by rewrite fmap_is_Some.
  - intros id r Hr Hr2.
    assert (∃ r', t' !! id = Some r' ∧ c_scope r' = scope e id t ∧ c_policy r' = policy ∧ c_deleted r' = c_deleted r) as (r' & Hr' & Hs & Hp & Hd).
    { rewrite Hl, Hr2. destruct (list_to_map (M := gmap string scope_decision) _ !! id) as [d|] eqn:E.
      - apply Hch in E as (r1 & Hr1 & -> & Hne). assert (r1 = r) as -> by congruence. eexists. split; [done|].
        unfold decided_row. simpl. rewrite Z.eqb_refl. simpl.
        destruct (String.eqb_spec (c_scope r) (scope e id t)); simpl; [|done].
        destruct (String.eqb_spec (c_policy r) policy); [|done]. naive_solver.
      - exists r. split; [done|]. destruct (String.eqb_spec (c_scope r) (scope e id t)) as [|Hne];
          [destruct (String.eqb_spec (c_policy r) policy) as [|Hne]; [done|]|];
          (exfalso; apply (not_eq_None_Some (list_to_map (M := gmap string scope_decision) (scope_changes e policy t) !! id));
           [eexists; apply Hch; eauto|done]). }
    rewrite Hr'. simpl. split_and!; [congruence|congruence|].
    unfold ChannelCollectionAdmitted, ChannelCollectionAllowed. destruct (String.eqb_spec policy ""); [done|].
    cbn [negb]. rewrite Hr', Hs, Hp, Hd, String.eqb_refl, andb_true_r.
    split; [intros H; propify; done|]. intros Ha. rewrite Ha.
    destruct (proj1 (proj1 (scope_allowed_spec e id t)) Ha) as (g & l & Hch' & Hc & _).
    destruct (chain_head _ _ _ Hch') as (? & ? & ? & ->). destruct (Hc id r ltac:(left) Hr) as (-> & _). done.
  - intros id r2 Hr2 Hne. rewrite Hl, Hr2. destruct (list_to_map (M := gmap string scope_decision) _ !! id) as [d|] eqn:E; [|done].
    apply Hch in E as (r1 & Hr1 & -> & _). simpl. unfold decided_row. simpl.
    destruct (Z.eqb_spec (c_updated r2) (c_updated r1)); [|done]. by destruct (Hne r1 Hr1).
Qed.

(** ** Merging exclusions *)

(** [e] is at most as strict as [e']: every exclusion of [e] is one of [e'],
    and a category scope of [e] is narrowed by [e']. *)
Definition narrows (e e' : channelExclusions) : Prop :=
  ids e ⊆ ids e' ∧ kinds e ⊆ kinds e'
  ∧ (categoryScopeSet e = true → categoryScopeSet e' = true ∧ allowedCategoryIDs e' ⊆ allowedCategoryIDs e).

Lemma merged_narrows e o : narrows e (merged e o) ∧ narrows o (merged e o).
Proof.
  unfold narrows, merged, intersectOptionalSets.
  destruct e as [i1 k1 c1 [|]], o as [i2 k2 c2 [|]]; simpl; split_and!; try set_solver; intros; split; set_solver.
Qed.

Lemma excludesID_narrows e e' id : narrows e e' → excludesID e id = true → excludesID e' id = true.
Proof. intros (H & _). unfold excludesID. rewrite !bool_decide_eq_true. set_solver. Qed.

Lemma excludesKind_narrows e e' k : narrows e e' → excludesKind e k = true → excludesKind e' k = true.
Proof.
  intros (_ & H & _). unfold excludesKind. cbv zeta.
  set (k' := ToLower (TrimSpace k)).
  assert (∀ x, bool_decide (x ∈ kinds e) = true → bool_decide (x ∈ kinds e') = true) as Hb.
  { intros x. rewrite !bool_decide_eq_true. set_solver. }
  destruct (bool_decide (k' ∈ kinds e)) eqn:E; [by rewrite (Hb _ E)|].
  destruct (bool_decide (k' ∈ kinds e')); [done|]. destruct (_ =? _)%string; [apply Hb|].
  destruct (_ || _); [|done]. rewrite !orb_true_iff. intros [?|?]; [left|right]; by apply Hb.
Qed.

Lemma excludes_node_narrows e e' n : narrows e e' → excludes_node e n = true → excludes_node e' n = true.
Proof.
  intros H. unfold excludes_node. rewrite !orb_true_iff.
  intros [[?|?]|?]; [left; left|left; right|right]; eauto using excludesID_narrows, excludesKind_narrows.
Qed.

Lemma excluded_above_narrows fuel e e' byID seen n :
  narrows e e' → excluded_above fuel e byID seen n = true → excluded_above fuel e' byID seen n = true.
Proof.
  intros H. revert seen n. induction fuel as [|fuel IH]; intros seen n; simpl;
    (destruct (excludes_node e n) eqn:E; [by rewrite (excludes_node_narrows _ _ _ H E)|]);
    (destruct (bool_decide (n_ID n ∈ seen)); [done|]); [done|].
  destruct (byID !! n_ParentID n) as [p|]; [|done]. intros Hp. rewrite (IH _ _ Hp). by destruct (excludes_node e' n).
Qed.

Lemma category_above_narrows fuel e e' byID seen n :
  allowedCategoryIDs e' ⊆ allowedCategoryIDs e →
  category_above fuel e' byID seen n = true → category_above fuel e byID seen n = true.
Proof.
  intros H. revert seen n. induction fuel as [|fuel IH]; intros seen n; simpl;
    (destruct (_ =? _)%string; [done|]);
    (destruct (decide (n_ParentID n ∈ allowedCategoryIDs e)) as [Hin|Hn]; [by rewrite (bool_decide_eq_true_2 _ Hin)|]);
    (rewrite (bool_decide_eq_false_2 (n_ParentID n ∈ allowedCategoryIDs e')) by set_solver);
    (rewrite (bool_decide_eq_false_2 (n_ParentID n ∈ allowedCategoryIDs e)) by done);
    (destruct (bool_decide (n_ParentID n ∈ seen)); [done|]); [done|].
  destruct (byID !! n_ParentID n) as [p|]; [apply IH|done].
Qed.

Lemma excludes_channel_narrows e e' byID n :
  narrows e e' → excludes_channel e byID n = true → excludes_channel e' byID n = true.
Proof.
  intros H. unfold excludes_channel.
  destruct (excluded_above _ e _ _ n) eqn:E; [by rewrite (excluded_above_narrows _ _ _ _ _ _ H E)|].
  destruct (excluded_above _ e' _ _ n); [done|].
  destruct H as (_ & _ & Hcat). unfold allowsUnparented, allowsCategory.
  destruct (categoryScopeSet e); [|by destruct (_ =? _)%string]. destruct (Hcat eq_refl) as [-> Hsub]. cbn [negb].
  destruct (_ =? _)%string; rewrite !negb_true_iff; [rewrite !bool_decide_eq_false; set_solver|].
  intros Hf. destruct (category_above _ e' _ _ n) eqn:E'; [|done].
  by rewrite (category_above_narrows _ _ _ _ _ _ Hsub E') in Hf.
Qed.

(** merging exclusions can only narrow the collection: a channel of the
    provider's or of the stored catalog excluded by the configuration or by the
    options of a run is excluded by their merge, so no option re-admits a
    channel the configuration excludes. *)
Theorem merged_only_narrows (e o : channelExclusions) (c : Channel) (channelByID : gmap string Channel)
    (id : string) (r : channel_row) (rows : gmap string channel_row) :
  (excludesDiscordChannel e c channelByID = true ∨ excludesDiscordChannel o c channelByID = true →
   excludesDiscordChannel (merged e o) c channelByID = true)
  ∧ (excludesStoredChannel e id r rows = true ∨ excludesStoredChannel o id r rows = true →
     excludesStoredChannel (merged e o) id r rows = true).
Proof.
  destruct (merged_narrows e o) as [He Ho]. unfold excludesDiscordChannel, excludesStoredChannel.
  split; (intros [?|?]; [by apply (excludes_channel_narrows _ _ _ _ He)|by apply (excludes_channel_narrows _ _ _ _ Ho)]).
Qed.

(** ** Witnesses *)

Definition only_category : channelExclusions := newChannelScope [" 5 "]%string ["Voice"]%string ["1"]%string.
Definition small_catalog : channels :=
  {["1" := ChannelRow "9" None "category" None None "unknown" "" 4;
    "2" := ChannelRow "9" (Some "1"%string) "text" None None "unknown" "" 4;
    "3" := ChannelRow "9" (Some "2"%string) "thread_public" None None "unknown" "" 4;
    "4" := ChannelRow "9" (Some "4"%string) "text" None None "unknown" "" 4]}.

Example scope_thread : scope only_category "3" small_catalog = "allowed"%string.
Proof. vm_compute. reflexivity. Qed.
Example scope_cycle : scope only_category "4" small_catalog = "unknown"%string.
Proof. vm_compute. reflexivity. Qed.

Lemma refresh_persists_scopes_witness :
  ∃ t', refreshCollectionScopes (λ _, "p"%string) 7 only_category small_catalog small_catalog = (None, t')
        ∧ ChannelCollectionAdmitted t' "3" "p" = true.
Proof.
  destruct (refresh_persists_scopes (λ _, "p"%string) 7 only_category small_catalog small_catalog ltac:(discriminate))
    as (t' & E & _ & H & _).
  exists t'. split; [exact E|]. destruct (H "3"%string _ eq_refl eq_refl) as (_ & _ & Hadm).
  apply Hadm. vm_compute. reflexivity.
Defined.

Lemma merged_only_narrows_witness :
  excludesStoredChannel (merged only_category (newChannelScope ["2"] [] []))%string "3"
    (ChannelRow "9" (Some "2"%string) "thread_public" None None "unknown" "" 4) small_catalog = true.
Proof.
  apply (merged_only_narrows only_category (newChannelScope ["2"] [] [])%string (plain_channel "" "" "" 0 "" "") ∅).
  right. vm_compute. reflexivity.
Defined.
