(* ===== verification/GoText.v ===== *)
(** * Text of times and keys

    What the store's writers use of Go's packages time, strconv and hash/fnv:
    [time.Parse] over lists of layouts as a parameter with the one law the
    writers rely on, [strconv.ParseInt], the FNV-1a row ids of the search index
    (internal/store/store.go), and facts on [strings.TrimSpace]. *)
From S2P Require Import Prelude Snowflake Decimal GoTime.
Local Open Scope Z_scope.

(** ** Trimming is idempotent *)

(** Whether the string starts with a white-space rune. *)
Definition starts_space (s : string) : bool :=
  match s with
  | String a (String b (String c _)) => space1 (byte_of a) || space2 (byte_of a) (byte_of b) || space3 (byte_of a) (byte_of b) (byte_of c)
  | String a (String b EmptyString) => space1 (byte_of a) || space2 (byte_of a) (byte_of b)
  | String a EmptyString => space1 (byte_of a)
  | EmptyString => false
  end.

Definition starts_space_rev (s : string) : bool :=
  match s with
  | String c (String b (String a _)) => space1 (byte_of c) || space2 (byte_of b) (byte_of c) || space3 (byte_of a) (byte_of b) (byte_of c)
  | String c (String b EmptyString) => space1 (byte_of c) || space2 (byte_of b) (byte_of c)
  | String c EmptyString => space1 (byte_of c)
  | EmptyString => false
  end.

Ltac rewrite_tests := repeat match goal with H : _ = false |- _ => rewrite H end.

Lemma trim_left_id s : starts_space s = false → trim_left s = s.
Proof. destruct s as [|? [|? [|? ?]]]; simpl; intros; propify; rewrite_tests; done. Qed.
Lemma trim_left_rev_id s : starts_space_rev s = false → trim_left_rev s = s.
Proof. destruct s as [|? [|? [|? ?]]]; simpl; intros; propify; rewrite_tests; done. Qed.

(** A string that starts with a space loses its first rune. *)
Ltac cut_rune p s' := exists p, s'; split_and!; [done|done|simpl; rewrite_tests; repeat match goal with H : _ = true |- _ => rewrite H end; reflexivity].

Lemma trim_left_step s :
  starts_space s = true → ∃ p s', p ≠ ""%string ∧ s = (p ++ s')%string ∧ trim_left s = trim_left s'.
Proof.
  destruct s as [|a [|b [|c t]]]; simpl starts_space; [done|..]; intros H.
  - cut_rune (String a "") ""%string.
  - destruct (space1 (byte_of a)) eqn:E1; [cut_rune (String a "") (String b "")|].
    simpl in H. cut_rune (String a (String b "")) ""%string.
  - destruct (space1 (byte_of a)) eqn:E1; [cut_rune (String a "") (String b (String c t))|].
    destruct (space2 (byte_of a) (byte_of b)) eqn:E2; [cut_rune (String a (String b "")) (String c t)|].
    simpl in H. cut_rune (String a (String b (String c ""))) t.
Qed.

Lemma trim_left_rev_step s :
  starts_space_rev s = true → ∃ p s', p ≠ ""%string ∧ s = (p ++ s')%string ∧ trim_left_rev s = trim_left_rev s'.
Proof.
  destruct s as [|a [|b [|c t]]]; simpl starts_space_rev; [done|..]; intros H.
  - cut_rune (String a "") ""%string.
  - destruct (space1 (byte_of a)) eqn:E1; [cut_rune (String a "") (String b "")|].
    simpl in H. cut_rune (String a (String b "")) ""%string.
  - destruct (space1 (byte_of a)) eqn:E1; [cut_rune (String a "") (String b (String c t))|].
    destruct (space2 (byte_of b) (byte_of a)) eqn:E2; [cut_rune (String a (String b "")) (String c t)|].
    simpl in H. cut_rune (String a (String b (String c ""))) t.
Qed.

Lemma nonempty_length (p : string) : p ≠ ""%string → (0 < String.length p)%nat.
Proof. destruct p; simpl; [done|lia]. Qed.

(** A trim removes a prefix, and what is left starts with no space. *)
Lemma trim_left_spec s : ∃ p, s = (p ++ trim_left s)%string ∧ starts_space (trim_left s) = false.
Proof.
  remember (String.length s) as n eqn:Hn. revert s Hn.
  induction n as [n IH] using lt_wf_ind; intros s ->.
  destruct (starts_space s) eqn:E.
  - destruct (trim_left_step s E) as (p & s' & Hp%nonempty_length & Hs & Ht).
    destruct (IH (String.length s')) with (s := s') as (q & Hq & Hf); [|done|].
    { rewrite Hs, length_append. lia. }
    exists (p ++ q)%string. rewrite Ht. split; [|done]. by rewrite append_assoc, <- Hq.
  - exists ""%string. by rewrite trim_left_id.
Qed.

Lemma trim_left_rev_spec s : ∃ p, s = (p ++ trim_left_rev s)%string ∧ starts_space_rev (trim_left_rev s) = false.
Proof.
  remember (String.length s) as n eqn:Hn. revert s Hn.
  induction n as [n IH] using lt_wf_ind; intros s ->.
  destruct (starts_space_rev s) eqn:E.
  - destruct (trim_left_rev_step s E) as (p & s' & Hp%nonempty_length & Hs & Ht).
    destruct (IH (String.length s')) with (s := s') as (q & Hq & Hf); [|done|].
    { rewrite Hs, length_append. lia. }
    exists (p ++ q)%string. rewrite Ht. split; [|done]. by rewrite append_assoc, <- Hq.
  - exists ""%string. by rewrite trim_left_rev_id.
Qed.

(** Cutting the end of a string that starts with no space leaves none. *)
Lemma starts_space_prefix s t : starts_space (s ++ t) = false → starts_space s = false.
Proof.
  destruct s as [|a [|b [|c s]]]; simpl; try done.
  - destruct t as [|b [|c t]]; simpl; intros; propify; done.
  - destruct t as [|c t]; simpl; intros; propify; rewrite_tests; done.
Qed.

Lemma rev_string_app s acc : rev_string s acc = (rev_string s "" ++ acc)%string.
Proof.
  revert acc. induction s as [|a s IH]; intros acc; [done|]. simpl.
  rewrite IH, (IH (String a "")), append_assoc. done.
Qed.

Lemma rev_string_append s t : rev_string (s ++ t) "" = (rev_string t "" ++ rev_string s "")%string.
Proof.
  induction s as [|a s IH]; simpl; [by rewrite append_nil_r|].
  rewrite rev_string_app, IH, (rev_string_app s (String a "")), append_assoc. done.
Qed.

Lemma rev_string_involutive s : rev_string (rev_string s "") "" = s.
Proof.
  induction s as [|a s IH]; [done|]. simpl. rewrite (rev_string_app s), rev_string_append, IH. done.
Qed.

Lemma TrimSpace_id s : starts_space s = false → starts_space_rev (rev_string s "") = false → TrimSpace s = s.
Proof. intros H1 H2. unfold TrimSpace. by rewrite trim_left_id, trim_left_rev_id, rev_string_involutive. Qed.

Lemma TrimSpace_idem s : TrimSpace (TrimSpace s) = TrimSpace s.
Proof.
  apply TrimSpace_id; unfold TrimSpace; [|rewrite rev_string_involutive].
  - destruct (trim_left_spec s) as (_ & _ & H).
    destruct (trim_left_rev_spec (rev_string (trim_left s) "")) as (p & Hp & _).
    apply (f_equal (λ x, rev_string x "")) in Hp. cbv beta in Hp.
    rewrite rev_string_involutive, rev_string_append in Hp.
    rewrite Hp in H. by apply starts_space_prefix in H.
  - by destruct (trim_left_rev_spec (rev_string (trim_left s) "")) as (_ & _ & H).
Qed.

(** ** Instants as text *)

Definition plain_byte (c : ascii) : bool := (33 <=? byte_of c) && (byte_of c <? 128).

Lemma plain_starts a s : plain_byte a = true → starts_space (String a s) = false.
Proof.
  unfold plain_byte. intros; propify. destruct s as [|b [|c s]]; simpl; unfold space1, space2, space3; lia.
Qed.
Lemma plain_starts_rev a s : plain_byte a = true → starts_space_rev (String a s) = false.
Proof.
  unfold plain_byte. intros; propify. destruct s as [|b [|c s]]; simpl; unfold space1, space2, space3; lia.
Qed.

Lemma TrimSpace_plain a s z :
  plain_byte a = true → plain_byte z = true → TrimSpace (String a s ++ String z "") = (String a s ++ String z "")%string.
Proof.
  intros Ha Hz. apply TrimSpace_id; [by apply plain_starts|].
  rewrite rev_string_append. by apply plain_starts_rev.
Qed.

Definition layoutRFC3339Nano : string := "2006-01-02T15:04:05.999999999Z07:00".
Definition layoutRFC3339 : string := "2006-01-02T15:04:05Z07:00".
Definition layoutDateTime : string := "2006-01-02 15:04:05".
(** [timeLayout] itself, of internal/store/store.go. *)
Definition layoutStore : string := "2006-01-02T15:04:05.000000000Z07:00".

(** [time.Parse(layout, text)], the instant or an error. *)
Class TimeParse := Parse : string → string → option Z.

(** Reading one of the writers' own texts gives back its instant, or fails
    when the year is not one of four digits. *)
Class TimeParseLaws `{TimeParse} := {
  Parse_written l t t' : Parse l (timeLayout t) = Some t' → t' = t
}.

Fixpoint first_parse `{TimeParse} (layouts : list string) (raw : string) : option Z :=
  match layouts with
  | [] => None
  | l :: rest => match Parse l raw with Some t => Some t | None => first_parse rest raw end
  end.

Definition normalizeStoredTime `{TimeParse} (raw : string) : string :=
  let raw := TrimSpace raw in
  if (raw =? "")%string then ""
  else match first_parse [layoutRFC3339Nano; layoutRFC3339; layoutDateTime] raw with
       | Some t => timeLayout t
       | None => raw
       end.

#[global] Arguments normalizeStoredTime {_} raw : simpl never.

(** The zero [time.Time] is the first instant of year 1. *)
Definition zeroTime : Z := -62135596800 * second.

Definition parseTime `{TimeParse} (value : string) : Z :=
  if (value =? "")%string then zeroTime
  else default zeroTime (first_parse [layoutStore; layoutRFC3339Nano; layoutRFC3339] value).

(** [t.UTC().Truncate(time.Millisecond)]: truncation counts from the zero time,
    a whole number of milliseconds before the epoch. *)
Definition millisecond : Z := 1000000.
Definition truncate_ms (t : Z) : Z := t - t mod millisecond.

Definition normalizeProviderTime `{TimeParse} (raw : string) : string :=
  let raw := TrimSpace raw in
  if (raw =? "")%string then ""
  else match Parse layoutRFC3339Nano raw with
       | Some t => if t =? zeroTime then raw else RFC3339Nano (truncate_ms t)
       | None => raw
       end.

#[global] Arguments parseTime {_} value : simpl never.
#[global] Arguments normalizeProviderTime {_} raw : simpl never.

Lemma padded_plain w n acc : ∃ s, padded w n acc = (s ++ acc)%string ∧ String.length s = w ∧ ∀ c t, s = String c t → plain_byte c = true.
Proof.
  revert n acc. induction w as [|w IH]; intros n acc; simpl; [by exists ""%string|].
  destruct (IH (n / 10) (String (digit n) acc)) as (s & Hs & Hl & Hp).
  exists (s ++ String (digit n) "")%string. rewrite Hs, append_assoc. split_and!; [done|rewrite length_append; simpl; lia|].
  intros c t. destruct s as [|c' s]; simpl; [|intros [= -> _]; by eapply Hp].
  intros [= <- _]. unfold plain_byte, digit, byte_of.
  pose proof (Z.mod_pos_bound n 10 ltac:(lia)).
  rewrite N_ascii_embedding by lia. rewrite Z2N.id by lia. lia.
Qed.

Lemma date_time_plain t : ∃ c s, date_time t = String c s ∧ plain_byte c = true.
Proof.
  unfold date_time. destruct (civil_from_days (t / day)) as [[y m] d]. cbv zeta.
  assert (∃ c s, year_text y = String c s ∧ plain_byte c = true) as (c & s & -> & Hp); [|by eexists c, _].
  unfold year_text. destruct (y <? 0); [by exists "-"%char, (pad 4 (- y))|].
  assert (∀ w, ∃ c s, pad (S w) y = String c s ∧ plain_byte c = true) as Hpad.
  { intros w. destruct (padded_plain (S w) y "") as (s & Hs & Hl & Hp). unfold pad. rewrite Hs, append_nil_r.
    destruct s as [|c s]; [simpl in Hl; lia|]. exists c, s. split; [done|]. by eapply Hp. }
  destruct (y <? 10000); [apply Hpad|].
  replace (Nat.max 5 (String.length (pretty y))) with (S (Nat.max 5 (String.length (pretty y)) - 1)) by lia. apply Hpad.
Qed.

Lemma timeLayout_plain t : ∃ c s, timeLayout t = (String c s ++ String "Z" "")%string ∧ plain_byte c = true.
Proof.
  unfold timeLayout. destruct (date_time_plain t) as (c & s & -> & Hp).
  generalize (pad 9 (t mod second)) as f. intros f. exists c, (s ++ "." ++ f)%string. split; [|exact Hp]. simpl. by rewrite append_assoc.
Qed.

Lemma RFC3339Nano_plain t : ∃ c s, RFC3339Nano t = (String c s ++ String "Z" "")%string ∧ plain_byte c = true.
Proof.
  unfold RFC3339Nano. destruct (date_time_plain t) as (c & s & -> & Hp). cbv zeta.
  generalize (drop_zeros (pad 9 (t mod second))) as f. intros f.
  exists c, (s ++ (if (f =? "")%string then "" else "." ++ f))%string. split; [|exact Hp]. simpl. by rewrite append_assoc.
Qed.

Lemma TrimSpace_RFC3339Nano t : TrimSpace (RFC3339Nano t) = RFC3339Nano t.
Proof. destruct (RFC3339Nano_plain t) as (c & s & -> & Hc). by apply TrimSpace_plain. Qed.

Lemma RFC3339Nano_nonempty t : (RFC3339Nano t =? "")%string = false.
Proof. by destruct (RFC3339Nano_plain t) as (c & s & -> & Hc). Qed.

Section times.
Context `{TimeParseLaws}.

Lemma TrimSpace_timeLayout t : TrimSpace (timeLayout t) = timeLayout t.
Proof. destruct (timeLayout_plain t) as (c & s & -> & Hc). by apply TrimSpace_plain. Qed.

Lemma timeLayout_nonempty t : (timeLayout t =? "")%string = false.
Proof. by destruct (timeLayout_plain t) as (c & s & -> & Hc). Qed.

Lemma first_parse_written ls t t' : first_parse ls (timeLayout t) = Some t' → t' = t.
Proof.
  induction ls as [|l ls IH]; simpl; [done|]. destruct (Parse l (timeLayout t)) eqn:E; [|done].
  intros [= <-]. by eapply Parse_written.
Qed.

Lemma normalizeStoredTime_timeLayout t : normalizeStoredTime (timeLayout t) = timeLayout t.
Proof.
  unfold normalizeStoredTime. rewrite TrimSpace_timeLayout, timeLayout_nonempty.
  destruct (first_parse _ (timeLayout t)) eqn:E; [|done]. apply first_parse_written in E. by subst.
Qed.

Lemma normalizeStoredTime_idem raw : normalizeStoredTime (normalizeStoredTime raw) = normalizeStoredTime raw.
Proof.
  unfold normalizeStoredTime at 2 3. cbv zeta.
  destruct (TrimSpace raw =? "")%string eqn:E; [done|].
  destruct (first_parse _ (TrimSpace raw)) eqn:Ep; [apply normalizeStoredTime_timeLayout|].
  unfold normalizeStoredTime. by rewrite TrimSpace_idem, E, Ep.
Qed.
End times.

(** ** Row ids of the search index *)

(** [fnv.New64a]: 64-bit FNV-1a. *)
Fixpoint fnv64a (h : Z) (s : string) : Z :=
  match s with
  | EmptyString => h
  | String c t => fnv64a (Z.lxor h (byte_of c) * 1099511628211 mod 2 ^ 64) t
  end.
Definition hash_row_id (s : string) : Z :=
  let rowID := Z.land (fnv64a 14695981039346656037 s) (2 ^ 63 - 1) in
  if rowID =? 0 then 1 else rowID.

Definition MessageFTSRowID (messageID : string) : option Z :=
  if (messageID =? "")%string then None
  else match ParseInt messageID with
       | Some rowID => if 0 <? rowID then Some rowID else Some (hash_row_id messageID)
       | None => Some (hash_row_id messageID)
       end.

Example fnv64a_a : fnv64a 14695981039346656037 "a" = 12638187200555641996.
Proof. reflexivity. Qed.

(** A snowflake that fits a signed 64-bit integer is its own row id. *)
Definition int64_snowflake (s : string) : bool :=
  isCanonicalDecimalSnowflake s && (0 <? digits_value 0 s) && (digits_value 0 s <? 2 ^ 63).

Lemma MessageFTSRowID_snowflake s : int64_snowflake s = true → MessageFTSRowID s = Some (digits_value 0 s).
Proof.
  unfold int64_snowflake. intros H. propify. unfold MessageFTSRowID, ParseInt.
  pose proof (canonical_nonempty s ltac:(done)) as Hne. pose proof (canonical_all_digits s ltac:(done)) as Hd.
  apply String.eqb_neq in Hne. rewrite Hne.
  destruct s as [|c t]; [done|].
  assert (match String c t with String "-" t => (true, t) | String "+" t => (false, t) | _ => (false, String c t) end = (false, String c t)) as ->.
  { destruct c as [[] [] [] [] [] [] [] []]; try reflexivity; simpl in Hd; discriminate Hd. }
  rewrite Hne, Hd. cbn [negb orb].
  destruct (Z.leb_spec (2 ^ 63) (digits_value 0 (String c t))); [lia|].
  destruct (Z.ltb_spec 0 (digits_value 0 (String c t))); [done|lia].
Qed.

Lemma MessageFTSRowID_inj a b :
  int64_snowflake a = true → int64_snowflake b = true → MessageFTSRowID a = MessageFTSRowID b → a = b.
Proof.
  intros Ha Hb. rewrite !MessageFTSRowID_snowflake by done. intros [= E].
  unfold int64_snowflake in *. propify. by apply canonical_inj.
Qed.

(** ** The order of texts *)

Lemma compare_cons a s b t :
  String.compare (String a s) (String b t) = match Z.compare (byte_of a) (byte_of b) with Eq => String.compare s t | c => c end.
Proof. simpl. by rewrite ascii_compare_byte. Qed.

Lemma compare_refl s : String.compare s s = Eq.
Proof. induction s as [|a s IH]; [done|]. by rewrite compare_cons, Z.compare_refl. Qed.

Lemma ltb_trans a b c : String.ltb a b = true → String.ltb b c = true → String.ltb a c = true.
Proof.
  rewrite !ltb_compare. revert b c. induction a as [|x a IH]; intros [|y b] [|z c]; try done.
  rewrite !compare_cons.
  destruct (Z.compare_spec (byte_of x) (byte_of y)), (Z.compare_spec (byte_of y) (byte_of z)),
    (Z.compare_spec (byte_of x) (byte_of z)); try done; try lia. apply IH.
Qed.

Lemma ltb_irrefl a : String.ltb a a = false.
Proof. by rewrite ltb_compare, compare_refl. Qed.

Lemma ltb_total a b : a = b ∨ String.ltb a b = true ∨ String.ltb b a = true.
Proof.
  rewrite !ltb_compare, (String.compare_antisym b a).
  destruct (String.compare a b) eqn:E; simpl; auto. left. by apply String.compare_eq_iff.
Qed.

Lemma leb_ltb a b : String.leb a b = negb (String.ltb b a).
Proof.
  unfold String.leb. rewrite ltb_compare, (String.compare_antisym a b).
  by destruct (String.compare b a).
Qed.

Lemma leb_refl a : String.leb a a = true.
Proof. by rewrite leb_ltb, ltb_irrefl. Qed.

Lemma leb_trans a b c : String.leb a b = true → String.leb b c = true → String.leb a c = true.
Proof.
  rewrite !leb_ltb, !negb_true_iff. intros H1 H2.
  destruct (ltb_total a b) as [->|[H|H]], (ltb_total b c) as [<-|[H'|H']]; try congruence.
  destruct (String.ltb c a) eqn:E; [|done]. pose proof (ltb_trans _ _ _ E H). congruence.
Qed.

Lemma leb_antisym a b : String.leb a b = true → String.leb b a = true → a = b.
Proof. rewrite !leb_ltb, !negb_true_iff. intros H1 H2. destruct (ltb_total a b) as [?|[?|?]]; congruence. Qed.

Lemma leb_total a b : String.leb a b = true ∨ String.leb b a = true.
Proof.
  rewrite !leb_ltb, !negb_true_iff. destruct (ltb_total a b) as [->|[H|H]]; [rewrite ltb_irrefl; auto|..].
  - left. destruct (String.ltb b a) eqn:E; [|done]. pose proof (ltb_trans _ _ _ H E) as X. by rewrite ltb_irrefl in X.
  - right. destruct (String.ltb a b) eqn:E; [|done]. pose proof (ltb_trans _ _ _ H E) as X. by rewrite ltb_irrefl in X.
Qed.

(** SQL's [max(a,b)] of two texts. *)
Definition text_max (a b : string) : string := if String.leb a b then b else a.

Lemma text_max_spec a b :
  String.leb a (text_max a b) = true ∧ String.leb b (text_max a b) = true ∧ (text_max a b = a ∨ text_max a b = b).
Proof.
  unfold text_max. destruct (String.leb a b) eqn:E; split_and!; auto using leb_refl.
  destruct (leb_total a b); congruence.
Qed.

(** [time.Parse] restricted to the texts the store writes: an instance of the
    interface. *)
Definition parse_written : TimeParse := λ layout s, if (layout =? layoutDateTime)%string then None else parse_timeLayout s.

Lemma parse_written_laws : @TimeParseLaws parse_written.
Proof.
  split. intros l t t'. unfold Parse, parse_written. case_match; [done|]. apply parse_timeLayout_only.
Qed.
