(* ===== verification/Rows.v ===== *)
(** * The records of the store

    internal/store/write.go: what the collectors hand to the writers. A Go
    [time.Time] that may be zero is an [option] of nanoseconds. *)
From S2P Require Import Prelude.
Local Open Scope Z_scope.

Record GuildRecord := mkGuildRecord { g_ID : string; g_Name : string; g_Icon : string; g_RawJSON : string }.

Record ChannelRecord := mkChannelRecord {
  cr_ID : string; cr_GuildID : string; cr_ParentID : string; cr_Kind : string; cr_Name : string;
  cr_Topic : string; cr_Position : Z; cr_IsNSFW : bool; cr_IsArchived : bool; cr_IsLocked : bool;
  cr_IsPrivateThread : bool; cr_ThreadParentID : string; cr_ArchiveTimestamp : string; cr_RawJSON : string
}.

Record MemberRecord := mkMemberRecord {
  mb_GuildID : string; mb_UserID : string; mb_Username : string; mb_GlobalName : string;
  mb_DisplayName : string; mb_Nick : string; mb_Discriminator : string; mb_Avatar : string;
  mb_Bot : bool; mb_JoinedAt : string; mb_RoleIDsJSON : string; mb_RawJSON : string
}.

Record MessageRecord := mkMessageRecord {
  r_ID : string; r_GuildID : string; r_ChannelID : string; r_ChannelName : string;
  r_AuthorID : string; r_AuthorName : string; r_MessageType : Z;
  r_CreatedAt : string; r_EditedAt : string; r_DeletedAt : string;
  r_Content : string; r_NormalizedContent : string; r_ReplyToMessageID : string;
  r_Pinned : bool; r_HasAttachments : bool; r_RawJSON : string;
  r_TextPartsJSON : string; r_TextVersion : Z
}.

Record AttachmentRecord := mkAttachmentRecord {
  a_AttachmentID : string; a_MessageID : string; a_GuildID : string; a_ChannelID : string;
  a_AuthorID : string; a_Filename : string; a_ContentType : string; a_Size : Z;
  a_URL : string; a_ProxyURL : string; a_TextContent : string;
  a_MediaPath : string; a_ContentSHA256 : string; a_ContentSize : Z; a_FetchedAt : string;
  a_FetchStatus : string; a_FetchError : string;
  a_TextStatus : string; a_TextError : string; a_TextAttemptedAt : string; a_TextSucceededAt : string
}.

Record MentionEventRecord := mkMentionRecord {
  mn_MessageID : string; mn_GuildID : string; mn_ChannelID : string; mn_AuthorID : string;
  mn_TargetType : string; mn_TargetID : string; mn_TargetName : string; mn_EventAt : string
}.

Record WriteOptions := mkWriteOptions {
  ObservationStartedAt : option Z;
  ScopePolicy : string;
  AppendEvent : bool; EnqueueEmbedding : bool; EmbeddingCatchUp : bool;
  PreserveNewer : bool; DeduplicateEvent : bool
}.

Record MessageMutation := mkMessageMutation {
  mm_Record : MessageRecord; mm_EventType : string; mm_PayloadJSON : string; mm_Options : WriteOptions;
  mm_Attachments : list AttachmentRecord; mm_Mentions : list MentionEventRecord
}.

(** [WriteOptions{}]. *)
Definition no_options : WriteOptions := mkWriteOptions None "" false false false false false.

Definition set_raw (raw : string) (m : MessageRecord) : MessageRecord :=
  mkMessageRecord (r_ID m) (r_GuildID m) (r_ChannelID m) (r_ChannelName m) (r_AuthorID m) (r_AuthorName m)
    (r_MessageType m) (r_CreatedAt m) (r_EditedAt m) (r_DeletedAt m) (r_Content m) (r_NormalizedContent m)
    (r_ReplyToMessageID m) (r_Pinned m) (r_HasAttachments m) raw (r_TextPartsJSON m) (r_TextVersion m).

Definition set_text (normalized parts : string) (m : MessageRecord) : MessageRecord :=
  mkMessageRecord (r_ID m) (r_GuildID m) (r_ChannelID m) (r_ChannelName m) (r_AuthorID m) (r_AuthorName m)
    (r_MessageType m) (r_CreatedAt m) (r_EditedAt m) (r_DeletedAt m) (r_Content m) normalized
    (r_ReplyToMessageID m) (r_Pinned m) (r_HasAttachments m) (r_RawJSON m) parts (r_TextVersion m).

#[export] Instance GuildRecord_eq_dec : EqDecision GuildRecord.
Proof. solve_decision. Defined.
#[export] Instance AttachmentRecord_eq_dec : EqDecision AttachmentRecord.
Proof. solve_decision. Defined.
#[export] Instance MentionEventRecord_eq_dec : EqDecision MentionEventRecord.
Proof. solve_decision. Defined.
#[export] Instance MessageRecord_eq_dec : EqDecision MessageRecord.
Proof. solve_decision. Defined.
#[export] Instance WriteOptions_eq_dec : EqDecision WriteOptions.
Proof. solve_decision. Defined.
#[export] Instance MessageMutation_eq_dec : EqDecision MessageMutation.
Proof. solve_decision. Defined.
