(* ===== verification/Receipts.v ===== *)
(** * Receipts

    internal/store/entity_state.go: beside each content row the store keeps the
    evidence it was written from ([entity_observations], whose content-addressed
    bodies are kept in place here), the log and the latest of its checks
    ([entity_check_history], [entity_checks]), and the live counters as series
    of value changes ([entity_metrics]). *)
From S2P Require Import Prelude SyncState GoTime GoText Rows.
Local Open Scope Z_scope.

(** What an observation was: the exact record before canonicalization, without
    the local write options, or what a row held before its first canonical
    replacement. *)
Inductive evidence :=
  | EvGuild (g : GuildRecord)
  | EvChannel (c : ChannelRecord)
  | EvMember (m : MemberRecord)
  | EvRecord (r : MessageRecord)
  | EvMutation (m : MessageMutation)
  | EvAttachment (a : AttachmentRecord)
  | EvLegacy (raw : string) (updatedAt : string)
  | EvLegacyAttachment (a : AttachmentRecord) (updatedAt : string).

(** [row_key]: the JSON array of the primary-key values. *)
Abbreviation row_key := (list string).

Record observation := mkObservation { ob_table : string; ob_key : row_key; ob_at : string; ob_evidence : evidence }.

Record check := mkCheck { ck_at : string; ck_succeeded : option string; ck_outcome : string }.
Abbreviation check_key := (string * row_key * string)%type.

Record receipts := mkReceipts {
  rc_checks : gmap check_key check;
  rc_history : list (check_key * check);
  rc_observations : list observation;
  rc_metrics : gmap (string * string * string) (list (string * string))
}.

Definition empty_receipts : receipts := mkReceipts ∅ [] [] ∅.

Definition checkObserved : string := "observed".
Definition checkAttachmentText : string := "attachment_text".

Definition nullString (v : string) : option string := if (v =? "")%string then None else Some v.

(** The [on conflict] clause of [recordCheckTx]. *)
Definition merge_check (stored excluded : check) : check :=
  mkCheck (text_max (ck_at stored) (ck_at excluded))
    (match ck_succeeded excluded, ck_succeeded stored with
     | None, s => s
     | e, None => e
     | Some e, Some s => Some (text_max s e)
     end)
    (if String.leb (ck_at stored) (ck_at excluded) then ck_outcome excluded else ck_outcome stored).

Definition recordCheck (now : Z) (table kind checkedAt succeededAt outcome : string) (key : row_key) (s : receipts) : receipts :=
  let checkedAt := if (checkedAt =? "")%string then timeLayout now else checkedAt in
  let c := mkCheck checkedAt (nullString succeededAt) outcome in
  let k := (table, key, kind) in
  mkReceipts (<[k := match rc_checks s !! k with Some st => merge_check st c | None => c end]> (rc_checks s))
    (rc_history s ++ [(k, c)]) (rc_observations s) (rc_metrics s).

Definition recordObserved (now : Z) (table : string) (changed : bool) (key : row_key) (s : receipts) : receipts :=
  recordCheck now table checkObserved (timeLayout now) (timeLayout now) (if changed then "changed" else "unchanged") key s.

(** [lastObservedTx] of a row that exists: the later of its [updated_at] and
    its latest observed check. *)
Definition lastObserved `{TimeParse} (table updated : string) (key : row_key) (s : receipts) : Z :=
  let last := parseTime updated in
  match rc_checks s !! (table, key, checkObserved) with
  | Some c => Z.max last (parseTime (ck_at c))
  | None => last
  end.

Definition observe (table : string) (key : row_key) (at_ : string) (e : evidence) (s : receipts) : receipts :=
  mkReceipts (rc_checks s) (rc_history s) (rc_observations s ++ [mkObservation table key at_ e]) (rc_metrics s).

Definition recordEvidence (now : Z) (table : string) (e : evidence) (key : row_key) (s : receipts) : receipts :=
  match e with
  | EvMutation m =>
      let s := match ObservationStartedAt (mm_Options m) with
               | Some started => recordCheck now table "observation_started" (timeLayout started) "" "requested" key s
               | None => s
               end in
      observe table key (timeLayout now)
        (EvMutation (mkMessageMutation (mm_Record m) (mm_EventType m) (mm_PayloadJSON m) no_options (mm_Attachments m) (mm_Mentions m))) s
  | e => observe table key (timeLayout now) e s
  end.

Definition has_legacy (table : string) (key : row_key) (s : receipts) : bool :=
  existsb (λ o, (ob_table o =? table)%string && bool_decide (ob_key o = key) && (ob_at o =? "legacy")%string) (rc_observations s).

(** [retainLegacyRawTx]; the evidence carries the row's [updated_at]. *)
Definition retainLegacy (table : string) (empty : bool) (e : evidence) (key : row_key) (s : receipts) : receipts :=
  if empty || has_legacy table key s then s else observe table key "legacy" e s.
Definition retainLegacyRaw (table raw updatedAt : string) (key : row_key) (s : receipts) : receipts :=
  retainLegacy table (raw =? "")%string (EvLegacy raw updatedAt) key s.

(** ** Metrics *)

(** [order by observed_at desc limit 1] of a series. *)
Fixpoint latest_point (series : list (string * string)) : option (string * string) :=
  match series with
  | [] => None
  | p :: rest => match latest_point rest with
                 | Some q => if String.leb (fst p) (fst q) then Some q else Some p
                 | None => Some p
                 end
  end.

(** The upsert on (entity, metric, observed_at). *)
Definition put_point (at_ value : string) (series : list (string * string)) : list (string * string) :=
  List.filter (λ p, negb (fst p =? at_)%string) series ++ [(at_, value)].

Definition recordMetric (now : Z) (entityType entityID : string) (s : receipts) (metric : string * string) : receipts :=
  let k := (entityType, entityID, fst metric) in
  let series := default [] (rc_metrics s !! k) in
  if match latest_point series with Some p => (snd p =? snd metric)%string | None => false end then s
  else mkReceipts (rc_checks s) (rc_history s) (rc_observations s)
         (<[k := put_point (timeLayout now) (snd metric) series]> (rc_metrics s)).

(** [slices.Sorted(maps.Keys(metrics))]: in the order of the keys. *)
Definition metric_le (a b : string * string) : Prop := string_le (fst a) (fst b).
#[export] Instance metric_le_dec : RelDecision metric_le.
Proof. unfold metric_le. intros a b. apply _. Defined.

Definition recordMetrics (now : Z) (entityType entityID : string) (metrics : gmap string string) (s : receipts) : receipts :=
  if (entityID =? "")%string then s
  else fold_left (recordMetric now entityType entityID) (merge_sort metric_le (map_to_list metrics)) s.
