(* ===== verification/Attachments.v ===== *)
(** * Attachments

    The attachment rows of a message (internal/store/write.go,
    attachment_recovery.go): reconciled in place, a row written only when one
    of its content columns changes. SQL nulls of the optional text columns are
    [""], which is how the writer passes and reads them; the text history is
    keyed by the text itself instead of its SHA-256. *)
From S2P Require Import Prelude GoTime GoText Rows Receipts.
Local Open Scope Z_scope.

Record attachment_row := mkAttachmentRow { at_record : AttachmentRecord; at_updated : string }.
Record text_history_row := mkTextHistory { th_message : string; th_guild : string; th_channel : string; th_succeeded : string; th_retained : string }.

Record attachments := mkAttachments {
  at_rows : gmap string attachment_row;
  at_history : gmap (string * string) text_history_row;   (** attachment_text_history *)
  at_receipts : receipts
}.

Definition with_receipts (f : receipts → receipts) (s : attachments) : attachments :=
  mkAttachments (at_rows s) (at_history s) (f (at_receipts s)).

Definition of_message (messageID : string) (r : attachment_row) : bool := (a_MessageID (at_record r) =? messageID)%string.

(** [retainAttachmentText], insert or ignore. *)
Definition retain_one (now : Z) (h : gmap (string * string) text_history_row) (p : string * attachment_row) :=
  let '(id, r) := p in
  let a := at_record r in
  let k := (id, a_TextContent a) in
  match h !! k with
  | Some _ => h
  | None => <[k := mkTextHistory (a_MessageID a) (a_GuildID a) (a_ChannelID a) (a_TextSucceededAt a) (timeLayout now)]> h
  end.
Definition retainAttachmentText (now : Z) (messageID : string) (s : attachments) : attachments :=
  let records := List.filter (λ p : string * attachment_row, of_message messageID (snd p) && negb (a_TextContent (at_record (snd p)) =? "")%string)
                   (map_to_list (at_rows s)) in
  mkAttachments (at_rows s) (fold_left (retain_one now) records (at_history s)) (at_receipts s).

(** [existingAttachmentMediaTx]: the rows of the message. *)
Definition existingAttachmentMedia (messageID : string) (s : attachments) : gmap string AttachmentRecord :=
  at_record <$> filter (λ p, of_message messageID (snd p) = true) (at_rows s).

Definition retainLegacyAttachment (id : string) (s : attachments) : attachments :=
  match at_rows s !! id with
  | None => s
  | Some r => with_receipts (retainLegacy "message_attachments" false (EvLegacyAttachment (at_record r) (at_updated r)) [id]) s
  end.

Definition effective (incoming stored : string) : string := if (incoming =? "")%string then stored else incoming.

Definition sameStoredAttachment (a : AttachmentRecord) (s : attachments) : bool :=
  match at_rows s !! a_AttachmentID a with
  | None => false
  | Some r =>
      let st := at_record r in
      let wantContentSize := if 0 <? a_ContentSize a then a_ContentSize a else a_ContentSize st in
      let wantFetchError := if negb (a_FetchStatus a =? "")%string || negb (a_FetchError a =? "")%string
                            then a_FetchError a else a_FetchError st in
      (a_MessageID st =? a_MessageID a)%string && (a_GuildID st =? a_GuildID a)%string
      && (a_ChannelID st =? a_ChannelID a)%string && (a_AuthorID st =? a_AuthorID a)%string
      && (a_Filename st =? a_Filename a)%string && (a_ContentType st =? a_ContentType a)%string
      && (a_Size st =? a_Size a) && (a_URL st =? a_URL a)%string && (a_ProxyURL st =? a_ProxyURL a)%string
      && (a_TextContent st =? a_TextContent a)%string
      && (a_MediaPath st =? effective (a_MediaPath a) (a_MediaPath st))%string
      && (a_ContentSHA256 st =? effective (a_ContentSHA256 a) (a_ContentSHA256 st))%string
      && (a_ContentSize st =? wantContentSize)
      && (a_FetchedAt st =? effective (a_FetchedAt a) (a_FetchedAt st))%string
      && (a_FetchStatus st =? effective (a_FetchStatus a) (a_FetchStatus st))%string
      && (a_FetchError st =? wantFetchError)%string
      && (a_TextStatus st =? a_TextStatus a)%string && (a_TextError st =? a_TextError a)%string
  end.

(** The row after the upsert's [on conflict] clause. *)
Definition merge_attachment (st a : AttachmentRecord) : AttachmentRecord :=
  mkAttachmentRecord (a_AttachmentID a) (a_MessageID a) (a_GuildID a) (a_ChannelID a)
    (a_AuthorID a) (a_Filename a) (a_ContentType a) (a_Size a) (a_URL a) (a_ProxyURL a) (a_TextContent a)
    (effective (a_MediaPath a) (a_MediaPath st)) (effective (a_ContentSHA256 a) (a_ContentSHA256 st))
    (if 0 <? a_ContentSize a then a_ContentSize a else a_ContentSize st)
    (effective (a_FetchedAt a) (a_FetchedAt st)) (effective (a_FetchStatus a) (a_FetchStatus st))
    (if negb (a_FetchStatus a =? "")%string || negb (a_FetchError a =? "")%string then a_FetchError a else a_FetchError st)
    (a_TextStatus a) (a_TextError a) (a_TextAttemptedAt a) (a_TextSucceededAt a).

Definition writeAttachment (now : Z) (a : AttachmentRecord) (s : attachments) : attachments :=
  let r := match at_rows s !! a_AttachmentID a with Some r => merge_attachment (at_record r) a | None => a end in
  mkAttachments (<[a_AttachmentID a := mkAttachmentRow r (timeLayout now)]> (at_rows s)) (at_history s) (at_receipts s).

Definition copy_media (from a : AttachmentRecord) : AttachmentRecord :=
  mkAttachmentRecord (a_AttachmentID a) (a_MessageID a) (a_GuildID a) (a_ChannelID a)
    (a_AuthorID a) (a_Filename a) (a_ContentType a) (a_Size a) (a_URL a) (a_ProxyURL a) (a_TextContent a)
    (a_MediaPath from) (a_ContentSHA256 from) (a_ContentSize from) (a_FetchedAt from) (a_FetchStatus from) (a_FetchError from)
    (a_TextStatus a) (a_TextError a) (a_TextAttemptedAt a) (a_TextSucceededAt a).
Definition set_text_status (st : string) (a : AttachmentRecord) : AttachmentRecord :=
  mkAttachmentRecord (a_AttachmentID a) (a_MessageID a) (a_GuildID a) (a_ChannelID a)
    (a_AuthorID a) (a_Filename a) (a_ContentType a) (a_Size a) (a_URL a) (a_ProxyURL a) (a_TextContent a)
    (a_MediaPath a) (a_ContentSHA256 a) (a_ContentSize a) (a_FetchedAt a) (a_FetchStatus a) (a_FetchError a)
    st (a_TextError a) (a_TextAttemptedAt a) (a_TextSucceededAt a).

(** The record the loop of [applyAttachmentsTx] writes for an incoming one. *)
Definition admitted_attachment (existing : gmap string AttachmentRecord) (a : AttachmentRecord) : AttachmentRecord :=
  let a := match existing !! a_AttachmentID a with
           | Some media => if (a_MediaPath a =? "")%string then copy_media media a else a
           | None => a
           end in
  if (a_TextStatus a =? "")%string then set_text_status "unknown" a else a.

Section apply.
Context `{TimeParse}.

Definition drop_attachment (keep : list string) (st : bool * attachments) (id : string) : bool * attachments :=
  let '(changed, s) := st in
  if bool_decide (id ∈ keep) then st
  else let s := retainLegacyAttachment id s in
       (true, mkAttachments (delete id (at_rows s)) (at_history s) (at_receipts s)).

Definition apply_attachment (now : Z) (existing : gmap string AttachmentRecord) (st : bool * attachments) (a : AttachmentRecord) : bool * attachments :=
  let '(changed, s) := st in
  let s := with_receipts (recordEvidence now "message_attachments" (EvAttachment a) [a_AttachmentID a]) s in
  let a := admitted_attachment existing a in
  let '(changed, s) := if sameStoredAttachment a s then (changed, s)
                       else (true, writeAttachment now a (retainLegacyAttachment (a_AttachmentID a) s)) in
  (changed,
   if (a_TextAttemptedAt a =? "")%string then s
   else with_receipts (recordCheck now "message_attachments" checkAttachmentText
                         (normalizeStoredTime (a_TextAttemptedAt a)) (normalizeStoredTime (a_TextSucceededAt a))
                         (a_TextStatus a) [a_AttachmentID a]) s).

Definition applyAttachments (now : Z) (messageID : string) (atts : list AttachmentRecord) (s : attachments) : bool * attachments :=
  let s := retainAttachmentText now messageID s in
  let existing := existingAttachmentMedia messageID s in
  let keep := a_AttachmentID <$> atts in
  let st := fold_left (drop_attachment keep) (fst <$> map_to_list existing) (false, s) in
  fold_left (apply_attachment now existing) atts st.
End apply.

(** ** The comparer agrees with the writer *)

(** The content columns: all but the check fields of the extraction. *)
Definition content_of (a : AttachmentRecord) : AttachmentRecord :=
  mkAttachmentRecord (a_AttachmentID a) (a_MessageID a) (a_GuildID a) (a_ChannelID a)
    (a_AuthorID a) (a_Filename a) (a_ContentType a) (a_Size a) (a_URL a) (a_ProxyURL a) (a_TextContent a)
    (a_MediaPath a) (a_ContentSHA256 a) (a_ContentSize a) (a_FetchedAt a) (a_FetchStatus a) (a_FetchError a)
    (a_TextStatus a) (a_TextError a) "" "".

(** Rows are keyed by their attachment id. *)
Definition keyed (s : attachments) : Prop := map_Forall (λ id r, a_AttachmentID (at_record r) = id) (at_rows s).

Lemma sameStored_content a s :
  keyed s →
  sameStoredAttachment a s = true ↔
  ∃ r, at_rows s !! a_AttachmentID a = Some r ∧ content_of (merge_attachment (at_record r) a) = content_of (at_record r).
Proof.
  intros Hk. unfold sameStoredAttachment. destruct (at_rows s !! a_AttachmentID a) as [r|] eqn:E; [|naive_solver].
  pose proof (Hk _ _ E) as Hid. cbv beta in Hid. split.
  - intros Hs. exists r. split; [done|]. propify. unfold content_of, merge_attachment. cbn. f_equal; by symmetry.
  - intros (r' & [= <-] & H). unfold content_of, merge_attachment in H. injection H. intros.
    repeat (apply andb_true_iff; split); first [apply String.eqb_eq|apply Z.eqb_eq]; by symmetry.
Qed.

(** ** Rows through the reconciliation *)

Lemma at_rows_retainLegacy id s : at_rows (retainLegacyAttachment id s) = at_rows s.
Proof. unfold retainLegacyAttachment. by destruct (at_rows s !! id). Qed.
Lemma at_history_retainLegacy id s : at_history (retainLegacyAttachment id s) = at_history s.
Proof. unfold retainLegacyAttachment. by destruct (at_rows s !! id). Qed.

Lemma drop_rows keep ids st :
  at_rows (snd (fold_left (drop_attachment keep) ids st))
  = filter (λ p, ¬ (fst p ∈ ids ∧ fst p ∉ keep)) (at_rows (snd st))
  ∧ at_history (snd (fold_left (drop_attachment keep) ids st)) = at_history (snd st).
Proof.
  revert st. induction ids as [|id ids IH]; intros [b s]; cbn [fold_left snd].
  { split; [|done]. symmetry. apply map_filter_id. intros i x _ [H _]. by apply elem_of_nil in H. }
  destruct (IH (drop_attachment keep (b, s) id)) as [-> ->]. unfold drop_attachment.
  case_bool_decide as Hk; cbn [snd at_rows at_history]; (split; [|by rewrite ?at_history_retainLegacy]).
  - apply map_filter_strong_ext. intros i x. set_solver.
  - rewrite at_rows_retainLegacy. apply map_eq. intros i.
    apply option_eq. intros x. rewrite !map_lookup_filter_Some, lookup_delete_Some. cbn [fst]. set_solver.
Qed.

Section facts.
Context `{TimeParse}.

(** The effect of one incoming attachment on the rows. *)
Definition row_write (now : Z) (existing : gmap string AttachmentRecord) (rows : gmap string attachment_row) (a : AttachmentRecord) :
    gmap string attachment_row :=
  let a := admitted_attachment existing a in
  let s := mkAttachments rows ∅ empty_receipts in
  if sameStoredAttachment a s then rows else at_rows (writeAttachment now a s).

Lemma apply_attachment_rows now existing b s a :
  at_rows (snd (apply_attachment now existing (b, s) a)) = row_write now existing (at_rows s) a
  ∧ at_history (snd (apply_attachment now existing (b, s) a)) = at_history s
  ∧ fst (apply_attachment now existing (b, s) a) = b || negb (sameStoredAttachment (admitted_attachment existing a) s).
Proof.
  unfold apply_attachment, row_write. cbv zeta.
  change (sameStoredAttachment (admitted_attachment existing a) (with_receipts _ s))
    with (sameStoredAttachment (admitted_attachment existing a) s).
  change (sameStoredAttachment (admitted_attachment existing a) (mkAttachments (at_rows s) ∅ empty_receipts))
    with (sameStoredAttachment (admitted_attachment existing a) s).
  destruct (sameStoredAttachment _ s); cbn [negb]; rewrite ?orb_false_r, ?orb_true_r;
    (split_and!; [| |done]); destruct (a_TextAttemptedAt _ =? "")%string; cbn [snd with_receipts at_rows at_history writeAttachment];
    rewrite ?at_rows_retainLegacy, ?at_history_retainLegacy; done.
Qed.

Lemma apply_rows now existing atts st :
  at_rows (snd (fold_left (apply_attachment now existing) atts st)) = fold_left (row_write now existing) atts (at_rows (snd st))
  ∧ at_history (snd (fold_left (apply_attachment now existing) atts st)) = at_history (snd st).
Proof.
  revert st. induction atts as [|a atts IH]; intros [b s]; [done|]. cbn [fold_left].
  destruct (IH (apply_attachment now existing (b, s) a)) as [-> ->].
  by destruct (apply_attachment_rows now existing b s a) as (-> & -> & _).
Qed.

Lemma admitted_id existing a : a_AttachmentID (admitted_attachment existing a) = a_AttachmentID a.
Proof. unfold admitted_attachment. repeat case_match; done. Qed.
Lemma admitted_message existing a : a_MessageID (admitted_attachment existing a) = a_MessageID a.
Proof. unfold admitted_attachment. repeat case_match; done. Qed.

(** What the rows say of one attachment after it was applied. *)
Definition merged_content (existing : gmap string AttachmentRecord) (row : option attachment_row) (a : AttachmentRecord) : AttachmentRecord :=
  let a := admitted_attachment existing a in
  content_of (match row with Some r => merge_attachment (at_record r) a | None => a end).

Lemma row_write_spec now existing rows a :
  map_Forall (λ id r, a_AttachmentID (at_record r) = id) rows →
  map_Forall (λ id r, a_AttachmentID (at_record r) = id) (row_write now existing rows a)
  ∧ (∃ r, row_write now existing rows a !! a_AttachmentID a = Some r
          ∧ content_of (at_record r) = merged_content existing (rows !! a_AttachmentID a) a)
  ∧ ∀ id, id ≠ a_AttachmentID a → row_write now existing rows a !! id = rows !! id.
Proof.
  intros Hk. unfold row_write, merged_content. cbv zeta. set (a' := admitted_attachment existing a).
  assert (Ha : a_AttachmentID a' = a_AttachmentID a) by apply admitted_id.
  destruct (sameStoredAttachment a' _) eqn:E.
  - apply sameStored_content in E as (r & Hr & Hc); [|done]. cbn [at_rows] in Hr. rewrite Ha in Hr.
    split_and!; [done| |done]. exists r. rewrite Hr. done.
  - cbn [writeAttachment at_rows]. rewrite Ha. split_and!.
    + apply map_Forall_insert_2; [|done]. cbn [at_record]. destruct (rows !! a_AttachmentID a); done.
    + eexists. split; [apply lookup_insert_eq|]. done.
    + intros id Hne. by rewrite lookup_insert_ne.
Qed.

Lemma row_writes_spec now existing atts rows :
  NoDup (a_AttachmentID <$> atts) →
  map_Forall (λ id r, a_AttachmentID (at_record r) = id) rows →
  map_Forall (λ id r, a_AttachmentID (at_record r) = id) (fold_left (row_write now existing) atts rows)
  ∧ (∀ a, a ∈ atts → ∃ r, fold_left (row_write now existing) atts rows !! a_AttachmentID a = Some r
          ∧ content_of (at_record r) = merged_content existing (rows !! a_AttachmentID a) a)
  ∧ ∀ id, id ∉ a_AttachmentID <$> atts → fold_left (row_write now existing) atts rows !! id = rows !! id.
Proof.
  revert rows. induction atts as [|a atts IH]; intros rows Hnd Hk; cbn [fold_left].
  { split_and!; [done| |done]. intros a Ha. by apply elem_of_nil in Ha. }
  cbn [fmap list_fmap] in Hnd. apply NoDup_cons in Hnd as [Hni Hnd].
  destruct (row_write_spec now existing rows a Hk) as (Hk1 & Ha & Hother).
  destruct (IH _ Hnd Hk1) as (Hk2 & Hin & Hout). split_and!; [done|..].
  - intros a' [->|Hin']%elem_of_cons.
    + rewrite Hout by done. done.
    + destruct (Hin a' Hin') as (r & Hr & Hc). exists r. split; [done|]. rewrite Hc, Hother; [done|].
      intros Heq. apply Hni. rewrite <- Heq. by apply list_elem_of_fmap_2.
  - intros id Hid. cbn [fmap list_fmap] in Hid. rewrite Hout, Hother; set_solver.
Qed.

Lemma retain_text_rows now mid s : at_rows (retainAttachmentText now mid s) = at_rows s.
Proof. done. Qed.

Lemma existing_lookup mid s id a :
  existingAttachmentMedia mid s !! id = Some a ↔ ∃ r, at_rows s !! id = Some r ∧ a_MessageID (at_record r) = mid ∧ at_record r = a.
Proof.
  unfold existingAttachmentMedia. rewrite lookup_fmap, fmap_Some. setoid_rewrite map_lookup_filter_Some.
  unfold of_message. cbn [snd]. setoid_rewrite String.eqb_eq. naive_solver.
Qed.

Lemma existing_ids mid s id :
  id ∈ fst <$> map_to_list (existingAttachmentMedia mid s) ↔ ∃ r, at_rows s !! id = Some r ∧ a_MessageID (at_record r) = mid.
Proof.
  rewrite list_elem_of_fmap. split.
  - intros ([id' a] & -> & Hin%elem_of_map_to_list). cbn [fst]. apply existing_lookup in Hin. naive_solver.
  - intros (r & Hr & Hm). exists (id, at_record r). split; [done|]. apply elem_of_map_to_list, existing_lookup. eauto.
Qed.

(** The rows left for the incoming attachments. *)
Definition survivors (mid : string) (atts : list AttachmentRecord) (rows : gmap string attachment_row) : gmap string attachment_row :=
  filter (λ p, ¬ (a_MessageID (at_record (snd p)) = mid ∧ fst p ∉ a_AttachmentID <$> atts)) rows.

Lemma applyAttachments_rows now mid atts s :
  at_rows (snd (applyAttachments now mid atts s))
  = fold_left (row_write now (existingAttachmentMedia mid s)) atts (survivors mid atts (at_rows s))
  ∧ at_history (snd (applyAttachments now mid atts s)) = at_history (retainAttachmentText now mid s).
Proof.
  unfold applyAttachments. destruct (apply_rows now (existingAttachmentMedia mid (retainAttachmentText now mid s)) atts
    (fold_left (drop_attachment (a_AttachmentID <$> atts))
       (fst <$> map_to_list (existingAttachmentMedia mid (retainAttachmentText now mid s))) (false, retainAttachmentText now mid s))) as [-> ->].
  destruct (drop_rows (a_AttachmentID <$> atts) (fst <$> map_to_list (existingAttachmentMedia mid (retainAttachmentText now mid s)))
              (false, retainAttachmentText now mid s)) as [-> ->].
  cbn [snd]. rewrite retain_text_rows. split; [|done]. f_equal. apply map_filter_strong_ext.
  intros id r. cbn [fst snd]. change (existingAttachmentMedia mid (retainAttachmentText now mid s)) with (existingAttachmentMedia mid s).
  rewrite existing_ids. naive_solver.
Qed.

Lemma survivors_keyed mid atts s : keyed s → map_Forall (λ id r, a_AttachmentID (at_record r) = id) (survivors mid atts (at_rows s)).
Proof. intros Hk id r [Hr _]%map_lookup_filter_Some. by apply Hk. Qed.

Lemma survivors_kept mid atts rows id : id ∈ a_AttachmentID <$> atts → survivors mid atts rows !! id = rows !! id.
Proof.
  intros Hin. apply option_eq. intros r. unfold survivors. rewrite map_lookup_filter_Some. cbn [fst snd]. naive_solver.
Qed.

Lemma survivors_other mid atts rows id :
  id ∉ a_AttachmentID <$> atts →
  survivors mid atts rows !! id = match rows !! id with
                                  | Some r => if of_message mid r then None else Some r
                                  | None => None
                                  end.
Proof.
  intros Hout. apply option_eq. intros r. unfold survivors, of_message. rewrite map_lookup_filter_Some. cbn [fst snd].
  destruct (rows !! id) as [r0|] eqn:E; [|naive_solver].
  destruct (String.eqb_spec (a_MessageID (at_record r0)) mid); naive_solver.
Qed.

(** The media path the row ends with. *)
Definition stored_media (row : option attachment_row) : string := default ""%string ((a_MediaPath ∘ at_record) <$> row).

Lemma effective_same v : effective v v = v.
Proof. unfold effective. by destruct (v =? "")%string. Qed.

Lemma merged_columns mid s a :
  let c := merged_content (existingAttachmentMedia mid s) (at_rows s !! a_AttachmentID a) a in
  a_MessageID c = a_MessageID a ∧ a_Filename c = a_Filename a ∧ a_URL c = a_URL a ∧ a_TextContent c = a_TextContent a
  ∧ a_MediaPath c = effective (a_MediaPath a) (stored_media (at_rows s !! a_AttachmentID a)).
Proof.
  cbv zeta. unfold merged_content, admitted_attachment, stored_media.
  destruct (existingAttachmentMedia mid s !! a_AttachmentID a) as [e|] eqn:Ee.
  - apply existing_lookup in Ee as (r & Hr & _ & <-). rewrite Hr. cbn [fmap option_fmap option_map default id compose].
    destruct (a_MediaPath a =? "")%string eqn:Em; destruct (a_TextStatus _ =? "")%string; cbn; split_and!; try done;
      rewrite ?effective_same; unfold effective; by rewrite Em.
  - destruct (at_rows s !! a_AttachmentID a) as [r|]; destruct (a_TextStatus a =? "")%string; cbn; split_and!; try done;
      unfold effective; destruct (String.eqb_spec (a_MediaPath a) ""); congruence.
Qed.

(** ** Retained texts *)

Lemma retain_one_keeps now h p k v : h !! k = Some v → retain_one now h p !! k = Some v.
Proof.
  destruct p as [id r]. unfold retain_one. destruct (h !! (id, a_TextContent (at_record r))) eqn:E; [done|].
  intros Hk. rewrite lookup_insert_ne; [done|]. intros <-. congruence.
Qed.

Lemma retain_fold_keeps now ps h k v : h !! k = Some v → fold_left (retain_one now) ps h !! k = Some v.
Proof. revert h. induction ps as [|p ps IH]; intros h Hk; [done|]. cbn. apply IH. by apply retain_one_keeps. Qed.

Lemma retain_fold_adds now ps h id r :
  (id, r) ∈ ps → is_Some (fold_left (retain_one now) ps h !! (id, a_TextContent (at_record r))).
Proof.
  revert h. induction ps as [|p ps IH]; intros h Hin; [by apply elem_of_nil in Hin|]. cbn.
  apply elem_of_cons in Hin as [<-|Hin]; [|by apply IH].
  assert (is_Some (retain_one now h (id, r) !! (id, a_TextContent (at_record r)))) as [v Hv].
  { unfold retain_one. destruct (h !! (id, a_TextContent (at_record r))) eqn:E; [by rewrite E|]. rewrite lookup_insert_eq. eauto. }
  exists v. by apply retain_fold_keeps.
Qed.

(** ** Applying twice *)

Lemma effective_absorb i v : effective i (effective i v) = effective i v.
Proof. unfold effective. by destruct (i =? "")%string. Qed.

(** Writing the same incoming record again changes nothing. *)
Lemma merge_twice st a : content_of (merge_attachment (merge_attachment st a) a) = content_of (merge_attachment st a).
Proof.
  unfold content_of, merge_attachment. cbn. rewrite !effective_absorb. f_equal; repeat case_match; done.
Qed.

Lemma merge_self a : content_of (merge_attachment a a) = content_of a.
Proof. unfold content_of, merge_attachment. cbn. rewrite !effective_same. f_equal; by repeat case_match. Qed.

(** The content of a merge depends on the content of what it merges with. *)
Lemma merge_content_cong st st' a :
  content_of st = content_of st' → content_of (merge_attachment st a) = content_of (merge_attachment st' a).
Proof.
  destruct st, st'. unfold content_of. cbn. intros [=]. subst. done.
Qed.

(** Copying media and defaulting the text status, as one update. *)
Definition copied (a : AttachmentRecord) : bool := (a_MediaPath a =? "")%string.

Lemma admitted_copied existing a m :
  existing !! a_AttachmentID a = Some m → copied a = true →
  admitted_attachment existing a = copy_media m (admitted_attachment ∅ a).
Proof.
  unfold copied, admitted_attachment. intros -> ->. rewrite lookup_empty. by destruct (a_TextStatus a =? "")%string eqn:E; cbn; rewrite E.
Qed.
Lemma admitted_own existing a :
  (existing !! a_AttachmentID a = None ∨ copied a = false) → admitted_attachment existing a = admitted_attachment ∅ a.
Proof.
  unfold copied, admitted_attachment. rewrite lookup_empty. intros [->| ->]; [done|]. by destruct (existing !! _).
Qed.

Lemma admitted_media_free existing a m :
  copy_media m (content_of (admitted_attachment existing a)) = copy_media m (content_of (admitted_attachment ∅ a)).
Proof.
  unfold admitted_attachment. rewrite lookup_empty.
  destruct (existing !! _) as [e|]; [destruct (a_MediaPath a =? "")%string|]; cbn; by destruct (a_TextStatus a =? "")%string.
Qed.

Lemma merge_again (ex0 ex1 : gmap string AttachmentRecord) (row : option attachment_row) (a : AttachmentRecord) (r : attachment_row) :
  content_of (at_record r) = merged_content ex0 row a →
  ex1 !! a_AttachmentID a = Some (at_record r) →
  content_of (merge_attachment (at_record r) (admitted_attachment ex1 a)) = content_of (at_record r).
Proof.
  intros Hc Hex. destruct (copied a) eqn:Ec.
  - rewrite (admitted_copied ex1 a _ Hex Ec).
    transitivity (copy_media (at_record r) (content_of (admitted_attachment ∅ a))).
    { unfold content_of, merge_attachment, copy_media. cbn. rewrite !effective_same. f_equal; by repeat case_match. }
    transitivity (copy_media (at_record r) (content_of (at_record r))); [|done]. rewrite Hc. unfold merged_content.
    rewrite <- (admitted_media_free ex0). by destruct row.
  - rewrite (admitted_own ex1) by auto. unfold merged_content in Hc. rewrite (admitted_own ex0) in Hc by auto.
    rewrite (merge_content_cong _ _ _ Hc), Hc. destruct row; [apply merge_twice|apply merge_self].
Qed.

Lemma unchanged_rows now ex atts s :
  (∀ a, a ∈ atts → sameStoredAttachment (admitted_attachment ex a) s = true) →
  fold_left (row_write now ex) atts (at_rows s) = at_rows s
  ∧ ∀ b s', at_rows s' = at_rows s → fst (fold_left (apply_attachment now ex) atts (b, s')) = b.
Proof.
  intros Hsame. induction atts as [|a atts IH]; [done|]. cbn [fold_left].
  assert (Ha : ∀ s', at_rows s' = at_rows s → sameStoredAttachment (admitted_attachment ex a) s' = true).
  { intros s' Hs. unfold sameStoredAttachment. rewrite Hs. apply Hsame. by left. }
  destruct IH as [IH1 IH2]; [intros; apply Hsame; by right|]. split.
  - unfold row_write at 2. cbv zeta. by rewrite Ha.
  - intros b s' Hs. destruct (apply_attachment_rows now ex b s' a) as (Hr & _ & Hb).
    destruct (apply_attachment now ex (b, s') a) as [b1 s1]. cbn [fst snd] in *. subst b1.
    rewrite Ha by done. cbn [negb]. rewrite orb_false_r. apply IH2. rewrite Hr. unfold row_write. cbv zeta.
    rewrite Ha by done. done.
Qed.

Lemma drop_nothing keep ids st : (∀ id, id ∈ ids → id ∈ keep) → fold_left (drop_attachment keep) ids st = st.
Proof.
  induction ids as [|id ids IH]; intros Hk; [done|]. cbn [fold_left]. destruct st as [b s]. unfold drop_attachment at 2.
  rewrite bool_decide_eq_true_2 by (apply Hk; by left). apply IH. intros. apply Hk. by right.
Qed.

(** The flag only goes up, and stays down only while no row changes. *)
Lemma drop_flag keep ids st :
  fst (fold_left (drop_attachment keep) ids st) = false → fst st = false ∧ fold_left (drop_attachment keep) ids st = st.
Proof.
  revert st. induction ids as [|id ids IH]; intros [b s]; [done|]. cbn [fold_left]. unfold drop_attachment at 2 4.
  case_bool_decide; intros [Hb Hr]%IH; [done|]. done.
Qed.

Lemma apply_flag now ex atts st :
  fst (fold_left (apply_attachment now ex) atts st) = false →
  fst st = false ∧ at_rows (snd (fold_left (apply_attachment now ex) atts st)) = at_rows (snd st).
Proof.
  revert st. induction atts as [|a atts IH]; intros [b s]; [done|]. cbn [fold_left]. intros [Hb Hr]%IH.
  destruct (apply_attachment_rows now ex b s a) as (Hrow & _ & Hflag). rewrite Hflag in Hb. propify. split; [done|].
  rewrite Hr, Hrow. unfold row_write. cbv zeta. cbn [snd].
  change (sameStoredAttachment (admitted_attachment ex a) (mkAttachments (at_rows s) ∅ empty_receipts))
    with (sameStoredAttachment (admitted_attachment ex a) s).
  by match goal with E : sameStoredAttachment _ _ = true |- _ => rewrite E end.
Qed.

Lemma unchanged_flag now mid atts s :
  fst (applyAttachments now mid atts s) = false → at_rows (snd (applyAttachments now mid atts s)) = at_rows s.
Proof.
  unfold applyAttachments. intros [Hd Hr]%apply_flag. apply drop_flag in Hd as [_ Hd]. by rewrite Hr, Hd.
Qed.

(** Applying attachments whose rows already say the same. *)
Lemma applyAttachments_settled later mid atts s :
  keyed s →
  (∀ id r, at_rows s !! id = Some r → a_MessageID (at_record r) = mid → id ∈ a_AttachmentID <$> atts) →
  (∀ a, a ∈ atts → ∃ r, at_rows s !! a_AttachmentID a = Some r
     ∧ content_of (merge_attachment (at_record r) (admitted_attachment (existingAttachmentMedia mid s) a)) = content_of (at_record r)) →
  fst (applyAttachments later mid atts s) = false ∧ at_rows (snd (applyAttachments later mid atts s)) = at_rows s.
Proof.
  intros Hk Hown Hsame.
  assert (Hflag : fst (applyAttachments later mid atts s) = false); [|split; [done|by apply unchanged_flag]].
  unfold applyAttachments. rewrite drop_nothing by (intros id (r & Hr & Hm)%existing_ids; by eapply Hown).
  destruct (unchanged_rows later (existingAttachmentMedia mid (retainAttachmentText later mid s)) atts (retainAttachmentText later mid s))
    as [_ Hfold]; [|by apply Hfold].
  intros a Ha. apply sameStored_content; [done|]. rewrite admitted_id. by apply Hsame.
Qed.

(** What is left after a reconciliation. *)
Lemma applyAttachments_result now mid atts s :
  keyed s → NoDup (a_AttachmentID <$> atts) → Forall (λ a, a_MessageID a = mid) atts →
  let s' := snd (applyAttachments now mid atts s) in
  keyed s'
  ∧ (∀ id r, at_rows s' !! id = Some r → a_MessageID (at_record r) = mid → id ∈ a_AttachmentID <$> atts)
  ∧ ∀ a, a ∈ atts → ∃ r, at_rows s' !! a_AttachmentID a = Some r ∧ a_MessageID (at_record r) = mid
       ∧ content_of (at_record r) = merged_content (existingAttachmentMedia mid s) (at_rows s !! a_AttachmentID a) a.
Proof.
  intros Hkeyed Hids Hmid. cbv zeta. destruct (applyAttachments_rows now mid atts s) as [Hrows _].
  destruct (row_writes_spec now (existingAttachmentMedia mid s) atts _ Hids (survivors_keyed mid atts s Hkeyed)) as (Hk & Hin & Hout).
  rewrite <- Hrows in Hk, Hin, Hout. split_and!; [done| |].
  - intros id r Hr Hm. destruct (decide (id ∈ a_AttachmentID <$> atts)) as [|Hni]; [done|].
    rewrite Hout, survivors_other in Hr by done. unfold of_message in Hr.
    destruct (at_rows s !! id) as [r0|]; [|done]. destruct (String.eqb_spec (a_MessageID (at_record r0)) mid); naive_solver.
  - intros a Ha. destruct (Hin a Ha) as (r & Hr & Hc). rewrite survivors_kept in Hc by (by apply list_elem_of_fmap_2).
    exists r. split_and!; [done| |done]. apply (f_equal a_MessageID) in Hc. cbn in Hc. rewrite Hc. unfold merged_content.
    rewrite Forall_forall in Hmid. destruct (at_rows s !! a_AttachmentID a); cbn; rewrite admitted_message; by apply Hmid.
Qed.

Lemma admitted_cong ex a a' :
  content_of (admitted_attachment ∅ a) = content_of (admitted_attachment ∅ a') → content_of (admitted_attachment ex a) = content_of (admitted_attachment ex a').
Proof.
  intros Hc. assert (Hid : a_AttachmentID a = a_AttachmentID a').
  { apply (f_equal a_AttachmentID) in Hc. cbn in Hc. by rewrite !admitted_id in Hc. }
  assert (Hm : ∀ x, a_MediaPath (admitted_attachment ∅ x) = a_MediaPath x)
    by (intros x; unfold admitted_attachment; rewrite lookup_empty; by destruct (a_TextStatus x =? "")%string).
  assert (Hcp : copied a = copied a').
  { apply (f_equal a_MediaPath) in Hc. cbn in Hc. rewrite !Hm in Hc. unfold copied. by rewrite Hc. }
  destruct (ex !! a_AttachmentID a) as [m|] eqn:Ex; [destruct (copied a) eqn:Ec|].
  - rewrite (admitted_copied _ _ _ Ex Ec), (admitted_copied ex a' m) by congruence.
    change (copy_media m (content_of (admitted_attachment ∅ a)) = copy_media m (content_of (admitted_attachment ∅ a'))). by rewrite Hc.
  - by rewrite !(admitted_own ex) by auto.
  - rewrite !(admitted_own ex); [done|left; congruence|by left].
Qed.

Lemma merge_incoming_cong st a a' : content_of a = content_of a' → content_of (merge_attachment st a) = content_of (merge_attachment st a').
Proof. destruct a, a'. unfold content_of. cbn. intros [=]. subst. done. Qed.
End facts.

(** ** Properties *)

(** reconciling a message's attachments leaves exactly the incoming ones as
    the rows of the message: each carries the incoming identity, file name,
    URL and text, and the incoming media path, or the stored one when the
    incoming record has none; the rows of the message that were not mentioned
    are gone, every other row is untouched, and no change is reported only
    when no row changed. *)
Theorem applyAttachments_reconciles `{TimeParse} (now : Z) (mid : string) (atts : list AttachmentRecord) (s : attachments)
    (Hkeyed : keyed s) (Hids : NoDup (a_AttachmentID <$> atts)) (Hmid : Forall (λ a, a_MessageID a = mid) atts) :
  let s' := snd (applyAttachments now mid atts s) in
  keyed s'
  ∧ (∀ a, a ∈ atts → ∃ r, at_rows s' !! a_AttachmentID a = Some r
       ∧ a_MessageID (at_record r) = mid ∧ a_Filename (at_record r) = a_Filename a
       ∧ a_URL (at_record r) = a_URL a ∧ a_TextContent (at_record r) = a_TextContent a
       ∧ a_MediaPath (at_record r) = effective (a_MediaPath a) (stored_media (at_rows s !! a_AttachmentID a)))
  ∧ (∀ id r, id ∉ a_AttachmentID <$> atts → at_rows s' !! id = Some r ↔ at_rows s !! id = Some r ∧ a_MessageID (at_record r) ≠ mid)
  ∧ (fst (applyAttachments now mid atts s) = false → at_rows s' = at_rows s).
Proof.
  cbv zeta. destruct (applyAttachments_rows now mid atts s) as [Hrows _].
  destruct (row_writes_spec now (existingAttachmentMedia mid s) atts _ Hids (survivors_keyed mid atts s Hkeyed)) as (Hk & Hin & Hout).
  unfold keyed. rewrite Hrows. split_and!; [done| | |].
  - intros a Ha. destruct (Hin a Ha) as (r & Hr & Hc). exists r. split; [done|].
    rewrite survivors_kept in Hc by (by apply list_elem_of_fmap_2).
    destruct (merged_columns mid s a) as (H1 & H2 & H3 & H4 & H5). rewrite <- Hc in *. cbn in *.
    rewrite Forall_forall in Hmid. rewrite H1, H2, H3, H4, H5. by rewrite (Hmid a Ha).
  - intros id r Hid. rewrite Hout, survivors_other by done. unfold of_message.
    destruct (at_rows s !! id) as [r0|]; [|naive_solver]. destruct (String.eqb_spec (a_MessageID (at_record r0)) mid); naive_solver.
  - rewrite <- Hrows. apply unchanged_flag.
Qed.

(** applying the same attachments again, at any later time, reports no
    change and writes no row. *)
Theorem applyAttachments_idempotent `{TimeParse} (now later : Z) (mid : string) (atts : list AttachmentRecord) (s : attachments)
    (Hkeyed : keyed s) (Hids : NoDup (a_AttachmentID <$> atts)) (Hmid : Forall (λ a, a_MessageID a = mid) atts) :
  let s' := snd (applyAttachments now mid atts s) in
  fst (applyAttachments later mid atts s') = false ∧ at_rows (snd (applyAttachments later mid atts s')) = at_rows s'.
Proof.
  cbv zeta. destruct (applyAttachments_result now mid atts s Hkeyed Hids Hmid) as (Hk & Hown & Hin).
  apply applyAttachments_settled; [done|done|]. intros a Ha. destruct (Hin a Ha) as (r & Hr & Hm & Hc).
  exists r. split; [done|]. eapply merge_again; [exact Hc|]. apply existing_lookup. eauto.
Qed.

(** no extracted text is lost: every non-empty text a row of the message
    held before the reconciliation is in the text history after it, and the
    history keeps its earlier entries as they were. *)
Theorem applyAttachments_retains_text `{TimeParse} (now : Z) (mid : string) (atts : list AttachmentRecord) (s : attachments) :
  let s' := snd (applyAttachments now mid atts s) in
  (∀ k v, at_history s !! k = Some v → at_history s' !! k = Some v)
  ∧ map_Forall (λ id r, of_message mid r = true → negb (a_TextContent (at_record r) =? "")%string = true →
       is_Some (at_history s' !! (id, a_TextContent (at_record r)))) (at_rows s).
Proof.
  cbv zeta. destruct (applyAttachments_rows now mid atts s) as [_ ->]. unfold retainAttachmentText. cbn [at_history]. split.
  - intros k v. apply retain_fold_keeps.
  - intros id r Hr Hm Ht. apply retain_fold_adds, elem_of_lfilter. split; [by apply elem_of_map_to_list|].
    cbn [snd]. by rewrite Hm, Ht.
Qed.

(** ** Witnesses *)

Definition example_attachment (id text media : string) : AttachmentRecord :=
  mkAttachmentRecord id "10" "9" "7" "3" "log.txt" "text/plain" 4 "u" "" text media "" 0 "" "" "" "succeeded" "" "" "".
Definition example_attachments : attachments :=
  mkAttachments {[ "1"%string := mkAttachmentRow (example_attachment "1" "old" "media/1") (timeLayout 0);
                   "2"%string := mkAttachmentRow (example_attachment "2" "gone" "") (timeLayout 0) ]} ∅ empty_receipts.
Definition example_incoming : list AttachmentRecord := [example_attachment "1" "new" ""; example_attachment "3" "" ""].

Lemma applyAttachments_reconciles_witness :
  let s' := snd (applyAttachments (H := parse_written) 5 "10" example_incoming example_attachments) in
  at_rows s' !! "2"%string = None ∧ (a_MediaPath ∘ at_record) <$> at_rows s' !! "1"%string = Some "media/1"%string.
Proof.
  assert (keyed example_attachments ∧ NoDup (a_AttachmentID <$> example_incoming) ∧ Forall (λ a, a_MessageID a = "10"%string) example_incoming) as (Hk & Hn & Hm).
  { split_and!; [by apply (bool_decide_unpack _); vm_compute|by apply (bool_decide_unpack _); vm_compute|by repeat constructor]. }
  destruct (applyAttachments_reconciles (H := parse_written) 5 "10" example_incoming example_attachments Hk Hn Hm) as (_ & Hin & _ & _).
  destruct (Hin (example_attachment "1" "new" "") ltac:(left)) as (r & Hr & _ & _ & _ & _ & Hp).
  split; [vm_compute; reflexivity|]. change (a_AttachmentID (example_attachment "1" "new" "")) with "1"%string in Hr.
  rewrite Hr. cbn. f_equal. exact Hp.
Defined.

Lemma applyAttachments_idempotent_witness :
  let s' := snd (applyAttachments (H := parse_written) 5 "10" example_incoming example_attachments) in
  fst (applyAttachments (H := parse_written) 5 "10" example_incoming example_attachments) = true
  ∧ fst (applyAttachments (H := parse_written) 8 "10" example_incoming s') = false.
Proof.
  split; [vm_compute; reflexivity|].
  apply (applyAttachments_idempotent (H := parse_written) 5 8 "10" example_incoming example_attachments).
  - by apply (bool_decide_unpack _); vm_compute.
  - by apply (bool_decide_unpack _); vm_compute.
  - by repeat constructor.
Defined.

Lemma applyAttachments_retains_text_witness :
  is_Some (at_history (snd (applyAttachments (H := parse_written) 5 "10" example_incoming example_attachments)) !! ("2", "gone")%string).
Proof.
  destruct (applyAttachments_retains_text (H := parse_written) 5 "10" example_incoming example_attachments) as [_ Hall].
  exact (Hall "2"%string (mkAttachmentRow (example_attachment "2" "gone" "") (timeLayout 0)) eq_refl eq_refl eq_refl).
Defined.
