(* ===== verification/Mentions.v ===== *)
(** * Mention events

    [applyMentionEventsTx] of internal/store/write.go: the mentions of a message
    are reconciled by their natural identity (target type and id), keeping the
    event id of a mention that stays. The table's ids come from an
    autoincrement sequence; [retainMentionIDTx] (entity_state.go) keeps the
    first exact row of an id before it is changed or removed. *)
From S2P Require Import Prelude GoTime GoText Rows.
Local Open Scope Z_scope.

Record mention_row := mkMention {
  me_message : string; me_guild : string; me_channel : string; me_author : string;
  me_type : string; me_target : string; me_name : string; me_at : string
}.

#[export] Instance mention_row_eq_dec : EqDecision mention_row.
Proof. solve_decision. Defined.

(** [mn_next] is the next id of the autoincrement sequence. *)
Record mentions := mkMentions {
  mn_rows : gmap Z mention_row;
  mn_next : Z;
  mn_history : gmap Z mention_row
}.

Definition retainMentionID (id : Z) (s : mentions) : mentions :=
  match mn_rows s !! id, mn_history s !! id with
  | Some r, None => mkMentions (mn_rows s) (mn_next s) (<[id := r]> (mn_history s))
  | _, _ => s
  end.

Definition mention_key (r : mention_row) : string * string := (me_type r, me_target r).

(** [select ... where message_id=? order by event_id]. *)
Definition id_le (a b : Z * mention_row) : Prop := fst a <= fst b.
#[export] Instance id_le_dec : RelDecision id_le.
Proof. unfold id_le. intros a b. apply _. Defined.
Definition rows_of (messageID : string) (rows : gmap Z mention_row) : list (Z * mention_row) :=
  merge_sort id_le (List.filter (λ p, (me_message (snd p) =? messageID)%string) (map_to_list rows)).

(** The first loop: the lowest id of each identity, and the duplicates. *)
Fixpoint index_rows (rows : list (Z * mention_row)) (existing : gmap (string * string) (Z * mention_row)) (drop : list Z) :
    gmap (string * string) (Z * mention_row) * list Z :=
  match rows with
  | [] => (existing, drop)
  | (id, r) :: rest =>
      match existing !! mention_key r with
      | Some _ => index_rows rest existing (drop ++ [id])
      | None => index_rows rest (<[mention_key r := (id, r)]> existing) drop
      end
  end.

Section apply.
Context `{TimeParse}.

Record mention_loop := mkLoop {
  ml_changed : bool;
  ml_seen : gset (string * string);
  ml_existing : gmap (string * string) (Z * mention_row);
  ml_store : mentions
}.

Definition apply_mention (now : Z) (messageID : string) (l : mention_loop) (m : MentionEventRecord) : mention_loop :=
  let key := (mn_TargetType m, mn_TargetID m) in
  if bool_decide (key ∈ ml_seen l) then l
  else
    let seen := {[key]} ∪ ml_seen l in
    let eventAt := normalizeStoredTime (mn_EventAt m) in
    let prior := ml_existing l !! key in
    let eventAt := if (eventAt =? "")%string
                   then match prior with Some (_, p) => me_at p | None => timeLayout now end
                   else eventAt in
    let s := ml_store l in
    let row := mkMention messageID (mn_GuildID m) (mn_ChannelID m) (mn_AuthorID m) (mn_TargetType m) (mn_TargetID m) (mn_TargetName m) eventAt in
    match prior with
    | None => mkLoop true seen (ml_existing l) (mkMentions (<[mn_next s := row]> (mn_rows s)) (mn_next s + 1) (mn_history s))
    | Some (id, p) =>
        let existing := delete key (ml_existing l) in
        if (me_guild p =? mn_GuildID m)%string && (me_channel p =? mn_ChannelID m)%string && (me_author p =? mn_AuthorID m)%string
           && (me_name p =? mn_TargetName m)%string && (me_at p =? eventAt)%string
        then mkLoop (ml_changed l) seen existing s
        else
          let s := retainMentionID id s in
          mkLoop true seen existing
            (mkMentions (<[id := mkMention (me_message p) (mn_GuildID m) (mn_ChannelID m) (mn_AuthorID m) (me_type p) (me_target p) (mn_TargetName m) eventAt]>
                         (mn_rows s)) (mn_next s) (mn_history s))
    end.

Definition drop_mention (st : bool * mentions) (id : Z) : bool * mentions :=
  let s := retainMentionID id (snd st) in
  (true, mkMentions (delete id (mn_rows s)) (mn_next s) (mn_history s)).

Definition applyMentionEvents (now : Z) (messageID : string) (ms : list MentionEventRecord) (s : mentions) : bool * mentions :=
  let '(existing, drop) := index_rows (rows_of messageID (mn_rows s)) ∅ [] in
  let l := fold_left (apply_mention now messageID) ms (mkLoop false ∅ existing s) in
  let drop := drop ++ (fst ∘ snd <$> map_to_list (ml_existing l)) in
  fold_left drop_mention drop (ml_changed l, ml_store l).
End apply.

(** ** The rows of a message *)

Definition mkey (m : MentionEventRecord) : string * string := (mn_TargetType m, mn_TargetID m).

Lemma rows_of_elem mid rows id r : (id, r) ∈ rows_of mid rows ↔ rows !! id = Some r ∧ me_message r = mid.
Proof.
  unfold rows_of. rewrite merge_sort_Permutation, elem_of_lfilter, elem_of_map_to_list. cbn [snd].
  by rewrite String.eqb_eq.
Qed.

Lemma NoDup_lfilter {A B} (f : A → B) (p : A → bool) l : NoDup (f <$> l) → NoDup (f <$> List.filter p l).
Proof.
  induction l as [|x l IH]; simpl; [done|]. intros [Hx Hl]%NoDup_cons. destruct (p x); [|auto].
  simpl. apply NoDup_cons. split; [|auto]. intros (y & Hy & Hin)%list_elem_of_fmap. apply Hx.
  rewrite Hy. apply list_elem_of_fmap_2. by apply elem_of_lfilter in Hin as [? _].
Qed.

Lemma rows_of_NoDup mid rows : NoDup (fst <$> rows_of mid rows).
Proof.
  unfold rows_of. eapply NoDup_Permutation_proper; [apply fmap_Permutation, merge_sort_Permutation|].
  apply NoDup_lfilter, NoDup_fst_map_to_list.
Qed.

#[export] Instance id_le_total : Total id_le.
Proof. intros a b. unfold id_le. lia. Qed.
#[export] Instance id_le_trans : Transitive id_le.
Proof. intros a b c. unfold id_le. lia. Qed.

Lemma rows_of_sorted mid rows : StronglySorted id_le (rows_of mid rows).
Proof. apply StronglySorted_merge_sort; apply _. Qed.

(** ** The index *)

Lemma index_rows_spec rows E D E' D' :
  index_rows rows E D = (E', D') → NoDup (fst <$> rows) → StronglySorted id_le rows →
  (∀ k id r, E !! k = Some (id, r) → mention_key r = k ∧ id ∉ fst <$> rows) →
  E ⊆ E'
  ∧ (∀ k id r, E' !! k = Some (id, r) → E !! k = Some (id, r) ∨ (id, r) ∈ rows ∧ mention_key r = k)
  ∧ (∀ id r, (id, r) ∈ rows → ∃ id' r', E' !! mention_key r = Some (id', r') ∧ (E !! mention_key r = Some (id', r') ∨ id' <= id))
  ∧ (∀ id, id ∈ D' ↔ id ∈ D ∨ ∃ r, (id, r) ∈ rows ∧ E' !! mention_key r ≠ Some (id, r)).
Proof.
  revert E D. induction rows as [|[id r] rows IH]; intros E D; cbn [index_rows].
  { intros [= <- <-] _ _ _. split_and!; [done|by left|by intros ? ? ?%elem_of_nil|].
    intros id. split; [by left|]. intros [?|(r & ?%elem_of_nil & _)]; done. }
  intros Hix Hnd Hs HE. cbn [fmap list_fmap fst] in Hnd. apply NoDup_cons in Hnd as [Hni Hnd].
  apply StronglySorted_inv in Hs as [Hs Hle]. rewrite Forall_forall in Hle.
  destruct (E !! mention_key r) as [[id0 r0]|] eqn:Er.
  - destruct (IH _ _ Hix Hnd Hs) as (H1 & H2 & H3 & H4).
    { intros k i x Hx. destruct (HE _ _ _ Hx). set_solver. }
    split_and!; [done|..].
    + intros k i x [?|[? ?]]%H2; [by left|]. right. split; [by right|done].
    + intros i x [[= -> ->]|Hin]%elem_of_cons; [|by apply H3].
      exists id0, r0. split; [by eapply lookup_weaken|by left].
    + intros i. rewrite H4, elem_of_app, list_elem_of_singleton. split.
      * intros [[?|Heq]|(x & ? & ?)]; [by left| |].
        -- subst i. right. exists r. split; [by left|]. rewrite (lookup_weaken _ _ _ _ Er H1). intros [= -> ->].
           destruct (HE _ _ _ Er) as [_ Hn]. apply Hn. by left.
        -- right. exists x. split; [by right|done].
      * intros [?|(x & [[= -> ->]|?]%elem_of_cons & ?)]; [by left; left|by left; right|]. right. eauto.
  - destruct (IH _ _ Hix Hnd Hs) as (H1 & H2 & H3 & H4).
    { intros k i x. rewrite lookup_insert_Some. intros [[<- [= <- <-]]|[_ Hx]]; [done|].
      destruct (HE _ _ _ Hx) as [? Hn]. split; [done|]. cbn [fmap list_fmap fst] in Hn. set_solver. }
    assert (Hkey : E' !! mention_key r = Some (id, r)) by (eapply lookup_weaken; [apply lookup_insert_eq|done]).
    split_and!.
    + etransitivity; [by apply insert_subseteq|done].
    + intros k i x [Hx|[? ?]]%H2; [|right; split; [by right|done]].
      apply lookup_insert_Some in Hx as [[<- [= <- <-]]|[_ Hx]]; [right; split; [by left|done]|by left].
    + intros i x [[= -> ->]|Hin]%elem_of_cons; [exists id, r; split; [done|right; lia]|].
      destruct (H3 i x Hin) as (i' & x' & Hx & [Hi|Hi]); exists i', x'; (split; [done|]); [|by right].
      apply lookup_insert_Some in Hi as [[Hk [= <- <-]]|[_ Hi]]; [|by left].
      right. apply (Hle (i, x)) in Hin. unfold id_le in Hin. cbn in Hin. lia.
    + intros i. rewrite H4. split.
      * intros [?|(x & ? & ?)]; [by left|]. right. exists x. split; [by right|done].
      * intros [?|(x & [[= -> ->]|?]%elem_of_cons & ?)]; [by left|done|]. right. eauto.
Qed.

(** ** The reconciliation loop *)

(** Ids in use are below the sequence. *)
Definition ids_fresh (s : mentions) : Prop := ∀ id r, mn_rows s !! id = Some r → id < mn_next s.

(** Each prior row is still as it was or in the history; a history entry made
    for it holds the row as it was. *)
Definition accounted (s0 s : mentions) : Prop :=
  (∀ id r, mn_rows s0 !! id = Some r →
     (mn_rows s !! id = Some r ∨ is_Some (mn_history s !! id))
     ∧ (mn_history s0 !! id = None → mn_history s !! id = None ∨ mn_history s !! id = Some r))
  ∧ mn_history s0 ⊆ mn_history s.

Lemma accounted_refl s : accounted s s.
Proof. split; [|done]. intros id r Hr. split; [by left|by left]. Qed.

(** Retaining the row of [id] makes it safe to change or delete that row. *)
Lemma accounted_retained s0 s id rows' next' :
  accounted s0 s →
  (∀ i, i ≠ id → is_Some (mn_rows s0 !! i) → rows' !! i = mn_rows s !! i) →
  accounted s0 (mkMentions rows' next' (mn_history (retainMentionID id s))).
Proof.
  intros [Ha Hh] Hoth.
  assert (Hmono : mn_history s ⊆ mn_history (retainMentionID id s)).
  { unfold retainMentionID. destruct (mn_rows s !! id), (mn_history s !! id) eqn:Eh; cbn [mn_history]; try done. by apply insert_subseteq. }
  assert (Hne : ∀ i, i ≠ id → mn_history (retainMentionID id s) !! i = mn_history s !! i).
  { intros i Hi. unfold retainMentionID. destruct (mn_rows s !! id), (mn_history s !! id); cbn [mn_history]; try done. by rewrite lookup_insert_ne. }
  split; cbn [mn_rows mn_history]; [|by etransitivity].
  intros i r Hr. destruct (Ha i r Hr) as [H1 H2]. destruct (decide (i = id)) as [->|Hi]; [|by rewrite Hne, Hoth by eauto].
  unfold retainMentionID.
  destruct (mn_rows s !! id) as [x|] eqn:Ex, (mn_history s !! id) as [h|] eqn:Eh; cbn [mn_history]; rewrite ?lookup_insert_eq, ?Eh.
  - split; [right; eauto|]. done.
  - split; [right; eauto|]. intros _. right. by destruct H1 as [[= ->]|[? ?]].
  - split; [right; eauto|done].
  - destruct H1 as [?|[? ?]]; done.
Qed.

Section loop.
Context `{TimeParse} (now : Z) (mid : string) (s0 : mentions) (E : gmap (string * string) (Z * mention_row)).
Hypothesis Hfresh : ids_fresh s0.
Hypothesis HE : ∀ k id p, E !! k = Some (id, p) → mn_rows s0 !! id = Some p ∧ me_message p = mid ∧ mention_key p = k.

(** A row carries what a mention says; the time is the mention's when it has one. *)
Definition agrees (m : MentionEventRecord) (r : mention_row) : Prop :=
  me_message r = mid ∧ mention_key r = mkey m ∧ me_guild r = mn_GuildID m ∧ me_channel r = mn_ChannelID m
  ∧ me_author r = mn_AuthorID m ∧ me_name r = mn_TargetName m
  ∧ (normalizeStoredTime (mn_EventAt m) ≠ ""%string → me_at r = normalizeStoredTime (mn_EventAt m)).

Definition first_mention (k : string * string) (ms : list MentionEventRecord) : option MentionEventRecord :=
  List.find (λ m, bool_decide (mkey m = k)) ms.

Record loop_inv (done : list MentionEventRecord) (l : mention_loop) : Prop := {
  li_seen k : k ∈ ml_seen l ↔ is_Some (first_mention k done);
  li_existing k : ml_existing l !! k = if decide (k ∈ ml_seen l) then None else E !! k;
  li_fresh : ids_fresh (ml_store l);
  li_next : mn_next s0 <= mn_next (ml_store l);
  li_old id : id < mn_next s0 → (∀ k p, E !! k = Some (id, p) → k ∉ ml_seen l) →
              mn_rows (ml_store l) !! id = mn_rows s0 !! id;
  li_kept k id p m : E !! k = Some (id, p) → first_mention k done = Some m →
              ∃ r, mn_rows (ml_store l) !! id = Some r ∧ agrees m r;
  li_new id r : mn_next s0 <= id → mn_rows (ml_store l) !! id = Some r →
              E !! mention_key r = None ∧ ∃ m, first_mention (mention_key r) done = Some m ∧ agrees m r;
  li_made k m : E !! k = None → first_mention k done = Some m →
              ∃ id r, mn_next s0 <= id ∧ mn_rows (ml_store l) !! id = Some r ∧ mention_key r = k;
  li_unique id id' r r' : mn_next s0 <= id → mn_next s0 <= id' → mn_rows (ml_store l) !! id = Some r →
              mn_rows (ml_store l) !! id' = Some r' → mention_key r = mention_key r' → id = id';
  li_accounted : accounted s0 (ml_store l)
}.

Lemma first_mention_snoc k ms m :
  first_mention k (ms ++ [m]) = match first_mention k ms with
                                | Some x => Some x
                                | None => if bool_decide (mkey m = k) then Some m else None
                                end.
Proof.
  unfold first_mention. induction ms as [|x ms IH]; simpl; [by destruct (bool_decide _)|]. by destruct (bool_decide (mkey x = k)).
Qed.

Lemma first_mention_key k ms m : first_mention k ms = Some m → mkey m = k ∧ m ∈ ms.
Proof. intros [? ?%bool_decide_eq_true]%find_some. split; [done|]. by apply list_elem_of_In. Qed.

Lemma E_inj k k' id p p' : E !! k = Some (id, p) → E !! k' = Some (id, p') → k = k'.
Proof. intros (? & _ & ?)%HE (? & _ & ?)%HE. congruence. Qed.

(** What the first mention of a key becomes when one more is processed. *)
Lemma first_old k ms m x : first_mention k ms = Some x → first_mention k (ms ++ [m]) = Some x.
Proof. intros Hx. by rewrite first_mention_snoc, Hx. Qed.
Lemma first_cases k ms m x :
  first_mention k (ms ++ [m]) = Some x → first_mention k ms = Some x ∨ first_mention k ms = None ∧ mkey m = k ∧ x = m.
Proof.
  rewrite first_mention_snoc. destruct (first_mention k ms); [by left|]. case_bool_decide; [|done]. intros [= ->]. by right.
Qed.
Lemma first_new ms m : first_mention (mkey m) ms = None → first_mention (mkey m) (ms ++ [m]) = Some m.
Proof. intros Hx. by rewrite first_mention_snoc, Hx, bool_decide_eq_true_2. Qed.

Lemma step_seen ms l m : loop_inv ms l → is_Some (first_mention (mkey m) ms) → loop_inv (ms ++ [m]) l.
Proof.
  intros I Hs. assert (Hk : ∀ k, first_mention k (ms ++ [m]) = first_mention k ms).
  { intros k. rewrite first_mention_snoc. destruct (first_mention k ms) eqn:E1; [done|].
    case_bool_decide as Hk; [|done]. subst k. rewrite E1 in Hs. by destruct Hs. }
  destruct I. split; try done; intros *; rewrite ?Hk; eauto.
Qed.

(** The bookkeeping of a key seen for the first time. *)
Lemma seen_step ms l m k :
  loop_inv ms l → k ∈ {[mkey m]} ∪ ml_seen l ↔ is_Some (first_mention k (ms ++ [m])).
Proof.
  intros I. rewrite elem_of_union, elem_of_singleton, (li_seen _ _ I), first_mention_snoc.
  destruct (first_mention k ms); [naive_solver|]. case_bool_decide; naive_solver.
Qed.

Lemma step_insert ms l m row at_ :
  loop_inv ms l → first_mention (mkey m) ms = None → E !! mkey m = None → agrees m row →
  at_ = mn_next (ml_store l) →
  loop_inv (ms ++ [m]) (mkLoop true ({[mkey m]} ∪ ml_seen l) (ml_existing l)
     (mkMentions (<[at_ := row]> (mn_rows (ml_store l))) (at_ + 1) (mn_history (ml_store l)))).
Proof.
  intros I Hf HEm Hag ->. pose proof (li_next _ _ I) as Hnext. pose proof (li_fresh _ _ I) as Hfr.
  assert (Hrk : mention_key row = mkey m) by apply Hag.
  split; cbn [ml_seen ml_existing ml_store mn_rows mn_next mn_history]; try lia.
  - intros k. by apply seen_step.
  - intros k. rewrite (li_existing _ _ I). repeat case_decide; set_solver.
  - intros id r. cbn [mn_rows mn_next]. rewrite lookup_insert_Some. intros [[<- _]|[_ Hr]]; [lia|]. specialize (Hfr _ _ Hr). lia.
  - intros id Hid Hk. rewrite lookup_insert_ne by lia. apply (li_old _ _ I); [done|]. intros k p Hp. specialize (Hk k p Hp). set_solver.
  - intros k id p x Hp [Hx|(_ & <- & ->)]%first_cases; [|congruence].
    destruct (HE _ _ _ Hp) as (Hr & _). specialize (Hfresh _ _ Hr). rewrite lookup_insert_ne by lia. by eapply (li_kept _ _ I).
  - intros id r Hid. rewrite lookup_insert_Some. intros [[<- <-]|[Hne Hr]].
    + rewrite Hrk. split; [done|]. exists m. split; [by apply first_new|done].
    + destruct (li_new _ _ I id r Hid Hr) as (HEn & x & Hx & Ha). split; [done|]. exists x. split; [by apply first_old|done].
  - intros k x Hk [Hx|(_ & <- & ->)]%first_cases.
    + destruct (li_made _ _ I k x Hk Hx) as (id & r & ? & Hr & ?). exists id, r. split_and!; [done| |done].
      rewrite lookup_insert_ne; [done|]. specialize (Hfr _ _ Hr). lia.
    + exists (mn_next (ml_store l)), row. rewrite lookup_insert_eq. done.
  - intros id id' r r' Hid Hid'. rewrite !lookup_insert_Some. intros [[<- <-]|[Hn1 H1]] [[<- <-]|[Hn2 H2]] Heq; [done|..].
    + destruct (li_new _ _ I _ _ Hid' H2) as (_ & x & Hx & _). rewrite <- Heq, Hrk in Hx. congruence.
    + destruct (li_new _ _ I _ _ Hid H1) as (_ & x & Hx & _). rewrite Heq, Hrk in Hx. congruence.
    + by eapply (li_unique _ _ I).
  - destruct (li_accounted _ _ I) as [Ha Hh]. split; [|done]. cbn [mn_rows mn_history]. intros id r Hr.
    specialize (Hfresh _ _ Hr). rewrite lookup_insert_ne by lia. by apply Ha.
Qed.

Lemma step_update ms l m id p b s' :
  loop_inv ms l → first_mention (mkey m) ms = None → E !! mkey m = Some (id, p) →
  (∃ row, mn_rows s' !! id = Some row ∧ agrees m row) → (∀ i, i ≠ id → mn_rows s' !! i = mn_rows (ml_store l) !! i) →
  mn_next s' = mn_next (ml_store l) → accounted s0 s' →
  loop_inv (ms ++ [m]) (mkLoop b ({[mkey m]} ∪ ml_seen l) (delete (mkey m) (ml_existing l)) s').
Proof.
  intros I Hf HEm (row & Hrow & Hag) Hoth Hn Hacc. pose proof (li_next _ _ I) as Hnext. pose proof (li_fresh _ _ I) as Hfr.
  destruct (HE _ _ _ HEm) as (Hp0 & Hpm & Hpk). pose proof (Hfresh _ _ Hp0) as Hidlt.
  assert (Hns : mkey m ∉ ml_seen l) by (rewrite (li_seen _ _ I), Hf; by intros [? ?]).
  assert (Hrid : mn_rows (ml_store l) !! id = Some p).
  { rewrite (li_old _ _ I); [done|done|]. intros k q Hq. by rewrite (E_inj _ _ _ _ _ Hq HEm). }
  split; cbn [ml_seen ml_existing ml_store]; rewrite ?Hn; try done.
  - intros k. by apply seen_step.
  - intros k. destruct (decide (k = mkey m)) as [->|Hne].
    + rewrite lookup_delete_eq. case_decide; set_solver.
    + rewrite lookup_delete_ne by done. rewrite (li_existing _ _ I). repeat case_decide; set_solver.
  - intros i r Hr. rewrite Hn. destruct (decide (i = id)) as [->|Hne]; [by eapply Hfr|]. rewrite Hoth in Hr by done. by eapply Hfr.
  - intros i Hi Hk. destruct (decide (i = id)) as [->|Hne]; [specialize (Hk _ _ HEm); set_solver|].
    rewrite Hoth by done. apply (li_old _ _ I); [done|]. intros k q Hq. specialize (Hk _ _ Hq). set_solver.
  - intros k i q x Hq [Hx|(_ & <- & ->)]%first_cases.
    + rewrite Hoth; [by eapply (li_kept _ _ I)|]. intros ->. pose proof (E_inj _ _ _ _ _ Hq HEm) as ->. congruence.
    + rewrite HEm in Hq. injection Hq as <- <-. eauto.
  - intros i r Hi. rewrite Hoth by lia. intros Hr. destruct (li_new _ _ I i r Hi Hr) as (? & x & ? & ?).
    split; [done|]. exists x. split; [by apply first_old|done].
  - intros k x Hk [Hx|(_ & <- & ->)]%first_cases; [|congruence].
    destruct (li_made _ _ I k x Hk Hx) as (i & r & ? & Hr & ?). exists i, r. rewrite Hoth by lia. done.
  - intros i i' r r' Hi Hi'. rewrite !Hoth by lia. by apply (li_unique _ _ I).
Qed.

Lemma loop_step ms l m : loop_inv ms l → loop_inv (ms ++ [m]) (apply_mention now mid l m).
Proof.
  intros I. unfold apply_mention. fold (mkey m). case_bool_decide as Hseen; [by apply step_seen, (li_seen _ _ I)|].
  assert (Hf : first_mention (mkey m) ms = None).
  { destruct (first_mention (mkey m) ms) eqn:Ef; [|done]. exfalso. apply Hseen, (li_seen _ _ I). eauto. }
  cbv zeta. rewrite (li_existing _ _ I). rewrite decide_False by done.
  destruct (E !! mkey m) as [[id p]|] eqn:Em; [|apply step_insert; [done..| |done]].
  2: { repeat split. cbn. intros Hne. by destruct (String.eqb_spec (normalizeStoredTime (mn_EventAt m)) ""). }
  destruct (HE _ _ _ Em) as (Hp0 & Hpm & Hpk).
  assert (Hrid : mn_rows (ml_store l) !! id = Some p).
  { rewrite (li_old _ _ I); [done|by eapply Hfresh|]. intros k q Hq. by rewrite (E_inj _ _ _ _ _ Hq Em). }
  case_match eqn:Esame.
  - eapply step_update; try done; [|apply (li_accounted _ _ I)]. exists p. split; [done|]. propify.
    repeat split; try done. intros Hne. by destruct (String.eqb_spec (normalizeStoredTime (mn_EventAt m)) "").
  - assert (Hret : mn_rows (retainMentionID id (ml_store l)) = mn_rows (ml_store l) ∧ mn_next (retainMentionID id (ml_store l)) = mn_next (ml_store l)).
    { unfold retainMentionID. rewrite Hrid. by destruct (mn_history (ml_store l) !! id). }
    destruct Hret as [-> ->]. eapply step_update; try done; cbn [mn_rows mn_next].
    + eexists. split; [apply lookup_insert_eq|]. repeat split; cbn; try done.
      intros Hne. by destruct (String.eqb_spec (normalizeStoredTime (mn_EventAt m)) "").
    + intros i Hi. by rewrite lookup_insert_ne.
    + apply accounted_retained; [apply (li_accounted _ _ I)|]. intros i Hi _. by rewrite lookup_insert_ne.
Qed.

Lemma loop_start : loop_inv [] (mkLoop false ∅ E s0).
Proof.
  split; cbn [ml_seen ml_existing ml_store]; try done.
  - intros k. split; [set_solver|by intros [? ?]].
  - intros id r Hid Hr. specialize (Hfresh _ _ Hr). lia.
  - intros id id' r r' Hid _ Hr. specialize (Hfresh _ _ Hr). lia.
  - apply accounted_refl.
Qed.

Lemma loop_done ms : loop_inv ms (fold_left (apply_mention now mid) ms (mkLoop false ∅ E s0)).
Proof.
  rewrite <- (rev_involutive ms). induction (rev ms) as [|m t IH]; [apply loop_start|].
  cbn [rev]. rewrite fold_left_app. by apply loop_step.
Qed.
End loop.

Lemma drop_spec s0 ids st :
  accounted s0 (snd st) → ids_fresh (snd st) →
  let st' := fold_left drop_mention ids st in
  accounted s0 (snd st') ∧ ids_fresh (snd st') ∧ mn_next (snd st') = mn_next (snd st)
  ∧ (∀ id, mn_rows (snd st') !! id = if decide (id ∈ ids) then None else mn_rows (snd st) !! id)
  ∧ (fst st' = false → ids = []).
Proof.
  cbv zeta. revert st. induction ids as [|i ids IH]; intros [b s] Ha Hf; cbn [fold_left snd fst] in *.
  { by split_and!. }
  assert (Hret : mn_rows (retainMentionID i s) = mn_rows s ∧ mn_next (retainMentionID i s) = mn_next s).
  { unfold retainMentionID. by destruct (mn_rows s !! i), (mn_history s !! i). }
  destruct Hret as [Hr Hn].
  destruct (IH (drop_mention (b, s) i)) as (H1 & H2 & H3 & H4 & H5); unfold drop_mention in *; cbn [snd fst] in *.
  - rewrite Hr. apply accounted_retained; [done|]. intros j Hj _. by rewrite lookup_delete_ne.
  - intros id r. cbn [mn_rows mn_next]. rewrite Hr, Hn, lookup_delete_Some. intros [_ ?]. by eapply Hf.
  - split_and!; [done|done| | |].
    + rewrite H3. cbn [mn_next]. done.
    + intros id. rewrite H4. cbn [mn_rows]. rewrite Hr. destruct (decide (id = i)) as [->|Hne].
      * rewrite lookup_delete_eq. repeat case_decide; set_solver.
      * rewrite lookup_delete_ne by done. repeat case_decide; set_solver.
    + intros Hb. specialize (H5 Hb). subst ids. cbn in Hb. done.
Qed.

(** The state after the reconciliation, seen from the identities. *)
Record reconciled `{TimeParse} (mid : string) (ms : list MentionEventRecord) (s s' : mentions) : Prop := {
  rc_fresh : ids_fresh s';
  rc_next : mn_next s <= mn_next s';
  rc_others id r : me_message r ≠ mid → mn_rows s' !! id = Some r ↔ mn_rows s !! id = Some r;
  rc_rows id r : mn_rows s' !! id = Some r → me_message r = mid → ∃ m, first_mention (mention_key r) ms = Some m ∧ agrees mid m r;
  rc_mentions m k : first_mention k ms = Some m → ∃ id r, mn_rows s' !! id = Some r ∧ agrees mid m r;
  rc_identity id id' r r' : mn_rows s' !! id = Some r → mn_rows s' !! id' = Some r' → me_message r = mid → me_message r' = mid →
     mention_key r = mention_key r' → id = id';
  rc_stable id r : mn_rows s' !! id = Some r → me_message r = mid →
     (∃ p, mn_rows s !! id = Some p ∧ me_message p = mid ∧ mention_key p = mention_key r
           ∧ ∀ i q, mn_rows s !! i = Some q → me_message q = mid → mention_key q = mention_key r → id <= i)
     ∨ mn_next s <= id ∧ ∀ i q, mn_rows s !! i = Some q → me_message q = mid → mention_key q ≠ mention_key r
}.

Lemma applyMentionEvents_spec `{TimeParse} now mid ms s :
  ids_fresh s →
  reconciled mid ms s (snd (applyMentionEvents now mid ms s)) ∧ accounted s (snd (applyMentionEvents now mid ms s)).
Proof.
  intros Hfresh. unfold applyMentionEvents.
  destruct (index_rows (rows_of mid (mn_rows s)) ∅ []) as [E D] eqn:Eix.
  destruct (index_rows_spec _ _ _ _ _ Eix (rows_of_NoDup _ _) (rows_of_sorted _ _)) as (_ & HE & Hlow & HD); [by intros ? ? ? ?|].
  assert (HE' : ∀ k id p, E !! k = Some (id, p) → mn_rows s !! id = Some p ∧ me_message p = mid ∧ mention_key p = k).
  { intros k id p [Hx|[Hin Hk]]%HE; [done|]. apply rows_of_elem in Hin as [? ?]. done. }
  clear HE. pose proof (loop_done now mid s E Hfresh HE' ms) as I.
  set (l := fold_left _ ms _) in *. set (drop := D ++ _).
  destruct (drop_spec s drop (ml_changed l, ml_store l) (li_accounted _ _ _ _ _ I) (li_fresh _ _ _ _ _ I)) as (Hacc & Hf & Hn & Hrows & _).
  set (s' := snd (fold_left drop_mention drop (ml_changed l, ml_store l))) in *. cbn [snd] in *.
  assert (Hdrop : ∀ id, id ∈ drop ↔ (∃ r, mn_rows s !! id = Some r ∧ me_message r = mid ∧ E !! mention_key r ≠ Some (id, r))
                                    ∨ ∃ k p, E !! k = Some (id, p) ∧ first_mention k ms = None).
  { intros id. unfold drop. rewrite elem_of_app, HD, list_elem_of_fmap. split.
    - intros [[?%elem_of_nil|(r & [Hr Hm]%rows_of_elem & Hne)]|([k [i p]] & -> & Hin%elem_of_map_to_list)]; [done|left; eauto|].
      right. rewrite (li_existing _ _ _ _ _ I) in Hin. case_decide as Hs; [done|]. exists k, p. split; [done|].
      destruct (first_mention k ms) eqn:Ef; [|done]. exfalso. apply Hs, (li_seen _ _ _ _ _ I). eauto.
    - intros [(r & Hr & Hm & Hne)|(k & p & Hk & Hf0)].
      + left. right. exists r. split; [by apply rows_of_elem|done].
      + right. exists (k, (id, p)). split; [done|]. apply elem_of_map_to_list. rewrite (li_existing _ _ _ _ _ I).
        rewrite decide_False; [done|]. rewrite (li_seen _ _ _ _ _ I), Hf0. by intros [? ?]. }
  assert (Hnew : ∀ k id p, E !! k = Some (id, p) → id < mn_next s) by (intros k id p (Hp & _)%HE'; by eapply Hfresh).
  assert (Hcases : ∀ id r, mn_rows s' !! id = Some r →
    (∃ p m, E !! mention_key r = Some (id, p) ∧ first_mention (mention_key r) ms = Some m ∧ agrees mid m r)
    ∨ (mn_next s <= id ∧ E !! mention_key r = None ∧ ∃ m, first_mention (mention_key r) ms = Some m ∧ agrees mid m r)
    ∨ (mn_rows s !! id = Some r ∧ me_message r ≠ mid)).
  { intros id r Hr. rewrite Hrows in Hr. case_decide as Hnd; [done|]. rewrite Hdrop in Hnd.
    destruct (Z.le_gt_cases (mn_next s) id) as [Hid|Hid].
    { right. left. destruct (li_new _ _ _ _ _ I id r Hid Hr). done. }
    destruct (mn_rows s !! id) as [q|] eqn:Eq.
    - destruct (decide (me_message q = mid)) as [Hq|Hq].
      + destruct (decide (E !! mention_key q = Some (id, q))) as [HEq|HEq]; [|exfalso; apply Hnd; left; eauto].
        destruct (first_mention (mention_key q) ms) as [m|] eqn:Ef; [|exfalso; apply Hnd; right; eauto].
        destruct (li_kept _ _ _ _ _ I _ _ _ _ HEq Ef) as (r1 & Hr1 & Hag). assert (r1 = r) as -> by congruence.
        left. assert (Hk : mention_key r = mention_key q).
        { destruct (first_mention_key _ _ _ Ef) as [<- _]. apply Hag. }
        exists q, m. by rewrite Hk.
      + right. right. rewrite (li_old _ _ _ _ _ I) in Hr; [split; congruence|done|].
        intros k p (Hp & Hm & _)%HE'. congruence.
    - rewrite (li_old _ _ _ _ _ I) in Hr; [congruence|done|]. intros k p (Hp & _)%HE'. congruence. }
  split; [split|done].
  - done.
  - cbn in Hn. rewrite Hn. apply (li_next _ _ _ _ _ I).
  - intros id r Hne. split.
    + intros [(p & m & _ & _ & Hag)|[(_ & _ & m & _ & Hag)|[? _]]]%Hcases; [by destruct Hag as [? _]|by destruct Hag as [? _]|done].
    + intros Hr. rewrite Hrows, decide_False.
      * rewrite (li_old _ _ _ _ _ I); [done|by eapply Hfresh|]. intros k p (Hp & Hm & _)%HE'. congruence.
      * rewrite Hdrop. intros [(q & Hq & Hm & _)|(k & p & (Hp & Hm & _)%HE' & _)]; congruence.
  - intros id r [(p & m & _ & Hf1 & Hag)|[(_ & _ & m & Hf1 & Hag)|[_ ?]]]%Hcases Hm; [eauto|eauto|done].
  - intros m k Hk. destruct (E !! k) as [[id p]|] eqn:Ek.
    + destruct (li_kept _ _ _ _ _ I _ _ _ _ Ek Hk) as (r & Hr & Hag). exists id, r. split; [|done].
      rewrite Hrows, decide_False; [done|]. rewrite Hdrop. destruct (HE' _ _ _ Ek) as (Hp & Hm & Hkp).
      intros [(q & Hq & Hqm & HEq)|(k' & p' & Hk' & Hf0)].
      * assert (q = p) as -> by congruence. rewrite Hkp in HEq. done.
      * rewrite (E_inj mid s E HE' _ _ _ _ _ Hk' Ek) in Hf0. congruence.
    + destruct (li_made _ _ _ _ _ I _ _ Ek Hk) as (id & r & Hid & Hr & Hkr). exists id, r.
      destruct (li_new _ _ _ _ _ I id r Hid Hr) as (_ & m' & Hm' & Hag). rewrite Hkr in Hm'.
      assert (m' = m) as -> by congruence. split; [|done]. rewrite Hrows, decide_False; [done|]. rewrite Hdrop.
      intros [(q & Hq%Hfresh & _)|(k' & p' & Hk'%Hnew & _)]; lia.
  - intros id id' r r' H1 H2 Hm Hm' Heq.
    destruct (Hcases _ _ H1) as [(p & m & HE1 & _)|[(Hi1 & HE1 & _)|[_ ?]]], (Hcases _ _ H2) as [(p' & m' & HE2 & _)|[(Hi2 & HE2 & _)|[_ ?]]];
      try done; rewrite Heq in HE1; try congruence.
    rewrite Hrows in H1, H2. repeat case_decide; try done. by eapply (li_unique _ _ _ _ _ I).
  - intros id r [(p & m & HEr & _)|[(Hid & HEr & _)|[_ ?]]]%Hcases Hm; [left|right|done].
    + destruct (HE' _ _ _ HEr) as (Hp & Hpm & Hpk). exists p. split_and!; [done..|]. intros i q Hq Hqm Hqk.
      destruct (Hlow i q) as (i' & r' & Hi' & [?|?]); [by apply rows_of_elem|done|]. rewrite Hqk, HEr in Hi'. by injection Hi' as <- <-.
    + split; [done|]. intros i q Hq Hqm Hqk. destruct (Hlow i q) as (i' & r' & Hi' & _); [by apply rows_of_elem|]. congruence.
Qed.

(** ** Reconciling again *)

Lemma first_mention_app k pre post :
  first_mention k (pre ++ post) = match first_mention k pre with Some m => Some m | None => first_mention k post end.
Proof. unfold first_mention. induction pre as [|x pre IH]; simpl; [done|]. by destruct (bool_decide (mkey x = k)). Qed.

Lemma settled_loop `{TimeParse} (now : Z) (mid : string) (E : gmap (string * string) (Z * mention_row)) (s : mentions) (ms : list MentionEventRecord) :
  (∀ k m, first_mention k ms = Some m → ∃ id p, E !! k = Some (id, p) ∧ agrees mid m p) →
  ∀ post pre l, ms = pre ++ post →
  ml_changed l = false → ml_store l = s →
  (∀ k, k ∈ ml_seen l ↔ is_Some (first_mention k pre)) →
  (∀ k, ml_existing l !! k = if decide (k ∈ ml_seen l) then None else E !! k) →
  let l' := fold_left (apply_mention now mid) post l in
  ml_changed l' = false ∧ ml_store l' = s
  ∧ ∀ k, ml_existing l' !! k = if decide (is_Some (first_mention k ms)) then None else E !! k.
Proof.
  intros HE. induction post as [|m post IH]; intros pre l Hms Hc Hs Hseen Hex; cbv zeta; cbn [fold_left].
  { rewrite app_nil_r in Hms. subst ms. split_and!; [done..|]. intros k. rewrite Hex. by repeat case_decide; try naive_solver. }
  apply (IH (pre ++ [m])); clear IH; [by rewrite <- app_assoc|..]; unfold apply_mention; fold (mkey m).
  all: case_bool_decide as Hm; [apply Hseen in Hm as [x Hx]|
    destruct (first_mention (mkey m) pre) as [x|] eqn:Ef; [exfalso; apply Hm, Hseen; eauto|];
    destruct (HE (mkey m) m) as (id & p & Hp & Hag);
      [rewrite Hms, first_mention_app, Ef; unfold first_mention; cbn; by rewrite bool_decide_eq_true_2|];
    cbv zeta; rewrite Hex, decide_False, Hp by done].
  all: try done.
  all: try (destruct Hag as (H1 & H2 & H3 & H4 & H5 & H6 & H7);
    assert (me_at p = if (normalizeStoredTime (mn_EventAt m) =? "")%string then me_at p else normalizeStoredTime (mn_EventAt m)) as Hat
      by (destruct (String.eqb_spec (normalizeStoredTime (mn_EventAt m)) ""); auto);
    rewrite <- Hat, H3, H4, H5, H6, !String.eqb_refl; cbn [andb ml_changed ml_store ml_seen ml_existing]; try done).
  - intros k. rewrite Hseen, first_mention_app. destruct (first_mention k pre) eqn:Ek; [naive_solver|].
    unfold first_mention. cbn. case_bool_decide; [|done]. subst k. congruence.
  - intros k. rewrite elem_of_union, elem_of_singleton, Hseen, first_mention_app.
    destruct (first_mention k pre) eqn:Ek; [naive_solver|]. unfold first_mention. cbn. case_bool_decide; naive_solver.
  - intros k. destruct (decide (k = mkey m)) as [->|Hne].
    + rewrite lookup_delete_eq, decide_True by set_solver. done.
    + rewrite lookup_delete_ne, Hex by done. repeat case_decide; set_solver.
Qed.

Lemma applyMentionEvents_settled `{TimeParse} now mid ms s0 s :
  reconciled mid ms s0 s → applyMentionEvents now mid ms s = (false, s).
Proof.
  intros R. unfold applyMentionEvents.
  destruct (index_rows (rows_of mid (mn_rows s)) ∅ []) as [E D] eqn:Eix.
  destruct (index_rows_spec _ _ _ _ _ Eix (rows_of_NoDup _ _) (rows_of_sorted _ _)) as (_ & HE & Hlow & HD); [by intros ? ? ? ?|].
  assert (HE' : ∀ k id p, E !! k = Some (id, p) → mn_rows s !! id = Some p ∧ me_message p = mid ∧ mention_key p = k).
  { intros k id p [Hx|[Hin Hk]]%HE; [done|]. apply rows_of_elem in Hin as [? ?]. done. }
  assert (Hown : ∀ id r, mn_rows s !! id = Some r → me_message r = mid → E !! mention_key r = Some (id, r)).
  { intros id r Hr Hm. destruct (Hlow id r) as (id' & r' & Hk & _); [by apply rows_of_elem|].
    destruct (HE' _ _ _ Hk) as (Hr' & Hm' & Hkk).
    assert (id' = id) as -> by (eapply (rc_identity _ _ _ _ R); eauto). by assert (r' = r) as -> by congruence. }
  assert (D = []) as ->.
  { destruct D as [|id D]; [done|]. exfalso. destruct (proj1 (HD id) ltac:(left)) as [?%elem_of_nil|(r & [Hr Hm]%rows_of_elem & Hne)]; [done|].
    by apply Hne, Hown. }
  destruct (settled_loop now mid E s ms) with (post := ms) (pre := @nil MentionEventRecord) (l := mkLoop false ∅ E s) as (Hc & Hs & Hex); try done.
  { intros k m Hk. destruct (rc_mentions _ _ _ _ R m k Hk) as (id & r & Hr & Hag). exists id, r. split; [|done].
    destruct (first_mention_key _ _ _ Hk) as [<- _]. destruct Hag as (Hm & <- & _). by apply Hown. }
  { intros k. split; [set_solver|by intros [? ?]]. }
  assert (ml_existing (fold_left (apply_mention now mid) ms (mkLoop false ∅ E s)) = ∅) as He.
  { apply map_empty. intros k. rewrite Hex. case_decide as Hd; [done|]. destruct (E !! k) as [[id p]|] eqn:Ek; [|done].
    exfalso. apply Hd. destruct (HE' _ _ _ Ek) as (Hr & Hm & <-). destruct (rc_rows _ _ _ _ R _ _ Hr Hm) as (m & Hm' & _). eauto. }
  rewrite He, map_to_list_empty. cbn [fmap list_fmap app fold_left]. by rewrite Hc, Hs.
Qed.

(** ** Properties *)

(** C28: after the reconciliation the mentions of a message are, one row per
    identity, exactly those the incoming list names (the first of each
    identity), with the incoming columns; an identity that was already stored
    keeps its lowest event id, a new one gets an id the sequence has never
    issued, and the rows of other messages are untouched. *)
Theorem applyMentionEvents_reconciles `{TimeParse} (now : Z) (mid : string) (ms : list MentionEventRecord) (s : mentions)
    (Hfresh : ids_fresh s) :
  reconciled mid ms s (snd (applyMentionEvents now mid ms s)).
Proof. by apply applyMentionEvents_spec. Qed.

(** no mention is lost: after the reconciliation each earlier row is still
    stored as it was, or its id is in the history; an id that enters the history
    here does so with the exact row it had before, and the history never
    forgets an entry. *)
Theorem applyMentionEvents_keeps_history `{TimeParse} (now : Z) (mid : string) (ms : list MentionEventRecord) (s : mentions)
    (Hfresh : ids_fresh s) :
  accounted s (snd (applyMentionEvents now mid ms s)).
Proof. by apply applyMentionEvents_spec. Qed.

(** reconciling with the same mentions again changes nothing at all: no
    row, no event id, no history entry, and no change is reported. *)
Theorem applyMentionEvents_idempotent `{TimeParse} (now later : Z) (mid : string) (ms : list MentionEventRecord) (s : mentions)
    (Hfresh : ids_fresh s) :
  let s' := snd (applyMentionEvents now mid ms s) in
  applyMentionEvents later mid ms s' = (false, s').
Proof. cbv zeta. by eapply applyMentionEvents_settled, applyMentionEvents_spec. Qed.

(** ** Witnesses *)

Definition stored_mention (target name : string) : mention_row := mkMention "10" "9" "7" "3" "user" target name (timeLayout 0).
Definition incoming_mention (target name : string) : MentionEventRecord := mkMentionRecord "10" "9" "7" "3" "user" target name "".
(** Two duplicates of one identity, and a mention that disappears. *)
Definition example_mentions : mentions :=
  mkMentions {[ 4 := stored_mention "1" "ann"; 5 := stored_mention "1" "ann"; 6 := stored_mention "2" "bob" ]} 7 ∅.
Definition example_mentioned : list MentionEventRecord := [incoming_mention "1" "anna"; incoming_mention "3" "cy"; incoming_mention "1" "x"].

Lemma example_mentions_fresh : ids_fresh example_mentions.
Proof.
  intros id r. unfold example_mentions. cbn [mn_rows mn_next]. rewrite !lookup_insert_Some, lookup_singleton_Some. lia.
Qed.

Lemma applyMentionEvents_reconciles_witness :
  map_to_list (mn_rows (snd (applyMentionEvents (H := parse_written) 5 "10" example_mentioned example_mentions)))
    ≡ₚ [(4, stored_mention "1" "anna"); (7, mkMention "10" "9" "7" "3" "user" "3" "cy" (timeLayout 5))]
  ∧ mn_next example_mentions <= mn_next (snd (applyMentionEvents (H := parse_written) 5 "10" example_mentioned example_mentions)).
Proof.
  split; [by apply (bool_decide_unpack _); vm_compute|].
  exact (rc_next _ _ _ _ (applyMentionEvents_reconciles (H := parse_written) 5 "10" example_mentioned example_mentions example_mentions_fresh)).
Defined.

Lemma applyMentionEvents_keeps_history_witness :
  mn_history (snd (applyMentionEvents (H := parse_written) 5 "10" example_mentioned example_mentions)) !! 6 = Some (stored_mention "2" "bob").
Proof.
  destruct (applyMentionEvents_keeps_history (H := parse_written) 5 "10" example_mentioned example_mentions example_mentions_fresh) as [Hrows _].
  destruct (Hrows 6 (stored_mention "2" "bob") ltac:(reflexivity)) as [_ [Hh|Hh]]; [reflexivity|vm_compute in Hh; discriminate Hh|exact Hh].
Defined.

Lemma applyMentionEvents_idempotent_witness :
  fst (applyMentionEvents (H := parse_written) 5 "10" example_mentioned example_mentions) = true
  ∧ fst (applyMentionEvents (H := parse_written) 9 "10" example_mentioned
           (snd (applyMentionEvents (H := parse_written) 5 "10" example_mentioned example_mentions))) = false.
Proof.
  split; [vm_compute; reflexivity|].
  by rewrite (applyMentionEvents_idempotent (H := parse_written) 5 9 "10" example_mentioned example_mentions example_mentions_fresh).
Defined.
