(* ===== verification/MessageWrite.v ===== *)
(** * Writing messages

    internal/store/write.go: the decision to keep a stored message, the
    comparison of a stored row with an incoming record, the upsert of a message
    with what depends on it (search rows, embeddings, embedding job), the bulk
    transaction [UpsertMessages] with the attachments and mentions of each
    message, deletion, and the message events; internal/store/message_text.go
    and lexical.go where the writers call them. A transaction that fails is
    rolled back, so a failing operation returns the error alone; failures of
    SQL itself are outside the model (World has them). SQL nulls of optional
    text columns are [""], as the queries' [coalesce] reads them. *)
From S2P Require Import Prelude GoTime GoText Errors ChannelScope Rows Receipts Attachments Mentions.
Local Open Scope Z_scope.

(** A row of [messages]. *)
Record storedMessage := mkStored {
  s_guild : string; s_channel : string; s_author : string; s_type : Z;
  s_created : string; s_edited : string; s_deleted : string;
  s_content : string; s_normalized : string; s_replyTo : string;
  s_pinned : bool; s_hasAttachments : bool; s_raw : string;
  s_textParts : string; s_textVersion : Z; s_updated : string
}.

(** A row of [message_fts] or of one language's index. *)
Record fts_row := mkFts {
  f_message : string; f_guild : string; f_channel : string; f_author : string;
  f_author_name : string; f_channel_name : string; f_content : string
}.

(** A row of [embedding_jobs]. *)
Record embedding_job := mkJob {
  j_state : string; j_attempts : Z; j_provider : string; j_model : string; j_version : string;
  j_last_error : string; j_locked : string; j_updated : string;
  j_revision : Z; j_lease_token : string; j_lease_until : string; j_available : string; j_priority : Z; j_enqueued : string
}.

(** A row of [message_embeddings]; the vector is the blob of the column. *)
Record embedding := mkEmbedding {
  e_provider : string; e_model : string; e_version : string; e_dimensions : Z; e_vector : string; e_at : string
}.
Record retained_embedding := mkRetained { re_embedding : embedding; re_guild : string; re_channel : string; re_text : string; re_at : string }.
(** The primary key of [message_embedding_history]. *)
Abbreviation embedding_key := (string * (string * string * string * string))%type.
Definition embedding_key_of (id : string) (e : embedding) : embedding_key := (id, (e_provider e, e_model e, e_version e, e_at e)).

Record message_event := mkEvent {
  ev_guild : string; ev_channel : string; ev_message : string; ev_type : string; ev_payload : string; ev_at : string
}.

Record mstate := mkMState {
  ms_rows : gmap string storedMessage;
  ms_fts : gmap Z fts_row;
  ms_lexical : gmap (string * Z) fts_row;
  ms_jobs : gmap string embedding_job;
  ms_embeddings : gmap string (list embedding);
  ms_embedding_history : gmap embedding_key retained_embedding;
  ms_events : list message_event;
  ms_attachments : attachments;
  ms_mentions : mentions
}.

Definition ms_receipts (s : mstate) : receipts := at_receipts (ms_attachments s).
Definition empty_mstate : mstate := mkMState ∅ ∅ ∅ ∅ ∅ ∅ [] (mkAttachments ∅ ∅ empty_receipts) (mkMentions ∅ 1 ∅).

Definition with_rows x (s : mstate) := mkMState x (ms_fts s) (ms_lexical s) (ms_jobs s) (ms_embeddings s) (ms_embedding_history s) (ms_events s) (ms_attachments s) (ms_mentions s).
Definition with_fts x (s : mstate) := mkMState (ms_rows s) x (ms_lexical s) (ms_jobs s) (ms_embeddings s) (ms_embedding_history s) (ms_events s) (ms_attachments s) (ms_mentions s).
Definition with_lexical x (s : mstate) := mkMState (ms_rows s) (ms_fts s) x (ms_jobs s) (ms_embeddings s) (ms_embedding_history s) (ms_events s) (ms_attachments s) (ms_mentions s).
Definition with_jobs x (s : mstate) := mkMState (ms_rows s) (ms_fts s) (ms_lexical s) x (ms_embeddings s) (ms_embedding_history s) (ms_events s) (ms_attachments s) (ms_mentions s).
Definition with_embeddings x y (s : mstate) := mkMState (ms_rows s) (ms_fts s) (ms_lexical s) (ms_jobs s) x y (ms_events s) (ms_attachments s) (ms_mentions s).
Definition with_events x (s : mstate) := mkMState (ms_rows s) (ms_fts s) (ms_lexical s) (ms_jobs s) (ms_embeddings s) (ms_embedding_history s) x (ms_attachments s) (ms_mentions s).
Definition with_attachments x (s : mstate) := mkMState (ms_rows s) (ms_fts s) (ms_lexical s) (ms_jobs s) (ms_embeddings s) (ms_embedding_history s) (ms_events s) x (ms_mentions s).
Definition with_mentions x (s : mstate) := mkMState (ms_rows s) (ms_fts s) (ms_lexical s) (ms_jobs s) (ms_embeddings s) (ms_embedding_history s) (ms_events s) (ms_attachments s) x.
Definition on_receipts (f : receipts → receipts) (s : mstate) : mstate := with_attachments (with_receipts f (ms_attachments s)) s.

(** ** Interfaces *)

(** The raw payloads (canonical.go, [sameMessageTextShape]) and the text
    projection of internal/messagetext: search text and its parts as JSON, from
    the payload and the id, file name and text of each attachment. *)
Class RawPayloads := {
  canonicalizeMessage : string → string → string;      (** incoming, stored *)
  sameCanonicalMessage : string → string → bool;
  sameMessageTextShape : string → string → bool;
  project_text : string → list (string * string * string) → option (string * string)
}.

(** Merging the same regular payload again adds nothing. *)
Class RawPayloadsLaws `{RawPayloads} := {
  regular_payload : string → Prop;
  canonicalize_again i s : regular_payload i → sameCanonicalMessage (canonicalizeMessage i s) (canonicalizeMessage i (canonicalizeMessage i s)) = true
}.

(** The enabled languages and their tokenizers ([LexicalTokenizer]). *)
Class Lexical := {
  lexicalLanguages : list string;
  Tokenize : string → string → string + err
}.

Definition messagetext_Version : Z := 2.

Section write.
Context `{TimeParse} `{RawPayloads} `{Lexical}.

(** ** Text *)

(** One attachment of [prepareTextMutation]: an attempt that gave no text does
    not replace the text, nor the receipt, the store has. *)
Definition prepare_attachment (messageID : string) (s : mstate) (a : AttachmentRecord) : AttachmentRecord :=
  match at_rows (ms_attachments s) !! a_AttachmentID a with
  | Some r =>
      let st := at_record r in
      if (a_MessageID st =? messageID)%string && negb (a_TextStatus a =? "succeeded")%string && negb (a_TextStatus a =? "empty")%string then
        let a := if negb (a_TextContent st =? "")%string
                 then mkAttachmentRecord (a_AttachmentID a) (a_MessageID a) (a_GuildID a) (a_ChannelID a)
                        (a_AuthorID a) (a_Filename a) (a_ContentType a) (a_Size a) (a_URL a) (a_ProxyURL a) (a_TextContent st)
                        (a_MediaPath a) (a_ContentSHA256 a) (a_ContentSize a) (a_FetchedAt a) (a_FetchStatus a) (a_FetchError a)
                        (a_TextStatus a) (a_TextError a) (a_TextAttemptedAt a) (a_TextSucceededAt st)
                 else a in
        if (a_TextAttemptedAt a =? "")%string
        then mkAttachmentRecord (a_AttachmentID a) (a_MessageID a) (a_GuildID a) (a_ChannelID a)
               (a_AuthorID a) (a_Filename a) (a_ContentType a) (a_Size a) (a_URL a) (a_ProxyURL a) (a_TextContent a)
               (a_MediaPath a) (a_ContentSHA256 a) (a_ContentSize a) (a_FetchedAt a) (a_FetchStatus a) (a_FetchError a)
               (a_TextStatus st) (a_TextError st) (a_TextAttemptedAt st) (a_TextSucceededAt a)
        else a
      else a
  | None => a
  end.

Definition prepareTextMutation (m : MessageMutation) (s : mstate) : MessageMutation + err :=
  let r := mm_Record m in
  if negb (r_TextVersion r =? messagetext_Version) then inl m
  else
    let atts := prepare_attachment (r_ID r) s <$> mm_Attachments m in
    match project_text (r_RawJSON r) ((λ a, (a_AttachmentID a, a_Filename a, a_TextContent a)) <$> atts) with
    | None => inr (EText "invalid message payload")
    | Some (normalized, parts) =>
        inl (mkMessageMutation (set_text normalized parts r) (mm_EventType m) (mm_PayloadJSON m) (mm_Options m) atts (mm_Mentions m))
    end.

(** ** Search rows *)

Definition fts_of (m : MessageRecord) (content : string) : fts_row :=
  mkFts (r_ID m) (r_GuildID m) (r_ChannelID m) (r_AuthorID m) (r_AuthorName m) (r_ChannelName m) content.

Fixpoint tokenize_all (languages : list string) (text : string) : gmap string string + err :=
  match languages with
  | [] => inl ∅
  | l :: rest => match Tokenize l text with
                 | inr e => inr (EWrap "tokenize text: " e "")
                 | inl c => match tokenize_all rest text with inl t => inl (<[l := c]> t) | inr e => inr e end
                 end
  end.
Definition tokenizeLexical (text : string) : gmap string string + err :=
  if (TrimSpace text =? "")%string then inl ∅ else tokenize_all lexicalLanguages text.

(** [upsertLexicalMessageTx] for a row id. *)
Definition upsertLexical (rowID : Z) (m : MessageRecord) (tokenized : gmap string string) (s : mstate) : mstate :=
  with_lexical
    (fold_left (λ t l, let t := delete (l, rowID) t in
                       if (r_DeletedAt m =? "")%string then <[(l, rowID) := fts_of m (default ""%string (tokenized !! l))]> t else t)
       lexicalLanguages (ms_lexical s)) s.
Definition deleteLexical (rowID : Z) (s : mstate) : mstate :=
  with_lexical (fold_left (λ t l, delete (l, rowID) t) lexicalLanguages (ms_lexical s)) s.
Definition rename_fts (author channel : string) (f : fts_row) : fts_row :=
  mkFts (f_message f) (f_guild f) (f_channel f) (f_author f) author channel (f_content f).
Definition renameLexical (rowID : Z) (author channel : string) (s : mstate) : mstate :=
  with_lexical (fold_left (λ t l, alter (rename_fts author channel) (l, rowID) t) lexicalLanguages (ms_lexical s)) s.

(** ** Embeddings *)

(** [archiveMessageEmbeddings]: insert or ignore, for a message that has a row. *)
Definition archive_one (now : Z) (id guild channel text : string) (h : gmap embedding_key retained_embedding) (e : embedding) :=
  match h !! embedding_key_of id e with
  | Some _ => h
  | None => <[embedding_key_of id e := mkRetained e guild channel text (timeLayout now)]> h
  end.
Definition archiveMessageEmbeddings (now : Z) (id text : string) (s : mstate) : mstate :=
  match ms_rows s !! id with
  | None => s
  | Some r => with_embeddings (ms_embeddings s)
                (fold_left (archive_one now id (s_guild r) (s_channel r) text) (default [] (ms_embeddings s !! id)) (ms_embedding_history s)) s
  end.
Definition deleteMessageEmbeddings (id : string) (s : mstate) : mstate :=
  with_embeddings (delete id (ms_embeddings s)) (ms_embedding_history s) s.

(** [UpsertEmbeddingJobPending] and the update that follows it: a new row has
    the column defaults, an existing one keeps the identity it was claimed for. *)
Definition pending_job (now : Z) (catchUp : bool) (stored : option embedding_job) : embedding_job :=
  let '(provider, model, version, revision) :=
    match stored with
    | Some j => (j_provider j, j_model j, j_version j, j_revision j)
    | None => (""%string, ""%string, ""%string, 1)
    end in
  mkJob "pending" 0 provider model version "" "" (timeLayout now) (revision + 1) "" "" "" (if catchUp then 0 else 1) (timeLayout now).
Definition enqueueJob (now : Z) (catchUp : bool) (id : string) (s : mstate) : mstate :=
  with_jobs (<[id := pending_job now catchUp (ms_jobs s !! id)]> (ms_jobs s)) s.

Definition queueEmbedding (now : Z) (catchUp : bool) (id text : string) (s : mstate) : mstate :=
  deleteMessageEmbeddings id (enqueueJob now catchUp id (archiveMessageEmbeddings now id text s)).

(** The running job of a message whose text changed loses its lease. *)
Definition revoke (j : embedding_job) : embedding_job :=
  mkJob (j_state j) (j_attempts j) (j_provider j) (j_model j) (j_version j) (j_last_error j) "" (j_updated j)
    (j_revision j + 1) "" "" (j_available j) (j_priority j) (j_enqueued j).
Definition revokeJob (id : string) (s : mstate) : mstate := with_jobs (alter revoke id (ms_jobs s)) s.

(** ** Rows *)

Definition text_parts_of (m : MessageRecord) (stored : option storedMessage) : string * Z :=
  if 0 <? r_TextVersion m then (r_TextPartsJSON m, r_TextVersion m)
  else match stored with
       | Some st => if s_textVersion st =? 0 then (s_textParts st, s_textVersion st) else ("[]"%string, 0)
       | None => ("[]"%string, 0)
       end.

Definition deleted_of (m : MessageRecord) (stored : option storedMessage) : string :=
  let deleted := normalizeStoredTime (r_DeletedAt m) in
  if (deleted =? "")%string then match stored with Some st => s_deleted st | None => ""%string end else deleted.

(** [qtx.UpsertMessage] and the update of the text parts: a tombstone is never
    cleared. *)
Definition written_row (now : Z) (m : MessageRecord) (stored : option storedMessage) : storedMessage :=
  let '(parts, version) := text_parts_of m stored in
  mkStored (r_GuildID m) (r_ChannelID m) (r_AuthorID m) (r_MessageType m)
    (normalizeStoredTime (r_CreatedAt m)) (normalizeStoredTime (r_EditedAt m)) (deleted_of m stored)
    (r_Content m) (r_NormalizedContent m) (r_ReplyToMessageID m) (r_Pinned m) (r_HasAttachments m)
    (r_RawJSON m) parts version (timeLayout now).

Definition messageContentChanged (stored : storedMessage) (m : MessageRecord) : bool :=
  let deleted := deleted_of m (Some stored) in
  let '(parts, version) := text_parts_of m (Some stored) in
  negb (s_guild stored =? r_GuildID m)%string || negb (s_channel stored =? r_ChannelID m)%string
  || negb (s_author stored =? r_AuthorID m)%string || negb (s_type stored =? r_MessageType m)
  || negb (s_created stored =? normalizeStoredTime (r_CreatedAt m))%string
  || negb (s_edited stored =? normalizeStoredTime (r_EditedAt m))%string
  || negb (s_deleted stored =? deleted)%string || negb (s_content stored =? r_Content m)%string
  || negb (s_normalized stored =? r_NormalizedContent m)%string
  || negb (s_replyTo stored =? r_ReplyToMessageID m)%string
  || negb (Bool.eqb (s_pinned stored) (r_Pinned m))
  || negb (Bool.eqb (s_hasAttachments stored) (r_HasAttachments m))
  || negb (s_textParts stored =? parts)%string || negb (s_textVersion stored =? version)
  || negb (sameCanonicalMessage (s_raw stored) (r_RawJSON m)).

Definition keepStoredMessage (m : MessageRecord) (started : option Z) (s : mstate) : bool :=
  match ms_rows s !! r_ID m with
  | None => false
  | Some stored =>
      if negb (s_deleted stored =? "")%string then true
      else
        let incoming := normalizeStoredTime (r_EditedAt m) in
        let current := normalizeStoredTime (s_edited stored) in
        if negb (incoming =? current)%string then String.ltb incoming current
        else if match started with
                | Some t => t <? lastObserved "messages" (s_updated stored) [r_ID m] (ms_receipts s)
                | None => false
                end then true
        else if negb (r_Content m =? "")%string || negb (r_DeletedAt m =? "")%string then false
        else negb (s_content stored =? "")%string
             && sameMessageTextShape (s_raw stored) (canonicalizeMessage (r_RawJSON m) (s_raw stored))
  end.

Definition with_names (author channel : string) (m : MessageRecord) : MessageRecord :=
  mkMessageRecord (r_ID m) (r_GuildID m) (r_ChannelID m) channel (r_AuthorID m) author
    (r_MessageType m) (r_CreatedAt m) (r_EditedAt m) (r_DeletedAt m) (r_Content m) (r_NormalizedContent m)
    (r_ReplyToMessageID m) (r_Pinned m) (r_HasAttachments m) (r_RawJSON m) (r_TextPartsJSON m) (r_TextVersion m).

(** The search row part of [refreshUnchangedMessageTx]. *)
Definition refresh_search (m : MessageRecord) (s : mstate) : mstate + err :=
  match MessageFTSRowID (r_ID m) with
  | None => inl s
  | Some rowID =>
      let found := ms_fts s !! rowID in
      let authorName := match found with Some f => f_author_name f | None => ""%string end in
      let channelName := match found with Some f => f_channel_name f | None => ""%string end in
      let renamed := (negb (r_AuthorName m =? "")%string && negb (r_AuthorName m =? authorName)%string)
                     || (negb (r_ChannelName m =? "")%string && negb (r_ChannelName m =? channelName)%string) in
      match found with
      | Some _ =>
          if renamed then
            let author := if (r_AuthorName m =? "")%string then authorName else r_AuthorName m in
            let channel := if (r_ChannelName m =? "")%string then channelName else r_ChannelName m in
            let s := renameLexical rowID author channel s in
            inl (with_fts (<[rowID := fts_of (with_names author channel m) (r_NormalizedContent m)]> (ms_fts s)) s)
          else inl s
      | None =>
          match tokenizeLexical (r_NormalizedContent m) with
          | inr e => inr e
          | inl tokenized =>
              let s := upsertLexical rowID m tokenized s in
              inl (with_fts (<[rowID := fts_of m (r_NormalizedContent m)]> (ms_fts s)) s)
          end
      end
  end.

Definition refreshUnchanged (now : Z) (stored : storedMessage) (m : MessageRecord) (o : WriteOptions) (s : mstate) : mstate + err :=
  if negb (s_deleted stored =? "")%string then inl s
  else match refresh_search m s with
       | inr e => inr e
       | inl s =>
           if negb (EnqueueEmbedding o) || (r_GuildID m =? "@me")%string then inl s
           else match ms_jobs s !! r_ID m with
                | Some _ => inl s
                | None => inl (queueEmbedding now (EmbeddingCatchUp o) (r_ID m) (s_normalized stored) s)
                end
       end.

(** [upsertMessageTx] of a changed row, once the text is tokenized. *)
Definition write_message (now : Z) (m : MessageRecord) (o : WriteOptions) (tokenized : gmap string string) (s : mstate) : mstate :=
  let id := r_ID m in
  let stored := ms_rows s !! id in
  let previous := s_normalized <$> stored in
  let jobExists := EnqueueEmbedding o && match previous, ms_jobs s !! id with Some _, Some _ => true | _, _ => false end in
  let s := match previous with
           | Some p =>
               if negb (p =? r_NormalizedContent m)%string then
                 let s := deleteMessageEmbeddings id (archiveMessageEmbeddings now id p s) in
                 if negb (EnqueueEmbedding o) then revokeJob id s else s
               else s
           | None => s
           end in
  let s := with_rows (<[id := written_row now m stored]> (ms_rows s)) s in
  let previous_text := default ""%string previous in
  let queue (s : mstate) : mstate :=
    if EnqueueEmbedding o && negb (r_GuildID m =? "@me")%string
       && (match previous with None => true | Some _ => false end
           || negb (previous_text =? r_NormalizedContent m)%string || negb jobExists)
    then queueEmbedding now (EmbeddingCatchUp o) id previous_text s else s in
  match MessageFTSRowID id with
  | None => queue s
  | Some rowID =>
      let s := upsertLexical rowID m tokenized (with_fts (delete rowID (ms_fts s)) s) in
      if negb (r_DeletedAt m =? "")%string then
        let s := deleteMessageEmbeddings id (archiveMessageEmbeddings now id previous_text s) in
        with_jobs (delete id (ms_jobs s)) s
      else queue (with_fts (<[rowID := fts_of m (r_NormalizedContent m)]> (ms_fts s)) s)
  end.

(** [upsertMessageTx]: whether content changed, and the new state. *)
Definition upsertMessage (now : Z) (m : MessageRecord) (o : WriteOptions) (s : mstate) : (bool * mstate) + err :=
  let id := r_ID m in
  let stored := ms_rows s !! id in
  let m := set_raw (canonicalizeMessage (r_RawJSON m) (match stored with Some st => s_raw st | None => ""%string end)) m in
  let write (s : mstate) : (bool * mstate) + err :=
    match (if (r_DeletedAt m =? "")%string then tokenizeLexical (r_NormalizedContent m) else inl ∅) with
    | inr e => inr e
    | inl tokenized => inl (true, write_message now m o tokenized s)
    end in
  match stored with
  | Some st =>
      if negb (messageContentChanged st m) then
        match refreshUnchanged now st m o s with inl s => inl (false, s) | inr e => inr e end
      else write (on_receipts (retainLegacyRaw "messages" (s_raw st) (s_updated st) [id]) s)
  | None => write s
  end.

(** ** Events *)

Definition appendEvent (now : Z) (guild chan id type payload : string) (s : mstate) : mstate :=
  with_events (ms_events s ++ [mkEvent guild chan id type payload (timeLayout now)]) s.

Definition event_exists (id type payload : string) (s : mstate) : bool :=
  existsb (λ e, (ev_message e =? id)%string && (ev_type e =? type)%string && (ev_payload e =? payload)%string) (ms_events s).

Definition appendMutationEvent (now : Z) (m : MessageMutation) (s : mstate) : mstate :=
  let r := mm_Record m in
  if negb (AppendEvent (mm_Options m)) || (mm_EventType m =? "")%string then s
  else if DeduplicateEvent (mm_Options m) && event_exists (r_ID r) (mm_EventType m) (mm_PayloadJSON m) s then s
  else appendEvent now (r_GuildID r) (r_ChannelID r) (r_ID r) (mm_EventType m) (mm_PayloadJSON m) s.

(** ** The bulk transaction *)

Definition touch (now : Z) (r : storedMessage) : storedMessage :=
  mkStored (s_guild r) (s_channel r) (s_author r) (s_type r) (s_created r) (s_edited r) (s_deleted r)
    (s_content r) (s_normalized r) (s_replyTo r) (s_pinned r) (s_hasAttachments r) (s_raw r)
    (s_textParts r) (s_textVersion r) (timeLayout now).

(** The relationship rows of a message that is written. *)
Definition write_relations (now : Z) (m : MessageMutation) (changed : bool) (s : mstate) : bool * mstate :=
  let id := r_ID (mm_Record m) in
  let '(attachmentsChanged, atts) := applyAttachments now id (mm_Attachments m) (ms_attachments s) in
  let s := with_attachments atts s in
  let '(mentionsChanged, ments) := applyMentionEvents now id (mm_Mentions m) (ms_mentions s) in
  let s := with_mentions ments s in
  if negb changed && (attachmentsChanged || mentionsChanged)
  then (true, with_rows (alter (touch now) id (ms_rows s)) s)
  else (changed, s).

(** One message of [UpsertMessages]. *)
Definition write_mutation (now : Z) (cs : channels) (m : MessageMutation) (s : mstate) : mstate + err :=
  match requireMessageScope cs (r_ChannelID (mm_Record m)) (r_GuildID (mm_Record m)) (ScopePolicy (mm_Options m)) with
  | Some e => inr e
  | None =>
      let s := on_receipts (recordEvidence now "messages" (EvMutation m) [r_ID (mm_Record m)]) s in
      match prepareTextMutation m s with
      | inr e => inr e
      | inl m =>
          let o := mm_Options m in
          if PreserveNewer o && keepStoredMessage (mm_Record m) (ObservationStartedAt o) s
          then inl (appendMutationEvent now m s)
          else match upsertMessage now (mm_Record m) o s with
               | inr e => inr e
               | inl (changed, s) =>
                   let '(changed, s) := write_relations now m changed s in
                   inl (appendMutationEvent now m (on_receipts (recordObserved now "messages" changed [r_ID (mm_Record m)]) s))
               end
      end
  end.

Fixpoint write_mutations (now : Z) (cs : channels) (ms : list MessageMutation) (s : mstate) : mstate + err :=
  match ms with
  | [] => inl s
  | m :: rest => match write_mutation now cs m s with
                 | inr e => inr e
                 | inl s => write_mutations now cs rest s
                 end
  end.

(** [UpsertMessages]. *)
Definition upsertMessages (now : Z) (cs : channels) (ms : list MessageMutation) (s : mstate) : option err * mstate :=
  match write_mutations now cs ms s with
  | inl s' => (None, s')
  | inr e => (Some e, s)
  end.

(** [UpsertMessageWithOptions], the single message without relations. *)
Definition upsertMessageWithOptions (now : Z) (m : MessageRecord) (o : WriteOptions) (s : mstate) : option err * mstate :=
  let s' := on_receipts (recordEvidence now "messages" (EvRecord m) [r_ID m]) s in
  if PreserveNewer o && keepStoredMessage m (ObservationStartedAt o) s' then (None, s')
  else match upsertMessage now m o s' with
       | inr e => (Some e, s)
       | inl (changed, s') => (None, on_receipts (recordObserved now "messages" changed [r_ID m]) s')
       end.

(** ** Deletion *)

Definition set_deleted (now : Z) (r : storedMessage) : storedMessage :=
  mkStored (s_guild r) (s_channel r) (s_author r) (s_type r) (s_created r) (s_edited r) (timeLayout now)
    (s_content r) (s_normalized r) (s_replyTo r) (s_pinned r) (s_hasAttachments r) (s_raw r)
    (s_textParts r) (s_textVersion r) (timeLayout now).

(** What recovery refuses: it deletes only a message it finds in the scope it
    was asked for. *)
Definition recovery_refusal (guildID channelID messageID : string) (stored : option storedMessage) : option err :=
  match stored with
  | None => Some (EText ("recover message delete: message does not exist: " ++ messageID))
  | Some r => if negb (s_guild r =? guildID)%string then Some (EText ("recover message delete: guild mismatch for message " ++ messageID))
              else if negb (s_channel r =? channelID)%string then Some (EText ("recover message delete: channel mismatch for message " ++ messageID))
              else None
  end.

(** [markMessageDeleted]; [event] is the payload of the delete event, [None]
    without one; [verify] is recovery. *)
Definition markMessageDeleted (now : Z) (guildID channelID messageID : string) (event : option string)
    (verify : bool) (s : mstate) : option err * mstate :=
  let stored := ms_rows s !! messageID in
  match (if verify then recovery_refusal guildID channelID messageID stored else None) with
  | Some e => (Some e, s)
  | None =>
      let preserve := verify && match stored with Some r => negb (s_deleted r =? "")%string | None => false end in
      let s := if preserve then s else with_rows (alter (set_deleted now) messageID (ms_rows s)) s in
      let s := match MessageFTSRowID messageID with
               | Some rowID => deleteLexical rowID (with_fts (delete rowID (ms_fts s)) s)
               | None => s
               end in
      let text := match ms_rows s !! messageID with Some r => s_normalized r | None => ""%string end in
      let s := deleteMessageEmbeddings messageID (archiveMessageEmbeddings now messageID text s) in
      let s := with_jobs (delete messageID (ms_jobs s)) s in
      (None, match event with
             | Some payload => appendEvent now guildID channelID messageID "delete" payload s
             | None => s
             end)
  end.
End write.
