(* ===== verification/MessageSafety.v ===== *)
(** * Properties of the message writer

    What internal/store/write.go guarantees of the archive: tombstones and newer
    edits survive every write, replays are harmless, the search index and the
    embedding jobs follow the rows, and neither vectors nor evidence is lost. *)
From S2P Require Import Prelude Snowflake GoTime GoText Errors ChannelScope Rows Receipts Attachments Mentions MessageWrite.
Local Open Scope Z_scope.

Section facts.
Context {tp : TimeParse} {rp : RawPayloads} {lx : Lexical}.

(** ** Which table each operation touches *)

Lemma rows_archive now id text s : ms_rows (archiveMessageEmbeddings now id text s) = ms_rows s.
Proof. unfold archiveMessageEmbeddings. by destruct (ms_rows s !! id). Qed.
Lemma rows_queue now c id text s : ms_rows (queueEmbedding now c id text s) = ms_rows s.
Proof. unfold queueEmbedding. cbn. apply rows_archive. Qed.
Lemma rows_event now m s : ms_rows (appendMutationEvent now m s) = ms_rows s.
Proof. unfold appendMutationEvent. by repeat case_match. Qed.

Lemma rows_refresh now st m o s s' : refreshUnchanged now st m o s = inl s' → ms_rows s' = ms_rows s.
Proof.
  unfold refreshUnchanged. destruct (negb (s_deleted st =? "")%string); [by intros [= <-]|].
  destruct (refresh_search m s) as [s1|] eqn:E; [|done].
  assert (ms_rows s1 = ms_rows s) as Hr.
  { unfold refresh_search in E. repeat case_match; simplify_eq; done. }
  repeat case_match; intros [= <-]; by rewrite ?rows_queue.
Qed.

Lemma rows_write now m o tok s :
  ms_rows (write_message now m o tok s) = <[r_ID m := written_row now m (ms_rows s !! r_ID m)]> (ms_rows s).
Proof.
  unfold write_message. cbv zeta.
  repeat (case_match || rewrite ?rows_queue, ?rows_archive || cbn [ms_rows with_jobs with_fts with_rows deleteMessageEmbeddings with_embeddings upsertLexical with_lexical revokeJob]); done.
Qed.

Definition canonical_record (m : MessageRecord) (stored : option storedMessage) : MessageRecord :=
  set_raw (canonicalizeMessage (r_RawJSON m) (match stored with Some st => s_raw st | None => ""%string end)) m.

(** A row after an upsert: as it was, or rewritten. *)
Lemma rows_upsert now m o s b s' :
  upsertMessage now m o s = inl (b, s') →
  (b = false ∧ ms_rows s' = ms_rows s ∧ ∃ st, ms_rows s !! r_ID m = Some st ∧ messageContentChanged st (canonical_record m (Some st)) = false)
  ∨ (b = true ∧ ms_rows s' = <[r_ID m := written_row now (canonical_record m (ms_rows s !! r_ID m)) (ms_rows s !! r_ID m)]> (ms_rows s)).
Proof.
  unfold upsertMessage. fold (canonical_record m (ms_rows s !! r_ID m)). cbv zeta.
  destruct (ms_rows s !! r_ID m) as [st|] eqn:Est.
  - destruct (messageContentChanged st _) eqn:Ec; cbn [negb].
    + repeat case_match; try done; intros [= <- <-]; right; (split; [done|]);
        rewrite rows_write; cbn [ms_rows on_receipts with_attachments r_ID canonical_record set_raw]; by rewrite Est.
    + destruct (refreshUnchanged _ _ _ _ _) eqn:Er; [|done]. intros [= <- <-]. left. apply rows_refresh in Er. eauto.
  - repeat case_match; try done; intros [= <- <-]; right; (split; [done|]); rewrite rows_write; cbn [r_ID canonical_record set_raw]; by rewrite Est.
Qed.

Lemma rows_relations now m b s :
  ms_rows (snd (write_relations now m b s)) = ms_rows s
  ∨ ms_rows (snd (write_relations now m b s)) = alter (touch now) (r_ID (mm_Record m)) (ms_rows s).
Proof.
  unfold write_relations. repeat case_match; cbn; auto.
Qed.

(** [prepareTextMutation] changes the search text of a message and the texts
    of its attachments, nothing else. *)
Lemma prepare_record m s m' :
  prepareTextMutation m s = inl m' →
  mm_EventType m' = mm_EventType m ∧ mm_PayloadJSON m' = mm_PayloadJSON m ∧ mm_Options m' = mm_Options m ∧ mm_Mentions m' = mm_Mentions m
  ∧ (mm_Record m' = mm_Record m ∨ ∃ n p, mm_Record m' = set_text n p (mm_Record m)).
Proof.
  unfold prepareTextMutation. repeat case_match; intros [= <-]; cbn; eauto 10.
Qed.

Lemma rows_relations_changed now m s : ms_rows (snd (write_relations now m true s)) = ms_rows s ∧ fst (write_relations now m true s) = true.
Proof. unfold write_relations. repeat case_match; cbn in *; try done. Qed.

(** The record a mutation writes: its own, with the projected text. *)
Definition prepared (m m' : MessageMutation) : Prop :=
  mm_EventType m' = mm_EventType m ∧ mm_PayloadJSON m' = mm_PayloadJSON m ∧ mm_Options m' = mm_Options m ∧ mm_Mentions m' = mm_Mentions m
  ∧ (mm_Record m' = mm_Record m ∨ ∃ n p, mm_Record m' = set_text n p (mm_Record m)).

Definition observed (now : Z) (m : MessageMutation) (s : mstate) : mstate :=
  on_receipts (recordEvidence now "messages" (EvMutation m) [r_ID (mm_Record m)]) s.

Lemma mutation_cases now cs m s s' :
  write_mutation now cs m s = inl s' →
  requireMessageScope cs (r_ChannelID (mm_Record m)) (r_GuildID (mm_Record m)) (ScopePolicy (mm_Options m)) = None
  ∧ ∃ m', prepareTextMutation m (observed now m s) = inl m' ∧ prepared m m' ∧
    ((PreserveNewer (mm_Options m) && keepStoredMessage (mm_Record m') (ObservationStartedAt (mm_Options m)) (observed now m s) = true
      ∧ s' = appendMutationEvent now m' (observed now m s))
     ∨ (PreserveNewer (mm_Options m) && keepStoredMessage (mm_Record m') (ObservationStartedAt (mm_Options m)) (observed now m s) = false
        ∧ ∃ b s1, upsertMessage now (mm_Record m') (mm_Options m) (observed now m s) = inl (b, s1)
        ∧ s' = appendMutationEvent now m'
                 (on_receipts (recordObserved now "messages" (fst (write_relations now m' b s1)) [r_ID (mm_Record m')])
                    (snd (write_relations now m' b s1))))).
Proof.
  unfold write_mutation. fold (observed now m s).
  destruct (requireMessageScope _ _ _ _); [done|]. cbv zeta.
  destruct (prepareTextMutation m (observed now m s)) as [m'|] eqn:Ep; [|done].
  pose proof (prepare_record _ _ _ Ep) as Hp. destruct Hp as (H1 & H2 & H3 & H4 & H5). rewrite H3. intros Hw.
  split; [done|]. exists m'. split; [done|]. split; [done|].
  destruct (PreserveNewer _ && _) eqn:Ek; [left; injection Hw; auto|]. right. split; [done|].
  destruct (upsertMessage _ _ _ _) as [[b s1]|]; [|done]. exists b, s1. split; [done|].
  destruct (write_relations now m' b s1) as [b' s2]. injection Hw. auto.
Qed.

Lemma prepared_id m m' : prepared m m' → r_ID (mm_Record m') = r_ID (mm_Record m).
Proof. by intros (_ & _ & _ & _ & [->|(? & ? & ->)]). Qed.

Lemma rows_mutation now cs m s s' :
  write_mutation now cs m s = inl s' →
  ∃ m', prepared m m' ∧
    (PreserveNewer (mm_Options m) && keepStoredMessage (mm_Record m') (ObservationStartedAt (mm_Options m)) (observed now m s) = true
      ∧ ms_rows s' = ms_rows s
     ∨ PreserveNewer (mm_Options m) && keepStoredMessage (mm_Record m') (ObservationStartedAt (mm_Options m)) (observed now m s) = false
      ∧ ((∃ st, ms_rows s !! r_ID (mm_Record m') = Some st ∧ messageContentChanged st (canonical_record (mm_Record m') (Some st)) = false
          ∧ (ms_rows s' = ms_rows s ∨ ms_rows s' = alter (touch now) (r_ID (mm_Record m')) (ms_rows s)))
         ∨ ms_rows s' = <[r_ID (mm_Record m') := written_row now (canonical_record (mm_Record m') (ms_rows s !! r_ID (mm_Record m'))) (ms_rows s !! r_ID (mm_Record m'))]> (ms_rows s))).
Proof.
  intros (_ & m' & _ & Hp & Hcase)%mutation_cases. exists m'. split; [done|].
  destruct Hcase as [[Hk ->]|(Hk & b & s1 & Hu & ->)].
  - left. split; [done|]. by rewrite rows_event.
  - right. split; [done|]. rewrite rows_event. cbn [ms_rows on_receipts with_attachments].
    apply rows_upsert in Hu as [(-> & Hr & st & Hst & Hc)|(-> & Hr)].
    + left. exists st. cbn in Hr, Hst. split_and!; [done..|]. rewrite <- Hr. apply rows_relations.
    + right. destruct (rows_relations_changed now m' s1) as [-> _]. rewrite Hr. done.
Qed.

(** A tombstoned row is never cleared, whatever the options. *)
Lemma written_tombstone now r st : s_deleted st ≠ ""%string → s_deleted (written_row now r (Some st)) ≠ ""%string.
Proof.
  intros Hst. unfold written_row. destruct (text_parts_of _ _). cbn. unfold deleted_of.
  by destruct (String.eqb_spec (normalizeStoredTime (r_DeletedAt r)) "").
Qed.

Definition tombstoned (s : mstate) (id : string) : Prop := ∃ r, ms_rows s !! id = Some r ∧ s_deleted r ≠ ""%string.

Lemma mutation_tombstone now cs m s s' id : write_mutation now cs m s = inl s' → tombstoned s id → tombstoned s' id.
Proof.
  intros (m' & _ & Hc)%rows_mutation (r & Hr & Hd).
  assert (ms_rows s' = ms_rows s → tombstoned s' id) as Hsame by (intros E; exists r; by rewrite E).
  destruct Hc as [[_ ?]|[_ [(st & Hst & _ & [?|He])|Hw]]]; [by apply Hsame..| |].
  - destruct (decide (id = r_ID (mm_Record m'))) as [->|Hne]; unfold tombstoned; rewrite He.
    + rewrite lookup_alter_eq, Hr. by exists (touch now r).
    + rewrite lookup_alter_ne by done. eauto.
  - unfold tombstoned. rewrite Hw. destruct (decide (id = r_ID (mm_Record m'))) as [->|Hne].
    + rewrite lookup_insert_eq, Hr. eexists. split; [done|]. by apply written_tombstone.
    + rewrite lookup_insert_ne by done. eauto.
Qed.

(** ** The operations as steps of the archive *)

Inductive message_step (s : mstate) : mstate → Prop :=
  | StepBatch now cs ms : message_step s (snd (upsertMessages now cs ms s))
  | StepSingle now m o : message_step s (snd (upsertMessageWithOptions now m o s))
  | StepDelete now guild chan id event verify : message_step s (snd (markMessageDeleted now guild chan id event verify s)).

Lemma mutations_ind (P : mstate → Prop) now cs ms s s' :
  (∀ m s s', m ∈ ms → write_mutation now cs m s = inl s' → P s → P s') → write_mutations now cs ms s = inl s' → P s → P s'.
Proof.
  revert s. induction ms as [|m ms IH]; intros s HP; cbn [write_mutations]; [by intros [= ->]|].
  destruct (write_mutation now cs m s) as [s1|] eqn:E; [|done]. intros Hw Hs.
  eapply IH; [|exact Hw|]; [intros; eapply HP; [by right|done..]|]. eapply HP; [by left|done..].
Qed.

Lemma batch_ind (P : mstate → Prop) now cs ms s :
  (∀ m s s', m ∈ ms → write_mutation now cs m s = inl s' → P s → P s') → P s → P (snd (upsertMessages now cs ms s)).
Proof.
  intros HP Hs. unfold upsertMessages. destruct (write_mutations now cs ms s) eqn:E; [|done]. by eapply mutations_ind.
Qed.

Lemma rows_single now m o s :
  let s' := snd (upsertMessageWithOptions now m o s) in
  ms_rows s' = ms_rows s
  ∨ ms_rows s' = <[r_ID m := written_row now (canonical_record m (ms_rows s !! r_ID m)) (ms_rows s !! r_ID m)]> (ms_rows s).
Proof.
  cbv zeta. unfold upsertMessageWithOptions. destruct (PreserveNewer o && _); [by left|].
  destruct (upsertMessage _ _ _ _) as [[b s1]|] eqn:E; [|by left]. apply rows_upsert in E as [(_ & E & _)|(_ & E)]; cbn in *; auto.
Qed.

Lemma rows_deleted now g c id ev v s :
  let s' := snd (markMessageDeleted now g c id ev v s) in
  ms_rows s' = ms_rows s ∨ ms_rows s' = alter (set_deleted now) id (ms_rows s).
Proof.
  cbv zeta. unfold markMessageDeleted. destruct (if v then _ else None); [by left|]. cbn [snd].
  assert (∀ s1 t, ms_rows (with_jobs (delete id (ms_jobs (deleteMessageEmbeddings id (archiveMessageEmbeddings now id t s1))))
             (deleteMessageEmbeddings id (archiveMessageEmbeddings now id t s1))) = ms_rows s1) as Hr by (intros; cbn; apply rows_archive).
  destruct ev; cbn [appendEvent ms_rows with_events]; rewrite Hr; clear Hr;
    destruct (MessageFTSRowID id); cbn [ms_rows deleteLexical with_lexical with_fts]; destruct (v && _); cbn; auto.
Qed.

Lemma step_tombstone s s' id : message_step s s' → tombstoned s id → tombstoned s' id.
Proof.
  intros [now cs ms|now m o|now g c i ev v] Ht.
  - apply batch_ind; [|done]. intros. by eapply mutation_tombstone.
  - destruct Ht as (r & Hr & Hd). unfold tombstoned. destruct (rows_single now m o s) as [->| ->]; [eauto|].
    destruct (decide (id = r_ID m)) as [->|]; [rewrite lookup_insert_eq, Hr; eauto using written_tombstone|].
    rewrite lookup_insert_ne by done. eauto.
  - destruct Ht as (r & Hr & Hd). unfold tombstoned. destruct (rows_deleted now g c i ev v s) as [->| ->]; [eauto|].
    destruct (decide (id = i)) as [->|]; [|rewrite lookup_alter_ne by done; eauto].
    rewrite lookup_alter_eq, Hr. eexists. split; [done|]. cbn. intros E. pose proof (timeLayout_nonempty now) as Hn.
    rewrite E in Hn. done.
Qed.

(** ** Edits *)

Definition edit_of (r : MessageRecord) : string := normalizeStoredTime (r_EditedAt r).
Definition stored_edit (row : storedMessage) : string := normalizeStoredTime (s_edited row).

(** The row holds this version of the message. *)
Definition carries (r : MessageRecord) (row : storedMessage) : Prop :=
  s_guild row = r_GuildID r ∧ s_channel row = r_ChannelID r ∧ s_author row = r_AuthorID r ∧ s_type row = r_MessageType r
  ∧ s_created row = normalizeStoredTime (r_CreatedAt r) ∧ s_edited row = edit_of r ∧ s_content row = r_Content r
  ∧ s_replyTo row = r_ReplyToMessageID r ∧ s_pinned row = r_Pinned r ∧ s_hasAttachments row = r_HasAttachments r.

Lemma carries_written now r stored : carries r (written_row now r stored).
Proof. unfold written_row, carries. by destruct (text_parts_of _ _). Qed.
Lemma carries_canonical r stored row : carries (canonical_record r stored) row ↔ carries r row.
Proof. done. Qed.
Lemma carries_touch now r row : carries r row → carries r (touch now row).
Proof. done. Qed.

Lemma carries_unchanged r row : messageContentChanged row r = false → carries r row.
Proof.
  unfold messageContentChanged. destruct (text_parts_of _ _). intros Hc. propify.
  repeat match goal with E : Bool.eqb _ _ = true |- _ => apply Bool.eqb_prop in E end.
  unfold carries, edit_of. split_and!; done.
Qed.

Lemma carries_prepared m m' row : prepared m m' → carries (mm_Record m') row ↔ carries (mm_Record m) row.
Proof. by intros (_ & _ & _ & _ & [->|(? & ? & ->)]). Qed.
Lemma edit_prepared m m' : prepared m m' → edit_of (mm_Record m') = edit_of (mm_Record m).
Proof. by intros (_ & _ & _ & _ & [->|(? & ? & ->)]). Qed.
Lemma deleted_prepared m m' : prepared m m' → r_DeletedAt (mm_Record m') = r_DeletedAt (mm_Record m).
Proof. by intros (_ & _ & _ & _ & [->|(? & ? & ->)]). Qed.

Context {tpl : TimeParseLaws}.

Lemma carried_edit r row : carries r row → stored_edit row = edit_of r.
Proof. intros (_ & _ & _ & _ & _ & E & _). unfold stored_edit. rewrite E. apply normalizeStoredTime_idem. Qed.

(** The row of one message after one mutation of a batch under
    [PreserveNewer]. *)
Lemma row_mutation now cs m s s' id :
  write_mutation now cs m s = inl s' → PreserveNewer (mm_Options m) = true →
  (ms_rows s' !! id = ms_rows s !! id ∧ (id = r_ID (mm_Record m) → ∃ row, ms_rows s !! id = Some row
      ∧ (s_deleted row ≠ ""%string ∨ String.ltb (stored_edit row) (edit_of (mm_Record m)) = false))
   ∨ ∃ row', id = r_ID (mm_Record m) ∧ ms_rows s' !! id = Some row' ∧ carries (mm_Record m) row'
      ∧ (s_deleted row' = ""%string ∨ normalizeStoredTime (r_DeletedAt (mm_Record m)) ≠ ""%string)
      ∧ ∀ row, ms_rows s !! id = Some row →
          s_deleted row = ""%string ∧ String.ltb (edit_of (mm_Record m)) (stored_edit row) = false).
Proof.
  intros (m' & Hp & Hc)%rows_mutation Hpn. rewrite Hpn in Hc. cbn [andb] in Hc. rewrite (prepared_id _ _ Hp) in Hc.
  destruct (decide (id = r_ID (mm_Record m))) as [->|Hne].
  2: { left. split; [|done]. destruct Hc as [[_ ->]|[_ [(st & _ & _ & [->| ->])|Hw]]]; [done|done| |].
       - by rewrite lookup_alter_ne.
       - by rewrite Hw, lookup_insert_ne. }
  unfold keepStoredMessage in Hc. rewrite (prepared_id _ _ Hp) in Hc. cbn [ms_rows observed on_receipts with_attachments] in Hc.
  fold (edit_of (mm_Record m')) in Hc. rewrite (edit_prepared _ _ Hp) in Hc.
  destruct (ms_rows s !! r_ID (mm_Record m)) as [st|] eqn:Est.
  - fold (stored_edit st) in Hc. cbv zeta in Hc.
    assert (Hlt : edit_of (mm_Record m) = stored_edit st → String.ltb (stored_edit st) (edit_of (mm_Record m)) = false)
      by (intros ->; apply ltb_irrefl).
    destruct (String.eqb_spec (s_deleted st) "") as [Hd|Hd]; cbn [negb] in Hc.
    2: { destruct Hc as [[_ ->]|[? _]]; [|done]. left. split; [done|]. intros _. exists st. auto. }
    destruct Hc as [[Hk ->]|[Hk Hw]].
    + left. split; [done|]. intros _. exists st. split; [done|]. right.
      destruct (String.eqb_spec (edit_of (mm_Record m)) (stored_edit st)) as [?|?]; cbn [negb] in Hk; [auto|].
      destruct (String.ltb (stored_edit st) (edit_of (mm_Record m))) eqn:E; [|done].
      pose proof (ltb_trans _ _ _ Hk E) as X. by rewrite ltb_irrefl in X.
    + right.
      assert (Hnk : String.ltb (edit_of (mm_Record m)) (stored_edit st) = false).
      { destruct (String.eqb_spec (edit_of (mm_Record m)) (stored_edit st)) as [->|?]; cbn [negb] in Hk; [apply ltb_irrefl|done]. }
      destruct Hw as [(st' & [= <-] & Hch & Hr)|Hw].
      * assert (Hca : carries (mm_Record m) st) by (apply (carries_prepared _ _ _ Hp); exact (carries_unchanged _ _ Hch)).
        destruct Hr as [->| ->]; [exists st|exists (touch now st); rewrite lookup_alter_eq]; rewrite Est; (split_and!; [done|done|done|by left|by intros ? [= <-]]).
      * rewrite Hw, lookup_insert_eq. eexists. split_and!; [done|done| | |by intros ? [= <-]].
        -- apply (carries_prepared _ _ _ Hp). exact (carries_written now (canonical_record _ (Some st)) (Some st)).
        -- unfold written_row. destruct (text_parts_of _ _). cbn. unfold deleted_of. cbn. rewrite (deleted_prepared _ _ Hp).
           destruct (String.eqb_spec (normalizeStoredTime (r_DeletedAt (mm_Record m))) ""); [left|right]; done.
  - destruct Hc as [[? _]|[_ [(? & ? & _)|Hw]]]; [done|done|]. right.
    rewrite Hw, lookup_insert_eq. eexists. split_and!; [done|done| | |done].
    + apply (carries_prepared _ _ _ Hp). exact (carries_written now (canonical_record _ None) None).
    + unfold written_row. destruct (text_parts_of _ _). cbn. unfold deleted_of. cbn. rewrite (deleted_prepared _ _ Hp).
      destruct (String.eqb_spec (normalizeStoredTime (r_DeletedAt (mm_Record m))) ""); [left|right]; done.
Qed.

(** A row no mutation of the batch may lose. *)
Definition guarded (s s' : mstate) (id : string) : Prop :=
  ∀ row, ms_rows s !! id = Some row → ∃ row', ms_rows s' !! id = Some row'
    ∧ (s_deleted row ≠ ""%string → row' = row)
    ∧ String.ltb (stored_edit row') (stored_edit row) = false.

Lemma guarded_refl s id : guarded s s id.
Proof. intros row Hr. exists row. split_and!; [done|done|apply ltb_irrefl]. Qed.

Lemma not_ltb_trans a b c : String.ltb b a = false → String.ltb c b = false → String.ltb c a = false.
Proof. rewrite <- !negb_true_iff, <- !leb_ltb. apply leb_trans. Qed.

Lemma mutation_guards now cs m s s' id :
  write_mutation now cs m s = inl s' → PreserveNewer (mm_Options m) = true → guarded s s' id.
Proof.
  intros Hw Hp row Hr. destruct (row_mutation _ _ _ _ _ id Hw Hp) as [[He _]|(row' & _ & Hr' & Hca & _ & Hold)].
  - exists row. rewrite He. split_and!; [done|done|apply ltb_irrefl].
  - destruct (Hold _ Hr) as [Hd Hlt]. exists row'. split_and!; [done|done|]. by rewrite (carried_edit _ _ Hca).
Qed.

Lemma batch_guards now cs ms s id :
  Forall (λ m, PreserveNewer (mm_Options m) = true) ms → guarded s (snd (upsertMessages now cs ms s)) id.
Proof.
  rewrite Forall_forall. intros Hp. apply (batch_ind (λ s', guarded s s' id)); [|apply guarded_refl].
  intros m s1 s2 Hm Hw Hg row Hr. destruct (Hg _ Hr) as (r1 & Hr1 & Hd1 & Hl1).
  destruct (mutation_guards _ _ _ _ _ id Hw (Hp m Hm) _ Hr1) as (r2 & Hr2 & Hd2 & Hl2).
  exists r2. split_and!; [done| |by eapply not_ltb_trans].
  intros Hd. rewrite <- (Hd1 Hd). apply Hd2. by rewrite (Hd1 Hd).
Qed.

(** *** The newest edit *)

Definition older_or_absent (s : mstate) (id e : string) : Prop :=
  ∀ row, ms_rows s !! id = Some row → s_deleted row = ""%string ∧ String.ltb (stored_edit row) e = true.

Lemma newest_step now cs m s s' (mx : MessageMutation) :
  write_mutation now cs m s = inl s' → PreserveNewer (mm_Options m) = true →
  (r_ID (mm_Record m) = r_ID (mm_Record mx) → normalizeStoredTime (r_DeletedAt (mm_Record m)) = ""%string) →
  (r_ID (mm_Record m) = r_ID (mm_Record mx) → m = mx ∨ String.ltb (edit_of (mm_Record m)) (edit_of (mm_Record mx)) = true) →
  let current s := ∃ row, ms_rows s !! r_ID (mm_Record mx) = Some row ∧ s_deleted row = ""%string ∧ carries (mm_Record mx) row in
  (current s → current s')
  ∧ (older_or_absent s (r_ID (mm_Record mx)) (edit_of (mm_Record mx)) →
     if decide (m = mx) then current s' else older_or_absent s' (r_ID (mm_Record mx)) (edit_of (mm_Record mx))).
Proof.
  intros Hw Hp Hdel Hlt. cbv zeta. destruct (row_mutation _ _ _ _ _ (r_ID (mm_Record mx)) Hw Hp) as [[He Hk]|(row' & Hid & Hr' & Hca & Hd' & Hold)].
  - rewrite He. split; [done|]. intros Ho. case_decide as Hm; [|by unfold older_or_absent; rewrite He].
    exfalso. subst m. destruct (Hk eq_refl) as (row & Hr & Hbad). destruct (Ho _ Hr) as [Hd Hl]. destruct Hbad; congruence.
  - symmetry in Hid. assert (Hd0 : s_deleted row' = ""%string) by (destruct Hd'; [done|by rewrite Hdel in * by done]).
    split.
    + intros (row & Hr & Hd & Hcr). destruct (Hold _ Hr) as [_ Hnl]. rewrite (carried_edit _ _ Hcr) in Hnl.
      destruct (Hlt Hid) as [->|Hl]; [eauto|congruence].
    + intros Ho. case_decide as Hm; [subst m; eauto|]. intros row Hr. rewrite Hr' in Hr. injection Hr as <-.
      split; [done|]. rewrite (carried_edit _ _ Hca). by destruct (Hlt Hid).
Qed.

Lemma newest_in_batch now cs ms s s' (mx : MessageMutation) :
  write_mutations now cs ms s = inl s' →
  (∀ m, m ∈ ms → PreserveNewer (mm_Options m) = true ∧
     (r_ID (mm_Record m) = r_ID (mm_Record mx) → normalizeStoredTime (r_DeletedAt (mm_Record m)) = ""%string) ∧
     (r_ID (mm_Record m) = r_ID (mm_Record mx) → m = mx ∨ String.ltb (edit_of (mm_Record m)) (edit_of (mm_Record mx)) = true)) →
  let current s := ∃ row, ms_rows s !! r_ID (mm_Record mx) = Some row ∧ s_deleted row = ""%string ∧ carries (mm_Record mx) row in
  (current s → current s') ∧ (older_or_absent s (r_ID (mm_Record mx)) (edit_of (mm_Record mx)) → mx ∈ ms → current s').
Proof.
  cbv zeta. revert s. induction ms as [|m ms IH]; intros s; cbn [write_mutations].
  { intros [= ->] _. split; [done|]. by intros _ ?%elem_of_nil. }
  destruct (write_mutation now cs m s) as [s1|] eqn:E; [|done]. intros Hw Hall.
  destruct (IH s1 Hw) as [Hcur Hold]; [intros; apply Hall; by right|].
  destruct (Hall m) as (Hp & Hd & Hl); [by left|]. destruct (newest_step _ _ _ _ _ mx E Hp Hd Hl) as [Hc Ho].
  split; [intros Hcm; by apply Hcur, Hc|]. intros Hold0 Hin. specialize (Ho Hold0). case_decide as Hm; [by apply Hcur|].
  apply Hold; [done|]. apply elem_of_cons in Hin as [?|?]; [congruence|done].
Qed.

(** ** Writing again *)

Lemma text_parts_again r stored now :
  text_parts_of r (Some (written_row now r stored)) = text_parts_of r stored.
Proof.
  unfold written_row. destruct (text_parts_of r stored) as [parts version] eqn:Ep. unfold text_parts_of in *. cbn.
  destruct (0 <? r_TextVersion r); [done|]. destruct stored as [st|]; [|by injection Ep as <- <-].
  destruct (s_textVersion st =? 0) eqn:Ev; injection Ep as <- <-; cbn; [by rewrite Ev|done].
Qed.

Context {rpl : RawPayloadsLaws}.

Lemma written_again now r stored :
  regular_payload (r_RawJSON r) →
  messageContentChanged (written_row now (canonical_record r stored) stored)
    (canonical_record r (Some (written_row now (canonical_record r stored) stored))) = false.
Proof.
  intros Hreg. set (row := written_row now (canonical_record r stored) stored).
  assert (Hraw : s_raw row = canonicalizeMessage (r_RawJSON r) (match stored with Some st => s_raw st | None => ""%string end))
    by (unfold row, written_row; by destruct (text_parts_of _ _)).
  unfold messageContentChanged.
  change (text_parts_of (canonical_record r (Some row)) (Some row)) with (text_parts_of (canonical_record r stored) (Some row)).
  unfold row at 1. rewrite text_parts_again. destruct (text_parts_of (canonical_record r stored) stored) as [parts version] eqn:Ep.
  assert (Hdel : deleted_of (canonical_record r (Some row)) (Some row) = s_deleted row).
  { unfold row, written_row. rewrite Ep. cbn. unfold deleted_of. cbn.
    by destruct (normalizeStoredTime (r_DeletedAt r) =? "")%string. }
  rewrite Hdel. change (r_RawJSON (canonical_record r (Some row))) with (canonicalizeMessage (r_RawJSON r) (s_raw row)).
  rewrite Hraw, canonicalize_again by exact Hreg. unfold row, written_row. rewrite Ep. cbn. rewrite !String.eqb_refl, !Z.eqb_refl, !Bool.eqb_reflx. done.
Qed.

(** ** The search index and the jobs follow the rows *)

Definition describes (f : fts_row) (id : string) (r : storedMessage) : Prop :=
  f_message f = id ∧ f_guild f = s_guild r ∧ f_channel f = s_channel r ∧ f_author f = s_author r ∧ f_content f = s_normalized r.

Record index_ok (s : mstate) : Prop := {
  ix_ids id : is_Some (ms_rows s !! id) → int64_snowflake id = true;
  ix_sound rowID f : ms_fts s !! rowID = Some f →
    MessageFTSRowID (f_message f) = Some rowID ∧ ∃ r, ms_rows s !! f_message f = Some r ∧ s_deleted r = ""%string ∧ describes f (f_message f) r;
  ix_complete id r : ms_rows s !! id = Some r → s_deleted r = ""%string →
    ∃ rowID f, MessageFTSRowID id = Some rowID ∧ ms_fts s !! rowID = Some f ∧ f_message f = id;
  ix_jobs id : is_Some (ms_jobs s !! id) → ∃ r, ms_rows s !! id = Some r ∧ s_deleted r = ""%string
}.

(** The part of the state the index is about. *)
Lemma index_ok_eq s s' :
  ms_rows s' = ms_rows s → ms_fts s' = ms_fts s → ms_jobs s' = ms_jobs s → index_ok s → index_ok s'.
Proof. intros E1 E2 E3 [I1 I2 I3 I4]. split; rewrite ?E1, ?E2, ?E3; done. Qed.

Lemma row_id_other s rowID id id' :
  index_ok s → MessageFTSRowID id = Some rowID → int64_snowflake id = true → is_Some (ms_rows s !! id') → id' ≠ id →
  MessageFTSRowID id' ≠ Some rowID.
Proof. intros I Hid Hi Hr Hne E. apply Hne, MessageFTSRowID_inj; [by apply (ix_ids _ I)|done|congruence]. Qed.

(** A live row is written with its search row. *)
Lemma index_live s s' id rowID r f :
  index_ok s → int64_snowflake id = true → MessageFTSRowID id = Some rowID → s_deleted r = ""%string → describes f id r →
  ms_rows s' = <[id := r]> (ms_rows s) → ms_fts s' = <[rowID := f]> (ms_fts s) →
  (∀ i, is_Some (ms_jobs s' !! i) → i = id ∨ is_Some (ms_jobs s !! i)) → index_ok s'.
Proof.
  intros I Hi Hid Hd Hf E1 E2 E3. assert (Hfm : f_message f = id) by apply Hf.
  split; rewrite ?E1, ?E2.
  - intros i [x Hx]. apply lookup_insert_Some in Hx as [[<- _]|[_ Hx]]; [done|]. apply (ix_ids _ I). eauto.
  - intros rid g. rewrite lookup_insert_Some. intros [[<- <-]|[Hne Hg]].
    + rewrite Hfm, lookup_insert_eq. split; [done|]. exists r. done.
    + destruct (ix_sound _ I _ _ Hg) as (Hr & x & Hx & Hdx & Hdesc). split; [done|]. exists x. split; [|done].
      rewrite lookup_insert_ne; [done|]. intros E. congruence.
  - intros i x. rewrite lookup_insert_Some. intros [[<- <-]|[Hne Hx]] Hdx.
    + exists rowID, f. by rewrite lookup_insert_eq.
    + destruct (ix_complete _ I _ _ Hx Hdx) as (rid & g & Hr & Hg & Hm). exists rid, g. split; [done|]. split; [|done].
      rewrite lookup_insert_ne; [done|]. intros <-. by eapply (row_id_other s rowID id i).
  - intros i [->|Hj]%E3; [rewrite lookup_insert_eq; eauto|]. destruct (ix_jobs _ I i Hj) as (x & Hx & Hdx).
    destruct (decide (i = id)) as [->|Hne]; [rewrite lookup_insert_eq; eauto|rewrite lookup_insert_ne; eauto].
Qed.

(** A tombstoned row loses its search row and its job. *)
Lemma index_dead s s' id rowID :
  index_ok s → int64_snowflake id = true → MessageFTSRowID id = Some rowID →
  (∀ i, i ≠ id → ms_rows s' !! i = ms_rows s !! i) → (∀ r, ms_rows s' !! id = Some r → s_deleted r ≠ ""%string) →
  ms_fts s' = delete rowID (ms_fts s) → ms_jobs s' !! id = None → (∀ i, i ≠ id → is_Some (ms_jobs s' !! i) → is_Some (ms_jobs s !! i)) →
  index_ok s'.
Proof.
  intros I Hi Hid E1 Hd E2 Hj E3. split.
  - intros i Hx. destruct (decide (i = id)) as [->|Hne]; [done|]. rewrite E1 in Hx by done. by apply (ix_ids _ I).
  - intros rid g. rewrite E2, lookup_delete_Some. intros [Hne Hg].
    destruct (ix_sound _ I _ _ Hg) as (Hr & x & Hx & Hdx & Hdesc). split; [done|]. exists x. split; [|done].
    rewrite E1; [done|]. intros E. congruence.
  - intros i x Hx Hdx. destruct (decide (i = id)) as [->|Hne]; [by destruct (Hd _ Hx)|]. rewrite E1 in Hx by done.
    destruct (ix_complete _ I _ _ Hx Hdx) as (rid & g & Hr & Hg & Hm). exists rid, g. split; [done|]. split; [|done].
    rewrite E2, lookup_delete_ne; [done|]. intros <-. eapply (row_id_other s rowID id i); eauto.
  - intros i Hji. destruct (decide (i = id)) as [->|Hne]; [rewrite Hj in Hji; by destruct Hji|].
    apply E3 in Hji; [|done]. rewrite E1 by done. by apply (ix_jobs _ I).
Qed.

Lemma fts_archive now id text s : ms_fts (archiveMessageEmbeddings now id text s) = ms_fts s ∧ ms_jobs (archiveMessageEmbeddings now id text s) = ms_jobs s.
Proof. unfold archiveMessageEmbeddings. by destruct (ms_rows s !! id). Qed.

Lemma queue_frame now c id text s :
  ms_fts (queueEmbedding now c id text s) = ms_fts s
  ∧ (∀ i, is_Some (ms_jobs (queueEmbedding now c id text s) !! i) → i = id ∨ is_Some (ms_jobs s !! i)).
Proof.
  unfold queueEmbedding. cbn. destruct (fts_archive now id text s) as [-> ->]. split; [done|].
  intros i. rewrite lookup_insert. case_decide; [by left|by right].
Qed.

(** A conditional queueing. *)
Lemma maybe_queue_frame (b : bool) now c id text s :
  let s' := if b then queueEmbedding now c id text s else s in
  ms_rows s' = ms_rows s ∧ ms_fts s' = ms_fts s ∧ ∀ i, is_Some (ms_jobs s' !! i) → i = id ∨ is_Some (ms_jobs s !! i).
Proof.
  destruct b; cbv zeta; [|split_and!; auto]. rewrite rows_queue. destruct (queue_frame now c id text s) as [-> ?]. done.
Qed.

Lemma revoke_frame id s i : is_Some (ms_jobs (revokeJob id s) !! i) ↔ is_Some (ms_jobs s !! i).
Proof. unfold revokeJob. cbn. by rewrite lookup_alter_is_Some. Qed.

(** What a write does to the index, for a message with a row id. *)
Lemma write_frame now m o tok s rowID :
  MessageFTSRowID (r_ID m) = Some rowID →
  let s' := write_message now m o tok s in
  if (r_DeletedAt m =? "")%string
  then ms_fts s' = <[rowID := fts_of m (r_NormalizedContent m)]> (ms_fts s)
       ∧ ∀ i, is_Some (ms_jobs s' !! i) → i = r_ID m ∨ is_Some (ms_jobs s !! i)
  else ms_fts s' = delete rowID (ms_fts s) ∧ ms_jobs s' !! r_ID m = None
       ∧ ∀ i, i ≠ r_ID m → is_Some (ms_jobs s' !! i) → is_Some (ms_jobs s !! i).
Proof.
  intros Hid. cbv zeta. unfold write_message. rewrite Hid. cbv zeta. 
  match goal with |- context [with_rows ?x ?s0] => set (s1 := s0) end.
  assert (Hs1 : ms_fts s1 = ms_fts s ∧ ∀ i, is_Some (ms_jobs s1 !! i) ↔ is_Some (ms_jobs s !! i)).
  { unfold s1. destruct (s_normalized <$> ms_rows s !! r_ID m) as [p|]; [|done]. destruct (negb _); [|done].
    destruct (fts_archive now (r_ID m) p s) as [E1 E2].
    destruct (negb (EnqueueEmbedding o)); [|cbn; by rewrite E1, E2]. split; [cbn; by rewrite E1|].
    intros i. rewrite revoke_frame. cbn. by rewrite E2. }
  clearbody s1. destruct Hs1 as [Hf Hj].
  destruct (r_DeletedAt m =? "")%string eqn:Ed; cbn [negb].
  - match goal with |- ms_fts (if ?b then queueEmbedding ?n ?c ?i ?t ?x else _) = _ ∧ _ =>
      destruct (maybe_queue_frame b n c i t x) as (_ & Hq1 & Hq2) end.
    rewrite Hq1. split; [cbn; rewrite Hf; by rewrite insert_delete_eq|].
    intros i [?|Hi]%Hq2; [by left|]. right. by apply Hj.
  - cbn [ms_fts ms_jobs with_jobs deleteMessageEmbeddings with_embeddings].
    match goal with |- context [archiveMessageEmbeddings ?n ?i ?t ?x] => destruct (fts_archive n i t x) as [-> ->] end.
    cbn. rewrite Hf, lookup_delete_eq. split_and!; [done|done|].
    intros i Hne. rewrite lookup_delete_ne by done. apply Hj.
Qed.

Lemma refresh_frame now st m o s s' rowID :
  refreshUnchanged now st m o s = inl s' → s_deleted st = ""%string → MessageFTSRowID (r_ID m) = Some rowID →
  (ms_fts s' = ms_fts s
   ∨ ∃ f, ms_fts s' = <[rowID := f]> (ms_fts s) ∧ f_message f = r_ID m ∧ f_guild f = r_GuildID m ∧ f_channel f = r_ChannelID m
          ∧ f_author f = r_AuthorID m ∧ f_content f = r_NormalizedContent m)
  ∧ ∀ i, is_Some (ms_jobs s' !! i) → i = r_ID m ∨ is_Some (ms_jobs s !! i).
Proof.
  unfold refreshUnchanged. intros Hr Hd Hid. rewrite Hd in Hr. change (negb ("" =? "")%string) with false in Hr. cbv iota in Hr.
  destruct (refresh_search m s) as [s1|] eqn:E; [|done].
  assert (Hs1 : (ms_fts s1 = ms_fts s ∨ ∃ f, ms_fts s1 = <[rowID := f]> (ms_fts s) ∧ f_message f = r_ID m ∧ f_guild f = r_GuildID m
                 ∧ f_channel f = r_ChannelID m ∧ f_author f = r_AuthorID m ∧ f_content f = r_NormalizedContent m)
                ∧ ms_jobs s1 = ms_jobs s).
  { unfold refresh_search in E. rewrite Hid in E. cbv zeta in E. destruct (ms_fts s !! rowID) as [f|].
    - destruct (_ || _); injection E as <-; [|auto]. split; [right|done]. eexists. split; [done|]. done.
    - destruct (tokenizeLexical _); [|done]. injection E as <-. split; [right|done]. eexists. split; [done|]. done. }
  clear E. destruct Hs1 as [Hf Hj].
  assert (∀ x, (λ y, (ms_fts y = ms_fts s1 ∧ ∀ i, is_Some (ms_jobs y !! i) → i = r_ID m ∨ is_Some (ms_jobs s1 !! i))) x →
     (ms_fts x = ms_fts s ∨ ∃ f, ms_fts x = <[rowID := f]> (ms_fts s) ∧ f_message f = r_ID m ∧ f_guild f = r_GuildID m
                 ∧ f_channel f = r_ChannelID m ∧ f_author f = r_AuthorID m ∧ f_content f = r_NormalizedContent m)
     ∧ ∀ i, is_Some (ms_jobs x !! i) → i = r_ID m ∨ is_Some (ms_jobs s !! i)) as Hgen.
  { intros x [-> Hx]. split; [done|]. rewrite <- Hj. done. }
  apply Hgen. destruct (_ || _); [injection Hr as <-; split; auto|].
  destruct (ms_jobs s1 !! r_ID m) eqn:Ej; injection Hr as <-; [split; auto|apply queue_frame].
Qed.

(** Records whose deletion time, if any, is one. *)
Definition record_ok (r : MessageRecord) : Prop :=
  int64_snowflake (r_ID r) = true ∧ (r_DeletedAt r = ""%string ∨ normalizeStoredTime (r_DeletedAt r) ≠ ""%string).

Lemma unchanged_columns st m : messageContentChanged st m = false →
  s_guild st = r_GuildID m ∧ s_channel st = r_ChannelID m ∧ s_author st = r_AuthorID m ∧ s_normalized st = r_NormalizedContent m.
Proof. unfold messageContentChanged. destruct (text_parts_of _ _). intros Hc. propify. done. Qed.

Lemma written_describes now r stored rowID (m := canonical_record r stored) :
  MessageFTSRowID (r_ID r) = Some rowID → describes (fts_of m (r_NormalizedContent m)) (r_ID r) (written_row now m stored).
Proof. intros _. unfold written_row, describes. by destruct (text_parts_of _ _). Qed.

Lemma written_deleted now r st : s_deleted (written_row now (canonical_record r st) st) = deleted_of r st.
Proof. unfold written_row. by destruct (text_parts_of _ _). Qed.

Lemma upsert_index now r o s b s' :
  upsertMessage now r o s = inl (b, s') → record_ok r → (∀ st, ms_rows s !! r_ID r = Some st → s_deleted st = ""%string) →
  index_ok s → index_ok s' ∧ (ms_rows s' = ms_rows s ∨ b = true).
Proof.
  intros Hu [Hi Hdel] Hlive I. pose proof (MessageFTSRowID_snowflake _ Hi) as Hid.
  pose proof (rows_upsert _ _ _ _ _ _ Hu) as Hrows. unfold upsertMessage in Hu. fold (canonical_record r (ms_rows s !! r_ID r)) in Hu. cbv zeta in Hu.
  destruct Hrows as [(-> & Hrows & st & Hst & Hch)|(-> & Hrows)]; (split; [|by auto]).
  - rewrite Hst, Hch in Hu. cbn [negb] in Hu. destruct (refreshUnchanged _ _ _ _ _) as [s1|] eqn:Er; [|done]. injection Hu as ->.
    destruct (refresh_frame _ _ _ _ _ _ _ Er (Hlive _ Hst) Hid) as [[Hf|(f & Hf & Hdesc)] Hj].
    + destruct (ix_complete _ I _ _ Hst (Hlive _ Hst)) as (rid & f & Hrid & Hfr & Hfm).
      assert (rid = digits_value 0 (r_ID r)) as -> by congruence.
      destruct (ix_sound _ I _ _ Hfr) as (_ & x & Hx & Hdx & Hdesc). rewrite Hfm in Hx, Hdesc.
      eapply (index_live s s' (r_ID r) _ x f); try done; [by rewrite Hrows, insert_id|by rewrite Hf, insert_id].
    + destruct (unchanged_columns _ _ Hch) as (E1 & E2 & E3 & E4).
      eapply (index_live s s' (r_ID r) _ st f); try done; [by apply Hlive| |by rewrite Hrows, insert_id].
      destruct Hdesc as (D1 & D2 & D3 & D4 & D5). unfold describes. rewrite D1, D2, D3, D4, D5. done.
  - assert (∃ s0 tok, ms_fts s0 = ms_fts s ∧ ms_jobs s0 = ms_jobs s ∧ ms_rows s0 = ms_rows s ∧ s' = write_message now (canonical_record r (ms_rows s !! r_ID r)) o tok s0)
      as (s0 & tok & Hf0 & Hj0 & Hr0 & ->).
    { destruct (ms_rows s !! r_ID r) as [st|] eqn:Est.
      - destruct (messageContentChanged _ _); cbn [negb] in Hu; [|by destruct (refreshUnchanged _ _ _ _ _)].
        match type of Hu with match ?x with _ => _ end = _ => destruct x as [tok|]; [|done] end. injection Hu as <-. eexists _, tok. split_and!; [..|done]; done.
      - match type of Hu with match ?x with _ => _ end = _ => destruct x as [tok|]; [|done] end. injection Hu as <-. eexists _, tok. split_and!; [..|done]; done. }
    pose proof (write_frame now (canonical_record r (ms_rows s !! r_ID r)) o tok s0 _ Hid) as Hw. cbv zeta in Hw.
    change (r_DeletedAt (canonical_record r (ms_rows s !! r_ID r))) with (r_DeletedAt r) in Hw.
    change (r_ID (canonical_record r (ms_rows s !! r_ID r))) with (r_ID r) in Hw.
    rewrite Hf0, Hj0 in Hw. 
    destruct (String.eqb_spec (r_DeletedAt r) "") as [Hd|Hd].
    + destruct Hw as [Hwf Hwj]. eapply (index_live s _ (r_ID r)); [done|done|done| | |exact Hrows|exact Hwf|exact Hwj].
      * rewrite written_deleted. unfold deleted_of. rewrite Hd. cbn. destruct (ms_rows s !! r_ID r) eqn:E; [by apply Hlive|done].
      * by eapply written_describes.
    + destruct Hw as (Hwf & Hwn & Hwj). eapply (index_dead s _ (r_ID r)); [done|done|done| | |exact Hwf|exact Hwn|exact Hwj].
      * intros i Hne. by rewrite Hrows, lookup_insert_ne.
      * intros x. rewrite Hrows, lookup_insert_eq. intros [= <-]. rewrite written_deleted. unfold deleted_of.
        destruct Hdel as [?|Hdel]; [done|]. by destruct (String.eqb_spec (normalizeStoredTime (r_DeletedAt r)) "").
Qed.

Lemma mutation_index now cs m s s' :
  write_mutation now cs m s = inl s' → PreserveNewer (mm_Options m) = true → record_ok (mm_Record m) → index_ok s → index_ok s'.
Proof.
  intros (_ & m' & _ & Hp & Hc)%mutation_cases Hpn Hok I. rewrite Hpn in Hc. cbn [andb] in Hc.
  assert (Hok' : record_ok (mm_Record m')) by (unfold record_ok; by rewrite (prepared_id _ _ Hp), (deleted_prepared _ _ Hp)).
  assert (I1 : index_ok (observed now m s)) by (by apply (index_ok_eq s)).
  assert (Hev : ∀ x, ms_fts (appendMutationEvent now m' x) = ms_fts x ∧ ms_jobs (appendMutationEvent now m' x) = ms_jobs x)
    by (intros x; unfold appendMutationEvent; by repeat case_match).
  destruct Hc as [[_ ->]|(Hk & b & s1 & Hu & ->)].
  - destruct (Hev (observed now m s)). eapply index_ok_eq; [apply rows_event|done..].
  - destruct (Hev (on_receipts (recordObserved now "messages" (fst (write_relations now m' b s1)) [r_ID (mm_Record m')]) (snd (write_relations now m' b s1)))) as [E1 E2].
    eapply index_ok_eq; [apply rows_event|exact E1|exact E2|]. clear E1 E2.
    destruct (upsert_index _ _ _ _ _ _ Hu Hok') as [I2 _]; [|done|].
    { intros st Hst. unfold keepStoredMessage in Hk. rewrite Hst in Hk. by destruct (String.eqb_spec (s_deleted st) ""). }
    assert (Hrel : ms_fts (snd (write_relations now m' b s1)) = ms_fts s1 ∧ ms_jobs (snd (write_relations now m' b s1)) = ms_jobs s1)
      by (unfold write_relations; by repeat case_match).
    destruct Hrel as [Ef Ej].
    destruct (rows_relations now m' b s1) as [Er|Er]; [by apply (index_ok_eq s1)|].
    destruct I2 as [J1 J2 J3 J4].
    split; cbn [ms_rows ms_fts ms_jobs on_receipts with_attachments]; rewrite ?Ef, ?Ej, ?Er.
    + intros i. rewrite lookup_alter_is_Some. apply J1.
    + intros rid f Hf. destruct (J2 _ _ Hf) as (Hr & x & Hx & Hdx & Hdesc). split; [done|].
      destruct (decide (r_ID (mm_Record m') = f_message f)) as [Heq|Hne].
      * exists (touch now x). rewrite Heq, lookup_alter_eq, Hx. done.
      * exists x. by rewrite lookup_alter_ne.
    + intros i x. destruct (decide (r_ID (mm_Record m') = i)) as [<-|Hne]; [|rewrite lookup_alter_ne by done; apply J3].
      rewrite lookup_alter_eq, fmap_Some. intros (y & Hy & ->) Hd. by apply (J3 _ _ Hy).
    + intros i Hj. destruct (J4 i Hj) as (x & Hx & Hd). destruct (decide (r_ID (mm_Record m') = i)) as [<-|Hne].
      * exists (touch now x). by rewrite lookup_alter_eq, Hx.
      * exists x. by rewrite lookup_alter_ne.
Qed.

Lemma deleted_index now g c id ev v s :
  int64_snowflake id = true → index_ok s → index_ok (snd (markMessageDeleted now g c id ev v s)).
Proof.
  intros Hi I. unfold markMessageDeleted. pose proof (MessageFTSRowID_snowflake _ Hi) as Hid. rewrite Hid.
  destruct (if v then _ else None) eqn:Eref; [done|]. cbn [snd]. set (preserve := v && _).
  set (s1 := if preserve then s else _). cbv zeta.
  assert (Hs1 : ms_fts s1 = ms_fts s ∧ ms_jobs s1 = ms_jobs s ∧ (∀ i, i ≠ id → ms_rows s1 !! i = ms_rows s !! i)
                ∧ ∀ r, ms_rows s1 !! id = Some r → s_deleted r ≠ ""%string).
  { unfold s1, preserve. destruct v; cbn [andb].
    - destruct (ms_rows s !! id) as [r|] eqn:Er; [|done].
      destruct (String.eqb_spec (s_deleted r) "") as [Hd|Hd]; cbn [negb].
      + cbn. split_and!; [done|done|intros i Hne; by rewrite lookup_alter_ne|].
        intros x. rewrite lookup_alter_eq, Er. intros [= <-]. cbn. pose proof (timeLayout_nonempty now). by apply String.eqb_neq.
      + split_and!; [done..|]. intros x. rewrite Er. by intros [= <-].
    - cbn. split_and!; [done|done|intros i Hne; by rewrite lookup_alter_ne|].
      intros x. rewrite lookup_alter_eq, fmap_Some. intros (y & _ & ->). cbn. pose proof (timeLayout_nonempty now). by apply String.eqb_neq. }
  clearbody s1. destruct Hs1 as (Ef & Ej & Er & Hd).
  set (s2 := with_fts _ s1).
  match goal with |- context [archiveMessageEmbeddings now id ?t ?x] => destruct (fts_archive now id t x) as [Ea Eb]; pose proof (rows_archive now id t x) as Ec end.
  destruct ev; (eapply (index_dead s _ id); [exact I|exact Hi|exact Hid|..]);
    cbn [appendEvent with_events with_jobs deleteMessageEmbeddings with_embeddings ms_rows ms_fts ms_jobs]; rewrite ?Ea, ?Eb, ?Ec; cbn; rewrite ?Ef, ?Ej, ?lookup_delete_eq; try done;
    (intros i Hne; rewrite lookup_delete_ne by done; done).
Qed.

(** ** Vectors *)

Definition vectors (s : mstate) (id : string) : list embedding := default [] (ms_embeddings s !! id).

(** Vectors belong to stored messages. *)
Definition owned (s : mstate) : Prop := ∀ id, is_Some (ms_embeddings s !! id) → is_Some (ms_rows s !! id).

(** Every vector of [s] is current in [s'], or retained. *)
Definition retained (s s' : mstate) : Prop :=
  ms_embedding_history s ⊆ ms_embedding_history s'
  ∧ ∀ id e, e ∈ vectors s id → e ∈ vectors s' id ∨ is_Some (ms_embedding_history s' !! embedding_key_of id e).

Definition vec_step (s s' : mstate) : Prop :=
  owned s → owned s' ∧ retained s s' ∧ ∀ id, is_Some (ms_rows s !! id) → is_Some (ms_rows s' !! id).

Lemma vec_trans s1 s2 s3 : vec_step s1 s2 → vec_step s2 s3 → vec_step s1 s3.
Proof.
  intros H12 H23 Ho. destruct (H12 Ho) as (Ho2 & [Hs2 Hv2] & Hr2). destruct (H23 Ho2) as (Ho3 & [Hs3 Hv3] & Hr3).
  split_and!; [done|split; [by etransitivity|]|auto].
  intros id e He. destruct (Hv2 _ _ He) as [He2|[x Hx]]; [by apply Hv3|]. right. exists x. by eapply lookup_weaken.
Qed.

(** Steps that leave the vectors alone and remove no row. *)
Lemma vec_frame s s' :
  ms_embeddings s' = ms_embeddings s → ms_embedding_history s' = ms_embedding_history s →
  (∀ id, is_Some (ms_rows s !! id) → is_Some (ms_rows s' !! id)) → vec_step s s'.
Proof.
  intros E1 E2 E3 Ho. unfold owned, retained, vectors. rewrite E1, E2. split_and!; [|done|by left|done].
  intros id Hid. by apply E3, Ho.
Qed.

Lemma archive_fold_mono now id g c t es h : h ⊆ fold_left (archive_one now id g c t) es h.
Proof.
  revert h. induction es as [|e es IH]; intros h; [done|]. cbn. etransitivity; [|apply IH].
  unfold archive_one. destruct (h !! embedding_key_of id e) eqn:E; [done|]. by apply insert_subseteq.
Qed.

Lemma archive_fold_adds now id g c t es h e :
  e ∈ es → is_Some (fold_left (archive_one now id g c t) es h !! embedding_key_of id e).
Proof.
  revert h. induction es as [|x es IH]; intros h Hin; [by apply elem_of_nil in Hin|]. cbn.
  apply elem_of_cons in Hin as [->|Hin]; [|by apply IH].
  assert (is_Some (archive_one now id g c t h x !! embedding_key_of id x)) as [v Hv].
  { unfold archive_one. destruct (h !! embedding_key_of id x) eqn:E; [by rewrite E|]. rewrite lookup_insert_eq. eauto. }
  exists v. eapply lookup_weaken; [exact Hv|]. apply archive_fold_mono.
Qed.

(** Archiving a message's vectors and then removing them. *)
Lemma vec_archived now id t s s' :
  ms_embeddings s' = delete id (ms_embeddings s) →
  ms_embedding_history s' = ms_embedding_history (archiveMessageEmbeddings now id t s) →
  (∀ i, is_Some (ms_rows s !! i) → is_Some (ms_rows s' !! i)) → vec_step s s'.
Proof.
  intros E1 E2 E3 Ho. unfold archiveMessageEmbeddings in E2. split_and!; [| |done].
  - intros i. rewrite E1, lookup_delete_is_Some. intros [_ Hi]. by apply E3, Ho.
  - unfold retained, vectors. rewrite E1. destruct (ms_rows s !! id) as [r|] eqn:Er.
    + cbn in E2. rewrite E2. split; [apply archive_fold_mono|]. intros i e He. destruct (decide (i = id)) as [->|Hne].
      * right. by apply archive_fold_adds.
      * left. by rewrite lookup_delete_ne.
    + rewrite E2. split; [done|]. intros i e He. destruct (decide (i = id)) as [->|Hne]; [|left; by rewrite lookup_delete_ne].
      exfalso. destruct (ms_embeddings s !! id) as [es|] eqn:Ee; [|by apply elem_of_nil in He].
      destruct (Ho id) as [x Hx]; [by rewrite Ee|]. congruence.
Qed.

Lemma emb_archive now id t s : ms_embeddings (archiveMessageEmbeddings now id t s) = ms_embeddings s.
Proof. unfold archiveMessageEmbeddings. by destruct (ms_rows s !! id). Qed.

Lemma vec_discard now id t s : vec_step s (deleteMessageEmbeddings id (archiveMessageEmbeddings now id t s)).
Proof. eapply (vec_archived now id t); cbn; [by rewrite emb_archive|done|by rewrite rows_archive]. Qed.

Lemma vec_queue now c id t s : vec_step s (queueEmbedding now c id t s).
Proof. eapply (vec_archived now id t); [cbn; by rewrite emb_archive|done|by rewrite rows_queue]. Qed.

Lemma insert_keeps {A} (rows : gmap string A) id r i : is_Some (rows !! i) → is_Some (<[id := r]> rows !! i).
Proof. rewrite lookup_insert. case_decide; eauto. Qed.

Lemma vec_write now m o tok s : vec_step s (write_message now m o tok s).
Proof.
  unfold write_message. cbv zeta.
  match goal with |- context [with_rows ?x ?s0] => set (s1 := s0) end.
  assert (Hs1 : vec_step s s1 ∧ ms_rows s1 = ms_rows s).
  { unfold s1. destruct (s_normalized <$> _) as [p|]; [|split; [by apply vec_frame|done]].
    destruct (negb (p =? _)%string); [|split; [by apply vec_frame|done]].
    pose proof (vec_discard now (r_ID m) p s) as Hv. destruct (negb (EnqueueEmbedding o)).
    - split; [eapply vec_trans; [exact Hv|by apply vec_frame]|]. cbn. apply rows_archive.
    - split; [done|]. cbn. apply rows_archive. }
  clearbody s1. destruct Hs1 as [Hv Hrows]. eapply vec_trans; [exact Hv|]. clear Hv.
  match goal with |- context [with_rows ?x s1] => set (s2 := with_rows x s1) end.
  apply (vec_trans s1 s2); [apply vec_frame; [done..|]; intros i; apply insert_keeps|]. clearbody s2. clear Hrows.
  destruct (MessageFTSRowID (r_ID m)) as [rid|].
  - destruct (negb (r_DeletedAt m =? "")%string).
    + match goal with |- context [archiveMessageEmbeddings now ?i ?t ?x] => eapply (vec_trans _ x); [by apply vec_frame|];
        eapply (vec_trans _ (deleteMessageEmbeddings i (archiveMessageEmbeddings now i t x))); [apply vec_discard|by apply vec_frame] end.
    + match goal with |- vec_step s2 (if ?b then queueEmbedding ?n ?c ?i ?t ?x else _) => eapply (vec_trans _ x); [by apply vec_frame|] end.
      destruct (_ && _ && _); [apply vec_queue|by apply vec_frame].
  - destruct (_ && _ && _); [apply vec_queue|by apply vec_frame].
Qed.

Lemma vec_refresh now st m o s s' : refreshUnchanged now st m o s = inl s' → vec_step s s'.
Proof.
  unfold refreshUnchanged. destruct (negb _); [intros [= <-]; by apply vec_frame|].
  destruct (refresh_search m s) as [s1|] eqn:E; [|done].
  assert (vec_step s s1) as Hv.
  { unfold refresh_search in E. repeat case_match; simplify_eq; by apply vec_frame. }
  destruct (_ || _); [by intros [= <-]|]. destruct (ms_jobs s1 !! r_ID m); intros [= <-]; [done|].
  eapply vec_trans; [exact Hv|apply vec_queue].
Qed.

Lemma vec_upsert now m o s b s' : upsertMessage now m o s = inl (b, s') → vec_step s s'.
Proof.
  unfold upsertMessage. cbv zeta. destruct (ms_rows s !! r_ID m) as [st|].
  - destruct (negb _).
    + destruct (refreshUnchanged _ _ _ _ _) eqn:E; [|done]. intros [= _ <-]. by eapply vec_refresh.
    + repeat case_match; try done; intros [= _ <-]; (eapply vec_trans; [|apply vec_write]; by apply vec_frame).
  - repeat case_match; try done; intros [= _ <-]; apply vec_write.
Qed.

Lemma vec_mutation now cs m s s' : write_mutation now cs m s = inl s' → vec_step s s'.
Proof.
  intros (_ & m' & _ & _ & Hc)%mutation_cases.
  assert (Hev : ∀ x, vec_step x (appendMutationEvent now m' x))
    by (intros x; unfold appendMutationEvent; repeat case_match; by apply vec_frame).
  assert (H0 : vec_step s (observed now m s)) by by apply vec_frame.
  destruct Hc as [[_ ->]|(_ & b & s1 & Hu & ->)]; [by eapply vec_trans|].
  eapply vec_trans; [exact H0|]. eapply vec_trans; [by eapply vec_upsert|]. eapply vec_trans; [|apply Hev].
  eapply (vec_trans _ (snd (write_relations now m' b s1))); [|by apply vec_frame].
  apply vec_frame; [unfold write_relations; by repeat case_match..|].
  intros id Hi. destruct (rows_relations now m' b s1) as [->| ->]; [done|by apply lookup_alter_is_Some].
Qed.

Lemma vec_message_step s s' : message_step s s' → vec_step s s'.
Proof.
  intros [now cs ms|now m o|now g c id ev v].
  - apply (batch_ind (vec_step s)); [|by apply vec_frame]. intros m s1 s2 _ Hw Hv. eapply vec_trans; [exact Hv|by eapply vec_mutation].
  - unfold upsertMessageWithOptions. cbv zeta. destruct (_ && _); [by apply vec_frame|].
    destruct (upsertMessage _ _ _ _) as [[b s1]|] eqn:E; [|by apply vec_frame]. apply vec_upsert in E.
    eapply vec_trans; [|eapply vec_trans; [exact E|by apply vec_frame]]. by apply vec_frame.
  - unfold markMessageDeleted. destruct (if v then _ else None); [by apply vec_frame|]. cbn [snd]. set (preserve := v && _).
    set (s1 := if preserve then s else _). cbv zeta.
    assert (vec_step s s1) as Hv.
    { unfold s1. destruct preserve; apply vec_frame; try done. intros i Hi. cbn [ms_rows with_rows]. by apply lookup_alter_is_Some. }
    clearbody s1. eapply vec_trans; [exact Hv|].
    match goal with |- context [archiveMessageEmbeddings now id ?t ?x] => eapply (vec_trans _ x);
      [destruct (MessageFTSRowID id); by apply vec_frame|eapply vec_trans; [apply (vec_discard now id t)|]] end.
    destruct ev; by apply vec_frame.
Qed.

(** ** Evidence *)

(** Receipts are only appended to. *)
Definition grows (r r' : receipts) : Prop :=
  (∃ l, rc_observations r' = rc_observations r ++ l) ∧ (∃ l, rc_history r' = rc_history r ++ l).

Lemma grows_refl r : grows r r.
Proof. by split; exists []; rewrite app_nil_r. Qed.
Lemma grows_trans r1 r2 r3 : grows r1 r2 → grows r2 r3 → grows r1 r3.
Proof. intros [[a Ha] [b Hb]] [[c Hc] [d Hd]]. split; [exists (a ++ c)|exists (b ++ d)]; by rewrite app_assoc, <- ?Ha, <- ?Hb. Qed.

Lemma grows_check now t k a b o key r : grows r (recordCheck now t k a b o key r).
Proof. split; [exists []; by rewrite app_nil_r|by eexists]. Qed.
Lemma grows_observe t key a e r : grows r (observe t key a e r).
Proof. split; [by eexists|exists []; by rewrite app_nil_r]. Qed.
Lemma grows_evidence now t e key r : grows r (recordEvidence now t e key r).
Proof.
  unfold recordEvidence. destruct e; try apply grows_observe. destruct (ObservationStartedAt _); [|apply grows_observe].
  eapply grows_trans; [apply grows_check|apply grows_observe].
Qed.
Lemma grows_legacy t b e key r : grows r (retainLegacy t b e key r).
Proof. unfold retainLegacy. destruct (_ || _); [apply grows_refl|apply grows_observe]. Qed.

Lemma grows_legacy_attachment id a : grows (at_receipts a) (at_receipts (retainLegacyAttachment id a)).
Proof. unfold retainLegacyAttachment. destruct (at_rows a !! id); [apply grows_legacy|apply grows_refl]. Qed.

Lemma fold_grows {A} (f : bool * attachments → A → bool * attachments) l st :
  (∀ st x, grows (at_receipts (snd st)) (at_receipts (snd (f st x)))) → grows (at_receipts (snd st)) (at_receipts (snd (fold_left f l st))).
Proof.
  intros Hf. revert st. induction l as [|x l IH]; intros st; [apply grows_refl|]. cbn. eapply grows_trans; [apply Hf|apply IH].
Qed.

Lemma grows_attachments now id atts a : grows (at_receipts a) (at_receipts (snd (applyAttachments now id atts a))).
Proof.
  unfold applyAttachments. eapply grows_trans; [|apply fold_grows].
  - eapply (grows_trans _ (at_receipts (retainAttachmentText now id a))); [apply grows_refl|].
    change (retainAttachmentText now id a) with (snd (false, retainAttachmentText now id a)) at 1. apply fold_grows.
    intros [b s] x. unfold drop_attachment. case_bool_decide; [apply grows_refl|]. apply grows_legacy_attachment.
  - intros [b s] x. unfold apply_attachment. cbv zeta.
    eapply (grows_trans _ (at_receipts (with_receipts (recordEvidence now "message_attachments" (EvAttachment x) [a_AttachmentID x]) s)));
      [apply grows_evidence|].
    destruct (sameStoredAttachment _ _); destruct (a_TextAttemptedAt _ =? "")%string; cbn [snd].
    + apply grows_refl.
    + apply grows_check.
    + apply grows_legacy_attachment.
    + eapply grows_trans; [apply grows_legacy_attachment|apply grows_check].
Qed.

(** The tables of the relations, which the row writers leave alone. *)
Definition relations (s : mstate) : attachments * mentions := (ms_attachments s, ms_mentions s).

Lemma rel_archive now i t x : relations (archiveMessageEmbeddings now i t x) = relations x.
Proof. unfold archiveMessageEmbeddings. by destruct (ms_rows x !! i). Qed.
Lemma rel_queue now c i t x : relations (queueEmbedding now c i t x) = relations x.
Proof. unfold queueEmbedding. apply (rel_archive now i t x). Qed.

Lemma rel_write now m o tok s : relations (write_message now m o tok s) = relations s.
Proof.
  unfold write_message. cbv zeta.
  match goal with |- context [with_rows ?x ?s0] => set (s1 := s0) end.
  assert (Hs1 : relations s1 = relations s).
  { unfold s1. destruct (s_normalized <$> _) as [p|]; [|done]. destruct (negb (p =? _)%string); [|done].
    destruct (negb _); apply (rel_archive now (r_ID m) p s). }
  clearbody s1. rewrite <- Hs1.
  destruct (MessageFTSRowID (r_ID m)); [destruct (negb (r_DeletedAt m =? "")%string)|];
    [match goal with |- context [archiveMessageEmbeddings now ?i ?t ?x] => apply (rel_archive now i t x) end|..];
    (destruct (_ && _ && _); [by rewrite rel_queue|done]).
Qed.

Lemma rel_refresh now st m o s s' : refreshUnchanged now st m o s = inl s' → relations s' = relations s.
Proof.
  unfold refreshUnchanged. destruct (negb _); [by intros [= <-]|].
  destruct (refresh_search m s) as [s1|] eqn:E; [|done].
  assert (relations s1 = relations s) as Hr by (unfold refresh_search in E; repeat case_match; simplify_eq; done).
  destruct (_ || _); [by intros [= <-]|]. destruct (ms_jobs s1 !! r_ID m); intros [= <-]; [done|]. by rewrite rel_queue.
Qed.

Lemma receipts_rel s s' : relations s' = relations s → ms_receipts s' = ms_receipts s.
Proof. unfold ms_receipts. by intros [= -> _]. Qed.

Lemma grows_upsert now m o s b s' : upsertMessage now m o s = inl (b, s') → grows (ms_receipts s) (ms_receipts s').
Proof.
  unfold upsertMessage. cbv zeta. destruct (ms_rows s !! r_ID m) as [st|].
  - destruct (negb _).
    + destruct (refreshUnchanged _ _ _ _ _) eqn:E; [|done]. intros [= _ <-]. rewrite (receipts_rel _ _ (rel_refresh _ _ _ _ _ _ E)). apply grows_refl.
    + repeat case_match; try done; intros [= _ <-]; rewrite (receipts_rel _ _ (rel_write _ _ _ _ _)); apply grows_legacy.
  - repeat case_match; try done; intros [= _ <-]; rewrite (receipts_rel _ _ (rel_write _ _ _ _ _)); apply grows_refl.
Qed.

(** The receipt of a mutation: all of it but the local write options. *)
Definition evidence_of (now : Z) (m : MessageMutation) : observation :=
  mkObservation "messages" [r_ID (mm_Record m)] (timeLayout now)
    (EvMutation (mkMessageMutation (mm_Record m) (mm_EventType m) (mm_PayloadJSON m) no_options (mm_Attachments m) (mm_Mentions m))).

Lemma observed_evidence now m s :
  grows (ms_receipts s) (ms_receipts (observed now m s)) ∧ evidence_of now m ∈ rc_observations (ms_receipts (observed now m s)).
Proof.
  split; [apply grows_evidence|]. unfold observed, ms_receipts, recordEvidence. cbn.
  destruct (ObservationStartedAt (mm_Options m)); cbn; apply elem_of_app; right; by left.
Qed.

Lemma grows_elem r r' o : grows r r' → o ∈ rc_observations r → o ∈ rc_observations r'.
Proof. intros [[l ->] _] Ho. apply elem_of_app. by left. Qed.

Lemma mutation_evidence now cs m s s' :
  write_mutation now cs m s = inl s' →
  grows (ms_receipts s) (ms_receipts s') ∧ evidence_of now m ∈ rc_observations (ms_receipts s')
  ∧ requireMessageScope cs (r_ChannelID (mm_Record m)) (r_GuildID (mm_Record m)) (ScopePolicy (mm_Options m)) = None
  ∧ is_Some (ms_rows s' !! r_ID (mm_Record m)).
Proof.
  intros Hw. pose proof (rows_mutation _ _ _ _ _ Hw) as (m1 & Hp1 & Hrows).
  apply mutation_cases in Hw as (Hscope & m' & _ & Hp & Hc).
  assert (Hev : ∀ x, ms_receipts (appendMutationEvent now m' x) = ms_receipts x)
    by (intros x; unfold appendMutationEvent; by repeat case_match).
  destruct (observed_evidence now m s) as [Hg He].
  assert (grows (ms_receipts (observed now m s)) (ms_receipts s')) as Hg'.
  { destruct Hc as [[_ ->]|(_ & b & s1 & Hu & ->)]; rewrite Hev; [apply grows_refl|].
    eapply grows_trans; [by eapply grows_upsert|]. eapply (grows_trans _ (ms_receipts (snd (write_relations now m' b s1)))); [|apply grows_check].
    pose proof (grows_attachments now (r_ID (mm_Record m')) (mm_Attachments m') (ms_attachments s1)) as Ha.
    unfold write_relations. destruct (applyAttachments _ _ _ _) as [ac a]. destruct (applyMentionEvents _ _ _ _) as [mc me].
    by case_match. }
  split_and!; [by eapply grows_trans|by eapply grows_elem|done|].
  rewrite (prepared_id _ _ Hp1) in Hrows.
  destruct Hrows as [[Hk ->]|[_ [(st & Hst & _ & [->| ->])|Hw]]].
  - propify. unfold keepStoredMessage in *. rewrite (prepared_id _ _ Hp1) in *. cbn [ms_rows observed on_receipts with_attachments] in *.
    destruct (ms_rows s !! r_ID (mm_Record m)); [eauto|done].
  - eauto.
  - apply lookup_alter_is_Some. eauto.
  - rewrite Hw, lookup_insert_eq. eauto.
Qed.

Lemma batch_evidence now cs ms s s' :
  write_mutations now cs ms s = inl s' →
  grows (ms_receipts s) (ms_receipts s') ∧
  ∀ m, m ∈ ms → evidence_of now m ∈ rc_observations (ms_receipts s')
    ∧ requireMessageScope cs (r_ChannelID (mm_Record m)) (r_GuildID (mm_Record m)) (ScopePolicy (mm_Options m)) = None.
Proof.
  revert s. induction ms as [|m ms IH]; intros s; cbn [write_mutations].
  { intros [= ->]. split; [apply grows_refl|]. by intros m ?%elem_of_nil. }
  destruct (write_mutation now cs m s) as [s1|] eqn:E; [|done]. intros Hw. destruct (IH _ Hw) as [Hg Hin].
  destruct (mutation_evidence _ _ _ _ _ E) as (Hg1 & He & Hs & _). split; [by eapply grows_trans|].
  intros m' [->|Hm]%elem_of_cons; [|auto]. split; [by eapply grows_elem|done].
Qed.

(** ** Replays *)

Lemma prepare_attachment_ids id s a :
  a_AttachmentID (prepare_attachment id s a) = a_AttachmentID a ∧ a_MessageID (prepare_attachment id s a) = a_MessageID a.
Proof. unfold prepare_attachment. by repeat case_match. Qed.

(** The text columns of an attachment and those of its receipt. *)
Definition set_text_columns (text status error : string) (a : AttachmentRecord) : AttachmentRecord :=
  mkAttachmentRecord (a_AttachmentID a) (a_MessageID a) (a_GuildID a) (a_ChannelID a)
    (a_AuthorID a) (a_Filename a) (a_ContentType a) (a_Size a) (a_URL a) (a_ProxyURL a) text
    (a_MediaPath a) (a_ContentSHA256 a) (a_ContentSize a) (a_FetchedAt a) (a_FetchStatus a) (a_FetchError a)
    status error "" "".

Lemma admitted_text a :
  content_of (admitted_attachment ∅ a)
  = set_text_columns (a_TextContent a) (if (a_TextStatus a =? "")%string then "unknown" else a_TextStatus a) (a_TextError a) a.
Proof. unfold admitted_attachment. rewrite lookup_empty. by destruct (a_TextStatus a =? "")%string. Qed.

Lemma prepare_text id s a t st er : set_text_columns t st er (prepare_attachment id s a) = set_text_columns t st er a.
Proof. unfold prepare_attachment. by repeat case_match. Qed.

Lemma merged_text ex row a :
  a_TextContent (merged_content ex row a) = a_TextContent a
  ∧ a_TextStatus (merged_content ex row a) = (if (a_TextStatus a =? "")%string then "unknown"%string else a_TextStatus a)
  ∧ a_TextError (merged_content ex row a) = a_TextError a.
Proof.
  unfold merged_content, admitted_attachment. destruct (ex !! _) as [e|]; [destruct (a_MediaPath a =? "")%string|];
    cbn; destruct (a_TextStatus a =? "")%string; destruct row; cbn; done.
Qed.

(** Preparing again, against the rows the first preparation led to. *)
Lemma prepare_again id s s1 a ex row r :
  at_rows (ms_attachments s1) !! a_AttachmentID a = Some r → a_MessageID (at_record r) = id →
  content_of (at_record r) = merged_content ex row (prepare_attachment id s a) →
  content_of (admitted_attachment ∅ (prepare_attachment id s1 a)) = content_of (admitted_attachment ∅ (prepare_attachment id s a)).
Proof.
  intros Hr Hm Hc. rewrite !admitted_text, !prepare_text.
  destruct (merged_text ex row (prepare_attachment id s a)) as (Ht & Hst & He). rewrite <- Hc in Ht, Hst, He. cbn in Ht, Hst, He.
  assert (Hdef : ∀ x, (if (x =? "")%string then "unknown"%string else x) ≠ ""%string) by (intros x; by destruct (String.eqb_spec x "")).
  unfold prepare_attachment at 1 2 3 4. rewrite Hr, Hm, String.eqb_refl. cbn [andb].
  destruct (a_TextStatus a =? "succeeded")%string eqn:E1; [|destruct (a_TextStatus a =? "empty")%string eqn:E2]; cbn [negb andb].
  - unfold prepare_attachment. rewrite E1. by destruct (at_rows (ms_attachments s) !! a_AttachmentID a); rewrite ?andb_false_r.
  - unfold prepare_attachment. rewrite E1, E2. by destruct (at_rows (ms_attachments s) !! a_AttachmentID a); rewrite ?andb_false_r.
  - assert (Htext : (if negb (a_TextContent (at_record r) =? "")%string then a_TextContent (at_record r) else a_TextContent a)
                    = a_TextContent (prepare_attachment id s a)).
    { rewrite Ht. destruct (String.eqb_spec (a_TextContent (prepare_attachment id s a)) "") as [Hempty|]; cbn [negb]; [|done].
      rewrite Hempty. revert Hempty. unfold prepare_attachment. 
      destruct (at_rows (ms_attachments s) !! a_AttachmentID a) as [r0|]; [|done]. destruct (_ && _ && _); [|done].
      destruct (String.eqb_spec (a_TextContent (at_record r0)) ""); cbn [negb]; destruct (a_TextAttemptedAt _ =? "")%string; cbn; done. }
    destruct (negb (a_TextContent (at_record r) =? "")%string); cbn [a_TextAttemptedAt]; destruct (a_TextAttemptedAt a =? "")%string eqn:Ea; cbn [a_TextContent a_TextStatus a_TextError];
      rewrite ?Htext, ?Hst, ?He; (f_equal; [try done|..]).
    all: try (destruct (String.eqb_spec (if (a_TextStatus (prepare_attachment id s a) =? "")%string then "unknown"%string else a_TextStatus (prepare_attachment id s a)) ""); [by apply Hdef in e|done]).
    all: unfold prepare_attachment; destruct (at_rows (ms_attachments s) !! a_AttachmentID a); [|done]; destruct (_ && _ && _); [|done];
         destruct (negb _); cbn [a_TextAttemptedAt]; rewrite Ea; done.
Qed.

Lemma upsert_relations now m o s b s' :
  upsertMessage now m o s = inl (b, s') → at_rows (ms_attachments s') = at_rows (ms_attachments s) ∧ ms_mentions s' = ms_mentions s.
Proof.
  assert (Hrel : ∀ x y, relations y = relations x → at_rows (ms_attachments y) = at_rows (ms_attachments x) ∧ ms_mentions y = ms_mentions x)
    by (intros x y; unfold relations; by intros [= -> ->]).
  unfold upsertMessage. cbv zeta. destruct (ms_rows s !! r_ID m) as [st|].
  - destruct (negb _).
    + destruct (refreshUnchanged _ _ _ _ _) eqn:E; [|done]. intros [= _ <-]. apply Hrel. by eapply rel_refresh.
    + repeat case_match; try done; intros [= _ <-]; match goal with |- context [write_message ?n ?x ?o ?t ?y] => destruct (Hrel _ _ (rel_write n x o t y)) as [-> ->] end; done.
  - repeat case_match; try done; intros [= _ <-]; apply Hrel, rel_write.
Qed.

Lemma upsert_unchanged now m o s b s' st :
  upsertMessage now m o s = inl (b, s') → ms_rows s !! r_ID m = Some st → messageContentChanged st (canonical_record m (Some st)) = false →
  b = false ∧ ms_rows s' = ms_rows s.
Proof.
  intros Hu Hst Hc. unfold upsertMessage in Hu. cbv zeta in Hu. rewrite Hst in Hu. fold (canonical_record m (Some st)) in Hu.
  rewrite Hc in Hu. cbn [negb] in Hu. destruct (refreshUnchanged _ _ _ _ _) eqn:E; [|done]. injection Hu as <- <-.
  split; [done|]. by eapply rows_refresh.
Qed.

(** After a message was written or found unchanged, it is unchanged. *)
Lemma upsert_settles now m o s b s' :
  regular_payload (r_RawJSON m) → upsertMessage now m o s = inl (b, s') →
  ∃ row, ms_rows s' !! r_ID m = Some row ∧ messageContentChanged row (canonical_record m (Some row)) = false.
Proof.
  intros Hreg [(_ & Hr & st & Hst & Hc)|(_ & Hr)]%rows_upsert; rewrite Hr; [eauto|].
  rewrite lookup_insert_eq. eexists. split; [done|]. by apply written_again.
Qed.

Lemma observed_last later m s u key : lastObserved "messages" u key (ms_receipts (observed later m s)) = lastObserved "messages" u key (ms_receipts s).
Proof.
  unfold lastObserved, observed, ms_receipts, recordEvidence, checkObserved. cbn.
  destruct (ObservationStartedAt (mm_Options m)); cbn; [|done]. by rewrite lookup_insert_ne by (by intros [=]).
Qed.

Lemma keep_cong r t s s' :
  ms_rows s' = ms_rows s → (∀ u key, lastObserved "messages" u key (ms_receipts s') = lastObserved "messages" u key (ms_receipts s)) →
  keepStoredMessage r t s' = keepStoredMessage r t s.
Proof. intros Hr Hl. unfold keepStoredMessage. rewrite Hr. destruct (ms_rows s !! r_ID r); [|done]. by rewrite Hl. Qed.

Lemma event_frame now m s :
  relations (appendMutationEvent now m s) = relations s ∧ ms_rows (appendMutationEvent now m s) = ms_rows s.
Proof. unfold appendMutationEvent. by repeat case_match. Qed.

(** The tables a replay must not write. *)
Definition content_tables (s : mstate) := (ms_rows s, at_rows (ms_attachments s), ms_mentions s).

Lemma prepare_cong m s s' : at_rows (ms_attachments s') = at_rows (ms_attachments s) → prepareTextMutation m s' = prepareTextMutation m s.
Proof.
  intros Hr. unfold prepareTextMutation.
  assert (prepare_attachment (r_ID (mm_Record m)) s' <$> mm_Attachments m = prepare_attachment (r_ID (mm_Record m)) s <$> mm_Attachments m) as ->; [|done].
  apply list_fmap_ext. intros i a _. unfold prepare_attachment. by rewrite Hr.
Qed.

(** Attachments of a mutation, as the tables require them. *)
Definition mutation_ok (m : MessageMutation) : Prop :=
  NoDup (a_AttachmentID <$> mm_Attachments m) ∧ Forall (λ a, a_MessageID a = r_ID (mm_Record m)) (mm_Attachments m).
Definition tables_ok (s : mstate) : Prop := keyed (ms_attachments s) ∧ ids_fresh (ms_mentions s).

Lemma prepare_cases m s m' :
  prepareTextMutation m s = inl m' →
  (negb (r_TextVersion (mm_Record m) =? messagetext_Version) = true ∧ m' = m)
  ∨ (negb (r_TextVersion (mm_Record m) =? messagetext_Version) = false
     ∧ mm_Attachments m' = prepare_attachment (r_ID (mm_Record m)) s <$> mm_Attachments m
     ∧ ∃ n p, project_text (r_RawJSON (mm_Record m)) ((λ a, (a_AttachmentID a, a_Filename a, a_TextContent a)) <$> mm_Attachments m') = Some (n, p)
         ∧ mm_Record m' = set_text n p (mm_Record m)).
Proof.
  unfold prepareTextMutation. destruct (negb _); [intros [= <-]; auto|]. cbv zeta.
  destruct (project_text _ _) as [[n p]|] eqn:E; [|done]. intros [= <-]. right. cbn. eauto 10.
Qed.

Lemma mutation_ok_prepared m s m' : prepareTextMutation m s = inl m' → mutation_ok m → mutation_ok m'.
Proof.
  intros Hp [Hn Hm]. pose proof (prepared_id _ _ (prepare_record _ _ _ Hp)) as Hid.
  destruct (prepare_cases _ _ _ Hp) as [[_ ->]|(_ & Ha & _)]; [done|]. unfold mutation_ok. rewrite Ha, Hid. split.
  - rewrite <- list_fmap_compose. erewrite list_fmap_ext; [exact Hn|]. intros i a _. apply prepare_attachment_ids.
  - rewrite Forall_fmap. eapply Forall_impl; [exact Hm|]. intros a Ha'. cbn. by destruct (prepare_attachment_ids (r_ID (mm_Record m)) s a) as [_ ->].
Qed.

(** What the first preparation and reconciliation leave for the second. *)
Lemma prepare_replay m s m1 s2 m2 :
  prepareTextMutation m s = inl m1 → prepareTextMutation m s2 = inl m2 →
  (∀ a, a ∈ mm_Attachments m1 → ∃ r ex row, at_rows (ms_attachments s2) !! a_AttachmentID a = Some r ∧ a_MessageID (at_record r) = r_ID (mm_Record m)
     ∧ content_of (at_record r) = merged_content ex row a) →
  mm_Record m2 = mm_Record m1
  ∧ a_AttachmentID <$> mm_Attachments m2 = a_AttachmentID <$> mm_Attachments m1
  ∧ ∀ a2, a2 ∈ mm_Attachments m2 → ∃ a1, a1 ∈ mm_Attachments m1 ∧ content_of (admitted_attachment ∅ a2) = content_of (admitted_attachment ∅ a1).
Proof.
  intros H1 H2 Hres. destruct (prepare_cases _ _ _ H1) as [[Hv ->]|(Hv & Ha1 & n1 & p1 & Ht1 & Hr1)].
  { destruct (prepare_cases _ _ _ H2) as [[_ ->]|(Hv' & _)]; [eauto|congruence]. }
  destruct (prepare_cases _ _ _ H2) as [[Hv' _]|(_ & Ha2 & n2 & p2 & Ht2 & Hr2)]; [congruence|].
  set (id := r_ID (mm_Record m)) in *.
  assert (Hpair : ∀ a, a ∈ mm_Attachments m → content_of (admitted_attachment ∅ (prepare_attachment id s2 a)) = content_of (admitted_attachment ∅ (prepare_attachment id s a))).
  { intros a Ha. destruct (Hres (prepare_attachment id s a)) as (r & ex & row & Hr & Hm & Hc); [rewrite Ha1; by apply list_elem_of_fmap_2|].
    rewrite (proj1 (prepare_attachment_ids id s a)) in Hr. by eapply prepare_again. }
  assert (Htext : ∀ a, a ∈ mm_Attachments m → (a_AttachmentID (prepare_attachment id s2 a), a_Filename (prepare_attachment id s2 a), a_TextContent (prepare_attachment id s2 a))
                     = (a_AttachmentID (prepare_attachment id s a), a_Filename (prepare_attachment id s a), a_TextContent (prepare_attachment id s a))).
  { intros a Ha. specialize (Hpair a Ha). rewrite !admitted_text in Hpair. injection Hpair. intros. congruence. }
  assert (Hfm : ∀ (B : Type) (f : AttachmentRecord → B), (∀ a, a ∈ mm_Attachments m → f (prepare_attachment id s2 a) = f (prepare_attachment id s a)) →
                f <$> mm_Attachments m2 = f <$> mm_Attachments m1).
  { intros B f Hf. rewrite Ha1, Ha2, <- !list_fmap_compose. apply list_fmap_ext. intros i a Hi. apply Hf. by eapply list_elem_of_lookup_2. }
  split_and!.
  - assert (Hsame : (λ a, (a_AttachmentID a, a_Filename a, a_TextContent a)) <$> mm_Attachments m2 = (λ a, (a_AttachmentID a, a_Filename a, a_TextContent a)) <$> mm_Attachments m1)
      by (apply Hfm; done).
    rewrite Hsame, Ht1 in Ht2. injection Ht2 as <- <-. congruence.
  - apply Hfm. intros a Ha. destruct (prepare_attachment_ids id s2 a) as [-> _]. by destruct (prepare_attachment_ids id s a) as [-> _].
  - intros a2 Hin. rewrite Ha2 in Hin. apply list_elem_of_fmap in Hin as (a & -> & Ha). exists (prepare_attachment id s a).
    split; [rewrite Ha1; by apply list_elem_of_fmap_2|auto].
Qed.

Lemma relations_tables now m b s :
  ms_attachments (snd (write_relations now m b s)) = snd (applyAttachments now (r_ID (mm_Record m)) (mm_Attachments m) (ms_attachments s))
  ∧ ms_mentions (snd (write_relations now m b s)) = snd (applyMentionEvents now (r_ID (mm_Record m)) (mm_Mentions m) (ms_mentions s)).
Proof.
  unfold write_relations. destruct (applyAttachments _ _ _ _) as [ac a]. cbn [ms_mentions with_attachments].
  destruct (applyMentionEvents _ _ _ _) as [mc me]. by destruct (_ && (_ || _)).
Qed.

Lemma relations_settled now m s :
  fst (applyAttachments now (r_ID (mm_Record m)) (mm_Attachments m) (ms_attachments s)) = false →
  fst (applyMentionEvents now (r_ID (mm_Record m)) (mm_Mentions m) (ms_mentions s)) = false →
  ms_rows (snd (write_relations now m false s)) = ms_rows s.
Proof.
  unfold write_relations. destruct (applyAttachments _ _ _ _) as [ac a]. cbn [ms_mentions with_attachments].
  destruct (applyMentionEvents _ _ _ _) as [mc me]. cbn. by intros -> ->.
Qed.

Lemma replay_writes_nothing now later cs m s s1 s2 :
  tables_ok s → mutation_ok m → regular_payload (r_RawJSON (mm_Record m)) →
  write_mutation now cs m s = inl s1 → write_mutation later cs m s1 = inl s2 →
  content_tables s2 = content_tables s1.
Proof.
  intros [Hkeyed Hfresh] Hok Hreg H1 H2.
  apply mutation_cases in H1 as (_ & m1 & Hp1 & Hpr1 & Hc1). apply mutation_cases in H2 as (_ & m2 & Hp2 & Hpr2 & Hc2).
  assert (Hobs : ∀ t x, content_tables (observed t m x) = content_tables x) by done.
  assert (Hevt : ∀ t mm x, content_tables (appendMutationEvent t mm x) = content_tables x).
  { intros t mm x. unfold content_tables. destruct (event_frame t mm x) as [Hr ->]. injection Hr as -> ->. done. }
  destruct Hc1 as [[Hk1 ->]|(Hk1 & b & x1 & Hu1 & ->)].
  - rewrite (prepare_cong _ (observed now m s)) in Hp2.
    2: { pose proof (Hevt now m1 (observed now m s)) as Ht. rewrite Hobs in Ht. by injection Ht. }
    rewrite Hp1 in Hp2. injection Hp2 as <-.
    rewrite (keep_cong _ _ (observed now m s)) in Hc2.
    + rewrite Hk1 in Hc2. destruct Hc2 as [[_ ->]|[? _]]; [|done]. by rewrite Hevt, Hobs.
    + pose proof (Hevt now m1 (observed now m s)) as Ht. by injection Ht.
    + intros u key. rewrite observed_last. destruct (event_frame now m1 (observed now m s)) as [Hr _]. by rewrite (receipts_rel _ _ Hr).
  - set (y1 := snd (write_relations now m1 b x1)) in *.
    set (s1 := appendMutationEvent now m1 (on_receipts (recordObserved now "messages" (fst (write_relations now m1 b x1)) [r_ID (mm_Record m1)]) y1)) in *.
    assert (Hs1 : content_tables s1 = content_tables y1) by (unfold s1; by rewrite Hevt).
    destruct (upsert_relations _ _ _ _ _ _ Hu1) as [Hat1 Hme1]. cbn in Hat1, Hme1.
    pose proof (prepared_id _ _ Hpr1) as Hid1. pose proof (prepared_id _ _ Hpr2) as Hid2.
    destruct (mutation_ok_prepared _ _ _ Hp1 Hok) as [Hn1 Hm1].
    destruct (relations_tables now m1 b x1) as [Hya Hym]. fold y1 in Hya, Hym.
    destruct (applyAttachments_result now (r_ID (mm_Record m1)) (mm_Attachments m1) (ms_attachments x1)) as (Hk & Hown & Hin); [|done|done|].
    { unfold keyed. by rewrite Hat1. }
    rewrite <- Hya in Hk, Hown, Hin.
    assert (Hrows1 : at_rows (ms_attachments s1) = at_rows (ms_attachments y1) ∧ ms_mentions s1 = ms_mentions y1 ∧ ms_rows s1 = ms_rows y1)
      by (by injection Hs1).
    destruct Hrows1 as (Ha1 & Hme & Hro). clearbody s1.
    destruct (prepare_replay _ _ _ _ _ Hp1 Hp2) as (Hrec & Hids & Hatts).
    { intros a Ha. destruct (Hin a Ha) as (r & Hr & Hm & Hc). exists r. eexists _, _. cbn. rewrite Ha1, <- Hid1. split_and!; [done|done|exact Hc]. }
    destruct Hc2 as [[_ ->]|(_ & b2 & x2 & Hu2 & ->)]; [by rewrite Hevt, Hobs|]. rewrite Hevt. rewrite Hrec in *.
    assert (regular_payload (r_RawJSON (mm_Record m1))) as Hreg1.
    { destruct (prepare_cases _ _ _ Hp1) as [[_ ->]|(_ & _ & n & p & _ & ->)]; exact Hreg. }
    destruct (upsert_settles _ _ _ _ _ _ Hreg1 Hu1) as (row & Hrow & Hunch).
    assert (∃ row', ms_rows s1 !! r_ID (mm_Record m1) = Some row' ∧ messageContentChanged row' (canonical_record (mm_Record m1) (Some row')) = false) as (row' & Hrow' & Hunch').
    { rewrite Hro. unfold y1. destruct (rows_relations now m1 b x1) as [->| ->]; [eauto|]. rewrite lookup_alter_eq, Hrow.
      exists (touch now row). split; [done|exact Hunch]. }
    destruct (upsert_unchanged _ _ _ _ _ _ _ Hu2 Hrow' Hunch') as [-> Hr2]. destruct (upsert_relations _ _ _ _ _ _ Hu2) as [Hat2 Hme2].
    cbn in Hat2, Hme2, Hr2.
    destruct (applyAttachments_settled later (r_ID (mm_Record m2)) (mm_Attachments m2) (ms_attachments x2)) as [Hfa Hra].
    { unfold keyed. rewrite Hat2, Ha1. exact Hk. }
    { intros i r Hi Hm. rewrite Hat2, Ha1 in Hi. rewrite Hids. apply (Hown _ _ Hi). by rewrite Hm, Hrec. }
    { intros a2 Ha2. destruct (Hatts _ Ha2) as (a1 & Hin1 & Hcc). destruct (Hin a1 Hin1) as (r & Hr & Hm & Hc).
      assert (Hid : a_AttachmentID a2 = a_AttachmentID a1) by (apply (f_equal a_AttachmentID) in Hcc; cbn in Hcc; by rewrite !admitted_id in Hcc).
      exists r. rewrite Hid, Hat2, Ha1. split; [done|]. rewrite (merge_incoming_cong _ _ _ (admitted_cong _ _ _ Hcc)).
      eapply merge_again; [exact Hc|]. apply existing_lookup. exists r. rewrite Hat2, Ha1, Hm, Hrec. done. }
    assert (Hments : applyMentionEvents later (r_ID (mm_Record m2)) (mm_Mentions m2) (ms_mentions x2) = (false, ms_mentions x2)).
    { rewrite Hme2, Hme, Hym, Hme1, Hrec. destruct Hpr1 as (_ & _ & _ & -> & _). destruct Hpr2 as (_ & _ & _ & -> & _).
      by eapply applyMentionEvents_settled, applyMentionEvents_spec. }
    destruct (relations_tables later m2 false x2) as [Hta Htm].
    assert (Hgoal : content_tables (snd (write_relations later m2 false x2)) = content_tables s1); [|exact Hgoal].
    unfold content_tables. rewrite Hta, Htm, Hra, Hments, (relations_settled later m2 x2 Hfa) by (by rewrite Hments). cbn [snd]. by rewrite Hat2, Hme2, Hr2.
Qed.

Lemma fold_deleted {A} (ls : list string) (rowID : Z) (t : gmap (string * Z) A) l :
  l ∈ ls → fold_left (λ t l, delete (l, rowID) t) ls t !! (l, rowID) = None.
Proof.
  assert (Hkeep : ∀ (ls : list string) (t : gmap (string * Z) A), t !! (l, rowID) = None → fold_left (λ t l, delete (l, rowID) t) ls t !! (l, rowID) = None).
  { clear. intros ls. induction ls as [|x ls IH]; intros t Ht; [done|]. cbn. apply IH. destruct (decide (x = l)) as [->|Hne]; [apply lookup_delete_eq|].
    rewrite lookup_delete_ne; [done|]. by intros [= ->]. }
  revert t. induction ls as [|x ls IH]; intros t Hl; [by apply elem_of_nil in Hl|]. cbn.
  apply elem_of_cons in Hl as [->|Hl]; [apply Hkeep, lookup_delete_eq|by apply IH].
Qed.
End facts.

(** ** Properties *)

(** C30: a tombstone is permanent: whatever sequence of bulk writes, single
    writes and deletions follows, with any options, a message that is marked
    deleted stays stored and stays marked deleted. *)
Theorem tombstones_are_permanent `{TimeParse} `{RawPayloads} `{Lexical} (s s' : mstate) (id : string)
    (Hsteps : rtc message_step s s') (Hdeleted : tombstoned s id) :
  tombstoned s' id.
Proof. induction Hsteps; eauto using step_tombstone. Qed.

(** a bulk write whose mutations all preserve newer state never regresses a
    row: every stored message is still stored, a tombstoned row is exactly as
    it was, and a row's edit time never goes back. *)
Theorem PreserveNewer_protects_rows `{TimeParse} `{!TimeParseLaws} `{RawPayloads} `{Lexical}
    (now : Z) (cs : channels) (ms : list MessageMutation) (s : mstate) (id : string)
    (Hpreserve : Forall (λ m, PreserveNewer (mm_Options m) = true) ms) :
  guarded s (snd (upsertMessages now cs ms s)) id.
Proof. by apply batch_guards. Qed.

(** C3: the newest edit wins in any order: in a bulk write under
    [PreserveNewer] without deletions, if one version of a message has a later
    edit time than every other version in the batch and than the stored row,
    the row ends with that version's columns, wherever in the batch it stands. *)
Theorem newest_edit_wins `{TimeParse} `{!TimeParseLaws} `{RawPayloads} `{Lexical}
    (now : Z) (cs : channels) (ms : list MessageMutation) (s s' : mstate) (newest : MessageMutation)
    (Hdone : upsertMessages now cs ms s = (None, s')) (Hin : newest ∈ ms)
    (Hbatch : ∀ m, m ∈ ms → PreserveNewer (mm_Options m) = true ∧
       (r_ID (mm_Record m) = r_ID (mm_Record newest) → normalizeStoredTime (r_DeletedAt (mm_Record m)) = ""%string) ∧
       (r_ID (mm_Record m) = r_ID (mm_Record newest) → m = newest ∨ String.ltb (edit_of (mm_Record m)) (edit_of (mm_Record newest)) = true))
    (Hstored : older_or_absent s (r_ID (mm_Record newest)) (edit_of (mm_Record newest))) :
  ∃ row, ms_rows s' !! r_ID (mm_Record newest) = Some row ∧ s_deleted row = ""%string ∧ carries (mm_Record newest) row.
Proof.
  unfold upsertMessages in Hdone. destruct (write_mutations now cs ms s) eqn:E; [|done]. injection Hdone as ->.
  by eapply newest_in_batch.
Qed.

(** C23: the search index and the embedding queue follow the rows: if every live
    message has its search row (its own text, under its own row id), every
    search row belongs to a live message, and only live messages have an
    embedding job, then all of this still holds after a bulk write under
    [PreserveNewer] and after any deletion, on success and on error. *)
Theorem search_index_follows_rows `{TimeParse} `{!TimeParseLaws} `{RawPayloads} `{Lexical} (s : mstate) (Hindex : index_ok s) :
  (∀ now cs ms, Forall (λ m, PreserveNewer (mm_Options m) = true ∧ record_ok (mm_Record m)) ms → index_ok (snd (upsertMessages now cs ms s)))
  ∧ ∀ now guild chan id event verify, int64_snowflake id = true → index_ok (snd (markMessageDeleted now guild chan id event verify s)).
Proof.
  split.
  - intros now cs ms. rewrite Forall_forall. intros Hall. apply (batch_ind index_ok); [|done].
    intros m s1 s2 Hm Hw. destruct (Hall m Hm). by eapply mutation_index.
  - intros. by apply deleted_index.
Qed.

(** no vector is lost: along any sequence of writes and deletions, each
    embedding of a stored message is still current or kept in the embedding
    history under its own key, and the history forgets nothing. *)
Theorem vectors_are_never_lost `{TimeParse} `{RawPayloads} `{Lexical} (s s' : mstate)
    (Hsteps : rtc message_step s s') (Howned : owned s) :
  owned s' ∧ retained s s'.
Proof.
  assert (vec_step s s') as Hv; [|by destruct (Hv Howned) as (? & ? & _)].
  induction Hsteps as [x|x y z Hxy _ IH]; [by apply vec_frame|]. eapply vec_trans; [by apply vec_message_step|by apply IH; destruct (vec_message_step _ _ Hxy Howned)].
Qed.

(** no observation is lost: when a bulk write succeeds, each of its
    mutations was in scope and is among the receipts exactly as it was handed
    in, even when the stored row was kept, and earlier receipts are untouched. *)
Theorem every_observation_is_recorded `{TimeParse} `{RawPayloads} `{Lexical}
    (now : Z) (cs : channels) (ms : list MessageMutation) (s s' : mstate)
    (Hdone : upsertMessages now cs ms s = (None, s')) :
  grows (ms_receipts s) (ms_receipts s')
  ∧ ∀ m, m ∈ ms → evidence_of now m ∈ rc_observations (ms_receipts s')
      ∧ requireMessageScope cs (r_ChannelID (mm_Record m)) (r_GuildID (mm_Record m)) (ScopePolicy (mm_Options m)) = None.
Proof.
  unfold upsertMessages in Hdone. destruct (write_mutations now cs ms s) eqn:E; [|done]. injection Hdone as ->.
  by eapply batch_evidence.
Qed.

(** C24: a replay writes no content: writing a mutation a second time, at any
    later time and with any options it carries, leaves every message row
    (its time of last change included), every attachment row and every mention
    with its history exactly as the first write left them. *)
Theorem replay_writes_no_content `{TimeParse} `{!TimeParseLaws} `{RawPayloads} `{!RawPayloadsLaws} `{Lexical}
    (now later : Z) (cs : channels) (m : MessageMutation) (s s1 s2 : mstate)
    (Htables : tables_ok s) (Hmutation : mutation_ok m) (Hpayload : regular_payload (r_RawJSON (mm_Record m)))
    (Hfirst : write_mutation now cs m s = inl s1) (Hsecond : write_mutation later cs m s1 = inl s2) :
  content_tables s2 = content_tables s1.
Proof. by eapply replay_writes_nothing. Qed.

(** deletion during recovery acts only on a message it finds in the scope it
    was asked for: otherwise it fails and changes nothing. When it acts, the
    message is tombstoned with its text kept, an earlier deletion time is
    preserved, and its search rows, embedding job and current vectors are gone;
    no other message's row is touched and no event is appended. *)
Theorem recovery_deletes_in_scope `{TimeParse} `{RawPayloads} `{Lexical} (now : Z) (guild chan id : string) (s : mstate) :
  let '(e, s') := markMessageDeleted now guild chan id None true s in
  match ms_rows s !! id with
  | Some r =>
      if (s_guild r =? guild)%string && (s_channel r =? chan)%string then
        e = None
        ∧ (∃ r', ms_rows s' !! id = Some r' ∧ s_deleted r' = (if (s_deleted r =? "")%string then timeLayout now else s_deleted r)
                 ∧ s_content r' = s_content r ∧ s_normalized r' = s_normalized r)
        ∧ (∀ i, i ≠ id → ms_rows s' !! i = ms_rows s !! i)
        ∧ (∀ rowID, MessageFTSRowID id = Some rowID → ms_fts s' !! rowID = None ∧ ∀ l, l ∈ lexicalLanguages → ms_lexical s' !! (l, rowID) = None)
        ∧ ms_jobs s' !! id = None ∧ ms_embeddings s' !! id = None ∧ ms_events s' = ms_events s
      else e ≠ None ∧ s' = s
  | None => e ≠ None ∧ s' = s
  end.
Proof.
  unfold markMessageDeleted, recovery_refusal. destruct (ms_rows s !! id) as [r|] eqn:Er; [|done].
  destruct (String.eqb_spec (s_guild r) guild) as [Hg|Hg]; cbn [negb andb]; [|done].
  destruct (String.eqb_spec (s_channel r) chan) as [Hc|Hc]; cbn [negb]; [|done].
  set (s1 := if negb (s_deleted r =? "")%string then s else _). cbv zeta.
  assert (Hs1 : (∃ r', ms_rows s1 !! id = Some r' ∧ s_deleted r' = (if (s_deleted r =? "")%string then timeLayout now else s_deleted r)
                 ∧ s_content r' = s_content r ∧ s_normalized r' = s_normalized r) ∧ (∀ i, i ≠ id → ms_rows s1 !! i = ms_rows s !! i) ∧ ms_events s1 = ms_events s).
  { unfold s1. destruct (s_deleted r =? "")%string; cbn [negb]; [|eauto 10]. cbn. split_and!; [|by intros i Hi; rewrite lookup_alter_ne|done].
    exists (set_deleted now r). by rewrite lookup_alter_eq, Er. }
  clearbody s1. destruct Hs1 as (Hrow & Hoth & Hev). split; [done|]. cbn [ms_rows with_jobs deleteMessageEmbeddings with_embeddings].
  rewrite !rows_archive. match goal with |- context [archiveMessageEmbeddings now id ?t ?x] => set (text := t); set (s2 := x) end.
  assert (Hs2 : ms_rows s2 = ms_rows s1 ∧ ms_events s2 = ms_events s1) by (unfold s2; by destruct (MessageFTSRowID id)).
  destruct Hs2 as [Hr2 He2]. rewrite Hr2. split_and!; [done|done| |cbn; by rewrite lookup_delete_eq|cbn; by rewrite lookup_delete_eq|].
  - intros rowID Hid. assert (Hx : ms_fts (archiveMessageEmbeddings now id text s2) = ms_fts s2 ∧ ms_lexical (archiveMessageEmbeddings now id text s2) = ms_lexical s2)
      by (unfold archiveMessageEmbeddings; by destruct (ms_rows s2 !! id)).
    cbn. destruct Hx as [-> ->]. unfold s2. rewrite Hid. cbn. split; [by rewrite lookup_delete_eq|]. intros l Hl.
    by apply fold_deleted.
  - unfold archiveMessageEmbeddings. destruct (ms_rows s2 !! id); cbn; congruence.
Qed.

(** ** Witnesses *)

Section witnesses.
#[local] Existing Instance parse_written.
#[local] Existing Instance parse_written_laws.
(** Payloads that merge to themselves, whose text is the payload. *)
#[local] Instance plain_payloads : RawPayloads :=
  { canonicalizeMessage i _ := i; sameCanonicalMessage := String.eqb; sameMessageTextShape := String.eqb;
    project_text raw _ := Some (raw, "[]"%string) }.
#[local] Instance plain_payloads_laws : RawPayloadsLaws.
Proof. exists (λ _, True). intros i s _. apply String.eqb_refl. Defined.
#[local] Instance no_languages : Lexical := { lexicalLanguages := []; Tokenize _ t := inl t }.

Definition example_version (edited content : string) : MessageMutation :=
  mkMessageMutation
    (mkMessageRecord "10" "9" "7" "general" "3" "ann" 0 (timeLayout 1) edited "" content content "" false false content "[]" 2)
    "message" content (mkWriteOptions (Some 5) "" true true false true true) [] [incoming_mention "1" "bob"].
Definition first_version : MessageMutation := example_version "" "hello".
Definition edited_version : MessageMutation := example_version (timeLayout 8) "edited".

Definition one_message : mstate := snd (upsertMessages 3 ∅ [first_version] empty_mstate).
Definition deleted_message : mstate := snd (markMessageDeleted 20 "9" "7" "10" None true one_message).
Definition example_vector : embedding := mkEmbedding "local" "m" "v1" 1 "[0.5]" (timeLayout 4).
Definition embedded_message : mstate := with_embeddings {["10"%string := [example_vector]]} ∅ one_message.

Lemma tombstones_are_permanent_witness :
  tombstoned (snd (upsertMessageWithOptions 30 (mm_Record edited_version) no_options deleted_message)) "10".
Proof.
  apply (tombstones_are_permanent deleted_message); [apply rtc_once, StepSingle|].
  unfold tombstoned. eexists. split; [vm_compute; reflexivity|discriminate].
Defined.

Lemma PreserveNewer_protects_rows_witness :
  guarded deleted_message (snd (upsertMessages 30 ∅ [edited_version] deleted_message)) "10".
Proof. apply (PreserveNewer_protects_rows 30 ∅ [edited_version] deleted_message "10"). by repeat constructor. Defined.

Lemma newest_edit_wins_witness :
  let s' := snd (upsertMessages 30 ∅ [edited_version; first_version] one_message) in
  ∃ row, ms_rows s' !! "10"%string = Some row ∧ s_deleted row = ""%string ∧ carries (mm_Record edited_version) row.
Proof.
  apply (newest_edit_wins 30 ∅ [edited_version; first_version] one_message _ edited_version).
  - vm_compute. reflexivity.
  - by left.
  - intros m [->|[->|?%elem_of_nil]%elem_of_cons]%elem_of_cons; [| |done]; (split_and!; [done|by vm_compute|]).
    + by left.
    + right. vm_compute. reflexivity.
  - intros row Hr. assert (ms_rows one_message !! "10"%string = Some row) as Hx by exact Hr. vm_compute in Hx. injection Hx as <-.
    split; [done|vm_compute; reflexivity].
Defined.

Lemma one_message_indexed : index_ok one_message.
Proof.
  apply (mutation_index 3 ∅ first_version empty_mstate); [vm_compute; reflexivity|done|split; [done|by left]|].
  split; cbn; try done; by intros ? [? ?].
Qed.

Lemma search_index_follows_rows_witness :
  index_ok deleted_message ∧ index_ok (snd (upsertMessages 30 ∅ [edited_version] one_message)).
Proof.
  destruct (search_index_follows_rows one_message one_message_indexed) as [Hbatch Hdelete]. split.
  - apply Hdelete. reflexivity.
  - apply Hbatch. repeat constructor.
Defined.

Lemma vectors_are_never_lost_witness :
  let s' := snd (upsertMessages 30 ∅ [edited_version] embedded_message) in
  vectors s' "10" = [] ∧ is_Some (ms_embedding_history s' !! embedding_key_of "10" example_vector).
Proof.
  split; [vm_compute; reflexivity|].
  destruct (vectors_are_never_lost embedded_message (snd (upsertMessages 30 ∅ [edited_version] embedded_message))) as [_ [_ Hkept]].
  - apply rtc_once, StepBatch.
  - intros id [x Hx]. change (({["10"%string := [example_vector]]} : gmap string (list embedding)) !! id = Some x) in Hx.
    apply lookup_singleton_Some in Hx as [<- _]. vm_compute. eauto.
  - destruct (Hkept "10"%string example_vector) as [Hin|H']; [vm_compute; left| |exact H'].
    vm_compute in Hin. inversion Hin.
Defined.

Lemma every_observation_is_recorded_witness :
  evidence_of 30 first_version ∈ rc_observations (ms_receipts (snd (upsertMessages 30 ∅ [first_version] deleted_message))).
Proof.
  destruct (every_observation_is_recorded 30 ∅ [first_version] deleted_message
              (snd (upsertMessages 30 ∅ [first_version] deleted_message))) as [_ Hall]; [vm_compute; reflexivity|].
  destruct (Hall first_version) as [H' _]; [by left|exact H'].
Defined.

Definition replayed_mutation : MessageMutation :=
  mkMessageMutation (mm_Record edited_version) "" "" no_options [] [incoming_mention "2" "cy"].
Definition written_with (now : Z) (s : mstate) : mstate :=
  match write_mutation now ∅ replayed_mutation s with inl s' => s' | inr _ => s end.

Lemma replay_writes_no_content_witness :
  (s_content <$> ms_rows (written_with 30 one_message) !! "10"%string) = Some "edited"%string
  ∧ content_tables (written_with 40 (written_with 30 one_message)) = content_tables (written_with 30 one_message).
Proof.
  split; [vm_compute; reflexivity|].
  apply (replay_writes_no_content 30 40 ∅ replayed_mutation one_message); [split|split; constructor|exact I|vm_compute; reflexivity|vm_compute; reflexivity].
  - intros id r Hr. change ((∅ : gmap string attachment_row) !! id = Some r) in Hr. by rewrite lookup_empty in Hr.
  - intros id r Hr. destruct (decide (id = 1)) as [->|Hne]; [vm_compute; reflexivity|].
    change ((<[1 := mkMention "10" "9" "7" "3" "user" "1" "bob" (timeLayout 3)]> (∅ : gmap Z mention_row)) !! id = Some r) in Hr.
    by rewrite lookup_insert_ne, lookup_empty in Hr by done.
Defined.

Lemma recovery_deletes_in_scope_witness :
  ms_fts deleted_message !! 10 = None ∧ fst (markMessageDeleted 20 "9" "8" "10" None true one_message) ≠ None.
Proof.
  split.
  - pose proof (recovery_deletes_in_scope 20 "9" "7" "10" one_message) as Hin. vm_compute in Hin.
    destruct Hin as (_ & _ & _ & Hfts & _). destruct (Hfts 10 eq_refl) as [Hgone _]. vm_compute. exact Hgone.
  - pose proof (recovery_deletes_in_scope 20 "9" "8" "10" one_message) as Hout. vm_compute in Hout. vm_compute. apply Hout.
Defined.
End witnesses.
