(* ===== verification/StoreRefinement.v ===== *)
(** * The writer behind the crawl

    The crawl is proved against the interface [MessageStore] of World; here the
    writer of internal/store/write.go implements it. What the collectors put
    into a record besides its identity (internal/syncer/enrichment.go and
    records.go) is the interface [MutationRecords]. *)
From S2P Require Import Prelude GoTime GoText Errors ChannelScope Rows Receipts Attachments Mentions MessageWrite MessageSafety Discord SyncState FailureLedger World Provider MessageSync ChannelSync Fixture CrawlSafety.
Local Open Scope Z_scope.

(** [buildMessageMutation]: the record of a provider message. *)
Class MutationRecords := record_of : mutation → MessageMutation.

Class MutationRecordsLaws `{MutationRecords} := {
  record_id mu : r_ID (mm_Record (record_of mu)) = m_ID (mu_message mu);
  record_channel mu : r_ChannelID (mm_Record (record_of mu)) = m_ChannelID (mu_message mu);
  record_guild mu : r_GuildID (mm_Record (record_of mu)) = mu_guild mu;
  record_policy mu : ScopePolicy (mm_Options (record_of mu)) = mu_policy mu
}.

Section store.
Context {tp : TimeParse} {rp : RawPayloads} {lx : Lexical} {mr : MutationRecords}.

#[export] Instance writer_store : MessageStore mstate := {
  message_channels s := s_channel <$> ms_rows s;
  World.UpsertMessages now cs ms s := upsertMessages now cs (record_of <$> ms) s
}.

(** The channels of the rows after one mutation. *)
Lemma mutation_channels now cs m s s' id c :
  write_mutation now cs m s = inl s' → s_channel <$> ms_rows s' !! id = Some c →
  s_channel <$> ms_rows s !! id = Some c ∨ id = r_ID (mm_Record m) ∧ c = r_ChannelID (mm_Record m).
Proof.
  intros (m' & Hp & Hc)%rows_mutation Hch. pose proof (prepared_id _ _ Hp) as Hid. rewrite Hid in Hc.
  assert (Hcm : r_ChannelID (mm_Record m') = r_ChannelID (mm_Record m)) by (by destruct Hp as (_ & _ & _ & _ & [->|(? & ? & ->)])).
  destruct Hc as [[_ Hr]|[_ [(st & _ & _ & [Hr|Hr])|Hr]]]; rewrite Hr in Hch; [by left|by left| |].
  - left. destruct (decide (id = r_ID (mm_Record m))) as [->|Hne]; [|by rewrite lookup_alter_ne in Hch].
    rewrite lookup_alter_eq in Hch. by destruct (ms_rows s !! r_ID (mm_Record m)).
  - destruct (decide (id = r_ID (mm_Record m))) as [->|Hne]; [|left; by rewrite lookup_insert_ne in Hch].
    right. split; [done|]. rewrite lookup_insert_eq in Hch. cbn in Hch. injection Hch as <-. rewrite <- Hcm.
    unfold written_row. by destruct (text_parts_of _ _).
Qed.

Lemma mutation_rows_kept now cs m s s' id : write_mutation now cs m s = inl s' → is_Some (ms_rows s !! id) → is_Some (ms_rows s' !! id).
Proof.
  intros (m' & _ & Hc)%rows_mutation Hs.
  destruct Hc as [[_ ->]|[_ [(st & _ & _ & [->| ->])|Hr]]]; [done|done|by apply lookup_alter_is_Some|]. rewrite Hr. by apply insert_keeps.
Qed.

Lemma mutations_channels now cs ms s s' :
  write_mutations now cs ms s = inl s' →
  (∀ m, m ∈ ms → is_Some (ms_rows s' !! r_ID (mm_Record m))
     ∧ requireMessageScope cs (r_ChannelID (mm_Record m)) (r_GuildID (mm_Record m)) (ScopePolicy (mm_Options m)) = None)
  ∧ (∀ id, is_Some (ms_rows s !! id) → is_Some (ms_rows s' !! id))
  ∧ ∀ id c, s_channel <$> ms_rows s' !! id = Some c →
      s_channel <$> ms_rows s !! id = Some c ∨ ∃ m, m ∈ ms ∧ r_ID (mm_Record m) = id ∧ r_ChannelID (mm_Record m) = c.
Proof.
  revert s. induction ms as [|m ms IH]; intros s; cbn [write_mutations].
  { intros [= ->]. split_and!; [by intros m ?%elem_of_nil|done|by left]. }
  destruct (write_mutation now cs m s) as [s1|] eqn:E; [|done]. intros Hw. destruct (IH _ Hw) as (Hin & Hkeep & Horig).
  destruct (mutation_evidence _ _ _ _ _ E) as (_ & _ & Hscope & Hrow). split_and!.
  - intros m' [->|Hm]%elem_of_cons; [|auto]. split; [by apply Hkeep|done].
  - intros id Hid. apply Hkeep. by eapply mutation_rows_kept.
  - intros id c Hc. destruct (Horig _ _ Hc) as [H1|(m' & ? & ? & ?)].
    + destruct (mutation_channels _ _ _ _ _ _ _ E H1) as [?|[-> ->]]; [by left|]. right. exists m. split_and!; [by left|done|done].
    + right. exists m'. split_and!; [by right|done|done].
Qed.
End store.

Lemma writer_laws `{TimeParse} `{RawPayloads} `{Lexical} `{MutationRecords} (Hrecords : MutationRecordsLaws) :
  MessageStoreLaws mstate (H := writer_store).
Proof.
  split; cbn; intros now cs ms s.
  - intros s' Hw mu Hmu. unfold upsertMessages in Hw. destruct (write_mutations _ _ _ _) as [x|x] eqn:E; [|done]. injection Hw as ->.
    destruct (mutations_channels _ _ _ _ _ E) as (Hin & _ & _). rewrite lookup_fmap, fmap_is_Some, <- record_id.
    apply Hin. by apply list_elem_of_fmap_2.
  - intros e s' id Hw. unfold upsertMessages in Hw. destruct (write_mutations _ _ _ _) as [x|x] eqn:E; injection Hw as <- <-; [|done].
    destruct (mutations_channels _ _ _ _ _ E) as (_ & Hkeep & _). rewrite !lookup_fmap, !fmap_is_Some. apply Hkeep.
  - intros e s' id c Hw. unfold upsertMessages in Hw. destruct (write_mutations _ _ _ _) as [x|x] eqn:E; injection Hw as <- <-; [|by left].
    destruct (mutations_channels _ _ _ _ _ E) as (_ & _ & Horig). rewrite !lookup_fmap. intros [?|(m & Hm & Hi & Hc)]%Horig; [by left|].
    apply list_elem_of_fmap in Hm as (mu & -> & Hmu). right. exists mu. by rewrite <- record_id, <- record_channel.
  - intros s' Hw mu Hmu. unfold upsertMessages in Hw. destruct (write_mutations _ _ _ _) as [x|x] eqn:E; [|done]. injection Hw as ->.
    destruct (mutations_channels _ _ _ _ _ E) as (Hin & _ & _). rewrite <- record_guild, <- record_policy, <- record_channel.
    apply Hin. by apply list_elem_of_fmap_2.
Qed.

(** C32: the message writer is a message store: with records that carry the
    identity, scope and policy of their messages, [UpsertMessages] of
    internal/store/write.go satisfies every law the crawl relies on: a
    successful batch stores all its messages, only messages in scope, no row
    ever disappears, and a row's channel is its old one or a batch's. *)
Theorem writer_implements_store `{TimeParse} `{RawPayloads} `{Lexical} `{MutationRecords} (Hrecords : MutationRecordsLaws) :
  MessageStoreLaws mstate (H := writer_store).
Proof. by apply writer_laws. Qed.

(** ** Witness *)

(** Records that carry a message's identity and payload. *)
Definition plain_records : MutationRecords := λ mu,
  mkMessageMutation
    (mkMessageRecord (m_ID (mu_message mu)) (mu_guild mu) (m_ChannelID (mu_message mu)) (mu_channel_name mu) "" "" 0
       (timeLayout (m_Timestamp (mu_message mu))) "" "" (m_payload (mu_message mu)) (m_payload (mu_message mu)) "" false false
       (m_payload (mu_message mu)) "[]" 2)
    "upsert" (m_payload (mu_message mu))
    (mkWriteOptions (Some (mu_observed_at mu)) (mu_policy mu) false (mu_embed mu) (mu_catch_up mu) (mu_preserve_newer mu) false) [] [].

Definition hello : mutation := mkMutation (mkMessage "10" "7" "9" 1 "hello") "9" "general" true false true 5 "".
Definition hello_written : mstate :=
  snd (upsertMessages (H := parse_written) (H0 := plain_payloads) (H1 := no_languages) 3 ∅ [plain_records hello] empty_mstate).

Lemma writer_implements_store_witness : is_Some (ms_rows hello_written !! "10"%string).
Proof.
  assert (Hlaws : @MutationRecordsLaws plain_records) by (by split).
  assert (Hwrite : @World.UpsertMessages mstate (writer_store (tp := parse_written) (rp := plain_payloads) (lx := no_languages) (mr := plain_records))
                     3 ∅ [hello] empty_mstate = (None, hello_written)) by (vm_compute; reflexivity).
  pose proof (@upsert_stored mstate _ (writer_implements_store (H := parse_written) (H0 := plain_payloads) (H1 := no_languages) (H2 := plain_records) Hlaws)
           _ _ _ _ _ Hwrite hello ltac:(by left)) as Hrow.
  cbn [message_channels writer_store] in Hrow. rewrite lookup_fmap in Hrow. by apply fmap_is_Some in Hrow.
Defined.
