(* ===== verification/Canonical.v ===== *)
(** * Canonical raw payloads

    internal/store/canonical.go: the one stored form of a provider payload,
    merged with what is stored so that a transport which omits a field does not
    erase it. A JSON object is a finite map; decoding and encoding text
    (encoding/json) are parameters. Comparing two interface values of the same
    non-comparable type, or using one as a map key, is a run-time panic in Go:
    the operations that can do so return [None] then. *)
From S2P Require Import Prelude Errors Snowflake GoTime GoText Rows Receipts Attachments Mentions MessageWrite.
Local Open Scope Z_scope.

Inductive json :=
  | JNull
  | JBool (b : bool)
  | JNum (text : string)   (** [json.Number] *)
  | JStr (s : string)
  | JArr (l : list json)
  | JObj (m : gmap string json).

Notation object := (gmap string json).

(** [in[key]]: a missing member reads as nil. *)
Definition member (o : object) (key : string) : json := default JNull (o !! key).

Definition as_object (v : json) : option object := match v with JObj m => Some m | _ => None end.

(** [dec.Decode] with [UseNumber], [None] on an error, a null or trailing data;
    [enc.Encode] without its newline, [None] on an error; [n.Float64()], whether
    the value is zero. *)
Class JSONText := {
  Decode : string → option object;
  Encode : object → option string;
  Float64 : string → option bool }.

(** What is printed reads back, as far as it consists of what can be read:
    strings of valid UTF-8, numbers of the JSON grammar. *)
Class JSONTextLaws `{JSONText} := {
  printable_key : string → Prop;
  printable : json → Prop;
  printable_object m : printable (JObj m) ↔ ∀ k v, m !! k = Some v → printable_key k ∧ printable v;
  printable_list l : printable (JArr l) ↔ Forall printable l;
  decoded_printable raw m : Decode raw = Some m → printable (JObj m);
  encoded m : printable (JObj m) → ∃ s z, let text := (String "{" s ++ String z "")%string in
                                     plain_byte z = true ∧ Encode m = Some text ∧ Decode text = Some m }.

Inductive entityKind := entityGuild | entityChannel | entityMember | entityMessage.

Definition guildCollectionKeys : list string := ["members"; "presences"; "voice_states"; "stage_instances"].
Definition guildCatalogKeys : list string := ["channels"; "threads"].
Definition guildMetricKeys : list string := ["member_count"; "approximate_member_count"; "approximate_presence_count"; "premium_subscription_count"].
Definition channelMetricKeys : list string := ["message_count"; "member_count"; "total_message_sent"].

(** [a == b] on interface values; [None] is the panic. *)
Definition interface_eq (a b : json) : option bool :=
  match a, b with
  | JNull, JNull => Some true
  | JBool x, JBool y => Some (Bool.eqb x y)
  | JNum x, JNum y => Some (x =? y)%string
  | JStr x, JStr y => Some (x =? y)%string
  | JArr _, JArr _ | JObj _, JObj _ => None
  | _, _ => Some false
  end.

Definition hashable (v : json) : bool := match v with JArr _ | JObj _ => false | _ => true end.

Section Canonical.
Context {jt : JSONText} {tp : TimeParse}.

Definition decodeRawObject (raw : string) : option object :=
  let raw := TrimSpace raw in
  match raw with
  | String "{" _ => Decode raw
  | _ => None
  end.

Definition encodeRawObject (o : object) : string := default "{}"%string (Encode o).

Definition isEmptyValue (v : json) : bool :=
  match v with
  | JNull => true
  | JArr l => (length l =? 0)%nat
  | JObj m => bool_decide (m = ∅)
  | _ => false
  end.

Definition isZeroValue (v : json) : bool :=
  match v with
  | JNull => true
  | JBool b => negb b
  | JStr s => (s =? "")%string || (s =? "0001-01-01T00:00:00Z")%string
  | JNum n => match Float64 n with Some zero => zero | None => false end
  | JObj m => bool_decide (m = ∅)
  | JArr _ => false
  end.

Definition isEmptyList (v : json) : bool := match v with JNull => true | JArr l => (length l =? 0)%nat | _ => false end.

(** The region placeholder of a REST guild. *)
Definition isPlaceholderRegion (v : json) : bool := isZeroValue v || match v with JStr s => (s =? "deprecated")%string | _ => false end.

Definition keepKnown (base : object) (key : string) (placeholder : json → bool) (o : object) : object :=
  if negb (placeholder (member o key)) then o
  else match base !! key with
       | Some prior => if negb (placeholder prior) then <[key := prior]> o else o
       | None => o
       end.

Definition mergeUserFlags (base : object) (key : string) (o : object) : option object :=
  match as_object (member o key), as_object (member base key) with
  | Some user, Some baseUser =>
      match interface_eq (member user "id") (member baseUser "id") with
      | None => None
      | Some false => Some o
      | Some true => Some (<[key := JObj (keepKnown baseUser "public_flags" isZeroValue (keepKnown baseUser "flags" isZeroValue user))]> o)
      end
  | _, _ => Some o
  end.

(** The objects of a list by their id, the last of an id winning. *)
Fixpoint index_by_id (l : list json) (acc : list (json * object)) : option (list (json * object)) :=
  match l with
  | [] => Some acc
  | v :: l =>
      match v with
      | JObj o => if hashable (member o "id") then index_by_id l ((member o "id", o) :: acc) else None
      | _ => index_by_id l acc
      end
  end.

(** Looking a key up in a map of interface keys: the newest entry first. *)
Definition lookup_id (byID : list (json * object)) (id : json) : option (option object) :=
  if negb (hashable id) then None
  else Some (snd <$> List.find (λ '(k, _), match interface_eq k id with Some b => b | None => false end) byID).

Definition merge_mention (byID : list (json * object)) (v : json) : option json :=
  match v with
  | JObj o =>
      match lookup_id byID (member o "id") with
      | None => None
      | Some None => Some v
      | Some (Some prior) =>
          Some (JObj (keepKnown prior "public_flags" isZeroValue (keepKnown prior "flags" isZeroValue (keepKnown prior "member" isZeroValue o))))
      end
  | _ => Some v
  end.

Definition as_list (v : json) : list json := match v with JArr l => l | _ => [] end.

Definition mergeMentionMembers (base : object) (o : object) : option object :=
  let mentions := as_list (member o "mentions") in
  let baseMentions := as_list (member base "mentions") in
  if (length mentions =? 0)%nat || (length baseMentions =? 0)%nat then Some o
  else match index_by_id baseMentions [] with
       | None => None
       | Some byID => match mapM (merge_mention byID) mentions with
                      | None => None
                      | Some l => Some (<["mentions"%string := JArr l]> o)
                      end
       end.

Definition known_id (v : json) : bool := match v with JNull => false | _ => true end.

Definition sameEntityIdentity (kind : entityKind) (a b : object) : option bool :=
  match kind with
  | entityMember =>
      match as_object (member a "user"), as_object (member b "user") with
      | Some ua, Some ub => if known_id (member ua "id") then interface_eq (member ua "id") (member ub "id") else Some false
      | _, _ => Some false
      end
  | _ => if known_id (member a "id") then interface_eq (member a "id") (member b "id") else Some false
  end.

(** *** Counters, sets and times *)

Definition metricNumber (v : json) : option string :=
  match v with JNum n => match Float64 n with Some _ => Some n | None => None end | _ => None end.

Definition take_metric (acc : object * gmap string string) (key : string) : object * gmap string string :=
  let '(o, metrics) := acc in
  (delete key o, match metricNumber (member o key) with Some v => <[key := v]> metrics | None => metrics end).

(** A stable sort by a three-way comparison. *)
Fixpoint insert_stable {A} (cmp : A → A → comparison) (x : A) (l : list A) : list A :=
  match l with
  | [] => [x]
  | y :: l' => match cmp x y with Gt => y :: insert_stable cmp x l' | _ => x :: l end
  end.
Definition sort_stable {A} (cmp : A → A → comparison) (l : list A) : list A := foldr (insert_stable cmp) [] l.

Definition string_of (v : json) : string := match v with JStr s => s | _ => "" end.

Definition sortStrings (key : string) (o : object) : object :=
  match member o key with
  | JArr l => <[key := JArr (sort_stable (λ a b, String.compare (string_of a) (string_of b)) l)]> o
  | _ => o
  end.

Definition objectString (v : json) (key : string) : string :=
  match as_object v with
  | Some o => match member o key with JStr s => s | JNum n => n | _ => "" end
  | None => ""
  end.

Definition compareSnowflake (a b : string) : comparison :=
  if negb (String.length a =? String.length b)%nat && isCanonicalDecimalSnowflake a && isCanonicalDecimalSnowflake b
  then Nat.compare (String.length a) (String.length b)
  else String.compare a b.

Definition compareOverwrite (a b : json) : comparison :=
  match compareSnowflake (objectString a "id") (objectString b "id") with
  | Eq => String.compare (objectString a "type") (objectString b "type")
  | c => c
  end.

Definition sortPermissionOverwrites (o : object) : object :=
  match member o "permission_overwrites" with
  | JArr l => <["permission_overwrites"%string := JArr (sort_stable compareOverwrite l)]> o
  | _ => o
  end.

Definition normalizeTimeField (key : string) (o : object) : object :=
  match member o key with
  | JStr s => if (s =? "")%string then o else <[key := JStr (normalizeProviderTime s)]> o
  | _ => o
  end.

(** *** The merge *)

Definition keep_all (base : option object) (keys : list string) (placeholder : json → bool) (o : object) : object :=
  match base with
  | Some b => foldl (λ o key, keepKnown b key placeholder o) o keys
  | None => o
  end.

Definition merge_guild (base : option object) (o : object) : object :=
  let o := keep_all base guildCollectionKeys isEmptyList o in
  let o := sortStrings "features" o in
  let o := keep_all base guildCatalogKeys isEmptyList o in
  keep_all base ["region"]%string isPlaceholderRegion (keep_all base ["joined_at"; "large"]%string isZeroValue o).

Definition merge_channel (base : option object) (channelKind : string) (o : object) : object :=
  let o := sortPermissionOverwrites o in
  let o := match member o "thread_metadata" with
           | JObj meta => <["thread_metadata"%string := JObj (normalizeTimeField "create_timestamp" (normalizeTimeField "archive_timestamp" meta))]> o
           | _ => o
           end in
  match base with
  | None => o
  | Some base =>
      let o := keepKnown base "guild_id" isZeroValue o in
      let o := if negb (channelKind =? "voice")%string && negb (channelKind =? "type_13")%string && negb (channelKind =? "stage")%string
               then keepKnown base "bitrate" isZeroValue o else o in
      if negb (channelKind =? "thread_private")%string then
        match as_object (member o "thread_metadata"), as_object (member base "thread_metadata") with
        | Some meta, Some baseMeta => <["thread_metadata"%string := JObj (keepKnown baseMeta "invitable" isZeroValue meta)]> o
        | _, _ => o
        end
      else o
  end.

Definition merge_member (base : option object) (o : object) : option object :=
  let o := normalizeTimeField "communication_disabled_until" (normalizeTimeField "premium_since" (normalizeTimeField "joined_at" o)) in
  match base with
  | None => Some o
  | Some base => mergeUserFlags base "user" (keepKnown base "flags" isZeroValue (keepKnown base "guild_id" isZeroValue o))
  end.

(** What a message and the message it refers to share. *)
Definition merge_message_fields (base : object) (o : object) : option object :=
  o ← mergeUserFlags base "author" (keepKnown base "member" isZeroValue (keepKnown base "guild_id" isZeroValue o));
  mergeMentionMembers base o.

Definition merge_referenced (base : object) (o : object) : option object :=
  match as_object (member o "referenced_message"), as_object (member base "referenced_message") with
  | Some ref, Some baseRef =>
      same ← sameEntityIdentity entityMessage ref baseRef;
      if (same : bool) then ref ← merge_message_fields baseRef ref; Some (<["referenced_message"%string := JObj ref]> o)
      else Some o
  | _, _ => Some o
  end.

Definition merge_message (base : option object) (o : object) : option object :=
  match base with
  | None => Some o
  | Some base => o ← merge_message_fields base o; merge_referenced base o
  end.

(** The metrics taken from an entity, and what remains. *)
Definition take_metrics (kind : entityKind) (o : object) : object * gmap string string :=
  match kind with
  | entityGuild => foldl take_metric (o, ∅) guildMetricKeys
  | entityChannel => foldl take_metric (o, ∅) channelMetricKeys
  | _ => (o, ∅)
  end.

Definition merge_entity (kind : entityKind) (base : option object) (channelKind : string) (o : object) : option object :=
  match kind with
  | entityGuild => Some (merge_guild base o)
  | entityChannel => Some (merge_channel base channelKind o)
  | entityMember => merge_member base o
  | entityMessage => merge_message base o
  end.

(** The stored payload the incoming one is merged with, if it is one of the
    same entity. *)
Definition merge_base (kind : entityKind) (o : object) (stored : string) : option (option object) :=
  match decodeRawObject stored with
  | None => Some None
  | Some base => same ← sameEntityIdentity kind o base; Some (if (same : bool) then Some base else None)
  end.

Definition canonicalMerge (kind : entityKind) (incoming stored channelKind : string) : option (string * gmap string string) :=
  match decodeRawObject incoming with
  | None => Some (incoming, ∅)
  | Some o =>
      base ← merge_base kind o stored;
      let '(o, metrics) := take_metrics kind o in
      o ← merge_entity kind base channelKind o;
      Some (encodeRawObject o, metrics)
  end.

Definition canonicalizeRaw (kind : entityKind) (incoming stored channelKind : string) : option (string * gmap string string) :=
  '(merged, metrics) ← canonicalMerge kind incoming stored channelKind;
  if (merged =? incoming)%string then Some (incoming, metrics)
  else match decodeRawObject incoming with
       | Some plain => if (encodeRawObject plain =? merged)%string then Some (incoming, metrics) else Some (merged, metrics)
       | None => Some (merged, metrics)
       end.

Definition canonical_empty_keys : list string :=
  ["reactions"; "attachments"; "embeds"; "components"; "mentions"; "mention_roles"; "channels"; "threads"; "roles"].

Definition canonicalForm (kind : entityKind) (raw channelKind : string) : option string :=
  '(form, _) ← canonicalMerge kind raw "" channelKind;
  match decodeRawObject form with
  | None => Some form
  | Some o => Some (encodeRawObject (foldl (λ o key, if isEmptyValue (member o key) then delete key o else o) o canonical_empty_keys))
  end.

Definition sameCanonicalRaw (kind : entityKind) (stored next channelKind : string) : option bool :=
  a ← canonicalForm kind stored channelKind; b ← canonicalForm kind next channelKind; Some (a =? b)%string.
End Canonical.

(** An id that is no snowflake is compared as text with one that is: it can come
    before it, and the three ids below are each before the next. *)
Lemma compareSnowflake_cycle :
  compareSnowflake "2" "10" = Lt ∧ compareSnowflake "10" "1x" = Lt ∧ compareSnowflake "1x" "2" = Lt.
Proof. by vm_compute. Qed.

(** ** Merging again *)

Section Again.
Context {jt : JSONText} {tp : TimeParse}.

Lemma member_insert_ne o k k' v : k ≠ k' → member (<[k := v]> o) k' = member o k'.
Proof. intros H. unfold member. by rewrite lookup_insert_ne. Qed.

Lemma member_eq (a b : object) k : a !! k = b !! k → member a k = member b k.
Proof. unfold member. by intros ->. Qed.

Lemma keepKnown_ne base key p o k : k ≠ key → keepKnown base key p o !! k = o !! k.
Proof. intros H. unfold keepKnown. repeat case_match; by rewrite ?lookup_insert_ne. Qed.

(** A base that has what the first merge kept keeps the same again. *)
Lemma keepKnown_again base base' key p o :
  base' !! key = keepKnown base key p o !! key → keepKnown base' key p o = keepKnown base key p o.
Proof.
  unfold keepKnown. destruct (p (member o key)) eqn:Ep; cbn [negb]; [|done].
  assert (∀ b : object, b !! key = o !! key → match b !! key with Some prior => if negb (p prior) then <[key:=prior]> o else o | None => o end = o) as Hsame.
  { intros b ->. unfold member in Ep. destruct (o !! key) as [x|] eqn:Ex; [|done]. simpl in Ep. by rewrite Ep. }
  destruct (base !! key) as [prior|] eqn:Eb; [|apply Hsame]. destruct (p prior) eqn:Epr; cbn [negb]; [apply Hsame|].
  rewrite lookup_insert_eq. intros ->. by rewrite Epr.
Qed.

Lemma keepKnown_empty key p o : keepKnown ∅ key p o = o.
Proof. unfold keepKnown. rewrite lookup_empty. by case_match. Qed.

Lemma keepKnown_self o key p : keepKnown o key p o = o.
Proof.
  unfold keepKnown, member. destruct (o !! key) as [x|] eqn:E; simpl; [|by case_match].
  by destruct (p x).
Qed.

(** *** Users *)

Definition merge_user (base o : object) : object :=
  keepKnown base "public_flags" isZeroValue (keepKnown base "flags" isZeroValue o).

Lemma merge_user_id base o : member (merge_user base o) "id" = member o "id".
Proof. apply member_eq. unfold merge_user. by rewrite !keepKnown_ne. Qed.

Lemma merge_user_again base o : merge_user (merge_user base o) o = merge_user base o.
Proof.
  unfold merge_user at 1. rewrite (keepKnown_again base (merge_user base o) "flags" isZeroValue o) by (unfold merge_user; by rewrite keepKnown_ne).
  by apply keepKnown_again.
Qed.

Lemma merge_user_self o : merge_user o o = o.
Proof. unfold merge_user. by rewrite !keepKnown_self. Qed.

Lemma interface_eq_refl v : hashable v = true → interface_eq v v = Some true.
Proof. destruct v; simpl; try done; [by rewrite Bool.eqb_reflx|by rewrite String.eqb_refl..]. Qed.

Lemma interface_eq_true a b : interface_eq a b = Some true → a = b ∧ hashable a = true.
Proof.
  destruct a, b; simpl; try done; intros [= H]; split; try done; f_equal.
  - by apply Bool.eqb_prop.
  - by apply String.eqb_eq.
  - by apply String.eqb_eq.
Qed.

Lemma interface_eq_hashable a b : hashable a = true → ∃ r, interface_eq a b = Some r.
Proof. destruct a, b; simpl; intros; try done; eauto. Qed.

Lemma mergeUserFlags_ne base key o o' k : mergeUserFlags base key o = Some o' → k ≠ key → o' !! k = o !! k.
Proof.
  unfold mergeUserFlags. intros H Hk. repeat case_match; simplify_eq; rewrite ?lookup_insert_ne; done.
Qed.

Lemma as_object_Some v m : as_object v = Some m ↔ v = JObj m.
Proof. destruct v; simpl; naive_solver. Qed.

Lemma member_object o key m : as_object (member o key) = Some m → o !! key = Some (JObj m).
Proof. unfold member. destruct (o !! key) as [v|]; simpl; [|done]. intros ->%as_object_Some. done. Qed.

Lemma mergeUserFlags_again base base' key o o' :
  (∀ u, as_object (member o key) = Some u → hashable (member u "id") = true) →
  mergeUserFlags base key o = Some o' → base' !! key = o' !! key → mergeUserFlags base' key o = Some o'.
Proof.
  intros Hreg. unfold mergeUserFlags. destruct (as_object (member o key)) as [u|] eqn:Eu; [|by intros [= <-]].
  pose proof (Hreg u eq_refl) as Hid. pose proof (member_object _ _ _ Eu) as Ho.
  assert (∀ b : object, b !! key = o !! key → match as_object (member b key) with
    | Some baseUser => match interface_eq (member u "id") (member baseUser "id") with
        | Some true => Some (<[key:=JObj (keepKnown baseUser "public_flags" isZeroValue (keepKnown baseUser "flags" isZeroValue u))]> o)
        | Some false => Some o | None => None end
    | None => Some o end = Some o) as Hself.
  { intros b Hb. rewrite (member_eq _ _ _ Hb), Eu, interface_eq_refl by done. f_equal. fold (merge_user u u). rewrite merge_user_self. by apply insert_id. }
  destruct (as_object (member base key)) as [bu|] eqn:Ebu; [|intros [= <-]; apply Hself].
  destruct (interface_eq (member u "id") (member bu "id")) as [[]|] eqn:Ei; [|intros [= <-]; apply Hself|done].
  fold (merge_user bu u). intros [= <-]. rewrite lookup_insert_eq. intros Hb. unfold member at 1. rewrite Hb. simpl.
  rewrite merge_user_id, interface_eq_refl by done. do 3 f_equal. fold (merge_user (merge_user bu u) u). apply merge_user_again.
Qed.

(** *** Mentions *)

Definition merge_member_of (base o : object) : object := merge_user base (keepKnown base "member" isZeroValue o).

Lemma merge_member_id base o : member (merge_member_of base o) "id" = member o "id".
Proof. unfold merge_member_of. rewrite merge_user_id. apply member_eq. by rewrite keepKnown_ne. Qed.

Lemma merge_member_again base o : merge_member_of (merge_member_of base o) o = merge_member_of base o.
Proof.
  unfold merge_member_of at 1. rewrite (keepKnown_again base (merge_member_of base o) "member" isZeroValue o)
    by (unfold merge_member_of, merge_user; by do 2 rewrite keepKnown_ne by done).
  apply merge_user_again.
Qed.

Lemma merge_member_self o : merge_member_of o o = o.
Proof. unfold merge_member_of. rewrite keepKnown_self. apply merge_user_self. Qed.

(** The ids of the objects of a list. *)
Fixpoint ids (l : list json) : list json :=
  match l with
  | [] => []
  | JObj o :: l => member o "id" :: ids l
  | _ :: l => ids l
  end.

(** Mentions of different users, by comparable ids. *)
Definition distinct_ids (l : list json) : Prop := NoDup (ids l) ∧ Forall (λ id, hashable id = true) (ids l).

(** An entry of a merged list: an object merged with something of its own id. *)
Inductive merged_entry : json → json → Prop :=
  | merged_other v : as_object v = None → merged_entry v v
  | merged_object o prior : merged_entry (JObj o) (JObj (merge_member_of prior o)).

Lemma merge_mention_entry byID v v' : merge_mention byID v = Some v' → merged_entry v v'.
Proof.
  unfold merge_mention. destruct v; try (intros [= <-]; by constructor).
  destruct (lookup_id byID (member m "id")) as [[prior|]|]; [|intros [= <-]|done].
  - intros [= <-]. fold (merge_user prior (keepKnown prior "member" isZeroValue m)). apply merged_object.
  - pose proof (merged_object m m) as H. by rewrite merge_member_self in H.
Qed.

Lemma merged_ids l l' : Forall2 merged_entry l l' → ids l' = ids l.
Proof.
  induction 1 as [|v v' l l' H _ IH]; [done|]. simpl. destruct H as [v H|o prior]; [by destruct v|]. by rewrite merge_member_id, IH.
Qed.

Lemma index_spec l acc :
  Forall (λ id, hashable id = true) (ids l) →
  ∃ byID, index_by_id l acc = Some byID ∧
    ∀ id, hashable id = true → id ∉ ids l → lookup_id byID id = lookup_id acc id.
Proof.
  revert acc. induction l as [|v l IH]; intros acc Hh; simpl; [eauto|].
  destruct v; simpl in *; try (destruct (IH acc Hh) as (byID & ? & ?); eauto; fail).
  apply Forall_cons in Hh as [Hm Hh]. rewrite Hm. destruct (IH ((member m "id", m) :: acc) Hh) as (byID & -> & Hl).
  exists byID. split; [done|]. intros id Hid [Hne Hnin]%not_elem_of_cons. rewrite Hl by done.
  unfold lookup_id. rewrite Hid. cbn [negb List.find]. destruct (interface_eq (member m "id") id) as [[]|] eqn:E; [|done..].
  apply interface_eq_true in E as [? _]. congruence.
Qed.

Lemma index_lookup l acc o :
  distinct_ids l → JObj o ∈ l → ∃ byID, index_by_id l acc = Some byID ∧ lookup_id byID (member o "id") = Some (Some o).
Proof.
  unfold distinct_ids. revert acc. induction l as [|v l IH]; intros acc [Hnd Hh] Hin; [by apply elem_of_nil in Hin|].
  apply elem_of_cons in Hin as [<-|Hin].
  - simpl in *. apply NoDup_cons in Hnd as [Hnin Hnd]. apply Forall_cons in Hh as [Hm Hh]. rewrite Hm.
    destruct (index_spec l ((member o "id", o) :: acc) Hh) as (byID & -> & Hl). exists byID. split; [done|]. rewrite Hl by done.
    unfold lookup_id. rewrite Hm. cbn [negb List.find]. by rewrite interface_eq_refl.
  - destruct v; simpl in *; try (apply IH; auto; fail).
    apply NoDup_cons in Hnd as [Hnin Hnd]. apply Forall_cons in Hh as [Hm Hh]. rewrite Hm. by apply IH.
Qed.

(** A merged list, merged into the list it came from, gives itself. *)
Lemma mentions_again l l' byID :
  distinct_ids l → Forall2 merged_entry l l' → index_by_id l' [] = Some byID → mapM (merge_mention byID) l = Some l'.
Proof.
  intros Hd Hf Hi. assert (distinct_ids l') as Hd' by (unfold distinct_ids; by rewrite (merged_ids l l')).
  apply mapM_Some. apply Forall2_same_length_lookup. split; [by eapply Forall2_length|].
  intros i v v' Hv Hv'. pose proof (Forall2_lookup_lr _ _ _ _ _ _ Hf Hv Hv') as He. destruct He as [v He|o prior].
  - destruct v; done.
  - destruct (index_lookup l' [] (merge_member_of prior o) Hd') as (byID' & E & Hl); [by eapply list_elem_of_lookup_2|].
    assert (byID' = byID) as -> by congruence. unfold merge_mention. rewrite merge_member_id in Hl. rewrite Hl.
    do 2 f_equal. apply merge_member_again.
Qed.

Lemma merge_mentions_entries base o o' :
  mergeMentionMembers base o = Some o' →
  (∀ k, k ≠ "mentions"%string → o' !! k = o !! k) ∧
  ((o' = o) ∨ ∃ l l', member o "mentions" = JArr l ∧ member o' "mentions" = JArr l' ∧ Forall2 merged_entry l l' ∧ o' = <["mentions"%string := JArr l']> o).
Proof.
  unfold mergeMentionMembers. destruct (_ || _) eqn:E; [by intros [= <-]; auto|].
  destruct (index_by_id _ []) as [byID|]; [|done]. destruct (mapM _ _) as [l'|] eqn:Em; [|done]. intros [= <-].
  apply orb_false_iff in E as [E _]. split; [intros k Hk; by rewrite lookup_insert_ne|right].
  destruct (member o "mentions") as [| | | |l|] eqn:El; simpl in E; try done.
  exists l, l'. split_and!; [done|unfold member; by rewrite lookup_insert_eq| |done]. simpl in Em.
  apply mapM_Some in Em. eapply Forall2_impl; [exact Em|]. intros v v'. apply merge_mention_entry.
Qed.

Definition regular_mentions (o : object) : Prop := distinct_ids (as_list (member o "mentions")).

Lemma merged_self l : Forall2 merged_entry l l.
Proof.
  apply Forall_Forall2_diag, Forall_forall. intros v _. destruct v; try (by constructor).
  pose proof (merged_object m m) as H. by rewrite merge_member_self in H.
Qed.

Lemma mergeMentionMembers_again base base' o o' :
  regular_mentions o → mergeMentionMembers base o = Some o' → base' !! "mentions"%string = o' !! "mentions"%string → mergeMentionMembers base' o = Some o'.
Proof.
  unfold regular_mentions. intros Hd H Hb. destruct (merge_mentions_entries _ _ _ H) as [_ Hcase]. unfold mergeMentionMembers.
  rewrite (member_eq base' o' "mentions" Hb).
  assert (∀ l l', as_list (member o "mentions") = l → as_list (member o' "mentions") = l' → Forall2 merged_entry l l' →
    (l ≠ [] → o' = <["mentions"%string := JArr l']> o) → (l = [] → o' = o) →
    (if (length l =? 0)%nat || (length l' =? 0)%nat then Some o
     else match index_by_id l' [] with None => None | Some byID => match mapM (merge_mention byID) l with None => None | Some l => Some (<["mentions"%string:=JArr l]> o) end end) = Some o') as Hgo.
  { intros l l' El El' Hf Hne Hnil. pose proof (Forall2_length _ _ _ Hf) as Hlen. rewrite <- Hlen, orb_diag.
    destruct l as [|v l]; [by rewrite Hnil|]. cbn [length Nat.eqb]. rewrite Hne by done.
    assert (distinct_ids l') as Hd' by (unfold distinct_ids; rewrite (merged_ids _ _ Hf), <- El; apply Hd).
    destruct (index_spec l' []) as (byID & Hi & _); [apply Hd'|]. rewrite Hi.
    rewrite (mentions_again (v :: l) l' byID); [done|by rewrite <- El|done..]. }
  destruct Hcase as [->|(l & l' & El & El' & Hf & ->)].
  - apply Hgo; [done|done|apply merged_self| |done]. intros Hne. symmetry. apply insert_id. unfold member in *.
    destruct (o !! "mentions"%string) as [[]|]; simpl in *; try done.
  - rewrite El, El'. apply (Hgo l l'); [by rewrite El|by rewrite El'|done|done|]. intros ->. apply Forall2_nil_inv_l in Hf as ->. apply insert_id.
    unfold member in El. destruct (o !! "mentions"%string) as [x|]; simpl in El; [by subst|done].
Qed.

(** *** Messages *)

Definition regular_fields (o : object) : Prop :=
  (∀ u, as_object (member o "author") = Some u → hashable (member u "id") = true) ∧ regular_mentions o.

Lemma fields_ne base o o' k :
  merge_message_fields base o = Some o' → k ∉ ["guild_id"; "member"; "author"; "mentions"]%string → o' !! k = o !! k.
Proof.
  unfold merge_message_fields. intros H Hk. apply bind_Some in H as (o2 & Ha & Hm).
  rewrite !not_elem_of_cons in Hk. destruct Hk as (? & ? & ? & ? & _).
  destruct (merge_mentions_entries _ _ _ Hm) as [-> _]; [|done]. rewrite (mergeUserFlags_ne _ _ _ _ _ Ha) by done.
  by rewrite !keepKnown_ne.
Qed.

Lemma fields_again base base' o o' :
  regular_fields o → merge_message_fields base o = Some o' → (∀ k, k ∈ ["guild_id"; "member"; "author"; "mentions"]%string → base' !! k = o' !! k) →
  merge_message_fields base' o = Some o'.
Proof.
  unfold merge_message_fields. intros [Hauthor Hmentions] H Hb. apply bind_Some in H as (o3 & Ha & Hm).
  set (o1 := keepKnown base "guild_id" isZeroValue o) in *. set (o2 := keepKnown base "member" isZeroValue o1) in *.
  destruct (merge_mentions_entries _ _ _ Hm) as [Hne _].
  assert (keepKnown base' "guild_id" isZeroValue o = o1) as ->.
  { apply keepKnown_again. rewrite Hb by set_solver. rewrite Hne, (mergeUserFlags_ne _ _ _ _ _ Ha) by done. unfold o2. by rewrite keepKnown_ne. }
  assert (keepKnown base' "member" isZeroValue o1 = o2) as ->.
  { apply keepKnown_again. rewrite Hb by set_solver. by rewrite Hne, (mergeUserFlags_ne _ _ _ _ _ Ha) by done. }
  rewrite (mergeUserFlags_again base base' "author" o2 o3); [|intros u Hu; apply Hauthor|done|rewrite Hb by set_solver; by rewrite Hne].
  - simpl. apply (mergeMentionMembers_again base); [|done|by rewrite Hb by set_solver].
    unfold regular_mentions in *. rewrite (member_eq o3 o); [done|]. rewrite (mergeUserFlags_ne _ _ _ _ _ Ha) by done.
    unfold o2, o1. by rewrite !keepKnown_ne.
  - rewrite <- Hu. f_equal. apply member_eq. unfold o2, o1. by rewrite !keepKnown_ne.
Qed.

Lemma fields_self o : regular_fields o → merge_message_fields o o = Some o.
Proof.
  intros Hreg. apply (fields_again ∅); [done| |done]. unfold merge_message_fields. rewrite !keepKnown_empty.
  unfold mergeUserFlags, mergeMentionMembers. change (member ∅ "author") with JNull. change (member ∅ "mentions") with JNull. simpl.
  destruct (as_object (member o "author")); simpl; by rewrite orb_true_r.
Qed.

Record regular_message (o : object) : Prop := {
  rm_id : hashable (member o "id") = true;
  rm_fields : regular_fields o;
  rm_ref ref : as_object (member o "referenced_message") = Some ref → hashable (member ref "id") = true ∧ regular_fields ref }.

Lemma same_message_self o : hashable (member o "id") = true → sameEntityIdentity entityMessage o o = Some (known_id (member o "id")).
Proof. intros H. unfold sameEntityIdentity. destruct (known_id _); [by apply interface_eq_refl|done]. Qed.

Lemma referenced_again base base' o o' :
  regular_message o → merge_referenced base o = Some o' → base' !! "referenced_message"%string = o' !! "referenced_message"%string →
  merge_referenced base' o = Some o' ∧ ∀ k, k ≠ "referenced_message"%string → o' !! k = o !! k.
Proof.
  intros Hreg. unfold merge_referenced. destruct (as_object (member o "referenced_message")) as [ref|] eqn:Er; [|by intros [= <-]].
  destruct (rm_ref o Hreg ref Er) as [Hid Hf]. pose proof (member_object _ _ _ Er) as Ho.
  assert (∀ b : object, b !! "referenced_message"%string = o !! "referenced_message"%string →
    match as_object (member b "referenced_message") with
    | Some baseRef => same ← sameEntityIdentity entityMessage ref baseRef;
        if (same : bool) then ref ← merge_message_fields baseRef ref; Some (<["referenced_message"%string:=JObj ref]> o) else Some o
    | None => Some o end = Some o) as Hself.
  { intros b Hb. rewrite (member_eq _ _ _ Hb), Er, same_message_self by done. simpl. destruct (known_id _); [|done].
    rewrite fields_self by done. simpl. f_equal. by apply insert_id. }
  destruct (as_object (member base "referenced_message")) as [bref|]; [|intros [= <-] Hb; split; [by apply Hself|done]].
  destruct (sameEntityIdentity entityMessage ref bref) as [[]|] eqn:Es; [|intros [= <-] Hb; split; [by apply Hself|done]|done]. cbn [mbind option_bind].
  intros H. apply bind_Some in H as (ref' & Hm & [= <-]). rewrite lookup_insert_eq. intros Hb. split; [|intros k Hk; by rewrite lookup_insert_ne].
  assert (member base' "referenced_message" = JObj ref') as -> by (unfold member; by rewrite Hb). cbn [as_object].
  assert (sameEntityIdentity entityMessage ref ref' = Some true) as ->.
  { unfold sameEntityIdentity in *. rewrite (member_eq ref' ref "id"); [|apply (fields_ne _ _ _ _ Hm); set_solver].
    destruct (known_id (member ref "id")); [by apply interface_eq_refl|done]. }
  simpl. by rewrite (fields_again bref ref' ref ref' Hf Hm) by done.
Qed.

Lemma referenced_ne base o o' k : merge_referenced base o = Some o' → k ≠ "referenced_message"%string → o' !! k = o !! k.
Proof.
  unfold merge_referenced. intros H Hk. destruct (as_object _); [|by injection H as <-]. destruct (as_object _); [|by injection H as <-].
  destruct (sameEntityIdentity _ _ _) as [[]|]; simpl in H; [|by injection H as <-|done].
  apply bind_Some in H as (? & _ & [= <-]). by rewrite lookup_insert_ne.
Qed.

Lemma regular_after_fields base o o' : regular_message o → merge_message_fields base o = Some o' → as_object (member o' "referenced_message") = as_object (member o "referenced_message").
Proof. intros _ H. f_equal. apply member_eq. apply (fields_ne _ _ _ _ H). set_solver. Qed.

(** The user a merge leaves has the id it had. *)
Lemma mergeUserFlags_user base key o o' u' :
  mergeUserFlags base key o = Some o' → as_object (member o' key) = Some u' →
  ∃ u, as_object (member o key) = Some u ∧ member u' "id" = member u "id".
Proof.
  unfold mergeUserFlags. intros H Hu'. destruct (as_object (member o key)) as [u|] eqn:Eu; [|injection H as <-; congruence].
  exists u. split; [done|]. destruct (as_object (member base key)) as [bu|]; [|injection H as <-; congruence].
  destruct (interface_eq (member u "id") (member bu "id")) as [[]|]; [|injection H as <-; congruence|done].
  injection H as <-. unfold member in Hu' at 1. rewrite lookup_insert_eq in Hu'. injection Hu' as <-. apply (merge_user_id bu).
Qed.

Lemma regular_fields_after base o o' : regular_fields o → merge_message_fields base o = Some o' → regular_fields o'.
Proof.
  unfold merge_message_fields. intros [Ha Hm] Hf. apply bind_Some in Hf as (o2 & Hu & Hmm).
  destruct (merge_mentions_entries _ _ _ Hmm) as [Hne Hcase].
  set (o1 := keepKnown base "member" isZeroValue (keepKnown base "guild_id" isZeroValue o)) in *.
  assert (∀ k, k ≠ "guild_id"%string → k ≠ "member"%string → member o1 k = member o k) as H1
    by (intros k ? ?; apply member_eq; unfold o1; by rewrite !keepKnown_ne).
  split.
  - intros u'. rewrite (member_eq o' o2) by (by apply Hne). intros Hou.
    destruct (mergeUserFlags_user _ _ _ _ _ Hu Hou) as (u & Eu & ->). rewrite H1 in Eu by done. by apply Ha.
  - assert (member o2 "mentions" = member o "mentions") as E2.
    { rewrite (member_eq o2 o1) by (by rewrite (mergeUserFlags_ne _ _ _ _ _ Hu)). by rewrite H1. }
    unfold regular_mentions in *. destruct Hcase as [->|(l & l' & El & El' & Hl & _)]; [by rewrite E2|].
    rewrite El'. simpl. unfold distinct_ids. rewrite (merged_ids _ _ Hl). rewrite <- E2, El in Hm. exact Hm.
Qed.

(** Merging a message into what an earlier merge of it made changes nothing. *)
Lemma merge_message_again base o r :
  regular_message o → merge_message base o = Some r → merge_message (Some r) o = Some r ∧ member r "id" = member o "id".
Proof.
  intros Hreg H.
  assert (∃ b o1, merge_message_fields b o = Some o1 ∧ merge_referenced b o1 = Some r) as (b & o1 & Hf & Hr).
  { destruct base as [b|]; [apply bind_Some in H as (o1 & ? & ?); eauto|]. injection H as <-. exists o, o.
    rewrite fields_self by apply Hreg. split; [done|]. unfold merge_referenced.
    destruct (as_object (member o "referenced_message")) as [ref|] eqn:Er; [|done]. destruct (rm_ref o Hreg ref Er) as [Hid Hrf].
    rewrite same_message_self by done. simpl. destruct (known_id _); [|done]. rewrite fields_self by done. simpl. f_equal.
    apply insert_id. by apply member_object. }
  assert (∀ k, k ≠ "referenced_message"%string → r !! k = o1 !! k) as Hrk by (intros k; by apply (referenced_ne b)).
  split.
  - simpl. rewrite (fields_again b r o o1); [|apply Hreg|done|intros k Hk; apply Hrk; set_solver]. simpl.
    apply (referenced_again b); [|done|done]. split.
    + rewrite (member_eq o1 o); [apply Hreg|]. apply (fields_ne _ _ _ _ Hf). set_solver.
    + apply (regular_fields_after b o); [apply Hreg|done].
    + intros ref. rewrite (regular_after_fields b o o1 Hreg Hf). apply Hreg.
  - apply member_eq. rewrite Hrk by done. apply (fields_ne _ _ _ _ Hf). set_solver.
Qed.
End Again.
