(* ===== verification/CanonicalMessage.v ===== *)
(** * The stored text of a message

    What canonicalizeRaw of internal/store/canonical.go stores for a message:
    the text reads back as the merged object, and storing the same payload again
    stores the same text. The instances give the message writer the operations
    of canonical.go for the interface it is proved against. *)
From S2P Require Import Prelude Decimal Errors Snowflake GoTime GoText Rows Receipts Attachments Mentions MessageWrite Canonical.
Local Open Scope Z_scope.

(** ** The stored text of a message *)

Section Text.
Context {jt : JSONText} {jl : JSONTextLaws} {tp : TimeParse}.

#[local] Notation printable_map o := (printable (JObj o)).

Lemma printable_member o k : printable_map o → member o k ≠ JNull → printable (member o k).
Proof.
  intros Ho. pose proof (proj1 (printable_object o) Ho) as Hall. unfold member. destruct (o !! k) as [v|] eqn:E; simpl; [|done]. intros _. by apply (Hall k v).
Qed.

Lemma printable_insert o k v : printable_map o → printable_key k → printable v → printable_map (<[k := v]> o).
Proof.
  rewrite !printable_object. intros Ho Hk Hv k' v' [[<- <-]|[_ H]]%lookup_insert_Some; [done|by apply Ho].
Qed.

Lemma printable_replace o k v : printable_map o → member o k ≠ JNull → printable v → printable_map (<[k := v]> o).
Proof.
  intros Ho Hm Hv. apply printable_insert; [done| |done]. unfold member in Hm. destruct (o !! k) as [x|] eqn:E; [|done].
  by apply (proj1 (printable_object o) Ho k x).
Qed.

Lemma printable_keepKnown base key p o : printable_map base → printable_map o → printable_map (keepKnown base key p o).
Proof.
  intros Hb Ho. unfold keepKnown. destruct (negb _); [done|]. destruct (base !! key) as [prior|] eqn:E; [|done].
  destruct (negb _); [|done]. destruct (proj1 (printable_object base) Hb key prior E). by apply printable_insert.
Qed.

Lemma printable_as_object o k m : printable_map o → as_object (member o k) = Some m → printable_map m.
Proof. intros Ho Hm. apply as_object_Some in Hm. rewrite <- Hm. apply printable_member; [done|by rewrite Hm]. Qed.

Lemma printable_mergeUserFlags base key o o' : printable_map base → printable_map o → mergeUserFlags base key o = Some o' → printable_map o'.
Proof.
  unfold mergeUserFlags. intros Hb Ho. destruct (as_object (member o key)) as [u|] eqn:Eu; [|by intros [= <-]].
  destruct (as_object (member base key)) as [bu|] eqn:Ebu; [|by intros [= <-]].
  destruct (interface_eq _ _) as [[]|]; [|by intros [= <-]|done]. intros [= <-]. apply printable_replace; [done| |].
  - apply as_object_Some in Eu. by rewrite Eu.
  - apply printable_keepKnown; [exact (printable_as_object _ _ _ Hb Ebu)|].
    apply printable_keepKnown; [exact (printable_as_object _ _ _ Hb Ebu)|exact (printable_as_object _ _ _ Ho Eu)].
Qed.

Lemma printable_index l acc byID :
  Forall printable l → Forall (λ e, printable_map e.2) acc → index_by_id l acc = Some byID → Forall (λ e, printable_map e.2) byID.
Proof.
  revert acc. induction l as [|v l IH]; intros acc Hl Hacc; simpl; [by intros [= <-]|]. apply Forall_cons in Hl as [Hv Hl].
  destruct v; try (by apply IH). destruct (hashable _); [|done]. apply IH; [done|by constructor].
Qed.

Lemma printable_merge_mention byID v v' :
  Forall (λ e, printable_map e.2) byID → printable v → merge_mention byID v = Some v' → printable v'.
Proof.
  unfold merge_mention, lookup_id. intros Hby Hv. destruct v; try (by intros [= <-]). destruct (negb _); [done|].
  destruct (List.find _ byID) as [[k prior]|] eqn:Ef; simpl; [|by intros [= <-]]. intros [= <-].
  assert (printable_map prior) by (apply List.find_some in Ef as [Hin _]; rewrite Forall_forall in Hby; apply (Hby (k, prior)); by apply list_elem_of_In).
  by repeat apply printable_keepKnown.
Qed.

Lemma printable_as_list o k : printable_map o → Forall printable (as_list (member o k)).
Proof.
  intros Ho. destruct (member o k) as [| | | |l|] eqn:E; simpl; try constructor. apply printable_list. rewrite <- E.
  apply printable_member; [done|by rewrite E].
Qed.

Lemma printable_mentions base o o' : printable_map base → printable_map o → mergeMentionMembers base o = Some o' → printable_map o'.
Proof.
  intros Hb Ho. unfold mergeMentionMembers. destruct (_ || _) eqn:Eempty; [by intros [= <-]|].
  destruct (index_by_id _ []) as [byID|] eqn:Ei; [|done]. destruct (mapM _ _) as [l|] eqn:Em; [|done]. intros [= <-].
  apply printable_replace; [done| |].
  - intros E. by rewrite E in Eempty.
  - apply printable_list. apply mapM_Some in Em. pose proof (printable_as_list o "mentions" Ho) as Hl.
    assert (Forall (λ e, printable_map e.2) byID) as Hby by (by apply (printable_index _ _ _ (printable_as_list base "mentions" Hb) (List.Forall_nil _) Ei)).
    clear Ei Eempty. induction Em as [|v v' l0 l' Hv _ IH]; [constructor|]. apply Forall_cons in Hl as [Hv0 Hl].
    constructor; [by apply (printable_merge_mention byID v)|by apply IH].
Qed.

Lemma printable_fields base o o' : printable_map base → printable_map o → merge_message_fields base o = Some o' → printable_map o'.
Proof.
  intros Hb Ho H. apply bind_Some in H as (o1 & Hu & Hm). apply (printable_mentions base o1); [done| |done].
  eapply (printable_mergeUserFlags base "author"); [exact Hb| |exact Hu]. by repeat apply printable_keepKnown.
Qed.

Lemma printable_message base o r :
  (∀ b, base = Some b → printable_map b) → printable_map o → merge_message base o = Some r → printable_map r.
Proof.
  intros Hbase Ho. destruct base as [b|]; simpl; [|by intros [= <-]]. specialize (Hbase b eq_refl).
  intros H. apply bind_Some in H as (o1 & Hf & Hr). pose proof (printable_fields b o o1 Hbase Ho Hf) as Ho1. revert Hr.
  unfold merge_referenced. destruct (as_object (member o1 "referenced_message")) as [ref|] eqn:Er; [|by intros [= <-]].
  destruct (as_object (member b "referenced_message")) as [bref|] eqn:Eb; [|by intros [= <-]].
  destruct (sameEntityIdentity _ _ _) as [[]|]; simpl; [|by intros [= <-]|done]. intros H. apply bind_Some in H as (ref' & Hm & [= <-]).
  apply printable_replace; [done| |].
  - apply as_object_Some in Er. by rewrite Er.
  - apply (printable_fields bref ref); [exact (printable_as_object _ _ _ Hbase Eb)|exact (printable_as_object _ _ _ Ho1 Er)|done].
Qed.

(** What [encodeRawObject] writes, [decodeRawObject] reads. *)
Lemma decodeRaw_encodeRaw o : printable_map o → decodeRawObject (encodeRawObject o) = Some o.
Proof.
  intros Ho. destruct (encoded o Ho) as (s & z & Hz & He & Hd). unfold decodeRawObject, encodeRawObject. rewrite He.
  pose proof (TrimSpace_plain "{"%char s z eq_refl Hz) as Ht. cbn [String.append default from_option id] in *. rewrite Ht. exact Hd.
Qed.

Lemma decoded_map raw o : decodeRawObject raw = Some o → printable_map o.
Proof. unfold decodeRawObject. repeat (case_match; try done). apply decoded_printable. Qed.

(** A payload whose ids are comparable values and whose mentions are of
    different users: what the provider sends. *)
Definition regular (raw : string) : Prop := ∀ o, decodeRawObject raw = Some o → regular_message o.

Lemma merge_base_again o s0 b r s1 :
  regular_message o → merge_base entityMessage o s0 = Some b → merge_message b o = Some r → decodeRawObject s1 = Some r →
  ∃ b', merge_base entityMessage o s1 = Some b' ∧ merge_message b' o = Some r.
Proof.
  intros Hreg Hb Hr Hs1. destruct (merge_message_again b o r Hreg Hr) as [Hagain Hid]. unfold merge_base in *. rewrite Hs1.
  assert (sameEntityIdentity entityMessage o r = Some (known_id (member o "id"))) as ->.
  { unfold sameEntityIdentity. rewrite Hid. destruct (known_id _); [apply interface_eq_refl, Hreg|done]. }
  cbn [mbind option_bind]. eexists. split; [done|]. destruct (known_id (member o "id")) eqn:Ek; [done|].
  assert (b = None) as -> by (destruct (decodeRawObject s0); [unfold sameEntityIdentity in Hb; rewrite Ek in Hb|]; by injection Hb as <-).
  done.
Qed.

Definition choose_text (incoming merged : string) : string :=
  if (merged =? incoming)%string then incoming
  else match decodeRawObject incoming with
       | Some plain => if (encodeRawObject plain =? merged)%string then incoming else merged
       | None => merged
       end.

Lemma canonical_message_text i s0 k :
  canonicalizeRaw entityMessage i s0 k =
  match decodeRawObject i with
  | None => Some (i, ∅)
  | Some o => b ← merge_base entityMessage o s0; r ← merge_message b o; Some (choose_text i (encodeRawObject r), ∅)
  end.
Proof.
  unfold canonicalizeRaw, canonicalMerge, choose_text. destruct (decodeRawObject i) as [o|] eqn:Ei; [|simpl; by rewrite String.eqb_refl].
  destruct (merge_base entityMessage o s0) as [b|]; [|done]. cbn [mbind option_bind take_metrics merge_entity].
  destruct (merge_message b o) as [r|]; [|done]. cbn [mbind option_bind]. by repeat case_match.
Qed.

(** The text chosen reads as what was merged. *)
Lemma choose_text_decodes i o r :
  decodeRawObject i = Some o → printable_map r → decodeRawObject (choose_text i (encodeRawObject r)) = Some r.
Proof.
  intros Ei Hr. unfold choose_text. rewrite Ei. destruct (encodeRawObject r =? i)%string eqn:E1.
  - apply String.eqb_eq in E1 as <-. by apply decodeRaw_encodeRaw.
  - destruct (encodeRawObject o =? encodeRawObject r)%string eqn:E2; [|by apply decodeRaw_encodeRaw].
    apply String.eqb_eq in E2. assert (Some o = Some r) as [= <-]; [|done].
    rewrite <- (decodeRaw_encodeRaw r Hr), <- E2. symmetry. apply decodeRaw_encodeRaw. by apply (decoded_map i).
Qed.

Lemma merge_base_printable o s0 b : merge_base entityMessage o s0 = Some b → ∀ m, b = Some m → printable_map m.
Proof.
  unfold merge_base. destruct (decodeRawObject s0) as [base|] eqn:E; [|by intros [= <-]]. intros H m ->.
  apply bind_Some in H as ([] & _ & [= ->]). by apply (decoded_map s0).
Qed.

Lemma canonicalize_twice i s0 s1 metrics k :
  regular i → canonicalizeRaw entityMessage i s0 k = Some (s1, metrics) → canonicalizeRaw entityMessage i s1 k = Some (s1, metrics).
Proof.
  intros Hreg. rewrite !canonical_message_text. destruct (decodeRawObject i) as [o|] eqn:Ei; [|by intros [= <- <-]].
  intros H. apply bind_Some in H as (b & Hb & H). apply bind_Some in H as (r & Hr & [= <- <-]).
  assert (printable_map r) as Hpr by (apply (printable_message b o); [by apply (merge_base_printable o s0)|by apply (decoded_map i)|done]).
  destruct (merge_base_again o s0 b r (choose_text i (encodeRawObject r)) (Hreg o Ei) Hb Hr) as (b' & -> & Hr');
    [by apply (choose_text_decodes i o)|]. cbn [mbind option_bind]. by rewrite Hr'.
Qed.

(** A payload stored over nothing never panics. *)
Lemma canonical_over_itself i k : regular i → canonicalizeRaw entityMessage i i k = Some (i, ∅).
Proof.
  intros Hreg. rewrite canonical_message_text. destruct (decodeRawObject i) as [o|] eqn:Ei; [|done].
  destruct (merge_base_again o "" None o i (Hreg o Ei)) as (b' & -> & Hr); [|done|done|].
  - unfold merge_base. assert (decodeRawObject "" = None) as -> by done. done.
  - cbn [mbind option_bind]. rewrite Hr. cbn [mbind option_bind]. unfold choose_text. rewrite Ei, String.eqb_refl. by case_match.
Qed.

Lemma canonicalForm_message raw k : is_Some (canonicalForm entityMessage raw k).
Proof.
  unfold canonicalForm, canonicalMerge. destruct (decodeRawObject raw) as [o|]; cbn [mbind option_bind take_metrics merge_entity].
  - unfold merge_base. assert (decodeRawObject "" = None) as -> by done. cbn [mbind option_bind merge_message]. case_match; eauto.
  - case_match; eauto.
Qed.
End Text.

(** ** What a stored payload keeps *)

Section Keeps.
Context {jt : JSONText} {jl : JSONTextLaws} {tp : TimeParse}.

(** The fields a transport may omit, which a merge takes from the stored row. *)
Definition transport_fields : list string := ["guild_id"; "member"; "author"; "mentions"; "referenced_message"].

Lemma keepKnown_known base key o : isZeroValue (member base key) = false → isZeroValue (member (keepKnown base key isZeroValue o) key) = false.
Proof.
  unfold keepKnown. destruct (isZeroValue (member o key)) eqn:Ep; [|done]. cbn [negb]. unfold member at 1.
  destruct (base !! key) as [prior|]; simpl; [|done]. intros Hb. rewrite Hb. cbn [negb]. unfold member. by rewrite lookup_insert_eq.
Qed.

Lemma fields_known base o o' key :
  merge_message_fields base o = Some o' → key ∈ ["guild_id"; "member"]%string → isZeroValue (member base key) = false →
  isZeroValue (member o' key) = false.
Proof.
  unfold merge_message_fields. intros H Hk Hb. apply bind_Some in H as (o2 & Hu & Hm).
  destruct (merge_mentions_entries _ _ _ Hm) as [Hne _].
  assert (key ≠ "author"%string ∧ key ≠ "mentions"%string) as [? ?] by (by rewrite !elem_of_cons in Hk; destruct Hk as [->|[->|[]%elem_of_nil]]).
  rewrite (member_eq o' o2) by (by apply Hne). rewrite (member_eq o2 _ key (mergeUserFlags_ne _ _ _ _ _ Hu ltac:(done))).
  rewrite !elem_of_cons in Hk. destruct Hk as [->|[->|[]%elem_of_nil]].
  - rewrite (member_eq _ (keepKnown base "guild_id" isZeroValue o)) by (by rewrite keepKnown_ne). by apply keepKnown_known.
  - by apply keepKnown_known.
Qed.

Lemma message_known base o r key :
  merge_message (Some base) o = Some r → key ∈ ["guild_id"; "member"]%string → isZeroValue (member base key) = false →
  isZeroValue (member r key) = false.
Proof.
  simpl. intros H Hk Hb. apply bind_Some in H as (o1 & Hf & Hr). rewrite (member_eq r o1); [by apply (fields_known base o)|].
  apply (referenced_ne base); [done|]. by rewrite !elem_of_cons in Hk; destruct Hk as [->|[->|[]%elem_of_nil]].
Qed.

Lemma message_others base o r key : merge_message base o = Some r → key ∉ transport_fields → r !! key = o !! key.
Proof.
  destruct base as [base|]; simpl; [|by intros [= <-]]. intros H Hk. apply bind_Some in H as (o1 & Hf & Hr). unfold transport_fields in Hk.
  rewrite (referenced_ne _ _ _ _ Hr) by set_solver. apply (fields_ne _ _ _ _ Hf). set_solver.
Qed.

(** The object the text of [i] stored over [s0] reads as. *)
Lemma stored_reads i s0 s1 metrics k o :
  canonicalizeRaw entityMessage i s0 k = Some (s1, metrics) → decodeRawObject i = Some o →
  ∃ b r, merge_base entityMessage o s0 = Some b ∧ merge_message b o = Some r ∧ decodeRawObject s1 = Some r.
Proof.
  rewrite canonical_message_text. intros H Ei. rewrite Ei in H.
  apply bind_Some in H as (b & Hb & H). apply bind_Some in H as (r & Hr & [= <- <-]). exists b, r. split_and!; [done..|].
  apply (choose_text_decodes i o); [done|]. apply (printable_message b o); [by apply (merge_base_printable o s0)|by apply (decoded_map i)|done].
Qed.
End Keeps.

(** ** The writer's interface *)

Section Instances.
Context {jt : JSONText} {jl : JSONTextLaws} {tp : TimeParse}.
Context (shape : string → string → bool) (project : string → list (string * string * string) → option (string * string)).

(** canonical.go as the payloads of the message writer. Where the code panics,
    no value is stored and the writer's choice does not matter. *)
Definition canonical_payloads : RawPayloads := {|
  canonicalizeMessage incoming stored := match canonicalizeRaw entityMessage incoming stored "" with Some (raw, _) => raw | None => incoming end;
  sameCanonicalMessage a b := match sameCanonicalRaw entityMessage a b "" with Some same => same | None => false end;
  sameMessageTextShape := shape;
  project_text := project |}.

#[program] Definition canonical_payloads_laws : @RawPayloadsLaws canonical_payloads := {| regular_payload := regular |}.
Next Obligation.
  intros i s Hreg. simpl.
  assert (∀ x, match sameCanonicalRaw entityMessage x x "" with Some same => same | None => false end = true) as Hself.
  { intros x. unfold sameCanonicalRaw. destruct (canonicalForm_message x "") as [form ->]. simpl. by rewrite String.eqb_refl. }
  destruct (canonicalizeRaw entityMessage i s "") as [[s1 metrics]|] eqn:E.
  - rewrite (canonicalize_twice i s s1 metrics "" Hreg E). apply Hself.
  - rewrite (canonical_over_itself i "" Hreg). apply Hself.
Qed.
End Instances.

(** ** The theorems *)

(** C22: Storing a regular message payload is idempotent and loses nothing: the
    text stored for it over [s0], stored over again with the same payload, does
    not change; it reads as an object with every field of the payload that is
    not a transport's to omit; and when [s0] held the same message, a guild and
    a member it knew are still known. *)
Theorem canonical_message_idempotent `{JSONText} `{!JSONTextLaws} `{TimeParse} (i s0 s1 k : string) (metrics : gmap string string)
    (Hregular : regular i) (Hstored : canonicalizeRaw entityMessage i s0 k = Some (s1, metrics)) :
  canonicalizeRaw entityMessage i s1 k = Some (s1, metrics) ∧
  ∀ o, decodeRawObject i = Some o →
    ∃ r, decodeRawObject s1 = Some r ∧ (∀ key, key ∉ transport_fields → r !! key = o !! key) ∧
      ∀ base key, decodeRawObject s0 = Some base → sameEntityIdentity entityMessage o base = Some true → key ∈ ["guild_id"; "member"]%string →
        isZeroValue (member base key) = false → isZeroValue (member r key) = false.
Proof.
  split; [by apply (canonicalize_twice i s0)|]. intros o Ho.
  destruct (stored_reads i s0 s1 metrics k o Hstored Ho) as (b & r & Hb & Hr & Hs1). exists r. split; [done|].
  split; [intros key; by apply (message_others b)|]. intros base key Hbase Hsame Hkey Hknown.
  unfold merge_base in Hb. rewrite Hbase, Hsame in Hb. injection Hb as <-. by apply (message_known base o).
Qed.

(** ** A text that reads back

    A printer and reader of objects for the witness: a tree of the object as a
    number, in bits. *)

Fixpoint tree_of (v : json) : gen_tree string :=
  match v with
  | JNull => GenNode 0 []
  | JBool b => GenNode (if b then 1 else 2) []
  | JNum n => GenNode 3 [GenLeaf n]
  | JStr s => GenNode 4 [GenLeaf s]
  | JArr l => GenNode 5 (tree_of <$> l)
  | JObj m => GenNode 6 (map_fold (λ key v rec, GenNode 7 [GenLeaf key; tree_of v] :: rec) [] m)
  end.

Fixpoint json_of (t : gen_tree string) : json :=
  match t with
  | GenNode 1 [] => JBool true
  | GenNode 2 [] => JBool false
  | GenNode 3 [GenLeaf n] => JNum n
  | GenNode 4 [GenLeaf s] => JStr s
  | GenNode 5 l => JArr (json_of <$> l)
  | GenNode 6 l => JObj (list_to_map (omap (λ e, match e with GenNode 7 [GenLeaf key; v] => Some (key, json_of v) | _ => None end) l))
  | _ => JNull
  end.

Fixpoint bits (p : positive) (acc : string) : string :=
  match p with
  | xH => acc
  | xO p => String "0" (bits p acc)
  | xI p => String "1" (bits p acc)
  end.

Fixpoint unbits (s : string) : option positive :=
  match s with
  | String "}" "" => Some 1%positive
  | String "0" s => xO <$> unbits s
  | String "1" s => xI <$> unbits s
  | _ => None
  end.

Definition bits_Encode (m : object) : option string := Some (String "{" (bits (encode (tree_of (JObj m))) "}")).

Definition bits_Decode (s : string) : option object :=
  match s with
  | String "{" s => p ← unbits s; t ← decode p; as_object (json_of t)
  | _ => None
  end.

Lemma unbits_bits p : unbits (bits p "}") = Some p.
Proof. induction p as [p IH|p IH|]; simpl; by rewrite ?IH. Qed.

Fixpoint json_size (v : json) : nat :=
  match v with
  | JArr l => S (sum_list_with json_size l)
  | JObj m => S (map_fold (λ _ v n, (json_size v + n)%nat) 0%nat m)
  | _ => 0%nat
  end.

Lemma size_in_list v l : v ∈ l → (json_size v < json_size (JArr l))%nat.
Proof.
  cbn [json_size]. induction l as [|w l IH]; [by intros ?%elem_of_nil|]. intros [->|Hin]%elem_of_cons; cbn [sum_list_with]; [lia|]. specialize (IH Hin). lia.
Qed.

Lemma size_in_object k v m : m !! k = Some v → (json_size v < json_size (JObj m))%nat.
Proof.
  intros Hk. cbn [json_size]. rewrite (map_fold_delete_L _ _ k v m); [cbv beta; lia|intros; cbv beta; lia|done].
Qed.

(** Induction on the values a value contains. *)
Lemma json_nested_ind (P : json → Prop) :
  (∀ v, (∀ l w, v = JArr l → w ∈ l → P w) → (∀ m k w, v = JObj m → m !! k = Some w → P w) → P v) → ∀ v, P v.
Proof.
  intros Hstep v. remember (json_size v) as n eqn:Hn. revert v Hn. induction (lt_wf n) as [n _ IH]. intros v ->. apply Hstep.
  - intros l w -> Hin. exact (IH _ (size_in_list w l Hin) w eq_refl).
  - intros m k w -> Hk. exact (IH _ (size_in_object k w m Hk) w eq_refl).
Qed.

Lemma json_of_tree v : json_of (tree_of v) = v.
Proof.
  induction v as [v IHl IHm] using json_nested_ind. destruct v as [|[]|n|s|l|m]; try done; cbn [tree_of json_of]; f_equal.
  - rewrite <- list_fmap_compose. rewrite <- (list_fmap_id l) at 2. apply list_fmap_ext. intros i w Hw. apply (IHl l); [done|].
    by eapply list_elem_of_lookup_2.
  - rewrite map_fold_foldr. rewrite <- (list_to_map_to_list m) at 2. f_equal.
    assert (∀ k w, (k, w) ∈ map_to_list m → json_of (tree_of w) = w) as Hall by (intros k w Hin; apply (IHm m k); [done|by apply elem_of_map_to_list]).
    induction (map_to_list m) as [|[k w] l IH]; [done|]. cbn. rewrite (Hall k w) by (apply elem_of_cons; auto). f_equal.
    apply IH. intros k' w' Hin. apply (Hall k' w'). apply elem_of_cons; auto.
Qed.

Lemma bits_Decode_Encode m : bits_Decode (String "{" (bits (encode (tree_of (JObj m))) "}")) = Some m.
Proof.
  unfold bits_Decode. rewrite unbits_bits. cbn [mbind option_bind]. rewrite decode_encode. cbn [mbind option_bind]. by rewrite json_of_tree.
Qed.

Lemma bits_app p acc acc' : bits p (acc ++ acc')%string = (bits p acc ++ acc')%string.
Proof. induction p as [p IH|p IH|]; simpl; by rewrite ?IH. Qed.

#[local] Instance bits_text : JSONText := {| Decode := bits_Decode; Encode := bits_Encode; Float64 n := Some (n =? "0")%string |}.

#[local, program] Instance bits_text_laws : JSONTextLaws := {| printable_key _ := True; printable _ := True |}.
Next Obligation. done. Qed.
Next Obligation. intros l. split; [|done]. intros _. by apply Forall_forall. Qed.
Next Obligation. done. Qed.
Next Obligation.
  intros m _. exists (bits (encode (tree_of (JObj m))) ""), "}"%char. cbv zeta. cbn [String.append]. rewrite <- bits_app.
  split_and!; [done|done|apply bits_Decode_Encode].
Qed.

(** A REST payload of a message the store has from the Gateway. *)
Definition rest_message : object :=
  list_to_map [("id", JStr "7"); ("content", JStr "hello"); ("author", JObj (list_to_map [("id", JStr "3"); ("public_flags", JNum "64")]));
               ("mentions", JArr [JObj (list_to_map [("id", JStr "4")])])]%string.
Definition gateway_message : object :=
  list_to_map [("id", JStr "7"); ("content", JStr "hi"); ("guild_id", JStr "1"); ("author", JObj (list_to_map [("id", JStr "3"); ("flags", JNum "2")]));
               ("mentions", JArr [JObj (list_to_map [("id", JStr "4"); ("member", JObj (list_to_map [("nick", JStr "x")]))])])]%string.
Definition merged_message : object :=
  list_to_map [("id", JStr "7"); ("content", JStr "hello"); ("guild_id", JStr "1");
               ("author", JObj (list_to_map [("id", JStr "3"); ("public_flags", JNum "64"); ("flags", JNum "2")]));
               ("mentions", JArr [JObj (list_to_map [("id", JStr "4"); ("member", JObj (list_to_map [("nick", JStr "x")]))])])]%string.

Lemma rest_message_regular : regular_message rest_message.
Proof.
  assert (regular_fields rest_message) as Hf.
  { split; [intros u [= <-]; done|]. unfold regular_mentions. change (as_list (member rest_message "mentions")) with [JObj {["id" := JStr "4"]}].
    split; [apply NoDup_singleton|by constructor]. }
  split; [done|done|]. intros ref. by change (member rest_message "referenced_message") with JNull.
Qed.

#[local] Instance no_times : TimeParse := parse_written.

Lemma canonical_message_idempotent_witness :
  let i := encodeRawObject rest_message in let s0 := encodeRawObject gateway_message in let s1 := encodeRawObject merged_message in
  canonicalizeRaw entityMessage i s0 "" = Some (s1, ∅) ∧ canonicalizeRaw entityMessage i s1 "" = Some (s1, ∅).
Proof.
  cbv zeta. assert (canonicalizeRaw entityMessage (encodeRawObject rest_message) (encodeRawObject gateway_message) "" = Some (encodeRawObject merged_message, ∅)) as H.
  { vm_compute. reflexivity. }
  split; [exact H|]. eapply (canonical_message_idempotent (encodeRawObject rest_message) (encodeRawObject gateway_message)); [|exact H].
  intros o Ho. rewrite decodeRaw_encodeRaw in Ho by done. injection Ho as <-. apply rest_message_regular.
Defined.
