(* ===== verification/ShareFilter.v ===== *)
(** * What a snapshot publishes

    internal/share/filter.go, publication_privacy.go and preflight.go: the
    filter over the rows of an archive that leave it in a published snapshot,
    the visibility of a channel to everyone, the projection of a guild row, and
    the counts of the preflight. The archive is the part of its tables the
    filter reads; a Go [map] filled from a table is a [gmap], and the loop over
    such a map takes the order in which Go happens to visit its keys. *)
From S2P Require Import Prelude Decimal Errors GoText.
Local Open Scope Z_scope.

(** ** Values *)

(** A column of a row, as database/sql scans it or encoding/json decodes it into
    [any]; [CReal] is a floating-point number by its text. *)
Inductive column := CNull | CString (s : string) | CNumber (text : string) | CInteger (n : Z) | CReal (text : string) | COther.
Notation row := (gmap string column).

Definition stringValue (v : option column) : string :=
  match v with
  | Some (CString s) | Some (CNumber s) => s
  | _ => ""
  end.

(** A JSON value without a fixed type; a [float64] is given truncated. *)
Inductive json_any := JNull | JFloat (trunc : Z) | JString (s : string) | JNumber (text : string) | JOther.

Record role_payload := Role { role_id : string; role_permissions : json_any }.
Record overwrite_payload := Overwrite {
  overwrite_id : string; overwrite_type : json_any; overwrite_allow : json_any; overwrite_deny : json_any }.

(** encoding/json on the payloads the filter reads and writes: the roles of a
    guild ([None]: it does not decode), the overwrites of a channel (an inner
    [None]: the field is absent or null), and the projected guild. *)
Record published_guild := PublishedGuild {
  pg_id : string; pg_name : string; pg_icon : string; pg_roles : list (string * string) }.

Class SnapshotJSON := {
  decode_roles : string → option (list role_payload);
  decode_overwrites : string → option (option (list overwrite_payload));
  marshal_guild : published_guild → string }.

(** What was marshalled decodes to its roles: string values stay strings; a
    decoder told to [UseNumber] makes no [float64]. *)
Class SnapshotJSONLaws `{SnapshotJSON} := {
  decode_marshalled g :
    decode_roles (marshal_guild g) = Some ((λ '(id, p), Role id (JString p)) <$> pg_roles g);
  decode_numbers raw l r t : decode_roles raw = Some l → r ∈ l → role_permissions r ≠ JFloat t }.

(** ** The archive *)

Definition directMessageGuildID : string := "@me".

Record snapshotChannel := SnapshotChannel {
  ch_ID : string; ch_GuildID : string; ch_ParentID : string; ch_ThreadParentID : string; ch_Kind : string;
  ch_IsPrivateThread : bool; ch_RawJSON : string; ch_CollectionScope : string; ch_DeletedAt : string }.

(** The author of a message is a nullable column. *)
Record message_scope := MessageScope {
  ms_id : string; ms_guild : string; ms_channel : string; ms_author : option string }.
Record mention_scope := MentionScope {
  mn_guild : string; mn_channel : string; mn_type : string; mn_target : string }.

Record archive := Archive {
  guild_rows : list (string * string * string);  (** id, name, raw_json *)
  channel_rows : list snapshotChannel;
  message_rows : list message_scope;
  mention_rows : list mention_scope;
  state_scopes : list string }.

(** ** The filter *)

Record FilterOptions := Filter { PublicOnly : bool; IncludeChannelIDs : list string; ExcludeChannelIDs : list string }.

Definition stringSet (l : list string) : gset string :=
  list_to_set (List.filter nonempty (TrimSpace <$> l)).

Definition Active (o : FilterOptions) : bool :=
  PublicOnly o || negb (bool_decide (stringSet (IncludeChannelIDs o) = ∅))
  || negb (bool_decide (stringSet (ExcludeChannelIDs o) = ∅)).

(** What [publicChannel] reads of a filter. *)
Record catalog := Catalog {
  channels : gmap string snapshotChannel; guilds : gmap string string; unavailable : gset string }.

(** What it writes. *)
Record memo := Memo { publicMemo : gmap string bool; publicSeen : gset string; publicMissing : gmap string bool }.

Definition no_memo : memo := Memo ∅ ∅ ∅.
Definition memoize (id : string) (b : bool) (st : memo) : memo :=
  Memo (<[id := b]> (publicMemo st)) (publicSeen st) (publicMissing st).
Definition enter (id : string) (st : memo) : memo :=
  Memo (publicMemo st) ({[id]} ∪ publicSeen st) (publicMissing st).
Definition leave (id : string) (st : memo) : memo :=
  Memo (publicMemo st) (publicSeen st ∖ {[id]}) (publicMissing st).
Definition set_missing (id : string) (b : bool) (st : memo) : memo :=
  Memo (publicMemo st) (publicSeen st) (<[id := b]> (publicMissing st)).
Definition missing_of (id : string) (st : memo) : bool := default false (publicMissing st !! id).

Record snapshotFilter := SnapshotFilter {
  active : bool; publicOnly : bool;
  includeChannels : gset string; excludeChannels : gset string;
  allowedChannels : gset string; allowedGuilds : gset string;
  allowedMembers : gmap string (gset string); allowedMessageIDs : gset string;
  cat : catalog; visibility : memo }.

Definition channelParentID (ch : snapshotChannel) : string :=
  if nonempty (ch_ThreadParentID ch) then ch_ThreadParentID ch else ch_ParentID ch.

Definition loadGuilds (db : archive) : gmap string string :=
  foldl (λ g '(id, _, raw), <[id := raw]> g) ∅ (guild_rows db).

Definition loadChannels (db : archive) : gmap string snapshotChannel :=
  foldl (λ c ch, <[ch_ID ch := ch]> c) ∅ (channel_rows db).

(** The scopes that [like 'channel:%:unavailable'] selects, and the channel of one. *)
Definition like_unavailable (scope : string) : bool :=
  match CutPrefix (ToLower scope) "channel:" with
  | Some rest => HasSuffix rest ":unavailable"
  | None => false
  end.

Definition unavailable_id (scope : string) : option string :=
  match CutPrefix scope "channel:" with
  | None => None
  | Some rest =>
      match CutSuffix rest ":unavailable" with
      | Some id => if nonempty id && negb (Contains id ":") then Some id else None
      | None => None
      end
  end.

Definition loadUnavailableChannels (db : archive) : gset string :=
  list_to_set (omap unavailable_id (List.filter like_unavailable (state_scopes db))).

(** *** Permissions *)

Definition permissionViewChannel : Z := Z.shiftl 1 10.

Definition parsePermissionBits (v : json_any) : option Z :=
  match v with
  | JNull => Some 0
  | JFloat t => Some t
  | JString s => ParseInt s
  | JNumber s => ParseInt s
  | JOther => None
  end.

Definition isRoleOverwrite (v : json_any) : bool :=
  match v with
  | JFloat t => t =? 0
  | JNumber s => match ParseInt s with Some n => n =? 0 | None => false end
  | JString s => (s =? "0")%string || (ToLower s =? "role")%string
  | _ => false
  end.

Section Visibility.
Context {json : SnapshotJSON}.

Definition everyoneGuildPermissions (rawGuild guildID : string) : option Z :=
  match decode_roles rawGuild with
  | None => None
  | Some roles =>
      match List.find (λ r, (role_id r =? guildID)%string) roles with
      | Some r => parsePermissionBits (role_permissions r)
      | None => None
      end
  end.

Fixpoint apply_overwrites (permissions : Z) (guildID : string) (l : list overwrite_payload) : option Z :=
  match l with
  | [] => Some permissions
  | o :: l' =>
      if negb (overwrite_id o =? guildID)%string || negb (isRoleOverwrite (overwrite_type o))
      then apply_overwrites permissions guildID l'
      else match parsePermissionBits (overwrite_allow o), parsePermissionBits (overwrite_deny o) with
           | Some allow, Some deny => apply_overwrites (Z.lor (Z.ldiff permissions deny) allow) guildID l'
           | _, _ => None
           end
  end.

Definition applyEveryoneOverwrite (permissions : Z) (rawChannel guildID : string) : option Z :=
  match decode_overwrites rawChannel with
  | Some (Some l) => apply_overwrites permissions guildID l
  | _ => None
  end.

(** *** Ancestry and visibility *)

Inductive ancestry := AncestryAllowed | AncestryMissing | AncestryDenied.

(** The loop over a channel and its ancestors. *)
Fixpoint ancestry_loop (fuel : nat) (c : catalog) (seen : gset string) (id : string) : option ancestry :=
  if (id =? "")%string then Some AncestryAllowed
  else match fuel with
       | O => None
       | S k =>
           match channels c !! id with
           | None => Some AncestryMissing
           | Some a =>
               if bool_decide (id ∈ seen) || (ch_CollectionScope a =? "unknown")%string || (ch_CollectionScope a =? "")%string
               then Some AncestryMissing
               else if negb (ch_CollectionScope a =? "allowed")%string || nonempty (ch_DeletedAt a) || bool_decide (id ∈ unavailable c)
               then Some AncestryDenied
               else ancestry_loop k c ({[id]} ∪ seen) (channelParentID a)
           end
       end.

Definition depth (c : catalog) : nat := S (size (channels c)).

(** A channel that is no thread: the guild's permissions for everyone, then
    the overwrites of its category and its own. *)
Definition public_by_permissions (c : catalog) (id : string) (ch : snapshotChannel) (st : memo) : bool * memo :=
  match everyoneGuildPermissions (default "" (guilds c !! ch_GuildID ch))%string (ch_GuildID ch) with
  | None => (false, memoize id false (set_missing id true st))
  | Some permissions =>
      let parent := channels c !! ch_ParentID ch in
      let st := if nonempty (ch_ParentID ch) && bool_decide (parent = None) then set_missing id true st else st in
      let inherited := match parent with
                       | Some p => if (ch_Kind p =? "category")%string
                                   then applyEveryoneOverwrite permissions (ch_RawJSON p) (ch_GuildID ch)
                                   else Some permissions
                       | None => Some permissions
                       end in
      match inherited with
      | None => (false, memoize id false (set_missing id true st))
      | Some permissions =>
          let own := applyEveryoneOverwrite permissions (ch_RawJSON ch) (ch_GuildID ch) in
          let st := set_missing id (missing_of id st || bool_decide (own = None)) st in
          let allowed := match own with
                         | Some permissions => negb (Z.land permissions permissionViewChannel =? 0)
                         | None => false
                         end in
          (allowed, memoize id allowed st)
      end
  end.

Fixpoint publicChannel (fuel : nat) (c : catalog) (st : memo) (channelID : string) : option (bool * memo) :=
  match fuel with
  | O => None
  | S k =>
      match publicMemo st !! channelID with
      | Some cached => Some (cached, st)
      | None =>
          if bool_decide (channelID ∈ publicSeen st) then Some (false, set_missing channelID true st)
          else
            let st := enter channelID st in
            prod_map id (leave channelID) <$>
            match channels c !! channelID with
            | None => Some (false, memoize channelID false (set_missing channelID true st))
            | Some ch =>
                if ch_IsPrivateThread ch || (ch_Kind ch =? "thread_private")%string
                then Some (false, memoize channelID false st)
                else match ancestry_loop (depth c) c ∅ channelID with
                     | None => None
                     | Some AncestryMissing => Some (false, memoize channelID false (set_missing channelID true st))
                     | Some AncestryDenied => Some (false, memoize channelID false st)
                     | Some AncestryAllowed =>
                         if (ch_GuildID ch =? "")%string then Some (false, memoize channelID false (set_missing channelID true st))
                         else if HasPrefix (ch_Kind ch) "thread_" then
                           let parentID := channelParentID ch in
                           if (parentID =? "")%string then Some (false, memoize channelID false (set_missing channelID true st))
                           else match publicChannel k c st parentID with
                                | None => None
                                | Some (allowed, st) => Some (allowed, memoize channelID allowed (set_missing channelID (missing_of parentID st) st))
                                end
                         else Some (public_by_permissions c channelID ch st)
                     end
            end
      end
  end.

(** *** Building a filter *)

Definition channelAllowed (f : snapshotFilter) (st : memo) (ch : snapshotChannel) : option (bool * memo) :=
  let parentID := channelParentID ch in
  if (ch_ID ch =? "")%string then Some (false, st)
  else if bool_decide (ch_ID ch ∈ excludeChannels f) then Some (false, st)
  else if nonempty parentID && bool_decide (parentID ∈ excludeChannels f) then Some (false, st)
  else if negb (bool_decide (includeChannels f = ∅)) && bool_decide (ch_ID ch ∉ includeChannels f)
          && (negb (HasPrefix (ch_Kind ch) "thread_") || bool_decide (parentID ∉ includeChannels f))
  then Some (false, st)
  else if publicOnly f then publicChannel (depth (cat f)) (cat f) st (ch_ID ch)
  else Some (true, st).

Definition set_visibility (st : memo) (f : snapshotFilter) : snapshotFilter :=
  SnapshotFilter (active f) (publicOnly f) (includeChannels f) (excludeChannels f) (allowedChannels f) (allowedGuilds f)
    (allowedMembers f) (allowedMessageIDs f) (cat f) st.

Definition allow_channel (id : string) (ch : snapshotChannel) (f : snapshotFilter) : snapshotFilter :=
  SnapshotFilter (active f) (publicOnly f) (includeChannels f) (excludeChannels f) ({[id]} ∪ allowedChannels f)
    (if nonempty (ch_GuildID ch) then {[ch_GuildID ch]} ∪ allowedGuilds f else allowedGuilds f)
    (allowedMembers f) (allowedMessageIDs f) (cat f) (visibility f).

(** The loop over the channels, in the order the map yields its keys. *)
Fixpoint allow_channels (order : list string) (f : snapshotFilter) : option snapshotFilter :=
  match order with
  | [] => Some f
  | id :: order =>
      match channels (cat f) !! id with
      | None => allow_channels order f
      | Some ch =>
          match channelAllowed f (visibility f) ch with
          | None => None
          | Some (allowed, st) =>
              let f := set_visibility st f in
              allow_channels order (if allowed then allow_channel id ch f else f)
          end
      end
  end.

Definition allowChannelID (f : snapshotFilter) (channelID : string) : bool :=
  negb (active f) || bool_decide (channelID ∈ allowedChannels f).

Definition set_messages (members : gmap string (gset string)) (ids : gset string) (f : snapshotFilter) : snapshotFilter :=
  SnapshotFilter (active f) (publicOnly f) (includeChannels f) (excludeChannels f) (allowedChannels f) (allowedGuilds f)
    members ids (cat f) (visibility f).

(** One row of the message scan; a null author does not scan into a Go string. *)
Definition load_message (f : snapshotFilter) (m : message_scope) : err + snapshotFilter :=
  match ms_author m with
  | None => inl (EWrap "scan message share filter: " (EText "converting NULL to string is unsupported") "")
  | Some author =>
      inr (if negb (allowChannelID f (ms_channel m)) then f
           else set_messages
                  (if nonempty (ms_guild m) && nonempty author
                   then <[ms_guild m := {[author]} ∪ default ∅ (allowedMembers f !! ms_guild m)]> (allowedMembers f)
                   else allowedMembers f)
                  ({[ms_id m]} ∪ allowedMessageIDs f) f)
  end.

Fixpoint load_messages (f : snapshotFilter) (l : list message_scope) : err + snapshotFilter :=
  match l with
  | [] => inr f
  | m :: l' => match load_message f m with inl e => inl e | inr f' => load_messages f' l' end
  end.

Definition load_mention (f : snapshotFilter) (m : mention_scope) : snapshotFilter :=
  if negb (allowChannelID f (mn_channel m)) then f
  else match allowedMembers f !! mn_guild m with
       | Some members =>
           if nonempty (mn_guild m) && nonempty (mn_target m)
           then set_messages (<[mn_guild m := {[mn_target m]} ∪ members]> (allowedMembers f)) (allowedMessageIDs f) f
           else f
       | None => f
       end.

Definition remote_message (m : message_scope) : bool := negb (ms_guild m =? directMessageGuildID)%string.
Definition user_mention (m : mention_scope) : bool :=
  (mn_type m =? "user")%string && negb (mn_guild m =? directMessageGuildID)%string.

Definition loadAllowedMessages (db : archive) (f : snapshotFilter) : err + snapshotFilter :=
  match load_messages f (List.filter remote_message (message_rows db)) with
  | inl e => inl e
  | inr f => inr (foldl load_mention f (List.filter user_mention (mention_rows db)))
  end.

(** [None] is exhausted fuel, which never happens. *)
Definition newSnapshotFilter (order : list string) (db : archive) (opts : FilterOptions) : option (err + snapshotFilter) :=
  let f := SnapshotFilter (Active opts) (PublicOnly opts) (stringSet (IncludeChannelIDs opts)) (stringSet (ExcludeChannelIDs opts))
             ∅ ∅ ∅ ∅ (Catalog ∅ ∅ ∅) no_memo in
  if negb (active f) then Some (inr f)
  else
    let c := Catalog (loadChannels db) (loadGuilds db) (if publicOnly f then loadUnavailableChannels db else ∅) in
    let f := SnapshotFilter (active f) (publicOnly f) (includeChannels f) (excludeChannels f) ∅ ∅ ∅ ∅ c no_memo in
    loadAllowedMessages db <$> allow_channels order f.
End Visibility.

(** ** Selecting rows *)

Definition isLocalOnlyGuildID (guildID : string) : bool := (guildID =? directMessageGuildID)%string.

Definition local_scope (scope : string) : bool := HasPrefix scope "wiretap:" || HasPrefix scope "worker:".

Definition isDirectMessageSnapshotRow (table : string) (r : row) : bool :=
  if (table =? "guilds")%string then isLocalOnlyGuildID (stringValue (r !! "id"%string))
  else if bool_decide (table ∈ ["channels"; "members"; "messages"; "message_events"; "message_attachments"; "mention_events"]%string)
  then isLocalOnlyGuildID (stringValue (r !! "guild_id"%string))
  else if (table =? "sync_state")%string then local_scope (stringValue (r !! "scope"%string))
  else false.

Definition allowSyncState (f : snapshotFilter) (scope : string) : bool :=
  match CutPrefix scope "channel:" with
  | Some rest =>
      let '(channelID, cursor, _) := CutByte rest ":" in
      if publicOnly f && (cursor =? "archived_private_threads_after")%string then false
      else allowChannelID f channelID
  | None =>
      if local_scope scope then false
      else if HasPrefix scope "share:" then false
      else match CutPrefix scope "guild:" with
           | Some rest =>
               if HasSuffix scope ":members:last_success" then false
               else let '(guildID, _, _) := CutByte rest ":" in bool_decide (guildID ∈ allowedGuilds f)
           | None => false
           end
  end.

Definition allow (f : snapshotFilter) (table : string) (r : row) : bool :=
  let get c := stringValue (r !! c) in
  if isDirectMessageSnapshotRow table r then false
  else if negb (active f) then true
  else if (table =? "guilds")%string then bool_decide (get "id"%string ∈ allowedGuilds f)
  else if (table =? "channels")%string then allowChannelID f (get "id"%string)
  else if (table =? "members")%string
  then bool_decide (get "user_id"%string ∈ default ∅ (allowedMembers f !! get "guild_id"%string))
  else if bool_decide (table ∈ ["messages"; "message_events"]%string)
  then bool_decide (get "message_id"%string ∈ allowedMessageIDs f) || allowChannelID f (get "channel_id"%string)
  else if bool_decide (table ∈ ["message_attachments"; "mention_events"]%string) then allowChannelID f (get "channel_id"%string)
  else if (table =? "sync_state")%string then allowSyncState f (get "scope"%string)
  else true.

(** ** What the filter stands for *)

(** A channel and every ancestor it names is in collection scope, not deleted
    and available; being inductive, it also says that the ancestry ends. *)
Inductive collected (c : catalog) : nat → string → Prop :=
  | collected_root : collected c 0 ""
  | collected_under n id ch :
      id ≠ ""%string → channels c !! id = Some ch →
      ch_CollectionScope ch = "allowed"%string → ch_DeletedAt ch = ""%string → id ∉ unavailable c →
      collected c n (channelParentID ch) → collected c (S n) id.

Section Specification.
Context {json : SnapshotJSON}.

(** Everyone may view a channel that is no thread. *)
Definition everyone_views (c : catalog) (ch : snapshotChannel) : Prop :=
  ∃ base inherited own,
    everyoneGuildPermissions (default "" (guilds c !! ch_GuildID ch))%string (ch_GuildID ch) = Some base ∧
    match channels c !! ch_ParentID ch with
    | Some p => if (ch_Kind p =? "category")%string
                then applyEveryoneOverwrite base (ch_RawJSON p) (ch_GuildID ch) = Some inherited
                else inherited = base
    | None => inherited = base
    end ∧
    applyEveryoneOverwrite inherited (ch_RawJSON ch) (ch_GuildID ch) = Some own ∧
    Z.land own permissionViewChannel ≠ 0.

(** A public channel; a thread is as public as its parent. *)
Inductive public (c : catalog) : string → Prop :=
  public_intro id ch n :
    channels c !! id = Some ch → ch_IsPrivateThread ch = false → ch_Kind ch ≠ "thread_private"%string →
    collected c (S n) id → ch_GuildID ch ≠ ""%string →
    (HasPrefix (ch_Kind ch) "thread_" = false → everyone_views c ch) →
    (HasPrefix (ch_Kind ch) "thread_" = true → public c (channelParentID ch)) →
    public c id.

(** The catalog of a filter with options [opts]. *)
Definition catalog_of (db : archive) (opts : FilterOptions) : catalog :=
  Catalog (loadChannels db) (loadGuilds db) (if PublicOnly opts then loadUnavailableChannels db else ∅).

(** The channels of the archive that the options select. *)
Definition selected (db : archive) (opts : FilterOptions) (id : string) : Prop :=
  ∃ ch, channels (catalog_of db opts) !! id = Some ch ∧ id ≠ ""%string ∧
    id ∉ stringSet (ExcludeChannelIDs opts) ∧ channelParentID ch ∉ stringSet (ExcludeChannelIDs opts) ∧
    (stringSet (IncludeChannelIDs opts) = ∅ ∨ id ∈ stringSet (IncludeChannelIDs opts)
     ∨ HasPrefix (ch_Kind ch) "thread_" = true ∧ channelParentID ch ∈ stringSet (IncludeChannelIDs opts)) ∧
    (PublicOnly opts = true → public (catalog_of db opts) id).

Definition selected_guild (db : archive) (opts : FilterOptions) (guild : string) : Prop :=
  guild ≠ ""%string ∧ ∃ id ch, channels (catalog_of db opts) !! id = Some ch ∧ ch_GuildID ch = guild ∧ selected db opts id.

(** A user whose message is published. *)
Definition selected_author (db : archive) (opts : FilterOptions) (guild user : string) : Prop :=
  guild ≠ ""%string ∧ user ≠ ""%string ∧
  ∃ m, m ∈ message_rows db ∧ remote_message m = true ∧ ms_guild m = guild ∧ ms_author m = Some user ∧ selected db opts (ms_channel m).

(** A member appears when he wrote in, or is mentioned in, a selected channel
    of a guild with some published author. *)
Definition selected_member (db : archive) (opts : FilterOptions) (guild user : string) : Prop :=
  selected_author db opts guild user ∨
  user ≠ ""%string ∧ (∃ author, selected_author db opts guild author) ∧
  ∃ m, m ∈ mention_rows db ∧ user_mention m = true ∧ mn_guild m = guild ∧ mn_target m = user ∧ selected db opts (mn_channel m).

Definition selected_scope (db : archive) (opts : FilterOptions) (scope : string) : Prop :=
  match CutPrefix scope "channel:" with
  | Some rest =>
      selected db opts ((CutByte rest ":").1).1 ∧
      (PublicOnly opts = true → ((CutByte rest ":").1).2 ≠ "archived_private_threads_after"%string)
  | None =>
      ∃ rest, CutPrefix scope "guild:" = Some rest ∧ HasSuffix scope ":members:last_success" = false ∧
        selected_guild db opts ((CutByte rest ":").1).1
  end.

Definition publishable (db : archive) (opts : FilterOptions) (table : string) (r : row) : Prop :=
  let get c := stringValue (r !! c) in
  isDirectMessageSnapshotRow table r = false ∧
  if (table =? "guilds")%string then selected_guild db opts (get "id"%string)
  else if (table =? "channels")%string then selected db opts (get "id"%string)
  else if (table =? "members")%string then selected_member db opts (get "guild_id"%string) (get "user_id"%string)
  else if bool_decide (table ∈ ["messages"; "message_events"]%string)
  then selected db opts (get "channel_id"%string)
       ∨ (∃ m, m ∈ message_rows db ∧ remote_message m = true ∧ ms_id m = get "message_id"%string ∧ selected db opts (ms_channel m))
  else if bool_decide (table ∈ ["message_attachments"; "mention_events"]%string) then selected db opts (get "channel_id"%string)
  else if (table =? "sync_state")%string then selected_scope db opts (get "scope"%string)
  else True.
End Specification.

(** ** Ancestry *)

Lemma collected_fun c n m id : collected c n id → collected c m id → n = m.
Proof.
  intros H. revert m. induction H as [|n id ch Hne Hl Hs Hd Hu H IH]; intros m Hm; inversion Hm; subst; try done.
  simplify_eq. f_equal. auto.
Qed.

(** The ancestors of a collected channel are as many channels of the catalog. *)
Lemma collected_chain c n id :
  collected c n id → ∃ l, length l = n ∧ NoDup l ∧ ∀ x, x ∈ l → x ∈ dom (channels c) ∧ ∃ m, (m ≤ n)%nat ∧ collected c m x.
Proof.
  induction 1 as [|n id ch Hne Hl Hs Hd Hu H (l & Hn & Hnd & Hin)]; [exists []; split_and!; [done|constructor|set_solver]|].
  exists (id :: l). split_and!; [simpl; lia| |].
  - constructor; [|done]. intros (_ & m & Hm & Hc)%Hin.
    assert (collected c (S n) id) as H' by (by econstructor).
    pose proof (collected_fun _ _ _ _ Hc H'). lia.
  - intros x [->|Hx]%elem_of_cons.
    + split; [by eapply elem_of_dom_2|]. exists (S n). split; [done|]. by econstructor.
    + destruct (Hin x Hx) as (? & m & ? & ?). eauto with lia.
Qed.

Lemma collected_bound c n id : collected c n id → (n ≤ size (channels c))%nat.
Proof.
  intros (l & <- & Hnd & Hin)%collected_chain. rewrite <- size_dom, <- (size_list_to_set (C := gset string) l Hnd).
  apply subseteq_size. intros x Hx%elem_of_list_to_set. by apply Hin.
Qed.

Lemma ancestry_loop_sound c k seen id : ancestry_loop k c seen id = Some AncestryAllowed → ∃ n, collected c n id.
Proof.
  revert seen id. induction k as [|k IH]; intros seen id; simpl; destruct (String.eqb_spec id "") as [->|Hne]; try done.
  1, 2: by exists 0%nat; constructor.
  destruct (channels c !! id) as [a|] eqn:Ha; [|done].
  repeat case_match; try done. propify. intros [n Hn]%IH. exists (S n).
  econstructor; eauto. by apply nonempty_false.
Qed.

Lemma ancestry_loop_complete c k seen id n :
  collected c n id → (n ≤ k)%nat → (∀ x, x ∈ seen → ∃ m, (n < m)%nat ∧ collected c m x) →
  ancestry_loop k c seen id = Some AncestryAllowed.
Proof.
  intros H. revert k seen. induction H as [|n id ch Hne Hl Hs Hd Hu H IH]; intros k seen Hk Hseen.
  { by destruct k. }
  destruct k as [|k]; [lia|]. simpl. apply String.eqb_neq in Hne as Hne'. rewrite Hne', Hl, Hs, Hd. simpl.
  assert (collected c (S n) id) as Hid by (by econstructor).
  rewrite !bool_decide_eq_false_2; [|done|].
  - simpl. apply IH; [lia|]. intros x [->%elem_of_singleton|Hx]%elem_of_union; [exists (S n); auto with lia|].
    destruct (Hseen x Hx) as (m & ? & ?). exists m. auto with lia.
  - intros (m & Hm & Hc)%Hseen. pose proof (collected_fun _ _ _ _ Hc Hid). lia.
Qed.

Lemma ancestry_loop_total c k seen id :
  seen ⊆ dom (channels c) → (size (channels c) < size seen + k)%nat → ∃ v, ancestry_loop k c seen id = Some v.
Proof.
  revert seen id. induction k as [|k IH]; intros seen id Hs Hk.
  { apply subseteq_size in Hs. rewrite size_dom in Hs. lia. }
  simpl. destruct (id =? "")%string; [by eexists|].
  destruct (channels c !! id) as [a|] eqn:Ha; [|by eexists]. repeat case_match; try by eexists.
  propify. apply IH.
  - apply union_subseteq. split; [|done]. apply singleton_subseteq_l. by eapply elem_of_dom_2.
  - rewrite size_union, size_singleton by set_solver. lia.
Qed.

Lemma ancestry_loop_spec c id :
  ∃ v, ancestry_loop (depth c) c ∅ id = Some v ∧ (v = AncestryAllowed ↔ ∃ n, collected c n id).
Proof.
  destruct (ancestry_loop_total c (depth c) ∅ id) as [v Hv]; [set_solver|unfold depth; rewrite size_empty; lia|].
  exists v. split; [done|]. split; [intros ->; by eapply ancestry_loop_sound|].
  intros [n Hn]. pose proof (collected_bound c n id Hn).
  rewrite (ancestry_loop_complete c (depth c) ∅ id n Hn) in Hv; [by injection Hv|unfold depth; lia|set_solver].
Qed.

(** ** Visibility *)

Section VisibilityLemmas.
Context {json : SnapshotJSON} (c : catalog).

Definition memo_sound (st : memo) : Prop := ∀ x b, publicMemo st !! x = Some b → b = true ↔ public c x.

(** The channels being visited lie strictly below [id]. *)
Definition below (st : memo) (id : string) : Prop :=
  ∀ x, x ∈ publicSeen st → ∃ n m, collected c n id ∧ collected c m x ∧ (n < m)%nat.

Lemma sound_memoize st id b : memo_sound st → (b = true ↔ public c id) → memo_sound (memoize id b st).
Proof.
  intros Hs Hb x b'. unfold memoize. simpl. destruct (decide (id = x)) as [->|].
  - rewrite lookup_insert_eq. by intros [= <-].
  - rewrite lookup_insert_ne by done. apply Hs.
Qed.

Lemma leave_enter st id : id ∉ publicSeen st → publicSeen st = ({[id]} ∪ publicSeen st) ∖ {[id]}.
Proof. set_solver. Qed.

Lemma permissions_spec id ch st b st' :
  public_by_permissions c id ch st = (b, st') →
  publicMemo st' = <[id := b]> (publicMemo st) ∧ publicSeen st' = publicSeen st ∧ (b = true ↔ everyone_views c ch).
Proof.
  unfold public_by_permissions, everyone_views.
  destruct (everyoneGuildPermissions _ _) as [base|]; [|intros [= <- <-]; split_and!; [done..|naive_solver]].
  set (st0 := if nonempty _ && _ then _ else st).
  assert (publicMemo st0 = publicMemo st ∧ publicSeen st0 = publicSeen st) as [Hm Hs] by (unfold st0; case_match; done).
  clearbody st0. set (inh := match channels c !! ch_ParentID ch with Some _ => _ | None => _ end).
  destruct inh as [perms|] eqn:Hinh.
  - intros [= <- <-]. simpl. rewrite Hm, Hs. split_and!; [done..|].
    destruct (applyEveryoneOverwrite perms _ _) as [own|] eqn:Hown.
    + rewrite negb_true_iff, Z.eqb_neq. split.
      * intros. exists base, perms, own. split_and!; [done| |done..]. unfold inh in Hinh. repeat case_match; by simplify_eq.
      * intros (base' & inh' & own' & [= <-] & Hi & Ho & Hv). assert (inh' = perms) as ->; [|congruence].
        unfold inh in Hinh. repeat case_match; by simplify_eq.
    + split; [done|]. intros (base' & inh' & own' & [= <-] & Hi & Ho & Hv). assert (inh' = perms) as ->; [|congruence].
      unfold inh in Hinh. repeat case_match; by simplify_eq.
  - intros [= <- <-]. simpl. rewrite Hm, Hs. split_and!; [done..|]. split; [done|].
    intros (base' & inh' & own' & [= <-] & Hi & _). unfold inh in Hinh. repeat case_match; by simplify_eq.
Qed.

Definition outcome (k : nat) (st : memo) (id : string) : Prop :=
  ∃ b st', publicChannel k c st id = Some (b, st') ∧ memo_sound st' ∧ publicSeen st' = publicSeen st ∧ (b = true ↔ public c id).

(** What is left to decide once the channel is known and its ancestry checked. *)
Lemma public_known id ch :
  channels c !! id = Some ch → ch_IsPrivateThread ch = false → ch_Kind ch ≠ "thread_private"%string →
  (∃ n, collected c (S n) id) → ch_GuildID ch ≠ ""%string →
  public c id ↔ if HasPrefix (ch_Kind ch) "thread_" then public c (channelParentID ch) else everyone_views c ch.
Proof.
  intros Hl Hp Hk [n Hn] Hg. split.
  - inversion 1; simplify_eq. destruct (HasPrefix _ _); auto.
  - intros H. econstructor; [done..| |]; intros E; by rewrite E in H.
Qed.

Lemma collected_channel n id ch : channels c !! id = Some ch → collected c n id → id ≠ ""%string → ∃ m, n = S m ∧ collected c m (channelParentID ch).
Proof. intros Hl H Hne. inversion H; simplify_eq. eauto. Qed.

Lemma outcome_settle st st1 st2 id b :
  memo_sound st1 → id ∉ publicSeen st → publicMemo st2 = <[id := b]> (publicMemo st1) →
  publicSeen st2 = {[id]} ∪ publicSeen st → (b = true ↔ public c id) →
  memo_sound (leave id st2) ∧ publicSeen (leave id st2) = publicSeen st ∧ (b = true ↔ public c id).
Proof.
  intros Hs Hid Hm Hseen Hb. split_and!; [|unfold leave; simpl; rewrite Hseen; set_solver|done].
  intros x b'. unfold leave. simpl. rewrite Hm. destruct (decide (id = x)) as [->|].
  - rewrite lookup_insert_eq. by intros [= <-].
  - rewrite lookup_insert_ne by done. apply Hs.
Qed.

Lemma not_public id : ¬ public c id → false = true ↔ public c id.
Proof. naive_solver. Qed.

Lemma publicChannel_spec k st id :
  (1 ≤ k)%nat → (∀ n, collected c n id → n ≤ k)%nat → id ≠ ""%string → memo_sound st → below st id → outcome k st id.
Proof.
  revert st id. induction k as [|k IH]; [lia|]; intros st id _ Hk Hid Hs Hb. unfold outcome. cbn [publicChannel].
  destruct (publicMemo st !! id) as [b|] eqn:Hmemo; [by exists b, st; eauto|].
  destruct (bool_decide (id ∈ publicSeen st)) eqn:Hseen; propify.
  { destruct (Hb id Hseen) as (n & m & Hn & Hm & ?). pose proof (collected_fun _ _ _ _ Hn Hm). lia. }
  assert (∀ st1, publicMemo st1 = <[id := false]> (publicMemo st) → publicSeen st1 = {[id]} ∪ publicSeen st → ¬ public c id →
          ∃ b st', prod_map (λ x, x) (leave id) <$> Some (false, st1) = Some (b, st') ∧ memo_sound st' ∧ publicSeen st' = publicSeen st ∧ (b = true ↔ public c id)) as Hno.
  { intros st1 Hm1 Hs1 Hnp. exists false, (leave id st1). split; [done|]. by eapply outcome_settle, not_public. }
  change (prod_map Datatypes.id (leave id)) with (prod_map (λ x : bool, x) (leave id)).
  destruct (channels c !! id) as [ch|] eqn:Hch; [|apply Hno; [done..|inversion 1; naive_solver]].
  destruct (ch_IsPrivateThread ch || _) eqn:Hpriv; [apply Hno; [done..|]|].
  { inversion 1 as [? ch2 n Hl Hp Hkd]; subst. rewrite Hch in Hl. injection Hl as <-. rewrite Hp in Hpriv. by apply String.eqb_eq in Hpriv. }
  apply orb_false_iff in Hpriv as [Hpriv Hkind%String.eqb_neq].
  destruct (ancestry_loop_spec c id) as (v & -> & Hv).
  destruct v; [|apply Hno; [done..|]; intros Hpub; inversion Hpub as [? ? n ? ? ? Hn]; by discriminate (proj2 Hv (ex_intro _ (S n) Hn))..].
  destruct Hv as [Hv _]. destruct (Hv eq_refl) as [n Hn]. clear Hv.
  destruct (String.eqb_spec (ch_GuildID ch) "") as [Hg|Hg]; [by apply Hno; [done..|]; inversion 1; simplify_eq|].
  destruct (collected_channel n id ch Hch Hn Hid) as (m & -> & Hm).
  pose proof (public_known id ch Hch Hpriv Hkind (ex_intro _ m Hn) Hg) as Hknown.
  destruct (HasPrefix (ch_Kind ch) "thread_").
  - destruct (String.eqb_spec (channelParentID ch) "") as [Hp|Hp].
    { apply Hno; [done..|]. rewrite Hknown, Hp. inversion 1 as [? ? ? ? ? ? Hc]. by inversion Hc. }
    destruct (IH (enter id st) (channelParentID ch)) as (b & st1 & -> & Hs1 & Hseen1 & Hb1); [| |done|done| |].
    + destruct m; [by inversion Hm|]. apply Hk in Hn. lia.
    + intros m' Hm'. pose proof (collected_fun _ _ _ _ Hm Hm'). apply Hk in Hn. lia.
    + intros x [->%elem_of_singleton|Hx]%elem_of_union; [exists m, (S m); auto with lia|].
      destruct (Hb x Hx) as (n' & m' & Hn' & Hm' & ?). pose proof (collected_fun _ _ _ _ Hn Hn'). exists m, m'. auto with lia.
    + eexists b, _. split; [done|]. eapply outcome_settle; [apply Hs1|done|done|apply Hseen1|]. by rewrite Hknown.
  - destruct (public_by_permissions c id ch (enter id st)) as [b st1] eqn:Hperm.
    destruct (permissions_spec _ _ _ _ _ Hperm) as (Hm1 & Hs1 & Hb1).
    eexists b, _. split; [done|]. eapply outcome_settle; [apply Hs|done|done|done|]. by rewrite Hknown.
Qed.
End VisibilityLemmas.

(** ** The filter that is built *)

Lemma stringSet_nonempty l : ""%string ∉ stringSet l.
Proof. unfold stringSet. rewrite elem_of_list_to_set, elem_of_lfilter. by intros [_ ?]. Qed.

Lemma loadChannels_id db id ch : loadChannels db !! id = Some ch → ch_ID ch = id.
Proof.
  unfold loadChannels. assert (∀ c : gmap string snapshotChannel, (∀ i x, c !! i = Some x → ch_ID x = i) →
    ∀ i x, foldl (λ c ch, <[ch_ID ch := ch]> c) c (channel_rows db) !! i = Some x → ch_ID x = i) as H.
  { induction (channel_rows db) as [|y l IH]; intros c Hc; simpl; [done|]. apply IH. intros i x.
    destruct (decide (ch_ID y = i)) as [<-|]; [rewrite lookup_insert_eq; by intros [= <-]|rewrite lookup_insert_ne by done; apply Hc]. }
  by apply H.
Qed.

Section FilterLemmas.
Context {json : SnapshotJSON}.

(** What the configuration of a filter says of a channel. *)
Definition chosen (f : snapshotFilter) (id : string) (ch : snapshotChannel) : Prop :=
  id ≠ ""%string ∧ id ∉ excludeChannels f ∧ (channelParentID ch = ""%string ∨ channelParentID ch ∉ excludeChannels f) ∧
  (includeChannels f = ∅ ∨ id ∈ includeChannels f ∨ HasPrefix (ch_Kind ch) "thread_" = true ∧ channelParentID ch ∈ includeChannels f) ∧
  (publicOnly f = true → public (cat f) id).

Definition same_config (f g : snapshotFilter) : Prop :=
  active g = active f ∧ publicOnly g = publicOnly f ∧ includeChannels g = includeChannels f ∧
  excludeChannels g = excludeChannels f ∧ cat g = cat f.

Lemma same_config_refl f : same_config f f.
Proof. done. Qed.

Lemma same_config_trans f g h : same_config f g → same_config g h → same_config f h.
Proof. unfold same_config. intros; destruct_and!. split_and!; congruence. Qed.

Lemma chosen_same f g id ch : same_config f g → chosen g id ch ↔ chosen f id ch.
Proof. unfold same_config, chosen. intros (_ & -> & -> & -> & ->). done. Qed.

Definition idle (f : snapshotFilter) : Prop :=
  memo_sound (cat f) (visibility f) ∧ publicSeen (visibility f) = ∅ ∧ ∀ id ch, channels (cat f) !! id = Some ch → ch_ID ch = id.

Lemma channelAllowed_spec f id ch :
  idle f → channels (cat f) !! id = Some ch →
  ∃ b st, channelAllowed f (visibility f) ch = Some (b, st) ∧ memo_sound (cat f) st ∧ publicSeen st = ∅ ∧ (b = true ↔ chosen f id ch).
Proof.
  intros (Hs & Hseen & Hid) Hch. unfold channelAllowed, chosen. rewrite (Hid id ch Hch).
  assert (∀ P : Prop, ¬ P → ∃ b st, Some (false, visibility f) = Some (b, st) ∧ memo_sound (cat f) st ∧ publicSeen st = ∅ ∧ (b = true ↔ P)) as Hno.
  { intros P HP. exists false, (visibility f). naive_solver. }
  destruct (String.eqb_spec id "") as [->|Hne]; [apply Hno; naive_solver|].
  destruct (bool_decide (id ∈ excludeChannels f)) eqn:Hex; propify; [apply Hno; naive_solver|].
  destruct (nonempty (channelParentID ch) && _) eqn:Hpar.
  { apply Hno. propify. apply nonempty_spec in H. naive_solver. }
  assert (channelParentID ch = ""%string ∨ channelParentID ch ∉ excludeChannels f) as Hparent.
  { propify. destruct Hpar as [?%nonempty_false|?%bool_decide_eq_false]; auto. }
  set (inc := negb (bool_decide (includeChannels f = ∅)) && bool_decide (id ∉ includeChannels f)
              && (negb (HasPrefix (ch_Kind ch) "thread_") || bool_decide (channelParentID ch ∉ includeChannels f))).
  assert (inc = false ↔ (includeChannels f = ∅ ∨ id ∈ includeChannels f ∨ HasPrefix (ch_Kind ch) "thread_" = true ∧ channelParentID ch ∈ includeChannels f)) as Hinc.
  { unfold inc. rewrite !andb_false_iff, orb_false_iff, !negb_false_iff, !bool_decide_eq_true, !bool_decide_eq_false.
    split; [|naive_solver]. intros [[?|?]|[? ?]]; [auto|right; left; by apply dec_stable|right; right; split; [done|by apply dec_stable]]. }
  destruct inc; [apply Hno; naive_solver|]. destruct Hinc as [Hinc _]. specialize (Hinc eq_refl).
  destruct (publicOnly f) eqn:Hp; [|exists true, (visibility f); naive_solver].
  destruct (publicChannel_spec (cat f) (depth (cat f)) (visibility f) id) as (b & st & E & Hs' & Hseen' & Hb);
    [unfold depth; lia| |done|done|intros x; rewrite Hseen; set_solver|].
  - intros n Hn%collected_bound. unfold depth. lia.
  - exists b, st. rewrite Hseen in Hseen'. split_and!; naive_solver.
Qed.

Lemma allow_channels_spec order f :
  idle f →
  ∃ f', allow_channels order f = Some f' ∧ same_config f f' ∧ allowedMembers f' = allowedMembers f ∧ allowedMessageIDs f' = allowedMessageIDs f ∧
    (∀ id, id ∈ allowedChannels f' ↔ id ∈ allowedChannels f ∨ id ∈ order ∧ ∃ ch, channels (cat f) !! id = Some ch ∧ chosen f id ch) ∧
    (∀ g, g ∈ allowedGuilds f' ↔ g ∈ allowedGuilds f ∨ g ≠ ""%string ∧ ∃ id ch, id ∈ order ∧ channels (cat f) !! id = Some ch ∧ ch_GuildID ch = g ∧ chosen f id ch).
Proof.
  revert f. induction order as [|id order IH]; intros f Hidle; simpl.
  { exists f. split_and!; try done; intros; set_solver. }
  destruct (channels (cat f) !! id) as [ch|] eqn:Hch.
  - destruct (channelAllowed_spec f id ch Hidle Hch) as (b & st & -> & Hs & Hseen & Hb).
    set (f1 := if b then allow_channel id ch (set_visibility st f) else set_visibility st f).
    assert (same_config f f1) as Hsame by (unfold f1; by destruct b).
    destruct (IH f1) as (f' & -> & Hsame' & Hm & Hi & Hc & Hg).
    { destruct Hidle as (_ & _ & Hid). unfold f1. destruct b; split_and!; done. }
    exists f'. split_and!; [done|by eapply same_config_trans|rewrite Hm; unfold f1; by destruct b|rewrite Hi; unfold f1; by destruct b| |].
    + intros x. rewrite Hc. setoid_rewrite (chosen_same f f1 _ _ Hsame). destruct Hsame as (_ & _ & _ & _ & ->).
      assert (x ∈ allowedChannels f1 ↔ x ∈ allowedChannels f ∨ x = id ∧ chosen f id ch) as ->; [|set_solver].
      unfold f1. destruct b; simpl; [set_solver|]. naive_solver.
    + intros g. rewrite Hg. setoid_rewrite (chosen_same f f1 _ _ Hsame). destruct Hsame as (_ & _ & _ & _ & ->).
      assert (g ∈ allowedGuilds f1 ↔ g ∈ allowedGuilds f ∨ g ≠ ""%string ∧ ch_GuildID ch = g ∧ chosen f id ch) as ->.
      { unfold f1. destruct b; simpl; [|naive_solver]. destruct (nonempty (ch_GuildID ch)) eqn:E.
        - apply nonempty_spec in E. set_solver.
        - apply nonempty_false in E. naive_solver. }
      clear -Hch. set_solver.
  - destruct (IH f Hidle) as (f' & -> & Hsame' & Hm & Hi & Hc & Hg). exists f'. split_and!; try done.
    + intros x. rewrite Hc. clear -Hch. set_solver.
    + intros g. rewrite Hg. clear -Hch. set_solver.
Qed.

(** *** Authors and mentions *)

Definition member (f : snapshotFilter) (guild user : string) : Prop := user ∈ default ∅ (allowedMembers f !! guild).
Definition known (f : snapshotFilter) (guild : string) : Prop := is_Some (allowedMembers f !! guild).

(** [g] differs from [f] by members and message ids only. *)
Definition same_channels (f g : snapshotFilter) : Prop :=
  same_config f g ∧ allowedChannels g = allowedChannels f ∧ allowedGuilds g = allowedGuilds f.

Lemma same_channels_trans f g h : same_channels f g → same_channels g h → same_channels f h.
Proof. intros (? & ? & ?) (? & ? & ?). split_and!; [by eapply same_config_trans|congruence..]. Qed.

Lemma same_allow f g c : same_channels f g → allowChannelID g c = allowChannelID f c.
Proof. unfold allowChannelID. intros ((-> & _) & -> & _). done. Qed.

(** A published message of a named guild shows its author. *)
Definition shows (f : snapshotFilter) (m : message_scope) (guild user : string) : Prop :=
  allowChannelID f (ms_channel m) = true ∧ ms_guild m = guild ∧ ms_author m = Some user ∧ guild ≠ ""%string ∧ user ≠ ""%string.

Lemma load_message_spec f m f' :
  load_message f m = inr f' →
  same_channels f f' ∧
  (∀ id, id ∈ allowedMessageIDs f' ↔ id ∈ allowedMessageIDs f ∨ ms_id m = id ∧ allowChannelID f (ms_channel m) = true) ∧
  (∀ g u, member f' g u ↔ member f g u ∨ shows f m g u) ∧ (∀ g, known f' g ↔ known f g ∨ ∃ u, shows f m g u).
Proof.
  unfold load_message, member, known, shows. destruct (ms_author m) as [author|]; [|done]. intros [= <-].
  destruct (allowChannelID f (ms_channel m)); simpl; [|split_and!; try done; intros; naive_solver].
  destruct (nonempty (ms_guild m) && nonempty author) eqn:E; simpl.
  - propify. match goal with H1 : nonempty _ = true, H2 : nonempty _ = true |- _ => apply nonempty_spec in H1, H2 end.
    split_and!; try done; [set_solver| |].
    + intros g u. destruct (decide (ms_guild m = g)) as [<-|]; [rewrite lookup_insert_eq|rewrite lookup_insert_ne by done]; set_solver.
    + intros g. destruct (decide (ms_guild m = g)) as [<-|]; [rewrite lookup_insert_eq|rewrite lookup_insert_ne by done]; naive_solver.
  - assert (∀ g u, ¬ (ms_guild m = g ∧ Some author = Some u ∧ g ≠ ""%string ∧ u ≠ ""%string)) as Hno.
    { intros g u (<- & [= <-] & ? & ?). propify. destruct E as [E|E]; apply nonempty_false in E; done. }
    split_and!; try done; intros; [set_solver|naive_solver..].
Qed.

Lemma load_messages_spec l f f' :
  load_messages f l = inr f' →
  same_channels f f' ∧
  (∀ id, id ∈ allowedMessageIDs f' ↔ id ∈ allowedMessageIDs f ∨ ∃ m, m ∈ l ∧ ms_id m = id ∧ allowChannelID f (ms_channel m) = true) ∧
  (∀ g u, member f' g u ↔ member f g u ∨ ∃ m, m ∈ l ∧ shows f m g u) ∧
  (∀ g, known f' g ↔ known f g ∨ ∃ m, m ∈ l ∧ ∃ u, shows f m g u).
Proof.
  revert f. induction l as [|m l IH]; intros f; simpl.
  { intros [= <-]. split_and!; try done; intros; rewrite ex_elem_of_nil; tauto. }
  destruct (load_message f m) as [|f1] eqn:E; [done|]. intros H.
  destruct (load_message_spec f m f1 E) as (Hc1 & Hi1 & Hm1 & Hk1). destruct (IH f1 H) as (Hc & Hi & Hm & Hk).
  unfold shows in *. setoid_rewrite (same_allow f f1 _ Hc1) in Hi. setoid_rewrite (same_allow f f1 _ Hc1) in Hm. setoid_rewrite (same_allow f f1 _ Hc1) in Hk.
  split_and!; [by eapply same_channels_trans| | |].
  - intros id. rewrite Hi, Hi1, ex_elem_of_cons. tauto.
  - intros g u. rewrite Hm, Hm1, ex_elem_of_cons. tauto.
  - intros g. rewrite Hk, Hk1, ex_elem_of_cons. tauto.
Qed.

Lemma load_messages_error f l :
  (∃ f', load_messages f l = inr f' ∧ ∀ m, m ∈ l → ms_author m ≠ None) ∨
  (∃ e m, load_messages f l = inl e ∧ m ∈ l ∧ ms_author m = None).
Proof.
  revert f. induction l as [|m l IH]; intros f; simpl; [left; eexists; split; [done|set_solver]|].
  unfold load_message. destruct (ms_author m) as [a|] eqn:E.
  - match goal with |- context [load_messages ?g l] => destruct (IH g) as [(f' & -> & ?)|(e & x & -> & ? & ?)] end;
      [left; exists f'; split; [done|]; intros x [->|?]%elem_of_cons; naive_solver|right; exists e, x; set_solver].
  - right. eexists _, m. split; [done|]. set_solver.
Qed.

Definition mentions (f : snapshotFilter) (m : mention_scope) (guild user : string) : Prop :=
  allowChannelID f (mn_channel m) = true ∧ mn_guild m = guild ∧ mn_target m = user ∧ user ≠ ""%string.

Lemma load_mention_spec f m :
  ¬ known f ""%string →
  same_channels f (load_mention f m) ∧ allowedMessageIDs (load_mention f m) = allowedMessageIDs f ∧
  (∀ g u, member (load_mention f m) g u ↔ member f g u ∨ known f g ∧ mentions f m g u) ∧ (∀ g, known (load_mention f m) g ↔ known f g).
Proof.
  intros Hnone. unfold load_mention, member, known, mentions in *.
  destruct (allowChannelID f (mn_channel m)); simpl; [|split_and!; try done; intros; naive_solver].
  destruct (allowedMembers f !! mn_guild m) as [s|] eqn:Es.
  - assert (mn_guild m ≠ ""%string) as Hg by (intros E; apply Hnone; rewrite <- E; eauto).
    destruct (nonempty (mn_guild m) && nonempty (mn_target m)) eqn:E; simpl.
    + apply andb_true_iff in E as [_ Ht%nonempty_spec]. split_and!; try done.
      * intros g u. destruct (decide (mn_guild m = g)) as [<-|]; [rewrite lookup_insert_eq, Es|rewrite lookup_insert_ne by done]; set_solver.
      * intros g. destruct (decide (mn_guild m = g)) as [<-|]; [rewrite lookup_insert_eq, Es|rewrite lookup_insert_ne by done]; naive_solver.
    + apply andb_false_iff in E as [E%nonempty_false|E%nonempty_false]; split_and!; try done; intros; naive_solver.
  - split_and!; try done. intros g u. split; [auto|]. intros [?|([x Hx] & _ & <- & _)]; [done|congruence].
Qed.

Lemma load_mentions_spec l f :
  ¬ known f ""%string →
  let f' := foldl load_mention f l in
  same_channels f f' ∧ allowedMessageIDs f' = allowedMessageIDs f ∧
  (∀ g u, member f' g u ↔ member f g u ∨ known f g ∧ ∃ m, m ∈ l ∧ mentions f m g u).
Proof.
  revert f. induction l as [|m l IH]; intros f Hnone; simpl; [split_and!; try done; intros; rewrite ex_elem_of_nil; tauto|].
  destruct (load_mention_spec f m Hnone) as (Hc1 & Hi1 & Hm1 & Hk1).
  destruct (IH (load_mention f m)) as (Hc & Hi & Hm); [by rewrite Hk1|].
  unfold mentions in *. setoid_rewrite (same_allow _ _ _ Hc1) in Hm.
  split_and!; [by eapply same_channels_trans|congruence|]. intros g u. rewrite Hm, Hm1, Hk1, ex_elem_of_cons. tauto.
Qed.
End FilterLemmas.

Section FilterSpec.
Context {json : SnapshotJSON}.

(** The loop over the channel map visits every key. *)
Definition visits (order : list string) (db : archive) : Prop :=
  ∀ id, id ∈ order ↔ is_Some (loadChannels db !! id).

Definition initial (db : archive) (opts : FilterOptions) : snapshotFilter :=
  SnapshotFilter true (PublicOnly opts) (stringSet (IncludeChannelIDs opts)) (stringSet (ExcludeChannelIDs opts))
    ∅ ∅ ∅ ∅ (catalog_of db opts) no_memo.

Lemma initial_idle db opts : idle (initial db opts).
Proof. split_and!; [by intros x b|done|apply loadChannels_id]. Qed.

Lemma chosen_initial db opts id :
  selected db opts id ↔ ∃ ch, channels (catalog_of db opts) !! id = Some ch ∧ chosen (initial db opts) id ch.
Proof.
  unfold selected, chosen. simpl. pose proof (stringSet_nonempty (ExcludeChannelIDs opts)) as Hx.
  assert (∀ p, (p = ""%string ∨ p ∉ stringSet (ExcludeChannelIDs opts)) ↔ p ∉ stringSet (ExcludeChannelIDs opts)) as Hp.
  { intros p. split; [intros [->|?]; done|auto]. }
  setoid_rewrite Hp. naive_solver.
Qed.

Lemma newSnapshotFilter_active order db opts :
  Active opts = true → newSnapshotFilter order db opts = loadAllowedMessages db <$> allow_channels order (initial db opts).
Proof. unfold newSnapshotFilter, initial, catalog_of. intros ->. done. Qed.

Record describes (db : archive) (opts : FilterOptions) (f : snapshotFilter) : Prop := {
  ds_active : active f = true;
  ds_public : publicOnly f = PublicOnly opts;
  ds_channels id : id ∈ allowedChannels f ↔ selected db opts id;
  ds_guilds g : g ∈ allowedGuilds f ↔ selected_guild db opts g;
  ds_messages id : id ∈ allowedMessageIDs f ↔ ∃ m, m ∈ message_rows db ∧ remote_message m = true ∧ ms_id m = id ∧ selected db opts (ms_channel m);
  ds_members g u : member f g u ↔ selected_member db opts g u }.

Lemma allowed_channels db opts order :
  visits order db →
  ∃ f, allow_channels order (initial db opts) = Some f ∧ same_config (initial db opts) f ∧ allowedMembers f = ∅ ∧ allowedMessageIDs f = ∅ ∧
    (∀ id, allowChannelID f id = true ↔ selected db opts id) ∧ (∀ id, id ∈ allowedChannels f ↔ selected db opts id) ∧
    (∀ g, g ∈ allowedGuilds f ↔ selected_guild db opts g).
Proof.
  intros Hv. destruct (allow_channels_spec order (initial db opts) (initial_idle db opts)) as (f & -> & Hc & Hm & Hi & Hch & Hg).
  assert (∀ id, id ∈ allowedChannels f ↔ selected db opts id) as Hsel.
  { intros id. rewrite Hch, chosen_initial. simpl. split.
    - intros [?%elem_of_empty|[_ ?]]; done.
    - intros (ch & ? & ?). right. split; [apply Hv; eauto|eauto]. }
  exists f. split_and!; [done|apply Hc..|done|done| |done|].
  - intros id. unfold allowChannelID. destruct Hc as (-> & _). simpl. by rewrite bool_decide_eq_true.
  - intros g. rewrite Hg. unfold selected_guild. simpl. split.
    + intros [?%elem_of_empty|(? & id & ch & _ & ? & ? & ?)]; [done|]. split; [done|]. exists id, ch. split_and!; [done..|].
      apply chosen_initial. eauto.
    + intros (? & id & ch & Hl & ? & (ch' & Hl' & ?)%chosen_initial). simpl in Hl'. simplify_eq. right. split; [done|]. exists id, ch.
      split_and!; [apply Hv|..]; eauto.
Qed.

Lemma newSnapshotFilter_describes order db opts f :
  Active opts = true → visits order db → newSnapshotFilter order db opts = Some (inr f) → describes db opts f.
Proof.
  intros Ha Hv. rewrite newSnapshotFilter_active by done.
  destruct (allowed_channels db opts order Hv) as (f1 & -> & Hc & Hm & Hi & Hallow & Hch & Hg). simpl.
  unfold loadAllowedMessages. destruct (load_messages f1 _) as [|f2] eqn:E2; intros [= <-].
  destruct (load_messages_spec _ _ _ E2) as (Hs2 & Hi2 & Hm2 & Hk2).
  assert (∀ g u, member f2 g u ↔ selected_author db opts g u) as Hauthor.
  { intros g u. rewrite Hm2. unfold member, selected_author, shows. rewrite Hm, lookup_empty. simpl.
    setoid_rewrite elem_of_lfilter. setoid_rewrite Hallow. set_solver. }
  assert (∀ g, known f2 g ↔ ∃ u, selected_author db opts g u) as Hknown.
  { intros g. setoid_rewrite <- Hauthor. rewrite Hk2. setoid_rewrite Hm2. unfold member, known. rewrite Hm, lookup_empty. simpl. split.
    - intros [[? ?]|(m & ? & u & ?)]; [done|]. exists u. eauto.
    - intros (u & [?%elem_of_empty|(m & ? & ?)]); [done|eauto]. }
  destruct (load_mentions_spec (List.filter user_mention (mention_rows db)) f2) as (Hs3 & Hi3 & Hm3).
  { rewrite Hknown. by intros (u & ? & _). }
  pose proof (same_channels_trans _ _ _ Hs2 Hs3) as ((Ha3 & Hp3 & _) & Hc3 & Hg3). destruct Hc as (Ha1 & Hp1 & _).
  split.
  - by rewrite Ha3, Ha1.
  - by rewrite Hp3, Hp1.
  - intros id. rewrite Hc3. apply Hch.
  - intros g. rewrite Hg3. apply Hg.
  - intros id. rewrite Hi3, Hi2, Hi. setoid_rewrite elem_of_lfilter. setoid_rewrite Hallow. set_solver.
  - intros g u. rewrite Hm3, Hauthor, Hknown. unfold selected_member, mentions. setoid_rewrite elem_of_lfilter.
    setoid_rewrite (same_allow _ _ _ Hs2). setoid_rewrite Hallow. naive_solver.
Qed.
End FilterSpec.

(** ** Properties *)

Section Published.
Context {json : SnapshotJSON}.

Lemma allowChannelID_describes db opts f id : describes db opts f → allowChannelID f id = true ↔ selected db opts id.
Proof. intros D. unfold allowChannelID. rewrite (ds_active _ _ _ D), <- (ds_channels _ _ _ D). simpl. apply bool_decide_eq_true. Qed.

Lemma local_scope_channel scope rest : CutPrefix scope "channel:" = Some rest → local_scope scope = false.
Proof. intros ->%CutPrefix_Some. done. Qed.

Lemma guild_scope_shared scope rest : CutPrefix scope "guild:" = Some rest → CutPrefix scope "channel:" = None ∧ local_scope scope = false ∧ HasPrefix scope "share:" = false.
Proof. intros ->%CutPrefix_Some. done. Qed.

Lemma allowSyncState_describes db opts f scope : describes db opts f → allowSyncState f scope = true ↔ selected_scope db opts scope.
Proof.
  intros D. unfold allowSyncState, selected_scope. destruct (CutPrefix scope "channel:") as [rest|] eqn:E.
  - destruct (CutByte rest ":") as [[id cur] ok]. simpl. rewrite (ds_public _ _ _ D).
    destruct (PublicOnly opts); simpl.
    + destruct (String.eqb_spec cur "archived_private_threads_after"); [naive_solver|].
      rewrite allowChannelID_describes by done. naive_solver.
    + rewrite allowChannelID_describes by done. naive_solver.
  - destruct (CutPrefix scope "guild:") as [rest|] eqn:Eg.
    + destruct (guild_scope_shared _ _ Eg) as (_ & -> & ->). destruct (HasSuffix scope ":members:last_success"); [naive_solver|].
      destruct (CutByte rest ":") as [[id cur] ok] eqn:Ec. rewrite bool_decide_eq_true, (ds_guilds _ _ _ D). split.
      * intros H. exists rest. by rewrite Ec.
      * intros (? & [= <-] & _ & H). by rewrite Ec in H.
    + destruct (local_scope scope), (HasPrefix scope "share:"); naive_solver.
Qed.

Lemma allow_describes db opts f table r : describes db opts f → allow f table r = true ↔ publishable db opts table r.
Proof.
  intros D. unfold allow, publishable. destruct (isDirectMessageSnapshotRow table r); [naive_solver|].
  rewrite (ds_active _ _ _ D). cbn [negb].
  repeat match goal with |- context [if ?b then _ else _] => lazymatch b with bool_decide (_ ∈ allowedMessageIDs _) => fail | _ => destruct b end end;
    rewrite ?orb_true_iff, ?bool_decide_eq_true, ?allowChannelID_describes, ?allowSyncState_describes, ?(ds_guilds _ _ _ D), ?(ds_messages _ _ _ D) by done;
    try naive_solver.
  pose proof (ds_members _ _ _ D (stringValue (r !! "guild_id"%string)) (stringValue (r !! "user_id"%string))) as H. unfold member in H. naive_solver.
Qed.

(** C4: An active filter publishes exactly the rows its options select. Whatever
    the order in which Go visits the channel map, and through the memo table of
    the visibility walk with its cycle guard, a row of the snapshot is allowed
    if and only if it is publishable: never a direct message; a channel only
    when it is neither excluded nor outside the inclusions and, for a public
    snapshot, when every ancestor is in collection scope, undeleted and
    available, no thread on the way is private, and everyone may view it under
    the guild's, the category's and its own permissions; a message, event,
    attachment or mention only of such a channel; a guild, member or cursor
    only in connection with one. *)
Theorem filter_exact order db opts f table r :
  Active opts = true → visits order db → newSnapshotFilter order db opts = Some (inr f) →
  allow f table r = true ↔ publishable db opts table r.
Proof. intros Ha Hv Hf. by eapply allow_describes, newSnapshotFilter_describes. Qed.

(** Building a filter always ends, and fails only on one account: an
    active filter reads the author of every message outside direct messages
    into a Go string, and a message stored without an author makes it, and with
    it the whole filtered publication, fail. *)
Theorem filter_needs_authors order db opts :
  visits order db →
  ∃ result, newSnapshotFilter order db opts = Some result ∧
    ((∃ e, result = inl e) ↔ Active opts = true ∧ ∃ m, m ∈ message_rows db ∧ remote_message m = true ∧ ms_author m = None).
Proof.
  intros Hv. destruct (Active opts) eqn:Ha.
  - rewrite newSnapshotFilter_active by done. destruct (allowed_channels db opts order Hv) as (f & -> & _). simpl.
    eexists. split; [done|]. unfold loadAllowedMessages.
    destruct (load_messages_error f (List.filter remote_message (message_rows db))) as [(f' & -> & H)|(e & m & -> & [? ?]%elem_of_lfilter & ?)].
    + split; [naive_solver|]. intros (_ & m & Hm & Hr & Hn). exfalso. apply (H m); [|done]. by apply elem_of_lfilter.
    + naive_solver.
  - unfold newSnapshotFilter. rewrite Ha. eexists. split; [done|]. naive_solver.
Qed.

(** Options that ask for less. *)
Record stricter (o o' : FilterOptions) : Prop := {
  st_public : PublicOnly o' = true → PublicOnly o = true;
  st_exclude : stringSet (ExcludeChannelIDs o') ⊆ stringSet (ExcludeChannelIDs o);
  st_include : stringSet (IncludeChannelIDs o') = ∅ ∨
    stringSet (IncludeChannelIDs o) ≠ ∅ ∧ stringSet (IncludeChannelIDs o) ⊆ stringSet (IncludeChannelIDs o') }.

Lemma stricter_active o o' : stricter o o' → Active o' = true → Active o = true.
Proof.
  intros [Hp He Hi]. unfold Active. rewrite !orb_true_iff, !negb_true_iff, !bool_decide_eq_false.
  intros [[H|H]|H]; [auto|destruct Hi as [|[? _]]; auto|]. right. intros E. apply H. set_solver.
Qed.

Lemma stricter_selected db o o' id : stricter o o' → selected db o id → selected db o' id.
Proof.
  intros [Hp He Hi] (ch & Hl & Hne & H1 & H2 & H3 & H4). exists ch. split_and!; [done|done|set_solver|set_solver|set_solver|].
  intros Hpub. specialize (Hp Hpub). specialize (H4 Hp). unfold catalog_of in *. by rewrite Hpub, Hp in *.
Qed.

Lemma stricter_guild db o o' g : stricter o o' → selected_guild db o g → selected_guild db o' g.
Proof. intros H (? & id & ch & Hl & ? & ?). split; [done|]. exists id, ch. split_and!; [done..|]. by eapply stricter_selected. Qed.

Lemma stricter_author db o o' g u : stricter o o' → selected_author db o g u → selected_author db o' g u.
Proof. intros H (? & ? & m & ? & ? & ? & ? & ?). split_and!; [done..|]. exists m. split_and!; [done..|]. by eapply stricter_selected. Qed.

Lemma stricter_publishable db o o' table r : stricter o o' → publishable db o table r → publishable db o' table r.
Proof.
  intros H [Hd Hp]. split; [done|]. revert Hp.
  repeat match goal with |- (if ?b then _ else _) → _ => destruct b end; try done; eauto using stricter_selected, stricter_guild.
  - intros [Ha|(? & (a & Ha) & m & ? & ? & ? & ? & ?)]; [left; by eapply stricter_author|right].
    split_and!; [done|exists a; by eapply stricter_author|exists m; split_and!; [done..|by eapply stricter_selected]].
  - intros [?|(m & ? & ? & ? & ?)]; [left; by eapply stricter_selected|right; exists m; split_and!; [done..|by eapply stricter_selected]].
  - unfold selected_scope. destruct (CutPrefix _ "channel:").
    + intros [? Hc]. split; [by eapply stricter_selected|]. intros Hpub. apply Hc. by apply (st_public _ _ H).
    + intros (rest & ? & ? & ?). exists rest. split_and!; [done..|]. by eapply stricter_guild.
Qed.

(** Asking for less publishes less: with more exclusions, fewer
    inclusions or the restriction to public channels, every row a filter allows
    is allowed by the filter it restricts, so that filters intersect. *)
Theorem stricter_filter_publishes_less order order' db o o' f f' table r :
  visits order db → visits order' db → stricter o o' →
  newSnapshotFilter order db o = Some (inr f) → newSnapshotFilter order' db o' = Some (inr f') →
  allow f table r = true → allow f' table r = true.
Proof.
  intros Hv Hv' Hs Hf Hf' Ha. destruct (Active o') eqn:Ea.
  - pose proof (stricter_active o o' Hs Ea) as Eo.
    rewrite (allow_describes db o' f') by (by apply (newSnapshotFilter_describes order')). eapply stricter_publishable; [done|].
    apply (allow_describes db o f); [by apply (newSnapshotFilter_describes order)|done].
  - unfold newSnapshotFilter in Hf'. rewrite Ea in Hf'. injection Hf' as <-. unfold allow in *. simpl.
    by destruct (isDirectMessageSnapshotRow table r).
Qed.
End Published.

(** ** A concrete archive

    Payloads in a toy notation: [x] lists the guild role with the permission to
    view, anything else no role; [o] lists no overwrites, [d] one that denies
    the guild role the view. *)

Definition toy_json : SnapshotJSON := {|
  decode_roles raw := Some (if (raw =? "x")%string then [Role "g" (JString "1024")] else []);
  decode_overwrites raw :=
    if (raw =? "o")%string then Some (Some [])
    else if (raw =? "d")%string then Some (Some [Overwrite "g" (JNumber "0") (JString "0") (JString "1024")])
    else Some None;
  marshal_guild g := "" |}.

Definition toy_channel (id parent kind raw scope : string) : snapshotChannel :=
  SnapshotChannel id "g" (if HasPrefix kind "thread_" then "" else parent) (if HasPrefix kind "thread_" then parent else "")
    kind false raw scope "".

(** A public channel with a thread, a channel hidden by its category, and one
    whose last crawl was refused. *)
Definition toy_archive : archive := {|
  guild_rows := [("g", "Guild", "x")];
  channel_rows := [toy_channel "1" "" "text" "o" "allowed"; toy_channel "2" "1" "thread_public" "" "allowed";
                   toy_channel "3" "" "category" "d" "allowed"; toy_channel "4" "3" "text" "o" "allowed";
                   toy_channel "5" "" "text" "o" "allowed"]%string;
  message_rows := [MessageScope "10" "g" "2" (Some "u"); MessageScope "11" "g" "4" (Some "v"); MessageScope "12" "@me" "9" None]%string;
  mention_rows := [];
  state_scopes := ["channel:5:unavailable"] |}%string.

Definition toy_order : list string := ["5"; "4"; "3"; "2"; "1"].

Lemma toy_visits : visits toy_order toy_archive.
Proof.
  intros id. rewrite <- elem_of_dom.
  assert (dom (loadChannels toy_archive) = list_to_set toy_order) as -> by (vm_compute; reflexivity).
  by rewrite elem_of_list_to_set.
Qed.

Definition toy_filter (o : FilterOptions) : snapshotFilter :=
  match newSnapshotFilter (json := toy_json) toy_order toy_archive o with
  | Some (inr f) => f
  | _ => initial toy_archive o
  end.

Definition toy_public : FilterOptions := Filter true [] [].
Definition toy_excluding : FilterOptions := Filter false [] ["5"]%string.

Lemma toy_built : newSnapshotFilter (json := toy_json) toy_order toy_archive toy_public = Some (inr (toy_filter toy_public)).
Proof. vm_compute. reflexivity. Qed.

Lemma toy_built_excluding : newSnapshotFilter (json := toy_json) toy_order toy_archive toy_excluding = Some (inr (toy_filter toy_excluding)).
Proof. vm_compute. reflexivity. Qed.

Definition message_row (id channel : string) : row :=
  {["id"%string := CString id; "guild_id"%string := CString "g"; "channel_id"%string := CString channel]}.

Lemma filter_exact_witness :
  (allow (toy_filter toy_public) "messages" (message_row "10" "2") = true
   ↔ publishable (json := toy_json) toy_archive toy_public "messages" (message_row "10" "2")) ∧
  allow (toy_filter toy_public) "messages" (message_row "10" "2") = true ∧
  allow (toy_filter toy_public) "messages" (message_row "11" "4") = false ∧
  allow (toy_filter toy_public) "channels" {["id"%string := CString "5"]} = false.
Proof.
  split; [|vm_compute; auto].
  exact (filter_exact (json := toy_json) toy_order toy_archive toy_public _ "messages" (message_row "10" "2") eq_refl toy_visits toy_built).
Defined.

Lemma filter_needs_authors_witness :
  ∃ result, newSnapshotFilter (json := toy_json) toy_order toy_archive toy_public = Some result ∧
    ((∃ e, result = inl e) ↔ Active toy_public = true ∧ ∃ m, m ∈ message_rows toy_archive ∧ remote_message m = true ∧ ms_author m = None).
Proof. exact (filter_needs_authors (json := toy_json) toy_order toy_archive toy_public toy_visits). Defined.

Lemma stricter_filter_publishes_less_witness :
  allow (toy_filter toy_public) "messages" (message_row "10" "2") = true ∧
  allow (toy_filter (Filter false [] [])) "messages" (message_row "10" "2") = true.
Proof.
  assert (allow (toy_filter toy_public) "messages" (message_row "10" "2") = true) as Ha by (vm_compute; reflexivity).
  split; [exact Ha|].
  refine (stricter_filter_publishes_less (json := toy_json) toy_order toy_order toy_archive toy_public (Filter false [] [])
            (toy_filter toy_public) _ "messages" (message_row "10" "2") toy_visits toy_visits _ toy_built _ Ha).
  - split; [done|set_solver|by left].
  - vm_compute. reflexivity.
Defined.
