(* ===== verification/SharePublish.v ===== *)
(** * Publishing with a filter

    internal/share: the guild rows a filtered snapshot carries
    (publication_privacy.go), the row callback of [Export] (share.go), the
    selection of embeddings (embeddings.go) and the preflight (preflight.go),
    on top of the filter of ShareFilter. *)
From S2P Require Import Prelude Errors Snowflake Decimal GoTime GoText SyncState ShareFilter.
Local Open Scope Z_scope.

(** ** Guild rows *)

Section Projection.
Context {json : SnapshotJSON}.

(** The roles kept are those with the guild's own id, the role of everyone. *)
Fixpoint everyone_roles (guildID : string) (roles : list role_payload) : err + list (string * string) :=
  match roles with
  | [] => inr []
  | r :: roles =>
      if negb (role_id r =? guildID)%string then everyone_roles guildID roles
      else match parsePermissionBits (role_permissions r) with
           | None => inl (EText "invalid published guild permissions")
           | Some permissions =>
               match everyone_roles guildID roles with
               | inl e => inl e
               | inr l => inr ((role_id r, FormatInt permissions) :: l)
               end
           end
  end.

Definition projectPublishedGuild (r : row) : err + row :=
  let get c := stringValue (r !! c) in
  match decode_roles (get "raw_json"%string) with
  | None => inl (EWrap "decode published guild permissions: " (EText "invalid guild payload") "")
  | Some roles =>
      match everyone_roles (get "id"%string) roles with
      | inl e => inl e
      | inr kept =>
          let raw := marshal_guild (PublishedGuild (get "id"%string) (get "name"%string) (get "icon"%string) kept) in
          inr (<["raw_json"%string := CString raw]> r)
      end
  end.
End Projection.

(** ** Attachment rows

    [utf8.ValidString]: Go decodes the well-formed sequences of Unicode. *)
Definition continuation (c : ascii) : bool := (128 <=? byte_of c) && (byte_of c <=? 191).

Fixpoint ValidString (s : string) : bool :=
  match s with
  | EmptyString => true
  | String a t =>
      let x := byte_of a in
      if x <? 128 then ValidString t
      else match t with
           | String b t1 =>
               let y := byte_of b in
               if (194 <=? x) && (x <=? 223) then continuation b && ValidString t1
               else match t1 with
                    | String c t2 =>
                        if (224 <=? x) && (x <=? 239) then
                          continuation b && continuation c
                          && negb ((x =? 224) && (y <? 160)) && negb ((x =? 237) && (159 <? y)) && ValidString t2
                        else match t2 with
                             | String d t3 =>
                                 (240 <=? x) && (x <=? 244) && continuation b && continuation c && continuation d
                                 && negb ((x =? 240) && (y <? 144)) && negb ((x =? 244) && (143 <? y)) && ValidString t3
                             | EmptyString => false
                             end
                    | EmptyString => false
                    end
           | EmptyString => false
           end
  end.

Definition attachment_text_columns : list string :=
  ["attachment_id"; "message_id"; "guild_id"; "channel_id"; "author_id"; "filename"; "content_type"; "size"; "url"; "proxy_url";
   "text_content"; "media_path"; "content_sha256"; "content_size"; "fetched_at"; "fetch_status"; "fetch_error"; "updated_at"].

Definition invalid_text (r : row) (column : string) : bool :=
  match r !! column with Some (CString text) => negb (ValidString text) | _ => false end.

Definition validateAttachmentSnapshotText (r : row) : option err :=
  match List.find (invalid_text r) attachment_text_columns with
  | Some column => Some (EText ("message_attachments." ++ column ++ " contains invalid UTF-8"))
  | None => None
  end.

Section Publish.
Context {json : SnapshotJSON}.

(** The [Filter] callback of [Export]: a row to write, or none, or an error. *)
Definition export_row (f : snapshotFilter) (table : string) (r : row) : err + option row :=
  if negb (allow f table r) then inr None
  else
    match (if (table =? "message_attachments")%string then validateAttachmentSnapshotText r else None) with
    | Some e => inl e
    | None =>
        if active f && (table =? "guilds")%string then
          match projectPublishedGuild r with inl e => inl e | inr r' => inr (Some r') end
        else inr (Some r)
    end.

(** The embeddings [exportEmbeddings] writes: those of allowed messages. *)
Definition export_embedding (f : snapshotFilter) (m : message_scope) : bool :=
  negb (ms_guild m =? directMessageGuildID)%string && negb (active f && negb (bool_decide (ms_id m ∈ allowedMessageIDs f))).

(** ** The preflight *)

Record PublishScopeGuild := ScopeGuild {
  GuildName : string; SourceHint : string; MetadataReady : bool;
  CandidateChannels : Z; AllowedChannels : Z; CandidateMessages : Z; AllowedMessages : Z }.

Record PublishScopeCount := ScopeCount { Candidate : Z; Allowed : Z; Excluded : Z }.

Record PublishScopePreflight := Preflight {
  Ready : bool; ReportPublicOnly : bool; ReportInclude : list string; ReportExclude : list string;
  Guilds : list (string * PublishScopeGuild); Channels : PublishScopeCount; Messages : PublishScopeCount;
  Empty : bool; EmptyReason : string; Warnings : list string; RepairCommand : string }.

(** The [source] field of a guild payload, [None] when it does not decode. *)
Variable decode_source : string → option string.

Definition publishSourceHint (raw : string) (metadataReady : bool) : string :=
  match decode_source raw with
  | Some s => if (ToLower (TrimSpace s) =? "discord_desktop")%string then "discord_desktop"
              else if metadataReady then "discord_metadata" else "unknown"
  | None => if metadataReady then "discord_metadata" else "unknown"
  end.

Definition loadPublishScopeGuilds (db : archive) : gmap string PublishScopeGuild :=
  foldl (λ g '(id, name, raw),
           let ready := bool_decide (is_Some (everyoneGuildPermissions raw id)) in
           <[id := ScopeGuild name (publishSourceHint raw ready) ready 0 0 0 0]> g)
    ∅ (List.filter (λ '(id, _, _), negb (id =? directMessageGuildID)%string) (guild_rows db)).

(** The entry of a guild, created when it is missing. *)
Definition publish_guild (guilds : gmap string PublishScopeGuild) (id : string) : PublishScopeGuild :=
  default (ScopeGuild "" "unknown" false 0 0 0 0) (guilds !! id).

Definition count_channel (candidate selected : snapshotFilter)
    (acc : gmap string PublishScopeGuild * PublishScopeCount) (ch : snapshotChannel) : gmap string PublishScopeGuild * PublishScopeCount :=
  let '(guilds, n) := acc in
  if negb (allowChannelID candidate (ch_ID ch)) then acc
  else
    let g := publish_guild guilds (ch_GuildID ch) in
    let ready := if publicOnly selected && missing_of (ch_ID ch) (visibility selected) then false else MetadataReady g in
    let one := if allowChannelID selected (ch_ID ch) then 1 else 0 in
    (<[ch_GuildID ch := ScopeGuild (GuildName g) (SourceHint g) ready (CandidateChannels g + 1) (AllowedChannels g + one)
                          (CandidateMessages g) (AllowedMessages g)]> guilds,
     ScopeCount (Candidate n + 1) (Allowed n + one) (Excluded n)).

Definition count_message (candidate selected : snapshotFilter) (channelGuilds : gmap string string)
    (acc : gmap string PublishScopeGuild * PublishScopeCount) (m : message_scope) : gmap string PublishScopeGuild * PublishScopeCount :=
  let '(guilds, n) := acc in
  if negb (allowChannelID candidate (ms_channel m)) then acc
  else
    let guildID := default (ms_guild m) (channelGuilds !! ms_channel m) in
    let g := publish_guild guilds guildID in
    let ready := if publicOnly selected && bool_decide (channels (cat selected) !! ms_channel m = None) then false else MetadataReady g in
    let one := if bool_decide (ms_id m ∈ allowedMessageIDs selected) || allowChannelID selected (ms_channel m) then 1 else 0 in
    (<[guildID := ScopeGuild (GuildName g) (SourceHint g) ready (CandidateChannels g) (AllowedChannels g)
                    (CandidateMessages g + 1) (AllowedMessages g + one)]> guilds,
     ScopeCount (Candidate n + 1) (Allowed n + one) (Excluded n)).

Definition remote_channels (db : archive) : list snapshotChannel :=
  List.filter (λ ch, negb (ch_GuildID ch =? directMessageGuildID)%string) (channel_rows db).

Definition countPublishScopeChannels (db : archive) (candidate selected : snapshotFilter) (guilds : gmap string PublishScopeGuild) :
    gmap string string * (gmap string PublishScopeGuild * PublishScopeCount) :=
  (foldl (λ m ch, <[ch_ID ch := ch_GuildID ch]> m) ∅ (remote_channels db),
   foldl (count_channel candidate selected) (guilds, ScopeCount 0 0 0) (remote_channels db)).

Definition countPublishScopeMessages (db : archive) (candidate selected : snapshotFilter) (channelGuilds : gmap string string)
    (guilds : gmap string PublishScopeGuild) : gmap string PublishScopeGuild * PublishScopeCount :=
  foldl (count_message candidate selected channelGuilds) (guilds, ScopeCount 0 0 0) (List.filter remote_message (message_rows db)).

Definition exclude_rest (n : PublishScopeCount) : PublishScopeCount := ScopeCount (Candidate n) (Allowed n) (Candidate n - Allowed n).

Definition sorted_set (s : gset string) : list string := merge_sort string_le (elements s).

Definition guild_unready (o : FilterOptions) (g : PublishScopeGuild) : bool :=
  PublicOnly o && ((0 <? CandidateChannels g) || (0 <? CandidateMessages g)) && negb (MetadataReady g).

Definition by_id (l : list (string * PublishScopeGuild)) : list (string * PublishScopeGuild) :=
  let m : gmap string PublishScopeGuild := list_to_map l in
  omap (λ id, pair id <$> m !! id) (merge_sort string_le l.*1).

(** The orders are those of the two filters' channel maps and of the guild map. *)
Definition PreflightPublishScope (order order' : list string) (guild_order : gmap string PublishScopeGuild → list (string * PublishScopeGuild))
    (db : archive) (o : FilterOptions) : option (err + PublishScopePreflight) :=
  match newSnapshotFilter order db (Filter false (IncludeChannelIDs o) (ExcludeChannelIDs o)) with
  | None => None
  | Some (inl e) => Some (inl e)
  | Some (inr candidate) =>
      match newSnapshotFilter order' db o with
      | None => None
      | Some (inl e) => Some (inl e)
      | Some (inr selected) =>
          let '(channelGuilds, (guilds, chans)) := countPublishScopeChannels db candidate selected (loadPublishScopeGuilds db) in
          let '(guilds, msgs) := countPublishScopeMessages db candidate selected channelGuilds guilds in
          let chans := exclude_rest chans in
          let msgs := exclude_rest msgs in
          let listed := guild_order guilds in
          let unready := List.filter (λ '(_, g), guild_unready o g) listed in
          let ready := bool_decide (unready = []) in
          let empty := Allowed msgs =? 0 in
          Some (inr {|
            Ready := ready; ReportPublicOnly := PublicOnly o;
            ReportInclude := sorted_set (stringSet (IncludeChannelIDs o)); ReportExclude := sorted_set (stringSet (ExcludeChannelIDs o));
            Guilds := by_id listed; Channels := chans; Messages := msgs; Empty := empty;
            EmptyReason := if negb empty then "" else if Candidate msgs =? 0 then "no_matching_messages"
                           else if negb ready then "metadata_incomplete" else "filters_match_no_publishable_messages";
            Warnings := merge_sort string_le
              ((λ '(id, _), "guild " ++ id ++ " lacks usable guild, channel or category permission metadata for public-only selection")%string <$> unready);
            RepairCommand := if ready then "" else "discrawl sync --source discord" |})
      end
  end.
End Publish.

(** ** Guild rows *)

Section ProjectionLaws.
Context {json : SnapshotJSON} {laws : SnapshotJSONLaws}.

Definition published_role : string * string → role_payload := λ '(id, p), Role id (JString p).

Lemma parsePermissionBits_int64 v n : (∀ t, v ≠ JFloat t) → parsePermissionBits v = Some n → int64 n.
Proof. destruct v; simpl; intros Hf; [intros [= <-]; by unfold int64|by destruct (Hf trunc)| | |done]; apply ParseInt_int64. Qed.

Lemma everyone_roles_spec id roles kept :
  (∀ r t, r ∈ roles → role_permissions r ≠ JFloat t) → everyone_roles id roles = inr kept →
  (∀ r, r ∈ published_role <$> kept → role_id r = id) ∧
  match List.find (λ r, (role_id r =? id)%string) (published_role <$> kept) with
  | Some r => parsePermissionBits (role_permissions r) | None => None end =
  match List.find (λ r, (role_id r =? id)%string) roles with
  | Some r => parsePermissionBits (role_permissions r) | None => None end.
Proof.
  revert kept. induction roles as [|r roles IH]; intros kept Hf; simpl; [by intros [= <-]; set_solver|].
  assert (∀ r' t, r' ∈ roles → role_permissions r' ≠ JFloat t) as Hf' by set_solver.
  destruct (String.eqb_spec (role_id r) id) as [E|E]; cbn [negb]; [|by apply IH].
  destruct (parsePermissionBits (role_permissions r)) as [n|] eqn:Hp; [|done].
  destruct (everyone_roles id roles) as [|l] eqn:El; [done|]. intros [= <-]. destruct (IH l Hf' eq_refl) as [Hall _]. split.
  - intros r'. simpl. intros [->|?]%elem_of_cons; [done|auto].
  - simpl. rewrite E, String.eqb_refl. simpl. rewrite ParseInt_FormatInt; [done|].
    eapply parsePermissionBits_int64; [|done]. intros t. apply Hf. set_solver.
Qed.

(** A published guild row says of the guild's roles what everyone may do
    and nothing else: projecting it changes no other column, the new payload
    decodes to roles with the guild's own id only, and a subscriber reads from
    it exactly the permissions of everyone that the publisher read from the
    original payload. *)
Theorem projected_guild_keeps_everyone r r' :
  projectPublishedGuild r = inr r' →
  let id := stringValue (r !! "id"%string) in
  let raw := stringValue (r !! "raw_json"%string) in
  let raw' := stringValue (r' !! "raw_json"%string) in
  (∀ c, c ≠ "raw_json"%string → r' !! c = r !! c) ∧
  (∃ roles, decode_roles raw' = Some roles ∧ ∀ x, x ∈ roles → role_id x = id) ∧
  everyoneGuildPermissions raw' id = everyoneGuildPermissions raw id.
Proof.
  unfold projectPublishedGuild, everyoneGuildPermissions. intros H. cbv zeta.
  destruct (decode_roles (stringValue (r !! "raw_json"%string))) as [roles|] eqn:Ed; [|done].
  destruct (everyone_roles _ roles) as [|kept] eqn:Ek; [done|]. injection H as <-.
  destruct (everyone_roles_spec (stringValue (r !! "id"%string)) roles kept) as [Hall Hfind]; [|done|].
  { intros x t Hx. by apply (decode_numbers _ _ x t Ed). }
  split_and!; [intros c Hc; by rewrite lookup_insert_ne| |];
    rewrite (lookup_insert_eq r "raw_json"%string); cbn [stringValue]; rewrite decode_marshalled; [by eauto|exact Hfind].
Qed.
End ProjectionLaws.

(** ** The preflight *)

Section PreflightLaws.
Context {json : SnapshotJSON} (decode_source : string → option string).

(** The row [Export] scans for a message or a channel, as far as the filter reads it. *)
Definition exported_message (m : message_scope) : row :=
  {["id"%string := CString (ms_id m); "guild_id"%string := CString (ms_guild m); "channel_id"%string := CString (ms_channel m)]}.
Definition exported_channel (ch : snapshotChannel) : row :=
  {["id"%string := CString (ch_ID ch); "guild_id"%string := CString (ch_GuildID ch)]}.

(** The callback of [Export] writes the row. *)
Definition exports (f : snapshotFilter) (table : string) (r : row) : bool :=
  match export_row f table r with inr (Some _) => true | _ => false end.

Definition count {A} (p : A → bool) (l : list A) : Z := Z.of_nat (length (List.filter p l)).

Lemma count_cons {A} (p : A → bool) x l : count p (x :: l) = (if p x then 1 else 0) + count p l.
Proof. unfold count. simpl. destruct (p x); simpl; lia. Qed.

Lemma count_ext {A} (p q : A → bool) l : (∀ x, x ∈ l → p x = q x) → count p l = count q l.
Proof.
  induction l as [|x l IH]; intros H; [done|]. rewrite !count_cons, (H x) by set_solver. rewrite IH; [done|]. set_solver.
Qed.

Lemma count_filter {A} (p q : A → bool) l : count p (List.filter q l) = count (λ x, q x && p x) l.
Proof. induction l as [|x l IH]; [done|]. simpl. rewrite count_cons. destruct (q x); simpl; [rewrite count_cons|]; lia. Qed.

Lemma count_zero {A} (p : A → bool) l : count p l = 0 ↔ ∀ x, x ∈ l → p x = false.
Proof.
  induction l as [|x l IH]; [split; [by intros _ x ?%elem_of_nil|done]|]. rewrite count_cons. setoid_rewrite elem_of_cons.
  assert (0 <= count p l) by (unfold count; lia). destruct (p x) eqn:E; split.
  - lia.
  - intros H'. rewrite H' in E by auto. done.
  - intros H' y [->|Hy]; [done|]. apply IH; [lia|done].
  - intros H'. assert (count p l = 0) as ->; [apply IH; auto|lia].
Qed.

Lemma count_le {A} (p q : A → bool) l : (∀ x, x ∈ l → p x = true → q x = true) → count p l <= count q l.
Proof.
  induction l as [|x l IH]; intros H; [done|]. rewrite !count_cons. specialize (IH ltac:(set_solver)).
  pose proof (H x ltac:(set_solver)). destruct (p x), (q x); naive_solver lia.
Qed.

Definition message_selected (candidate selected : snapshotFilter) (m : message_scope) : bool :=
  allowChannelID candidate (ms_channel m) && (bool_decide (ms_id m ∈ allowedMessageIDs selected) || allowChannelID selected (ms_channel m)).
Definition channel_selected (candidate selected : snapshotFilter) (ch : snapshotChannel) : bool :=
  allowChannelID candidate (ch_ID ch) && allowChannelID selected (ch_ID ch).

(** A fold that counts two tests. *)
Lemma counted {A} (step : gmap string PublishScopeGuild * PublishScopeCount → A → gmap string PublishScopeGuild * PublishScopeCount)
    (candidate selected : A → bool) :
  (∀ guilds n x, ∃ guilds', step (guilds, n) x =
     (guilds', ScopeCount (Candidate n + (if candidate x then 1 else 0)) (Allowed n + (if selected x then 1 else 0)) (Excluded n))) →
  ∀ l guilds n, let n' := (foldl step (guilds, n) l).2 in
    Allowed n' = Allowed n + count selected l ∧ Candidate n' = Candidate n + count candidate l.
Proof.
  intros Hstep l. induction l as [|x l IH]; intros guilds n; [unfold count; simpl; lia|]. rewrite !count_cons. simpl.
  destruct (Hstep guilds n x) as [guilds' ->].
  destruct (IH guilds' (ScopeCount (Candidate n + (if candidate x then 1 else 0)) (Allowed n + (if selected x then 1 else 0)) (Excluded n))) as [-> ->].
  cbn [Allowed Candidate]. lia.
Qed.

Lemma no_count n : n = ScopeCount (Candidate n + 0) (Allowed n + 0) (Excluded n).
Proof. destruct n; simpl. f_equal; lia. Qed.

Lemma counted_messages candidate selected cg l guilds n :
  let n' := (foldl (count_message candidate selected cg) (guilds, n) l).2 in
  Allowed n' = Allowed n + count (message_selected candidate selected) l ∧
  Candidate n' = Candidate n + count (λ m, allowChannelID candidate (ms_channel m)) l.
Proof.
  apply counted. intros g k m. unfold count_message, message_selected.
  destruct (allowChannelID candidate (ms_channel m)); cbn [negb andb]; eexists; f_equal; apply no_count.
Qed.

Lemma counted_channels candidate selected l guilds n :
  let n' := (foldl (count_channel candidate selected) (guilds, n) l).2 in
  Allowed n' = Allowed n + count (channel_selected candidate selected) l ∧
  Candidate n' = Candidate n + count (λ ch, allowChannelID candidate (ch_ID ch)) l.
Proof.
  apply counted. intros g k m. unfold count_channel, channel_selected.
  destruct (allowChannelID candidate (ch_ID m)); cbn [negb andb]; eexists; f_equal; apply no_count.
Qed.

(** *** Counting what is exported *)

Lemma exports_allow f table r : table ≠ "guilds"%string → table ≠ "message_attachments"%string → exports f table r = allow f table r.
Proof.
  intros Hg Ha. unfold exports, export_row. apply String.eqb_neq in Hg, Ha. rewrite Hg, Ha, andb_false_r. by destruct (allow f table r).
Qed.

Lemma allow_messages f r :
  allow f "messages" r =
    if isLocalOnlyGuildID (stringValue (r !! "guild_id"%string)) then false else if negb (active f) then true
    else bool_decide (stringValue (r !! "message_id"%string) ∈ allowedMessageIDs f) || allowChannelID f (stringValue (r !! "channel_id"%string)).
Proof. reflexivity. Qed.

Lemma allow_channels_table f r :
  allow f "channels" r =
    if isLocalOnlyGuildID (stringValue (r !! "guild_id"%string)) then false else if negb (active f) then true
    else allowChannelID f (stringValue (r !! "id"%string)).
Proof. reflexivity. Qed.

Lemma exported_message_get m :
  stringValue (exported_message m !! "guild_id"%string) = ms_guild m ∧ stringValue (exported_message m !! "channel_id"%string) = ms_channel m ∧
  stringValue (exported_message m !! "message_id"%string) = ""%string.
Proof. unfold exported_message. by simplify_map_eq. Qed.

Lemma exported_channel_get ch :
  stringValue (exported_channel ch !! "id"%string) = ch_ID ch ∧ stringValue (exported_channel ch !! "guild_id"%string) = ch_GuildID ch.
Proof. unfold exported_channel. by simplify_map_eq. Qed.

(** The keys of the messages table. *)
Definition keyed (db : archive) : Prop := NoDup (ms_id <$> message_rows db) ∧ ∀ m, m ∈ message_rows db → ms_id m ≠ ""%string.

Definition candidate_options (o : FilterOptions) : FilterOptions := Filter false (IncludeChannelIDs o) (ExcludeChannelIDs o).

Lemma candidate_stricter o : stricter o (candidate_options o).
Proof. destruct (decide (stringSet (IncludeChannelIDs o) = ∅)); split; simpl; [done|done|by left|done|done|by right]. Qed.

(** The three filters involved, built for the same archive. *)
Definition built (o : FilterOptions) (db : archive) (f : snapshotFilter) : Prop :=
  ∃ order, visits order db ∧ newSnapshotFilter order db o = Some (inr f).

Lemma built_cases o db f : built o db f → Active o = false ∧ active f = false ∨ Active o = true ∧ describes db o f.
Proof.
  intros (order & Hv & Hf). destruct (Active o) eqn:E; [right; split; [done|by apply (newSnapshotFilter_describes order)]|left].
  unfold newSnapshotFilter in Hf. rewrite E in Hf. by injection Hf as <-.
Qed.

Lemma candidate_allows o db c f id : built (candidate_options o) db c → built o db f → allowChannelID f id = true → allowChannelID c id = true.
Proof.
  intros [[_ Hc]|[Ea Dc]]%built_cases Hf; [unfold allowChannelID; by rewrite Hc|].
  destruct (built_cases _ _ _ Hf) as [[Eo _]|[_ Df]].
  - by rewrite (stricter_active _ _ (candidate_stricter o) Ea) in Eo.
  - rewrite !allowChannelID_describes by done. by apply stricter_selected, candidate_stricter.
Qed.

Lemma message_counted o db c s f m :
  keyed db → m ∈ message_rows db → built (candidate_options o) db c → built o db s → built o db f →
  remote_message m && message_selected c s m = exports f "messages" (exported_message m).
Proof.
  intros [Hnd Hne] Hm Hc Hs Hf. rewrite exports_allow, allow_messages by done.
  destruct (exported_message_get m) as (-> & -> & ->). unfold remote_message, isLocalOnlyGuildID.
  destruct (ms_guild m =? directMessageGuildID)%string eqn:Eg; [done|]. cbn [negb andb].
  destruct (built_cases _ _ _ Hf) as [[Eo ->]|[Eo Df]]; cbn [negb].
  - destruct (built_cases _ _ _ Hs) as [[_ Es]|[? _]]; [|congruence]. destruct (built_cases _ _ _ Hc) as [[_ Ec]|[Ec _]].
    + unfold message_selected, allowChannelID. rewrite Es, Ec. simpl. apply orb_true_r.
    + by rewrite (stricter_active _ _ (candidate_stricter o) Ec) in Eo.
  - destruct (built_cases _ _ _ Hs) as [[? _]|[_ Ds]]; [congruence|]. rewrite (ds_active _ _ _ Df). cbn [negb].
    assert (bool_decide (""%string ∈ allowedMessageIDs f) = false) as ->.
    { apply bool_decide_eq_false. rewrite (ds_messages _ _ _ Df). intros (x & Hx & _ & E & _). by destruct (Hne x Hx). }
    assert (allowChannelID f (ms_channel m) = allowChannelID s (ms_channel m)) as ->.
    { apply eq_true_iff_eq. by rewrite !allowChannelID_describes. }
    unfold message_selected. cbn [orb]. apply eq_true_iff_eq. rewrite andb_true_iff, orb_true_iff, bool_decide_eq_true.
    split; [|intros Ha; split; [by apply (candidate_allows o db c s)|by right]]. intros [_ [Hin|?]]; [|done].
    apply (allowChannelID_describes db o s _ Ds). apply (ds_messages _ _ _ Ds) in Hin as (x & Hx & _ & E & Hsel).
    assert (x = m) as ->; [|done]. apply list_elem_of_lookup in Hx as [i Hi], Hm as [j Hj].
    assert (i = j) as ->; [|congruence]. eapply (NoDup_lookup _ i j (ms_id m) Hnd); rewrite list_lookup_fmap; [rewrite Hi|rewrite Hj]; simpl; congruence.
Qed.

Lemma channel_counted o db c s f ch :
  built (candidate_options o) db c → built o db s → built o db f →
  negb (ch_GuildID ch =? directMessageGuildID)%string && channel_selected c s ch = exports f "channels" (exported_channel ch).
Proof.
  intros Hc Hs Hf. rewrite exports_allow, allow_channels_table by done.
  destruct (exported_channel_get ch) as (-> & ->). unfold isLocalOnlyGuildID.
  destruct (ch_GuildID ch =? directMessageGuildID)%string eqn:Eg; [done|]. cbn [negb andb].
  assert (allowChannelID f (ch_ID ch) = allowChannelID s (ch_ID ch)) as Efs.
  { destruct (built_cases _ _ _ Hf) as [[Eo Ef]|[Eo Df]], (built_cases _ _ _ Hs) as [[Eo' Es]|[Eo' Ds]]; try congruence.
    - unfold allowChannelID. by rewrite Ef, Es.
    - apply eq_true_iff_eq. by rewrite !allowChannelID_describes. }
  assert (channel_selected c s ch = allowChannelID s (ch_ID ch)) as ->.
  { unfold channel_selected. destruct (allowChannelID s (ch_ID ch)) eqn:E; [|apply andb_false_r].
    by rewrite (candidate_allows o db c s). }
  rewrite <- Efs. unfold allowChannelID. by destruct (active f).
Qed.

(** The preflight tells what the export would do: on an archive whose
    message ids are keys, the numbers of allowed messages and channels that it
    reports are the numbers of message and channel rows that [Export] writes
    with the same options, whatever orders the maps are visited in; no count of
    excluded rows is negative; and a scope is reported empty exactly when no
    message row would be written. *)
Theorem preflight_counts_the_export order order' guild_order db o p f :
  keyed db → visits order db → visits order' db → built o db f →
  PreflightPublishScope decode_source order order' guild_order db o = Some (inr p) →
  Allowed (Messages p) = count (λ m, exports f "messages" (exported_message m)) (message_rows db) ∧
  Allowed (Channels p) = count (λ ch, exports f "channels" (exported_channel ch)) (channel_rows db) ∧
  0 <= Excluded (Messages p) ∧ 0 <= Excluded (Channels p) ∧
  (Empty p = true ↔ ∀ m, m ∈ message_rows db → exports f "messages" (exported_message m) = false).
Proof.
  intros Hk Hv Hv' Hf. unfold PreflightPublishScope. change (Filter false _ _) with (candidate_options o).
  destruct (newSnapshotFilter order db _) as [[|c]|] eqn:Ec; [done| |done].
  destruct (newSnapshotFilter order' db o) as [[|s]|] eqn:Es; [done| |done].
  assert (built (candidate_options o) db c) as Hc by (by exists order). assert (built o db s) as Hs by (by exists order').
  unfold countPublishScopeChannels, countPublishScopeMessages.
  match goal with |- context [foldl (count_channel c s) (?g, ?n) ?l] => pose proof (counted_channels c s l g n) as Hch; destruct (foldl (count_channel c s) (g, n) l) as [guilds nch] end.
  match goal with |- context [foldl (count_message c s ?cg) (?g, ?n) ?l] => pose proof (counted_messages c s cg l g n) as Hms; destruct (foldl (count_message c s cg) (g, n) l) as [guilds' nms] end.
  cbn [snd Allowed Candidate] in Hch, Hms. destruct Hch as [Hcha Hchc], Hms as [Hma Hmc]. intros [= <-].
  unfold exclude_rest. cbn [Messages Channels Allowed Excluded Empty].
  assert (Allowed nms = count (λ m, exports f "messages" (exported_message m)) (message_rows db)) as Hm.
  { rewrite Hma, count_filter, Z.add_0_l. apply count_ext. intros m Hm. by apply (message_counted o db). }
  split_and!; [exact Hm| | | |].
  - rewrite Hcha. unfold remote_channels. rewrite count_filter, Z.add_0_l. apply count_ext. intros ch _. by apply (channel_counted o db).
  - rewrite Hma, Hmc. unfold message_selected.
    enough (count (message_selected c s) (List.filter remote_message (message_rows db)) <= count (λ m, allowChannelID c (ms_channel m)) (List.filter remote_message (message_rows db))) by (unfold message_selected in *; lia).
    apply count_le. unfold message_selected. intros m _ H. by apply andb_true_iff in H as [? _].
  - rewrite Hcha, Hchc. enough (count (channel_selected c s) (remote_channels db) <= count (λ ch, allowChannelID c (ch_ID ch)) (remote_channels db)) by lia.
    apply count_le. unfold channel_selected. intros m _ H. by apply andb_true_iff in H as [? _].
  - rewrite Z.eqb_eq, Hm. apply count_zero.
Qed.
End PreflightLaws.

(** ** A concrete guild and a concrete archive *)

(** A payload as a sequence of texts, each byte after a dot, each text closed by
    a semicolon. *)
Fixpoint write_text (s : string) : string :=
  match s with
  | EmptyString => ";"
  | String c t => String "." (String c (write_text t))
  end.

Fixpoint read_text (s : string) : option (string * string) :=
  match s with
  | String a ((String c t) as s') =>
      if Ascii.eqb a ";" then Some ("", s')%string
      else match read_text t with Some (w, rest) => Some (String c w, rest) | None => None end
  | String a EmptyString => if Ascii.eqb a ";" then Some ("", "")%string else None
  | EmptyString => None
  end.

Lemma read_write_text s t : read_text (write_text s ++ t) = Some (s, t).
Proof. induction s as [|c s IH]; simpl; [by destruct t|]. by rewrite IH. Qed.

Fixpoint write_roles (l : list (string * string)) : string :=
  match l with
  | [] => ""
  | (id, p) :: l => write_text id ++ write_text p ++ write_roles l
  end.

Fixpoint read_roles (fuel : nat) (s : string) : list role_payload :=
  match fuel with
  | O => []
  | S k => match read_text s with
           | Some (id, s) => match read_text s with
                             | Some (p, s) => Role id (JString p) :: read_roles k s
                             | None => []
                             end
           | None => []
           end
  end.

Lemma read_write_roles l k : (length l <= k)%nat → read_roles k (write_roles l) = published_role <$> l.
Proof.
  revert k. induction l as [|[id p] l IH]; intros k Hk; [by destruct k|]. destruct k as [|k]; [simpl in Hk; lia|].
  cbn [read_roles write_roles]. rewrite read_write_text, read_write_text. simpl. rewrite IH by (simpl in Hk; lia). done.
Qed.

Definition text_json : SnapshotJSON := {|
  decode_roles raw :=
    match read_text raw with
    | Some (_, s) => match read_text s with
                     | Some (_, s) => match read_text s with
                                      | Some (_, s) => Some (read_roles (String.length s) s)
                                      | None => None
                                      end
                     | None => None
                     end
    | None => None
    end;
  decode_overwrites _ := Some (Some []);
  marshal_guild g := write_text (pg_id g) ++ write_text (pg_name g) ++ write_text (pg_icon g) ++ write_roles (pg_roles g) |}%string.

Lemma length_write_roles l : (length l <= String.length (write_roles l))%nat.
Proof.
  induction l as [|[id p] l IH]; simpl; [lia|]. rewrite length_append. destruct id; simpl; rewrite ?length_append; lia.
Qed.

Lemma read_roles_text k s r t : r ∈ read_roles k s → role_permissions r ≠ JFloat t.
Proof.
  revert s. induction k as [|k IH]; intros s; simpl; [by intros ?%elem_of_nil|].
  destruct (read_text s) as [[id s1]|]; [|by intros ?%elem_of_nil].
  destruct (read_text s1) as [[p s2]|]; [|by intros ?%elem_of_nil].
  intros [->|?]%elem_of_cons; [done|by eapply IH].
Qed.

#[export] Instance text_json_laws : SnapshotJSONLaws (H := text_json).
Proof.
  split.
  - intros g. cbn. rewrite read_write_text, read_write_text, read_write_text. f_equal. apply read_write_roles, length_write_roles.
  - intros raw l r t. cbn. repeat case_match; try done. intros [= <-]. apply read_roles_text.
Qed.

Definition guild_row : row :=
  {["id"%string := CString "g"; "name"%string := CString "Guild"; "icon"%string := CNull;
    "raw_json"%string := CString (marshal_guild (SnapshotJSON := text_json) (PublishedGuild "g" "Guild" "" [("mods", "8"); ("g", "1024")]))]}%string.

Definition guild_row_published : row :=
  match projectPublishedGuild (json := text_json) guild_row with inr r => r | inl _ => ∅ end.

Lemma projected_guild_keeps_everyone_witness :
  everyoneGuildPermissions (json := text_json) (stringValue (guild_row_published !! "raw_json"%string)) "g" = Some 1024 ∧
  (∀ c, c ≠ "raw_json"%string → guild_row_published !! c = guild_row !! c).
Proof.
  destruct (projected_guild_keeps_everyone (json := text_json) (laws := text_json_laws) guild_row guild_row_published) as (Hc & _ & He);
    [vm_compute; reflexivity|].
  split; [|exact Hc].
  change (stringValue (guild_row !! "id"%string)) with "g"%string in He. rewrite He. vm_compute. reflexivity.
Defined.

Definition list_order : gmap string PublishScopeGuild → list (string * PublishScopeGuild) := map_to_list.

Definition small_archive : archive :=
  Archive (guild_rows toy_archive) (channel_rows toy_archive) [MessageScope "10" "g" "2" (Some "u"); MessageScope "11" "g" "4" (Some "v")]%string
    [] (state_scopes toy_archive).

Definition small_filter : snapshotFilter :=
  match newSnapshotFilter (json := toy_json) toy_order small_archive toy_public with Some (inr f) => f | _ => initial small_archive toy_public end.

Definition small_report : PublishScopePreflight :=
  match PreflightPublishScope (json := toy_json) (λ _, None) toy_order toy_order list_order small_archive toy_public with
  | Some (inr p) => p
  | _ => Preflight false false [] [] [] (ScopeCount 0 0 0) (ScopeCount 0 0 0) false "" [] ""
  end.

Lemma small_keyed : keyed small_archive.
Proof.
  split; [by apply (bool_decide_unpack _); vm_compute|].
  intros m Hm. simpl in Hm. repeat (apply elem_of_cons in Hm as [->|Hm]; [done|]). by apply elem_of_nil in Hm.
Qed.

Lemma preflight_counts_the_export_witness :
  Allowed (Messages small_report) = 1 ∧ Excluded (Messages small_report) = 1 ∧
  Allowed (Messages small_report) = count (λ m, exports (json := toy_json) small_filter "messages" (exported_message m)) (message_rows small_archive).
Proof.
  split; [vm_compute; reflexivity|]. split; [vm_compute; reflexivity|].
  apply (preflight_counts_the_export (json := toy_json) (λ _, None) toy_order toy_order list_order small_archive toy_public small_report small_filter).
  - exact small_keyed.
  - exact toy_visits.
  - exact toy_visits.
  - exists toy_order. split; [exact toy_visits|vm_compute; reflexivity].
  - vm_compute. reflexivity.
Defined.
