(* ===== verification/ShareMerge.v ===== *)
(** * Merging a published snapshot

    internal/share/merge.go, rows.go and the row state of import.go and
    media.go: which changes of a publication an ordinary update may merge, what
    a row must look like, which of two revisions of a row wins, and how a row is
    written. A table is a map from primary keys to rows; a column that a row
    does not have is null. The import machinery (crawlkit's [snapshot]) is a
    library; its plan is a parameter. *)
From S2P Require Import Prelude Decimal Errors SyncState GoTime GoText ShareFilter.
Local Open Scope Z_scope.

(** ** The plan *)

Inductive import_mode := TableImportSkip | TableImportFiles | TableImportReplace.

Record TableManifest := Table { tm_Name : string; tm_Columns : list string; tm_Rows : Z }.
Record FileManifest := File { fm_Path : string; fm_Rows : Z }.
Record TableImportPlan := TablePlan {
  tp_Table : TableManifest; tp_Mode : import_mode; tp_Reason : string; tp_Files : list FileManifest }.
Record ImportPlan := Plan { Full : bool; Reason : string; Tables : list TableImportPlan }.

(** [ReplacementRequiredError] by its [Reason] and [Tables]. *)
Record ReplacementRequiredError := ReplacementRequired { rr_Reason : string; rr_Tables : list string }.

Definition join_comma (l : list string) : string := String.concat ", " l.

Definition replacement_text (e : ReplacementRequiredError) : string :=
  let detail := match rr_Tables e with
                | [] => TrimSpace (rr_Reason e)
                | l => ("tables: " ++ join_comma l)%string
                end in
  (if (detail =? "")%string then "share snapshot replacement required"
   else "share snapshot replacement required (" ++ detail ++ ")")%string.

Definition manifestTable (tables : list TableManifest) (name : string) : TableManifest :=
  default (Table "" [] 0) (List.find (λ t, (tm_Name t =? name)%string) tables).

(** The tombstone columns found so far; a second occurrence fails. *)
Fixpoint split_tombstones (seen : list string) (current : list string) : option (list string * list string) :=
  match current with
  | [] => Some (seen, [])
  | c :: current =>
      if bool_decide (c ∈ ["deleted_at"; "deletion_source"; "deletion_reason"]%string) then
        if bool_decide (c ∈ seen) then None else split_tombstones (c :: seen) current
      else match split_tombstones seen current with
           | Some (seen, base) => Some (seen, c :: base)
           | None => None
           end
  end.

Definition isTombstoneColumnAddition (previous current : list string) : bool :=
  if negb (length current =? length previous + 3)%nat then false
  else match split_tombstones [] current with
       | None => false
       | Some (seen, base) =>
           bool_decide (Forall (λ c, c ∈ seen) ["deleted_at"; "deletion_source"; "deletion_reason"]%string) && bool_decide (previous = base)
       end.

Definition integrityColumnAdditions (table : string) : option (list string) :=
  if (table =? "channels")%string then Some ["collection_scope"; "scope_policy"; "scope_updated_at"; "deleted_at"; "deletion_source"]%string
  else if (table =? "messages")%string then Some ["text_parts_json"; "text_version"]%string
  else if (table =? "message_attachments")%string then Some ["text_status"; "text_error"; "text_attempted_at"; "text_succeeded_at"]%string
  else None.

Fixpoint additive_base (allowed previous current : list string) : option (list string) :=
  match current with
  | [] => Some []
  | c :: current =>
      if bool_decide (c ∈ previous) then cons c <$> additive_base allowed previous current
      else if bool_decide (c ∈ allowed) then additive_base allowed previous current else None
  end.

Definition isIntegrityColumnAddition (table : string) (previous current : list string) : bool :=
  match integrityColumnAdditions table with
  | None => false
  | Some allowed =>
      if (length previous =? 0)%nat || (length current <=? length previous)%nat then false
      else match additive_base allowed previous current with
           | None => false
           | Some base => bool_decide (previous = base)
           end
  end.

Definition skip_table (p : TableImportPlan) (reason : string) : TableImportPlan :=
  TablePlan (tp_Table p) TableImportSkip reason [].
Definition merge_files (p : TableImportPlan) (reason : string) : TableImportPlan :=
  TablePlan (tp_Table p) TableImportFiles reason (tp_Files p).

Definition is_replace (m : import_mode) : bool := match m with TableImportReplace => true | _ => false end.
Definition is_files (m : import_mode) : bool := match m with TableImportFiles => true | _ => false end.

(** One table of the plan: what is merged, or the name of a table to replace. *)
Definition merge_table (previous : list TableManifest) (allowEventMerge : bool) (p : TableImportPlan) : TableImportPlan + string :=
  let name := tm_Name (tp_Table p) in
  let before := tm_Columns (manifestTable previous name) in
  let after := tm_Columns (tp_Table p) in
  if bool_decide (name ∈ ["message_events"; "mention_events"]%string) then
    if allowEventMerge && is_files (tp_Mode p) then inl p else inl (skip_table p "force-only snapshot table")
  else if (name =? "sync_state")%string then inl (skip_table p "local ownership")
  else if negb (bool_decide (name ∈ ["guilds"; "channels"; "members"; "messages"; "message_attachments"]%string)) then inr name
  else if is_replace (tp_Mode p) then
    if bool_decide (name ∈ ["guilds"; "members"]%string) && (tp_Reason p =? "columns changed")%string && isTombstoneColumnAddition before after
    then inl (merge_files p "merge tombstone-aware entity rows")
    else if (tp_Reason p =? "columns changed")%string && isIntegrityColumnAddition name before after
    then inl (merge_files p "merge rows with additive integrity columns")
    else inr name
  else inl p.

Definition lefts {A B} (l : list (A + B)) : list A := omap (λ x, match x with inl a => Some a | inr _ => None end) l.
Definition rights {A B} (l : list (A + B)) : list B := omap (λ x, match x with inl _ => None | inr b => Some b end) l.

Definition shareMergePlan (plan : ImportPlan) (previous : list TableManifest) (allowEventMerge : bool) : ReplacementRequiredError + ImportPlan :=
  if Full plan then inl (ReplacementRequired (Reason plan) [])
  else
    let merged := merge_table previous allowEventMerge <$> Tables plan in
    match rights merged with
    | [] => inr (Plan false "" (lefts merged))
    | replacements => inl (ReplacementRequired "" (merge_sort string_le replacements))
    end.

Definition mergePlanSearchRebuilds (plan : ImportPlan) : bool * bool :=
  (false, existsb (λ p, match tp_Mode p with TableImportSkip => false | _ => (tm_Name (tp_Table p) =? "members")%string end) (Tables plan)).

Definition sum_rows (l : list Z) : Z := foldr Z.add 0 l.

Definition importPlanRowCount (plan : ImportPlan) : Z :=
  if Full plan then 0
  else sum_rows ((λ p, match tp_Mode p with
                       | TableImportReplace => tm_Rows (tp_Table p)
                       | TableImportFiles => sum_rows (fm_Rows <$> tp_Files p)
                       | TableImportSkip => 0
                       end) <$> Tables plan).

(** ** Rows *)

Definition get (r : row) (c : string) : column := default CNull (r !! c).

Section Rows.
Context {parse : TimeParse}.
(** [strconv.ParseFloat], as far as whether it succeeds. *)
Variable parses_float : string → bool.
(** SQLite's [julianday], a fixed-point number, [None] for null. *)
Variable julianday : string → option Z.
(** The author's name in a message payload ([json_extract]). *)
Variable author_name : string → string.

Definition importValue (v : column) : column :=
  match v with
  | CNumber text => match ParseInt text with
                    | Some n => CInteger n
                    | None => if parses_float text then CReal text else CString text
                    end
  | v => v
  end.

(** *** Validation *)

Definition validateLive_column (table : string) (r : err + row) (column : string) : err + row :=
  match r with
  | inl e => inl e
  | inr r =>
      match get r column with
      | CNull => inr r
      | CString value => if negb (TrimSpace value =? "")%string then inl (EText (table ++ "." ++ column ++ " must be null for a live row"))
                         else inr (<[column := CNull]> r)
      | _ => inl (EText (table ++ "." ++ column ++ " must be null for a live row"))
      end
  end.

Definition validateLiveSnapshotTombstoneMetadata (table : string) (r : row) : err + row :=
  foldl (validateLive_column table) (inr r) ["deletion_source"; "deletion_reason"]%string.

Definition validateSnapshotRevision (table : string) (r : row) : err + row :=
  match get r "updated_at" with
  | CString value =>
      if (TrimSpace value =? "")%string then inl (EText (table ++ ".updated_at must be an RFC3339 string"))
      else match Parse layoutRFC3339Nano (TrimSpace value) with
           | None => inl (EWrap (table ++ ".updated_at must be RFC3339: ") (EText "cannot parse") "")
           | Some t => inr (<["updated_at"%string := CString (RFC3339Nano t)]> r)
           end
  | _ => inl (EText (table ++ ".updated_at must be an RFC3339 string"))
  end.

Definition add_missing (r : row) (column : string) : row :=
  match r !! column with Some _ => r | None => <[column := CNull]> r end.

Definition validateTombstone_column (table : string) (r : err + row) (column : string) : err + row :=
  match r with
  | inl e => inl e
  | inr r =>
      match get r column with
      | CString value =>
          if (TrimSpace value =? "")%string then inl (EText (table ++ "." ++ column ++ " must be a non-empty string for a tombstone"))
          else inr (<[column := CString (TrimSpace value)]> r)
      | _ => inl (EText (table ++ "." ++ column ++ " must be a non-empty string for a tombstone"))
      end
  end.

Definition entity_table (table : string) : bool := (table =? "guilds")%string || (table =? "members")%string.

Definition validateSnapshotRow (table : string) (r : row) : err + row :=
  if negb (table =? "messages")%string && negb (entity_table table) then inr r
  else
    match (if entity_table table
           then validateSnapshotRevision table (foldl add_missing r ["deleted_at"; "deletion_source"; "deletion_reason"]%string)
           else inr r) with
    | inl e => inl e
    | inr r =>
        let live r := if entity_table table then validateLiveSnapshotTombstoneMetadata table r else inr r in
        match get r "deleted_at" with
        | CNull => live r
        | CString value =>
            let value := TrimSpace value in
            if (value =? "")%string then live (<["deleted_at"%string := CNull]> r)
            else match Parse layoutRFC3339Nano value with
                 | None => inl (EWrap (table ++ ".deleted_at must be RFC3339: ") (EText "cannot parse") "")
                 | Some t =>
                     let r := <["deleted_at"%string := CString (RFC3339Nano t)]> r in
                     if entity_table table then foldl (validateTombstone_column table) (inr r) ["deletion_source"; "deletion_reason"]%string
                     else inr r
                 end
        | _ => inl (EText "messages.deleted_at must be a string or null")
        end
    end.

(** *** Revisions *)

Definition compareSnapshotRevisions (left right : string) : comparison :=
  match Parse layoutRFC3339Nano (TrimSpace left), Parse layoutRFC3339Nano (TrimSpace right) with
  | Some l, Some r => Z.compare l r
  | _, _ => String.compare (TrimSpace left) (TrimSpace right)
  end.

(** *** The database a merge writes *)

(** A row of the search index. *)
Record search_row := SearchRow {
  sr_message : string; sr_guild : string; sr_channel : string; sr_author : string; sr_author_name : string; sr_channel_name : string; sr_content : string }.

(** [observed] is [entity_checks] at kind [observed]; [appended] the rows added
    to the event tables, which get fresh ids. *)
Record database := Database {
  rows : gmap (string * list string) row;
  observed : gmap (string * list string) string;
  appended : list (string * row);
  search : gmap Z search_row }.

Definition set_rows x (d : database) := Database x (observed d) (appended d) (search d).
Definition set_search x (d : database) := Database (rows d) (observed d) (appended d) x.

Definition row_key (table : string) (r : row) : list string :=
  let get c := stringValue (r !! c) in
  if (table =? "members")%string then [get "guild_id"; get "user_id"]%string
  else if (table =? "message_attachments")%string then [get "attachment_id"%string]
  else [get "id"%string].

Definition tombstoned (r : row) : bool := match get r "deleted_at" with CNull => false | _ => true end.

Definition incoming_tombstone (r : row) : bool :=
  tombstoned r && negb (TrimSpace (stringValue (r !! "deleted_at"%string)) =? "")%string.

(** The revision a local row is defended with: its last observation counts
    when it is later than the row's own. *)
Definition local_revision (d : database) (table : string) (key : list string) (local : row) : string :=
  let updated := stringValue (local !! "updated_at"%string) in
  match observed d !! (table, key) with
  | Some checked => match compareSnapshotRevisions checked updated with Gt => checked | _ => updated end
  | None => updated
  end.

Definition shouldMergeObservedEntityRow (d : database) (table : string) (r : row) : bool :=
  if negb (bool_decide (table ∈ ["guilds"; "members"; "channels"; "messages"]%string)) then true
  else match rows d !! (table, row_key table r) with
       | None => true
       | Some local =>
           match compareSnapshotRevisions (stringValue (r !! "updated_at"%string)) (local_revision d table (row_key table r) local) with
           | Gt => true
           | Lt => false
           | Eq => negb (entity_table table && tombstoned local) || incoming_tombstone r
           end
       end.

(** [insert or replace] drops the old row; [on conflict do update] keeps the
    columns the new row does not name, under the guard on [updated_at]. *)
Definition upsertSnapshotRow (d : database) (table : string) (r : row) (protectNewer : bool) : bool * database :=
  let r' := importValue <$> r in
  let key := (table, row_key table r) in
  if negb protectNewer then (true, set_rows (<[key := r']> (rows d)) d)
  else match rows d !! key with
       | None => (true, set_rows (<[key := r']> (rows d)) d)
       | Some old =>
           let day x := default 0 (julianday (stringValue (x !! "updated_at"%string))) in
           if day old <=? day r' then (true, set_rows (<[key := r' ∪ old]> (rows d)) d) else (false, d)
       end.

(** An incremental row does not erase the text and the media the store has. *)
Definition preserveIncrementalAttachmentState (d : database) (r : row) : row :=
  let attachmentID := stringValue (r !! "attachment_id"%string) in
  if (attachmentID =? "")%string then r
  else match rows d !! ("message_attachments"%string, [attachmentID]) with
       | None => r
       | Some record =>
           let text c := CString (stringValue (record !! c)) in
           let r := if (stringValue (r !! "text_content"%string) =? "")%string then <["text_content"%string := text "text_content"%string]> r else r in
           if (stringValue (r !! "media_path"%string) =? "")%string then
             <["media_path"%string := text "media_path"%string]> (<["content_sha256"%string := text "content_sha256"%string]>
             (<["content_size"%string := get record "content_size"]> (<["fetched_at"%string := text "fetched_at"%string]>
             (<["fetch_status"%string := text "fetch_status"%string]> (<["fetch_error"%string := text "fetch_error"%string]> r)))))
           else r
       end.

Definition event_table (table : string) : bool := bool_decide (table ∈ ["message_events"; "mention_events"]%string).

Definition upsertMergeSnapshotRow (d : database) (table : string) (r : row) : bool * database :=
  let r := if event_table table then delete "event_id"%string r else r in
  let r := if (table =? "message_attachments")%string then preserveIncrementalAttachmentState d r else r in
  if negb (shouldMergeObservedEntityRow d table r) then (false, d)
  else if event_table table then (true, Database (rows d) (observed d) (appended d ++ [(table, importValue <$> r)]) (search d))
  else upsertSnapshotRow d table r (bool_decide (table ∈ ["channels"; "messages"]%string)).

(** *** The search index *)

Definition channel_name (d : database) (id : string) : string :=
  match rows d !! ("channels"%string, [id]) with Some ch => stringValue (ch !! "name"%string) | None => "" end.

Definition upsertMessageFTSRow (d : database) (messageID : string) : database :=
  match MessageFTSRowID messageID, rows d !! ("messages"%string, [messageID]) with
  | Some id, Some m =>
      let get c := stringValue (m !! c) in
      set_search (<[id := SearchRow messageID (get "guild_id") (get "channel_id") (get "author_id") (author_name (get "raw_json"))
                            (channel_name d (get "channel_id")) (get "normalized_content")]> (search d)) d
  | _, _ => d
  end%string.

Definition rename_channel (d : database) (channelID name : string) : database :=
  set_search ((λ s, if (sr_channel s =? channelID)%string
                    then SearchRow (sr_message s) (sr_guild s) (sr_channel s) (sr_author s) (sr_author_name s) name (sr_content s) else s)
              <$> search d) d.

Definition importMergeSnapshotRow (d : database) (table : string) (r : row) : database :=
  let channelID := if (table =? "channels")%string then stringValue (r !! "id"%string) else ""%string in
  let previousName := if nonempty channelID then channel_name d channelID else ""%string in
  let '(applied, d) := upsertMergeSnapshotRow d table r in
  if negb applied then d
  else if (table =? "messages")%string then
    let messageID := stringValue (r !! "id"%string) in
    if nonempty messageID then upsertMessageFTSRow d messageID else d
  else
    let currentName := stringValue (r !! "name"%string) in
    if (channelID =? "")%string || (previousName =? currentName)%string then d
    else rename_channel d channelID currentName.

(** The row filter of an incremental import, then the write. *)
Definition merge_row (d : database) (table : string) (r : row) : err + database :=
  if isDirectMessageSnapshotRow table r then inr d
  else match validateSnapshotRow table r with
       | inl e => inl e
       | inr r => inr (importMergeSnapshotRow d table r)
       end.

Fixpoint merge_rows (d : database) (l : list (string * row)) : err + database :=
  match l with
  | [] => inr d
  | (table, r) :: l => match merge_row d table r with inl e => inl e | inr d => merge_rows d l end
  end.
End Rows.

(** ** The plan of an update *)

#[export] Instance string_le_trans : Transitive string_le.
Proof. intros a b c. apply leb_trans. Qed.

Lemma elem_of_lefts {A B} (l : list (A + B)) a : a ∈ lefts l ↔ inl a ∈ l.
Proof. unfold lefts. rewrite list_elem_of_omap. split; [intros ([x|x] & ? & [= ->]); done|intros; by exists (inl a)]. Qed.

Lemma elem_of_rights {A B} (l : list (A + B)) b : b ∈ rights l ↔ inr b ∈ l.
Proof. unfold rights. rewrite list_elem_of_omap. split; [intros ([x|x] & ? & [= ->]); done|intros; by exists (inr b)]. Qed.

Lemma lefts_all {A B} (l : list (A + B)) : rights l = [] → l = inl <$> lefts l.
Proof. induction l as [|[a|b] l IH]; simpl; [done| |done]. intros H. f_equal. by apply IH. Qed.

(** What an update may do to a table without an explicit replacement. *)
Definition mergeable (allowEventMerge : bool) (p : TableImportPlan) : Prop :=
  tp_Mode p = TableImportSkip ∨
  tp_Mode p = TableImportFiles ∧
  (tm_Name (tp_Table p) ∈ ["guilds"; "channels"; "members"; "messages"; "message_attachments"]%string ∨
   allowEventMerge = true ∧ tm_Name (tp_Table p) ∈ ["message_events"; "mention_events"]%string).

(** The tables an update may not touch without one. *)
Definition needs_replacement (previous : list TableManifest) (p : TableImportPlan) : Prop :=
  let name := tm_Name (tp_Table p) in
  let before := tm_Columns (manifestTable previous name) in
  name ∉ ["message_events"; "mention_events"; "sync_state"]%string ∧
  (name ∉ ["guilds"; "channels"; "members"; "messages"; "message_attachments"]%string ∨
   tp_Mode p = TableImportReplace ∧
   ¬ (tp_Reason p = "columns changed"%string ∧
      (name ∈ ["guilds"; "members"]%string ∧ isTombstoneColumnAddition before (tm_Columns (tp_Table p)) = true ∨
       isIntegrityColumnAddition name before (tm_Columns (tp_Table p)) = true))).

Lemma merge_table_spec previous allow p :
  match merge_table previous allow p with
  | inl q => tp_Table q = tp_Table p ∧ mergeable allow q ∧ ¬ needs_replacement previous p
  | inr name => name = tm_Name (tp_Table p) ∧ needs_replacement previous p
  end.
Proof.
  unfold merge_table, mergeable, needs_replacement.
  set (name := tm_Name (tp_Table p)). set (before := tm_Columns (manifestTable previous name)). set (after := tm_Columns (tp_Table p)).
  destruct (bool_decide (name ∈ ["message_events"; "mention_events"]%string)) eqn:Eev; propify.
  { assert (¬ (name ∉ ["message_events"; "mention_events"; "sync_state"]%string)) by set_solver.
    destruct (allow && is_files (tp_Mode p)) eqn:Ea; [|split_and!; [done|by left|naive_solver]].
    apply andb_true_iff in Ea as [-> Em]. split_and!; [done| |naive_solver]. right. split; [by destruct (tp_Mode p)|auto]. }
  destruct (String.eqb_spec name "sync_state") as [Es|Es]; [split_and!; [done|by left|set_solver]|].
  assert (name ∉ ["message_events"; "mention_events"; "sync_state"]%string) as Hnone by set_solver.
  destruct (bool_decide (name ∈ ["guilds"; "channels"; "members"; "messages"; "message_attachments"]%string)) eqn:Een; propify; cbn [negb]; [|naive_solver].
  destruct (is_replace (tp_Mode p)) eqn:Er.
  - assert (tp_Mode p = TableImportReplace) as Hm by (by destruct (tp_Mode p)).
    destruct (bool_decide (name ∈ ["guilds"; "members"]%string) && _ && _) eqn:Et.
    + apply andb_true_iff in Et as [[Hn%bool_decide_eq_true Hr%String.eqb_eq]%andb_true_iff Ht]. split_and!; [done|right; auto|naive_solver].
    + destruct ((tp_Reason p =? "columns changed")%string && isIntegrityColumnAddition name before after) eqn:Ei.
      * apply andb_true_iff in Ei as [Hr%String.eqb_eq Hi]. split_and!; [done|right; auto|naive_solver].
      * split; [done|]. split; [done|right]. split; [done|]. intros (Hr & [[Hn Ht]|Hi]).
        -- rewrite Hr, Ht, (bool_decide_eq_true_2 _ Hn) in Et. done.
        -- by rewrite Hr, Hi in Ei.
  - split_and!; [done| |intros (_ & [?|[Hm _]]); [done|by rewrite Hm in Er]].
    destruct (tp_Mode p); [by left|right; auto|done].
Qed.

(** An ordinary update merges a publication only when it can: the plan is
    accepted exactly when it is incremental and no table of it needs a
    replacement, and then it names the same tables in the same order, every
    one either skipped or merged file by file; the cursors of [sync_state] and,
    unless the archive has no events yet, the event tables are never written.
    Otherwise the update is refused, with the sorted names of exactly the
    tables that need the replacement. *)
Theorem shareMergePlan_conservative plan previous allow :
  match shareMergePlan plan previous allow with
  | inr out => Full plan = false ∧ (∀ p, p ∈ Tables plan → ¬ needs_replacement previous p) ∧
      tp_Table <$> Tables out = tp_Table <$> Tables plan ∧ ∀ p, p ∈ Tables out → mergeable allow p
  | inl e => if Full plan then e = ReplacementRequired (Reason plan) []
      else rr_Tables e ≠ [] ∧ (∀ name, name ∈ rr_Tables e ↔ ∃ p, p ∈ Tables plan ∧ needs_replacement previous p ∧ tm_Name (tp_Table p) = name) ∧
           StronglySorted string_le (rr_Tables e)
  end.
Proof.
  unfold shareMergePlan. destruct (Full plan) eqn:Ef; [done|].
  set (merged := merge_table previous allow <$> Tables plan).
  assert (∀ name, name ∈ rights merged ↔ ∃ p, p ∈ Tables plan ∧ needs_replacement previous p ∧ tm_Name (tp_Table p) = name) as Hright.
  { intros name. rewrite elem_of_rights. unfold merged. rewrite list_elem_of_fmap. split.
    - intros (p & E & Hp). pose proof (merge_table_spec previous allow p) as H. rewrite <- E in H. destruct H as [-> ?]. eauto.
    - intros (p & Hp & Hr & <-). exists p. split; [|done]. pose proof (merge_table_spec previous allow p) as H.
      destruct (merge_table previous allow p); [naive_solver|]. by destruct H as [-> _]. }
  destruct (rights merged) as [|n ns] eqn:Er; rewrite <- Er in *.
  - assert (∀ p, p ∈ Tables plan → ¬ needs_replacement previous p) as Hno.
    { intros p Hp Hn. assert (tm_Name (tp_Table p) ∈ rights merged) as H by (apply Hright; eauto). rewrite Er in H. by apply elem_of_nil in H. }
    pose proof (lefts_all merged Er) as Hl. split_and!; [done|done| |].
    + simpl. assert (∀ l (qs : list TableImportPlan), merge_table previous allow <$> l = inl <$> qs → tp_Table <$> qs = tp_Table <$> l) as H.
      { induction l as [|p l IH]; intros [|q qs]; simpl; try done. intros [= Hq Hqs]. f_equal; [|by apply IH].
        pose proof (merge_table_spec previous allow p) as H. rewrite Hq in H. by destruct H. }
      by apply H.
    + simpl. intros q Hq%elem_of_lefts. unfold merged in Hq. apply list_elem_of_fmap in Hq as (p & E & Hp).
      pose proof (merge_table_spec previous allow p) as H. rewrite <- E in H. by destruct H as (_ & ? & _).
  - cbn [rr_Tables]. split_and!; [|intros name; by rewrite merge_sort_Permutation, Hright|apply (StronglySorted_merge_sort string_le)].
    intros E. pose proof (merge_sort_Permutation string_le (rights merged)) as Hp. simpl in E. rewrite E, Er in Hp. by apply Permutation_nil_cons in Hp.
Qed.

(** ** Which revision wins *)

Section Newest.
Context {parse : TimeParse} (parses_float : string → bool) (julianday : string → option Z) (author_name : string → string).

Definition dated (text : string) : Prop := is_Some (Parse layoutRFC3339Nano (TrimSpace text)).
Definition revision (text : string) : Z := default 0 (Parse layoutRFC3339Nano (TrimSpace text)).

Lemma compare_dated a b : dated a → dated b → compareSnapshotRevisions a b = Z.compare (revision a) (revision b).
Proof. unfold dated, compareSnapshotRevisions, revision. by intros [x ->] [y ->]. Qed.

Definition updated (r : row) : string := stringValue (r !! "updated_at"%string).

(** A row's place in time: its revision, and a tombstone after a live row of
    the same revision. *)
Definition rank (r : row) : Z * bool := (revision (updated r), tombstoned r).
Definition rank_le (a b : Z * bool) : Prop := a.1 < b.1 ∨ a.1 = b.1 ∧ (a.2 = true → b.2 = true).

Lemma rank_le_refl a : rank_le a a.
Proof. right. auto. Qed.

Lemma rank_le_trans a b c : rank_le a b → rank_le b c → rank_le a c.
Proof. unfold rank_le. intros [?|[? ?]] [?|[? ?]]; [left; lia|left; lia|left; lia|right; split; [lia|auto]]. Qed.

Lemma stored_updated v s : get v "updated_at" = CString s → updated (importValue parses_float <$> v) = s ∧ updated v = s.
Proof.
  unfold get, updated. rewrite lookup_fmap. destruct (v !! "updated_at"%string) as [c|]; simpl; [|done]. by intros ->.
Qed.

Lemma stored_tombstone v : tombstoned (importValue parses_float <$> v) = tombstoned v.
Proof.
  unfold tombstoned, get. rewrite lookup_fmap. destruct (v !! "deleted_at"%string) as [[]|]; simpl; try done. by repeat case_match.
Qed.

Lemma stored_rank v s : get v "updated_at" = CString s → rank (importValue parses_float <$> v) = rank v.
Proof.
  intros H. unfold rank. rewrite stored_tombstone. destruct (stored_updated v s H) as [-> ->]. done.
Qed.

(** *** Validated rows *)

Lemma get_insert_ne r c c' v : c ≠ c' → get (<[c := v]> r) c' = get r c'.
Proof. intros H. unfold get. by rewrite lookup_insert_ne. Qed.

Lemma get_insert_eq r c v : get (<[c := v]> r) c = v.
Proof. unfold get. by rewrite lookup_insert_eq. Qed.

(** The two checks of the deletion's source and reason change those columns only. *)
Definition touches_deletion (r v : row) : Prop :=
  ∀ c, c ≠ "deletion_source"%string → c ≠ "deletion_reason"%string → get v c = get r c.

Lemma two_steps (step : err + row → string → err + row) r v :
  (∀ e col, step (inl e) col = inl e) →
  (∀ col a b c, c ≠ col → step (inr a) col = inr b → get b c = get a c) →
  foldl step (inr r) ["deletion_source"; "deletion_reason"]%string = inr v → touches_deletion r v.
Proof.
  intros He Hstep H c Hs Hr. cbn [foldl] in H.
  destruct (step (inr r) "deletion_source"%string) as [e|r1] eqn:E1; [by rewrite He in H|].
  rewrite (Hstep _ _ _ c Hr H). by apply (Hstep _ _ _ c Hs E1).
Qed.

Lemma live_touches table r v : validateLiveSnapshotTombstoneMetadata table r = inr v → touches_deletion r v.
Proof.
  apply two_steps; [done|]. intros col a b c Hne. simpl. repeat case_match; intros [=]; subst; try done. by apply get_insert_ne.
Qed.

Lemma tombstone_touches table r v :
  foldl (validateTombstone_column table) (inr r) ["deletion_source"; "deletion_reason"]%string = inr v → touches_deletion r v.
Proof.
  apply two_steps; [done|]. intros col a b c Hne. simpl. repeat case_match; intros [=]; subst; try done. by apply get_insert_ne.
Qed.

(** A validated guild or member row carries a revision, and either no deletion
    or the time of one. *)
Lemma validated_entity table r v :
  entity_table table = true → validateSnapshotRow table r = inr v →
  (∃ s, get v "updated_at" = CString s) ∧ (get v "deleted_at" = CNull ∨ ∃ t, get v "deleted_at" = CString (RFC3339Nano t)).
Proof.
  intros He. unfold validateSnapshotRow. rewrite He. cbn [negb]. rewrite andb_false_r.
  set (r0 := foldl add_missing r _). unfold validateSnapshotRevision.
  destruct (get r0 "updated_at") as [|s| | | |]; try done. destruct (TrimSpace s =? "")%string; [done|].
  destruct (Parse layoutRFC3339Nano (TrimSpace s)) as [t|]; [|done].
  set (r1 := <["updated_at"%string := CString (RFC3339Nano t)]> r0).
  assert (∃ u, get r1 "updated_at" = CString u) as Hu by (unfold r1; rewrite get_insert_eq; eauto).
  clearbody r1. clear -Hu. intros H.
  destruct (get r1 "deleted_at") as [|d| | | |] eqn:Ed; try done.
  - apply live_touches in H. rewrite !H by done. auto.
  - destruct (TrimSpace d =? "")%string.
    + apply live_touches in H. rewrite !H by done. rewrite get_insert_ne, get_insert_eq by done. auto.
    + destruct (Parse layoutRFC3339Nano (TrimSpace d)) as [t|]; [|done]. apply tombstone_touches in H. rewrite !H by done.
      rewrite get_insert_ne, get_insert_eq by done. eauto.
Qed.

Lemma validated_tombstone table r v :
  entity_table table = true → validateSnapshotRow table r = inr v → incoming_tombstone v = tombstoned v.
Proof.
  intros He H. destruct (validated_entity table r v He H) as [_ [Hd|[t Hd]]].
  - unfold incoming_tombstone, tombstoned. by rewrite Hd.
  - unfold incoming_tombstone, tombstoned. rewrite Hd. unfold get in Hd.
    destruct (v !! "deleted_at"%string) as [x|]; [|done]. simpl in Hd. subst x. cbn [stringValue].
    by rewrite TrimSpace_RFC3339Nano, RFC3339Nano_nonempty.
Qed.

(** *** One row *)

Lemma import_rows d table r k :
  rows (importMergeSnapshotRow parses_float julianday author_name d table r) !! k = rows (upsertMergeSnapshotRow parses_float julianday d table r).2 !! k ∧
  observed (importMergeSnapshotRow parses_float julianday author_name d table r) = observed d.
Proof.
  assert (observed (upsertMergeSnapshotRow parses_float julianday d table r).2 = observed d) as Ho.
  { unfold upsertMergeSnapshotRow, upsertSnapshotRow. by repeat case_match. }
  unfold importMergeSnapshotRow. destruct (upsertMergeSnapshotRow parses_float julianday d table r) as [[] d1]; simpl in Ho; cbn [negb snd]; [|done].
  unfold upsertMessageFTSRow, rename_channel, set_search. repeat case_match; done.
Qed.

Lemma upsert_elsewhere d t r table key :
  entity_table table = true → (t ≠ table ∨ row_key t r ≠ key) →
  rows (upsertMergeSnapshotRow parses_float julianday d t r).2 !! (table, key) = rows d !! (table, key).
Proof.
  intros He Hne. unfold upsertMergeSnapshotRow.
  set (r0 := if event_table t then _ else r). set (r1 := if (t =? "message_attachments")%string then _ else r0).
  assert ((t, row_key t r1) ≠ (table, key)) as Hk.
  { intros [= -> Hk]. destruct Hne as [?|Hne]; [done|]. apply Hne. rewrite <- Hk. f_equal. unfold r1, r0.
    unfold entity_table in He. apply orb_true_iff in He as [->%String.eqb_eq| ->%String.eqb_eq]; done. }
  destruct (shouldMergeObservedEntityRow d t r1); cbn [negb]; [|done]. destruct (event_table t); [done|].
  unfold upsertSnapshotRow. repeat case_match; simpl; rewrite ?lookup_insert_ne; done.
Qed.

Lemma upsert_entity d table r :
  entity_table table = true →
  rows (upsertMergeSnapshotRow parses_float julianday d table r).2 !! (table, row_key table r) =
  if shouldMergeObservedEntityRow d table r then Some (importValue parses_float <$> r) else rows d !! (table, row_key table r).
Proof.
  intros He. unfold entity_table in He. apply orb_true_iff in He as [->%String.eqb_eq| ->%String.eqb_eq];
    unfold upsertMergeSnapshotRow; simpl; destruct (shouldMergeObservedEntityRow d _ r); cbn -[importValue]; rewrite ?lookup_insert_eq; done.
Qed.

(** The observation fence of a row. *)
Definition fenced (d : database) (table : string) (key : list string) (v : row) : Prop :=
  ∃ checked, observed d !! (table, key) = Some checked ∧ revision (updated v) <= revision checked.

Definition dated_at (d : database) (table : string) (key : list string) : Prop :=
  (∀ r, rows d !! (table, key) = Some r → dated (updated r)) ∧ (∀ c, observed d !! (table, key) = Some c → dated c).

Lemma should_merge_spec d table v local :
  entity_table table = true → dated_at d table (row_key table v) → dated (updated v) → incoming_tombstone v = tombstoned v →
  rows d !! (table, row_key table v) = Some local →
  if shouldMergeObservedEntityRow d table v then rank_le (rank local) (rank v)
  else fenced d table (row_key table v) v ∨ rank_le (rank v) (rank local).
Proof.
  intros He [Hr Hc] Hv Ht Hl. unfold shouldMergeObservedEntityRow. rewrite Hl, He, Ht.
  assert (bool_decide (table ∈ ["guilds"; "members"; "channels"; "messages"]%string) = true) as ->.
  { apply bool_decide_eq_true. unfold entity_table in He. apply orb_true_iff in He as [->%String.eqb_eq| ->%String.eqb_eq]; set_solver. }
  cbn [negb andb]. pose proof (Hr local Hl) as Hd. unfold local_revision. fold (updated v) (updated local).
  unfold fenced, rank_le, rank. cbn [fst snd].
  destruct (observed d !! (table, row_key table v)) as [c|] eqn:Ec.
  - specialize (Hc c eq_refl). rewrite (compare_dated c (updated local)) by done.
    destruct (Z.compare_spec (revision c) (revision (updated local))) as [E1|E1|E1]; rewrite compare_dated by done;
      destruct (Z.compare_spec (revision (updated v)) (revision (updated local))), (Z.compare_spec (revision (updated v)) (revision c));
      try lia; destruct (tombstoned local), (tombstoned v); cbn [negb orb]; naive_solver lia.
  - rewrite compare_dated by done. destruct (Z.compare_spec (revision (updated v)) (revision (updated local)));
      destruct (tombstoned local), (tombstoned v); cbn [negb orb]; naive_solver lia.
Qed.

(** *** All rows *)

(** What a row incoming to [table] at [key] is after validation. *)
Definition incoming (l : list (string * row)) (table : string) (key : list string) (v : row) : Prop :=
  ∃ r, (table, r) ∈ l ∧ isDirectMessageSnapshotRow table r = false ∧ validateSnapshotRow table r = inr v ∧ row_key table v = key.

Definition settled (d : database) (l : list (string * row)) (table : string) (key : list string) (d' : database) : Prop :=
  (∀ r, rows d !! (table, key) = Some r → ∃ r', rows d' !! (table, key) = Some r' ∧ rank_le (rank r) (rank r')) ∧
  (∀ v, incoming l table key v → fenced d table key v ∨ ∃ r', rows d' !! (table, key) = Some r' ∧ rank_le (rank v) (rank r')) ∧
  (∀ r', rows d' !! (table, key) = Some r' → rows d !! (table, key) = Some r' ∨ ∃ v, incoming l table key v ∧ r' = importValue parses_float <$> v).

Lemma merge_row_settled d t r d1 table key :
  entity_table table = true → dated_at d table key → (∀ v, incoming [(t, r)] table key v → dated (updated v)) →
  merge_row parses_float julianday author_name d t r = inr d1 →
  settled d [(t, r)] table key d1 ∧ dated_at d1 table key ∧ observed d1 = observed d.
Proof.
  intros He Hd Hin H. unfold merge_row in H.
  assert (∀ d2, rows d2 !! (table, key) = rows d !! (table, key) → observed d2 = observed d → (∀ v, ¬ incoming [(t, r)] table key v) →
    settled d [(t, r)] table key d2 ∧ dated_at d2 table key ∧ observed d2 = observed d) as Hsame.
  { intros d2 Hr Ho Hno. unfold settled, dated_at. split_and!; [| | | | |done].
    - intros x Hx. exists x. rewrite Hr. auto using rank_le_refl.
    - intros v Hv. by destruct (Hno v).
    - intros x Hx. left. by rewrite <- Hr.
    - rewrite Hr. apply Hd.
    - rewrite Ho. apply Hd. }
  destruct (isDirectMessageSnapshotRow t r) eqn:Edm.
  { injection H as <-. apply Hsame; [done..|]. intros v (x & [= -> ->]%list_elem_of_singleton & ? & _). congruence. }
  destruct (validateSnapshotRow t r) as [|v] eqn:Ev; [done|]. injection H as <-.
  destruct (import_rows d t v (table, key)) as [Hr Ho].
  destruct (decide (t = table ∧ row_key t v = key)) as [[-> <-]|Hne].
  - assert (incoming [(table, r)] table (row_key table v) v) as Hinc by (exists r; set_solver).
    destruct (validated_entity table r v He Ev) as [[s Hs] _]. pose proof (validated_tombstone table r v He Ev) as Ht.
    rewrite upsert_entity in Hr by done. pose proof (stored_rank v s Hs) as Hrank. specialize (Hin v Hinc).
    assert (∀ w, incoming [(table, r)] table (row_key table v) w → w = v) as Huniq.
    { intros w (x & [= ->]%list_elem_of_singleton & _ & Ew & _). congruence. }
    destruct (shouldMergeObservedEntityRow d table v) eqn:Es.
    + unfold settled, dated_at. split_and!; [| | | | |done].
      * intros x Hx. exists (importValue parses_float <$> v). split; [by rewrite Hr|]. rewrite Hrank.
        pose proof (should_merge_spec d table v x He Hd Hin Ht Hx) as H. by rewrite Es in H.
      * intros w ->%Huniq. right. exists (importValue parses_float <$> v). split; [by rewrite Hr|]. rewrite Hrank. apply rank_le_refl.
      * intros x Hx. right. exists v. split; [done|]. rewrite Hr in Hx. by injection Hx.
      * intros x. rewrite Hr. intros [= <-]. unfold dated. destruct (stored_updated v s Hs) as [-> <-]. apply Hin.
      * intros c. rewrite Ho. apply Hd.
    + assert (∃ local, rows d !! (table, row_key table v) = Some local) as [local Hl].
      { unfold shouldMergeObservedEntityRow in Es. destruct (negb _); [done|]. destruct (rows d !! _); eauto; done. }
      pose proof (should_merge_spec d table v local He Hd Hin Ht Hl) as H. rewrite Es in H. unfold settled, dated_at. split_and!; [| | | | |done].
      * intros x Hx. exists x. rewrite Hr. auto using rank_le_refl.
      * intros w ->%Huniq. destruct H as [?|H]; [by left|right]. exists local. by rewrite Hr.
      * intros x Hx. left. by rewrite <- Hr.
      * intros x. rewrite Hr. apply Hd.
      * intros c. rewrite Ho. apply Hd.
  - apply Hsame; [|done|].
    + rewrite Hr. apply upsert_elsewhere; [done|]. destruct (decide (t = table)); naive_solver.
    + intros w (x & [= -> ->]%list_elem_of_singleton & _ & Ew & Hk). apply Hne. split; [done|congruence].
Qed.

Lemma settled_trans d1 d2 d3 l1 l2 table key :
  observed d2 = observed d1 → settled d1 l1 table key d2 → settled d2 l2 table key d3 → settled d1 (l1 ++ l2) table key d3.
Proof.
  intros Ho (A1 & B1 & C1) (A2 & B2 & C2).
  assert (∀ v, incoming (l1 ++ l2) table key v ↔ incoming l1 table key v ∨ incoming l2 table key v) as Hin.
  { intros v. unfold incoming. setoid_rewrite elem_of_app. naive_solver. }
  split_and!.
  - intros r (r2 & H2 & ?)%A1. destruct (A2 _ H2) as (r3 & ? & ?). eauto using rank_le_trans.
  - intros v [Hv|Hv]%Hin.
    + destruct (B1 v Hv) as [?|(r2 & H2 & ?)]; [auto|right]. destruct (A2 _ H2) as (r3 & ? & ?). eauto using rank_le_trans.
    + destruct (B2 v Hv) as [(c & Hc & ?)|?]; [left; exists c; by rewrite <- Ho|auto].
  - intros r3 [H2|(v & Hv & ->)]%C2; [|right; exists v; split; [apply Hin; auto|done]].
    destruct (C1 _ H2) as [?|(v & Hv & ->)]; [auto|right; exists v; split; [apply Hin; auto|done]].
Qed.

(** C5: Merging keeps the newest: for a guild or a member, whatever rows a
    publication brings, in whatever order and however often, the stored row
    never goes back in time, and ends at least as new as every valid incoming
    row of its key that is not older than the last local observation of it; at
    equal revisions a tombstone wins over a live row; and what is stored is the
    row that was there or one of the incoming rows, never a mixture. *)
Theorem merge_keeps_the_newest table key d l d' :
  entity_table table = true → dated_at d table key → (∀ v, incoming l table key v → dated (updated v)) →
  merge_rows parses_float julianday author_name d l = inr d' → settled d l table key d'.
Proof.
  intros He. revert d. induction l as [|[t r] l IH]; intros d Hd Hin; simpl.
  { intros [= <-]. split_and!; [intros r Hr; exists r; auto using rank_le_refl| |auto]. intros v (x & ?%elem_of_nil & _). done. }
  destruct (merge_row parses_float julianday author_name d t r) as [|d1] eqn:E; [done|]. intros H.
  destruct (merge_row_settled d t r d1 table key He Hd) as (Hs & Hd1 & Ho); [|done|].
  { intros v (x & [= -> ->]%list_elem_of_singleton & ?). apply Hin. exists r. set_solver. }
  change ((t, r) :: l) with ([(t, r)] ++ l). eapply settled_trans; [exact Ho|exact Hs|]. apply IH; [done| |done].
  intros v (x & ? & ?). apply Hin. exists x. set_solver.
Qed.
End Newest.

(** ** A concrete merge *)

Definition toy_parse : TimeParse := λ _ text,
  if (text =? "2024-01-01T00:00:00Z")%string then Some 1704067200000000000
  else if (text =? "2024-01-02T00:00:00Z")%string then Some 1704153600000000000 else None.

Definition guild_at (updated : string) (deleted : column) (source : column) : row :=
  {["id"%string := CString "g"; "updated_at"%string := CString updated; "deleted_at"%string := deleted;
    "deletion_source"%string := source; "deletion_reason"%string := source]}.

Definition guild_live : row := guild_at "2024-01-02T00:00:00Z" CNull CNull.
Definition guild_gone : row := guild_at "2024-01-02T00:00:00Z" (CString "2024-01-02T00:00:00Z") (CString "left").
Definition guild_old : row := guild_at "2024-01-01T00:00:00Z" CNull CNull.

Definition one_guild : database := Database {[("guilds"%string, ["g"%string]) := guild_live]} ∅ [] ∅.
Definition publication : list (string * row) := [("guilds", guild_gone); ("guilds", guild_live); ("guilds", guild_old)]%string.
Definition merged_guild : database :=
  match merge_rows (parse := toy_parse) (λ _, true) (λ _, None) (λ _, "") one_guild publication with inr d => d | inl _ => one_guild end.

Lemma merge_keeps_the_newest_witness :
  settled (parse := toy_parse) (λ _, true) one_guild publication "guilds" ["g"]%string merged_guild ∧
  rows merged_guild !! ("guilds"%string, ["g"%string]) = Some guild_gone.
Proof.
  split; [|vm_compute; reflexivity].
  refine (merge_keeps_the_newest (parse := toy_parse) (λ _, true) (λ _, None) (λ _, ""%string) "guilds" ["g"]%string one_guild publication merged_guild
            eq_refl _ _ _).
  - split; intros x Hx; vm_compute in Hx; [|done]. injection Hx as <-. eexists. vm_compute. reflexivity.
  - intros v (r & Hr & _ & Hv & _). unfold publication in Hr.
    assert (is_Some (Parse (TimeParse := toy_parse) layoutRFC3339Nano (TrimSpace (updated v)))) as H; [|exact H].
    apply elem_of_cons in Hr as [E|Hr]; [|apply elem_of_cons in Hr as [E|Hr]; [|apply elem_of_cons in Hr as [E|Hr]]].
    + rewrite (f_equal snd E : r = guild_gone), (eq_refl : validateSnapshotRow (parse := toy_parse) "guilds" guild_gone = inr guild_gone) in Hv.
      injection Hv as <-. by eexists.
    + rewrite (f_equal snd E : r = guild_live), (eq_refl : validateSnapshotRow (parse := toy_parse) "guilds" guild_live = inr guild_live) in Hv.
      injection Hv as <-. by eexists.
    + rewrite (f_equal snd E : r = guild_old), (eq_refl : validateSnapshotRow (parse := toy_parse) "guilds" guild_old = inr guild_old) in Hv.
      injection Hv as <-. by eexists.
    + by apply elem_of_nil in Hr.
  - vm_compute. reflexivity.
Defined.
