(* ===== verification/TailTask.v ===== *)
(** * One Gateway event handler

    internal/discord/tail_execution.go, tail_failures.go, tail_metadata.go and
    the task constructors of tail_events.go: how a handler that returns, panics,
    runs past its deadline or is cancelled is classified, which stage it was in,
    and the circuit that opens after consecutive failures.

    The code waits on channels, timers and contexts; an [observed] value holds
    what those waits and the readings of the clock gave, and every function of
    the code is a function of it. Instants and durations are nanoseconds;
    [None] is the zero time. *)
From S2P Require Import Prelude Errors Discord.
Local Open Scope Z_scope.

Notation instant := (option Z).

Definition millisecond : Z := 1000000.
Definition maxDuration : Z := 2 ^ 63 - 1.
Definition defaultTailHandlerFailureLimit : Z := 3.
Definition tailHandlerCancelGrace : Z := 100 * millisecond.

(** ** Errors of a task *)

Inductive task_err :=
  | TErr (e : err)                              (** what the handler returned, or the context *)
  | TPanic                                      (** [tailHandlerPanicError] *)
  | TDeadline (timeout : Z) (cause : task_err) (detached returnedNil : bool)
  | TJoin (cause : option err).                 (** [tailHandlerJoinError] *)

(** [errors.As] for the three types of the package, along [Unwrap]. *)
Fixpoint as_panic (e : task_err) : bool :=
  match e with TPanic => true | TDeadline _ c _ _ => as_panic c | _ => false end.
Definition as_deadline (e : task_err) : option bool :=
  match e with TDeadline _ _ detached _ => Some detached | _ => None end.
Fixpoint as_join (e : task_err) : bool :=
  match e with TJoin _ => true | TDeadline _ c _ _ => as_join c | _ => false end.
Fixpoint is_deadline_exceeded (e : task_err) : bool :=
  match e with
  | TErr e => is_deadline e
  | TPanic => false
  | TDeadline _ c _ _ => is_deadline_exceeded c
  | TJoin c => match c with Some c => is_deadline c | None => false end
  end.
Definition is_task_canceled (e : task_err) : bool := match e with TErr e => is_canceled e | _ => false end.
Fixpoint task_rest (e : task_err) : option (option Z * option Z) :=
  match e with
  | TErr e => as_rest e
  | TPanic => None
  | TDeadline _ c _ _ => task_rest c
  | TJoin c => match c with Some c => as_rest c | None => None end
  end.

Section Errors.
Context (Duration_String : Z → string).

Fixpoint task_Error (e : task_err) : string :=
  match e with
  | TErr e => Error e
  | TPanic => "tail handler panic"
  | TDeadline timeout c detached returnedNil =>
      if detached then "tail handler timed out after " ++ Duration_String timeout
      else if returnedNil then "tail handler returned nil after deadline " ++ Duration_String timeout
      else "tail handler returned after deadline " ++ Duration_String timeout ++ ": " ++ task_Error c
  | TJoin _ => "tail handler did not stop after cancellation"
  end%string.
End Errors.

(** ** The outcome of a task *)

Inductive JoinOutcome := JoinNotRequired | JoinJoined | JoinTimedOut.

Record tailTaskResult := mkResult { result_err : option task_err; completedAt : Z }.

Record tailTaskExecution := mkExecution {
  x_err : option task_err;
  x_observedAt : Z;
  x_handlerElapsed : Z;
  x_joinElapsed : Z;
  x_joinOutcome : JoinOutcome;
  x_forceFallback : bool;
  x_parentCancellation : bool;
  x_handlerReturnedErr : bool }.

Definition elapsedBetween (startedAt endedAt : instant) : Z :=
  match startedAt, endedAt with
  | Some a, Some b => if b <? a then 0 else Z.min maxDuration (b - a)
  | _, _ => 0
  end.

Definition boundedJoinElapsed (startedAt endedAt : instant) : Z :=
  let elapsed := elapsedBetween startedAt endedAt in
  if tailHandlerCancelGrace <? elapsed then tailHandlerCancelGrace else elapsed.

Definition tailTaskDetachedDeadlineError (timeout : Z) : task_err := TDeadline timeout (TErr EDeadlineExceeded) true false.

Definition tailTaskDeadlineResult (timeout : Z) (e : option task_err) : task_err :=
  match e with
  | None => TDeadline timeout (TErr EDeadlineExceeded) false true
  | Some e => TDeadline timeout (if is_task_canceled e then TErr EDeadlineExceeded else e) false false
  end.

Definition returned (e : option task_err) : bool := match e with Some _ => true | None => false end.

Definition completedTailTaskExecution (r : tailTaskResult) (startedAt : Z) : tailTaskExecution :=
  mkExecution (result_err r) (completedAt r) (elapsedBetween (Some startedAt) (Some (completedAt r))) 0 JoinNotRequired false false (returned (result_err r)).

Definition classifyTailTaskExecution (timeout : Z) (r : tailTaskResult) (startedAt deadline graceDeadline : Z) : tailTaskExecution :=
  if completedAt r <? deadline then completedTailTaskExecution r startedAt
  else if completedAt r <? graceDeadline then
    mkExecution (Some (tailTaskDeadlineResult timeout (result_err r))) deadline
      (elapsedBetween (Some startedAt) (Some (completedAt r))) (boundedJoinElapsed (Some deadline) (Some (completedAt r))) JoinJoined false false false
  else
    mkExecution (Some (tailTaskDetachedDeadlineError timeout)) deadline
      (elapsedBetween (Some startedAt) (Some graceDeadline)) tailHandlerCancelGrace JoinJoined false false false.

(** [final] is what a last look at the result channel finds. *)
Definition finalTailTaskDeadlineExecution (timeout : Z) (final : option tailTaskResult) (startedAt deadline graceDeadline : Z) : tailTaskExecution :=
  match final with
  | Some r => classifyTailTaskExecution timeout r startedAt deadline graceDeadline
  | None =>
      mkExecution (Some (tailTaskDetachedDeadlineError timeout)) deadline
        (elapsedBetween (Some startedAt) (Some graceDeadline)) tailHandlerCancelGrace JoinTimedOut true false false
  end.

(** What the waits after the context ended gave: the first look at the result
    channel, the wait of the grace period, a last look, and the clock. *)
Record waits := mkWaits { w_first : option tailTaskResult; w_grace : option tailTaskResult; w_final : option tailTaskResult; w_now : Z }.

Definition awaitTailTaskDeadlineExecution (timeout : Z) (w : waits) (startedAt deadline graceDeadline : Z) : tailTaskExecution :=
  match w_first w with
  | Some r => classifyTailTaskExecution timeout r startedAt deadline graceDeadline
  | None =>
      if graceDeadline - w_now w <=? 0 then finalTailTaskDeadlineExecution timeout (w_final w) startedAt deadline graceDeadline
      else match w_grace w with
           | Some r => classifyTailTaskExecution timeout r startedAt deadline graceDeadline
           | None => finalTailTaskDeadlineExecution timeout (w_final w) startedAt deadline graceDeadline
           end
  end.

Definition tailTaskExecutionAfterParentCancellation (parentErr : option err) (r : tailTaskResult) (startedAt canceledAt : Z) : tailTaskExecution :=
  let '(e, observedAt) := match result_err r with
                          | Some e => (Some e, completedAt r)
                          | None => (TErr <$> parentErr, canceledAt)
                          end in
  mkExecution e observedAt (elapsedBetween (Some startedAt) (Some (completedAt r)))
    (boundedJoinElapsed (Some canceledAt) (Some (completedAt r))) JoinJoined false true (returned (result_err r)).

Definition awaitTailTaskParentCancellationExecution (parentErr : option err) (w : waits) (startedAt canceledAt : Z) : tailTaskExecution :=
  match w_first w, w_grace w with
  | Some r, _ | None, Some r => tailTaskExecutionAfterParentCancellation parentErr r startedAt canceledAt
  | None, None =>
      mkExecution (Some (TJoin parentErr)) canceledAt (elapsedBetween (Some startedAt) (Some (w_now w))) tailHandlerCancelGrace JoinTimedOut true true false
  end.

Definition tailTaskParentError (ctxErr : option err) (parentDeadlineBeforeLocal : bool) (now localDeadline : Z) : option err :=
  match ctxErr with
  | None => None
  | Some e => if parentDeadlineBeforeLocal || (now <? localDeadline) then Some e else None
  end.

(** The select of [runTailTaskExecution]: the result arrived, or the context of
    the task was done first. [ctxErr] is the session context's error then, [now]
    and [canceledAt] two readings of the clock. *)
Inductive observed :=
  | ObservedResult (r : tailTaskResult) (ctxErr : option err) (now canceledAt : Z)
  | ObservedDone (ctxErr : option err) (now canceledAt : Z) (w : waits).

Definition observed_ctx (o : observed) : option err := match o with ObservedResult _ e _ _ | ObservedDone e _ _ _ => e end.

(** The execution and the instant at which the stage is frozen. *)
Definition runTailTaskExecution (timeout startedAt : Z) (parentDeadline : option Z) (o : observed) : tailTaskExecution * Z :=
  let deadline := startedAt + timeout in
  let graceDeadline := deadline + tailHandlerCancelGrace in
  let before := match parentDeadline with Some d => d <? deadline | None => false end in
  if timeout <=? 0 then
    match o with
    | ObservedResult r (Some e) _ canceledAt => (tailTaskExecutionAfterParentCancellation (Some e) r startedAt canceledAt, canceledAt)
    | ObservedResult r None _ _ => (completedTailTaskExecution r startedAt, completedAt r)
    | ObservedDone e _ canceledAt w => (awaitTailTaskParentCancellationExecution e w startedAt canceledAt, canceledAt)
    end
  else
    match o with
    | ObservedResult r e now canceledAt =>
        match tailTaskParentError e before now deadline with
        | Some p => (tailTaskExecutionAfterParentCancellation (Some p) r startedAt canceledAt, canceledAt)
        | None => (classifyTailTaskExecution timeout r startedAt deadline graceDeadline,
                   if completedAt r <? deadline then completedAt r else deadline)
        end
    | ObservedDone e now canceledAt w =>
        match tailTaskParentError e before now deadline with
        | Some p => (awaitTailTaskParentCancellationExecution (Some p) w startedAt canceledAt, canceledAt)
        | None => (awaitTailTaskDeadlineExecution timeout w startedAt deadline graceDeadline, deadline)
        end
    end.

(** A context that is done has an error; without a deadline of its own, the
    task's context is done only when the session's is. *)
Definition coherent (timeout : Z) (o : observed) : bool :=
  match o with
  | ObservedDone None _ _ _ => negb (timeout <=? 0)
  | _ => true
  end.

(** ** Tasks and their failures *)

Inductive tailFailureClass := ClassOrdered | ClassMember.
#[export] Instance tailFailureClass_eq_dec : EqDecision tailFailureClass.
Proof. solve_decision. Defined.

Record tailTask := mkTask {
  eventType : string;
  failureClass : tailFailureClass;
  t_guildID : string; t_channelID : string; t_messageID : string; t_userID : string;
  receivedAt : instant;
  t_run : bool    (** [task.run != nil] *) }.

(** [setTailTaskID]: the first known value stays. *)
Definition setTailTaskID (dst value : string) : string :=
  if (dst =? "")%string && nonempty value then value else dst.

(** The ids of a message, with its author's when it has one. *)
Record messageIDs := mkMessageIDs { i_guild : string; i_channel : string; i_message : string; i_author : option string }.

Definition set_ids (x : messageIDs) (t : tailTask) : tailTask :=
  mkTask (eventType t) (failureClass t) (setTailTaskID (t_guildID t) (i_guild x)) (setTailTaskID (t_channelID t) (i_channel x))
         (setTailTaskID (t_messageID t) (i_message x)) (match i_author x with Some a => setTailTaskID (t_userID t) a | None => t_userID t end)
         (receivedAt t) (t_run t).

Definition set_known_ids (t : tailTask) (x : option messageIDs) : tailTask := match x with Some x => set_ids x t | None => t end.

Definition newMessageTailTask (event : string) (messages : list (option messageIDs)) : tailTask :=
  foldl set_known_ids (mkTask event ClassOrdered "" "" "" "" None true) messages.

(** A channel has no message id and no author. *)
Definition newChannelTailTask (event : string) (channels : list (option (string * string))) : tailTask :=
  foldl (λ t c, match c with Some (guild, id) => set_ids (mkMessageIDs guild id "" None) t | None => t end)
        (mkTask event ClassOrdered "" "" "" "" None true) channels.

Definition newGuildTailTask (event : string) (guilds : list (option string)) : tailTask :=
  foldl (λ t g, match g with Some id => set_ids (mkMessageIDs id "" "" None) t | None => t end)
        (mkTask event ClassOrdered "" "" "" "" None true) guilds.

(** A member has a guild and a user, who may be absent. *)
Definition newMemberTailTask (now : Z) (event : string) (members : list (option (string * option string))) : tailTask :=
  foldl (λ t m, match m with Some (guild, user) => set_ids (mkMessageIDs guild "" "" user) t | None => t end)
        (mkTask event ClassMember "" "" "" "" (Some now) true) members.

Inductive stage :=
  | StageUnknown | StageHandler | StageMessageUpdateRefetch | StageMessageBuild | StageCanonicalWrite | StageEventAppend
  | StageStateUpdate | StageCursorAdvance | StageCanonicalDelete | StageFailureResolution.

Record tailFailureMetadata := mkMetadata {
  md_guildID : string; md_channelID : string; md_messageID : string; md_userID : string;
  handlerStage : stage; stageStartedAt : instant; stageObservedAt : instant; stageFrozen : bool }.

Definition newTailFailureMetadata (t : tailTask) : tailFailureMetadata :=
  mkMetadata (t_guildID t) (t_channelID t) (t_messageID t) (t_userID t) StageUnknown None None false.

Definition addMessage (x : messageIDs) (m : tailFailureMetadata) : tailFailureMetadata :=
  mkMetadata (setTailTaskID (md_guildID m) (i_guild x)) (setTailTaskID (md_channelID m) (i_channel x)) (setTailTaskID (md_messageID m) (i_message x))
    (match i_author x with Some a => setTailTaskID (md_userID m) a | None => md_userID m end)
    (handlerStage m) (stageStartedAt m) (stageObservedAt m) (stageFrozen m).

Definition setStageAt (s : stage) (at_ : Z) (m : tailFailureMetadata) : tailFailureMetadata :=
  if stageFrozen m then m
  else mkMetadata (md_guildID m) (md_channelID m) (md_messageID m) (md_userID m) s (Some at_) (stageObservedAt m) false.

Definition freezeStageAt (at_ : Z) (m : tailFailureMetadata) : tailFailureMetadata :=
  if stageFrozen m then m
  else mkMetadata (md_guildID m) (md_channelID m) (md_messageID m) (md_userID m) (handlerStage m) (stageStartedAt m) (Some at_) true.

(** The stage and the time spent in it, as [snapshot] reports them. *)
Definition snapshot_elapsed (observedAt : Z) (m : tailFailureMetadata) : Z :=
  elapsedBetween (stageStartedAt m) (if stageFrozen m then stageObservedAt m else Some observedAt).

Record TailFailure := mkTailFailure {
  tf_Code : string; tf_EventType : string; tf_Kind : string;
  tf_GuildID : string; tf_ChannelID : string; tf_MessageID : string; tf_UserID : string;
  tf_ReceivedAt : instant; tf_HandlerStage : stage; tf_HandlerStageElapsed : Z;
  tf_HandlerElapsed : Z; tf_JoinElapsed : Z; tf_JoinOutcome : JoinOutcome; tf_ForceFallback : bool }.

(** A provider answer's status and code, never its text. *)
Definition SafeFailureCode (e : option task_err) : string :=
  match e ≫= task_rest with
  | Some (Some status, code) => ("http_" ++ pretty status ++ match code with Some c => "_discord_" ++ pretty c | None => "" end)%string
  | _ => ""
  end.

Definition tailFailureKind (e : task_err) : string :=
  if as_panic e then "panic" else if as_join e then "timeout" else if is_deadline_exceeded e then "timeout" else "returned_error".

Definition newTailFailureFromExecution (t : tailTask) (m : tailFailureMetadata) (x : tailTaskExecution) (e : task_err) : TailFailure :=
  let elapsed := snapshot_elapsed (x_observedAt x) m in
  mkTailFailure (SafeFailureCode (Some e)) (eventType t) (tailFailureKind e)
    (md_guildID m) (md_channelID m) (md_messageID m) (md_userID m) (receivedAt t) (handlerStage m)
    (if x_handlerElapsed x <? elapsed then x_handlerElapsed x else elapsed)
    (x_handlerElapsed x) (x_joinElapsed x) (x_joinOutcome x) (x_forceFallback x).

(** ** The circuit of a failure class *)

Record tailFailureCircuit := mkCircuit { c_limit : Z; c_consecutive : Z; c_opened : bool }.

(** Whether this failure opened it. *)
Definition circuit_recordFailure (c : tailFailureCircuit) : bool * tailFailureCircuit :=
  if c_opened c || (c_limit c <=? 0) then (false, c)
  else let n := c_consecutive c + 1 in
       if n <? c_limit c then (false, mkCircuit (c_limit c) n false) else (true, mkCircuit (c_limit c) n true).

Definition circuit_recordSuccess (c : tailFailureCircuit) : tailFailureCircuit :=
  if c_opened c then c else mkCircuit (c_limit c) 0 false.

(** ** Lemmas *)

#[global] Arguments elapsedBetween : simpl never.
#[global] Arguments boundedJoinElapsed : simpl never.
#[global] Arguments tailHandlerCancelGrace : simpl never.

Lemma elapsedBetween_bounds a b : 0 <= elapsedBetween a b <= maxDuration.
Proof. unfold elapsedBetween, maxDuration. repeat case_match; propify; lia. Qed.

Lemma boundedJoinElapsed_bounds a b : 0 <= boundedJoinElapsed a b <= tailHandlerCancelGrace.
Proof.
  unfold boundedJoinElapsed. pose proof (elapsedBetween_bounds a b). unfold tailHandlerCancelGrace, millisecond in *. case_match; propify; lia.
Qed.

(** What every execution satisfies. *)
Definition execution_ok (x : tailTaskExecution) : Prop :=
  0 <= x_handlerElapsed x <= maxDuration ∧ 0 <= x_joinElapsed x <= tailHandlerCancelGrace ∧
  (x_forceFallback x = true ↔ x_joinOutcome x = JoinTimedOut) ∧ (x_forceFallback x = true → x_err x ≠ None).

Create HintDb tail.
#[export] Hint Resolve elapsedBetween_bounds boundedJoinElapsed_bounds : tail.

Lemma grace_bounds : 0 <= tailHandlerCancelGrace <= tailHandlerCancelGrace.
Proof. unfold tailHandlerCancelGrace, millisecond. lia. Qed.

Lemma zero_bounds : 0 <= 0 <= tailHandlerCancelGrace.
Proof. unfold tailHandlerCancelGrace, millisecond. lia. Qed.
#[export] Hint Resolve grace_bounds zero_bounds : tail.

Ltac execution_ok_tac :=
  unfold execution_ok; simpl; refine (conj _ (conj _ (conj _ _))); [solve [auto with tail]|solve [auto with tail]|by split|done].

Lemma completed_ok r s : execution_ok (completedTailTaskExecution r s).
Proof. execution_ok_tac. Qed.

Lemma classify_ok timeout r s d g : execution_ok (classifyTailTaskExecution timeout r s d g).
Proof. unfold classifyTailTaskExecution. repeat case_match; [apply completed_ok|execution_ok_tac..]. Qed.

Lemma final_ok timeout f s d g : execution_ok (finalTailTaskDeadlineExecution timeout f s d g).
Proof. unfold finalTailTaskDeadlineExecution. case_match; [apply classify_ok|execution_ok_tac]. Qed.

Lemma after_cancellation_ok p r s c : execution_ok (tailTaskExecutionAfterParentCancellation p r s c).
Proof. unfold tailTaskExecutionAfterParentCancellation. destruct (result_err r); execution_ok_tac. Qed.

Lemma await_deadline_ok timeout w s d g : execution_ok (awaitTailTaskDeadlineExecution timeout w s d g).
Proof. unfold awaitTailTaskDeadlineExecution. repeat case_match; first [apply classify_ok|apply final_ok]. Qed.

Lemma await_cancellation_ok p w s c : execution_ok (awaitTailTaskParentCancellationExecution p w s c).
Proof. unfold awaitTailTaskParentCancellationExecution. repeat case_match; [apply after_cancellation_ok..|execution_ok_tac]. Qed.

Lemma run_execution_ok timeout s p o : execution_ok (runTailTaskExecution timeout s p o).1.
Proof.
  unfold runTailTaskExecution. destruct o as [r [e|] now c|e now c w], (timeout <=? 0); cbv zeta; repeat case_match; simpl;
    auto using completed_ok, after_cancellation_ok, classify_ok, await_deadline_ok, await_cancellation_ok.
Qed.

(** Success is a handler that returned nil in time. *)
Definition in_time (timeout startedAt : Z) (r : tailTaskResult) : Prop :=
  result_err r = None ∧ (0 < timeout → completedAt r < startedAt + timeout).

Lemma classify_success timeout r s :
  0 < timeout → x_err (classifyTailTaskExecution timeout r s (s + timeout) (s + timeout + tailHandlerCancelGrace)) = None → in_time timeout s r.
Proof. unfold classifyTailTaskExecution, in_time. intros Ht. repeat case_match; propify; simpl; try done. Qed.

Definition seen_result (o : observed) (r : tailTaskResult) : Prop :=
  match o with
  | ObservedResult r' _ _ _ => r' = r
  | ObservedDone _ _ _ w => w_first w = Some r ∨ w_grace w = Some r ∨ w_final w = Some r
  end.

Lemma after_cancellation_err e r s c : x_err (tailTaskExecutionAfterParentCancellation (Some e) r s c) ≠ None.
Proof. unfold tailTaskExecutionAfterParentCancellation. by destruct (result_err r). Qed.

Lemma await_cancellation_err e w s c : x_err (awaitTailTaskParentCancellationExecution (Some e) w s c) ≠ None.
Proof. unfold awaitTailTaskParentCancellationExecution. repeat case_match; try apply after_cancellation_err; done. Qed.

Lemma final_success timeout f s :
  0 < timeout → x_err (finalTailTaskDeadlineExecution timeout f s (s + timeout) (s + timeout + tailHandlerCancelGrace)) = None →
  ∃ r, f = Some r ∧ in_time timeout s r.
Proof. unfold finalTailTaskDeadlineExecution. intros Ht. destruct f as [r|]; [|done]. intros Hx. eauto using classify_success. Qed.

Lemma await_deadline_success timeout w s :
  0 < timeout → x_err (awaitTailTaskDeadlineExecution timeout w s (s + timeout) (s + timeout + tailHandlerCancelGrace)) = None →
  ∃ r, (w_first w = Some r ∨ w_grace w = Some r ∨ w_final w = Some r) ∧ in_time timeout s r.
Proof.
  unfold awaitTailTaskDeadlineExecution. intros Ht. destruct (w_first w) as [r|]; [intros H; eauto using classify_success|].
  assert (∀ r, w_grace w = Some r ∨ w_final w = Some r → in_time timeout s r →
    ∃ r, (None = Some r ∨ w_grace w = Some r ∨ w_final w = Some r) ∧ in_time timeout s r) as Hex by eauto.
  destruct (_ <=? 0); [intros (r & Hf & Hr)%final_success; eauto|].
  destruct (w_grace w) as [r|]; [intros H; eauto using classify_success|]. intros (r & Hf & Hr)%final_success; eauto.
Qed.

(** C40: What a handler's run may cost and when it counts as done, however the
    result, the deadline, the cancellation of the session and the clock
    interleave: the elapsed times stay within a duration and the grace period,
    the fallback is forced exactly when the handler did not stop, and an
    execution without an error is a handler that returned nil before its
    deadline. *)
Theorem execution_bounds (timeout startedAt : Z) (parentDeadline : option Z) (o : observed) (Hcoherent : coherent timeout o = true) :
  let x := (runTailTaskExecution timeout startedAt parentDeadline o).1 in
  0 <= x_handlerElapsed x <= maxDuration ∧ 0 <= x_joinElapsed x <= tailHandlerCancelGrace ∧
  (x_forceFallback x = true ↔ x_joinOutcome x = JoinTimedOut) ∧
  (x_err x = None → ∃ r, seen_result o r ∧ in_time timeout startedAt r).
Proof.
  intros x. destruct (run_execution_ok timeout startedAt parentDeadline o) as (H1 & H2 & H3 & _).
  refine (conj H1 (conj H2 (conj H3 _))). revert Hcoherent. unfold x, runTailTaskExecution. cbv zeta.
  destruct (timeout <=? 0) eqn:Et; [|propify].
  - destruct o as [r [e|] now c|[e|] now c w]; simpl; rewrite ?Et; try done; intros _ H.
    + by apply after_cancellation_err in H.
    + exists r. split; [done|]. split; [exact H|propify; lia].
    + by apply await_cancellation_err in H.
  - intros _. destruct o as [r e now c|e now c w]; destruct (tailTaskParentError e _ now _) as [p|] eqn:Ep; simpl; intros H.
    + by apply after_cancellation_err in H.
    + exists r. split; [done|]. by apply classify_success.
    + by apply await_cancellation_err in H.
    + by apply await_deadline_success.
Qed.

(** A handler that returns nil a millisecond before its deadline, and one that is
    found to have returned nil a millisecond after it. *)
Lemma execution_bounds_witness :
  let r d := mkResult None (7 + 30 * 1000000000 + d) in
  x_err (runTailTaskExecution (30 * 1000000000) 7 None (ObservedResult (r (- millisecond)) None 0 0)).1 = None ∧
  ∃ e, x_err (runTailTaskExecution (30 * 1000000000) 7 None (ObservedDone None 0 0 (mkWaits (Some (r millisecond)) None None 0))).1 = Some e ∧
  let x := (runTailTaskExecution (30 * 1000000000) 7 None (ObservedDone None 0 0 (mkWaits (Some (r millisecond)) None None 0))).1 in
  0 <= x_handlerElapsed x <= maxDuration.
Proof.
  cbv zeta. split; [reflexivity|]. eexists. split; [vm_compute; reflexivity|].
  exact (proj1 (execution_bounds (30 * 1000000000) 7 None (ObservedDone None 0 0 (mkWaits (Some (mkResult None (7 + 30 * 1000000000 + millisecond))) None None 0)) eq_refl)).
Defined.
