(* ===== verification/TailRun.v ===== *)
(** * The Gateway session: queues, workers and circuits

    [Client.Tail] of internal/discord/tail.go. discordgo delivers events one
    after the other (SyncEvents); each is put into one of two bounded queues.
    One worker serves the ordered queue, the others the queue of member events.
    The session is a state machine: an action is an event's arrival, a worker
    taking a task, its handler's progress and return, or the end of the
    context. What a worker does after its handler returned is one action: it
    touches its own task, and shared state that is behind a lock or monotone.
    The last three fields of the state record what happened, for the theorems. *)
From S2P Require Import Prelude Errors Discord TailTask.
Local Open Scope Z_scope.

Inductive worker :=
  | Waiting
  | Holding (t : tailTask)      (** dequeued, before the second look at the context *)
  | Running (t : tailTask) (m : tailFailureMetadata) (startedAt : Z)
  | Exited.

(** What became of a task a worker took. *)
Inductive verdict :=
  | Succeeded
  | Skipped                        (** no handler *)
  | Dropped                        (** taken when the session had ended *)
  | Abandoned                      (** cancelled with the session *)
  | Recorded (f : TailFailure)
  | Reported (f : TailFailure)     (** a failure that needs no record *)
  | Unrecorded (f : TailFailure).

Record session := mkSession {
  ordered : list tailTask; members : list tailTask;
  workers : list worker;       (** the first one serves the ordered queue *)
  circuit_ordered : tailFailureCircuit; circuit_member : tailFailureCircuit;
  cancelled : bool;
  fatal : list string;
  reported : list TailFailure;
  arrived : list tailTask; accepted : list tailTask; log : list (nat * tailTask * verdict) }.

(** The client's limits, whether the handler records failures, and the deadline
    of the context [Tail] was called with. *)
Record config := mkConfig { queueSize : nat; handlerTimeout : Z; recorder : bool; sessionDeadline : option Z }.

Section Session.
Context (Duration_String : Z → string) (cfg : config).

Definition with_ordered q s := mkSession q (members s) (workers s) (circuit_ordered s) (circuit_member s) (cancelled s) (fatal s) (reported s) (arrived s) (accepted s) (log s).
Definition with_members q s := mkSession (ordered s) q (workers s) (circuit_ordered s) (circuit_member s) (cancelled s) (fatal s) (reported s) (arrived s) (accepted s) (log s).
Definition with_worker w x s := mkSession (ordered s) (members s) (<[w := x]> (workers s)) (circuit_ordered s) (circuit_member s) (cancelled s) (fatal s) (reported s) (arrived s) (accepted s) (log s).
Definition with_circuits o m s := mkSession (ordered s) (members s) (workers s) o m (cancelled s) (fatal s) (reported s) (arrived s) (accepted s) (log s).
Definition cancel s := mkSession (ordered s) (members s) (workers s) (circuit_ordered s) (circuit_member s) true (fatal s) (reported s) (arrived s) (accepted s) (log s).
Definition with_fatal f s := mkSession (ordered s) (members s) (workers s) (circuit_ordered s) (circuit_member s) (cancelled s) f (reported s) (arrived s) (accepted s) (log s).
Definition report f s := mkSession (ordered s) (members s) (workers s) (circuit_ordered s) (circuit_member s) (cancelled s) (fatal s) (f :: reported s) (arrived s) (accepted s) (log s).
Definition arrive t s := mkSession (ordered s) (members s) (workers s) (circuit_ordered s) (circuit_member s) (cancelled s) (fatal s) (reported s) (t :: arrived s) (accepted s) (log s).
Definition accept t s := mkSession (ordered s) (members s) (workers s) (circuit_ordered s) (circuit_member s) (cancelled s) (fatal s) (reported s) (arrived s) (accepted s ++ [t]) (log s).
Definition note w t v s := mkSession (ordered s) (members s) (workers s) (circuit_ordered s) (circuit_member s) (cancelled s) (fatal s) (reported s) (arrived s) (accepted s) (log s ++ [(w, t, v)]).

(** [tailFatalState.signal]: each text once, wrapped in [ErrFatalTail]. *)
Definition signal (text : string) (s : session) : session :=
  let text := ("fatal tail failure: " ++ text)%string in
  if bool_decide (text ∈ fatal s) then s else with_fatal (fatal s ++ [text]) s.

(** ** The queues *)

Definition queue_of (c : tailFailureClass) (s : session) : list tailTask := match c with ClassOrdered => ordered s | ClassMember => members s end.
Definition set_queue (c : tailFailureClass) (q : list tailTask) (s : session) : session :=
  match c with ClassOrdered => with_ordered q s | ClassMember => with_members q s end.
Definition class_of_worker (w : nat) : tailFailureClass := if (w =? 0)%nat then ClassOrdered else ClassMember.

(** A ready send and a done context are chosen between at random: [ignore] is
    that choice. *)
Definition enqueueTailTask (ignore : bool) (t : tailTask) (s : session) : session :=
  let s := arrive t s in
  let q := queue_of (failureClass t) s in
  let room := (length q <? queueSize cfg)%nat in
  if cancelled s && (ignore || negb room) then s
  else if room then accept t (set_queue (failureClass t) (q ++ [t]) s)
  else signal "tail worker queue full" s.

(** ** A worker *)

Definition messageScoped (t : tailTask) : bool := HasPrefix (eventType t) "MESSAGE_".

Definition circuit_of (c : tailFailureClass) (s : session) : tailFailureCircuit := match c with ClassOrdered => circuit_ordered s | ClassMember => circuit_member s end.
Definition set_circuit (c : tailFailureClass) (x : tailFailureCircuit) (s : session) : session :=
  match c with ClassOrdered => with_circuits x (circuit_member s) s | ClassMember => with_circuits (circuit_ordered s) x s end.

Definition class_text (c : tailFailureClass) : string := match c with ClassOrdered => "ordered" | ClassMember => "member" end.

Definition is_detached (e : task_err) : bool := match as_deadline e with Some d => d | None => false end.

Definition circuit_text : string := ("tail handler circuit breaker opened after " ++ pretty defaultTailHandlerFailureLimit ++ " consecutive failures")%string.

(** The body of the loop after a handler failed. [persisted] is whether
    [recordTailFailure] could record the failure. *)
Definition fail_task (w : nat) (t : tailTask) (m : tailFailureMetadata) (x : tailTaskExecution) (e : task_err) (persisted : bool) (s : session) : session :=
  let parentJoinTimedOut := x_parentCancellation x && x_forceFallback x in
  let parentMessageFailure := x_parentCancellation x && x_handlerReturnedErr x && messageScoped t in
  if cancelled s && negb (match as_deadline e with Some _ => true | None => false end) && negb (as_panic e) && negb parentJoinTimedOut && negb parentMessageFailure
  then note w t Abandoned (with_worker w Exited s)
  else
    let f := newTailFailureFromExecution t m x e in
    let s := if is_detached e || parentJoinTimedOut then cancel s else s in
    let needed := messageScoped t || recorder cfg in
    if needed && negb (recorder cfg && persisted)
    then note w t (Unrecorded f) (with_worker w Exited (signal "persist tail message failure" (cancel s)))
    else
      let s := report f (note w t (if needed then Recorded f else Reported f) s) in
      if parentJoinTimedOut then with_worker w Exited (signal "tail handler did not stop after cancellation" s)
      else if is_detached e then
        with_worker w Exited (signal ("tail " ++ class_text (failureClass t) ++ " handler timed out for " ++ eventType t ++ ": " ++ task_Error Duration_String e)%string (cancel s))
      else
        let '(opened, c) := circuit_recordFailure (circuit_of (failureClass t) s) in
        let s := set_circuit (failureClass t) c s in
        if opened then with_worker w Exited (cancel (signal circuit_text s)) else with_worker w Waiting s.

Definition finish_task (w : nat) (t : tailTask) (m : tailFailureMetadata) (x : tailTaskExecution) (persisted : bool) (s : session) : session :=
  match x_err x with
  | Some e => fail_task w t m x e persisted s
  | None => note w t Succeeded (with_worker w Waiting (set_circuit (failureClass t) (circuit_recordSuccess (circuit_of (failureClass t) s)) s))
  end.

(** ** The session *)

Inductive action :=
  | Arrive (t : tailTask) (ignore : bool)
  | Dequeue (w : nat)
  | Begin (w : nat) (now : Z)
  | UpdateStage (w : nat) (x : stage) (now : Z)
  | Enrich (w : nat) (ids : messageIDs)
  | Return (w : nat) (o : observed) (persisted : bool)
  | Leave (w : nat)
  | Cancel.

(** [None]: the action cannot happen in this state. *)
Definition act (a : action) (s : session) : option session :=
  match a with
  | Arrive t ignore => Some (enqueueTailTask ignore t s)
  | Dequeue w =>
      match workers s !! w, queue_of (class_of_worker w) s with
      | Some Waiting, t :: q => Some (with_worker w (Holding t) (set_queue (class_of_worker w) q s))
      | _, _ => None
      end
  | Begin w now =>
      match workers s !! w with
      | Some (Holding t) =>
          if cancelled s then Some (note w t Dropped (with_worker w Exited s))
          else if negb (t_run t) then Some (note w t Skipped (with_worker w Waiting s))
          else Some (with_worker w (Running t (setStageAt StageHandler now (newTailFailureMetadata t)) now) s)
      | _ => None
      end
  | UpdateStage w x now =>
      match workers s !! w with
      | Some (Running t m startedAt) => Some (with_worker w (Running t (setStageAt x now m) startedAt) s)
      | _ => None
      end
  | Enrich w ids =>
      match workers s !! w with
      | Some (Running t m startedAt) => Some (with_worker w (Running t (addMessage ids m) startedAt) s)
      | _ => None
      end
  | Return w o persisted =>
      match workers s !! w with
      | Some (Running t m startedAt) =>
          if coherent (handlerTimeout cfg) o && (cancelled s || match observed_ctx o with None => true | Some _ => false end) then
            let '(x, frozenAt) := runTailTaskExecution (handlerTimeout cfg) startedAt (sessionDeadline cfg) o in
            Some (finish_task w t (freezeStageAt frozenAt m) x persisted s)
          else None
      | _ => None
      end
  | Leave w =>
      match workers s !! w with
      | Some Waiting => if cancelled s then Some (with_worker w Exited s) else None
      | _ => None
      end
  | Cancel => Some (cancel s)
  end.

Definition run (l : list action) (s : session) : option session := foldl (λ s a, s ≫= act a) (Some s) l.

Definition init (memberWorkers : nat) : session :=
  let c := mkCircuit defaultTailHandlerFailureLimit 0 false in
  mkSession [] [] (replicate (S memberWorkers) Waiting) c c false [] [] [] [] [].

(** [Tail] returns when every worker has exited: nil, or the fatal errors. *)
Definition Tail_result (s : session) : option (list string) := match fatal s with [] => None | errs => Some errs end.
End Session.
