(* ===== verification/TailSafety.v ===== *)
(** * What the Gateway session guarantees

    Invariants of the session of TailRun.v over every sequence of actions: the
    order of events, that no message event is lost, and the circuits. *)
From S2P Require Import Prelude Errors Discord TailTask TailRun.
Local Open Scope Z_scope.

Section Invariant.
Context (ds : Z → string) (cfg : config).

(** The task a worker has in hand. *)
Definition hand (x : option worker) : list tailTask := match x with Some (Holding t) | Some (Running t _ _) => [t] | _ => [] end.

(** The tasks the ordered worker is done with, in order. *)
Fixpoint handled (l : list (nat * tailTask * verdict)) : list tailTask :=
  match l with
  | [] => []
  | (w, t, _) :: l => if (w =? 0)%nat then t :: handled l else handled l
  end.

Definition of_class (c : tailFailureClass) (l : list tailTask) : list tailTask := List.filter (λ t, bool_decide (failureClass t = c)) l.

(** The failures of a class since its last success. *)
Definition count_failure (c : tailFailureClass) (n : Z) (e : nat * tailTask * verdict) : Z :=
  let '(_, t, v) := e in
  if bool_decide (failureClass t = c) then match v with Succeeded => 0 | Recorded _ | Reported _ => n + 1 | _ => n end else n.
Definition consecutive_failures (c : tailFailureClass) (l : list (nat * tailTask * verdict)) : Z := foldl (count_failure c) 0 l.

Definition persist_text : string := "fatal tail failure: persist tail message failure".

(** What a verdict on a task tells about the session. *)
Definition verdict_ok (t : tailTask) (v : verdict) (ended : bool) (errs : list string) : Prop :=
  match v with
  | Succeeded => True
  | Skipped => t_run t = false
  | Dropped | Abandoned => ended = true
  | Recorded f => recorder cfg = true ∧ tf_EventType f = eventType t
  | Reported f => messageScoped t = false ∧ tf_EventType f = eventType t
  | Unrecorded f => ended = true ∧ persist_text ∈ errs
  end.

Lemma verdict_ok_mono t v ended ended' errs errs' :
  verdict_ok t v ended errs → (ended = true → ended' = true) → errs ⊆ errs' → verdict_ok t v ended' errs'.
Proof. destruct v; simpl; intros H He Hs; try done; auto. destruct H; split; auto. Qed.

Definition circuit_ok (c : tailFailureClass) (s : session) : Prop :=
  c_limit (circuit_of c s) = defaultTailHandlerFailureLimit ∧
  (cancelled s = false → c_opened (circuit_of c s) = false ∧ c_consecutive (circuit_of c s) = consecutive_failures c (log s) ∧
                         0 <= consecutive_failures c (log s) < defaultTailHandlerFailureLimit).

Record session_ok (s : session) : Prop := {
  ok_order : of_class ClassOrdered (accepted s) = handled (log s) ++ hand (workers s !! 0%nat) ++ ordered s;
  ok_queues : Forall (λ t, failureClass t = ClassOrdered) (ordered s);
  ok_arrived t : t ∈ arrived s → t ∈ accepted s ∨ cancelled s = true ∨ fatal s ≠ [];
  ok_log : Forall (λ '(_, t, v), verdict_ok t v (cancelled s) (fatal s)) (log s);
  ok_exited w : workers s !! w = Some Exited → cancelled s = true;
  ok_circuits c : circuit_ok c s;
  ok_size : is_Some (workers s !! 0%nat) }.

(** A worker [w] disposing of [t]: everything the invariant looks at. *)
Record settles (w : nat) (t : tailTask) (x : worker) (v : verdict) (s s' : session) : Prop := {
  st_ordered : ordered s' = ordered s;
  st_workers : workers s' = <[w := x]> (workers s);
  st_free : hand (Some x) = [];
  st_exited : x = Exited → cancelled s' = true;
  st_arrived : arrived s' = arrived s;
  st_accepted : accepted s' = accepted s;
  st_log : log s' = log s ++ [(w, t, v)];
  st_verdict : verdict_ok t v (cancelled s') (fatal s');
  st_cancelled : cancelled s = true → cancelled s' = true;
  st_fatal : fatal s ⊆ fatal s';
  st_circuits : (∀ c, circuit_ok c s) → ∀ c, circuit_ok c s' }.

Lemma handled_snoc l w t v : handled (l ++ [(w, t, v)]) = handled l ++ (if (w =? 0)%nat then [t] else []).
Proof.
  induction l as [|[[w' t'] v'] l IH]; simpl; [by destruct (w =? 0)%nat|]. rewrite IH. by destruct (w' =? 0)%nat.
Qed.

Lemma consecutive_snoc c l e : consecutive_failures c (l ++ [e]) = count_failure c (consecutive_failures c l) e.
Proof. unfold consecutive_failures. by rewrite foldl_app. Qed.

(** What the setters leave alone. *)

Lemma ordered_signal text s : ordered (signal text s) = ordered s.
Proof. unfold signal. by case_match. Qed.
Lemma members_signal text s : members (signal text s) = members s.
Proof. unfold signal. by case_match. Qed.
Lemma workers_signal text s : workers (signal text s) = workers s.
Proof. unfold signal. by case_match. Qed.
Lemma circuit_ordered_signal text s : circuit_ordered (signal text s) = circuit_ordered s.
Proof. unfold signal. by case_match. Qed.
Lemma circuit_member_signal text s : circuit_member (signal text s) = circuit_member s.
Proof. unfold signal. by case_match. Qed.
Lemma cancelled_signal text s : cancelled (signal text s) = cancelled s.
Proof. unfold signal. by case_match. Qed.
Lemma reported_signal text s : reported (signal text s) = reported s.
Proof. unfold signal. by case_match. Qed.
Lemma arrived_signal text s : arrived (signal text s) = arrived s.
Proof. unfold signal. by case_match. Qed.
Lemma accepted_signal text s : accepted (signal text s) = accepted s.
Proof. unfold signal. by case_match. Qed.
Lemma log_signal text s : log (signal text s) = log s.
Proof. unfold signal. by case_match. Qed.
Lemma ordered_set_circuit c x s : ordered (set_circuit c x s) = ordered s.
Proof. by destruct c. Qed.
Lemma members_set_circuit c x s : members (set_circuit c x s) = members s.
Proof. by destruct c. Qed.
Lemma workers_set_circuit c x s : workers (set_circuit c x s) = workers s.
Proof. by destruct c. Qed.
Lemma cancelled_set_circuit c x s : cancelled (set_circuit c x s) = cancelled s.
Proof. by destruct c. Qed.
Lemma reported_set_circuit c x s : reported (set_circuit c x s) = reported s.
Proof. by destruct c. Qed.
Lemma arrived_set_circuit c x s : arrived (set_circuit c x s) = arrived s.
Proof. by destruct c. Qed.
Lemma accepted_set_circuit c x s : accepted (set_circuit c x s) = accepted s.
Proof. by destruct c. Qed.
Lemma log_set_circuit c x s : log (set_circuit c x s) = log s.
Proof. by destruct c. Qed.
Lemma fatal_set_circuit c x s : fatal (set_circuit c x s) = fatal s.
Proof. by destruct c. Qed.

Lemma fatal_signal text s : fatal s ⊆ fatal (signal text s) ∧ ("fatal tail failure: " ++ text)%string ∈ fatal (signal text s).
Proof.
  unfold signal. case_match; propify; simpl; [done|]. split; [intros y Hy; apply elem_of_app; by left|].
  apply elem_of_app. right. by apply list_elem_of_singleton.
Qed.

Create Rewrite HintDb session.
#[local] Hint Rewrite ordered_signal members_signal workers_signal circuit_ordered_signal circuit_member_signal cancelled_signal reported_signal arrived_signal accepted_signal log_signal ordered_set_circuit members_set_circuit workers_set_circuit cancelled_set_circuit reported_set_circuit arrived_set_circuit accepted_set_circuit log_set_circuit fatal_set_circuit : session.

Lemma signal_circuit text s c : circuit_of c (signal text s) = circuit_of c s.
Proof. unfold signal. by destruct c; case_match. Qed.

(** A session that has ended keeps no promise on its circuits but their limit. *)
Lemma circuits_ended s s' :
  (∀ c, c_limit (circuit_of c s') = c_limit (circuit_of c s)) → cancelled s' = true → (∀ c, circuit_ok c s) → ∀ c, circuit_ok c s'.
Proof. intros Hc He Hok c. destruct (Hok c) as [Hl _]. split; [by rewrite Hc|]. by rewrite He. Qed.

Lemma recordFailure_limit c : c_limit (circuit_recordFailure c).2 = c_limit c.
Proof. unfold circuit_recordFailure. destruct (c_opened c || _); [done|]. cbv zeta. by destruct (_ <? _). Qed.

(** A failure that did not open a closed circuit is the next one in a row. *)
Lemma recordFailure_counts c c' :
  circuit_recordFailure c = (false, c') → c_opened c = false → 0 < c_limit c →
  c_opened c' = false ∧ c_consecutive c' = c_consecutive c + 1 ∧ c_consecutive c + 1 < c_limit c.
Proof.
  unfold circuit_recordFailure. intros H Ho Hl. rewrite Ho in H. destruct (c_limit c <=? 0) eqn:E; propify; [lia|]. simpl in H.
  destruct (c_consecutive c + 1 <? c_limit c) eqn:En; propify; [|done]. injection H as <-. simpl. lia.
Qed.

(** An event that is no failure of [c] and no success of it. *)
Lemma circuits_silent s s' w t v :
  (∀ c, circuit_of c s' = circuit_of c s) → cancelled s' = cancelled s → log s' = log s ++ [(w, t, v)] →
  (∀ f, v ≠ Recorded f) → (∀ f, v ≠ Reported f) → v ≠ Succeeded → (∀ c, circuit_ok c s) → ∀ c, circuit_ok c s'.
Proof.
  intros Hc He Hl H1 H2 H3 Hok c. destruct (Hok c) as [Hlim Hcs]. unfold circuit_ok. rewrite Hc, He, Hl, consecutive_snoc. split; [done|].
  intros Hn. specialize (Hcs Hn). unfold count_failure. destruct v; try congruence; case_match; exact Hcs.
Qed.

Lemma circuit_of_set c c' x s : circuit_of c (set_circuit c' x s) = if bool_decide (c' = c) then x else circuit_of c s.
Proof. by destruct c, c'. Qed.

Lemma circuits_counted s s' w t v c0 :
  (∀ c, circuit_of c s' = if bool_decide (failureClass t = c) then c0 else circuit_of c s) → cancelled s' = cancelled s → log s' = log s ++ [(w, t, v)] →
  (cancelled s = false → c_opened c0 = false ∧ c_limit c0 = defaultTailHandlerFailureLimit ∧
     c_consecutive c0 = count_failure (failureClass t) (consecutive_failures (failureClass t) (log s)) (w, t, v) ∧
     0 <= count_failure (failureClass t) (consecutive_failures (failureClass t) (log s)) (w, t, v) < defaultTailHandlerFailureLimit) →
  c_limit c0 = defaultTailHandlerFailureLimit → (∀ c, circuit_ok c s) → ∀ c, circuit_ok c s'.
Proof.
  intros Hc He Hl H0 Hlim0 Hok c. destruct (Hok c) as [Hlim Hcs]. unfold circuit_ok. rewrite Hc, He, Hl, consecutive_snoc.
  destruct (bool_decide (failureClass t = c)) eqn:Ec; propify.
  - subst c. split; [done|]. intros Hn. destruct (H0 Hn) as (? & ? & ? & ?). done.
  - split; [done|]. intros Hn. specialize (Hcs Hn). unfold count_failure. rewrite bool_decide_false by done. exact Hcs.
Qed.

Lemma finish_success w t m x p s :
  x_err x = None → settles w t Waiting Succeeded s (finish_task ds cfg w t m x p s).
Proof.
  intros Hx. unfold finish_task. rewrite Hx. set (c := circuit_of (failureClass t) s).
  split; simpl; autorewrite with session; try done.
  intros Hok. destruct (Hok (failureClass t)) as [Hlim Hcs]. eapply (circuits_counted s _ w t Succeeded (circuit_recordSuccess c)).
  - intros c'. change (circuit_of c' (note w t Succeeded (with_worker w Waiting (set_circuit (failureClass t) (circuit_recordSuccess c) s)))) with (circuit_of c' (set_circuit (failureClass t) (circuit_recordSuccess c) s)).
    apply circuit_of_set.
  - simpl. by autorewrite with session.
  - simpl. by autorewrite with session.
  - intros Hn. destruct (Hcs Hn) as (Ho & _ & _). unfold circuit_recordSuccess, c. rewrite Ho. simpl. rewrite bool_decide_true by done. split_and!; done.
  - unfold circuit_recordSuccess, c. by case_match.
  - exact Hok.
Qed.
Lemma cancel_signal text s : cancel (signal text s) = signal text (cancel s).
Proof. unfold signal. simpl. by case_match. Qed.

Lemma note_signal w t v x text s : note w t v (with_worker w x (signal text s)) = with_worker w x (signal text (note w t v s)).
Proof. unfold signal. simpl. by case_match. Qed.

(** A worker that ends the session with an error. *)
Lemma exit_settles w t v text s s3 :
  ordered s3 = ordered s → workers s3 = workers s → arrived s3 = arrived s → accepted s3 = accepted s → log s3 = log s ++ [(w, t, v)] →
  cancelled s3 = true → fatal s3 = fatal s → (∀ c, c_limit (circuit_of c s3) = c_limit (circuit_of c s)) →
  verdict_ok t v true (fatal (signal text s3)) → settles w t Exited v s (with_worker w Exited (signal text s3)).
Proof.
  intros E1 E2 E3 E4 E5 E6 E7 E8 Hv. destruct (fatal_signal text s3) as [Hsub _].
  split; simpl; autorewrite with session; rewrite ?E1, ?E2, ?E3, ?E4, ?E5, ?E6; try done; [by rewrite <- E7|].
  apply circuits_ended; [|simpl; by autorewrite with session]. intros c. rewrite <- E8, <- (signal_circuit text s3 c). by destruct c.
Qed.

(** The body of the loop after a failure. *)
Lemma fail_settles w t m x e p s : ∃ x' v, settles w t x' v s (fail_task ds cfg w t m x e p s).
Proof.
  unfold fail_task. set (pj := x_parentCancellation x && x_forceFallback x). set (f := newTailFailureFromExecution t m x e).
  destruct (cancelled s && _ && _ && _ && _) eqn:Eab.
  { exists Exited, Abandoned. propify. split; simpl; try done. apply circuits_silent with w t Abandoned; done. }
  destruct ((messageScoped t || recorder cfg) && negb (recorder cfg && p)) eqn:Eneed.
  { set (s1 := if is_detached e || pj then cancel s else s).
    assert (s1 = s ∨ s1 = cancel s) as Hs1 by (unfold s1; destruct (is_detached e || pj); auto). clearbody s1.
    exists Exited, (Unrecorded f). rewrite note_signal. apply exit_settles; try (by destruct Hs1 as [->| ->]).
    split; [done|apply fatal_signal]. }
  set (v := if messageScoped t || recorder cfg then Recorded f else Reported f).
  assert (∀ ended errs, verdict_ok t v ended errs) as Hv.
  { intros. unfold v. destruct (messageScoped t) eqn:Em, (recorder cfg) eqn:Er; simpl in *; try done; by destruct p. }
  destruct pj eqn:Epj.
  { exists Exited, v. rewrite orb_true_r. by apply exit_settles. }
  rewrite orb_false_r. destruct (is_detached e) eqn:Ed.
  { exists Exited, v. by apply exit_settles. }
  set (s2 := report f (note w t v s)).
  assert (circuit_of (failureClass t) s2 = circuit_of (failureClass t) s) as Es2 by (by destruct (failureClass t)). rewrite Es2.
  destruct (circuit_recordFailure (circuit_of (failureClass t) s)) as [opened c0] eqn:Ec.
  pose proof (recordFailure_limit (circuit_of (failureClass t) s)) as Hl. rewrite Ec in Hl. simpl in Hl. destruct opened.
  { exists Exited, v. rewrite cancel_signal. apply exit_settles; simpl; autorewrite with session; try done. intros c.
    transitivity (c_limit (circuit_of c (set_circuit (failureClass t) c0 s2))); [by destruct c|]. rewrite circuit_of_set.
    destruct (bool_decide (failureClass t = c)) eqn:E; propify; [by subst|by destruct c]. }
  exists Waiting, v. split; simpl; autorewrite with session; simpl; try done.
  intros Hok. destruct (Hok (failureClass t)) as [Hlim Hcs]. apply (circuits_counted s _ w t v c0).
  - intros c. transitivity (circuit_of c (set_circuit (failureClass t) c0 s2)); [by destruct c|]. rewrite circuit_of_set.
    destruct (bool_decide (failureClass t = c)); [done|by destruct c].
  - simpl. by autorewrite with session.
  - simpl. by autorewrite with session.
  - intros Hn. destruct (Hcs Hn) as (Ho & Hcount & Hrange).
    assert (0 < c_limit (circuit_of (failureClass t) s)) as Hpos by (rewrite Hlim; unfold defaultTailHandlerFailureLimit; lia).
    destruct (recordFailure_counts _ _ Ec Ho Hpos) as (H1 & H2 & H3). rewrite Hlim in H3.
    assert (count_failure (failureClass t) (consecutive_failures (failureClass t) (log s)) (w, t, v) = consecutive_failures (failureClass t) (log s) + 1) as ->.
    { unfold count_failure. rewrite bool_decide_true by done. unfold v. by destruct (messageScoped t || recorder cfg). }
    rewrite Hcount in *.
    split_and!; [done|congruence|done|lia|lia].
  - congruence.
  - exact Hok.
Qed.

Lemma finish_settles w t m x p s : ∃ x' v, settles w t x' v s (finish_task ds cfg w t m x p s).
Proof.
  destruct (x_err x) as [e|] eqn:E; [|eauto using finish_success]. unfold finish_task. rewrite E. apply fail_settles.
Qed.

(** ** Every action keeps the invariant *)

Lemma size_insert w x (l : list worker) : is_Some (l !! 0%nat) → is_Some (<[w := x]> l !! 0%nat).
Proof. rewrite !lookup_lt_is_Some, length_insert. done. Qed.

(** A worker that has [t] in hand disposes of it. *)
Lemma settles_ok w t x v s s' :
  session_ok s → hand (workers s !! w) = [t] → settles w t x v s s' → session_ok s'.
Proof.
  intros Hok Hhand Hst. destruct (workers s !! w) as [y|] eqn:Ey; [|done].
  assert (workers s' !! w = Some x) as Hx by (rewrite (st_workers _ _ _ _ _ _ Hst); apply list_lookup_insert_eq; by eapply lookup_lt_Some).
  destruct Hst as [Ho Hw Hfree Hex Harr Hacc Hlog Hv Hc Hf Hcs]. split.
  - rewrite Hacc, Hlog, Ho, handled_snoc, (ok_order s Hok). destruct (Nat.eq_dec w 0%nat) as [->|Hne]; simpl.
    + rewrite Hx, Hfree, Ey, Hhand, <- !app_assoc. done.
    + rewrite Hw, list_lookup_insert_ne by lia. apply Nat.eqb_neq in Hne. by rewrite Hne, app_nil_r.
  - rewrite Ho. apply Hok.
  - rewrite Harr, Hacc. intros t' Ht'. destruct (ok_arrived s Hok t' Ht') as [?|[?|Hne]]; auto. right. right.
    intros E. rewrite E in Hf. destruct (fatal s) as [|z l]; [done|]. by apply (not_elem_of_nil z), Hf, elem_of_cons; left.
  - rewrite Hlog. apply Forall_app. split; [|by constructor]. eapply Forall_impl; [apply (ok_log s Hok)|].
    intros [[w' t'] v'] H. eapply verdict_ok_mono; [exact H|exact Hc|exact Hf].
  - intros w' Hw'. rewrite Hw in Hw'. destruct (Nat.eq_dec w w') as [<-|Hne].
    + rewrite Hw in Hx. rewrite Hx in Hw'. injection Hw' as ->. by apply Hex.
    + rewrite list_lookup_insert_ne in Hw' by done. apply Hc. by eapply (ok_exited s Hok).
  - apply Hcs. apply (ok_circuits s Hok).
  - rewrite Hw. apply size_insert, Hok.
Qed.

(** An event the queue has no room for ends the session. *)
Lemma overflow_ok text t s : session_ok s → session_ok (signal text (arrive t s)).
Proof.
  intros Hok. destruct (fatal_signal text (arrive t s)) as [Hsub Hin]. split; autorewrite with session; try apply Hok.
  - intros t' _. right. right. intros E. rewrite E in Hin. by apply elem_of_nil in Hin.
  - eapply Forall_impl; [apply (ok_log s Hok)|]. intros [[w t'] v] H. by eapply verdict_ok_mono; [exact H| |exact Hsub].
  - intros c. destruct (ok_circuits s Hok c) as [Hl Hcs]. unfold circuit_ok. rewrite signal_circuit. autorewrite with session. by destruct c.
Qed.

Lemma of_class_snoc c l t : of_class c (l ++ [t]) = of_class c l ++ (if bool_decide (failureClass t = c) then [t] else []).
Proof. unfold of_class. rewrite List.filter_app. simpl. by destruct (bool_decide _). Qed.

Lemma cancel_ok s : session_ok s → session_ok (cancel s).
Proof.
  intros Hok. split; simpl; try apply Hok; try done.
  - auto.
  - eapply Forall_impl; [apply (ok_log s Hok)|]. intros [[w t] v] H. by eapply verdict_ok_mono; [exact H| |done].
  - intros c. apply (circuits_ended s); [by intros []|done|apply Hok].
Qed.

(** A worker's new state, with the same task in hand. *)
Lemma with_worker_ok w x s :
  session_ok s → hand (Some x) = hand (workers s !! w) → x ≠ Exited ∨ cancelled s = true → session_ok (with_worker w x s).
Proof.
  intros Hok Hh Hx. split; simpl; try apply Hok.
  - rewrite (ok_order s Hok). do 2 f_equal. destruct (Nat.eq_dec w 0%nat) as [->|Hne]; [|by rewrite list_lookup_insert_ne].
    destruct (workers s !! 0%nat) as [y|] eqn:Ey.
    + rewrite list_lookup_insert_eq by (by eapply lookup_lt_Some). by rewrite <- Hh.
    + rewrite list_insert_ge by (by apply lookup_ge_None). by rewrite Ey.
  - intros w' Hw'. destruct (Nat.eq_dec w w') as [<-|Hne].
    + destruct (workers s !! w) as [y|] eqn:Ey.
      * rewrite list_lookup_insert_eq in Hw' by (by eapply lookup_lt_Some). destruct Hx as [Hx|Hx]; [congruence|done].
      * rewrite list_insert_ge in Hw' by (by apply lookup_ge_None). congruence.
    + rewrite list_lookup_insert_ne in Hw' by done. by eapply (ok_exited s Hok).
  - apply size_insert, Hok.
Qed.

Lemma enqueue_ok ignore t s : session_ok s → session_ok (enqueueTailTask cfg ignore t s).
Proof.
  intros Hok. unfold enqueueTailTask. set (s0 := arrive t s). set (q := queue_of (failureClass t) s0).
  assert (∀ t', t' ∈ arrived s0 → t' = t ∨ t' ∈ accepted s ∨ cancelled s = true ∨ fatal s ≠ []) as Harr.
  { intros t' [->|Ht']%elem_of_cons; [by left|right]. by apply (ok_arrived s Hok). }
  assert (cancelled s = true → session_ok s0) as Hs0.
  { intros Hc. split; try apply Hok. intros t' _. by right; left. }
  destruct (cancelled s0 && _) eqn:Ec; [propify; by apply Hs0|]. destruct (length q <? queueSize cfg)%nat eqn:Er.
  - split.
    + transitivity (of_class ClassOrdered (accepted s ++ [t])); [by destruct (failureClass t)|]. rewrite of_class_snoc, (ok_order s Hok).
      unfold q. destruct (failureClass t); simpl; [by rewrite <- !app_assoc|by rewrite app_nil_r].
    + unfold q. destruct (failureClass t) eqn:Et; simpl; [apply Forall_app; split; [apply Hok|by constructor]|apply Hok].
    + simpl. intros t' Ht'. destruct (Harr t') as [->|[H|H]]; [destruct (failureClass t); exact Ht'|..].
      * left. destruct (failureClass t); apply elem_of_app; right; by apply list_elem_of_singleton.
      * left. destruct (failureClass t); apply elem_of_app; by left.
      * right. destruct (failureClass t); exact H.
    + destruct (failureClass t); apply Hok.
    + destruct (failureClass t); apply Hok.
    + intros c. destruct (ok_circuits s Hok c). destruct (failureClass t), c; done.
    + destruct (failureClass t); apply Hok.
  - by apply overflow_ok.
Qed.

Lemma init_ok n : session_ok (init n).
Proof.
  split; simpl; try done.
  - by intros t ?%elem_of_nil.
  - intros w Hw. change (Waiting :: replicate n Waiting) with (replicate (S n) Waiting) in Hw. apply lookup_replicate in Hw as [? _]. done.
  - by intros [].
Qed.

Lemma dequeue_ok w t q s :
  session_ok s → workers s !! w = Some Waiting → queue_of (class_of_worker w) s = t :: q →
  session_ok (with_worker w (Holding t) (set_queue (class_of_worker w) q s)).
Proof.
  intros Hok Ew Eq. pose proof (lookup_lt_Some _ _ _ Ew) as Hlt. unfold class_of_worker in *. destruct (w =? 0)%nat eqn:E0; propify; simpl in *.
  - subst w. split; simpl; try apply Hok.
    + rewrite (ok_order s Hok), Ew, Eq, list_lookup_insert_eq by done. done.
    + pose proof (ok_queues s Hok) as Hq. rewrite Eq in Hq. by apply Forall_cons in Hq as [_ Hq].
    + intros w' Hw'. destruct (Nat.eq_dec 0%nat w') as [<-|Hne]; [by rewrite list_lookup_insert_eq in Hw'|].
      rewrite list_lookup_insert_ne in Hw' by done. by eapply (ok_exited s Hok).
    + apply (size_insert 0 _ _ (ok_size s Hok)).
  - split; simpl; try apply Hok.
    + by rewrite (ok_order s Hok), list_lookup_insert_ne by done.
    + intros w' Hw'. destruct (Nat.eq_dec w w') as [<-|Hne]; [by rewrite list_lookup_insert_eq in Hw'|].
      rewrite list_lookup_insert_ne in Hw' by done. by eapply (ok_exited s Hok).
    + apply size_insert, Hok.
Qed.

Lemma act_ok a s s' : session_ok s → act ds cfg a s = Some s' → session_ok s'.
Proof.
  intros Hok. destruct a as [t ignore|w|w now|w x now|w ids|w o p|w|]; simpl.
  - intros [= <-]. by apply enqueue_ok.
  - destruct (workers s !! w) as [[]|] eqn:Ew; try done. destruct (queue_of (class_of_worker w) s) as [|t q] eqn:Eq; [done|]. intros [= <-].
    by apply (dequeue_ok w t q).
  - destruct (workers s !! w) as [[| t | |]|] eqn:Ew; try done. destruct (cancelled s) eqn:Ec; [|destruct (t_run t) eqn:Er]; simpl; intros [= <-].
    + apply (settles_ok w t Exited Dropped s); [done|by rewrite Ew|]. split; simpl; try done. apply circuits_ended; [by intros []|done].
    + apply with_worker_ok; [done|by rewrite Ew|by left].
    + apply (settles_ok w t Waiting Skipped s); [done|by rewrite Ew|]. split; simpl; try done.
      by apply (circuits_silent s _ w t Skipped).
  - destruct (workers s !! w) as [[| | t m st |]|] eqn:Ew; try done. intros [= <-]. apply with_worker_ok; [done|by rewrite Ew|by left].
  - destruct (workers s !! w) as [[| | t m st |]|] eqn:Ew; try done. intros [= <-]. apply with_worker_ok; [done|by rewrite Ew|by left].
  - destruct (workers s !! w) as [[| | t m st |]|] eqn:Ew; try done. destruct (_ && _); [|done].
    destruct (runTailTaskExecution _ _ _ o) as [x frozen]. intros [= <-].
    destruct (finish_settles w t (freezeStageAt frozen m) x p s) as (x' & v & Hst). by apply (settles_ok w t x' v s); [|rewrite Ew|].
  - destruct (workers s !! w) as [[]|] eqn:Ew; try done. destruct (cancelled s) eqn:Ec; [|done]. intros [= <-].
    apply with_worker_ok; [done|by rewrite Ew|by right].
  - intros [= <-]. by apply cancel_ok.
Qed.

Lemma run_ok l s s' : session_ok s → run ds cfg l s = Some s' → session_ok s'.
Proof.
  unfold run. intros Hok. revert s Hok. induction l as [|a l IH]; intros s Hok; simpl; [by intros [= <-]|].
  destruct (act ds cfg a s) as [s1|] eqn:Ea; [apply IH; by eapply act_ok|].
  intros H. exfalso. clear -H. induction l as [|b l IH]; simpl in H; [done|auto].
Qed.

(** ** Progress of the ordered worker *)

(** What the ordered worker still has to do. *)
Definition backlog (s : session) : nat :=
  (3 * length (ordered s) + match workers s !! 0%nat with Some (Holding _) => 2 | Some (Running _ _ _) => 1 | _ => 0 end)%nat.

(** The actions with which the ordered worker moves on. *)
Definition serves (a : action) : bool :=
  match a with Dequeue 0%nat | Begin 0%nat _ | Return 0%nat _ _ => true | _ => false end.

Lemma settles_backlog w t x v s s' :
  settles w t x v s s' → (backlog s' <= backlog s)%nat ∧ (w = 0%nat → hand (workers s !! 0%nat) = [t] → (backlog s' < backlog s)%nat).
Proof.
  intros [Ho Hw Hfree _ _ _ _ _ _ _ _]. unfold backlog. rewrite Ho, Hw.
  destruct (Nat.eq_dec w 0%nat) as [->|Hne]; [|rewrite list_lookup_insert_ne by lia; lia].
  destruct (workers s !! 0%nat) as [y|] eqn:Ey; [|rewrite list_insert_ge by (by apply lookup_ge_None); rewrite Ey; split; [lia|by intros _ ?]].
  rewrite list_lookup_insert_eq by (by eapply lookup_lt_Some). destruct x; try done; destruct y; simpl; split; try lia; by intros _ ?.
Qed.
Lemma with_worker_backlog w x y s :
  workers s !! w = Some y → (match y with Holding _ => 2 | Running _ _ _ => 1 | _ => 0 end >= match x with Holding _ => 2 | Running _ _ _ => 1 | _ => 0 end)%nat →
  (backlog (with_worker w x s) <= backlog s)%nat.
Proof.
  intros Ey Hxy. unfold backlog. simpl. destruct (Nat.eq_dec w 0%nat) as [->|Hne]; [|rewrite list_lookup_insert_ne by lia; lia].
  rewrite list_lookup_insert_eq by (by eapply lookup_lt_Some). rewrite Ey. destruct x, y; lia.
Qed.

Lemma begin_settles w t s :
  workers s !! w = Some (Holding t) → cancelled s = true ∨ t_run t = false →
  ∃ x v s', settles w t x v s s' ∧ ∀ now, act ds cfg (Begin w now) s = Some s'.
Proof.
  intros Ew Hor. destruct (cancelled s) eqn:Ec.
  - exists Exited, Dropped. eexists. split; [|intros now; simpl; by rewrite Ew, Ec]. split; simpl; try done. apply circuits_ended; [by intros []|done].
  - destruct Hor as [?|Hr]; [done|]. exists Waiting, Skipped. eexists. split; [|intros now; simpl; by rewrite Ew, Ec, Hr].
    split; simpl; try done. by apply (circuits_silent s _ w t Skipped).
Qed.

Lemma begin_runs w t s now :
  workers s !! w = Some (Holding t) → cancelled s = false → t_run t = true →
  act ds cfg (Begin w now) s = Some (with_worker w (Running t (setStageAt StageHandler now (newTailFailureMetadata t)) now) s).
Proof. intros Ew Ec Er. simpl. by rewrite Ew, Ec, Er. Qed.

Lemma act_backlog a s s' :
  act ds cfg a s = Some s' → (∀ t i, a ≠ Arrive t i) → (backlog s' <= backlog s)%nat ∧ (serves a = true → (backlog s' < backlog s)%nat).
Proof.
  intros Ha Hne. destruct a as [t ignore|w|w now|w x now|w ids|w o p|w|].
  - by destruct (Hne t ignore).
  - simpl in Ha. destruct (workers s !! w) as [[]|] eqn:Ew; try done. destruct (queue_of (class_of_worker w) s) as [|t q] eqn:Eq; [done|]. injection Ha as <-.
    unfold class_of_worker in *. destruct w as [|w]; simpl in *.
    + unfold backlog. simpl. rewrite Eq, Ew. rewrite list_lookup_insert_eq by (by eapply lookup_lt_Some). simpl. lia.
    + unfold backlog. simpl. rewrite list_lookup_insert_ne by done. split; [lia|done].
  - destruct (workers s !! w) as [[| t | |]|] eqn:Ew; try (simpl in Ha; rewrite Ew in Ha; done).
    destruct (decide (cancelled s = true ∨ t_run t = false)) as [Hor|Hno].
    + destruct (begin_settles w t s Ew Hor) as (x & v & s1 & Hst & Hact). rewrite Hact in Ha. injection Ha as <-.
      destruct (settles_backlog _ _ _ _ _ _ Hst) as [Hle Hlt]. split; [done|]. intros Hs. destruct w as [|w]; [|done]. apply Hlt; [done|by rewrite Ew].
    + assert (cancelled s = false) as Ec by (apply not_true_is_false; tauto). assert (t_run t = true) as Er by (apply not_false_is_true; tauto).
      rewrite (begin_runs w t s now Ew Ec Er) in Ha. injection Ha as <-. split; [apply (with_worker_backlog w _ _ s Ew); lia|].
      intros Hs. destruct w as [|w]; [|done]. unfold backlog. simpl. rewrite list_lookup_insert_eq by (by eapply lookup_lt_Some). rewrite Ew. lia.
  - simpl in Ha. destruct (workers s !! w) as [[| | t m st |]|] eqn:Ew; try done. injection Ha as <-. split; [|done]. apply (with_worker_backlog w _ _ s Ew). lia.
  - simpl in Ha. destruct (workers s !! w) as [[| | t m st |]|] eqn:Ew; try done. injection Ha as <-. split; [|done]. apply (with_worker_backlog w _ _ s Ew). lia.
  - simpl in Ha. destruct (workers s !! w) as [[| | t m st |]|] eqn:Ew; try done. destruct (_ && _); [|done].
    destruct (runTailTaskExecution _ _ _ o) as [x frozen]. injection Ha as <-.
    destruct (finish_settles w t (freezeStageAt frozen m) x p s) as (x' & v & Hst). destruct (settles_backlog _ _ _ _ _ _ Hst) as [Hle Hlt].
    split; [done|]. intros Hs. destruct w as [|w]; [|done]. apply Hlt; [done|by rewrite Ew].
  - simpl in Ha. destruct (workers s !! w) as [[]|] eqn:Ew; try done. destruct (cancelled s); [|done]. injection Ha as <-. split; [|done].
    apply (with_worker_backlog w _ _ s Ew). lia.
  - injection Ha as <-. by split.
Qed.

(** While the session lives and there is something to do, the ordered worker can
    move on, however its handler ends. *)
Lemma ordered_worker_enabled (result : tailTask → observed * bool) s :
  (∀ t, coherent (handlerTimeout cfg) (result t).1 = true ∧ observed_ctx (result t).1 = None) →
  session_ok s → cancelled s = false → (0 < backlog s)%nat →
  ∃ a s', act ds cfg a s = Some s' ∧ serves a = true ∧ (∀ t i, a ≠ Arrive t i) ∧ accepted s' = accepted s.
Proof.
  intros Hres Hok Hc Hb. destruct (ok_size s Hok) as [x Ex]. unfold backlog in Hb. rewrite Ex in Hb. destruct x as [|t|t m st|].
  - destruct (ordered s) as [|t q] eqn:Eq; [simpl in Hb; lia|]. exists (Dequeue 0%nat). eexists. simpl. rewrite Ex, Eq. by split_and!.
  - destruct (t_run t) eqn:Er.
    + exists (Begin 0%nat 0). eexists. rewrite (begin_runs 0%nat t s 0 Ex Hc Er). by split_and!.
    + destruct (begin_settles 0%nat t s Ex (or_intror Er)) as (x & v & s' & Hst & Hact). exists (Begin 0%nat 0), s'. split_and!; [apply Hact|done|done|].
      apply Hst.
  - destruct (Hres t) as [Hcoh Hobs]. destruct (result t) as [o p]; simpl in *. exists (Return 0%nat o p).
    destruct (runTailTaskExecution (handlerTimeout cfg) st (sessionDeadline cfg) o) as [x0 frozen] eqn:Ex0.
    destruct (finish_settles 0%nat t (freezeStageAt frozen m) x0 p s) as (x & v & Hst). eexists.
    split; [simpl; rewrite Ex, Hcoh, Hc, Hobs; simpl; rewrite Ex0; reflexivity|]. split_and!; [done|done|apply Hst].
  - by rewrite (ok_exited s Hok _ Ex) in Hc.
Qed.

Lemma run_cons a l s s1 : act ds cfg a s = Some s1 → run ds cfg (a :: l) s = run ds cfg l s1.
Proof. unfold run. simpl. by intros ->. Qed.

Lemma ordered_queue_drains (result : tailTask → observed * bool) s :
  (∀ t, coherent (handlerTimeout cfg) (result t).1 = true ∧ observed_ctx (result t).1 = None) → session_ok s →
  ∃ l s', run ds cfg l s = Some s' ∧ (cancelled s' = true ∨ handled (log s') = of_class ClassOrdered (accepted s)).
Proof.
  intros Hres. remember (backlog s) as n eqn:Hn. revert s Hn. induction (lt_wf n) as [n _ IH]. intros s -> Hok.
  destruct (cancelled s) eqn:Hc; [exists [], s; by split; [|left]|].
  destruct (backlog s) as [|k] eqn:Hb.
  - exists [], s. split; [done|right]. rewrite (ok_order s Hok). unfold backlog in Hb.
    destruct (ordered s); [|simpl in Hb; lia]. destruct (workers s !! 0%nat) as [[]|]; simpl in *; rewrite ?app_nil_r; try done; lia.
  - destruct (ordered_worker_enabled result s Hres Hok Hc) as (a & s1 & Ha & Hs & Hne & Hacc); [lia|].
    destruct (act_backlog a s s1 Ha Hne) as [_ Hlt]. specialize (Hlt Hs).
    destruct (IH (backlog s1) ltac:(lia) s1 eq_refl (act_ok a s s1 Hok Ha)) as (l & s' & Hrun & Hend).
    exists (a :: l), s'. rewrite (run_cons a l s s1 Ha), <- Hacc. done.
Qed.
End Invariant.

Lemma elem_of_handled t l : t ∈ handled l → ∃ v, (0%nat, t, v) ∈ l.
Proof.
  induction l as [|[[w t'] v] l IH]; simpl; [by intros ?%elem_of_nil|].
  assert (t ∈ handled l → ∃ v0, (0%nat, t, v0) ∈ (w, t', v) :: l) as Hrest
    by (intros Hin; destruct (IH Hin) as [v0 Hv0]; exists v0; apply elem_of_cons; by right).
  destruct (w =? 0)%nat eqn:E; propify; [|exact Hrest]. intros [->|Hin]%elem_of_cons; [|by apply Hrest].
  subst w. exists v. apply elem_of_cons. by left.
Qed.

Lemma elem_of_of_class c t l : t ∈ l → failureClass t = c → t ∈ of_class c l.
Proof.
  intros Hin Hc. unfold of_class. apply list_elem_of_In, List.filter_In. split; [by apply list_elem_of_In|]. by rewrite bool_decide_true.
Qed.

(** What has become of a message event. *)
Definition accounted (cfg : config) (t : tailTask) (s : session) : Prop :=
  t ∈ ordered s ∨ t ∈ hand (workers s !! 0%nat) ∨ (0%nat, t, Succeeded) ∈ log s ∨
  (∃ f, (0%nat, t, Recorded f) ∈ log s ∧ tf_EventType f = eventType t ∧ recorder cfg = true).

(** ** The theorems *)

(** C20: Ordered events are handled in the order in which they arrived, one at a
    time: at every moment the accepted ones are those already disposed of, then
    at most one in the worker's hands, then the queue. *)
Theorem gateway_order_kept (ds : Z → string) (cfg : config) (n : nat) (l : list action) (s : session)
    (Hrun : run ds cfg l (init n) = Some s) :
  of_class ClassOrdered (accepted s) = handled (log s) ++ hand (workers s !! 0%nat) ++ ordered s ∧ (length (hand (workers s !! 0%nat)) <= 1)%nat.
Proof.
  pose proof (run_ok ds cfg l _ _ (init_ok cfg n) Hrun) as Hok. split; [apply Hok|]. by destruct (workers s !! 0%nat) as [[]|]; simpl; lia.
Qed.

(** C6: No message event of a living session is lost: it waits in the queue, is
    in the worker's hands, was handled with success, or its failure is recorded.
    Otherwise the session has been cancelled or has a fatal error; and a failure
    that could not be recorded is always reported by [Tail]. *)
Theorem message_events_are_not_lost (ds : Z → string) (cfg : config) (n : nat) (l : list action) (s : session) (t : tailTask)
    (Hrun : run ds cfg l (init n) = Some s) (Harrived : t ∈ arrived s) (Hmessage : messageScoped t = true)
    (Hordered : failureClass t = ClassOrdered) (Hhandler : t_run t = true) :
  (cancelled s = true ∨ Tail_result s ≠ None ∨ accounted cfg t s) ∧
  ∀ w f, (w, t, Unrecorded f) ∈ log s → ∃ errs, Tail_result s = Some errs ∧ persist_text ∈ errs.
Proof.
  pose proof (run_ok ds cfg l _ _ (init_ok cfg n) Hrun) as Hok. pose proof (ok_log cfg s Hok) as Hlog. rewrite Forall_forall in Hlog. split.
  - destruct (cancelled s) eqn:Ec; [by left|right]. unfold Tail_result. destruct (fatal s) as [|e errs] eqn:Ef; [right|by left].
    assert (t ∈ accepted s) as Hacc by (destruct (ok_arrived cfg s Hok t Harrived) as [?|[?|?]]; [done|congruence..]).
    pose proof (elem_of_of_class _ _ _ Hacc Hordered) as Hin. rewrite (ok_order cfg s Hok), !elem_of_app in Hin. unfold accounted.
    destruct Hin as [Hin|[Hin|Hin]]; auto. destruct (elem_of_handled _ _ Hin) as [v Hv]. specialize (Hlog _ Hv). simpl in Hlog.
    destruct v; simpl in Hlog; try congruence; [by auto|right; right; right; by destruct Hlog; eauto|by destruct Hlog; congruence|by destruct Hlog].
  - intros w f Hin. destruct (Hlog _ Hin) as [_ Hp]. unfold Tail_result. destruct (fatal s) as [|e errs]; [by apply elem_of_nil in Hp|by eauto].
Qed.

(** A living session has seen fewer than three failures in a row of the
    ordered events, and fewer than three of the member events. *)
Theorem circuits_end_the_session (ds : Z → string) (cfg : config) (n : nat) (l : list action) (s : session)
    (Hrun : run ds cfg l (init n) = Some s) (Hlive : cancelled s = false) (c : tailFailureClass) :
  0 <= consecutive_failures c (log s) < defaultTailHandlerFailureLimit ∧ c_consecutive (circuit_of c s) = consecutive_failures c (log s).
Proof.
  pose proof (run_ok ds cfg l _ _ (init_ok cfg n) Hrun) as Hok. destruct (ok_circuits cfg s Hok c) as [_ Hcs]. destruct (Hcs Hlive) as (_ & H1 & H2). done.
Qed.

(** C37: The queue of ordered events drains. While the session lives and its
    worker has something to do, nothing but a new event adds to the backlog and
    each move of that worker takes from it; and whatever the handlers return,
    as long as they do, the worker gets to the end of the events accepted so
    far, or the session ends. *)
Theorem ordered_events_are_served (ds : Z → string) (cfg : config) (n : nat) (l : list action) (s : session) (result : tailTask → observed * bool)
    (Hrun : run ds cfg l (init n) = Some s)
    (Hreturns : ∀ t, coherent (handlerTimeout cfg) (result t).1 = true ∧ observed_ctx (result t).1 = None) :
  (∀ a s', act ds cfg a s = Some s' → (∀ t i, a ≠ Arrive t i) →
     (backlog s' <= backlog s)%nat ∧ (serves a = true → (backlog s' < backlog s)%nat)) ∧
  ∃ l' s', run ds cfg l' s = Some s' ∧ (cancelled s' = true ∨ handled (log s') = of_class ClassOrdered (accepted s)).
Proof.
  pose proof (run_ok ds cfg l _ _ (init_ok cfg n) Hrun) as Hok. split; [intros a s'; apply act_backlog|]. by apply (ordered_queue_drains ds cfg result).
Qed.

(** ** Witnesses *)

Definition two_events : list tailTask :=
  [newMessageTailTask "MESSAGE_CREATE" [Some (mkMessageIDs "1" "2" "3" (Some "4"))]; newMessageTailTask "MESSAGE_DELETE" [Some (mkMessageIDs "1" "2" "5" None)]]%string.

Definition small_session : config := mkConfig 2 (30 * 1000000000) true None.

Definition fails_after (d : Z) (e : option task_err) (now : Z) : observed := ObservedResult (mkResult e (now + d)) None (now + d) (now + d).

(** Both events arrive; the first is handled, the handler of the second fails
    and its failure is recorded. *)
Definition two_events_run : list action :=
  match two_events with
  | [a; b] => [Arrive a false; Arrive b false; Dequeue 0; Begin 0 10; Return 0 (fails_after 5 None 10) true;
               Dequeue 0; Begin 0 20; UpdateStage 0 StageCanonicalDelete 21; Return 0 (fails_after 5 (Some (TErr (EText "disk"))) 20) true]
  | _ => []
  end.

Definition seconds (d : Z) : string := "30s".


Lemma gateway_order_kept_witness :
  ∃ s, run seconds small_session two_events_run (init 1) = Some s ∧ of_class ClassOrdered (accepted s) = handled (log s) ++ hand (workers s !! 0%nat) ++ ordered s.
Proof.
  eexists. split; [vm_compute; reflexivity|].
  refine (proj1 (gateway_order_kept seconds small_session 1 two_events_run _ _)). vm_compute. reflexivity.
Defined.

Lemma message_events_are_not_lost_witness :
  ∃ s t, run seconds small_session two_events_run (init 1) = Some s ∧ t ∈ arrived s ∧ cancelled s = false ∧ (cancelled s = true ∨ Tail_result s ≠ None ∨ accounted small_session t s).
Proof.
  destruct (run seconds small_session two_events_run (init 1)) as [s|] eqn:E; [|vm_compute in E; discriminate].
  exists s, (newMessageTailTask "MESSAGE_DELETE" [Some (mkMessageIDs "1" "2" "5" None)]).
  assert (newMessageTailTask "MESSAGE_DELETE" [Some (mkMessageIDs "1" "2" "5" None)] ∈ arrived s ∧ cancelled s = false) as [Ha Hc].
  { vm_compute in E. injection E as <-. split; [|reflexivity]. apply elem_of_cons. by left. }
  split_and!; [done|exact Ha|exact Hc|].
  exact (proj1 (message_events_are_not_lost seconds small_session 1 two_events_run s _ E Ha eq_refl eq_refl eq_refl)).
Defined.

Lemma circuits_end_the_session_witness :
  ∃ s, run seconds small_session two_events_run (init 1) = Some s ∧ cancelled s = false ∧ consecutive_failures ClassOrdered (log s) = 1 ∧
    0 <= consecutive_failures ClassOrdered (log s) < defaultTailHandlerFailureLimit.
Proof.
  eexists. split; [vm_compute; reflexivity|]. split; [reflexivity|]. split; [reflexivity|].
  refine (proj1 (circuits_end_the_session seconds small_session 1 two_events_run _ _ _ ClassOrdered)); vm_compute; reflexivity.
Defined.

Lemma ordered_events_are_served_witness :
  ∃ s, run seconds small_session (firstn 2 two_events_run) (init 1) = Some s ∧ ordered s = two_events ∧
    ∃ l' s', run seconds small_session l' s = Some s' ∧ (cancelled s' = true ∨ handled (log s') = of_class ClassOrdered (accepted s)).
Proof.
  eexists. split; [vm_compute; reflexivity|]. split; [reflexivity|].
  refine (proj2 (ordered_events_are_served seconds small_session 1 (firstn 2 two_events_run) _ (λ _, (fails_after 5 None 10, true)) _ _)); [vm_compute; reflexivity|by intros t].
Defined.
