(* ===== verification/FailureJournal.v ===== *)
(** * The fallback journal of failed Gateway events

    internal/store/tail_failure_fallback.go: when the ledger cannot be reached,
    a failed event is written to a file of its own; a later run imports the
    files into the ledger, once each, under receipts in sync_state. The directory
    is a map from file names to contents; locking, permissions and links are
    platform I/O and appear as calls that may fail. *)
From S2P Require Import Prelude Errors Snowflake SyncState FailureLedger GoTime GoText.
Local Open Scope Z_scope.

Record TailMessageFailureFallback := mkFallback { fb_EventKind : string; fb_FailureKind : string; fb_GuildID : string; fb_ChannelID : string; fb_MessageID : string }.

Record fallbackRecord := mkFallbackRecord {
  fr_Version : Z; fr_EventKind : string; fr_FailureKind : string; fr_GuildID : string; fr_ChannelID : string; fr_MessageID : string }.
#[export] Instance fallbackRecord_eq_dec : EqDecision fallbackRecord.
Proof. solve_decision. Defined.

(** [json.Marshal] of a record, the strict decoding of one, and the hexadecimal
    SHA-256 of a text. *)
Class JournalText := {
  Marshal : fallbackRecord → string;
  Unmarshal : string → option fallbackRecord;
  sha256_hex : string → string }.

Definition fallbackVersion : Z := 1.
Definition fallbackMaxSize : nat := 4096.
Definition fallbackTempPrefix : string := ".tmp-".
Definition fallbackExtension : string := ".json".
Definition occurrenceBytes : nat := 16.
Definition nameAttempts : nat := 16.
Definition receiptPrefix : string := "tail-message-failure-fallback:".

(** What [encoding/json] and SHA-256 promise: a record of valid texts reads
    back, and is not empty; a digest is 64 lower-case hexadecimal digits. *)
Definition hex_digit (c : ascii) : bool := let n := byte_of c in (48 <=? n) && (n <=? 57) || (97 <=? n) && (n <=? 102) || (65 <=? n) && (n <=? 70).

Fixpoint all_hex (s : string) : bool := match s with EmptyString => true | String c s => hex_digit c && all_hex s end.

Definition validLowerHex (value : string) (byteLength : nat) : bool :=
  (String.length value =? byteLength * 2)%nat && (value =? ToLower value)%string && all_hex value.

Class JournalTextLaws `{JournalText} := {
  valid_text : string → Prop;
  Unmarshal_Marshal r : valid_text (fr_GuildID r) → valid_text (fr_ChannelID r) → valid_text (fr_MessageID r) →
                        valid_text (fr_EventKind r) → valid_text (fr_FailureKind r) → Unmarshal (Marshal r) = Some r;
  kinds_valid s : s ∈ ["create"; "update"; "delete"; "returned_error"; "panic"; "timeout"]%string → valid_text s;
  Marshal_nonempty r : Marshal r ≠ ""%string;
  sha256_hex_valid s : validLowerHex (sha256_hex s) 32 = true }.

(** ** Kinds *)

Definition normalizeTailMessageEventKind (value : string) : option string :=
  let value := TrimPrefix (ToLower (TrimSpace value)) "message_" in
  if bool_decide (value ∈ ["create"; "update"; "delete"]%string) then Some value else None.

(** [strings.ReplaceAll(value, "-", "_")]. *)
Fixpoint replace_dashes (s : string) : string :=
  match s with
  | EmptyString => EmptyString
  | String c s => String (if Ascii.eqb c "-" then "_" else c)%char (replace_dashes s)
  end.

Definition normalizeTailMessageFailureKind (value : string) : option string :=
  let value := replace_dashes (ToLower (TrimSpace value)) in
  if bool_decide (value ∈ ["returned_error"; "panic"; "timeout"]%string) then Some value else None.

(** Class and message of the ledger row. *)
Definition tailMessageFailureSentinel (kind : string) : option (string * string) :=
  if (kind =? "returned_error")%string then Some ("returned_error", "tail message handler returned an error")%string
  else if (kind =? "panic")%string then Some ("panic", "tail message handler panicked")%string
  else if (kind =? "timeout")%string then Some ("timeout", "tail message handler timed out")%string
  else None.

(** The files of the journal directory. *)
Abbreviation directory := (gmap string string).

Section Journal.
Context {jt : JournalText}.

Definition normalizeTailMessageFailureFallback (fb : TailMessageFailureFallback) : fallbackRecord + err :=
  match normalizeTailMessageEventKind (fb_EventKind fb) with
  | None => inr (EText "tail message event kind must be create, update, or delete")
  | Some eventKind =>
      match normalizeTailMessageFailureKind (fb_FailureKind fb) with
      | None => inr (EText "tail message failure kind must be returned_error, panic, or timeout")
      | Some failureKind =>
          let r := mkFallbackRecord fallbackVersion eventKind failureKind (TrimSpace (fb_GuildID fb)) (TrimSpace (fb_ChannelID fb)) (TrimSpace (fb_MessageID fb)) in
          if (fr_GuildID r =? "")%string || (fr_ChannelID r =? "")%string || (fr_MessageID r =? "")%string
          then inr (EText "tail message failure fallback requires guild, channel, and message ids")
          else if (fallbackMaxSize <? String.length (Marshal r))%nat then inr (EText "tail message failure fallback exceeds size limit")
          else inl r
      end
  end.

(** ** File names *)

(** The artifact id and the digest of a name: [digest.json] or
    [occurrence-digest.json]. *)
Definition tailMessageFailureNameParts (name : string) : option (string * string) :=
  if negb (HasSuffix name fallbackExtension) then None
  else
    let artifactID := TrimSuffix name fallbackExtension in
    let checked digest := if validLowerHex digest 32 then Some (artifactID, digest) else None in
    match CutByte artifactID "-" with
    | (digest, _, false) => checked digest
    | (occurrence, rest, true) =>
        match CutByte rest "-" with
        | (digest, _, false) => if validLowerHex occurrence occurrenceBytes then checked digest else None
        | _ => None
        end
    end.

Definition tailMessageFailureReceiptScope (name : string) : option string :=
  match tailMessageFailureNameParts name with
  | Some (artifactID, _) => Some (receiptPrefix ++ artifactID)%string
  | None => None
  end.

Definition file_name (occurrence body : string) : string := (occurrence ++ "-" ++ sha256_hex body ++ fallbackExtension)%string.

(** ** Persisting *)

(** What the environment answers: [di_temp] is how opening the directory and
    creating, writing, syncing and closing the temporary file end; each attempt
    draws an id, or fails to; a rename may fail though no file has the name;
    [di_sync] is how syncing the directory ends. *)
Inductive draw := DrawFails | Drawn (id : string) (rename : option err).

Record dir_io := mkDirIO { di_temp : option err; di_draws : list draw; di_sync : option err }.

(** The renames of [persistTailMessageFailureFallback]: the rename, which never
    replaces a file, is the commit. *)
Fixpoint commit_file (attempts : nat) (draws : list draw) (sync : option err) (body : string) (files : directory) : option err * directory :=
  match attempts, draws with
  | S k, Drawn id rename :: draws =>
      let name := file_name id body in
      match files !! name, rename with
      | Some _, _ => commit_file k draws sync body files
      | None, Some e => (Some e, files)
      | None, None => (sync, <[name := body]> files)
      end
  | S _, _ => (Some (EText "generate tail message failure fallback occurrence id"), files)
  | O, _ => (Some (EText "commit tail message failure fallback: exhausted unique filenames"), files)
  end.

Definition PersistTailMessageFailureFallback (fb : TailMessageFailureFallback) (io : dir_io) (files : directory) : option err * directory :=
  match normalizeTailMessageFailureFallback fb with
  | inr e => (Some e, files)
  | inl r =>
      match di_temp io with
      | Some e => (Some e, files)
      | None => commit_file nameAttempts (di_draws io) (di_sync io) (Marshal r) files
      end
  end.

(** ** Reading *)

Definition validateCommittedTailMessageFailure (r : fallbackRecord) : bool :=
  (fr_Version r =? fallbackVersion)
  && match normalizeTailMessageEventKind (fr_EventKind r) with Some k => (k =? fr_EventKind r)%string | None => false end
  && match normalizeTailMessageFailureKind (fr_FailureKind r) with Some k => (k =? fr_FailureKind r)%string | None => false end
  && forallb (λ id, nonempty id && (TrimSpace id =? id)%string) [fr_GuildID r; fr_ChannelID r; fr_MessageID r].

Definition readCommittedTailMessageFailure (name body : string) : option fallbackRecord :=
  match tailMessageFailureNameParts name with
  | None => None
  | Some (_, digest) =>
      if (String.length body =? 0)%nat || (fallbackMaxSize <? String.length body)%nat || negb (sha256_hex body =? digest)%string then None
      else match Unmarshal body with
           | Some r => if validateCommittedTailMessageFailure r && (Marshal r =? body)%string then Some r else None
           | None => None
           end
  end.

(** ** Importing *)

Record journal := mkJournal { j_files : directory; j_sync : gmap string sync_row; j_ledger : ledger }.

Definition record_ref (r : fallbackRecord) : FailureRef :=
  mkRef "tail_message" "discord" (fr_GuildID r) (fr_ChannelID r) (fr_MessageID r) "message_event" (fr_EventKind r).

(** The upsert of [importTailMessageFailureSQL]. *)
Definition import_row (now : Z) (class message : string) (f : Failure) : Failure :=
  mkFailure (FailureID f) (Ref f) class message (FirstSeenAt f) now (RetryCount f + 1) None (ResolutionReason f).

Definition importTailMessageFailureFallbackRecord (now : Z) (r : fallbackRecord) (l : ledger) : ledger + err :=
  match tailMessageFailureSentinel (fr_FailureKind r) with
  | None => inr (EText "invalid tail message failure kind")
  | Some (class, message) =>
      let ref := record_ref r in
      if existsb (λ f, bool_decide (Ref f = ref)) (rows l)
      then inl (update_where (λ f, bool_decide (Ref f = ref)) (import_row now class message) l)
      else inl (mkLedger (rows l ++ [mkFailure (last_id l + 1) ref class message now now 0 None ""]) (last_id l + 1))
  end.

(** The loop of the transaction: a file whose receipt is stored is not applied
    again. *)
Fixpoint import_records (now : Z) (committed : list (string * fallbackRecord)) (sync : gmap string sync_row) (l : ledger) :
    (nat * gmap string sync_row * ledger) + err :=
  match committed with
  | [] => inl (0%nat, sync, l)
  | (name, r) :: rest =>
      let scope := default ""%string (tailMessageFailureReceiptScope name) in
      match sync !! scope with
      | Some _ => import_records now rest sync l
      | None =>
          match importTailMessageFailureFallbackRecord now r l with
          | inr e => inr e
          | inl l =>
              match import_records now rest (<[scope := SyncRow (Some "") (Some now)]> sync) l with
              | inl (n, sync, l) => inl (S n, sync, l)
              | inr e => inr e
              end
          end
      end
  end.

Inductive commit_outcome := Commits | RollsBack (e : err) | CommitsButFails (e : err).

(** [importTailMessageFailureFallbackRecords]: everything is validated before
    the transaction begins; [commit] is how it ends. *)
Definition importTailMessageFailureFallbackRecords (now : Z) (commit : commit_outcome) (committed : list (string * fallbackRecord))
    (sync : gmap string sync_row) (l : ledger) : nat * option err * gmap string sync_row * ledger :=
  if existsb (λ '(_, r), negb (validateCommittedTailMessageFailure r)) committed then (0%nat, Some (EText "committed tail message failure fallback is invalid"), sync, l)
  else if existsb (λ '(name, _), bool_decide (tailMessageFailureReceiptScope name = None)) committed
  then (0%nat, Some (EText "invalid committed tail message failure fallback filename"), sync, l)
  else match import_records now committed sync l with
       | inr e => (0%nat, Some e, sync, l)
       | inl (n, sync', l') =>
           match commit with
           | Commits => (n, None, sync', l')
           | RollsBack e => (0%nat, Some e, sync, l)
           | CommitsButFails e => (0%nat, Some e, sync', l')
           end
       end.

Definition is_temp (name : string) : bool := HasPrefix name fallbackTempPrefix.

(** The committed files in the order of their names. *)
Definition committed_names (files : directory) : list string :=
  merge_sort string_le (List.filter (λ name, negb (is_temp name)) (elements (dom files))).

Definition read_all (files : directory) : option (list (string * fallbackRecord)) :=
  mapM (λ name, match readCommittedTailMessageFailure name (default "" (files !! name))%string with Some r => Some (name, r) | None => None end)
       (committed_names files).

(** Removing files, of which [keeps] cannot be removed. *)
Definition remove_files (keeps : string → bool) (names : list string) (files : directory) : directory :=
  filter (λ '(name, _), name ∉ names ∨ keeps name = true) files.

(** What precedes the first file that cannot be removed. *)
Fixpoint until_kept (keeps : string → bool) (names : list string) : list string :=
  match names with
  | [] => []
  | name :: names => if keeps name then [] else name :: until_kept keeps names
  end.

(** [cleanupTailMessageFailureTemps]: removal stops at the first file that
    cannot be removed. *)
Definition cleanupTailMessageFailureTemps (keeps : string → bool) (syncs : bool) (temps : list string) (files : directory) : option err * directory :=
  let files := remove_files keeps (until_kept keeps temps) files in
  (if existsb keeps temps then Some (EText "remove tail message failure fallback temp file")
   else if negb syncs && negb (length temps =? 0)%nat then Some (EText "sync tail message failure fallback temp cleanup") else None, files).

(** [ImportTailMessageFailureFallbacks]: how the transaction ends, which files
    the directory refuses to remove and whether it syncs are the environment's. *)
Definition ImportTailMessageFailureFallbacks (now : Z) (commit : commit_outcome) (keeps : string → bool) (syncs : bool) (j : journal) : nat * option err * journal :=
  match read_all (j_files j) with
  | None => (0%nat, Some (EText "validate committed tail message failure fallback"), j)
  | Some committed =>
      let temps := merge_sort string_le (List.filter is_temp (elements (dom (j_files j)))) in
      match cleanupTailMessageFailureTemps keeps syncs temps (j_files j) with
      | (Some e, files) => (0%nat, Some e, mkJournal files (j_sync j) (j_ledger j))
      | (None, files) =>
          match committed with
          | [] => (0%nat, None, mkJournal files (j_sync j) (j_ledger j))
          | _ =>
              match importTailMessageFailureFallbackRecords now commit committed (j_sync j) (j_ledger j) with
              | (_, Some e, sync, l) => (0%nat, Some e, mkJournal files sync l)
              | (n, None, sync, l) =>
                  let names := fst <$> committed in
                  (n, if existsb keeps names then Some (EText "remove imported tail message failure fallback")
                      else if syncs then None else Some (EText "sync imported tail message failure fallback removals"),
                   mkJournal (remove_files keeps names files) sync l)
              end
          end
      end
  end.
End Journal.

(** ** Names and contents read back *)

Fixpoint dash_free (s : string) : bool := match s with EmptyString => true | String c s => negb (Ascii.eqb c "-") && dash_free s end.

Lemma hex_dash_free s : all_hex s = true → dash_free s = true.
Proof.
  induction s as [|c s IH]; simpl; [done|]. intros [Hc Hs]%andb_true_iff. rewrite IH by done. rewrite andb_true_r.
  destruct (Ascii.eqb_spec c "-") as [->|]; [vm_compute in Hc; discriminate|done].
Qed.

Lemma CutByte_free s : dash_free s = true → CutByte s "-" = (s, ""%string, false).
Proof.
  induction s as [|c s IH]; simpl; [done|]. intros [Hc Hs]%andb_true_iff. apply negb_true_iff in Hc. rewrite Hc, IH by done. done.
Qed.

Lemma CutByte_dash s t : dash_free s = true → CutByte (s ++ String "-" t) "-" = (s, t, true).
Proof.
  induction s as [|c s IH]; simpl; [done|]. intros [Hc Hs]%andb_true_iff. apply negb_true_iff in Hc. rewrite Hc, IH by done. done.
Qed.

Lemma valid_hex s n : validLowerHex s n = true → all_hex s = true.
Proof. unfold validLowerHex. intros. by propify. Qed.

Lemma TrimSuffix_app s suf : TrimSuffix (s ++ suf) suf = s.
Proof. unfold TrimSuffix. by rewrite (proj2 (CutSuffix_Some (s ++ suf) suf s) eq_refl). Qed.

Lemma name_parts occurrence digest :
  validLowerHex occurrence occurrenceBytes = true → validLowerHex digest 32 = true →
  tailMessageFailureNameParts (occurrence ++ "-" ++ digest ++ fallbackExtension) = Some ((occurrence ++ "-" ++ digest)%string, digest).
Proof.
  intros Ho Hd. unfold tailMessageFailureNameParts.
  rewrite <- !append_assoc, HasSuffix_app, TrimSuffix_app. cbn [negb]. rewrite append_assoc.
  change ("-" ++ digest)%string with (String "-" digest). cbv zeta.
  rewrite CutByte_dash by (eapply hex_dash_free, valid_hex; exact Ho). rewrite CutByte_free by (eapply hex_dash_free, valid_hex; exact Hd).
  by rewrite Ho, Hd.
Qed.

Section Laws.
Context {jt : JournalText} {jl : JournalTextLaws}.

Lemma event_kind_again v k : normalizeTailMessageEventKind v = Some k →
  normalizeTailMessageEventKind k = Some k ∧ k ∈ ["create"; "update"; "delete"]%string.
Proof.
  unfold normalizeTailMessageEventKind at 1. cbv zeta. destruct (bool_decide _) eqn:E; [|done]. intros [= <-]. propify. split; [|exact E].
  rewrite !elem_of_cons in E. destruct E as [->|[->|[->|[]%elem_of_nil]]]; vm_compute; reflexivity.
Qed.

Lemma failure_kind_again v k : normalizeTailMessageFailureKind v = Some k →
  normalizeTailMessageFailureKind k = Some k ∧ k ∈ ["returned_error"; "panic"; "timeout"]%string.
Proof.
  unfold normalizeTailMessageFailureKind at 1. cbv zeta. destruct (bool_decide _) eqn:E; [|done]. intros [= <-]. propify. split; [|exact E].
  rewrite !elem_of_cons in E. destruct E as [->|[->|[->|[]%elem_of_nil]]]; vm_compute; reflexivity.
Qed.

(** A record that can be written and read: what normalization gives. *)
Record committable (r : fallbackRecord) : Prop := {
  cm_valid : validateCommittedTailMessageFailure r = true;
  cm_size : (String.length (Marshal r) <= fallbackMaxSize)%nat;
  cm_text : Unmarshal (Marshal r) = Some r }.

Definition valid_ids (fb : TailMessageFailureFallback) : Prop :=
  valid_text (TrimSpace (fb_GuildID fb)) ∧ valid_text (TrimSpace (fb_ChannelID fb)) ∧ valid_text (TrimSpace (fb_MessageID fb)).

Lemma normalize_committable fb r : valid_ids fb → normalizeTailMessageFailureFallback fb = inl r → committable r.
Proof.
  intros (Hg & Hc & Hm) H. unfold normalizeTailMessageFailureFallback in H.
  destruct (normalizeTailMessageEventKind (fb_EventKind fb)) as [ek|] eqn:Ee; [|done].
  destruct (normalizeTailMessageFailureKind (fb_FailureKind fb)) as [fk|] eqn:Ef; [|done]. cbv zeta in H.
  destruct (_ || _ || _) eqn:Eids; [done|]. destruct (_ <? _)%nat eqn:Esize; [done|]. injection H as <-. simpl in Eids. propify.
  destruct (event_kind_again _ _ Ee) as [Ee' Hek]. destruct (failure_kind_again _ _ Ef) as [Ef' Hfk]. split.
  - unfold validateCommittedTailMessageFailure. cbn [fr_Version fr_EventKind fr_FailureKind fr_GuildID fr_ChannelID fr_MessageID forallb].
    rewrite Ee', Ef', !String.eqb_refl, !TrimSpace_idem, !String.eqb_refl. unfold nonempty.
    repeat match goal with H : _ ≠ ""%string |- _ => apply String.eqb_neq in H; rewrite H; clear H end. done.
  - exact Esize.
  - apply Unmarshal_Marshal; simpl; try done; apply kinds_valid; rewrite !elem_of_cons in *; tauto.
Qed.

Lemma committable_sentinel r : committable r → is_Some (tailMessageFailureSentinel (fr_FailureKind r)).
Proof.
  intros [Hv _ _]. unfold validateCommittedTailMessageFailure in Hv. propify.
  destruct (normalizeTailMessageFailureKind (fr_FailureKind r)) as [k|] eqn:E; [|done]. propify. subst.
  apply failure_kind_again in E as [_ E]. rewrite !elem_of_cons in E. destruct E as [->|[->|[->|[]%elem_of_nil]]]; by eexists.
Qed.

Lemma read_back r id :
  committable r → validLowerHex id occurrenceBytes = true →
  readCommittedTailMessageFailure (file_name id (Marshal r)) (Marshal r) = Some r ∧
  tailMessageFailureReceiptScope (file_name id (Marshal r)) = Some (receiptPrefix ++ id ++ "-" ++ sha256_hex (Marshal r))%string.
Proof.
  intros [Hv Hs Ht] Hid. unfold readCommittedTailMessageFailure, tailMessageFailureReceiptScope, file_name.
  rewrite name_parts by (done || apply sha256_hex_valid). split; [|done].
  rewrite String.eqb_refl, Ht, Hv, String.eqb_refl. pose proof (Marshal_nonempty r) as Hne.
  destruct (String.length (Marshal r) =? 0)%nat eqn:E; propify; [by destruct (Marshal r)|].
  destruct (fallbackMaxSize <? String.length (Marshal r))%nat eqn:E'; propify; [lia|done].
Qed.

(** The file a persisting call adds, if it adds one. *)
Lemma commit_file_adds k draws sync body files e files' :
  commit_file k draws sync body files = (e, files') →
  files' = files ∧ e ≠ None ∨ ∃ id, Drawn id None ∈ draws ∧ files !! file_name id body = None ∧ files' = <[file_name id body := body]> files.
Proof.
  revert draws. induction k as [|k IH]; intros draws; simpl; [intros [= <- <-]; left; by split|].
  destruct draws as [|[|id rename] draws]; [intros [= <- <-]; left; by split..|].
  destruct (files !! file_name id body) eqn:E.
  - intros H. destruct (IH draws H) as [?|(id' & ? & ? & ?)]; [by left|right]. exists id'. split_and!; [|done|done]. apply elem_of_cons. by right.
  - destruct rename; intros [= <- <-]; [by left|]. right. exists id. split_and!; [|done|done]. apply elem_of_cons. by left.
Qed.

Lemma Persist_adds fb io files e files' :
  PersistTailMessageFailureFallback fb io files = (e, files') →
  files' = files ∧ e ≠ None ∨
  ∃ r id, normalizeTailMessageFailureFallback fb = inl r ∧ Drawn id None ∈ di_draws io ∧ files !! file_name id (Marshal r) = None ∧
    files' = <[file_name id (Marshal r) := Marshal r]> files.
Proof.
  unfold PersistTailMessageFailureFallback. destruct (normalizeTailMessageFailureFallback fb) as [r|]; [|by intros [= <- <-]; left].
  destruct (di_temp io); [by intros [= <- <-]; left|]. intros [?|(id & ? & ? & ?)]%commit_file_adds; [by left|right]. by exists r, id.
Qed.

Lemma hex_not_temp id rest : validLowerHex id occurrenceBytes = true → is_temp (id ++ rest) = false.
Proof.
  unfold validLowerHex, is_temp. intros H. propify. destruct id as [|c id]; [done|]. simpl. destruct (Ascii.eqb_spec "." c) as [<-|]; [|done].
  simpl in *. propify. done.
Qed.
End Laws.

(** ** Histories

    A history lists the occurrences persisted so far: file name and record. A
    run of the program persists failures, may leave a temporary file behind, and
    imports the journal; any of these can fail half-way. Occurrence ids are
    random: an id is not drawn twice. *)

Section History.
Context {jt : JournalText} {jl : JournalTextLaws}.

Abbreviation history := (list (string * fallbackRecord)).

Definition draw_fresh (hist : history) (d : draw) : Prop :=
  match d with
  | Drawn id _ => validLowerHex id occurrenceBytes = true ∧ ∀ body, file_name id body ∉ hist.*1
  | DrawFails => True
  end.

(** The occurrences a persisting call has committed, whatever it returned. *)
Definition persisted (fb : TailMessageFailureFallback) (files files' : directory) : history :=
  match normalizeTailMessageFailureFallback fb with
  | inl r => (λ name, (name, r)) <$> elements (dom files' ∖ dom files)
  | inr _ => []
  end.

Inductive journal_step : history * journal → history * journal → Prop :=
  | step_persist fb io e files hist j :
      valid_ids fb → Forall (draw_fresh hist) (di_draws io) →
      PersistTailMessageFailureFallback fb io (j_files j) = (e, files) →
      journal_step (hist, j) (persisted fb (j_files j) files ++ hist, mkJournal files (j_sync j) (j_ledger j))
  | step_temp name body hist j :
      is_temp name = true → journal_step (hist, j) (hist, mkJournal (<[name := body]> (j_files j)) (j_sync j) (j_ledger j))
  | step_import now commit keeps syncs n e hist j j' :
      ImportTailMessageFailureFallbacks now commit keeps syncs j = (n, e, j') → journal_step (hist, j) (hist, j').

(** Whether the occurrence's receipt is stored. *)
Definition receipted (sync : gmap string sync_row) (name : string) : bool :=
  match tailMessageFailureReceiptScope name with
  | Some scope => match sync !! scope with Some _ => true | None => false end
  | None => false
  end.

(** How often the ledger says a failure occurred. *)
Definition recorded_count (ref : FailureRef) (l : ledger) : Z :=
  match List.find (λ f, bool_decide (Ref f = ref)) (rows l) with Some f => RetryCount f + 1 | None => 0 end.

Definition occurrences (ref : FailureRef) (p : string → bool) (hist : history) : nat :=
  length (List.filter (λ '(name, r), bool_decide (record_ref r = ref) && p name) hist).

(** What the ledger counted before the journal was used. *)
Variable base : FailureRef → Z.

Record journal_ok (hist : history) (j : journal) : Prop := {
  jo_names : NoDup hist.*1;
  jo_reads name r : (name, r) ∈ hist →
    readCommittedTailMessageFailure name (Marshal r) = Some r ∧ is_Some (tailMessageFailureReceiptScope name) ∧ is_temp name = false ∧
    is_Some (tailMessageFailureSentinel (fr_FailureKind r));
  jo_files name body : j_files j !! name = Some body → is_temp name = true ∨ ∃ r, (name, r) ∈ hist ∧ body = Marshal r;
  jo_kept name r : (name, r) ∈ hist → j_files j !! name = Some (Marshal r) ∨ receipted (j_sync j) name = true;
  jo_fresh scope : is_Some (j_sync j !! scope) → HasPrefix scope receiptPrefix = true → ∃ name r, (name, r) ∈ hist ∧ tailMessageFailureReceiptScope name = Some scope;
  jo_refs : NoDup (Ref <$> rows (j_ledger j));
  jo_count ref : recorded_count ref (j_ledger j) = base ref + Z.of_nat (occurrences ref (receipted (j_sync j)) hist) }.

(** *** Names *)

Lemma scope_inj a b scope : tailMessageFailureReceiptScope a = Some scope → tailMessageFailureReceiptScope b = Some scope → a = b.
Proof.
  assert (∀ n, tailMessageFailureReceiptScope n = Some scope → scope = (receiptPrefix ++ TrimSuffix n fallbackExtension)%string ∧ n = (TrimSuffix n fallbackExtension ++ fallbackExtension)%string) as Hn.
  { intros n. unfold tailMessageFailureReceiptScope, tailMessageFailureNameParts. destruct (HasSuffix n fallbackExtension) eqn:Es; [|done]. cbn [negb]. cbv zeta.
    intros H. assert (n = (TrimSuffix n fallbackExtension ++ fallbackExtension)%string) as En.
    { unfold HasSuffix in Es. unfold TrimSuffix. destruct (CutSuffix n fallbackExtension) as [p|] eqn:Ec; [|done]. by apply CutSuffix_Some in Ec. }
    split; [|exact En]. destruct (CutByte _ "-") as [[d rest] []]; [destruct (CutByte rest "-") as [[d' rest'] []]; [done|]|].
    - destruct (validLowerHex d occurrenceBytes); [|done]. destruct (validLowerHex d' 32); [|done]. by injection H as <-.
    - destruct (validLowerHex d 32); [|done]. by injection H as <-. }
  intros Ha Hb. destruct (Hn a Ha) as [Ea ->]. destruct (Hn b Hb) as [Eb ->]. f_equal. rewrite Ea in Eb. by apply append_inj_l in Eb.
Qed.

Lemma receipted_insert sync name scope row m :
  tailMessageFailureReceiptScope name = Some scope →
  receipted (<[scope := row]> sync) m = receipted sync m || bool_decide (m = name).
Proof.
  intros Hs. unfold receipted. destruct (tailMessageFailureReceiptScope m) as [scope'|] eqn:Em.
  - destruct (decide (scope' = scope)) as [->|Hne].
    + rewrite lookup_insert_eq. rewrite (scope_inj m name scope Em Hs), bool_decide_true by done. by rewrite orb_true_r.
    + rewrite lookup_insert_ne by done. rewrite bool_decide_false by congruence. by rewrite orb_false_r.
  - by rewrite bool_decide_false by congruence.
Qed.

(** *** Counting *)

Lemma occurrences_ext ref p q hist : (∀ name r, (name, r) ∈ hist → p name = q name) → occurrences ref p hist = occurrences ref q hist.
Proof.
  unfold occurrences. induction hist as [|[name r] hist IH]; intros H; [done|]. cbn [List.filter].
  rewrite (H name r) by (apply elem_of_cons; by left). assert (∀ name r, (name, r) ∈ hist → p name = q name) as H' by (intros; eapply H; apply elem_of_cons; by right).
  destruct (_ && q name); cbn [length]; by rewrite (IH H').
Qed.

Lemma occurrences_flip ref p hist name r :
  NoDup hist.*1 → (name, r) ∈ hist → p name = false →
  occurrences ref (λ m, p m || bool_decide (m = name)) hist = (occurrences ref p hist + (if bool_decide (record_ref r = ref) then 1 else 0))%nat.
Proof.
  unfold occurrences. induction hist as [|[m s] hist IH]; [by intros _ ?%elem_of_nil|].
  rewrite fmap_cons, NoDup_cons. cbn [fst]. intros [Hn Hd] Hin Hp. cbn [List.filter]. apply elem_of_cons in Hin as [[= <- <-]|Hin].
  - rewrite Hp, (bool_decide_true (name = name)), orb_true_r, andb_true_r, andb_false_r by done. cbn [length].
    assert (length (List.filter (λ '(m, r0), bool_decide (record_ref r0 = ref) && (p m || bool_decide (m = name))) hist) =
            length (List.filter (λ '(m, r0), bool_decide (record_ref r0 = ref) && p m) hist)) as E.
    { apply (occurrences_ext ref (λ m, p m || bool_decide (m = name)) p). intros m s Hms. rewrite bool_decide_false; [by rewrite orb_false_r|].
      intros ->. apply Hn. by apply (list_elem_of_fmap_2 fst _ (name, s)). }
    destruct (bool_decide (record_ref r = ref)); cbn [length]; rewrite E; lia.
  - assert (m ≠ name) as Hne by (intros ->; apply Hn; by apply (list_elem_of_fmap_2 fst _ (name, r))).
    rewrite (bool_decide_false (m = name)) by done. rewrite orb_false_r. specialize (IH Hd Hin Hp).
    destruct (_ && p m); cbn [length]; rewrite IH; lia.
Qed.
(** *** One record *)

Lemma find_map {A} (p : A → bool) (g : A → A) l : (∀ x, p (g x) = p x) → List.find p (map g l) = g <$> List.find p l.
Proof. intros H. induction l as [|x l IH]; simpl; [done|]. rewrite H. by destruct (p x). Qed.

Lemma find_ref ref l : existsb (λ f, bool_decide (Ref f = ref)) l = true ↔ ∃ f, List.find (λ f, bool_decide (Ref f = ref)) l = Some f.
Proof.
  induction l as [|f l IH]; simpl; [split; [done|by intros [? [=]]]|]. destruct (bool_decide (Ref f = ref)); simpl; [|exact IH]. split; eauto.
Qed.

Lemma import_record_spec now r l l' :
  importTailMessageFailureFallbackRecord now r l = inl l' → NoDup (Ref <$> rows l) →
  NoDup (Ref <$> rows l') ∧ ∀ ref, recorded_count ref l' = recorded_count ref l + (if bool_decide (record_ref r = ref) then 1 else 0).
Proof.
  unfold importTailMessageFailureFallbackRecord. destruct (tailMessageFailureSentinel _) as [[class message]|]; [|done]. cbv zeta.
  destruct (existsb _ (rows l)) eqn:Ee; intros [= <-] Hnd.
  - split; [by rewrite fmap_update|]. intros ref. unfold recorded_count, update_where. simpl.
    rewrite find_map by (intros f; by destruct (bool_decide (Ref f = record_ref r))).
    destruct (List.find (λ f, bool_decide (Ref f = ref)) (rows l)) as [f|] eqn:Ef; simpl.
    + apply List.find_some in Ef as [_ Hf]. propify. subst ref. destruct (bool_decide (Ref f = record_ref r)) eqn:E1; propify; simpl.
      * rewrite bool_decide_true by done. lia.
      * rewrite bool_decide_false by congruence. lia.
    + destruct (bool_decide (record_ref r = ref)) eqn:E1; propify; [|done]. subst ref. apply find_ref in Ee as [f Hf]. congruence.
  - simpl. split.
    + rewrite fmap_app. apply NoDup_app. split_and!; [done| |apply NoDup_singleton]. intros x Hx Hin. apply list_elem_of_singleton in Hin as ->. simpl in Hx.
      assert (existsb (λ f, bool_decide (Ref f = record_ref r)) (rows l) = true) by (by apply ref_lookup). congruence.
    + intros ref. unfold recorded_count. simpl. assert (List.find (λ f, bool_decide (Ref f = record_ref r)) (rows l) = None) as Hnone.
      { destruct (List.find _ (rows l)) as [f|] eqn:Ef; [|done]. assert (existsb (λ f, bool_decide (Ref f = record_ref r)) (rows l) = true) by (apply find_ref; eauto). congruence. }
      assert (∀ l0 f, List.find (λ f, bool_decide (Ref f = ref)) (l0 ++ [f]) = match List.find (λ f, bool_decide (Ref f = ref)) l0 with Some g => Some g | None => if bool_decide (Ref f = ref) then Some f else None end) as Happ.
      { intros l0 f. induction l0 as [|g l0 IH]; simpl; [done|]. by destruct (bool_decide (Ref g = ref)). }
      rewrite Happ. simpl. destruct (bool_decide (record_ref r = ref)) eqn:E1; propify; [subst ref; by rewrite Hnone|].
      destruct (List.find (λ f, bool_decide (Ref f = ref)) (rows l)); simpl; lia.
Qed.

(** *** The transaction *)

Definition counted (hist : history) (sync : gmap string sync_row) (l : ledger) : Prop :=
  NoDup (Ref <$> rows l) ∧ ∀ ref, recorded_count ref l = base ref + Z.of_nat (occurrences ref (receipted sync) hist).

Definition fresh_receipts (hist : history) (sync : gmap string sync_row) : Prop :=
  ∀ scope, is_Some (sync !! scope) → HasPrefix scope receiptPrefix = true → ∃ name r, (name, r) ∈ hist ∧ tailMessageFailureReceiptScope name = Some scope.

Lemma import_records_spec now hist committed sync l n sync' l' :
  NoDup hist.*1 → (∀ name r, (name, r) ∈ hist → is_Some (tailMessageFailureReceiptScope name)) →
  (∀ e, e ∈ committed → e ∈ hist) → import_records now committed sync l = inl (n, sync', l') →
  counted hist sync l → fresh_receipts hist sync →
  counted hist sync' l' ∧ fresh_receipts hist sync' ∧ (∀ name, receipted sync name = true → receipted sync' name = true) ∧
  ∀ name r, (name, r) ∈ committed → receipted sync' name = true.
Proof.
  intros Hnd Hsc. revert sync l n sync' l'. induction committed as [|[name r] committed IH]; intros sync l n sync' l' Hsub H Hcount Hfresh; cbn [import_records] in H.
  { injection H as <- <- <-. split_and!; [done|done|done|by intros ? ? ?%elem_of_nil]. }
  assert ((name, r) ∈ hist) as Hin by (apply Hsub, elem_of_cons; by left).
  destruct (Hsc name r Hin) as [scope Es]. rewrite Es in H. change (default ""%string (Some scope)) with scope in H. cbv zeta in H.
  assert (∀ e, e ∈ committed → e ∈ hist) as Hsub' by (intros; apply Hsub, elem_of_cons; by right).
  assert (∀ sync0, receipted sync0 name = true → ∀ sync1 l1 n1 l2, import_records now committed sync0 l1 = inl (n1, sync1, l2) →
    counted hist sync0 l1 → fresh_receipts hist sync0 →
    counted hist sync1 l2 ∧ fresh_receipts hist sync1 ∧ (∀ name, receipted sync0 name = true → receipted sync1 name = true) ∧
    ∀ m s, (m, s) ∈ (name, r) :: committed → receipted sync1 m = true) as Hrest.
  { intros sync0 H0 sync1 l1 n1 l2 H1 Hc0 Hf0. destruct (IH sync0 l1 n1 sync1 l2 Hsub' H1 Hc0 Hf0) as (? & ? & Hmono & Hthere). split_and!; [done..|].
    intros m s [[= -> ->]|Hms]%elem_of_cons; [by apply Hmono|by apply (Hthere m s)]. }
  destruct (sync !! scope) as [row|] eqn:Erow.
  { apply (Hrest sync ltac:(unfold receipted; by rewrite Es, Erow) sync' l n l'); done. }
  destruct (importTailMessageFailureFallbackRecord now r l) as [l1|] eqn:Er; [|done].
  destruct (import_records now committed _ l1) as [[[n2 sync2] l2]|] eqn:Erest; [|done]. injection H as <- <- <-.
  assert (receipted sync name = false) as Hnew by (unfold receipted; by rewrite Es, Erow).
  destruct Hcount as [Hl Hcount].
  destruct (import_record_spec _ _ _ _ Er Hl) as [Hl1 Hc1].
  destruct (Hrest (<[scope := SyncRow (Some "") (Some now)]> sync)%string) with sync2 l1 n2 l2 as (? & ? & Hmono & ?).
  - rewrite (receipted_insert _ _ _ _ _ Es). by rewrite bool_decide_true, orb_true_r.
  - exact Erest.
  - split; [done|]. intros ref. rewrite Hc1, Hcount.
    rewrite (occurrences_ext ref (receipted (<[scope:=SyncRow (Some "") (Some now)]> sync)) (λ m, receipted sync m || bool_decide (m = name)))%string
      by (intros m s _; apply (receipted_insert _ _ _ _ _ Es)).
    rewrite (occurrences_flip ref (receipted sync) hist name r Hnd Hin Hnew). destruct (bool_decide (record_ref r = ref)); lia.
  - intros scope' Hsome Hp. destruct (decide (scope' = scope)) as [->|Hne]; [by exists name, r|].
    rewrite lookup_insert_ne in Hsome by done. by apply Hfresh.
  - split_and!; [done|done| |done]. intros m Hm. apply Hmono. rewrite (receipted_insert _ _ _ _ _ Es), Hm. done.
Qed.
Lemma import_all_spec now commit hist committed sync l n e sync' l' :
  NoDup hist.*1 → (∀ name r, (name, r) ∈ hist → is_Some (tailMessageFailureReceiptScope name)) →
  (∀ e, e ∈ committed → e ∈ hist) →
  importTailMessageFailureFallbackRecords now commit committed sync l = (n, e, sync', l') →
  counted hist sync l → fresh_receipts hist sync →
  counted hist sync' l' ∧ fresh_receipts hist sync' ∧ (∀ name, receipted sync name = true → receipted sync' name = true) ∧
  (e = None → ∀ name r, (name, r) ∈ committed → receipted sync' name = true).
Proof.
  intros Hnd Hsc Hsub. unfold importTailMessageFailureFallbackRecords. destruct (existsb _ committed); [by intros [= <- <- <- <-]|].
  destruct (existsb _ committed); [by intros [= <- <- <- <-]|].
  destruct (import_records now committed sync l) as [[[k sync1] l1]|] eqn:Ei; [|by intros [= <- <- <- <-]].
  intros H Hc Hf. destruct (import_records_spec now hist committed _ _ _ _ _ Hnd Hsc Hsub Ei Hc Hf) as (? & ? & ? & ?).
  destruct commit; injection H as <- <- <- <-; by split_and!.
Qed.

(** *** Every step *)

Lemma remove_files_Some keeps names files n b :
  remove_files keeps names files !! n = Some b ↔ files !! n = Some b ∧ (n ∉ names ∨ keeps n = true).
Proof. unfold remove_files. by rewrite map_lookup_filter_Some. Qed.

Lemma elem_of_until keeps n names : n ∈ until_kept keeps names → n ∈ names.
Proof.
  induction names as [|m names IH]; simpl; [done|]. destruct (keeps m); [by intros ?%elem_of_nil|]. rewrite !elem_of_cons. intros [->|?]; auto.
Qed.

Lemma elem_of_temps keeps files n : n ∈ until_kept keeps (merge_sort string_le (List.filter is_temp (elements (dom (files : directory))))) → is_temp n = true.
Proof. intros Hn%elem_of_until. rewrite merge_sort_Permutation in Hn. by apply elem_of_lfilter in Hn as [_ ?]. Qed.

Lemma elem_of_committed_names files n : n ∈ committed_names files ↔ is_Some (files !! n) ∧ is_temp n = false.
Proof.
  unfold committed_names. rewrite merge_sort_Permutation, elem_of_lfilter, elem_of_elements, elem_of_dom, negb_true_iff. done.
Qed.

Lemma read_all_spec hist j committed :
  journal_ok hist j → read_all (j_files j) = Some committed →
  fst <$> committed = committed_names (j_files j) ∧ ∀ n r, (n, r) ∈ committed ↔ (n, r) ∈ hist ∧ is_Some (j_files j !! n).
Proof.
  intros Hok Hr%mapM_Some.
  assert (fst <$> committed = committed_names (j_files j)) as Hfst.
  { clear -Hr. induction Hr as [|n [m r] l l' Hn _ IH]; [done|]. rewrite fmap_cons. f_equal; [|exact IH].
    destruct (readCommittedTailMessageFailure n _); [by injection Hn as <- _|done]. }
  assert (∀ n r, (n, r) ∈ committed → (n, r) ∈ hist ∧ is_Some (j_files j !! n)) as Hin.
  { intros n r Hnr. assert (n ∈ committed_names (j_files j)) as Hn by (rewrite <- Hfst; by apply (list_elem_of_fmap_2 fst _ (n, r))).
    apply elem_of_committed_names in Hn as [[body Hb] Ht]. split; [|eauto].
    destruct (jo_files _ _ Hok n body Hb) as [?|(r' & Hr' & ->)]; [congruence|]. destruct (jo_reads _ _ Hok n r' Hr') as (Hread & _).
    apply list_elem_of_lookup_1 in Hnr as [i Hi]. destruct (Forall2_lookup_r _ _ _ _ _ Hr Hi) as (m & _ & Hm).
    destruct (readCommittedTailMessageFailure m _) as [r0|] eqn:E0; [|done]. injection Hm as -> ->. rewrite Hb in E0. simpl in E0. congruence. }
  split; [exact Hfst|]. intros n r. split; [apply Hin|]. intros [Hnr Hf].
  destruct (jo_reads _ _ Hok n r Hnr) as (_ & _ & Ht & _).
  assert (n ∈ fst <$> committed) as Hn by (rewrite Hfst; by apply elem_of_committed_names).
  apply list_elem_of_fmap in Hn as ([m r'] & -> & Hm). destruct (Hin m r' Hm) as [Hmr _].
  assert ((m, r') = (m, r)) as [= ->]; [|done]. apply (NoDup_key_inj fst hist); [apply Hok|done..].
Qed.

Lemma shrink_ok hist j files sync l :
  journal_ok hist j → (∀ n b, files !! n = Some b → j_files j !! n = Some b) →
  (∀ n r, (n, r) ∈ hist → files !! n = Some (Marshal r) ∨ receipted sync n = true) →
  counted hist sync l → fresh_receipts hist sync → journal_ok hist (mkJournal files sync l).
Proof.
  intros Hok Hsub Hkept [Hl Hc] Hf. split; simpl; try apply Hok; try done. intros n b Hb. apply (jo_files _ _ Hok). by apply Hsub.
Qed.

Lemma import_ok now commit keeps syncs hist j n e j' :
  journal_ok hist j → ImportTailMessageFailureFallbacks now commit keeps syncs j = (n, e, j') →
  journal_ok hist j' ∧
  (e = None → ∀ name r, (name, r) ∈ hist → receipted (j_sync j') name = true ∧ (keeps name = true ∨ j_files j' !! name = None)).
Proof.
  intros Hok. unfold ImportTailMessageFailureFallbacks. destruct (read_all (j_files j)) as [committed|] eqn:Er; [|by intros [= <- <- <-]]. cbv zeta.
  destruct (read_all_spec _ _ _ Hok Er) as [Hfst Hcommitted].
  set (temps := merge_sort string_le _). set (files := remove_files keeps (until_kept keeps temps) (j_files j)).
  assert (∀ n b, files !! n = Some b → j_files j !! n = Some b) as Hsub by (intros m b Hb; by apply remove_files_Some in Hb as [? _]).
  assert (∀ n r, (n, r) ∈ hist → j_files j !! n = Some (Marshal r) → files !! n = Some (Marshal r)) as Hkeep.
  { intros m r Hmr Hm. apply remove_files_Some. split; [done|left]. intros Ht%elem_of_temps. destruct (jo_reads _ _ Hok m r Hmr) as (_ & _ & ? & _). congruence. }
  assert (journal_ok hist (mkJournal files (j_sync j) (j_ledger j))) as Hfiles.
  { apply (shrink_ok hist j); [done|done| |split; apply Hok|exact (jo_fresh _ _ Hok)]. intros m r Hmr. destruct (jo_kept _ _ Hok m r Hmr) as [?|?]; [left; by apply Hkeep|by right]. }
  unfold cleanupTailMessageFailureTemps. fold files. destruct (if existsb keeps temps then _ else _); [by intros [= <- <- <-]|].
  destruct committed as [|entry rest] eqn:Ecm.
  { intros [= <- <- <-]. split; [done|]. intros _ m r Hmr. assert (j_files j !! m = None) as Hnone.
    { destruct (j_files j !! m) eqn:E; [|done]. assert ((m, r) ∈ ([] : history)) as []%elem_of_nil by (apply Hcommitted; split; [done|eauto]). }
    destruct (jo_kept _ _ Hok m r Hmr) as [?|?]; [congruence|]. split; [done|right]. simpl. destruct (files !! m) eqn:E; [|done]. apply Hsub in E. congruence. }
  rewrite <- Ecm in *. clear Ecm entry rest.
  destruct (importTailMessageFailureFallbackRecords now commit committed (j_sync j) (j_ledger j)) as [[[k err] sync] l] eqn:Ei.
  destruct (import_all_spec now commit hist committed (j_sync j) (j_ledger j) k err sync l) as (Hcount & Hfresh & Hmono & Hdone);
    [apply Hok|intros m r Hmr; apply (jo_reads _ _ Hok m r Hmr)|by intros [m r] [? _]%Hcommitted|exact Ei|split; apply Hok|exact (jo_fresh _ _ Hok)|].
  assert (journal_ok hist (mkJournal files sync l)) as Himported.
  { apply (shrink_ok hist j); [done|done| |done|done]. intros m r Hmr. destruct (jo_kept _ _ Hok m r Hmr) as [?|?]; [left; by apply Hkeep|right; by apply Hmono]. }
  destruct err; intros [= <- <- <-]; [done|]. specialize (Hdone eq_refl). split.
  - apply (shrink_ok hist j); [done| | |done|done].
    + intros m b Hb. apply remove_files_Some in Hb as [Hb _]. by apply Hsub.
    + intros m r Hmr. destruct (jo_kept _ _ Hok m r Hmr) as [Hm|?]; [|right; by apply Hmono].
      right. apply (Hdone m r). apply Hcommitted. split; [done|eauto].
  - intros _ m r Hmr. simpl. destruct (decide (is_Some (j_files j !! m))) as [Hm|Hm].
    + assert ((m, r) ∈ committed) as Hin by (by apply Hcommitted). split; [by apply (Hdone m r)|].
      destruct (keeps m) eqn:Ek; [by left|right]. destruct (remove_files _ _ _ !! m) as [b|] eqn:Eb; [|done].
      apply remove_files_Some in Eb as [_ [Hn|?]]; [|congruence]. destruct Hn. by apply (list_elem_of_fmap_2 fst _ (m, r)).
    + apply eq_None_not_Some in Hm. destruct (jo_kept _ _ Hok m r Hmr) as [?|?]; [congruence|]. split; [by apply Hmono|right].
      destruct (remove_files _ _ _ !! m) as [b|] eqn:Eb; [|done]. apply remove_files_Some in Eb as [Eb _]. apply Hsub in Eb. congruence.
Qed.

Lemma persist_ok fb io e files hist j :
  valid_ids fb → Forall (draw_fresh hist) (di_draws io) →
  PersistTailMessageFailureFallback fb io (j_files j) = (e, files) →
  journal_ok hist j → journal_ok (persisted fb (j_files j) files ++ hist) (mkJournal files (j_sync j) (j_ledger j)).
Proof.
  intros Hids Hdraws H Hok. apply Persist_adds in H as [[-> _]|(r & id & Hr & Hid & Hnone & ->)].
  { unfold persisted. rewrite difference_diag_L, elements_empty. destruct (normalizeTailMessageFailureFallback fb); by destruct j. }
  rewrite Forall_forall in Hdraws. destruct (Hdraws _ Hid) as [Hhex Hnew]. specialize (Hnew (Marshal r)).
  pose proof (normalize_committable fb r Hids Hr) as Hc. destruct (read_back r id Hc Hhex) as [Hread Hscope].
  set (name := file_name id (Marshal r)) in *.
  assert (persisted fb (j_files j) (<[name := Marshal r]> (j_files j)) = [(name, r)]) as ->.
  { unfold persisted. rewrite Hr, dom_insert_L. apply not_elem_of_dom in Hnone.
    replace (({[name]} ∪ dom (j_files j)) ∖ dom (j_files j)) with ({[name]} : gset string) by set_solver. by rewrite elements_singleton. }
  cbn [app]. split; cbn [j_files j_sync j_ledger].
  - rewrite fmap_cons. apply NoDup_cons. split; [done|apply Hok].
  - intros m s [[= -> ->]|Hm]%elem_of_cons; [|by apply (jo_reads _ _ Hok)]. split_and!; [done|eauto|by apply hex_not_temp|by apply committable_sentinel].
  - intros m body [[<- <-]|[_ Hm]]%lookup_insert_Some; [right; exists r; split; [apply elem_of_cons; by left|done]|].
    destruct (jo_files _ _ Hok m body Hm) as [?|(s & ? & ->)]; [by left|right]. exists s. split; [apply elem_of_cons; by right|done].
  - intros m s [[= -> ->]|Hm]%elem_of_cons; [left; by rewrite lookup_insert_eq|].
    rewrite lookup_insert_ne by (intros ->; apply Hnew; by apply (list_elem_of_fmap_2 fst _ (m, s))). by apply (jo_kept _ _ Hok).
  - intros scope Hs Hp. destruct (jo_fresh _ _ Hok scope Hs Hp) as (m & s & ? & ?). exists m, s. split; [apply elem_of_cons; by right|done].
  - apply Hok.
  - intros ref. rewrite (jo_count _ _ Hok). f_equal. f_equal. unfold occurrences. cbn [List.filter].
    assert (receipted (j_sync j) name = false) as ->; [|by rewrite andb_false_r].
    unfold receipted. rewrite Hscope. destruct (j_sync j !! _) as [row|] eqn:Erow; [|done].
    destruct (jo_fresh _ _ Hok _ (mk_is_Some _ _ Erow)) as (m & s & Hm & Hms); [apply HasPrefix_app|].
    destruct Hnew. rewrite <- (scope_inj m name _ Hms Hscope). by apply (list_elem_of_fmap_2 fst _ (m, s)).
Qed.

Lemma step_ok s s' : journal_step s s' → journal_ok s.1 s.2 → journal_ok s'.1 s'.2.
Proof.
  destruct 1 as [| |now commit keeps syncs n e hist j j' H]; simpl; intros Hok; [by eapply persist_ok| |by apply (import_ok _ _ _ _ _ _ _ _ _ Hok H)].
  destruct Hok. split; simpl; try done.
  - intros m b [[<- _]|[_ Hm]]%lookup_insert_Some; [by left|eauto].
  - intros m r Hmr. rewrite lookup_insert_ne; [eauto|]. destruct (jo_reads0 m r Hmr) as (_ & _ & Ht & _). congruence.
Qed.

Lemma steps_ok s s' : rtc journal_step s s' → journal_ok s.1 s.2 → journal_ok s'.1 s'.2.
Proof. induction 1; eauto using step_ok. Qed.

(** ** A healthy import *)

Lemma read_valid name body r : readCommittedTailMessageFailure name body = Some r → validateCommittedTailMessageFailure r = true.
Proof.
  unfold readCommittedTailMessageFailure. destruct (tailMessageFailureNameParts name) as [[]|]; [|done].
  destruct (_ || _ || _); [done|]. destruct (Unmarshal body) as [r'|]; [|done]. destruct (_ && _) eqn:E; [|done]. intros [= <-]. by propify.
Qed.

Lemma read_all_total hist j : journal_ok hist j → ∃ committed, read_all (j_files j) = Some committed.
Proof.
  intros Hok. apply mapM_is_Some. apply Forall_forall. intros n [[body Hb] Ht]%elem_of_committed_names.
  destruct (jo_files _ _ Hok n body Hb) as [?|(r & Hr & ->)]; [congruence|]. 
  destruct (jo_reads _ _ Hok n r Hr) as [Hread _]. unfold compose. rewrite Hb. unfold default, id. rewrite Hread. eauto.
Qed.

Lemma import_records_total now committed sync l :
  (∀ name r, (name, r) ∈ committed → is_Some (tailMessageFailureSentinel (fr_FailureKind r))) → ∃ res, import_records now committed sync l = inl res.
Proof.
  revert sync l. induction committed as [|[name r] committed IH]; intros sync l H; cbn [import_records]; [eauto|].
  assert (∀ m s, (m, s) ∈ committed → is_Some (tailMessageFailureSentinel (fr_FailureKind s))) as H' by (intros m s ?; apply (H m), elem_of_cons; by right).
  cbv zeta. destruct (sync !! _); [by apply IH|]. unfold importTailMessageFailureFallbackRecord.
  destruct (H name r ltac:(apply elem_of_cons; by left)) as [[class message] ->]. cbv zeta.
  destruct (existsb _ (rows l)); match goal with |- context [import_records now committed ?s0 ?l0] => destruct (IH s0 l0 H') as [[[] ] ->] end; eauto.
Qed.

Lemma existsb_none {A} (p : A → bool) l : (∀ x, x ∈ l → p x = false) → existsb p l = false.
Proof. intros H. apply not_true_iff_false. intros (x & Hx%list_elem_of_In & Hp)%existsb_exists. rewrite H in Hp; done. Qed.

Lemma healthy_import now hist j : journal_ok hist j → ∃ n j', ImportTailMessageFailureFallbacks now Commits (λ _, false) true j = (n, None, j').
Proof.
  intros Hok. unfold ImportTailMessageFailureFallbacks. destruct (read_all_total hist j Hok) as [committed Hr]. rewrite Hr. cbv zeta.
  unfold cleanupTailMessageFailureTemps. rewrite existsb_none by done. cbn [negb andb]. destruct committed as [|x committed'] eqn:Ec; [eauto|]. rewrite <- Ec in *.
  destruct (read_all_spec _ _ _ Hok Hr) as [_ Hin]. unfold importTailMessageFailureFallbackRecords.
  rewrite existsb_none; [|intros [n r] [Hnr _]%Hin; destruct (jo_reads _ _ Hok n r Hnr) as (E & _); by rewrite (read_valid _ _ _ E)].
  rewrite existsb_none; [|intros [n r] [Hnr _]%Hin; destruct (jo_reads _ _ Hok n r Hnr) as (_ & [sc E] & _); by rewrite E].
  destruct (import_records_total now committed (j_sync j) (j_ledger j)) as [[[n sync] l] ->].
  { intros n r [Hnr _]%Hin. by destruct (jo_reads _ _ Hok n r Hnr) as (_ & _ & _ & ?). }
  rewrite existsb_none by done. eauto.
Qed.
End History.

(** The state in which the journal is first used. *)
Record journal_start (j : journal) : Prop := {
  start_files name body : j_files j !! name = Some body → is_temp name = true;
  start_sync scope : is_Some (j_sync j !! scope) → HasPrefix scope receiptPrefix = false;
  start_ledger : NoDup (Ref <$> rows (j_ledger j)) }.

Lemma start_ok `{JournalText} j : journal_start j → journal_ok (λ ref, recorded_count ref (j_ledger j)) [] j.
Proof.
  intros [Hf Hs Hl]. split; try done.
  - apply NoDup_nil_2.
  - intros ? ? ?%elem_of_nil. done.
  - intros name body Hb. left. by apply (Hf name body).
  - intros ? ? ?%elem_of_nil. done.
  - intros scope Hsc Hp. rewrite (Hs scope Hsc) in Hp. done.
  - intros ref. cbn. lia.
Qed.

(** ** A codec with these laws *)

(** Records as texts of binary digits. *)
Module BitText.
Fixpoint digits (p : positive) : string :=
  match p with xH => "" | xO p => String "0" (digits p) | xI p => String "1" (digits p) end.

Fixpoint undigits (s : string) : positive :=
  match s with EmptyString => xH | String c s => if Ascii.eqb c "1" then xI (undigits s) else xO (undigits s) end.

Lemma undigits_digits p : undigits (digits p) = p.
Proof. induction p; simpl; congruence. Qed.

Definition fields (r : fallbackRecord) : Z * list string :=
  (fr_Version r, [fr_EventKind r; fr_FailureKind r; fr_GuildID r; fr_ChannelID r; fr_MessageID r]).

Definition of_fields (f : Z * list string) : option fallbackRecord :=
  match f with (v, [a; b; c; d; e]) => Some (mkFallbackRecord v a b c d e) | _ => None end.

#[export] Instance bit_text : JournalText := {
  Marshal r := String "{" (digits (encode (fields r)));
  Unmarshal s := match s with EmptyString => None | String _ s => decode (undigits s) ≫= of_fields end;
  sha256_hex s := "0123456789abcdef0123456789abcdef0123456789abcdef0123456789abcdef" }.

#[export, refine] Instance bit_text_laws : JournalTextLaws := { valid_text _ := True }.
Proof.
  - intros r _ _ _ _ _. unfold Unmarshal, Marshal, bit_text. rewrite undigits_digits, decode_encode. by destruct r.
  - done.
  - done.
  - intros s. by vm_compute.
Defined.
End BitText.
#[local] Existing Instances BitText.bit_text BitText.bit_text_laws.

(** ** What the journal promises *)

(** when [PersistTailMessageFailureFallback] succeeds, the directory has
    one file more, under a name that was free, and [readCommittedTailMessageFailure]
    reads the normalized record back from it. *)
Theorem persisted_failure_reads_back `{jl : JournalTextLaws} fb io files files' :
  valid_ids fb → Forall (λ d, match d with Drawn id _ => validLowerHex id occurrenceBytes = true | DrawFails => True end) (di_draws io) →
  PersistTailMessageFailureFallback fb io files = (None, files') →
  ∃ r name, normalizeTailMessageFailureFallback fb = inl r ∧ files !! name = None ∧ files' = <[name := Marshal r]> files ∧
    readCommittedTailMessageFailure name (Marshal r) = Some r ∧ is_temp name = false.
Proof.
  intros Hids Hdraws [[_ ?]|(r & id & Hr & Hid & Hnone & ->)]%Persist_adds; [done|].
  exists r, (file_name id (Marshal r)). rewrite Forall_forall in Hdraws. pose proof (Hdraws _ Hid) as Hhex. simpl in Hhex.
  destruct (read_back r id (normalize_committable fb r Hids Hr) Hhex). split_and!; try done. by apply hex_not_temp.
Qed.

Definition sample_fallback : TailMessageFailureFallback := mkFallback " MESSAGE_Create" "Returned-Error" "10 " "20" "30".
Definition sample_draws : dir_io := mkDirIO None [Drawn "00112233445566778899aabbccddeeff" None] None.

Lemma persisted_failure_reads_back_witness :
  ∃ r name, normalizeTailMessageFailureFallback sample_fallback = inl r ∧ (∅ : directory) !! name = None ∧
    (PersistTailMessageFailureFallback sample_fallback sample_draws ∅).2 = <[name := Marshal r]> ∅ ∧
    readCommittedTailMessageFailure name (Marshal r) = Some r ∧ is_temp name = false.
Proof.
  apply (persisted_failure_reads_back sample_fallback sample_draws ∅); [by split_and!| |vm_compute; reflexivity].
  apply Forall_singleton. vm_compute. reflexivity.
Defined.

(** C21: over any run that persists failures and imports the journal, with
    failures and crashes at any point, each persisted occurrence still has its
    file or has its receipt, and the ledger has counted it once exactly when it
    has its receipt. An import that returns no error has counted every
    occurrence once; one with a working directory and database returns no error. *)
Theorem fallback_imported_exactly_once `{jl : JournalTextLaws} j0 hist j :
  journal_start j0 → rtc journal_step ([], j0) (hist, j) →
  (∀ name r, (name, r) ∈ hist → j_files j !! name = Some (Marshal r) ∨ receipted (j_sync j) name = true) ∧
  (∀ ref, recorded_count ref (j_ledger j) = recorded_count ref (j_ledger j0) + Z.of_nat (occurrences ref (receipted (j_sync j)) hist)) ∧
  (∀ now commit keeps syncs n j', ImportTailMessageFailureFallbacks now commit keeps syncs j = (n, None, j') →
     ∀ ref, recorded_count ref (j_ledger j') = recorded_count ref (j_ledger j0) + Z.of_nat (occurrences ref (λ _, true) hist)) ∧
  (∀ now, ∃ n j', ImportTailMessageFailureFallbacks now Commits (λ _, false) true j = (n, None, j')).
Proof.
  intros Hstart Hsteps. set (base := λ ref, recorded_count ref (j_ledger j0)).
  pose proof (steps_ok base _ _ Hsteps (start_ok j0 Hstart)) as Hok. cbn [fst snd] in Hok.
  split_and!; [apply (jo_kept _ _ _ Hok)|apply (jo_count _ _ _ Hok)| |intros now; by apply (healthy_import base now hist)].
  intros now commit keeps syncs n j' Himport. destruct (import_ok base now commit keeps syncs hist j n None j' Hok Himport) as [Hok' Hall]. intros ref.
  rewrite (jo_count _ _ _ Hok'). unfold base. f_equal. f_equal. apply occurrences_ext. intros name r Hnr. by apply (Hall eq_refl name r).
Qed.

Definition sample_journal : journal := mkJournal ∅ ∅ (mkLedger [] 0).
Definition persisted_journal : journal := mkJournal (PersistTailMessageFailureFallback sample_fallback sample_draws ∅).2 ∅ (mkLedger [] 0).

Lemma fallback_imported_exactly_once_witness :
  ∃ n j', ImportTailMessageFailureFallbacks 5 Commits (λ _, false) true persisted_journal = (n, None, j') ∧
    recorded_count (mkRef "tail_message" "discord" "10" "20" "30" "message_event" "create") (j_ledger j') = 1.
Proof.
  destruct (fallback_imported_exactly_once sample_journal
    (persisted sample_fallback ∅ (PersistTailMessageFailureFallback sample_fallback sample_draws ∅).2 ++ []) persisted_journal) as (_ & _ & Hcount & Himport).
  - split; simpl; [by intros ? ? ?|by intros ? [? ?]|apply NoDup_nil_2].
  - apply rtc_once. eapply (step_persist sample_fallback sample_draws); [by split_and!| |reflexivity].
    apply Forall_singleton. split; [vm_compute; reflexivity|intros ?; apply not_elem_of_nil].
  - destruct (Himport 5) as (n & j' & E). exists n, j'. split; [exact E|]. rewrite (Hcount _ _ _ _ _ _ E). vm_compute. reflexivity.
Defined.
