(* ===== verification/EntityRows.v ===== *)
(** * Guild, channel and member rows

    The entity upserts and tombstones of internal/store/write.go and the member
    refresh of member_refresh.go, on the canonical payloads of Canonical and the
    receipts of Receipts. Every operation is a transaction: the instant it reads
    is its argument, and an operation that panics (comparing values of a
    non-comparable type in canonical.go, [None]) changes nothing. SQL nulls of
    text columns are [""], as the queries' [coalesce] reads them. *)
From S2P Require Import Prelude Errors SyncState ChannelScope GoTime GoText Rows Receipts Attachments Mentions MessageWrite Canonical.
Local Open Scope Z_scope.

(** ** The tables *)

Record guild_row := mkGuildRow {
  gu_Name : string; gu_Icon : string; gu_Raw : string; gu_Updated : string;
  gu_Deleted : string; gu_Source : string; gu_Reason : string }.

(** A row of [channels]: its scope columns (ChannelScope) and the others. *)
Record channel_entity := mkChannelEntity {
  ce_scope : channel_row; ce_Name : string; ce_Topic : string; ce_Position : Z;
  ce_IsNSFW : bool; ce_IsArchived : bool; ce_IsLocked : bool; ce_IsPrivateThread : bool;
  ce_ThreadParentID : string; ce_ArchiveTimestamp : string; ce_Raw : string }.

Record member_row := mkMemberRow {
  mr_Username : string; mr_GlobalName : string; mr_DisplayName : string; mr_Nick : string;
  mr_Discriminator : string; mr_Avatar : string; mr_Bot : bool; mr_JoinedAt : string;
  mr_RoleIDs : string; mr_Raw : string; mr_Updated : string;
  mr_Deleted : string; mr_Source : string; mr_Reason : string }.

(** A row of [member_fts]. *)
Record member_fts := mkMemberFts { mf_guild : string; mf_user : string; mf_username : string; mf_display : string; mf_profile : string }.

Abbreviation member_id := (string * string)%type.

Record entities := mkEntities {
  en_guilds : gmap string guild_row;
  en_channels : gmap string channel_entity;
  en_members : gmap member_id member_row;
  en_member_fts : gmap Z member_fts;
  en_receipts : receipts }.

Definition receipts_of (f : receipts → receipts) (s : entities) : entities :=
  mkEntities (en_guilds s) (en_channels s) (en_members s) (en_member_fts s) (f (en_receipts s)).
Definition put_guild (id : string) (r : guild_row) (s : entities) : entities :=
  mkEntities (<[id := r]> (en_guilds s)) (en_channels s) (en_members s) (en_member_fts s) (en_receipts s).
Definition with_channels (c : gmap string channel_entity) (s : entities) : entities :=
  mkEntities (en_guilds s) c (en_members s) (en_member_fts s) (en_receipts s).
Definition with_members (m : gmap member_id member_row) (f : gmap Z member_fts) (s : entities) : entities :=
  mkEntities (en_guilds s) (en_channels s) m f (en_receipts s).

(** The scope columns of the channel table. *)
Definition scope_table (c : gmap string channel_entity) : channels := ce_scope <$> c.

Definition set_scope (r : channel_row) (c : channel_entity) : channel_entity :=
  mkChannelEntity r (ce_Name c) (ce_Topic c) (ce_Position c) (ce_IsNSFW c) (ce_IsArchived c) (ce_IsLocked c) (ce_IsPrivateThread c)
    (ce_ThreadParentID c) (ce_ArchiveTimestamp c) (ce_Raw c).

Definition invalidate_scopes (now : Z) (id : string) (c : gmap string channel_entity) : gmap string channel_entity :=
  let t := invalidateChannelScope now id (scope_table c) in
  map_imap (λ x e, Some (set_scope (default (ce_scope e) (t !! x)) e)) c.

(** The transaction of one call: a panic rolls it back. *)
Definition panicked : err := EText "runtime error: comparing uncomparable type".
Definition transact {S} (f : S → option S) (s : S) : option err * S :=
  match f s with
  | Some s' => (None, s')
  | None => (Some panicked, s)
  end.

Section Entities.
Context {jt : JSONText} {tp : TimeParse}.
(** [memberProfileSearchText]: the profile text of a member's payload. *)
Context (profileText : string → string).

(** A write or check recorded after [started] is newer. *)
Definition newer_than (started : option Z) (table updated : string) (key : row_key) (s : entities) : bool :=
  match started with
  | Some t => t <? lastObserved table updated key (en_receipts s)
  | None => false
  end.

(** ** Guilds *)

Definition guild_of (now : Z) (g : GuildRecord) (merged : string) : guild_row :=
  mkGuildRow (g_Name g) (g_Icon g) merged (timeLayout now) "" "" "".

Definition guild_changed (g : GuildRecord) (merged : string) (stored : option guild_row) : option bool :=
  match stored with
  | None => Some true
  | Some r =>
      if negb (gu_Deleted r =? "")%string || negb (gu_Name r =? g_Name g)%string || negb (gu_Icon r =? g_Icon g)%string then Some true
      else negb <$> sameCanonicalRaw entityGuild (gu_Raw r) merged ""
  end.

Definition upsertGuildTx (now : Z) (g : GuildRecord) (started : option Z) (s : entities) : option entities :=
  let key := [g_ID g] in
  let s := receipts_of (recordEvidence now "guilds" (EvGuild g) key) s in
  let stored := en_guilds s !! g_ID g in
  if match stored with Some r => newer_than started "guilds" (gu_Updated r) key s | None => false end then Some s
  else
    '(merged, metrics) ← canonicalizeRaw entityGuild (g_RawJSON g) (match stored with Some r => gu_Raw r | None => "" end) "";
    changed ← guild_changed g merged stored;
    let s := if (changed : bool) then
               put_guild (g_ID g) (guild_of now g merged)
                 (match stored with Some r => receipts_of (retainLegacyRaw "guilds" (gu_Raw r) (gu_Updated r) key) s | None => s end)
             else s in
    Some (receipts_of (λ rc, recordObserved now "guilds" changed key (recordMetrics now "guild" (g_ID g) metrics rc)) s).

Definition UpsertObservedGuild (now : Z) (g : GuildRecord) (started : option Z) (s : entities) : option err * entities :=
  transact (upsertGuildTx now g started) s.

Definition blank (v : string) : bool := (TrimSpace v =? "")%string.

(** [MarkGuildDeleted] of the queries. *)
Definition tombstone_guild (now : Z) (guildID source reason : string) (s : entities) : entities :=
  put_guild guildID
    (match en_guilds s !! guildID with
     | Some r => mkGuildRow (gu_Name r) (gu_Icon r) (gu_Raw r) (timeLayout now) (timeLayout now) source reason
     | None => mkGuildRow guildID "" "{}" (timeLayout now) (timeLayout now) source reason
     end) s.

Definition MarkGuildDeleted (now : Z) (guildID source reason : string) (s : entities) : option err * entities :=
  if blank guildID || blank source || blank reason then (Some (EText "guild tombstone requires guild id, source, and reason"), s)
  else (None, tombstone_guild now guildID source reason s).

Definition MarkObservedGuildDeleted (now : Z) (guildID source reason : string) (started : option Z) (s : entities) : option err * entities :=
  if blank guildID || blank source || blank reason then (Some (EText "guild tombstone requires guild id, source, and reason"), s)
  else match en_guilds s !! guildID with
       | None => (None, s)
       | Some r => if newer_than started "guilds" (gu_Updated r) [guildID] s then (None, s)
                   else (None, tombstone_guild now guildID source reason s)
       end.

(** ** Channels *)

Definition set_channel_raw (parent kind archive raw : string) (c : ChannelRecord) : ChannelRecord :=
  mkChannelRecord (cr_ID c) (cr_GuildID c) parent kind (cr_Name c) (cr_Topic c) (cr_Position c) (cr_IsNSFW c) (cr_IsArchived c)
    (cr_IsLocked c) (cr_IsPrivateThread c) (cr_ThreadParentID c) archive raw.

Definition stored_parent (e : channel_entity) : string := default ""%string (c_parent (ce_scope e)).

(** What a cache may say of a stored channel: nothing of its parent or of its
    known kind. *)
Definition cached_channel (c : ChannelRecord) (e : channel_entity) : ChannelRecord :=
  let kind := c_kind (ce_scope e) in
  set_channel_raw (if (stored_parent e =? "")%string then cr_ParentID c else stored_parent e)
    (if (kind =? "")%string || (kind =? "unknown")%string then cr_Kind c else kind)
    (cr_ArchiveTimestamp c) (cr_RawJSON c) c.

Definition channel_changed (c : ChannelRecord) (stored : option channel_entity) : option bool :=
  match stored with
  | None => Some true
  | Some e =>
      if match c_deleted (ce_scope e) with Some _ => true | None => false end
         || negb (c_guild (ce_scope e) =? cr_GuildID c)%string || negb (stored_parent e =? cr_ParentID c)%string
         || negb (c_kind (ce_scope e) =? cr_Kind c)%string || negb (ce_Name e =? cr_Name c)%string || negb (ce_Topic e =? cr_Topic c)%string
         || negb (ce_Position e =? cr_Position c) || negb (Bool.eqb (ce_IsNSFW e) (cr_IsNSFW c)) || negb (Bool.eqb (ce_IsArchived e) (cr_IsArchived c))
         || negb (Bool.eqb (ce_IsLocked e) (cr_IsLocked c)) || negb (Bool.eqb (ce_IsPrivateThread e) (cr_IsPrivateThread c))
         || negb (ce_ThreadParentID e =? cr_ThreadParentID c)%string
         || negb (normalizeProviderTime (ce_ArchiveTimestamp e) =? cr_ArchiveTimestamp c)%string
      then Some true
      else negb <$> sameCanonicalRaw entityChannel (ce_Raw e) (cr_RawJSON c) (cr_Kind c)
  end.

(** The row after [UpsertChannel] of the queries and the removal of a
    tombstone. *)
Definition channel_of (now : Z) (c : ChannelRecord) (stored : option channel_entity) : channel_entity :=
  let old := ce_scope <$> stored in
  mkChannelEntity
    (ChannelRow (cr_GuildID c) (nullString (cr_ParentID c)) (cr_Kind c) None
       (match old with Some r => match c_deleted r with Some _ => None | None => c_source r end | None => None end)
       (match old with Some r => c_scope r | None => "unknown" end) (match old with Some r => c_policy r | None => "" end) now)
    (cr_Name c) (cr_Topic c) (cr_Position c) (cr_IsNSFW c) (cr_IsArchived c) (cr_IsLocked c) (cr_IsPrivateThread c)
    (cr_ThreadParentID c) (cr_ArchiveTimestamp c) (cr_RawJSON c).

Definition moved (c : ChannelRecord) (e : channel_entity) : bool :=
  negb (stored_parent e =? cr_ParentID c)%string || negb (c_kind (ce_scope e) =? cr_Kind c)%string.

(** The content write of a changed channel. *)
Definition write_channel (now : Z) (c : ChannelRecord) (s : entities) : entities :=
  let stored := en_channels s !! cr_ID c in
  let s := match stored with
           | Some e => receipts_of (retainLegacyRaw "channels" (ce_Raw e) (timeLayout (c_updated (ce_scope e))) [cr_ID c]) s
           | None => s
           end in
  let s := if match stored with Some e => moved c e | None => false end
           then with_channels (invalidate_scopes now (cr_ID c) (en_channels s)) s else s in
  with_channels (<[cr_ID c := channel_of now c (en_channels s !! cr_ID c)]> (en_channels s)) s.

Definition upsertChannelTx (now : Z) (c : ChannelRecord) (started : option Z) (authoritative : bool) (s : entities) : option entities :=
  let key := [cr_ID c] in
  let s := receipts_of (recordEvidence now "channels" (EvChannel c) key) s in
  let stored := en_channels s !! cr_ID c in
  if match stored with Some e => newer_than started "channels" (timeLayout (c_updated (ce_scope e))) key s | None => false end then Some s
  else if match stored with Some e => negb authoritative && match c_deleted (ce_scope e) with Some _ => true | None => false end | None => false end then Some s
  else
    let c := match stored with Some e => if authoritative then c else cached_channel c e | None => c end in
    '(merged, metrics) ← canonicalizeRaw entityChannel (cr_RawJSON c) (match stored with Some e => ce_Raw e | None => "" end) (cr_Kind c);
    let c := set_channel_raw (cr_ParentID c) (cr_Kind c) (normalizeProviderTime (cr_ArchiveTimestamp c)) merged c in
    changed ← channel_changed c stored;
    let s := if (changed : bool) then write_channel now c s else s in
    Some (receipts_of (λ rc, recordObserved now "channels" changed key (recordMetrics now "channel" (cr_ID c) metrics rc)) s).

Definition UpsertObservedChannel (now : Z) (c : ChannelRecord) (started : option Z) (s : entities) : option err * entities :=
  transact (upsertChannelTx now c started true) s.
Definition UpsertCachedChannel (now : Z) (c : ChannelRecord) (s : entities) : option err * entities :=
  transact (upsertChannelTx now c None false) s.

Fixpoint upsert_channels (now : Z) (cs : list ChannelRecord) (s : entities) : option entities :=
  match cs with
  | [] => Some s
  | c :: cs => s ← upsertChannelTx now c None true s; upsert_channels now cs s
  end.
Definition UpsertChannels (now : Z) (cs : list ChannelRecord) (s : entities) : option err * entities :=
  transact (upsert_channels now cs) s.

(** ** Members *)

Definition memberKey (guildID userID : string) : string := (guildID ++ ":" ++ userID)%string.
Definition memberFTSRowID (k : member_id) : Z := hash_row_id (memberKey (fst k) (snd k)).

Definition member_of (now : Z) (m : MemberRecord) : member_row :=
  mkMemberRow (mb_Username m) (mb_GlobalName m) (mb_DisplayName m) (mb_Nick m) (mb_Discriminator m) (mb_Avatar m) (mb_Bot m)
    (mb_JoinedAt m) (mb_RoleIDsJSON m) (mb_RawJSON m) (timeLayout now) "" "" "".

Definition first_nonempty (names : list string) : string := default ""%string (List.find nonempty names).

Definition member_fts_of (m : MemberRecord) : member_fts :=
  mkMemberFts (mb_GuildID m) (mb_UserID m) (mb_Username m)
    (first_nonempty [mb_DisplayName m; mb_Nick m; mb_GlobalName m; mb_Username m]) (profileText (mb_RawJSON m)).

Definition canonical_member (m : MemberRecord) (raw : string) : MemberRecord :=
  mkMemberRecord (mb_GuildID m) (mb_UserID m) (mb_Username m) (mb_GlobalName m) (mb_DisplayName m) (mb_Nick m) (mb_Discriminator m)
    (mb_Avatar m) (mb_Bot m) (normalizeProviderTime (mb_JoinedAt m)) (mb_RoleIDsJSON m) raw.

Definition member_changed (m : MemberRecord) (stored : option member_row) : option bool :=
  match stored with
  | None => Some true
  | Some r =>
      if negb (mr_Deleted r =? "")%string || negb (mr_Username r =? mb_Username m)%string || negb (mr_GlobalName r =? mb_GlobalName m)%string
         || negb (mr_DisplayName r =? mb_DisplayName m)%string || negb (mr_Nick r =? mb_Nick m)%string
         || negb (mr_Discriminator r =? mb_Discriminator m)%string || negb (mr_Avatar r =? mb_Avatar m)%string
         || negb (Bool.eqb (mr_Bot r) (mb_Bot m)) || negb (normalizeProviderTime (mr_JoinedAt r) =? mb_JoinedAt m)%string
         || negb (mr_RoleIDs r =? mb_RoleIDsJSON m)%string
      then Some true
      else negb <$> sameCanonicalRaw entityMember (mr_Raw r) (mb_RawJSON m) ""
  end.

Definition upsertMemberFTSTx (m : MemberRecord) (fts : gmap Z member_fts) : gmap Z member_fts :=
  <[memberFTSRowID (mb_GuildID m, mb_UserID m) := member_fts_of m]> fts.

Definition member_key (m : MemberRecord) : member_id := (mb_GuildID m, mb_UserID m).
Definition member_evidence (now : Z) (m : MemberRecord) (s : entities) : entities :=
  receipts_of (recordEvidence now "members" (EvMember m) [mb_GuildID m; mb_UserID m]) s.

Definition upsertMemberTx (now : Z) (m : MemberRecord) (s : entities) : option entities :=
  let key := [mb_GuildID m; mb_UserID m] in
  let s := member_evidence now m s in
  let stored := en_members s !! member_key m in
  '(merged, _) ← canonicalizeRaw entityMember (mb_RawJSON m) (match stored with Some r => mr_Raw r | None => "" end) "";
  let m := canonical_member m merged in
  changed ← member_changed m stored;
  let s := if (changed : bool) then
             let s := match stored with Some r => receipts_of (retainLegacyRaw "members" (mr_Raw r) (mr_Updated r) key) s | None => s end in
             with_members (<[member_key m := member_of now m]> (en_members s)) (upsertMemberFTSTx m (en_member_fts s)) s
           else s in
  Some (receipts_of (recordObserved now "members" changed key) s).

Definition member_newer (started : option Z) (k : member_id) (s : entities) : bool :=
  match en_members s !! k with
  | Some r => newer_than started "members" (mr_Updated r) [fst k; snd k] s
  | None => false
  end.

Definition UpsertObservedMember (now : Z) (m : MemberRecord) (started : option Z) (s : entities) : option err * entities :=
  if member_newer started (member_key m) s then (None, member_evidence now m s)
  else transact (upsertMemberTx now m) s.

(** [MarkMemberDeleted] of the queries and the removal of the search row. *)
Definition tombstone_member (now : Z) (guildID userID source reason : string) (s : entities) : entities :=
  let at_ := timeLayout now in
  with_members
    (<[(guildID, userID) :=
       match en_members s !! (guildID, userID) with
       | Some r => mkMemberRow (mr_Username r) (mr_GlobalName r) (mr_DisplayName r) (mr_Nick r) (mr_Discriminator r) (mr_Avatar r) (mr_Bot r)
                     (mr_JoinedAt r) (mr_RoleIDs r) (mr_Raw r) at_ at_ source reason
       | None => mkMemberRow userID "" "" "" "" "" false "" "[]" "{}" at_ at_ source reason
       end]> (en_members s))
    (delete (memberFTSRowID (guildID, userID)) (en_member_fts s)) s.

Definition MarkObservedMemberDeleted (now : Z) (guildID userID source reason : string) (observed : option Z) (s : entities) : option err * entities :=
  if blank guildID || blank userID || blank source || blank reason then (Some (EText "member tombstone requires guild id, user id, source, and reason"), s)
  else if member_newer observed (guildID, userID) s then (None, s)
  else (None, tombstone_member now guildID userID source reason s).

(** ** Member refresh *)

Definition memberRefreshBatchSize : nat := 256.
Record MemberRefreshMerge := mkMerge { Applied : nat; NewerSkipped : nat }.
Definition add_merge (a b : MemberRefreshMerge) : MemberRefreshMerge := mkMerge (Applied a + Applied b) (NewerSkipped a + NewerSkipped b).

Fixpoint merge_members (now started : Z) (members : list MemberRecord) (s : entities) : option (MemberRefreshMerge * entities) :=
  match members with
  | [] => Some (mkMerge 0 0, s)
  | m :: members =>
      if member_newer (Some started) (member_key m) s
      then '(r, s) ← merge_members now started members (member_evidence now m s); Some (add_merge (mkMerge 0 1) r, s)
      else s ← upsertMemberTx now m s; '(r, s) ← merge_members now started members s; Some (add_merge (mkMerge 1 0) r, s)
  end.

(** One transaction; [fails] is how the database may refuse it. *)
Definition mergeObservedMemberBatch (now started : Z) (fails : option err) (members : list MemberRecord) (s : entities) :
    (MemberRefreshMerge * option err) * entities :=
  match merge_members now started members s, fails with
  | Some (r, s'), None => ((r, None), s')
  | Some _, Some e => ((mkMerge 0 0, Some e), s)
  | None, _ => ((mkMerge 0 0, Some panicked), s)
  end.

Fixpoint merge_batches (fuel : nat) (clock : nat → Z) (started : Z) (fails : nat → option err) (i : nat) (members : list MemberRecord)
    (result : MemberRefreshMerge) (s : entities) : (MemberRefreshMerge * option err) * entities :=
  match fuel, members with
  | _, [] => ((result, None), s)
  | O, _ => ((result, None), s)
  | S fuel, _ =>
      match mergeObservedMemberBatch (clock i) started (fails i) (take memberRefreshBatchSize members) s with
      | ((_, Some e), s) => ((result, Some e), s)
      | ((one, None), s) => merge_batches fuel clock started fails (S i) (drop memberRefreshBatchSize members) (add_merge result one) s
      end
  end.

(** The identities a listing must have: of the guild, present, distinct. *)
Fixpoint invalid_members (guildID : string) (seen : list string) (members : list MemberRecord) : option err :=
  match members with
  | [] => None
  | m :: members =>
      if negb (mb_GuildID m =? guildID)%string || (mb_UserID m =? "")%string then Some (EText "member refresh has invalid member scope or identity")
      else if bool_decide (mb_UserID m ∈ seen) then Some (EText "member refresh has duplicate member identity")
      else invalid_members guildID (mb_UserID m :: seen) members
  end.

Definition MergeObservedMembers (clock : nat → Z) (fails : nat → option err) (ctx_err : option err) (guildID : string)
    (members : list MemberRecord) (started : option Z) (s : entities) : (MemberRefreshMerge * option err) * entities :=
  match started with
  | None => ((mkMerge 0 0, Some (EText "member refresh requires guild and observation start")), s)
  | Some started =>
      if (guildID =? "")%string then ((mkMerge 0 0, Some (EText "member refresh requires guild and observation start")), s)
      else match invalid_members guildID [] members with
           | Some e => ((mkMerge 0 0, Some e), s)
           | None =>
               match merge_batches (length members) clock started fails 0 members (mkMerge 0 0) s with
               | ((r, Some e), s) => ((r, Some e), s)
               | ((r, None), s) => ((r, ctx_err), s)
               end
           end
  end.
End Entities.

(** ** Removing a guild *)

(** [DeleteGuildData]; rows are matched by their own guild column, the jobs and
    vectors by the guild of their message. *)
Definition keep_guild {K A} `{Countable K} (guild_of_row : A → string) (guildID : string) (m : gmap K A) : gmap K A :=
  filter (λ '(_, r), guild_of_row r ≠ guildID) m.

Definition of_other_message (s : mstate) (guildID : string) {A} (m : gmap string A) : gmap string A :=
  filter (λ '(id, _), s_guild <$> ms_rows s !! id ≠ Some guildID) m.

Definition delete_guild_messages (languages : list string) (guildID : string) (s : mstate) : mstate :=
  mkMState (keep_guild s_guild guildID (ms_rows s)) (keep_guild f_guild guildID (ms_fts s))
    (filter (λ '(k, f), k.1 ∈ languages → f_guild f ≠ guildID) (ms_lexical s))
    (of_other_message s guildID (ms_jobs s)) (of_other_message s guildID (ms_embeddings s)) (ms_embedding_history s)
    (List.filter (λ e, negb (ev_guild e =? guildID)%string) (ms_events s))
    (mkAttachments (keep_guild (a_GuildID ∘ at_record) guildID (at_rows (ms_attachments s))) (at_history (ms_attachments s)) (at_receipts (ms_attachments s)))
    (mkMentions (keep_guild me_guild guildID (mn_rows (ms_mentions s))) (mn_next (ms_mentions s)) (mn_history (ms_mentions s))).

Definition delete_guild_entities (guildID : string) (s : entities) : entities :=
  mkEntities (delete guildID (en_guilds s)) (keep_guild (c_guild ∘ ce_scope) guildID (en_channels s))
    (filter (λ '(k, _), fst k ≠ guildID) (en_members s)) (keep_guild mf_guild guildID (en_member_fts s)) (en_receipts s).

Definition DeleteGuildData `{Lexical} (guildID : string) (s : entities * mstate) : entities * mstate :=
  (delete_guild_entities guildID (fst s), delete_guild_messages lexicalLanguages guildID (snd s)).

(** [DeleteOrphanChannels]. *)
Definition DeleteOrphanChannels (guildID : string) (m : mstate) (s : entities) : entities :=
  with_channels (filter (λ '(id, e), c_guild (ce_scope e) ≠ guildID ∨ existsb (λ p, (s_channel p.2 =? id)%string) (map_to_list (ms_rows m)) = true) (en_channels s)) s.
