(* ===== verification/EntitySafety.v ===== *)
(** * Properties of the entity rows

    What the guild, channel and member upserts of internal/store/write.go
    guarantee: a channel that moves takes the collection decisions below it
    with it, an observation older than the row changes nothing, a cache never
    resurrects or moves a channel, and the member index follows the members. *)
From S2P Require Import Prelude Errors SyncState ChannelScope GoTime GoText Rows Receipts Attachments Mentions MessageWrite Canonical EntityRows.
Local Open Scope Z_scope.

(** ** Frames *)

Section Frames.
Context {jt : JSONText} {tp : TimeParse} (profileText : string → string).

Lemma receipts_channels f s : en_channels (receipts_of f s) = en_channels s.
Proof. done. Qed.
Lemma receipts_members f s : en_members (receipts_of f s) = en_members s ∧ en_member_fts (receipts_of f s) = en_member_fts s.
Proof. done. Qed.

(** Evidence that is not a message mutation adds no check. *)
Lemma evidence_checks now table e key rc :
  (∀ m, e ≠ EvMutation m) → rc_checks (recordEvidence now table e key rc) = rc_checks rc.
Proof. intros H. destruct e; simpl; try done. by destruct (H m). Qed.

Lemma lastObserved_checks table updated key rc rc' :
  rc_checks rc (* same checks *) !! (table, key, checkObserved) = rc_checks rc' !! (table, key, checkObserved) →
  lastObserved table updated key rc = lastObserved table updated key rc'.
Proof. unfold lastObserved. by intros ->. Qed.

Lemma newer_evidence started table updated key now table' e key' s :
  (∀ m, e ≠ EvMutation m) →
  newer_than started table updated key (receipts_of (recordEvidence now table' e key') s) = newer_than started table updated key s.
Proof.
  intros H. unfold newer_than. destruct started; [|done]. f_equal. apply lastObserved_checks. cbn. by rewrite evidence_checks.
Qed.

(** What a channel upsert does to the channel table. *)
Definition written_channels (now : Z) (c : ChannelRecord) (t : gmap string channel_entity) : gmap string channel_entity :=
  let t := if match t !! cr_ID c with Some e => moved c e | None => false end then invalidate_scopes now (cr_ID c) t else t in
  <[cr_ID c := channel_of now c (t !! cr_ID c)]> t.

Lemma write_channel_table now c s : en_channels (write_channel now c s) = written_channels now c (en_channels s).
Proof.
  unfold write_channel, written_channels. destruct (en_channels s !! cr_ID c) as [e|] eqn:E; cbn; [|by rewrite E].
  destruct (moved c e); cbn; [done|]. by rewrite E.
Qed.

(** What a record becomes before it is written. *)
Record prepared (c : ChannelRecord) (authoritative : bool) (stored : option channel_entity) (c' : ChannelRecord) : Prop := {
  pr_id : cr_ID c' = cr_ID c;
  pr_guild : cr_GuildID c' = cr_GuildID c;
  pr_parent : cr_ParentID c' = if authoritative then cr_ParentID c else
    match stored with Some e => if (stored_parent e =? "")%string then cr_ParentID c else stored_parent e | None => cr_ParentID c end;
  pr_kind : cr_Kind c' = if authoritative then cr_Kind c else
    match stored with
    | Some e => let kind := c_kind (ce_scope e) in if (kind =? "")%string || (kind =? "unknown")%string then cr_Kind c else kind
    | None => cr_Kind c end }.

Lemma upsert_channel_cases now c started authoritative s s' :
  upsertChannelTx now c started authoritative s = Some s' →
  en_channels s' = en_channels s ∨
  ∃ c', prepared c authoritative (en_channels s !! cr_ID c) c' ∧ en_channels s' = written_channels now c' (en_channels s) ∧
    (∀ e, en_channels s !! cr_ID c = Some e → newer_than started "channels" (timeLayout (c_updated (ce_scope e))) [cr_ID c] s = false ∧
       (authoritative = false → c_deleted (ce_scope e) = None)).
Proof.
  unfold upsertChannelTx. cbv zeta. rewrite receipts_channels. destruct (en_channels s !! cr_ID c) as [e|] eqn:Ee.
  - rewrite newer_evidence by done. destruct (newer_than started _ _ _ s) eqn:En; [intros [= <-]; by left|].
    destruct (negb authoritative && _) eqn:Ed; [intros [= <-]; by left|].
    set (c1 := if authoritative then c else cached_channel c e).
    destruct (canonicalizeRaw _ _ _ _) as [[merged metrics]|]; [|done]. cbn [mbind option_bind].
    set (c2 := set_channel_raw _ _ _ _ _). destruct (channel_changed c2 (Some e)) as [[]|]; [| |done]; cbn [mbind option_bind]; intros [= <-]; [|by left].
    right. exists c2. split_and!.
    + subst c2 c1. split; by destruct authoritative.
    + rewrite receipts_channels, write_channel_table. done.
    + intros e' [= <-]. split; [done|]. intros ->. simpl in Ed. by destruct (c_deleted _).
  - destruct (canonicalizeRaw _ _ _ _) as [[merged metrics]|]; [|done]. cbn [mbind option_bind].
    set (c2 := set_channel_raw _ _ _ _ _). cbn [channel_changed mbind option_bind]. intros [= <-].
    right. exists c2. split_and!; [split; by destruct authoritative|by rewrite receipts_channels, write_channel_table|done].
Qed.
End Frames.

(** ** Decisions below a channel that moves *)

Abbreviation below t x id := (x ∈ descendants (size (scope_table t)) (scope_table t) {[id]}).

Lemma invalidate_scopes_lookup now id t x e :
  t !! x = Some e →
  invalidate_scopes now id t !! x
  = Some (set_scope (if bool_decide (below t x id)
                     then ChannelRow (c_guild (ce_scope e)) (c_parent (ce_scope e)) (c_kind (ce_scope e)) (c_deleted (ce_scope e)) (c_source (ce_scope e)) "unknown" "" now
                     else ce_scope e) e).
Proof.
  intros E. unfold invalidate_scopes. rewrite map_lookup_imap, E. cbn [mbind option_bind]. rewrite invalidate_lookup.
  assert (scope_table t !! x = Some (ce_scope e)) as -> by (unfold scope_table; by rewrite lookup_fmap, E). done.
Qed.

Lemma invalidate_scopes_none now id t x : t !! x = None → invalidate_scopes now id t !! x = None.
Proof. intros E. unfold invalidate_scopes. by rewrite map_lookup_imap, E. Qed.

(** No stored parent is an empty text: [nullString] writes a null for it. *)
Definition parents_ok (t : gmap string channel_entity) : Prop := ∀ x e, t !! x = Some e → c_parent (ce_scope e) ≠ Some ""%string.

Lemma nullString_parent v : nullString v ≠ Some ""%string.
Proof. unfold nullString. destruct (String.eqb_spec v ""); congruence. Qed.

Lemma stored_parent_eq e v : c_parent (ce_scope e) ≠ Some ""%string → stored_parent e = v → c_parent (ce_scope e) = nullString v.
Proof.
  unfold stored_parent, nullString. destruct (c_parent (ce_scope e)) as [p|]; simpl; intros H <-; [|done].
  destruct (String.eqb_spec p ""); congruence.
Qed.

(** The rows above a channel keep their parent and kind. *)
Definition same_ancestry (t t' : gmap string channel_entity) (id : string) : Prop :=
  ∀ a e, rtc (parent_step (scope_table t)) id a → t !! a = Some e →
    ∃ e', t' !! a = Some e' ∧ c_parent (ce_scope e') = c_parent (ce_scope e) ∧ c_kind (ce_scope e') = c_kind (ce_scope e).

(** [t'] has no decision to collect that [t] did not have for the same
    ancestry. *)
Record narrowed (t t' : gmap string channel_entity) : Prop := {
  nr_parents : parents_ok t → parents_ok t';
  nr_kept x : is_Some (t !! x) → is_Some (t' !! x);
  nr_allowed : parents_ok t → ∀ x e', t' !! x = Some e' → c_scope (ce_scope e') = "allowed"%string →
    ∃ e, t !! x = Some e ∧ c_scope (ce_scope e) = "allowed"%string ∧ c_policy (ce_scope e) = c_policy (ce_scope e') ∧ same_ancestry t t' x }.

Lemma narrowed_refl t : narrowed t t.
Proof. split; [done|done|]. intros _ x e' He Ha. exists e'. split_and!; [done|done|done|]. intros a e _ E. eauto. Qed.

Lemma parent_step_entity t x y : parent_step (scope_table t) x y ↔ ∃ e, t !! x = Some e ∧ c_parent (ce_scope e) = Some y.
Proof.
  unfold parent_step, parent_of, scope_table. rewrite lookup_fmap. destruct (t !! x) as [e|]; simpl; split; [eauto|by intros (? & [= <-] & ?)|done|by intros (? & ? & ?)].
Qed.

Lemma same_ancestry_path t t' x a : same_ancestry t t' x → rtc (parent_step (scope_table t)) x a → rtc (parent_step (scope_table t')) x a.
Proof.
  intros Hs H. apply (rtc_ind_r (R := parent_step (scope_table t)) (λ a, rtc (parent_step (scope_table t')) x a) x); [done| |exact H].
  intros y z Hxy (e & He & Hp)%parent_step_entity IH. eapply rtc_r; [exact IH|]. apply parent_step_entity.
  destruct (Hs y e Hxy He) as (e' & He' & Hpar & _). exists e'. split; [done|congruence].
Qed.

Lemma narrowed_trans t1 t2 t3 : narrowed t1 t2 → narrowed t2 t3 → narrowed t1 t3.
Proof.
  intros H12 H23. split; [intros; by apply H23, H12|intros; by apply H23, H12|]. intros Hp x e3 H3 Ha.
  destruct (nr_allowed _ _ H23 (nr_parents _ _ H12 Hp) x e3 H3 Ha) as (e2 & H2 & Ha2 & Hp2 & Hs23).
  destruct (nr_allowed _ _ H12 Hp x e2 H2 Ha2) as (e1 & H1 & Ha1 & Hp1 & Hs12). exists e1. split_and!; [done|done|congruence|].
  intros a e Hpath He. destruct (Hs12 a e Hpath He) as (e' & He' & Hpar & Hk).
  destruct (Hs23 a e') as (e'' & He'' & Hpar' & Hk'); [by eapply same_ancestry_path|done|]. exists e''. split_and!; [done|congruence|congruence].
Qed.

Lemma written_narrowed now c t : narrowed t (written_channels now c t).
Proof.
  unfold written_channels. destruct (t !! cr_ID c) as [e0|] eqn:E0; [destruct (moved c e0) eqn:Em|].
  - rewrite (invalidate_scopes_lookup _ _ _ _ _ E0). rewrite bool_decide_true by (by apply descendants_spec).
    assert (∀ x, x ≠ cr_ID c → <[cr_ID c:=channel_of now c (Some (set_scope (ChannelRow (c_guild (ce_scope e0)) (c_parent (ce_scope e0)) (c_kind (ce_scope e0)) (c_deleted (ce_scope e0)) (c_source (ce_scope e0)) "unknown" "" now) e0))]>
      (invalidate_scopes now (cr_ID c) t) !! x = invalidate_scopes now (cr_ID c) t !! x) as Hne by (intros; by rewrite lookup_insert_ne).
    split.
    + intros Hp x e. destruct (decide (x = cr_ID c)) as [->|Hx]; [rewrite lookup_insert_eq; intros [= <-]; apply nullString_parent|].
      rewrite Hne by done. destruct (t !! x) as [ex|] eqn:Ex; [|by rewrite invalidate_scopes_none].
      rewrite (invalidate_scopes_lookup _ _ _ _ _ Ex). intros [= <-]. specialize (Hp x ex Ex). by case_bool_decide.
    + intros x [ex Ex]. destruct (decide (x = cr_ID c)) as [->|Hx]; [rewrite lookup_insert_eq; eauto|].
      rewrite Hne, (invalidate_scopes_lookup _ _ _ _ _ Ex) by done. eauto.
    + intros Hp x e'. destruct (decide (x = cr_ID c)) as [->|Hx]; [rewrite lookup_insert_eq; intros [= <-]; done|].
      rewrite Hne by done. destruct (t !! x) as [ex|] eqn:Ex; [|by rewrite invalidate_scopes_none].
      rewrite (invalidate_scopes_lookup _ _ _ _ _ Ex). intros [= <-]. case_bool_decide as Hd; [done|]. intros Ha. exists ex.
      split_and!; [done|done|done|]. intros a ea Hpath Ea. assert (a ≠ cr_ID c) as Hac by (intros ->; apply Hd; by apply descendants_spec).
      rewrite Hne, (invalidate_scopes_lookup _ _ _ _ _ Ea) by done. eexists. split; [done|]. by case_bool_decide.
  - rewrite E0. apply orb_false_iff in Em as [Epar Ekind]. propify. split.
    + intros Hp x e. rewrite lookup_insert_Some. intros [[<- <-]|[_ Hx]]; [apply nullString_parent|eauto].
    + intros x [ex Ex]. destruct (decide (x = cr_ID c)) as [->|Hx]; [rewrite lookup_insert_eq|rewrite lookup_insert_ne by done]; eauto.
    + intros Hp x e'. rewrite lookup_insert_Some. intros [[<- <-]|[Hx Ex]] Ha.
      * exists e0. split_and!; [done|done|done|]. intros a ea _ Ea. destruct (decide (a = cr_ID c)) as [->|]; [|rewrite lookup_insert_ne by done; eauto].
        rewrite E0 in Ea. injection Ea as <-. rewrite lookup_insert_eq. eexists. split; [done|]. cbn. by rewrite <- (stored_parent_eq e0 _ (Hp _ _ E0) Epar).
      * exists e'. split_and!; [done|done|done|]. intros a ea _ Ea. destruct (decide (a = cr_ID c)) as [->|]; [|rewrite lookup_insert_ne by done; eauto].
        rewrite E0 in Ea. injection Ea as <-. rewrite lookup_insert_eq. eexists. split; [done|]. cbn. by rewrite <- (stored_parent_eq e0 _ (Hp _ _ E0) Epar).
  - rewrite E0. split.
    + intros Hp x e. rewrite lookup_insert_Some. intros [[<- <-]|[_ Hx]]; [apply nullString_parent|eauto].
    + intros x [ex Ex]. rewrite lookup_insert_ne by congruence. eauto.
    + intros Hp x e'. rewrite lookup_insert_Some. intros [[<- <-]|[Hx Ex]] Ha; [done|].
      exists e'. split_and!; [done|done|done|]. intros a ea _ Ea. rewrite lookup_insert_ne by congruence. eauto.
Qed.

Section Catalog.
Context {jt : JSONText} {tp : TimeParse}.

Lemma upsert_narrowed now c started authoritative s s' :
  upsertChannelTx now c started authoritative s = Some s' → narrowed (en_channels s) (en_channels s').
Proof. intros [->|(c' & _ & -> & _)]%upsert_channel_cases; [apply narrowed_refl|apply written_narrowed]. Qed.

Lemma upserts_narrowed now cs s s' : upsert_channels now cs s = Some s' → narrowed (en_channels s) (en_channels s').
Proof.
  revert s. induction cs as [|c cs IH]; intros s; simpl; [intros [= <-]; apply narrowed_refl|].
  destruct (upsertChannelTx now c None true s) as [s1|] eqn:E; [|done]. intros H.
  eapply narrowed_trans; [by eapply upsert_narrowed|by apply IH].
Qed.

Lemma transact_narrowed (f : entities → option entities) s e s' :
  (∀ s1, f s = Some s1 → narrowed (en_channels s) (en_channels s1)) → transact f s = (e, s') → narrowed (en_channels s) (en_channels s').
Proof. unfold transact. intros H. destruct (f s) eqn:E; intros [= <- <-]; [by apply H|apply narrowed_refl]. Qed.

(** The writes of channel metadata, those that fail included. *)
Inductive catalog_step : entities → entities → Prop :=
  | cs_observed now c started e s s' : UpsertObservedChannel now c started s = (e, s') → catalog_step s s'
  | cs_cached now c e s s' : UpsertCachedChannel now c s = (e, s') → catalog_step s s'
  | cs_batch now cs e s s' : UpsertChannels now cs s = (e, s') → catalog_step s s'.

Lemma catalog_narrowed s s' : rtc catalog_step s s' → narrowed (en_channels s) (en_channels s').
Proof.
  induction 1 as [|s s1 s2 Hstep _ IH]; [apply narrowed_refl|]. eapply narrowed_trans; [|exact IH].
  destruct Hstep as [now c started e s s1 H|now c e s s1 H|now cs e s s1 H]; (eapply transact_narrowed; [|exact H]); intros s3 H3.
  - exact (upsert_narrowed _ _ _ _ _ _ H3).
  - exact (upsert_narrowed _ _ _ _ _ _ H3).
  - exact (upserts_narrowed _ _ _ _ H3).
Qed.
End Catalog.

(** C7: over any sequence of channel upserts, observed, cached and in batches,
    a channel that ends up allowed was allowed under the same policy before,
    and nothing above it has moved or changed kind since: a decision never
    outlives the ancestry it was made for. No channel row disappears. *)
Theorem moved_channels_lose_their_scope `{JSONText} `{TimeParse} (s s' : entities) :
  parents_ok (en_channels s) → rtc catalog_step s s' →
  (∀ x, is_Some (en_channels s !! x) → is_Some (en_channels s' !! x)) ∧
  ∀ x e', en_channels s' !! x = Some e' → c_scope (ce_scope e') = "allowed"%string →
    ∃ e, en_channels s !! x = Some e ∧ c_scope (ce_scope e) = "allowed"%string ∧ c_policy (ce_scope e) = c_policy (ce_scope e') ∧
      same_ancestry (en_channels s) (en_channels s') x.
Proof. intros Hp Hn%catalog_narrowed. split; [apply Hn|by apply (nr_allowed _ _ Hn)]. Qed.

(** an observation does not go back in time, and a cache does not
    contradict the provider. When the stored guild, channel or member was
    written or checked after an observation started, the observation changes no
    row; [UpsertCachedChannel] leaves a tombstoned channel as it is, and never
    changes a stored parent or a known kind. *)
Theorem observations_never_go_back `{JSONText} `{TimeParse} profile (s : entities) (now started : Z) :
  (∀ g r, en_guilds s !! g_ID g = Some r → newer_than (Some started) "guilds" (gu_Updated r) [g_ID g] s = true →
     en_guilds (UpsertObservedGuild now g (Some started) s).2 = en_guilds s) ∧
  (∀ id r source reason, en_guilds s !! id = Some r → newer_than (Some started) "guilds" (gu_Updated r) [id] s = true →
     (MarkObservedGuildDeleted now id source reason (Some started) s).2 = s) ∧
  (∀ c e, en_channels s !! cr_ID c = Some e → newer_than (Some started) "channels" (timeLayout (c_updated (ce_scope e))) [cr_ID c] s = true →
     en_channels (UpsertObservedChannel now c (Some started) s).2 = en_channels s) ∧
  (∀ m, member_newer (Some started) (member_key m) s = true →
     en_members (UpsertObservedMember profile now m (Some started) s).2 = en_members s ∧
     en_member_fts (UpsertObservedMember profile now m (Some started) s).2 = en_member_fts s) ∧
  (∀ guild user source reason, member_newer (Some started) (guild, user) s = true →
     (MarkObservedMemberDeleted now guild user source reason (Some started) s).2 = s) ∧
  ∀ c e, en_channels s !! cr_ID c = Some e →
    ∃ e', en_channels (UpsertCachedChannel now c s).2 !! cr_ID c = Some e' ∧
      (c_deleted (ce_scope e) ≠ None → e' = e) ∧
      (stored_parent e ≠ ""%string → stored_parent e' = stored_parent e) ∧
      (c_kind (ce_scope e) ∉ [""; "unknown"]%string → c_kind (ce_scope e') = c_kind (ce_scope e)).
Proof.
  split_and!.
  - intros g r Hr Hn. unfold UpsertObservedGuild, transact, upsertGuildTx. cbv zeta. cbn [en_guilds receipts_of]. rewrite Hr, newer_evidence, Hn; done.
  - intros id r source reason Hr Hn. unfold MarkObservedGuildDeleted. destruct (_ || _); [done|]. by rewrite Hr, Hn.
  - intros c e He Hn. unfold UpsertObservedChannel, transact. destruct (upsertChannelTx _ _ _ _ _) as [s'|] eqn:E; [|done].
    apply upsert_channel_cases in E as [?|(c' & _ & _ & Hc)]; [done|]. destruct (Hc e He). congruence.
  - intros m Hn. unfold UpsertObservedMember. by rewrite Hn.
  - intros guild user source reason Hn. unfold MarkObservedMemberDeleted. destruct (_ || _); [done|]. by rewrite Hn.
  - intros c e He. unfold UpsertCachedChannel, transact. destruct (upsertChannelTx _ _ _ _ _) as [s'|] eqn:E; [|eauto 6].
    apply upsert_channel_cases in E as [Hs|(c' & Hp & Hw & Hc)]; [cbn [snd]; rewrite Hs; eauto 6|]. cbn [snd].
    destruct (Hc e He) as [_ Hd]. specialize (Hd eq_refl). rewrite Hw. unfold written_channels. rewrite (pr_id _ _ _ _ Hp).
    rewrite lookup_insert_eq. eexists. split; [done|]. pose proof (pr_parent _ _ _ _ Hp) as Hpar. pose proof (pr_kind _ _ _ _ Hp) as Hk.
    rewrite He in Hpar, Hk. cbv zeta in Hk. unfold stored_parent at 2. cbn [channel_of ce_scope c_parent c_kind]. rewrite Hpar, Hk. split_and!.
    + congruence.
    + intros Hne. destruct (String.eqb_spec (stored_parent e) ""); [done|]. unfold nullString. by destruct (String.eqb_spec (stored_parent e) "").
    + intros Hkind. destruct (String.eqb_spec (c_kind (ce_scope e)) ""); [set_solver|].
      destruct (String.eqb_spec (c_kind (ce_scope e)) "unknown"); [set_solver|done].
Qed.

(** ** Witnesses *)

(** Payloads that are no JSON objects. *)
Definition no_json : JSONText := {| Decode _ := None; Encode _ := None; Float64 _ := None |}.

Definition small_channel (guild : string) (parent : option string) (kind scope : string) (deleted : option Z) : channel_entity :=
  mkChannelEntity (ChannelRow guild parent kind deleted None scope "policy" 7) "name" "" 0 false false false false "" "" "".
Definition small_entities : entities :=
  mkEntities ∅ {["1" := small_channel "9" None "category" "allowed" None; "2" := small_channel "9" (Some "1"%string) "text" "allowed" None;
                 "4" := small_channel "9" None "text" "allowed" None; "6" := small_channel "9" (Some "1"%string) "text" "excluded" (Some 5)]}%string ∅ ∅ empty_receipts.
(** The category becomes a forum. *)
Definition moved_category : ChannelRecord := mkChannelRecord "1" "9" "" "forum" "name" "" 0 false false false false "" "" "".
Definition after_move : entities := (UpsertObservedChannel (jt := no_json) (tp := parse_written) 20 moved_category None small_entities).2.

Example move_revokes : (c_scope ∘ ce_scope) <$> en_channels after_move !! "2"%string = Some "unknown"%string.
Proof. vm_compute. reflexivity. Qed.

Lemma moved_channels_lose_their_scope_witness :
  is_Some (en_channels after_move !! "4"%string) ∧
  ∃ e, en_channels small_entities !! "4"%string = Some e ∧ c_policy (ce_scope e) = "policy"%string.
Proof.
  destruct (moved_channels_lose_their_scope (H := no_json) (H0 := parse_written) small_entities after_move) as [Hkeep Hallowed].
  - change (map_Forall (λ _ e, c_parent (ce_scope e) ≠ Some ""%string) (en_channels small_entities)). refine (bool_decide_unpack _ _). vm_compute. exact I.
  - eapply rtc_once, (cs_observed 20 moved_category None). apply surjective_pairing.
  - split; [apply Hkeep; by eexists|]. destruct (Hallowed "4"%string _ ltac:(vm_compute; reflexivity) ltac:(vm_compute; reflexivity)) as (e & He & _ & Hp & _).
    exists e. split; [exact He|]. by rewrite Hp.
Defined.

(** The cache says another parent and another kind. *)
Definition cached_text : ChannelRecord := mkChannelRecord "2" "9" "8" "voice" "renamed" "" 0 false false false false "" "" "".

Lemma observations_never_go_back_witness :
  ∃ e', en_channels (UpsertCachedChannel (jt := no_json) (tp := parse_written) 30 cached_text small_entities).2 !! "2"%string = Some e' ∧
    stored_parent e' = "1"%string ∧ c_kind (ce_scope e') = "text"%string.
Proof.
  destruct (observations_never_go_back (H := no_json) (H0 := parse_written) id small_entities 30 0) as (_ & _ & _ & _ & _ & Hcached).
  destruct (Hcached cached_text _ eq_refl) as (e' & He & _ & Hp & Hk). exists e'. split; [exact He|]. split; [by apply Hp|].
  apply Hk. refine (bool_decide_unpack _ _). vm_compute. exact I.
Defined.
