(* ===== verification/MemberSafety.v ===== *)
(** * Properties of the member rows

    The member search index follows the member rows (internal/store/write.go),
    and a member refresh (internal/store/member_refresh.go) applies a whole
    listing: each listed member ends as listed unless something newer is
    stored, and nobody else changes. *)
From S2P Require Import Prelude Errors SyncState ChannelScope GoTime GoText Rows Receipts Attachments Mentions MessageWrite Canonical EntityRows EntitySafety.
Local Open Scope Z_scope.

Section Members.
Context {jt : JSONText} {tp : TimeParse} (profileText : string → string).
Abbreviation member_table := (gmap member_id member_row).
Abbreviation member_index := (gmap Z member_fts).

Definition live (r : member_row) : Prop := mr_Deleted r = ""%string.

(** The search row of a stored member. *)
Definition fts_for (k : member_id) (r : member_row) : member_fts :=
  mkMemberFts (fst k) (snd k) (mr_Username r) (first_nonempty [mr_DisplayName r; mr_Nick r; mr_GlobalName r; mr_Username r]) (profileText (mr_Raw r)).

(** The fields a member row takes from a provider's record. *)
Record member_carries (m : MemberRecord) (r : member_row) : Prop := {
  mc_live : live r; mc_username : mr_Username r = mb_Username m; mc_global : mr_GlobalName r = mb_GlobalName m;
  mc_display : mr_DisplayName r = mb_DisplayName m; mc_nick : mr_Nick r = mb_Nick m;
  mc_discriminator : mr_Discriminator r = mb_Discriminator m; mc_avatar : mr_Avatar r = mb_Avatar m;
  mc_bot : mr_Bot r = mb_Bot m; mc_roles : mr_RoleIDs r = mb_RoleIDsJSON m }.

(** What decides whether something newer is stored of a member. *)
Definition same_at (k : member_id) (s s' : entities) : Prop :=
  en_members s !! k = en_members s' !! k ∧
  rc_checks (en_receipts s) !! ("members", [fst k; snd k], checkObserved)%string = rc_checks (en_receipts s') !! ("members", [fst k; snd k], checkObserved)%string.

Lemma same_at_newer started k s s' : same_at k s s' → member_newer started k s = member_newer started k s'.
Proof.
  intros [Hm Hc]. unfold member_newer, newer_than. rewrite <- Hm. destruct (en_members s !! k); [|done]. destruct started; [|done].
  f_equal. by apply lastObserved_checks.
Qed.

Lemma retain_checks table raw updated key rc : rc_checks (retainLegacyRaw table raw updated key rc) = rc_checks rc.
Proof. unfold retainLegacyRaw, retainLegacy. by destruct (_ || _). Qed.

Lemma member_checks now m changed rc k :
  k ≠ member_key m →
  rc_checks (recordObserved now "members" changed [mb_GuildID m; mb_UserID m] rc) !! ("members", [fst k; snd k], checkObserved)%string
  = rc_checks rc !! ("members", [fst k; snd k], checkObserved)%string.
Proof.
  intros Hne. unfold recordObserved, recordCheck. cbn [rc_checks]. rewrite lookup_insert_ne; [done|].
  intros [= H1 H2]. apply Hne. destruct k. unfold member_key. simpl in *. by subst.
Qed.

Lemma upsert_member_cases now m s s' :
  upsertMemberTx profileText now m s = Some s' →
  (∀ k, k ≠ member_key m → same_at k s s') ∧
  ((∃ r, member_carries m r ∧ en_members s' = <[member_key m := r]> (en_members s) ∧
         en_member_fts s' = <[memberFTSRowID (member_key m) := fts_for (member_key m) r]> (en_member_fts s)) ∨
   (∃ r, en_members s !! member_key m = Some r ∧ member_carries m r ∧ en_members s' = en_members s ∧ en_member_fts s' = en_member_fts s)).
Proof.
  unfold upsertMemberTx. cbv zeta. change (en_members (member_evidence now m s)) with (en_members s).
  destruct (canonicalizeRaw _ _ _ _) as [[merged metrics]|]; [|done]. cbn [mbind option_bind].
  destruct (member_changed _ _) as [[]|] eqn:Ec; [| |done]; cbn [mbind option_bind]; intros [= <-].
  - split.
    + intros k Hk. split; cbn [en_members receipts_of with_members en_receipts].
      * unfold member_key in *. cbn [mb_GuildID mb_UserID canonical_member]. by rewrite lookup_insert_ne by congruence; destruct (en_members s !! _).
      * unfold member_evidence. destruct (en_members s !! member_key m); cbn [en_receipts receipts_of with_members];
          rewrite member_checks, ?retain_checks by done; by rewrite evidence_checks.
    + left. eexists. split_and!.
      2:{ cbn. destruct (en_members s !! member_key m); reflexivity. }
      2:{ cbn. destruct (en_members s !! member_key m); reflexivity. }
      by split.
  - split.
    + intros k Hk. split; [done|]. cbn [en_receipts receipts_of member_evidence].
      rewrite member_checks by done. by rewrite evidence_checks.
    + right. unfold member_changed in Ec. destruct (en_members s !! member_key m) as [r|] eqn:Er; [|done].
      exists r. destruct (_ || _) eqn:Ed; [done|]. propify. cbn in *. split_and!; try done. split; try done; by apply eqb_prop.
Qed.

Lemma evidence_same now m s k : same_at k s (member_evidence now m s).
Proof. split; [done|]. unfold member_evidence. cbn [en_receipts receipts_of]. by rewrite evidence_checks. Qed.

Lemma same_at_trans k s1 s2 s3 : same_at k s1 s2 → same_at k s2 s3 → same_at k s1 s3.
Proof. intros [? ?] [? ?]. split; congruence. Qed.

(** ** The search index *)

(** Members among [K] are indexed: live rows, and only they, have their search
    row. *)
Record members_indexed (K : member_id → Prop) (t : member_table) (f : member_index) : Prop := {
  mi_known k : is_Some (t !! k) → K k;
  mi_row k r : t !! k = Some r → live r → f !! memberFTSRowID k = Some (fts_for k r);
  mi_fts n x : f !! n = Some x → n = memberFTSRowID (mf_guild x, mf_user x) ∧ ∃ r, t !! (mf_guild x, mf_user x) = Some r ∧ live r }.

(** No two members of [K] share a row id: it is a 63-bit hash. *)
Definition no_collision (K : member_id → Prop) : Prop := ∀ k k', K k → K k' → memberFTSRowID k = memberFTSRowID k' → k = k'.

Lemma indexed_live K t f k r :
  no_collision K → members_indexed K t f → K k → live r →
  members_indexed K (<[k := r]> t) (<[memberFTSRowID k := fts_for k r]> f).
Proof.
  intros Hinj [Hk Hr Hf] HK Hl. split.
  - intros k'. destruct (decide (k' = k)) as [->|]; [done|]. rewrite lookup_insert_ne by done. apply Hk.
  - intros k' r' [[<- <-]|[Hne H]]%lookup_insert_Some Hl'; [by rewrite lookup_insert_eq|].
    rewrite lookup_insert_ne; [by apply Hr|]. intros E. apply Hne. apply Hinj; [done|apply Hk; eauto|done].
  - intros n x [[<- <-]|[Hne H]]%lookup_insert_Some; [destruct k; split; [done|]; exists r; by rewrite lookup_insert_eq|].
    destruct (Hf n x H) as (-> & r' & Hr' & Hl'). split; [done|]. exists r'. rewrite lookup_insert_ne; [done|]. intros ->. by apply Hne.
Qed.

Lemma indexed_dead K t f k r :
  no_collision K → members_indexed K t f → K k → ¬ live r → members_indexed K (<[k := r]> t) (delete (memberFTSRowID k) f).
Proof.
  intros Hinj [Hk Hr Hf] HK Hl. split.
  - intros k'. destruct (decide (k' = k)) as [->|]; [done|]. rewrite lookup_insert_ne by done. apply Hk.
  - intros k' r' [[<- <-]|[Hne H]]%lookup_insert_Some Hl'; [done|].
    rewrite lookup_delete_ne; [by apply Hr|]. intros E. apply Hne. apply Hinj; [done|apply Hk; eauto|done].
  - intros n x [Hne H]%lookup_delete_Some. destruct (Hf n x H) as (-> & r' & Hr' & Hl'). split; [done|]. exists r'.
    rewrite lookup_insert_ne; [done|]. intros ->. by apply Hne.
Qed.

Abbreviation indexed K s := (members_indexed K (en_members s) (en_member_fts s)).

Lemma upsert_indexed K now m s s' : no_collision K → K (member_key m) → upsertMemberTx profileText now m s = Some s' → indexed K s → indexed K s'.
Proof.
  intros Hinj HK [_ [(r & Hc & -> & ->)|(r & _ & _ & -> & ->)]]%upsert_member_cases Hi; [|done]. apply indexed_live; try done. apply Hc.
Qed.

Lemma tombstone_indexed K now guild user source reason s :
  no_collision K → K (guild, user) → indexed K s → indexed K (tombstone_member now guild user source reason s).
Proof.
  intros Hinj HK Hi. unfold tombstone_member. cbn [en_members en_member_fts with_members]. apply indexed_dead; try done.
  unfold live. destruct (en_members s !! _); cbn [mr_Deleted]; apply String.eqb_neq, timeLayout_nonempty.
Qed.

Lemma delete_guild_indexed K guild s : indexed K s → indexed K (delete_guild_entities guild s).
Proof.
  intros [Hk Hr Hf]. unfold delete_guild_entities, keep_guild. split; cbn [en_members en_member_fts].
  - intros k [r [H _]%map_lookup_filter_Some]. apply Hk. eauto.
  - intros k r [H Hg]%map_lookup_filter_Some Hl. apply map_lookup_filter_Some. split; [by apply Hr|exact Hg].
  - intros n x [H Hg]%map_lookup_filter_Some. destruct (Hf n x H) as (-> & r & Hx & Hl). split; [done|]. exists r. split; [|done].
    apply map_lookup_filter_Some. done.
Qed.

(** ** A refresh *)

(** A listed member ends as listed, unless something newer is stored, which
    then stays. *)
Definition settled (started : Z) (m : MemberRecord) (s s' : entities) : Prop :=
  (member_newer (Some started) (member_key m) s = true ∧ en_members s' !! member_key m = en_members s !! member_key m)
  ∨ ∃ r, en_members s' !! member_key m = Some r ∧ member_carries m r.

Record merged_listing (started : Z) (members : list MemberRecord) (r : MemberRefreshMerge) (s s' : entities) : Prop := {
  ml_count : (Applied r + NewerSkipped r)%nat = length members;
  ml_others k : k ∉ member_key <$> members → same_at k s s';
  ml_settled m : m ∈ members → settled started m s s' }.

Lemma settled_frame started m s1 s2 s2' s3 :
  same_at (member_key m) s1 s2 → settled started m s2 s2' → same_at (member_key m) s2' s3 → settled started m s1 s3.
Proof.
  intros H1 [[Hn He]|(r & Hr & Hc)] H2; [left|right].
  - split; [by rewrite (same_at_newer _ _ _ _ H1)|]. destruct H1, H2. congruence.
  - exists r. split; [|done]. destruct H2. congruence.
Qed.

Lemma merged_app started l1 l2 r1 r2 s1 s2 s3 :
  NoDup (member_key <$> l1 ++ l2) → merged_listing started l1 r1 s1 s2 → merged_listing started l2 r2 s2 s3 →
  merged_listing started (l1 ++ l2) (add_merge r1 r2) s1 s3.
Proof.
  rewrite fmap_app. intros (_ & Hd & _)%NoDup_app [C1 O1 S1] [C2 O2 S2]. split.
  - rewrite length_app. simpl. lia.
  - intros k. rewrite fmap_app. intros [Hk1 Hk2]%not_elem_of_app. eapply same_at_trans; eauto.
  - intros m [Hm|Hm]%elem_of_app.
    + eapply settled_frame; [|by apply S1|]; [split; done|]. apply O2, Hd. by apply list_elem_of_fmap_2.
    + eapply settled_frame; [|by apply S2|split; done]. apply O1. intros H. apply (Hd _ H). by apply list_elem_of_fmap_2.
Qed.

Lemma merged_newer started now m s : member_newer (Some started) (member_key m) s = true →
  merged_listing started [m] (mkMerge 0 1) s (member_evidence now m s).
Proof.
  intros Hn. split; [done|intros; apply evidence_same|]. intros m' ->%list_elem_of_singleton. left. done.
Qed.

Lemma merged_upsert started now m s s' : upsertMemberTx profileText now m s = Some s' → merged_listing started [m] (mkMerge 1 0) s s'.
Proof.
  intros [Hsame Hrow]%upsert_member_cases. split; [done| |].
  - intros k Hk. apply Hsame. intros ->. apply Hk. by left.
  - intros m' ->%list_elem_of_singleton. right. destruct Hrow as [(r & Hc & -> & _)|(r & Hr & Hc & -> & _)]; exists r; split; try done. by rewrite lookup_insert_eq.
Qed.

Lemma merged_none started s : merged_listing started [] (mkMerge 0 0) s s.
Proof. split; [done|by split|by intros ? ?%elem_of_nil]. Qed.

Lemma merge_members_spec now started members s r s' :
  NoDup (member_key <$> members) → merge_members profileText now started members s = Some (r, s') → merged_listing started members r s s'.
Proof.
  revert s r. induction members as [|m members IH]; intros s r Hnd; simpl; [intros [= <- <-]; apply merged_none|].
  assert (NoDup (member_key <$> members)) as Hnd' by (apply NoDup_cons in Hnd; tauto).
  destruct (member_newer (Some started) (member_key m) s) eqn:En.
  - destruct (merge_members profileText now started members _) as [[r1 s1]|] eqn:E; [|done]. intros [= <- <-].
    apply (merged_app started [m] members (mkMerge 0 1) r1 s (member_evidence now m s)); [done|by apply merged_newer|by apply IH].
  - destruct (upsertMemberTx profileText _ m s) as [s1|] eqn:Eu; [|done]. cbn [mbind option_bind].
    destruct (merge_members profileText now started members _) as [[r1 s2]|] eqn:E; [|done]. intros [= <- <-].
    apply (merged_app started [m] members (mkMerge 1 0) r1 s s1); [done|by eapply merged_upsert|by apply IH].
Qed.

Lemma merge_members_indexed K now started members s r s' :
  no_collision K → (∀ m, m ∈ members → K (member_key m)) → merge_members profileText now started members s = Some (r, s') → indexed K s → indexed K s'.
Proof.
  intros Hinj. revert s r. induction members as [|m members IH]; intros s r HK; simpl; [by intros [= _ <-]|].
  assert (∀ m', m' ∈ members → K (member_key m')) as HK' by (intros; apply HK; by right).
  destruct (member_newer _ _ s).
  - destruct (merge_members profileText now started members _) as [[r1 s1]|] eqn:E; [|done]. intros [= _ <-] Hi. by apply (IH _ _ HK' E).
  - destruct (upsertMemberTx profileText _ m s) as [s1|] eqn:Eu; [|done]. cbn [mbind option_bind].
    destruct (merge_members profileText now started members _) as [[r1 s2]|] eqn:E; [|done]. intros [= _ <-] Hi. apply (IH _ _ HK' E).
    eapply upsert_indexed; [done| |done|done]. apply HK. by left.
Qed.

(** The batches applied before a failure are a prefix of the listing. *)
Lemma merge_batches_spec fuel clock started fails i members result s r e s' :
  (length members <= fuel)%nat → NoDup (member_key <$> members) →
  merge_batches profileText fuel clock started fails i members result s = ((r, e), s') →
  ∃ done rest r', members = done ++ rest ∧ r = add_merge result r' ∧ merged_listing started done r' s s' ∧ (e = None → rest = []).
Proof.
  revert i members result s. induction fuel as [|fuel IH]; intros i members result s Hlen Hnd; destruct members as [|m members]; cbn [merge_batches].
  1,3: intros [= <- <- <-]; exists [], [], (mkMerge 0 0); split_and!; [done| |apply merged_none|done]; destruct result; unfold add_merge; simpl; f_equal; lia.
  { simpl in Hlen. lia. }
  set (l := m :: members) in *. unfold mergeObservedMemberBatch.
  assert (NoDup (member_key <$> take memberRefreshBatchSize l)) as Hnd1 by (rewrite <- (take_drop memberRefreshBatchSize l), fmap_app in Hnd; by apply NoDup_app in Hnd as [? _]).
  assert (NoDup (member_key <$> drop memberRefreshBatchSize l)) as Hnd2 by (rewrite <- (take_drop memberRefreshBatchSize l), fmap_app in Hnd; apply NoDup_app in Hnd; tauto).
  assert (∀ e0, ((result, Some e0), s) = ((r, e), s') → ∃ done rest r', l = done ++ rest ∧ r = add_merge result r' ∧ merged_listing started done r' s s' ∧ (e = None → rest = [])) as Hfail.
  { intros e0 [= <- <- <-]. exists [], l, (mkMerge 0 0). split_and!; [done| |apply merged_none|done]. destruct result. unfold add_merge. simpl. f_equal; lia. }
  destruct (merge_members profileText (clock i) started (take memberRefreshBatchSize l) s) as [[r1 s1]|] eqn:E; [|apply Hfail]. destruct (fails i); [apply Hfail|]. intros H.
  destruct (IH (S i) (drop memberRefreshBatchSize l) (add_merge result r1) s1) as (done1 & rest & r' & Hl & -> & Hm & Hr); [|done|done|].
  { rewrite length_drop. unfold l in *. unfold memberRefreshBatchSize. simpl in *. lia. }
  exists (take memberRefreshBatchSize l ++ done1), rest, (add_merge r1 r'). split_and!.
  - by rewrite <- app_assoc, <- Hl, take_drop.
  - destruct result, r1, r'. unfold add_merge. simpl. f_equal; lia.
  - apply (merged_app started _ _ _ _ s s1); [|by eapply merge_members_spec|done].
    rewrite <- (take_drop memberRefreshBatchSize l), Hl, app_assoc, fmap_app in Hnd. by apply NoDup_app in Hnd as [? _].
  - done.
Qed.

Lemma merge_batches_indexed K fuel clock started fails i members result s res s' :
  no_collision K → (∀ m, m ∈ members → K (member_key m)) →
  merge_batches profileText fuel clock started fails i members result s = (res, s') → indexed K s → indexed K s'.
Proof.
  intros Hinj. revert i members result s. induction fuel as [|fuel IH]; intros i members result s HK; destruct members as [|m members]; cbn [merge_batches]; [by intros [= _ <-]..|].
  set (l := m :: members) in *. unfold mergeObservedMemberBatch.
  destruct (merge_members profileText (clock i) started (take memberRefreshBatchSize l) s) as [[r1 s1]|] eqn:E; [|by intros [= _ <-]]. destruct (fails i); [by intros [= _ <-]|]. intros H Hi.
  apply (IH _ (drop memberRefreshBatchSize l) _ _) in H; [done| |].
  - intros m' Hm'. apply HK. rewrite <- (take_drop memberRefreshBatchSize l). apply elem_of_app. by right.
  - eapply merge_members_indexed; [done| |done|done]. intros m' Hm'. apply HK. rewrite <- (take_drop memberRefreshBatchSize l). apply elem_of_app. by left.
Qed.

Lemma valid_listing guild seen members : invalid_members guild seen members = None →
  NoDup (mb_UserID <$> members) ∧ (∀ m, m ∈ members → mb_GuildID m = guild ∧ mb_UserID m ∉ seen).
Proof.
  revert seen. induction members as [|m members IH]; intros seen; simpl; [intros _; split; [apply NoDup_nil_2|by intros ? ?%elem_of_nil]|].
  destruct (_ || _) eqn:Ei; [done|]. apply orb_false_iff in Ei as [Hg _]. destruct (bool_decide _) eqn:Es; [done|]. propify. intros H.
  destruct (IH _ H) as [Hnd Hin]. split.
  - apply NoDup_cons. split; [|done]. intros (m' & Heq & Hm')%list_elem_of_fmap. destruct (Hin m' Hm') as [_ Hn]. apply Hn. rewrite <- Heq. by left.
  - intros m' [->|Hm']%elem_of_cons; [done|]. destruct (Hin m' Hm') as [? Hn]. split; [done|]. intros ?. apply Hn. by right.
Qed.

Lemma listing_keys guild members : invalid_members guild [] members = None → NoDup (member_key <$> members).
Proof.
  intros [Hnd _]%valid_listing. apply (NoDup_fmap_1 snd). rewrite <- list_fmap_compose. exact Hnd.
Qed.
End Members.

(** ** The theorems *)

(** the member search index follows the member rows: when the live members,
    and only they, have their own search row, this still holds after every
    upsert, removal and refresh of members and after a guild's data is deleted,
    on success and on error, as long as the members involved do not collide in
    the 63-bit hash that is their row id. *)
Theorem member_index_follows_rows `{JSONText} `{TimeParse} profile (K : member_id → Prop) (s : entities)
    (Hinj : no_collision K) (Hindex : members_indexed profile K (en_members s) (en_member_fts s)) :
  let ok (s' : entities) := members_indexed profile K (en_members s') (en_member_fts s') in
  (∀ now m started, K (member_key m) → ok (UpsertObservedMember profile now m started s).2) ∧
  (∀ now guild user source reason observed, K (guild, user) → ok (MarkObservedMemberDeleted now guild user source reason observed s).2) ∧
  (∀ clock fails ctx_err guild members started, (∀ m, m ∈ members → K (member_key m)) →
     ok (MergeObservedMembers profile clock fails ctx_err guild members started s).2) ∧
  ∀ guild, ok (delete_guild_entities guild s).
Proof.
  intros ok. split_and!.
  - intros now m started HK. unfold UpsertObservedMember. destruct (member_newer _ _ s); [done|]. unfold transact.
    destruct (upsertMemberTx profile now m s) as [s'|] eqn:E; [|done]. exact (upsert_indexed profile K now m s s' Hinj HK E Hindex).
  - intros now guild user source reason observed HK. unfold MarkObservedMemberDeleted. destruct (_ || _); [done|].
    destruct (member_newer _ _ s); [done|]. by apply tombstone_indexed.
  - intros clock fails ctx_err guild members started HK. unfold MergeObservedMembers. destruct started as [started|]; [|done].
    destruct (_ =? _)%string; [done|]. destruct (invalid_members _ _ _); [done|].
    destruct (merge_batches _ _ _ _ _ _ _ _ _) as [[r e] s'] eqn:E. pose proof (merge_batches_indexed profile K _ _ _ _ _ _ _ _ _ _ Hinj HK E Hindex).
    by destruct e.
  - intros guild. by apply delete_guild_indexed.
Qed.

(** a member refresh that returns without error has counted every listed
    member once, as applied or as skipped; each listed member is then stored as
    listed, or was skipped because something newer is stored, which stays. One
    that fails has done this for a prefix of the listing. Members that are not
    listed do not change: absence from a listing is no removal. *)
Theorem member_refresh_applies_listing `{JSONText} `{TimeParse} profile clock fails ctx_err guild members started (s s' : entities) r e :
  MergeObservedMembers profile clock fails ctx_err guild members (Some started) s = ((r, e), s') →
  ∃ done rest, members = done ++ rest ∧ merged_listing started done r s s' ∧ (e = None → rest = []).
Proof.
  unfold MergeObservedMembers. assert (∀ e0, (mkMerge 0 0, Some e0, s) = (r, e, s') → ∃ done rest, members = done ++ rest ∧ merged_listing started done r s s' ∧ (e = None → rest = [])) as Hnone.
  { intros e0 [= <- <- <-]. exists [], members. split_and!; [done|apply merged_none|done]. }
  destruct (guild =? "")%string; [apply Hnone|]. destruct (invalid_members guild [] members) eqn:Ei; [apply Hnone|].
  destruct (merge_batches _ _ _ _ _ _ _ _ _) as [[r1 e1] s1] eqn:E. intros Hres.
  destruct (merge_batches_spec profile _ _ _ _ _ _ _ _ _ _ _ (le_n _) (listing_keys _ _ Ei) E) as (done1 & rest & r' & Hl & Hr & Hm & He).
  exists done1, rest. assert (r1 = r') as -> by (rewrite Hr; destruct r'; unfold add_merge; simpl; f_equal; lia).
  destruct e1; injection Hres as <- <- <-; split_and!; try done. intros _. by apply He.
Qed.

(** ** Witnesses *)

Definition ada : MemberRecord := mkMemberRecord "9" "1" "ada" "Ada" "" "" "" "" false "" "[]" "".
Definition bob : MemberRecord := mkMemberRecord "9" "2" "bob" "" "" "" "" "" false "" "[]" "".
Definition no_entities : entities := mkEntities ∅ ∅ ∅ ∅ empty_receipts.
Definition refreshed : (MemberRefreshMerge * option err) * entities :=
  MergeObservedMembers (jt := no_json) (tp := parse_written) id (λ _, 30) (λ _, None) None "9" [ada; bob] (Some 20) no_entities.

Lemma member_refresh_applies_listing_witness :
  ∃ r, refreshed.1 = (r, None) ∧ (Applied r + NewerSkipped r = 2)%nat ∧ settled 20 ada no_entities refreshed.2 (tp := parse_written).
Proof.
  destruct refreshed as [[r e] s'] eqn:E. assert (e = None) as -> by (apply (f_equal (snd ∘ fst)) in E; vm_compute in E; congruence).
  destruct (member_refresh_applies_listing (H := no_json) (H0 := parse_written) id (λ _, 30) (λ _, None) None "9" [ada; bob] 20 no_entities s' r None E) as (done & rest & Hl & Hm & He).
  specialize (He eq_refl). subst rest. rewrite app_nil_r in Hl. subst done. exists r. split_and!; [done|apply Hm|]. apply (ml_settled _ _ _ _ _ Hm). by left.
Defined.

Lemma member_index_follows_rows_witness :
  members_indexed id (λ k, k = ("9", "1")%string) (en_members (UpsertObservedMember (jt := no_json) (tp := parse_written) id 30 ada None no_entities).2)
    (en_member_fts (UpsertObservedMember (jt := no_json) (tp := parse_written) id 30 ada None no_entities).2).
Proof.
  destruct (member_index_follows_rows (H := no_json) (H0 := parse_written) id (λ k, k = ("9", "1")%string) no_entities) as [Hup _].
  - by intros k k' -> ->.
  - split; [by intros k [? ?]|done|done].
  - by apply Hup.
Defined.
