(* ===== verification/RestClient.v ===== *)
(** * The paginated listings of the REST client

    internal/discord/client.go and member_budget.go: guilds, archived threads
    and members are read page by page, with the last item of a page as the
    cursor of the next; the permission check of a channel's history. One
    request is one step of the world; what discordgo answers, its rate-limit
    waits and the state of the context are the environment's. A page that holds
    a JSON null where a channel or a guild is due, on which the code panics, is
    not modelled; the members of a page may be null. *)
From S2P Require Import Prelude Snowflake Decimal Errors SyncState Discord World GoTime GoText.
Local Open Scope Z_scope.
Local Open Scope discrawl_scope.

Record User := mkUser { us_ID : string; us_Username : string; us_GlobalName : string; us_Discriminator : string; us_Bot : bool }.

(** [gm_rest] stands for the fields that are only marshalled, roles included. *)
Record Member := mkMember { gm_User : option User; gm_Nick : string; gm_Avatar : string; gm_JoinedAt : Z; gm_rest : string }.

Record UserGuild := mkUserGuild { ug_ID : string; ug_rest : string }.

Class RestEnv := {
  (** [session.UserGuilds(200, before, "")]. *)
  UserGuilds : nat → string → list UserGuild + err;
  (** [session.ThreadsArchived] or [ThreadsPrivateArchived] (channel, private,
      before, 100): the page and [HasMore]. *)
  ArchivedPage : nat → string → bool → option Z → (list Channel * bool) + err;
  (** [session.GuildMembers(guild, after, 1000)]. *)
  GuildMembersPage : nat → string → string → list (option Member) + err;
  (** [errors.As] a [RateLimitError]: its [RetryAfter]. *)
  rate_limited : err → option Z;
  ShouldRetryOnRateLimit : bool;
  (** How the wait for the request budget or for a retry ends. *)
  wait_outcome : nat → option err;
  (** [discordgo.New], [rest.Channel], [rest.User("@me")], [rest.UserChannelPermissions]. *)
  NewSession : nat → option err;
  FreshChannel : nat → string → Channel + err;
  SelfID : nat → string + err;
  ChannelPermissions : nat → string → string → Z + err }.

Record MemberEnumeration := mkEnumeration {
  me_Members : list Member; me_Pages : nat; me_LastUserID : string; me_Complete : bool; me_RateLimits : nat }.

Section Client.
Context {T : Type} {ENV : Env} {RE : RestEnv}.
Local Abbreviation M := (M T).

(** A request or a wait: the environment's answer to this step. *)
Definition ask {A} (f : nat → A) : M A := λ w, Some (f (w_step w), tick w).

(** ** Guilds *)

Fixpoint Guilds_loop (fuel : nat) (before : string) (out : list UserGuild) : M (list UserGuild + err) :=
  match fuel with
  | O => out_of_fuel
  | S fuel =>
      try! page := ask (λ i, UserGuilds i before) orelse (λ e, ret (inr e));
      match last page with
      | None => ret (inl out)
      | Some final =>
          let out := out ++ page in
          if (length page <? 200)%nat then ret (inl out)
          else if (ug_ID final =? "")%string then ret (inr (EText "guild page missing id"))
          else if (ug_ID final =? before)%string then ret (inr (EText "guild page cursor did not advance"))
          else Guilds_loop fuel (ug_ID final) out
      end
  end.

Definition Guilds (fuel : nat) : M (list UserGuild + err) := Guilds_loop fuel "" [].

(** ** Archived threads *)

(** The first channel of every id, in the order of the ids. *)
Fixpoint first_of_id (seen : list string) (cs : list Channel) : list Channel :=
  match cs with
  | [] => []
  | c :: cs => if bool_decide (ch_ID c ∈ seen) then first_of_id seen cs else c :: first_of_id (ch_ID c :: seen) cs
  end.
Definition id_le (a b : Channel) : Prop := string_le (ch_ID a) (ch_ID b).
#[export] Instance id_le_dec a b : Decision (id_le a b) := decide (String.leb (ch_ID a) (ch_ID b) = true).
Definition uniqueChannels (cs : list Channel) : list Channel := merge_sort id_le (first_of_id [] cs).

(** The threads of a page before the first one that [after] has covered. *)
Definition covered (after : Z) (c : Channel) : bool :=
  negb (after =? zeroTime) && match ch_Thread c with Some t => th_ArchiveTimestamp t <=? after | None => false end.
Fixpoint until_covered (after : Z) (page : list Channel) : bool * list Channel :=
  match page with
  | [] => (false, [])
  | c :: page => if covered after c then (true, []) else let '(reached, out) := until_covered after page in (reached, c :: out)
  end.

Fixpoint ThreadsArchived_loop (fuel : nat) (channelID : string) (private : bool) (after : Z) (before : option Z) (out : list Channel) :
    M (list Channel + err) :=
  match fuel with
  | O => out_of_fuel
  | S fuel =>
      try! (threads, hasMore) := ask (λ i, ArchivedPage i channelID private before) orelse (λ e, ret (inr e));
      match last threads with
      | None => ret (inl out)
      | Some oldest =>
          let '(reachedAfter, kept) := until_covered after threads in
          let out := out ++ kept in
          if reachedAfter || negb hasMore then ret (inl (uniqueChannels out))
          else match ch_Thread oldest with
               | None => ret (inl (uniqueChannels out))
               | Some metadata =>
                   let archiveAt := th_ArchiveTimestamp metadata in
                   if bool_decide (before = Some archiveAt)
                   then ret (inr (EText ("channel " ++ channelID ++ " archived thread page cursor did not advance")))
                   else ThreadsArchived_loop fuel channelID private after (Some archiveAt) out
               end
      end
  end.

Definition ThreadsArchived (fuel : nat) (channelID : string) (private : bool) (after : Z) : M (list Channel + err) :=
  ThreadsArchived_loop fuel channelID private after None [].

(** ** Members *)

Definition limited_once (r : MemberEnumeration) : MemberEnumeration :=
  mkEnumeration (me_Members r) (me_Pages r) (me_LastUserID r) (me_Complete r) (S (me_RateLimits r)).
Definition one_page (r : MemberEnumeration) : MemberEnumeration :=
  mkEnumeration (me_Members r) (S (me_Pages r)) (me_LastUserID r) (me_Complete r) (me_RateLimits r).
Definition completed (r : MemberEnumeration) : MemberEnumeration :=
  mkEnumeration (me_Members r) (me_Pages r) (me_LastUserID r) true (me_RateLimits r).
Definition with_page (ms : list Member) (last_ : string) (r : MemberEnumeration) : MemberEnumeration :=
  mkEnumeration (me_Members r ++ ms) (me_Pages r) last_ (me_Complete r) (me_RateLimits r).
(** [failure]: the counters of the enumeration and none of its members. *)
Definition without_members (r : MemberEnumeration) : MemberEnumeration :=
  mkEnumeration [] (me_Pages r) (me_LastUserID r) false (me_RateLimits r).

(** [memberPage]: [tries] bounds how often the provider asks to wait. *)
Fixpoint memberPage (tries : nat) (guildID after : string) (r : MemberEnumeration) : M ((list (option Member) + err) * MemberEnumeration) :=
  match tries with
  | O => out_of_fuel
  | S tries =>
      check! (ask wait_outcome) orelse (λ e, ret (inr e, r));
      check! ctx_Err orelse (λ e, ret (inr e, r));
      let! page := ask (λ i, GuildMembersPage i guildID after) in
      match page with
      | inl page => ret (inl page, r)
      | inr e =>
          match rate_limited e with
          | None => ret (inr e, r)
          | Some retryAfter =>
              let r := limited_once r in
              if negb ShouldRetryOnRateLimit || (retryAfter <=? 0) then ret (inr e, r)
              else
                check! (ask wait_outcome) orelse (λ e, ret (inr e, r));
                memberPage tries guildID after r
          end
      end
  end.

Definition memberUserID (m : option Member) : string :=
  match m with
  | Some m => match gm_User m with Some u => us_ID u | None => "" end
  | None => ""
  end.
Definition lastMemberUserID (page : list (option Member)) : string :=
  default ""%string (last (List.filter (λ id, negb (id =? "")%string) (memberUserID <$> page))).

(** The checks of a page's members: every id a canonical nonzero number above
    the one before. *)
Fixpoint page_members (guildID : string) (page : list (option Member)) (previous : Z) : (list Member * Z) + err :=
  match page with
  | [] => inl ([], previous)
  | m :: page =>
      let id := memberUserID m in
      if (id =? "")%string then inr (EText "guild member page missing user id")
      else match ParseUint id with
           | None => inr (EText "guild member page has invalid user id")
           | Some numeric =>
               if (numeric =? 0) || negb (FormatUint 20 numeric "" =? id)%string then inr (EText "guild member page has invalid user id")
               else if numeric <=? previous then inr (EText ("guild " ++ guildID ++ " member page cursor did not advance"))
               else match page_members guildID page numeric with
                    | inr e => inr e
                    | inl (ms, final) => inl (option_list m ++ ms, final)
                    end
           end
  end.

Fixpoint enumerate (fuel tries : nat) (guildID after : string) (previous : Z) (r : MemberEnumeration) :
    M (MemberEnumeration * option err) :=
  match fuel with
  | O => out_of_fuel
  | S fuel =>
      let! (page, r) := memberPage tries guildID after r in
      match page with
      | inr e => ret (without_members r, Some e)
      | inl page =>
          let r := one_page r in
          match page with
          | [] => ret (completed r, None)
          | _ =>
              match page_members guildID page previous with
              | inr e => ret (without_members r, Some e)
              | inl (ms, previous) =>
                  let nextAfter := lastMemberUserID page in
                  if (nextAfter =? "")%string then ret (without_members r, Some (EText ("guild " ++ guildID ++ " member page missing user id")))
                  else if (nextAfter =? after)%string
                       then ret (without_members r, Some (EText ("guild " ++ guildID ++ " member page cursor did not advance")))
                  else
                    let r := with_page ms nextAfter r in
                    if (length page <? 1000)%nat then ret (completed r, None)
                    else enumerate fuel tries guildID nextAfter previous r
              end
          end
      end
  end.

Definition GuildMemberEnumeration (fuel tries : nat) (guildID : string) : M (MemberEnumeration * option err) :=
  enumerate fuel tries guildID "" 0 (mkEnumeration [] 0 "" false 0).

(** ** May the bot read a channel's history *)

Definition PermissionViewChannel : Z := Z.shiftl 1 10.
Definition PermissionReadMessageHistory : Z := Z.shiftl 1 16.
Definition PermissionVoiceConnect : Z := Z.shiftl 1 20.

Definition required_permissions (c : Channel) : Z :=
  let required := Z.lor PermissionViewChannel PermissionReadMessageHistory in
  if (ch_Type c =? ChannelTypeGuildVoice) || (ch_Type c =? ChannelTypeGuildStageVoice)
  then Z.lor required PermissionVoiceConnect else required.

Definition CanReadHistory (channel : Channel) : M (bool + err) :=
  check! (ask NewSession) orelse (λ e, ret (inr e));
  try! fresh := ask (λ i, FreshChannel i (ch_ID channel)) orelse (λ e, ret (inr e));
  if negb (ch_ID fresh =? ch_ID channel)%string || negb (ch_GuildID fresh =? ch_GuildID channel)%string || negb (ch_Type fresh =? ch_Type channel)
  then ret (inr (EText "channel identity changed before history permission check"))
  else
    try! self := ask SelfID orelse (λ e, ret (inr e));
    if isThreadChannel (Some fresh) && (ch_ParentID fresh =? "")%string then ret (inr (EText "thread parent is unavailable"))
    else
      let permissionChannel := if isThreadChannel (Some fresh) then ch_ParentID fresh else ch_ID fresh in
      try! permissions := ask (λ i, ChannelPermissions i self permissionChannel) orelse (λ e, ret (inr e));
      let required := required_permissions channel in
      ret (inl (Z.land permissions required =? required)).
End Client.
