(* ===== verification/RestSafety.v ===== *)
(** * What a complete listing is worth

    The member enumeration and the archived threads of RestClient. Whatever the
    provider answers, an enumeration that reports success lists distinct users
    in the order of their ids, and one that fails hands out no member; against a
    provider that serves a fixed roster page by page, success means all of it;
    of an archive of threads a successful scan misses only threads archived at
    the very instant of one it lists. Nothing is listed twice, and without
    failures both succeed. *)
From S2P Require Import Prelude Snowflake Decimal Errors SyncState Discord World GoTime GoText Fixture RestClient.
Local Open Scope Z_scope.
Local Open Scope discrawl_scope.

(** The number of a member whose id passes the checks. *)
Definition member_number (m : option Member) : option Z :=
  let id := memberUserID m in
  match (if (id =? "")%string then None else ParseUint id) with
  | Some n => if (n =? 0) || negb (FormatUint 20 n "" =? id)%string then None else Some n
  | None => None
  end.
Definition number_of (m : Member) : Z := default 0 (member_number (Some m)).
Definition identified (m : Member) : Prop := is_Some (member_number (Some m)).

(** Users with valid ids, in the order of their ids. *)
Definition in_order (ms : list Member) : Prop :=
  Forall identified ms ∧ StronglySorted (λ a b, number_of a < number_of b) ms.

Lemma number_bounds m n : member_number m = Some n → 0 < n < 2 ^ 64.
Proof.
  unfold member_number, ParseUint. intros H. repeat case_step_in H; simplify_eq.
  match goal with H : (_ || _) = false |- _ => apply orb_false_iff in H as [H _] end.
  match goal with H : all_digits ?s = true |- _ => pose proof (digits_value_bounds s H) end. propify. lia.
Qed.

Lemma number_id m n : member_number m = Some n → memberUserID m ≠ ""%string ∧ ParseUint (memberUserID m) = Some n.
Proof.
  unfold member_number. intros H. destruct (String.eqb_spec (memberUserID m) "") as [|Hne]; [done|].
  destruct (ParseUint _); [|done]. destruct (_ || _); [done|]. by simplify_eq.
Qed.

Lemma numbered m n : member_number m = Some n → ∃ x, m = Some x ∧ number_of x = n ∧ identified x.
Proof.
  intros H. destruct m as [x|]; [|done]. exists x. unfold number_of, identified. rewrite H. split_and!; [done|done|by eexists].
Qed.

Lemma page_members_step guild m page previous :
  page_members guild (m :: page) previous
  = match member_number m with
    | None => inr (if (memberUserID m =? "")%string then EText "guild member page missing user id" else EText "guild member page has invalid user id")
    | Some n => if n <=? previous then inr (EText ("guild " ++ guild ++ " member page cursor did not advance"))
                else match page_members guild page n with
                     | inr e => inr e
                     | inl (ms, final) => inl (option_list m ++ ms, final)
                     end
    end.
Proof.
  cbn [page_members]. unfold member_number. destruct (_ =? "")%string; [done|]. destruct (ParseUint _) as [n|]; [|done].
  by destruct (_ || _).
Qed.

(** What the checks of a page establish, whatever the page. *)
Lemma page_members_sound guild page previous ms final :
  page_members guild page previous = inl (ms, final) →
  page = Some <$> ms ∧ in_order ms ∧ Forall (λ m, previous < number_of m) ms ∧ final = default previous (number_of <$> last ms).
Proof.
  revert previous ms final. induction page as [|m page IH]; intros previous ms final.
  { intros [= <- <-]. split_and!; [done|split; constructor|constructor|done]. }
  rewrite page_members_step. destruct (member_number m) as [n|] eqn:En; [|done]. destruct (Z.leb_spec n previous) as [|Hlt]; [done|].
  destruct (page_members guild page n) as [[ms1 f1]|e] eqn:Ep; [|done]. destruct (numbered m n En) as (x & -> & Hx & Hid).
  destruct (IH _ _ _ Ep) as (-> & [Hall Hs] & Habove & Hf). intros [= <- <-]. split_and!.
  - done.
  - split; [by constructor|]. constructor; [done|]. eapply Forall_impl; [exact Habove|]. cbn. intros; lia.
  - constructor; [lia|]. eapply Forall_impl; [exact Habove|]. cbn. intros; lia.
  - rewrite Hf. destruct ms1 as [|y ms1]; [by cbn|]. cbn [last]. change (last (x :: y :: ms1)) with (last (y :: ms1)).
    destruct (last (y :: ms1)) eqn:El; [done|]. by apply last_None in El.
Qed.

Lemma page_members_complete guild ms previous :
  in_order ms → Forall (λ m, previous < number_of m) ms →
  page_members guild (Some <$> ms) previous = inl (ms, default previous (number_of <$> last ms)).
Proof.
  intros [Hall Hs] Ha. revert previous Ha. induction ms as [|m ms IH]; intros previous Ha; [done|].
  rewrite fmap_cons, page_members_step. inversion_clear Hall as [|? ? [n Hn] Hall']. inversion_clear Hs as [|? ? Hs' Hm].
  inversion_clear Ha as [|? ? Hp _]. assert (number_of m = n) as En by (unfold number_of; by rewrite Hn).
  rewrite Hn. destruct (Z.leb_spec n previous); [lia|]. rewrite IH by (try done; by rewrite <- En). cbn [option_list app].
  do 2 f_equal. destruct ms as [|y ms]; [by cbn; rewrite En|]. change (last (m :: y :: ms)) with (last (y :: ms)).
  destruct (last (y :: ms)) eqn:El; [done|]. by apply last_None in El.
Qed.

Lemma ids_nonempty ms : Forall identified ms → List.filter (λ id, negb (id =? "")%string) (memberUserID <$> (Some <$> ms)) = memberUserID <$> (Some <$> ms).
Proof.
  induction 1 as [|m ms [n Hn] _ IH]; [done|]. destruct (number_id _ _ Hn) as [Hne _]. apply String.eqb_neq in Hne.
  cbn [fmap list_fmap List.filter]. by rewrite Hne, IH.
Qed.

Lemma last_page_id ms m : Forall identified ms → last ms = Some m → lastMemberUserID (Some <$> ms) = memberUserID (Some m).
Proof. intros Hall Hl. unfold lastMemberUserID. rewrite ids_nonempty by done. by rewrite !fmap_last, Hl. Qed.

(** ** Any provider *)

Section Sound.
Context {T : Type} {ENV : Env} {RE : RestEnv}.

(** Only the count of waits changes, and a page is an answer of the provider. *)
Definition same_listing (r r' : MemberEnumeration) : Prop :=
  me_Members r' = me_Members r ∧ me_Pages r' = me_Pages r ∧ me_LastUserID r' = me_LastUserID r ∧ me_Complete r' = me_Complete r.

Lemma memberPage_answer tries guild after r w :
  wp (T:=T) (memberPage tries guild after r)
     (λ '(p, r') _, same_listing r r' ∧ ∀ page, p = inl page → ∃ i, GuildMembersPage i guild after = inl page) w.
Proof.
  revert r w. induction tries as [|tries IH]; intros r w; [apply wp_fuel|]. cbn [memberPage].
  assert (same_listing r r ∧ same_listing r (limited_once r)) as [Hr Hl] by done.
  apply wp_bind with (R := λ _ _, True); [done|]. intros [e|] w1 _; [by apply wp_ret|].
  apply wp_bind with (R := λ _ _, True); [done|]. intros [e|] w2 _; [by apply wp_ret|].
  apply wp_bind with (R := λ p _, p = GuildMembersPage (w_step w2) guild after); [by intros ? ? [= <- <-]|]. intros p w3 Hp.
  destruct p as [page|e]; [apply wp_ret; split; [done|]; intros ? [= <-]; by eexists|].
  destruct (rate_limited e); [|by apply wp_ret]. destruct (_ || _); [by apply wp_ret|].
  apply wp_bind with (R := λ _ _, True); [done|]. intros [e'|] w4 _; [by apply wp_ret|].
  intros [p r'] w' E. destruct (IH (limited_once r) w4 _ _ E) as [[? ?] ?]. by split.
Qed.

(** The state of an enumeration between two pages. *)
Definition listed_so_far (after : string) (previous : Z) (r : MemberEnumeration) : Prop :=
  in_order (me_Members r) ∧ me_Complete r = false
  ∧ previous = default 0 (number_of <$> last (me_Members r))
  ∧ after = default ""%string ((λ m, memberUserID (Some m)) <$> last (me_Members r)) ∧ me_LastUserID r = after.

Definition enumerated (r : MemberEnumeration) (e : option err) : Prop :=
  match e with
  | Some _ => me_Members r = [] ∧ me_Complete r = false
  | None => in_order (me_Members r) ∧ me_Complete r = true
            ∧ me_LastUserID r = default ""%string ((λ m, memberUserID (Some m)) <$> last (me_Members r))
  end.

Lemma in_order_app a b : in_order a → in_order b → Forall (λ m, default 0 (number_of <$> last a) < number_of m) b → in_order (a ++ b).
Proof.
  intros [Ha Hsa] [Hb Hsb] Habove. split; [by apply Forall_app|]. apply StronglySorted_app_2; [|done|done].
  intros x y Hx Hy. pose proof (proj1 (Forall_forall _ _) Habove y Hy) as Hy'. cbn in Hy'.
  destruct a as [|a0 a] using rev_ind; [by apply elem_of_nil in Hx|]. rewrite last_snoc in Hy'. cbn in Hy'.
  apply elem_of_app in Hx as [Hx| ->%list_elem_of_singleton]; [|done].
  assert (number_of x < number_of a0) by (eapply StronglySorted_app_1_elem_of in Hsa; [exact Hsa|exact Hx|by apply list_elem_of_singleton]). lia.
Qed.

Lemma last_app_ne {A} (a b : list A) : b ≠ [] → last (a ++ b) = last b.
Proof. destruct b as [|x b] using rev_ind; [done|]. intros _. by rewrite app_assoc, !last_snoc. Qed.

(** One page more. *)
Lemma listed_page after previous r guild page ms final :
  listed_so_far after previous r → page ≠ [] → page_members guild page previous = inl (ms, final) →
  listed_so_far (lastMemberUserID page) final (with_page ms (lastMemberUserID page) r).
Proof.
  intros (Ho & Hc & Hp & Ha & Hl) Hne Hpm. destruct (page_members_sound _ _ _ _ _ Hpm) as (-> & Hms & Habove & ->).
  assert (ms ≠ []) as Hms' by (by intros ->). unfold listed_so_far. cbn [with_page me_Members me_Complete me_LastUserID].
  rewrite last_app_ne by done. destruct (last ms) as [m|] eqn:El; [|by apply last_None in El]. cbn [fmap option_fmap option_map default].
  destruct Hms as [Hall Hs]. rewrite (last_page_id _ _ Hall El). split_and!; try done.
  apply in_order_app; [done|done|]. by rewrite <- Hp.
Qed.

Lemma enumerate_sound fuel tries guild after previous r w :
  listed_so_far after previous r → wp (T:=T) (enumerate fuel tries guild after previous r) (λ '(r', e) _, enumerated r' e) w.
Proof.
  revert after previous r w. induction fuel as [|fuel IH]; intros after previous r w Hinv; [apply wp_fuel|]. cbn [enumerate].
  eapply wp_bind; [apply memberPage_answer|]. intros [p r1] w1 [(Hm & Hpg & Hl & Hc) _].
  destruct p as [page|e]; [|apply wp_ret; by split].
  destruct Hinv as (Ho & Hc0 & Hprev & Ha & Hl0). destruct page as [|m page].
  { apply wp_ret. cbn. rewrite Hm, Hl, Hl0. by split_and!. }
  destruct (page_members guild (m :: page) previous) as [[ms final]|e] eqn:Ep; [|apply wp_ret; by split].
  destruct (_ =? "")%string; [apply wp_ret; by split|]. destruct (_ =? after)%string; [apply wp_ret; by split|].
  assert (listed_so_far after previous (one_page r1)) as Hinv by (unfold listed_so_far; cbn; rewrite Hm, Hl, Hc; by split_and!).
  assert (m :: page ≠ []) as Hne by done. pose proof (listed_page _ _ _ _ _ _ _ Hinv Hne Ep) as Hnext.
  destruct (length (m :: page) <? 1000)%nat; [|by apply IH]. apply wp_ret. destruct Hnext as (Hord & _ & _ & Ea & El). split; [exact Hord|]. split; [done|]. etrans; [exact El|exact Ea].
Qed.

(** Each page moves the cursor up, and ids fit 64 bits. *)
Lemma enumerate_ends fuel tries guild after previous r w :
  (∀ after r w, is_Some (memberPage (T:=T) tries guild after r w)) →
  2 ^ 64 - previous < Z.of_nat fuel → previous < 2 ^ 64 →
  is_Some (enumerate (T:=T) fuel tries guild after previous r w).
Proof.
  intros Htries. revert after previous r w. induction fuel as [|fuel IH]; intros after previous r w Hf Hp; [lia|].
  cbn [enumerate]. unfold bind. destruct (Htries after r w) as [[[p r1] w1] ->].
  destruct p as [page|e]; [|by eexists]. destruct page as [|m page]; [by eexists|].
  destruct (page_members guild (m :: page) previous) as [[ms final]|e] eqn:Ep; [|by eexists].
  destruct (_ =? "")%string; [by eexists|]. destruct (_ =? after)%string; [by eexists|]. destruct (length (m :: page) <? 1000)%nat; [by eexists|].
  destruct (page_members_sound _ _ _ _ _ Ep) as (Em & [Hall _] & Ha & ->). destruct (last ms) as [x|] eqn:El; [|apply last_None in El; by subst ms].
  cbn [fmap option_fmap option_map default]. apply last_Some_elem_of in El as Hx.
  pose proof (proj1 (Forall_forall _ _) Ha x Hx) as Hlt. destruct (proj1 (Forall_forall _ _) Hall x Hx) as [n Hn].
  pose proof (number_bounds _ _ Hn). unfold number_of in *. rewrite Hn in *. cbn in *. apply IH; lia.
Qed.
End Sound.

Lemma distinct_users ms : in_order ms → NoDup ((λ m, memberUserID (Some m)) <$> ms).
Proof.
  intros [Hall Hs]. induction Hs as [|m ms Hs IH Hm]; [constructor|]. apply Forall_cons in Hall as [[n Hn] Hall']. rewrite fmap_cons.
  constructor; [|by apply IH]. intros (y & E & Hx)%list_elem_of_fmap. pose proof (proj1 (Forall_forall _ _) Hm y Hx) as Hlt.
  destruct (proj1 (Forall_forall _ _) Hall' y Hx) as [k Hk]. unfold number_of in Hlt. cbn beta in Hlt. rewrite Hn, Hk in Hlt. cbn in Hlt.
  destruct (number_id _ _ Hn) as [_ Hu]. destruct (number_id _ _ Hk) as [_ Hv]. rewrite E, Hv in Hu. injection Hu as ->. lia.
Qed.

(** ** A provider that serves a roster *)

(** The members of [guild] are [roster]; a request, when it is answered, is
    answered by the first thousand above the cursor. *)
Record serves_roster `{RestEnv} (guild : string) (roster : list Member) : Prop := {
  sr_order : in_order roster;
  sr_page i after page :
    GuildMembersPage i guild after = inl page →
    page = Some <$> take 1000 (List.filter (λ m, default 0 (ParseUint after) <? number_of m) roster) }.

(** Nothing fails and nothing has to wait. *)
Record always_answers `{Env} `{RestEnv} (guild : string) : Prop := {
  aa_wait i : wait_outcome i = None;
  aa_context i : context_err i = None;
  aa_page i after : ∃ page, GuildMembersPage i guild after = inl page }.

Lemma filter_above {A} (f : A → bool) a b :
  (∀ x, x ∈ a → f x = false) → (∀ x, x ∈ b → f x = true) → List.filter f (a ++ b) = b.
Proof.
  intros Ha Hb. rewrite List.filter_app.
  assert (List.filter f a = []) as -> by (induction a as [|x a IH]; [done|]; cbn; rewrite Ha by (by left); apply IH; intros y Hy; apply Ha; by right).
  induction b as [|x b IH]; [done|]. cbn. rewrite Hb by (by left). f_equal. apply IH. intros y Hy. apply Hb. by right.
Qed.

Section Served.
Context {T : Type} {ENV : Env} {RE : RestEnv}.
Context (guild : string) (roster : list Member) (HS : serves_roster guild roster).

(** The cursor of a state points at its last member. *)
Lemma cursor_number after previous r : listed_so_far after previous r → default 0 (ParseUint after) = previous.
Proof.
  intros ([Hall _] & _ & -> & -> & _). destruct (last (me_Members r)) as [m|] eqn:El; [|done]. cbn.
  apply last_Some_elem_of in El. destruct (proj1 (Forall_forall _ _) Hall m El) as [n Hn]. unfold number_of. rewrite Hn.
  destruct (number_id _ _ Hn) as [_ Hu]. cbn in Hu |- *. by rewrite Hu.
Qed.

Lemma next_page after previous r rest i page :
  listed_so_far after previous r → roster = me_Members r ++ rest →
  GuildMembersPage i guild after = inl page → page = Some <$> take 1000 rest.
Proof.
  intros Hinv Hr Hp. pose proof (sr_page _ _ HS _ _ _ Hp) as ->. rewrite (cursor_number _ _ _ Hinv). do 2 f_equal.
  destruct Hinv as (_ & _ & -> & _). destruct (sr_order _ _ HS) as [Hall Hs]. rewrite Hr in *. apply filter_above.
  - intros x Hx. apply Z.ltb_ge. destruct (last (me_Members r)) as [m|] eqn:El; [|apply last_None in El; rewrite El in Hx; by apply elem_of_nil in Hx].
    cbn. apply last_Some in El as [l El]. rewrite El in *. apply elem_of_app in Hx as [Hx| ->%list_elem_of_singleton]; [|lia].
    apply StronglySorted_app_1_l in Hs. assert (number_of x < number_of m); [|lia].
    eapply StronglySorted_app_1_elem_of in Hs; [exact Hs|done|by apply list_elem_of_singleton].
  - intros x Hx. apply Z.ltb_lt. destruct (last (me_Members r)) as [m|] eqn:El; cbn.
    + apply last_Some_elem_of in El. eapply StronglySorted_app_1_elem_of in Hs; [exact Hs|done|done].
    + apply Forall_app in Hall as [_ Hall]. destruct (proj1 (Forall_forall _ _) Hall x Hx) as [n Hn].
      pose proof (number_bounds _ _ Hn). unfold number_of. rewrite Hn. cbn. lia.
Qed.

Lemma in_order_sub a b : in_order (a ++ b) → in_order a ∧ in_order b.
Proof.
  intros [Ha Hs]. apply Forall_app in Ha as [? ?]. split; (split; [done|]); [by eapply StronglySorted_app_1_l|by eapply StronglySorted_app_1_r].
Qed.

(** The page after a state, and the state after the page. *)
Lemma served_page after previous r rest i page :
  listed_so_far after previous r → roster = me_Members r ++ rest → GuildMembersPage i guild after = inl page → page ≠ [] →
  page_members guild page previous = inl (take 1000 rest, default previous (number_of <$> last (take 1000 rest)))
  ∧ lastMemberUserID page ≠ ""%string ∧ lastMemberUserID page ≠ after.
Proof.
  intros Hinv Hr Hp Hne. pose proof (next_page _ _ _ _ _ _ Hinv Hr Hp) as ->. pose proof (cursor_number _ _ _ Hinv) as Hcur.
  pose proof (sr_order _ _ HS) as Ho. rewrite Hr in Ho. destruct (in_order_sub _ _ Ho) as [_ Hrest].
  rewrite <- (take_drop 1000 rest) in Hrest. destruct (in_order_sub _ _ Hrest) as [Hpage _].
  assert (Forall (λ m, previous < number_of m) (take 1000 rest)) as Ha.
  { apply Forall_forall. intros x Hx. assert (Some x ∈ Some <$> take 1000 rest) as Hx' by (by apply list_elem_of_fmap_2).
    rewrite (sr_page _ _ HS _ _ _ Hp) in Hx'. apply list_elem_of_fmap in Hx' as (y & [= <-] & Hy).
    apply elem_of_take_in, elem_of_lfilter in Hy as [_ Hy]. rewrite Hcur in Hy. by apply Z.ltb_lt in Hy. }
  split; [by apply page_members_complete|].
  destruct (last (take 1000 rest)) as [m|] eqn:El; [|apply last_None in El; by rewrite El in Hne].
  destruct Hpage as [Hall _]. rewrite (last_page_id _ _ Hall El). apply last_Some_elem_of in El.
  destruct (proj1 (Forall_forall _ _) Hall m El) as [n Hn]. destruct (number_id _ _ Hn) as [Hid Hu]. split; [done|].
  intros E. rewrite <- E, Hu in Hcur. pose proof (proj1 (Forall_forall _ _) Ha m El) as Hlt. cbn in Hlt.
  unfold number_of in Hlt. rewrite Hn in Hlt. cbn in Hlt, Hcur. lia.
Qed.

Lemma enumerate_served fuel tries after previous r rest w :
  listed_so_far after previous r → roster = me_Members r ++ rest →
  wp (T:=T) (enumerate fuel tries guild after previous r) (λ '(r', e) _, e = None → me_Members r' = roster) w.
Proof.
  revert after previous r rest w. induction fuel as [|fuel IH]; intros after previous r rest w Hinv Hr; [apply wp_fuel|]. cbn [enumerate].
  eapply wp_bind; [apply memberPage_answer|]. intros [p r1] w1 [(Hm & Hpg & Hl & Hc) Hpage].
  destruct p as [page|e]; [|by apply wp_ret]. destruct (Hpage page eq_refl) as [i Hi].
  pose proof (next_page _ _ _ _ _ _ Hinv Hr Hi) as Epage.
  destruct page as [|m page].
  { apply wp_ret. intros _. cbn. destruct rest as [|x rest]; [by rewrite Hm, Hr, app_nil_r|done]. }
  assert (m :: page ≠ []) as Hne by done. destruct (served_page _ _ _ _ _ _ Hinv Hr Hi Hne) as (Epm & _ & _). rewrite Epm.
  destruct (_ =? "")%string; [by apply wp_ret|]. destruct (_ =? after)%string; [by apply wp_ret|].
  assert (listed_so_far after previous (one_page r1)) as Hinv1 by (destruct Hinv as (?&?&?&?&?); unfold listed_so_far; cbn; rewrite Hm, Hl, Hc; by split_and!).
  pose proof (listed_page _ _ _ _ _ _ _ Hinv1 Hne Epm) as Hnext.
  destruct (Nat.ltb_spec (length (m :: page)) 1000) as [Hlt|Hge].
  - apply wp_ret. intros _. cbn. rewrite Hm, Hr. f_equal. rewrite Epage, length_fmap in Hlt. rewrite take_ge; [done|].
    rewrite length_take in Hlt. lia.
  - apply (IH _ _ _ (drop 1000 rest) _ Hnext). cbn [with_page me_Members one_page]. by rewrite Hm, Hr, <- app_assoc, take_drop.
Qed.

Lemma memberPage_answers tries after r w : always_answers guild → (0 < tries)%nat →
  ∃ i page w', memberPage (T:=T) tries guild after r w = Some ((inl page, r), w') ∧ GuildMembersPage i guild after = inl page.
Proof.
  intros HA Ht. destruct tries as [|tries]; [lia|]. destruct (aa_page _ HA (S (S (w_step w))) after) as [page Hp].
  exists (S (S (w_step w))), page. cbn. unfold bind, ask, ctx_Err, ret. rewrite (aa_wait _ HA), (aa_context _ HA). cbn. rewrite Hp. by eexists.
Qed.

Lemma enumerate_succeeds fuel tries after previous r rest w :
  always_answers guild → (0 < tries)%nat → listed_so_far after previous r → roster = me_Members r ++ rest → (length rest < 1000 * fuel)%nat →
  ∃ r' w', enumerate (T:=T) fuel tries guild after previous r w = Some ((r', None), w').
Proof.
  intros HA Ht. revert after previous r rest w. induction fuel as [|fuel IH]; intros after previous r rest w Hinv Hr Hf; [lia|].
  cbn [enumerate]. unfold bind. destruct (memberPage_answers tries after r w HA Ht) as (i & page & w1 & -> & Hi).
  pose proof (next_page _ _ _ _ _ _ Hinv Hr Hi) as Epage. destruct page as [|m page]; [by eexists _, _|].
  assert (m :: page ≠ []) as Hne by done. destruct (served_page _ _ _ _ _ _ Hinv Hr Hi Hne) as (Epm & Hid & Hmoved). rewrite Epm.
  apply String.eqb_neq in Hid, Hmoved. rewrite Hid, Hmoved.
  destruct (Nat.ltb_spec (length (m :: page)) 1000) as [Hlt|Hge]; [by eexists _, _|].
  assert (listed_so_far after previous (one_page r)) as Hinv1 by done.
  apply (IH _ _ _ (drop 1000 rest) _ (listed_page _ _ _ _ _ _ _ Hinv1 Hne Epm)).
  - cbn [with_page me_Members one_page]. by rewrite Hr, <- app_assoc, take_drop.
  - rewrite Epage, length_fmap, length_take in Hge. rewrite length_drop. lia.
Qed.
End Served.

(** ** A provider that serves an archive of threads *)

Definition archived_at (c : Channel) : Z := match ch_Thread c with Some t => th_ArchiveTimestamp t | None => 0 end.
Definition before_cursor (before : option Z) (c : Channel) : bool :=
  match before with Some t => archived_at c <? t | None => true end.

(** The archived threads of a channel as the provider documents it: latest
    first; a page is a nonempty prefix of what is older than the cursor, and says
    whether there is more. Several threads may be archived at one instant. *)
Record serves_archive `{RestEnv} (channelID : string) (private : bool) (archive : list Channel) : Prop := {
  sa_order : StronglySorted (λ a b, archived_at b <= archived_at a) archive;
  sa_threads c : c ∈ archive → is_Some (ch_Thread c);
  sa_ids : NoDup (ch_ID <$> archive);
  sa_page i before page more :
    ArchivedPage i channelID private before = inl (page, more) →
    ∃ n, (0 < n)%nat ∧ page = take n (List.filter (before_cursor before) archive)
         ∧ more = (n <? length (List.filter (before_cursor before) archive))%nat }.

(** Another thread, archived at the same instant. *)
Definition twin (d c : Channel) : Prop := ch_ID d ≠ ch_ID c ∧ archived_at d = archived_at c.

Lemma first_of_id_all seen cs : NoDup (ch_ID <$> cs) → (∀ c, c ∈ cs → ch_ID c ∉ seen) → first_of_id seen cs = cs.
Proof.
  revert seen. induction cs as [|c cs IH]; intros seen Hn Hs; [done|]. cbn. rewrite fmap_cons in Hn. apply NoDup_cons in Hn as [Hc Hn].
  rewrite bool_decide_eq_false_2 by (apply Hs; by left). f_equal. apply IH; [done|]. intros x Hx [E|E]%elem_of_cons.
  - apply Hc. rewrite <- E. by apply list_elem_of_fmap_2.
  - by apply (Hs x); [right|].
Qed.

(** A thread that is not newer than a covered one is covered. *)
Lemma covered_older after x c : covered after x = true → is_Some (ch_Thread c) → archived_at c <= archived_at x → covered after c = true.
Proof.
  unfold covered, archived_at. intros Hx [t ->] Hle. apply andb_true_iff in Hx as [-> Hx]. destruct (ch_Thread x); [|done]. cbn. propify. apply Z.leb_le. lia.
Qed.

(** Reading up to the first covered thread leaves out the covered ones. *)
Lemma until_covered_filter after page :
  StronglySorted (λ a b, archived_at b <= archived_at a) page → (∀ c, c ∈ page → is_Some (ch_Thread c)) →
  until_covered after page = (existsb (covered after) page, List.filter (λ c, negb (covered after c)) page).
Proof.
  intros Hs Ht. induction Hs as [|c page Hs IH Hc]; [done|].
  cbn [until_covered existsb List.filter]. destruct (covered after c) eqn:Ec; cbn [negb orb].
  - f_equal. symmetry. rewrite <- (app_nil_r page). apply filter_above; [|by intros ? ?%elem_of_nil]. intros x Hx. apply negb_false_iff.
    apply (covered_older after c); [done|by apply Ht; right|]. by apply (proj1 (Forall_forall _ _) Hc).
  - by rewrite IH by (intros; apply Ht; by right).
Qed.

Section Archive.
Context {T : Type} {ENV : Env} {RE : RestEnv}.
Context (channelID : string) (private : bool) (archive : list Channel) (HA : serves_archive channelID private archive).

Abbreviation older before := (List.filter (before_cursor before) archive).

(** Threads of the archive, each once, none of them covered. *)
Definition uncovered_threads (after : Z) (seen : list Channel) : Prop :=
  NoDup (ch_ID <$> seen) ∧ ∀ c, c ∈ seen → c ∈ archive ∧ covered after c = false.
Definition seen_or_twin (seen : list Channel) (c : Channel) : Prop := c ∈ seen ∨ ∃ d, d ∈ seen ∧ twin d c.

(** Between two pages: what the cursor has passed was read, up to threads of
    the instant of one that was. *)
Record archive_read (after : Z) (before : option Z) (seen : list Channel) : Prop := {
  ar_threads : uncovered_threads after seen;
  ar_passed c : c ∈ seen → before_cursor before c = false;
  ar_all c : c ∈ archive → before_cursor before c = false → seen_or_twin seen c }.

(** The result of a listing. *)
Record archive_listed (after : Z) (out : list Channel) : Prop := {
  al_threads : uncovered_threads after out;
  al_all c : c ∈ archive → covered after c = false → seen_or_twin out c }.

Lemma archive_id c d : c ∈ archive → d ∈ archive → ch_ID c = ch_ID d → c = d.
Proof. apply NoDup_key_inj, (sa_ids _ _ _ HA). Qed.

Lemma seen_or_twin_app a b c : seen_or_twin a c → seen_or_twin (a ++ b) c.
Proof. intros [H|(d & H & Ht)]; [left|right; exists d; split; [|done]]; apply elem_of_app; by left. Qed.

(** What a page adds to what was read before it. *)
Lemma read_and_page after before seen page :
  archive_read after before seen → NoDup (ch_ID <$> page) → (∀ c, c ∈ page → c ∈ older before ∧ covered after c = false) →
  uncovered_threads after (seen ++ page).
Proof.
  intros [[Hn Hs] Hp _] Hnp Hpage. split.
  - rewrite fmap_app. apply NoDup_app. split_and!; [done| |done]. intros id (c & -> & Hc)%list_elem_of_fmap (d & E & Hd)%list_elem_of_fmap.
    destruct (Hpage d Hd) as [[Hda Hdb]%elem_of_lfilter _]. assert (c = d) as -> by (apply archive_id; [by apply Hs|done|done]).
    rewrite (Hp d Hc) in Hdb. done.
  - intros c [Hc|Hc]%elem_of_app; [by apply Hs|]. destruct (Hpage c Hc) as [[? _]%elem_of_lfilter ?]. done.
Qed.

(** A page and what lies behind it. *)
Lemma page_facts before n :
  let page := take n (older before) in
  StronglySorted (λ a b, archived_at b <= archived_at a) page ∧ NoDup (ch_ID <$> page) ∧ (∀ c, c ∈ page → c ∈ older before ∧ c ∈ archive ∧ is_Some (ch_Thread c))
  ∧ (∀ x y, x ∈ page → y ∈ drop n (older before) → archived_at y <= archived_at x ∧ ch_ID x ≠ ch_ID y).
Proof.
  intros page. pose proof (filter_sorted _ (before_cursor before) _ (sa_order _ _ _ HA)) as Hs.
  pose proof (NoDup_fmap_lfilter ch_ID (before_cursor before) _ (sa_ids _ _ _ HA)) as Hn. rewrite <- (take_drop n (older before)) in Hs, Hn.
  rewrite fmap_app in Hn. apply NoDup_app in Hn as (Hn & Hdis & _). split_and!; [by eapply StronglySorted_app_1_l|done| |].
  - intros c Hc%elem_of_take_in. split; [done|]. apply elem_of_lfilter in Hc as [Hc _]. split; [done|by apply (sa_threads _ _ _ HA)].
  - intros x y Hx Hy. split; [by eapply (StronglySorted_app_1_elem_of (λ a b, archived_at b <= archived_at a)) in Hs|].
    intros E. apply (Hdis (ch_ID x)); [by apply list_elem_of_fmap_2|]. rewrite E. by apply list_elem_of_fmap_2.
Qed.

(** The last thread of a page is the oldest. *)
Lemma page_oldest page oldest c :
  StronglySorted (λ a b, archived_at b <= archived_at a) page → last page = Some oldest → c ∈ page → archived_at oldest <= archived_at c.
Proof.
  intros Hs [l ->]%last_Some [Hc| ->%list_elem_of_singleton]%elem_of_app; [|lia].
  eapply (StronglySorted_app_1_elem_of (λ a b, archived_at b <= archived_at a)) in Hs; [exact Hs|done|by apply list_elem_of_singleton].
Qed.

(** One page of an archive read so far. *)
Lemma archive_page after before seen i threads more oldest :
  archive_read after before seen → ArchivedPage i channelID private before = inl (threads, more) → last threads = Some oldest →
  let '(reached, kept) := until_covered after threads in
  (reached || negb more = true → archive_listed after (seen ++ kept))
  ∧ (reached || negb more = false →
     archive_read after (Some (archived_at oldest)) (seen ++ kept)
     ∧ before ≠ Some (archived_at oldest) ∧ (length (older (Some (archived_at oldest))) < length (older before))%nat) ∧ is_Some (ch_Thread oldest).
Proof.
  intros Hread Hp Hl. destruct (sa_page _ _ _ HA _ _ _ _ Hp) as (n & Hn & -> & ->). destruct (page_facts before n) as (Hs & Hnd & Hin & Hbehind).
  rewrite until_covered_filter by (try done; intros c Hc; by apply Hin). set (kept := List.filter (λ c, negb (covered after c)) _).
  assert (Hkept : uncovered_threads after (seen ++ kept)).
  { apply (read_and_page _ before); [done|unfold kept; apply NoDup_fmap_lfilter, Hnd|]. intros c [Hc Hu]%elem_of_lfilter. split; [by apply Hin|by apply negb_true_iff]. }
  assert (Hpage : ∀ c, c ∈ take n (older before) → covered after c = false → seen_or_twin (seen ++ kept) c).
  { intros c Hc Hu. left. apply elem_of_app. right. apply elem_of_lfilter. by rewrite Hu. }
  apply last_Some_elem_of in Hl as Ho. split_and!; [| |by apply Hin].
  - intros Hdone. split; [done|]. intros c Hc Hu. destruct (before_cursor before c) eqn:Eb; [|by apply seen_or_twin_app, (ar_all _ _ _ Hread)].
    assert (c ∈ older before) as [Ht|Hd]%(elem_of_take_or_drop n) by (by apply elem_of_lfilter); [by apply Hpage|exfalso].
    apply orb_true_iff in Hdone as [(x & Hx & Hcov)%existsb_exists|Hmore%negb_true_iff%Nat.ltb_ge].
    + apply list_elem_of_In in Hx. rewrite (covered_older after x c) in Hu; [done|done|by apply (sa_threads _ _ _ HA)|by apply Hbehind].
    + by rewrite drop_ge, elem_of_nil in Hd.
  - intros [He Hmore]%orb_false_iff. assert (kept = take n (older before)) as ->.
    { apply (filter_above _ []); [by intros ? ?%elem_of_nil|]. intros c Hc. apply negb_true_iff, not_true_iff_false. intros Ec.
      apply not_true_iff_false in He. apply He, existsb_exists. exists c. split; [by apply list_elem_of_In|done]. }
    assert (Hob : before_cursor before oldest = true) by (destruct (Hin oldest Ho) as [[_ Hb]%elem_of_lfilter _]; exact Hb).
    assert (Hpast : ∀ c, before_cursor before c = false → before_cursor (Some (archived_at oldest)) c = false).
    { intros c. revert Hob. unfold before_cursor. destruct before; [|done]. intros ? ?. propify. apply Z.ltb_ge. lia. }
    split_and!.
    + split; [done| |].
      * intros c [Hc|Hc]%elem_of_app; [by apply Hpast, (ar_passed _ _ _ Hread)|]. apply Z.ltb_ge. by eapply page_oldest.
      * intros c Hc Hb. destruct (before_cursor before c) eqn:Eb; [|by apply seen_or_twin_app, (ar_all _ _ _ Hread)].
        assert (c ∈ older before) as [Ht|Hd]%(elem_of_take_or_drop n) by (by apply elem_of_lfilter); [left; apply elem_of_app; by right|right].
        exists oldest. split; [apply elem_of_app; by right|]. destruct (Hbehind oldest c Ho Hd) as [Hle Hid]. split; [done|]. apply Z.ltb_ge in Hb. lia.
    + intros ->. cbn in Hob. propify. lia.
    + assert (older (Some (archived_at oldest)) = List.filter (before_cursor (Some (archived_at oldest))) (older before)) as ->.
      { clear -Hpast. induction archive as [|c l IH]; [done|]. cbn [List.filter]. destruct (before_cursor before c) eqn:Eb; cbn [List.filter]; rewrite IH; [done|].
        by rewrite Hpast. }
      eapply filter_shortens; [by apply Hin|]. apply Z.ltb_ge. lia.
Qed.

Lemma unique_listing after out : uncovered_threads after out → uniqueChannels out ≡ₚ out.
Proof.
  intros [Hn _]. unfold uniqueChannels. rewrite first_of_id_all; [apply merge_sort_Permutation|done|]. intros c _. apply not_elem_of_nil.
Qed.

Lemma archive_listed_perm after out out' : out' ≡ₚ out → archive_listed after out → archive_listed after out'.
Proof.
  intros E [[Hn Hs] Ha]. split; [split; [by rewrite E|intros c; rewrite E; apply Hs]|].
  intros c Hc Hu. destruct (Ha c Hc Hu) as [H|(d & H & ?)]; [left; by rewrite E|right; exists d; by rewrite E].
Qed.

Lemma archive_start after : archive_read after None [].
Proof. split; [split; [apply NoDup_nil_2|]|..]; try done; by intros c ?%elem_of_nil. Qed.

Lemma archive_ends fuel after before seen w :
  archive_read after before seen →
  wp (T:=T) (ThreadsArchived_loop fuel channelID private after before seen) (λ r _, ∀ out, r = inl out → archive_listed after out) w.
Proof.
  revert before seen w. induction fuel as [|fuel IH]; intros before seen w Hread; [apply wp_fuel|]. cbn [ThreadsArchived_loop].
  apply wp_bind with (R := λ p w', p = ArchivedPage (w_step w) channelID private before); [by intros ? ? [= <- <-]|].
  intros p w1 Hp. symmetry in Hp. destruct p as [[threads more]|e]; [|by apply wp_ret].
  destruct (last threads) as [oldest|] eqn:El.
  - pose proof (archive_page after before seen _ threads more oldest Hread Hp El) as Hpage.
    destruct (until_covered after threads) as [reached kept]. destruct Hpage as (Hdone & Hgo & [t Ht]).
    destruct (reached || negb more).
    + apply wp_ret. intros out [= <-]. specialize (Hdone eq_refl). eapply archive_listed_perm; [|exact Hdone]. eapply unique_listing, Hdone.
    + destruct (Hgo eq_refl) as (Hread' & _). rewrite Ht. case_bool_decide as Hb; [by apply wp_ret|].
      unfold archived_at in Hread'. rewrite Ht in Hread'. by apply IH.
  - apply last_None in El as ->. apply wp_ret. intros out [= <-]. split; [apply Hread|]. intros c Hc _. apply (ar_all _ _ _ Hread); [done|].
    destruct (sa_page _ _ _ HA _ _ _ _ Hp) as (n & Hn & Ep & _). destruct (before_cursor before c) eqn:Eb; [|done]. exfalso.
    assert (c ∈ older before) as Hin by (by apply elem_of_lfilter). destruct (older before); [by apply elem_of_nil in Hin|]. destruct n; [lia|done].
Qed.

Lemma archive_succeeds fuel after before seen w :
  (∀ i before, ∃ answer, ArchivedPage i channelID private before = inl answer) →
  archive_read after before seen → (length (older before) < fuel)%nat →
  ∃ out w', ThreadsArchived_loop (T:=T) fuel channelID private after before seen w = Some (inl out, w').
Proof.
  intros Hok. revert before seen w. induction fuel as [|fuel IH]; intros before seen w Hread Hf; [lia|].
  cbn [ThreadsArchived_loop]. unfold bind, ask. destruct (Hok (w_step w) before) as [[threads more] Hp]. rewrite Hp.
  destruct (last threads) as [oldest|] eqn:El; [|by eexists _, _].
  pose proof (archive_page after before seen _ threads more oldest Hread Hp El) as Hpage.
  destruct (until_covered after threads) as [reached kept]. destruct Hpage as (_ & Hgo & [t Ht]).
  destruct (reached || negb more); [by eexists _, _|]. destruct (Hgo eq_refl) as (Hread' & Hne & Hlen).
  assert (archived_at oldest = th_ArchiveTimestamp t) as Et by (unfold archived_at; by rewrite Ht). rewrite Et in *.
  rewrite Ht, bool_decide_eq_false_2 by done. apply IH; [done|lia].
Qed.

(** Without twins nothing is missing. *)
Lemma archive_exact after out :
  NoDup (archived_at <$> archive) → archive_listed after out → out ≡ₚ List.filter (λ c, negb (covered after c)) archive.
Proof.
  intros Hn [[Hno Hs] Ha]. apply NoDup_Permutation; [by eapply NoDup_fmap_1|eapply NoDup_fmap_1, NoDup_fmap_lfilter, (sa_ids _ _ _ HA)|].
  intros c. rewrite elem_of_lfilter, negb_true_iff. split; [apply Hs|]. intros [Hc Hu]. destruct (Ha c Hc Hu) as [?|(d & Hd & Hid & Hat)]; [done|].
  destruct Hid. f_equal. apply (NoDup_key_inj archived_at archive); [done|by apply Hs|done|done].
Qed.
End Archive.

(** ** Waiting for the budget *)

(** Of any [tries] requests for a page, four steps apart, one is not told to
    wait and retry. *)
Definition told_to_wait `{RestEnv} (i : nat) (guild after : string) : bool :=
  match GuildMembersPage i guild after with
  | inl _ => false
  | inr e => match rate_limited e with Some d => ShouldRetryOnRateLimit && (0 <? d) | None => false end
  end.
Definition waits_bounded `{RestEnv} (tries : nat) (guild : string) : Prop :=
  ∀ i after, ∃ k, (k < tries)%nat ∧ told_to_wait (i + 4 * k) guild after = false.

Lemma memberPage_ends {T : Type} {ENV : Env} {RE : RestEnv} tries guild after r (w : world T) :
  (∃ k, (k < tries)%nat ∧ told_to_wait (S (S (w_step w)) + 4 * k) guild after = false) → is_Some (memberPage tries guild after r w).
Proof.
  revert r w. induction tries as [|tries IH]; intros r w (k & Hk & Hw); [lia|]. cbn [memberPage]. unfold bind, ask, ctx_Err.
  destruct (wait_outcome _); [by eexists|]. destruct (context_err _); [by eexists|]. cbn [w_step tick].
  unfold told_to_wait in Hw. destruct (GuildMembersPage (S (S (w_step w))) guild after) as [page|e] eqn:Ep; [by eexists|].
  destruct (rate_limited e) as [d|] eqn:Ed; [|by eexists]. destruct (negb ShouldRetryOnRateLimit || (d <=? 0)) eqn:Er; [by eexists|].
  destruct (wait_outcome _); [by eexists|]. apply IH. destruct k as [|k].
  - rewrite Nat.mul_0_r, Nat.add_0_r, Ep, Ed in Hw. apply orb_false_iff in Er as [Er1 Er2]. apply negb_false_iff in Er1. rewrite Er1 in Hw. propify. cbn in Hw. propify. lia.
  - exists k. split; [lia|]. cbn [w_step tick]. unfold told_to_wait. by replace (S (S (S (S (S (S (w_step w)))))) + 4 * k)%nat with (S (S (w_step w)) + 4 * S k)%nat by lia.
Qed.

(** ** Properties *)

(** C12: an enumeration of a guild's members, against a provider that
    serves a fixed roster a thousand at a time and may fail, be slow or make
    the client wait at any request, either reports success and hands out
    exactly the roster, each member once, in the order of the numeric ids, as
    complete; or it reports an error and hands out no member. When every
    request is answered, fuel for one page more than the roster fills is enough
    and it succeeds. *)
Theorem enumeration_lists_the_roster {T : Type} `{Env} `{RestEnv} guild roster fuel tries (w : world T) :
  serves_roster guild roster →
  (∀ r e w', GuildMemberEnumeration fuel tries guild w = Some ((r, e), w') →
     match e with
     | None => me_Members r = roster ∧ me_Complete r = true ∧ NoDup ((λ m, memberUserID (Some m)) <$> roster)
     | Some _ => me_Members r = [] ∧ me_Complete r = false
     end)
  ∧ (always_answers guild → (0 < tries)%nat → (length roster < 1000 * fuel)%nat →
     ∃ r w', GuildMemberEnumeration fuel tries guild w = Some ((r, None), w')).
Proof.
  intros HS. assert (listed_so_far "" 0 (mkEnumeration [] 0 "" false 0)) as Hinit by (split; [split; constructor|done]).
  split.
  - intros r e w' E. pose proof (enumerate_sound _ _ _ _ _ _ _ Hinit _ _ E) as Hs. destruct e as [e|]; [done|].
    destruct Hs as (Hord & Hc & _). pose proof (enumerate_served _ _ HS _ _ _ _ _ roster _ Hinit eq_refl _ _ E eq_refl) as Er.
    split_and!; [done|done|]. rewrite <- Er. by apply distinct_users.
  - intros HA Ht Hf. by apply (enumerate_succeeds _ _ HS _ _ _ _ _ roster).
Qed.

(** an enumeration ends against every provider that does not tell
    it to wait for ever: the ids of the members it accepts increase from page
    to page and fit 64 bits, so a provider that repeats pages, reorders them or
    invents ids is stopped with an error. *)
Theorem enumeration_ends {T : Type} `{Env} `{RestEnv} guild tries :
  waits_bounded tries guild → ∃ fuel, ∀ w : world T, is_Some (GuildMemberEnumeration fuel tries guild w).
Proof.
  intros Hw. exists (Z.to_nat (2 ^ 64 + 1)). intros w. apply enumerate_ends.
  - intros after r w1. apply memberPage_ends. apply Hw.
  - rewrite Z2Nat.id; lia.
  - lia.
Qed.

(** C34: against a provider that serves a channel's archived threads
    page by page, latest first, a scan that succeeds lists threads of the
    archive, each once, all of them archived after the given instant (any for
    the zero time); and a thread archived after that instant is missing only if
    the list has another thread of the very same archive instant, behind which
    the cursor has passed it. So the list is exactly the threads archived after
    the instant if no two of the archive share theirs, whatever the sizes of the
    pages. When every request is answered, fuel for one page per thread is
    enough and the scan succeeds, never taking the cursor for stuck. *)
Theorem archived_scan_misses_only_twins {T : Type} `{Env} `{RestEnv} channelID private archive after fuel (w : world T) :
  serves_archive channelID private archive →
  (∀ out w', ThreadsArchived fuel channelID private after w = Some (inl out, w') →
     NoDup (ch_ID <$> out)
     ∧ (∀ c, c ∈ out → c ∈ archive ∧ covered after c = false)
     ∧ (∀ c, c ∈ archive → covered after c = false → c ∈ out ∨ ∃ d, d ∈ out ∧ twin d c)
     ∧ (NoDup (archived_at <$> archive) → out ≡ₚ List.filter (λ c, negb (covered after c)) archive))
  ∧ ((∀ i before, ∃ answer, ArchivedPage i channelID private before = inl answer) → (length archive < fuel)%nat →
     ∃ out w', ThreadsArchived fuel channelID private after w = Some (inl out, w')).
Proof.
  intros HA. split.
  - intros out w' E. pose proof (archive_ends _ _ _ HA _ _ _ _ _ (archive_start archive after) _ _ E out eq_refl) as Hl.
    destruct (Hl) as [[Hn Hs] Ha]. split_and!; [done..|]. intros Hd. by eapply archive_exact.
  - intros Hok Hf. apply (archive_succeeds _ _ _ HA); [done|apply archive_start|]. eapply Nat.le_lt_trans; [apply List.filter_length_le|done].
Qed.

(** ** Concrete providers *)

Definition some_member (id : string) : Member := mkMember (Some (mkUser id "name" "" "0" false)) "" "" 0 "".
Definition two_members : list Member := [some_member "5"; some_member "12"].
Definition some_thread (id : string) (at_ : Z) : Channel :=
  mkChannel id "9" "7" ChannelTypeGuildPublicThread "thread" "" "" 0 false (Some (mkThreadMetadata true false at_)) None "".
Definition three_threads : list Channel := [some_thread "33" 30; some_thread "31" 20; some_thread "32" 10].

(** One thread a page, and no failure. *)
#[local] Instance small_provider : RestEnv := {
  UserGuilds _ _ := inl [];
  ArchivedPage _ _ _ before := let older := List.filter (before_cursor before) three_threads in inl (take 1 older, (1 <? length older)%nat);
  GuildMembersPage _ _ after := inl (Some <$> take 1000 (List.filter (λ m, default 0 (ParseUint after) <? number_of m) two_members));
  rate_limited _ := None; ShouldRetryOnRateLimit := true; wait_outcome _ := None;
  NewSession _ := None; FreshChannel _ _ := inr (EText "none"); SelfID _ := inl "1"%string; ChannelPermissions _ _ _ := inl 0 }.
#[local] Instance calm : Env := calm_env [] (λ _, Done).

Lemma small_roster : serves_roster "9" two_members.
Proof.
  split; [|by intros i after page [= <-]]. split; [repeat constructor; by eexists|].
  constructor; [constructor; [constructor|constructor]|constructor; [by vm_compute|constructor]].
Qed.

Lemma small_archive : serves_archive "7" false three_threads.
Proof.
  split.
  - unfold three_threads. repeat (constructor; [|repeat (constructor; try by vm_compute)]). constructor.
  - intros c Hc. unfold three_threads in Hc. repeat (apply elem_of_cons in Hc as [->|Hc]; [by eexists|]). by apply elem_of_nil in Hc.
  - apply (bool_decide_unpack _). by vm_compute.
  - intros i before page more [= <- <-]. exists 1%nat. split; [lia|]. split; reflexivity.
Qed.

Lemma enumeration_lists_the_roster_witness :
  ∃ r w', GuildMemberEnumeration 2 1 "9" start_world = Some ((r, None), w') ∧ length (me_Members r) = 2%nat ∧ me_LastUserID r = "12"%string.
Proof.
  destruct (proj2 (enumeration_lists_the_roster "9" two_members 2 1 start_world small_roster)) as (r & w' & E).
  - split; [done|done|]. intros i after. by eexists.
  - lia.
  - cbn. lia.
  - destruct (proj1 (enumeration_lists_the_roster "9" two_members 2 1 start_world small_roster) _ _ _ E) as (Hm & _).
    exists r, w'. split; [exact E|]. split; [by rewrite Hm|]. vm_compute in E. by injection E as <- _.
Defined.

Lemma enumeration_ends_witness : ∃ fuel, ∀ w : world unit, is_Some (GuildMemberEnumeration fuel 1 "9" w).
Proof. apply (enumeration_ends "9" 1). intros i after. exists 0%nat. split; [lia|done]. Defined.

(** The cursor is an instant: of two threads archived at the same instant, the
    one behind the page boundary is not listed. *)
Definition twins : list Channel := [some_thread "42" 20; some_thread "41" 20].
Definition twin_provider : RestEnv := {|
  UserGuilds := @UserGuilds small_provider; GuildMembersPage := @GuildMembersPage small_provider;
  ArchivedPage _ _ _ before := let older := List.filter (before_cursor before) twins in inl (take 1 older, (1 <? length older)%nat);
  rate_limited _ := None; ShouldRetryOnRateLimit := true; wait_outcome _ := None;
  NewSession _ := None; FreshChannel _ _ := inr (EText "none"); SelfID _ := inl "1"%string; ChannelPermissions _ _ _ := inl 0 |}.
Example twins_at_a_boundary :
  (λ r, fst <$> r) (ThreadsArchived (RE := twin_provider) 4 "7" false zeroTime start_world) = Some (inl [some_thread "42" 20]).
Proof. vm_compute. reflexivity. Qed.

Lemma twin_archive : serves_archive (H := twin_provider) "7" false twins.
Proof.
  split.
  - unfold twins. repeat (constructor; [|repeat (constructor; try by vm_compute)]). constructor.
  - intros c Hc. unfold twins in Hc. repeat (apply elem_of_cons in Hc as [->|Hc]; [by eexists|]). by apply elem_of_nil in Hc.
  - apply (bool_decide_unpack _). by vm_compute.
  - intros i before page more [= <- <-]. exists 1%nat. split; [lia|]. split; reflexivity.
Qed.

Lemma archived_scan_misses_only_twins_witness :
  (∃ out w', ThreadsArchived 4 "7" false 10 start_world = Some (inl out, w') ∧ out ≡ₚ [some_thread "33" 30; some_thread "31" 20])
  ∧ ∃ out w', ThreadsArchived (RE := twin_provider) 4 "7" false zeroTime start_world = Some (inl out, w') ∧ some_thread "41" 20 ∉ out
       ∧ ∃ d, d ∈ out ∧ twin d (some_thread "41" 20).
Proof.
  split.
  - destruct (proj2 (archived_scan_misses_only_twins "7" false three_threads 10 4 start_world small_archive)) as (out & w' & E).
    + intros i before. by eexists.
    + cbn. lia.
    + exists out, w'. split; [exact E|]. apply (proj1 (archived_scan_misses_only_twins "7" false three_threads 10 4 start_world small_archive) _ _ E).
      apply (bool_decide_unpack _). by vm_compute.
  - destruct (proj2 (archived_scan_misses_only_twins (H0 := twin_provider) "7" false twins zeroTime 4 start_world twin_archive)) as (out & w' & E).
    + intros i before. by eexists.
    + cbn. lia.
    + exists out, w'. split; [exact E|]. destruct (proj1 (archived_scan_misses_only_twins (H0 := twin_provider) "7" false twins zeroTime 4 start_world twin_archive) _ _ E) as (_ & _ & Hall & _).
      assert (some_thread "41" 20 ∉ out) as Hno.
      { pose proof twins_at_a_boundary as Ht. rewrite E in Ht. injection Ht as ->. by intros Hin%list_elem_of_singleton. }
      split; [exact Hno|]. destruct (Hall (some_thread "41" 20)) as [Hin|Hd]; [right; by left|done|by destruct Hno|exact Hd].
Defined.
