(* ===== verification/CatalogData.v ===== *)
(** * The channel catalog: its data

    The pure part of internal/syncer/channel_catalog.go and
    channel_hydration.go: channels rebuilt from stored rows, the maps a catalog
    is kept in, the selection of requested channels.

    The code tells a channel that was fetched from one rebuilt from a row, and
    from a copy of either, by its pointer. A [pointer] is an address and the
    channel stored there, which no code changes after its allocation; an answer
    of the provider or of the store in step [n] is allocated there, and a copy
    at the address of what it copies. *)
From S2P Require Import Prelude Snowflake Decimal Errors SyncState ChannelScope Discord World GoTime GoText GuildSync Exclusions Rows Receipts Attachments Mentions MessageWrite EntityRows.
Local Open Scope Z_scope.

Inductive address :=
  | Answer (step index : nat)
  | CopyOf (step : nat) (a : address).
#[export] Instance address_eq_dec : EqDecision address.
Proof. solve_decision. Defined.

Record pointer := mkPointer { p_addr : address; p_channel : Channel }.
Abbreviation catalog_map := (gmap string pointer).

Definition p_ID (p : pointer) : string := ch_ID (p_channel p).
Definition p_ParentID (p : pointer) : string := ch_ParentID (p_channel p).

(** What an answer allocates. *)
Definition allocate (step : nat) (cs : list Channel) : list pointer :=
  imap (λ i c, mkPointer (Answer step i) c) cs.
Definition channels_of (m : catalog_map) : gmap string Channel := p_channel <$> m.

(** [allChannels[c.ID] = c]. *)
Definition put (p : pointer) (m : catalog_map) : catalog_map := <[p_ID p := p]> m.
Definition put_all (ps : list pointer) (m : catalog_map) : catalog_map := foldl (λ m p, put p m) m ps.

(** [observed := *c; observed.GuildID = guildID]. *)
Definition copy_with_guild (step : nat) (guildID : string) (p : pointer) : pointer :=
  mkPointer (CopyOf step (p_addr p)) (of_guild guildID (p_channel p)).

(** ** Kinds of channels *)

Definition isThreadParent (c : option Channel) : bool :=
  match c with
  | None => false
  | Some c => (ch_Type c =? ChannelTypeGuildText) || (ch_Type c =? ChannelTypeGuildNews) || (ch_Type c =? ChannelTypeGuildForum)
  end.

Definition archivedThreadPrivacy (c : Channel) : list bool :=
  if ch_Type c =? ChannelTypeGuildText then [false; true] else [false].

Definition channelArchivedThreadCursorScope (channelID : string) (private : bool) : string :=
  ("channel:" ++ channelID ++ ":archived_" ++ (if private then "private" else "public") ++ "_threads_after")%string.

Definition channelTypeFromKind (kind : string) : Z :=
  if (kind =? "category")%string then ChannelTypeGuildCategory
  else if (kind =? "text")%string then ChannelTypeGuildText
  else if (kind =? "announcement")%string then ChannelTypeGuildNews
  else if (kind =? "forum")%string then ChannelTypeGuildForum
  else if (kind =? "thread_public")%string then ChannelTypeGuildPublicThread
  else if (kind =? "thread_private")%string then ChannelTypeGuildPrivateThread
  else if (kind =? "thread_announcement")%string then ChannelTypeGuildNewsThread
  else if (kind =? "voice")%string then ChannelTypeGuildVoice
  else if (kind =? "stage")%string then ChannelTypeGuildStageVoice
  else match CutPrefix kind "type_" with
       | Some raw => match ParseInt raw with
                     | Some value => if (0 <=? value) && (FormatInt value =? raw)%string then value else -1
                     | None => -1
                     end
       | None => -1
       end.

(** ** Stored rows *)

(** [store.ChannelRow] of a row of the table. *)
Definition row : Type := string * channel_entity.
Definition row_kind (r : row) : string := c_kind (ce_scope (snd r)).
Definition row_parent_id (r : row) : string := stored_parent (snd r).

Definition is_thread_kind (kind : string) : bool := HasPrefix kind "thread_".

Definition channelFromRow `{TimeParse} (r : row) : Channel :=
  let '(id, e) := r in
  mkChannel id (c_guild (ce_scope e)) (stored_parent e) (channelTypeFromKind (c_kind (ce_scope e))) (ce_Name e) ""
    (ce_Topic e) (ce_Position e) (ce_IsNSFW e)
    (if is_thread_kind (c_kind (ce_scope e))
     then Some (mkThreadMetadata (ce_IsArchived e) (ce_IsLocked e) (parseTime (ce_ArchiveTimestamp e))) else None)
    None "".

Section Data.
Context {tp : TimeParse}.

Definition rows_allocated (step : nat) (rows : list row) : list pointer := allocate step (channelFromRow <$> rows).

Definition mergeStoredThreadChannels (step : nat) (rows : list row) (m : catalog_map) : catalog_map :=
  foldl (λ m '(r, p), if negb (is_thread_kind (row_kind r)) then m
                      else match m !! fst r with Some _ => m | None => <[fst r := p]> m end)
        m (zip rows (rows_allocated step rows)).

Definition selectStoredChannels (step : nat) (rows : list row) (requested : gset string) : catalog_map :=
  put_all (List.filter (λ p, bool_decide (p_ID p ∈ requested)) (rows_allocated step rows)) ∅.

Definition storedChannelCatalog (rows : list row) : gmap string Channel := channels_by_id (channelFromRow <$> rows).

Definition includeStoredThreadTargets (rows : list row) (guildID : string) (requested : list string) : list string :=
  let targets := list_to_set (List.filter nonempty requested) : gset string in
  let cs := channelFromRow <$> rows in
  let parents := list_to_set (omap (λ c,
        if bool_decide (ch_ID c ∈ targets) && (ch_GuildID c =? guildID)%string
           && ((ch_Type c =? ChannelTypeGuildText) || (ch_Type c =? ChannelTypeGuildNews)) then Some (ch_ID c) else None) cs) : gset string in
  let children := list_to_set (omap (λ c,
        if bool_decide (ch_ParentID c ∈ parents) && (ch_GuildID c =? guildID)%string && isThreadChannel (Some c)
        then Some (ch_ID c) else None) cs) : gset string in
  merge_sort string_le (elements (targets ∪ children)).

Definition storedThreadParentIDs (rows : list row) : gset string :=
  list_to_set (omap (λ r, if negb (is_thread_kind (row_kind r)) || (row_parent_id r =? "")%string then None else Some (row_parent_id r)) rows).
End Data.

(** ** Maps and slices *)

(** By position, then by id. *)
Definition channel_le (a b : pointer) : Prop :=
  let pa := ch_Position (p_channel a) in let pb := ch_Position (p_channel b) in
  pa < pb ∨ pa = pb ∧ string_le (p_ID a) (p_ID b).
#[export] Instance channel_le_dec : RelDecision channel_le.
Proof. intros a b. unfold channel_le. apply _. Defined.

Definition sortChannels (ps : list pointer) : list pointer := merge_sort channel_le ps.
Definition mapsToSlice (m : catalog_map) : list pointer := sortChannels ((map_to_list m).*2).

Fixpoint unique_ids (seen : list string) (ids : list string) : list string :=
  match ids with
  | [] => []
  | id :: ids => if (id =? "")%string || bool_decide (id ∈ seen) then unique_ids seen ids else id :: unique_ids (id :: seen) ids
  end.
Definition uniqueIDs (ids : list string) : list string := unique_ids [] ids.

Definition threadParentIDs (ps : list pointer) : list string :=
  p_ID <$> List.filter (λ p, isThreadParent (Some (p_channel p))) ps.

Definition scopedThreadParentIDs (ps : list pointer) (e : channelExclusions) : list string :=
  let channelByID := channels_by_id (p_channel <$> ps) in
  p_ID <$> List.filter (λ p, isThreadParent (Some (p_channel p)) && negb (excludesDiscordChannel e (p_channel p) channelByID)) ps.

Definition mergedChannelCatalog (base overlay : gmap string Channel) : gmap string Channel := overlay ∪ base.

Definition filter_pointers (ps : list pointer) (byID : gmap string Channel) (e : channelExclusions) : list pointer :=
  if negb (configured e) then ps else List.filter (λ p, negb (excludesDiscordChannel e (p_channel p) byID)) ps.

(** ** Requested channels *)

Definition canUseStoredTargets (storedByID : catalog_map) (requested : gset string) : bool :=
  if bool_decide (requested = ∅) || negb (size storedByID =? size requested)%nat then false
  else negb (existsb (λ '(_, p), ch_Type (p_channel p) =? ChannelTypeGuildForum) (map_to_list storedByID)).

Definition is_forum (m : catalog_map) (id : string) : bool :=
  match m !! id with Some p => ch_Type (p_channel p) =? ChannelTypeGuildForum | None => false end.
Definition requestedForumParents (m : catalog_map) (requested : gset string) : gset string :=
  filter (λ id, is_forum m id = true) requested.

(** The requested ids, the live channel before the stored one. *)
Definition found_requested (liveByID storedByID : catalog_map) (requested : gset string) : catalog_map :=
  filter (λ '(id, _), id ∈ requested) (liveByID ∪ storedByID).

(** The threads of the requested forums. *)
Definition forum_threads (liveByID : catalog_map) (forums : gset string) : list pointer :=
  List.filter (λ p, bool_decide (p_ParentID p ∈ forums) && isThreadChannel (Some (p_channel p))) ((map_to_list liveByID).*2).

Definition selectRequestedChannels (liveByID storedByID : catalog_map) (requested : gset string) : list pointer :=
  let selected := found_requested liveByID storedByID requested in
  mapsToSlice (put_all (forum_threads liveByID (requestedForumParents selected requested)) selected).

Definition unresolvedRequestedIDs (selected : list pointer) (requested : gset string) : nat :=
  size (requested ∖ list_to_set (p_ID <$> selected)).

(** ** Desktop targets (channel_hydration.go) *)

(** The ancestors of a channel, as far as the catalog knows them; the code
    walks a chain that [hydrateDesktopChannelMetadata] has found acyclic. *)
Fixpoint ancestors (fuel : nat) (m : catalog_map) (parent : string) : list pointer :=
  match fuel, m !! parent with
  | S fuel, Some p => p :: ancestors fuel m (p_ParentID p)
  | _, _ => []
  end.

Definition withHydratedAncestors (selected : list pointer) (m : catalog_map) (targets : gset string) : list pointer :=
  if bool_decide (targets = ∅) then selected
  else mapsToSlice (foldl (λ out p,
         let out := put p out in
         if bool_decide (p_ID p ∈ targets) then put_all (ancestors (size m) m (p_ParentID p)) out else out) ∅ selected).

Definition hydratedObservations (m : catalog_map) (liveIDs targets : gset string) (selected : list pointer) : list pointer :=
  if bool_decide (targets = ∅) then mapsToSlice m
  else
    let kept := list_to_set (p_ID <$> selected) : gset string in
    mapsToSlice (filter (λ '(id, _), ¬ ((id ∉ liveIDs ∨ id ∈ targets) ∧ id ∉ kept)) m).
