(* ===== verification/TailHandler.v ===== *)
(** * The handler of Gateway events

    internal/syncer/tail.go, tail_metadata.go, collection_scope.go and the
    handler's part of failures.go: what happens to a message event between the
    queues of TailRun and the store, the admission of its channel, and the
    recording of an event that failed. A handler runs in the monad of World,
    against the tables of [tail_tables]; [handled] is what the handler logs. *)
From S2P Require Import Prelude Snowflake Errors SyncState ChannelScope FailureLedger Discord World GoTime GoText MessageSync GuildSync Exclusions Rows Receipts Attachments Mentions MessageWrite StoreRefinement Canonical EntityRows FailureJournal.
Local Open Scope Z_scope.
Local Open Scope discrawl_scope.

(** ** Provider and environment *)

(** A message as the Gateway or the exact fetch delivers it: whether it has an
    author, and whether its timestamp is Go's zero time. *)
Record gateway_message := mkGateway { g_message : Message; g_author : bool; g_zero_time : bool }.

(** [marshalJSONString] of a channel. *)
Class ChannelJSON := ch_JSON : Channel → string.

Class TailEnv := {
  (** [client.ChannelMessage(ctx, channel, id)]; the message may be nil. *)
  ChannelMessage : nat → string → string → option gateway_message + err;
  (** The directory of the failure journal. *)
  dir_at : nat → dir_io; dir_keeps : nat → string → bool; dir_syncs : nat → bool;
  (** The channels and threads of a stored guild payload. *)
  guild_payload : string → option (list (option Channel));
  policy_digest : list string * list string * list string * bool → string }.

(** The tables a handler works on besides those of [world]: the messages, the
    entities (their scope columns are those of [w_channels]), the failure
    journal, and the handler's own copy of the channel catalog. *)
Record tail_tables := mkTail { tt_messages : mstate; tt_entities : entities; tt_files : directory; tt_catalog : channels }.

Definition with_mstate (m : mstate) (t : tail_tables) : tail_tables := mkTail m (tt_entities t) (tt_files t) (tt_catalog t).
Definition with_files (f : directory) (t : tail_tables) : tail_tables := mkTail (tt_messages t) (tt_entities t) f (tt_catalog t).
Definition with_catalog (c : channels) (t : tail_tables) : tail_tables := mkTail (tt_messages t) (tt_entities t) (tt_files t) c.
Definition with_entities (e : entities) (t : tail_tables) : tail_tables := mkTail (tt_messages t) e (tt_files t) (tt_catalog t).

Abbreviation tail_world := (world tail_tables).
Definition set_channels (c : channels) (w : tail_world) : tail_world := mkWorld (w_sync w) c (w_messages w) (w_ledger w) (w_step w).
Definition on_tables (f : tail_tables → tail_tables) (w : tail_world) : tail_world := with_messages (f (w_messages w)) w.

(** The whole channel table: a row that has only scope columns is one that
    [MarkChannelDeleted] inserted. *)
Definition blank_entity (r : channel_row) : channel_entity := mkChannelEntity r "" "" 0 false false false false "" "" "".
Definition channel_table (c : channels) (e : gmap string channel_entity) : gmap string channel_entity :=
  map_imap (λ id r, Some (match e !! id with Some x => set_scope r x | None => blank_entity r end)) c.

(** A transaction on the entity tables. *)
Definition on_entities (f : entities → option err * entities) (w : tail_world) : option err * tail_world :=
  let s := tt_entities (w_messages w) in
  let '(e, s') := f (EntityRows.with_channels (channel_table (w_channels w) (en_channels s)) s) in
  (e, set_channels (scope_table (en_channels s')) (on_tables (with_entities s') w)).

Record tail_config := mkTailConfig {
  tc_guilds : gset string; tc_client : bool; tc_embeddings : bool; tc_preserveHistoryCursor : bool; tc_exclusions : channelExclusions }.

Inductive handled := Archived | Ignored (reason : string).

Definition tailMessageFailureOperation : string := "tail_message".
Definition tailMessageFailureRelatedKind : string := "message_event".
Definition tailMessageFailureIdentity (guildID channelID messageID eventKind : string) : FailureRef :=
  mkRef tailMessageFailureOperation "discord" guildID channelID messageID tailMessageFailureRelatedKind eventKind.

(** [strings.ToUpper], for the ASCII letters, as [ToLower]. *)
Definition upper_byte (c : ascii) : ascii := let n := N_of_ascii c in if (97 <=? n)%N && (n <=? 122)%N then ascii_of_N (n - 32) else c.
Fixpoint ToUpper (s : string) : string :=
  match s with
  | EmptyString => EmptyString
  | String a t => String (upper_byte a) (ToUpper t)
  end.

Section Handler.
Context {ENV : Env} {TE : TailEnv} {ER : ErrorReport} {CF : ChannelJSON}.
Context {tp : TimeParse} {rp : RawPayloads} {lx : Lexical} {mr : MutationRecords} {jt : JSONText} {jx : JournalText}.
Context (cfg : tail_config).
Local Abbreviation M := (M tail_tables).
Abbreviation excl := (tc_exclusions cfg).

Definition toChannelRecord (c : Channel) : ChannelRecord :=
  let thread := ch_Thread c in
  mkChannelRecord (ch_ID c) (ch_GuildID c) (ch_ParentID c) (channelKind c) (ch_Name c) (ch_Topic c) (ch_Position c) (ch_NSFW c)
    (match thread with Some t => th_Archived t | None => false end) (match thread with Some t => th_Locked t | None => false end)
    (ch_Type c =? ChannelTypeGuildPrivateThread) (match thread with Some _ => ch_ParentID c | None => "" end)
    (match thread with Some t => RFC3339Nano (th_ArchiveTimestamp t) | None => "" end) (ch_JSON c).

(** ** Calls *)

Definition message_write (f : Z → channels → mstate → option err * mstate) : M (option err) :=
  store_write (λ now w, let '(e, s) := f now (w_channels w) (tt_messages (w_messages w)) in (e, on_tables (with_mstate s) w)).

Definition channel_write (f : Z → channels → option err * channels) : M (option err) :=
  store_write (λ now w, let '(e, c) := f now (w_channels w) in (e, set_channels c w)).

Definition entity_write (f : Z → entities → option err * entities) : M (option err) := store_write (λ now, on_entities (f now)).

Definition channel_message (ch id : string) : M (option gateway_message + err) := λ w, Some (ChannelMessage (w_step w) ch id, tick w).

Definition catalog : M channels := λ w, Some (tt_catalog (w_messages w), w).
Definition set_catalog (c : channels) : M unit := λ w, Some (tt, on_tables (with_catalog c) w).

Definition persist_fallback (fb : TailMessageFailureFallback) : M (option err) := λ w,
  let '(e, files) := PersistTailMessageFailureFallback fb (dir_at (w_step w)) (tt_files (w_messages w)) in
  Some (e, tick (on_tables (with_files files) w)).

(** ** Scope *)

Definition scopePolicy : string := if configured excl then exclusions_policyID policy_digest excl else "".

Definition allowGuild (guildID : string) : bool := bool_decide (tc_guilds cfg = ∅) || bool_decide (guildID ∈ tc_guilds cfg).

Definition excludeChannel (channelID : string) : M bool :=
  let! cat := catalog in
  ret (excludesID excl channelID
       || match cat !! channelID with Some r => excludesStoredChannel excl channelID r cat | None => categoryScopeSet excl end).

(** The catalog is read, the decisions that differ are stored, and the rows as
    they were read become the handler's copy. *)
Definition refreshScope : M (option err) :=
  try! rows := store_read (λ _ w, w_channels w) orelse (λ e, ret (Some e));
  check! (match scope_changes excl (exclusions_policyID policy_digest excl) rows with
          | [] => ret None
          | changes => channel_write (λ now, SetChannelScopes now changes (exclusions_policyID policy_digest excl))
          end) orelse (λ e, ret (Some e));
  let! _ := set_catalog rows in
  ret None.

Definition scopeDecision (id : string) : M string := let! cat := catalog in ret (scope excl id cat).

Definition scopeCacheStale (id : string) : M (bool + err) :=
  let! cat := catalog in
  match cat !! id with
  | None => ret (inl false)
  | Some cached =>
      try! revision := store_read (λ _ w, c_updated <$> w_channels w !! id) orelse (λ e, ret (inr e));
      ret (inl (negb (bool_decide (revision = Some (c_updated cached)))))
  end.

(** The parents of an unknown channel, fetched one by one; at most sixteen. *)
Definition maxAncestry : nat := 16.
Fixpoint fetch_ancestry (fuel : nat) (guild next : string) (seen : list string) : M (option err) :=
  match fuel with
  | O => ret (Some (EText "invalid channel ancestry"))
  | S fuel =>
      if (next =? "")%string then ret None
      else if bool_decide (next ∈ seen) || (maxAncestry <=? length seen)%nat then ret (Some (EText "invalid channel ancestry"))
      else if excludesID excl next then ret None
      else
        let! started := time_Now in
        try! c := client_channel next orelse (λ e, ret (Some (EWrap "resolve channel scope: " e "")));
        match c with
        | None => ret (Some (EText "channel scope identity mismatch"))
        | Some c =>
            if negb (ch_ID c =? next)%string || (ch_GuildID c =? "")%string || negb (guild =? "")%string && negb (ch_GuildID c =? guild)%string || negb (allowGuild (ch_GuildID c))
            then ret (Some (EText "channel scope identity mismatch"))
            else
              check! (entity_write (λ now, UpsertObservedChannel now (toChannelRecord c) (Some started))) orelse (λ e, ret (Some e));
              fetch_ancestry fuel guild (ch_ParentID c) (next :: seen)
        end
  end.

Definition resolve_ancestry (guild id : string) : M (bool + err) :=
  if negb (tc_client cfg) then ret (inr (EText "channel ancestry unavailable"))
  else
    check! (fetch_ancestry (2 + maxAncestry) guild id []) orelse (λ e, ret (inr e));
    check! refreshScope orelse (λ e, ret (inr e));
    let! state := scopeDecision id in
    if (state =? "unknown")%string then ret (inr (EText "channel ancestry remains unknown"))
    else ret (inl (state =? "allowed")%string).

Definition allowMessageChannel (guild id : string) : M (bool + err) :=
  if negb (configured excl) then
    let! excluded := excludeChannel id in
    if excluded then ret (inl false)
    else if (id =? "")%string then ret (inl true)
    else channel_admitted id ""
  else if excludesID excl id then ret (inl false)
  else
    let! state := scopeDecision id in
    check! (if (state =? "unknown")%string then refreshScope else ret None) orelse (λ e, ret (inr e));
    let! state := scopeDecision id in
    if (state =? "unknown")%string then resolve_ancestry guild id
    else
      try! stale := scopeCacheStale id orelse (λ e, ret (inr e));
      check! (if stale then refreshScope else ret None) orelse (λ e, ret (inr e));
      let! state := (if stale then scopeDecision id else ret state) in
      if (state =? "unknown")%string then resolve_ancestry guild id else ret (inl (state =? "allowed")%string).

(** Channels that only a stored guild payload names enter the catalog. *)
Fixpoint seed_channels (guild : string) (cs : list (option Channel)) (known : list string) : M (list string + err) :=
  match cs with
  | [] => ret (inl known)
  | None :: cs => seed_channels guild cs known
  | Some c :: cs =>
      if (ch_ID c =? "")%string || bool_decide (ch_ID c ∈ known) || negb (ch_GuildID c =? "")%string && negb (ch_GuildID c =? guild)%string
      then seed_channels guild cs known
      else
        check! (entity_write (λ now, UpsertObservedChannel now (toChannelRecord (of_guild guild c)) None))
          orelse (λ e, ret (inr e));
        seed_channels guild cs (ch_ID c :: known)
  end.

Fixpoint seed_guilds (guilds : list (string * string)) (known : list string) : M (option err) :=
  match guilds with
  | [] => ret None
  | (id, raw) :: guilds =>
      match (if allowGuild id then guild_payload raw else None) with
      | None => seed_guilds guilds known
      | Some cs => try! known := seed_channels id cs known orelse (λ e, ret (Some e)); seed_guilds guilds known
      end
  end.

(** [GuildScopePayloads]. *)
Definition guild_payloads (s : entities) : list (string * string) :=
  omap (λ '(id, r), if (gu_Deleted r =? "")%string then Some (id, gu_Raw r) else None) (map_to_list (en_guilds s)).

Definition seedScopeMetadata : M (option err) :=
  try! known := store_read (λ _ w, elements (dom (w_channels w))) orelse (λ e, ret (Some e));
  try! guilds := store_read (λ _ w, guild_payloads (tt_entities (w_messages w))) orelse (λ e, ret (Some e));
  check! (seed_guilds guilds known) orelse (λ e, ret (Some e));
  refreshScope.

(** ** Failures *)

Definition resolveMessageFailure (guildID channelID messageID eventKind : string) : M (option err) :=
  match normalizeTailMessageEventKind eventKind with
  | None => ret (Some (EText "resolve tail message failure: unsupported event type"))
  | Some kind => ledger_call (λ now, ResolveFailureIdentity now (tailMessageFailureIdentity guildID channelID messageID kind))
  end.

(** A scope error after admission ignores the event and settles its failure. *)
Definition scopeRejection (eventKind : string) (m : Message) (e : err) : M (handled + err) :=
  if negb (is_scope e) then ret (inr e)
  else
    check! (ledger_call (λ now, ResolveFailureWithReason now (tailMessageFailureIdentity (m_GuildID m) (m_ChannelID m) (m_ID m) eventKind) "excluded_by_collection_policy"))
      orelse (λ e, ret (inr e));
    ret (inl (Ignored "channel_scope")).

(** The record the handler and the replay write. *)
Definition tail_mutation (mu : mutation) (event : string) (started : option Z) (deduplicate : bool) : MessageMutation :=
  let r := record_of mu in
  mkMessageMutation (mm_Record r) event (mm_PayloadJSON r)
    (mkWriteOptions started scopePolicy true (mu_embed mu) false (mu_preserve_newer mu) deduplicate) (mm_Attachments r) (mm_Mentions r).

Definition write_event (mu : mutation) (event : string) (started : option Z) (deduplicate : bool) : M (option err) :=
  message_write (λ now cs, upsertMessages now cs [tail_mutation mu event started deduplicate]).

(** ** Events *)

Definition OnMessageCreate (msg : option Message) : M (handled + err) :=
  match msg with
  | None => ret (inl (Ignored "missing_event"))
  | Some m =>
      if negb (allowGuild (m_GuildID m)) then ret (inl (Ignored "guild_scope"))
      else
        try! allowed := allowMessageChannel (m_GuildID m) (m_ChannelID m) orelse (λ e, ret (inr e));
        if negb allowed then ret (inl (Ignored "channel_scope"))
        else
          try! mu := buildMessageMutation m "" "" (tc_embeddings cfg) orelse (scopeRejection "create" m);
          check! (write_event mu "create" None false) orelse (scopeRejection "create" m);
          check! (set_sync_state "tail:last_event" (m_ID m)) orelse (λ e, ret (inr e));
          check! (if tc_preserveHistoryCursor cfg then ret None else advanceChannelLatest (m_ChannelID m) (m_ID m)) orelse (λ e, ret (inr e));
          check! (resolveMessageFailure (m_GuildID m) (m_ChannelID m) (m_ID m) "create") orelse (λ e, ret (inr e));
          ret (inl Archived)
  end.

Definition isPartialMessageUpdate (m : gateway_message) : bool := negb (g_author m) || g_zero_time m.

(** [ValidateMessageUpdateIdentity] of internal/discord/tail_events.go. *)
Definition ValidateMessageUpdateIdentity (partial full : Message) : option err :=
  let differ a b := negb (a =? "")%string && negb (b =? "")%string && negb (a =? b)%string in
  if differ (m_ID full) (m_ID partial) then Some (EText "fetched message update returned different message id")
  else if differ (m_ChannelID full) (m_ChannelID partial) then Some (EText "fetched message update returned different channel id")
  else if differ (m_GuildID full) (m_GuildID partial) then Some (EText "fetched message update returned different guild id")
  else None.

Definition or_else (a b : string) : string := if (a =? "")%string then b else a.
Definition fill_identity (full partial : Message) : Message :=
  mkMessage (or_else (m_ID full) (m_ID partial)) (or_else (m_ChannelID full) (m_ChannelID partial)) (or_else (m_GuildID full) (m_GuildID partial))
    (m_Timestamp full) (m_payload full).

Definition messageUpdateSnapshot (msg : gateway_message) : M (option Message + err) :=
  let m := g_message msg in
  let own := if isPartialMessageUpdate msg then None else Some m in
  if negb (tc_client cfg) || (m_ChannelID m =? "")%string || (m_ID m =? "")%string then ret (inl own)
  else
    try! full := channel_message (m_ChannelID m) (m_ID m)
      orelse (λ e, ret (inr (EWrap ("fetch message update " ++ m_ChannelID m ++ "/" ++ m_ID m ++ ": ")%string e "")));
    match full with
    | None => ret (inl own)
    | Some full =>
        match ValidateMessageUpdateIdentity m (g_message full) with
        | Some e => ret (inr e)
        | None => ret (inl (Some (fill_identity (g_message full) m)))
        end
    end.

Definition OnMessageUpdate (msg : option gateway_message) : M (handled + err) :=
  match msg with
  | None => ret (inl (Ignored "missing_event"))
  | Some g =>
      let m := g_message g in
      if negb (m_GuildID m =? "")%string && negb (allowGuild (m_GuildID m)) then ret (inl (Ignored "guild_scope"))
      else
        try! allowed := allowMessageChannel (m_GuildID m) (m_ChannelID m) orelse (λ e, ret (inr e));
        if negb allowed then ret (inl (Ignored "channel_scope"))
        else
          let! started := time_Now in
          try! snapshot := messageUpdateSnapshot g orelse (λ e, ret (inr e));
          match snapshot with
          | None => ret (inl (Ignored "incomplete_event"))
          | Some m =>
              if negb (allowGuild (m_GuildID m)) then ret (inl (Ignored "guild_scope"))
              else
                let! excluded := excludeChannel (m_ChannelID m) in
                if excluded then ret (inl (Ignored "channel_scope"))
                else
                  try! mu := buildMessageMutation m "" "" (tc_embeddings cfg) orelse (scopeRejection "update" m);
                  check! (write_event mu "update" (Some started) false) orelse (scopeRejection "update" m);
                  check! (set_sync_state "tail:last_event" (m_ID m)) orelse (λ e, ret (inr e));
                  check! (resolveMessageFailure (m_GuildID m) (m_ChannelID m) (m_ID m) "update") orelse (λ e, ret (inr e));
                  ret (inl Archived)
          end
  end.

(** A delete event: the message it names and its payload as JSON. *)
Record delete_event := mkDelete { d_message : Message; d_json : string }.

Definition OnMessageDelete (evt : option delete_event) : M (handled + err) :=
  match evt with
  | None => ret (inl (Ignored "missing_event"))
  | Some d =>
      let m := d_message d in
      if negb (allowGuild (m_GuildID m)) then ret (inl (Ignored "guild_scope"))
      else
        let! excluded := excludeChannel (m_ChannelID m) in
        if excluded then ret (inl (Ignored "channel_scope"))
        else
          check! (message_write (λ now _, markMessageDeleted now (m_GuildID m) (m_ChannelID m) (m_ID m) (Some (d_json d)) false)) orelse (λ e, ret (inr e));
          check! (set_sync_state "tail:last_event" (m_ID m)) orelse (λ e, ret (inr e));
          check! (resolveMessageFailure (m_GuildID m) (m_ChannelID m) (m_ID m) "delete") orelse (λ e, ret (inr e));
          ret (inl Archived)
  end.

(** *** Metadata events *)

Definition OnChannelUpsert (c : option Channel) : M (option err) :=
  match c with
  | None => ret None
  | Some c =>
      if negb (allowGuild (ch_GuildID c)) then ret None
      else
        check! (entity_write (λ now, UpsertObservedChannel now (toChannelRecord c) None)) orelse (λ e, ret (Some e));
        refreshScope
  end.

Definition OnChannelDelete (c : option Channel) : M (option err) :=
  match c with
  | None => ret None
  | Some c =>
      if (ch_ID c =? "")%string || negb (allowGuild (ch_GuildID c)) then ret None
      else
        check! (channel_write (λ now, MarkChannelDeleted now (ch_GuildID c) (ch_ID c) "discord-gateway")) orelse (λ e, ret (Some e));
        refreshScope
  end.

(** The records of a listing, [None] when a channel names another guild. *)
Fixpoint guild_channels (guild : string) (cs : list (option Channel)) : option (list ChannelRecord) :=
  match cs with
  | [] => Some []
  | None :: cs => guild_channels guild cs
  | Some c :: cs =>
      if (ch_ID c =? "")%string then guild_channels guild cs
      else if negb (ch_GuildID c =? "")%string && negb (ch_GuildID c =? guild)%string then None
      else match guild_channels guild cs with Some rs => Some (toChannelRecord (of_guild guild c) :: rs) | None => None end
  end.

Definition upsert_listing (records : list ChannelRecord) : M (option err) :=
  check! (match records with [] => ret None | _ => entity_write (λ now, UpsertChannels now records) end) orelse (λ e, ret (Some e));
  refreshScope.

(** A Gateway guild with its channels and threads. *)
Record gateway_guild := mkGuild { gg_record : GuildRecord; gg_unavailable : bool; gg_channels : list (option Channel); gg_threads : list (option Channel) }.

Definition OnGuildUpsert (g : option gateway_guild) : M (option err) :=
  match g with
  | None => ret None
  | Some g =>
      if gg_unavailable g || negb (allowGuild (g_ID (gg_record g))) then ret None
      else
        check! (entity_write (λ now, UpsertObservedGuild now (gg_record g) None)) orelse (λ e, ret (Some e));
        match guild_channels (g_ID (gg_record g)) (gg_channels g ++ gg_threads g) with
        | None => ret (Some (EText "guild channel identity mismatch"))
        | Some records => upsert_listing records
        end
  end.

Definition OnThreadList (guildID : string) (cs : list (option Channel)) : M (option err) :=
  if negb (allowGuild guildID) then ret None
  else match guild_channels guildID cs with
       | None => ret (Some (EText "thread list guild mismatch"))
       | Some records => upsert_listing records
       end.

Definition OnGuildDelete (g : option gateway_guild) : M (option err) :=
  match g with
  | None => ret None
  | Some g =>
      if gg_unavailable g || negb (allowGuild (g_ID (gg_record g))) then ret None
      else entity_write (λ now, MarkGuildDeleted now (g_ID (gg_record g)) "discord-gateway" "guild-delete-event")
  end.

Definition OnMemberUpsert (profile : string → string) (guildID : string) (m : option MemberRecord) : M (option err) :=
  match m with
  | None => ret None
  | Some m => if negb (allowGuild guildID) then ret None else entity_write (λ now, UpsertObservedMember profile now m None)
  end.

Definition OnMemberDelete (guildID userID : string) : M (option err) :=
  if negb (allowGuild guildID) then ret None
  else entity_write (λ now, MarkObservedMemberDeleted now guildID userID "discord-gateway" "member-remove-event" None).

(** ** Recording a failed event *)

Record tail_failure := mkTailFailure {
  tf_EventType : string; tf_Kind : string; tf_Code : string; tf_GuildID : string; tf_ChannelID : string; tf_MessageID : string;
  tf_UserID : string; tf_ReceivedAt : option Z; tf_ForceFallback : bool }.

(** [tailMessageFailureSentinel] of failures.go: the normalized kind and the
    error that is recorded. *)
Definition failure_sentinel (kind : string) : option (string * err) :=
  match normalizeTailMessageFailureKind kind with
  | Some "returned_error"%string => Some ("returned_error"%string, EText "tail message handler returned an error")
  | Some "panic"%string => Some ("panic"%string, EText "tail message handler panicked")
  | Some "timeout"%string => Some ("timeout"%string, EText "tail message handler timed out")
  | _ => None
  end.

Definition message_scope (w : tail_world) (id : string) : option (string * string) :=
  (λ r, (s_guild r, s_channel r)) <$> ms_rows (tt_messages (w_messages w)) !! id.

Definition record_message_failure (ref : FailureRef) (e : err) : M (option err) :=
  store_write (λ now w, let '(r, l) := RecordFailureWithMessageScope now ref (Some e) (message_scope w) (w_ledger w) in (r, with_ledger l w)).

Definition record_metadata_failure (f : tail_failure) : M (option err) :=
  let cause := ("metadata event handler failed" ++ (if (tf_Code f =? "")%string then "" else " (" ++ tf_Code f ++ ")"))%string in
  let ref := mkRef "tail_metadata" "discord" (tf_GuildID f) (tf_ChannelID f) "" "gateway_event" (tf_EventType f ++ ":" ++ tf_UserID f) in
  if (tf_EventType f =? "GUILD_MEMBER_REMOVE")%string
  then ledger_call (λ now, RecordEventFailure now ref (Some (EText cause)) (tf_ReceivedAt f))
  else ledger_call (λ now, RecordFailure now ref (Some (EText cause))).

Definition RecordTailFailure (f : tail_failure) : M (option err) :=
  match normalizeTailMessageEventKind (tf_EventType f) with
  | None =>
      if HasPrefix (ToUpper (TrimSpace (tf_EventType f))) "MESSAGE_" then ret (Some (EText "record tail message failure: unsupported event type"))
      else record_metadata_failure f
  | Some eventKind =>
      match failure_sentinel (tf_Kind f) with
      | None => ret (Some (EText "record tail message failure: unsupported failure kind"))
      | Some (failureKind, durable) =>
          let durable := if (tf_Code f =? "")%string then durable else EWrap "" durable (" (" ++ tf_Code f ++ ")")%string in
          if (tf_MessageID f =? "")%string then ret (Some (EText "record tail message failure: missing message id"))
          else
            let ref := tailMessageFailureIdentity (tf_GuildID f) (tf_ChannelID f) (tf_MessageID f) eventKind in
            let! ledger := (if tf_ForceFallback f then ret (Some (EText "not attempted")) else record_message_failure ref durable) in
            match ledger with
            | None => ret None
            | Some _ =>
                let! fallback := persist_fallback (mkFallback eventKind failureKind (tf_GuildID f) (tf_ChannelID f) (tf_MessageID f)) in
                match fallback with
                | None => ret None
                | Some _ => ret (Some (EText "record tail message failure: no durable path succeeded"))
                end
            end
      end
  end.
End Handler.
