(* ===== verification/Catalog.v ===== *)
(** * The channel catalog: its construction

    internal/syncer/channel_catalog.go, channel_hydration.go and the metadata
    writer of collection_scope.go: which channels of a guild a run works on,
    fetched from the provider or rebuilt from the archive, and what of them is
    written. Runs in the monad of World against the tables of TailHandler. *)
From S2P Require Import Prelude Snowflake Errors SyncState ChannelScope FailureLedger Discord World GoTime GoText MessageSync ChannelSync GuildSync Exclusions Rows Receipts Attachments Mentions MessageWrite Canonical EntityRows FailureJournal RestClient CatalogData TailHandler.
Local Open Scope Z_scope.
Local Open Scope discrawl_scope.

Inductive channelCatalogMode := channelCatalogFull | channelCatalogIncremental.

Class CatalogEnv := {
  (** [client.GuildChannels], [client.GuildThreadsActive], [client.ThreadsActive]. *)
  GuildChannels : nat → string → list Channel + err;
  GuildThreadsActive : nat → string → list Channel + err;
  ThreadsActive : nat → string → list Channel + err;
  (** SQLite's [json_extract(raw_json, '$.source')] is [discord_desktop]. *)
  desktop_payload : string → bool }.

(** [directChannelResults]: what a lookup by id has answered in this run. *)
Abbreviation direct_results := (gmap string (option pointer + err)).

Section Catalog.
Context {ENV : Env} {TE : TailEnv} {RE : RestEnv} {CE : CatalogEnv} {CF : ChannelJSON}.
Context {tp : TimeParse} {jt : JSONText}.
(** [s.channelExclusions], and how many requests a listing may take. *)
Context (configured_scope : channelExclusions) (fuel : nat).
Local Abbreviation M := (M tail_tables).

(** An answer of the provider, allocated. *)
Definition fetch (f : nat → list Channel + err) : M (list pointer + err) := λ w,
  Some (match f (w_step w) with inl cs => inl (allocate (w_step w) cs) | inr e => inr e end, tick w).
Definition current_step : M nat := λ w, Some (w_step w, w).

(** [store.Channels] of a guild; its callers do not observe the order. *)
Definition guild_rows (guildID : string) (t : gmap string channel_entity) : list row :=
  List.filter (λ r, (c_guild (ce_scope (snd r)) =? guildID)%string) (map_to_list t).
Definition stored_table (w : tail_world) : gmap string channel_entity := channel_table (w_channels w) (en_channels (tt_entities (w_messages w))).
Definition Channels (guildID : string) : M (list row + err) := store_read (λ _ w, guild_rows guildID (stored_table w)).
Definition DesktopChannelIDs (guildID : string) : M (list string + err) :=
  store_read (λ _ w, fst <$> List.filter (λ r, desktop_payload (ce_Raw (snd r))) (guild_rows guildID (stored_table w))).

(** ** What is written *)

(** [refreshCollectionScopes] of collection_scope.go against the stored rows. *)
Definition refreshStoredScopes (e : channelExclusions) : M (option err) :=
  let policy := exclusions_policyID policy_digest e in
  try! rows := store_read (λ _ w, w_channels w) orelse (λ e, ret (Some e));
  match scope_changes e policy rows with
  | [] => ret None
  | changes => channel_write (λ now, SetChannelScopes now changes policy)
  end.

(** The loop of [storeScopeMetadata], which replaces the elements of the slice
    by copies under the guild's id; the slice is returned. *)
Fixpoint store_observed (guildID : string) (started : Z) (ps : list pointer) : M (list pointer * option err) :=
  match ps with
  | [] => ret ([], None)
  | p :: rest =>
      let c := p_channel p in
      if (ch_ID c =? "")%string then let! (rest, e) := store_observed guildID started rest in ret (p :: rest, e)
      else if negb (ch_GuildID c =? "")%string && negb (ch_GuildID c =? guildID)%string
      then ret (ps, Some (EText "channel catalog guild mismatch"))
      else
        let! step := current_step in
        let p := copy_with_guild step guildID p in
        check! (entity_write (λ now, UpsertObservedChannel now (toChannelRecord (p_channel p)) (Some started)))
          orelse (λ e, ret (p :: rest, Some e));
        let! (rest, e) := store_observed guildID started rest in ret (p :: rest, e)
  end.

Definition storeScopeMetadata (guildID : string) (ps : list pointer) (e : channelExclusions) (started : Z) : M (list pointer * option err) :=
  let! (ps, err) := store_observed guildID started ps in
  match err with
  | Some e => ret (ps, Some e)
  | None => let! err := refreshStoredScopes e in ret (ps, err)
  end.

(** ** Threads *)

Definition clearThreadCatalogUnavailableChannel (channelID : string) : M (option err) :=
  if (channelID =? "")%string then ret None else delete_sync_state (channelThreadCatalogUnavailableScope channelID).

(** Whether the listing failed; the threads of one that did not join the
    catalog. *)
Definition appendArchivedThreads (m : catalog_map) (channelID : string) (private : bool) (after : Z) : M (catalog_map * bool) :=
  let! step := current_step in
  let! archived := ThreadsArchived fuel channelID private after in
  match archived with
  | inr e => let! _ := skipUnavailableChannelByID channelID e channelThreadCatalogUnavailableScope in ret (m, true)
  | inl threads => ret (put_all (allocate step threads) m, false)
  end.

(** The private and the public archive of a channel, in a full catalog. *)
Fixpoint append_archives (m : catalog_map) (channelID : string) (kinds : list bool) (failed : bool) : M (catalog_map * bool) :=
  match kinds with
  | [] => ret (m, failed)
  | private :: kinds =>
      let! (m, failed1) := appendArchivedThreads m channelID private zeroTime in
      append_archives m channelID kinds (failed || failed1)
  end.

Definition appendActiveThreads (m : catalog_map) (channelID : string) (clearOnSuccess : bool) : M (catalog_map * bool + err) :=
  let! active := fetch (λ i, ThreadsActive i channelID) in
  match active with
  | inr e =>
      let! skipped := skipUnavailableChannelByID channelID e channelThreadCatalogUnavailableScope in
      if (skipped : bool) then ret (inl (m, true)) else ret (inr e)
  | inl threads =>
      check! (if clearOnSuccess then clearThreadCatalogUnavailableChannel channelID else ret None) orelse (λ e, ret (inr e));
      ret (inl (put_all threads m, false))
  end.

Fixpoint append_thread_catalog (m : catalog_map) (parents : list string) : M (catalog_map + err) :=
  match parents with
  | [] => ret (inl m)
  | parentID :: parents =>
      match m !! parentID with
      | Some p =>
          if negb (isThreadParent (Some (p_channel p))) then append_thread_catalog m parents
          else
            let channelID := p_ID p in
            try! (m, unavailable) := appendActiveThreads m channelID false orelse (λ e, ret (inr e));
            let! (m, failed) := append_archives m channelID (archivedThreadPrivacy (p_channel p)) unavailable in
            check! (if (failed : bool) then ret None else clearThreadCatalogUnavailableChannel channelID) orelse (λ e, ret (inr e));
            append_thread_catalog m parents
      | None => append_thread_catalog m parents
      end
  end.
Definition appendThreadCatalog (m : catalog_map) (parents : list string) : M (catalog_map + err) := append_thread_catalog m (uniqueIDs parents).

Definition allowed_parents (m : catalog_map) (parents : list string) : list string :=
  List.filter (λ id, isThreadParent (p_channel <$> m !! id)) (uniqueIDs parents).

Definition appendActiveThreadCatalog (m : catalog_map) (guildID : string) (parents : list string) : M (catalog_map + err) :=
  match allowed_parents m parents with
  | [] => ret (inl m)
  | allowed =>
      let! active := fetch (λ i, GuildThreadsActive i guildID) in
      match active with
      | inr e => if isMissingAccess e then ret (inl m) else ret (inr e)
      | inl threads => ret (inl (put_all (List.filter (λ p, bool_decide (p_ParentID p ∈ allowed)) threads) m))
      end
  end.

(** *** The cursors of an incremental catalog *)

Definition lastSuccessScope : string := "sync:last_success".

Definition archivedThreadInitialCursor (fallback : Z) : M (Z + err) :=
  try! raw := get_sync_state lastSuccessScope orelse (λ e, ret (inr e));
  if (raw =? "")%string then ret (inl fallback)
  else match Parse layoutRFC3339Nano raw with
       | Some t => ret (inl t)
       | None => ret (inr (EText "parse last successful sync time"))
       end.

Definition archivedThreadCursor (scope : string) (initial : Z) : M (Z + err) :=
  try! raw := get_sync_state scope orelse (λ e, ret (inr e));
  if (raw =? "")%string then
    check! (set_sync_state scope (RFC3339Nano initial)) orelse (λ e, ret (inr e));
    ret (inl initial)
  else match Parse layoutRFC3339Nano raw with
       | Some t => ret (inl t)
       | None => ret (inr (EText ("parse archived thread cursor " ++ scope)))
       end.

(** One channel: each of its archives from its own cursor, which moves to the
    start of the scan when the scan succeeded. *)
Fixpoint incremental_archives (m : catalog_map) (channelID : string) (started initial : Z) (kinds : list bool) (failed : bool) :
    M (catalog_map * bool + err) :=
  match kinds with
  | [] => ret (inl (m, failed))
  | private :: kinds =>
      let scope := channelArchivedThreadCursorScope channelID private in
      try! after := archivedThreadCursor scope initial orelse (λ e, ret (inr e));
      let! (m, failed1) := appendArchivedThreads m channelID private after in
      if (failed1 : bool) then incremental_archives m channelID started initial kinds true
      else
        check! (set_sync_state scope (RFC3339Nano started)) orelse (λ e, ret (inr e));
        incremental_archives m channelID started initial kinds failed
  end.

Fixpoint incremental_catalog (m : catalog_map) (started initial : Z) (parents : list string) : M (catalog_map + err) :=
  match parents with
  | [] => ret (inl m)
  | parentID :: parents =>
      match m !! parentID with
      | Some p =>
          if negb (isThreadParent (Some (p_channel p))) then incremental_catalog m started initial parents
          else
            try! (m, failed) := incremental_archives m (p_ID p) started initial (archivedThreadPrivacy (p_channel p)) false orelse (λ e, ret (inr e));
            check! (if (failed : bool) then ret None else clearThreadCatalogUnavailableChannel (p_ID p)) orelse (λ e, ret (inr e));
            incremental_catalog m started initial parents
      | None => incremental_catalog m started initial parents
      end
  end.

Definition appendIncrementalArchivedThreadCatalog (m : catalog_map) (parents : list string) : M (catalog_map + err) :=
  let! scanStartedAt := time_Now in
  try! initialCursor := archivedThreadInitialCursor scanStartedAt orelse (λ e, ret (inr e));
  incremental_catalog m scanStartedAt initialCursor (uniqueIDs parents).

(** ** The catalog of a guild *)

(** The crawl catalog, and the channels this call has seen: all of them but the
    rebuilt ones that no listing has replaced. An incremental catalog returns
    one slice for both, [None]. *)
Definition liveChannelList (guildID : string) (mode : channelCatalogMode) (exclusions : channelExclusions) :
    M (list pointer * option (list pointer) + err) :=
  try! channels := fetch (λ i, GuildChannels i guildID) orelse (λ e, ret (inr (EWrap ("fetch channels for guild " ++ guildID ++ ": ") e "")));
  let all := put_all channels ∅ in
  let parentIDs := scopedThreadParentIDs channels exclusions in
  match mode with
  | channelCatalogIncremental =>
      try! all := appendActiveThreadCatalog all guildID parentIDs orelse (λ e, ret (inr e));
      try! all := appendIncrementalArchivedThreadCatalog all parentIDs orelse (λ e, ret (inr e));
      ret (inl (mapsToSlice all, None))
  | channelCatalogFull =>
      let! step := current_step in
      try! rows := Channels guildID orelse (λ e, ret (inr e));
      let merged := mergeStoredThreadChannels step rows all in
      let rebuilt := filter (λ '(id, _), all !! id = None) merged in
      try! all :=
        (if bool_decide (storedThreadParentIDs rows = ∅) then appendThreadCatalog merged parentIDs
         else appendActiveThreadCatalog merged guildID parentIDs) orelse (λ e, ret (inr e));
      let observed := filter (λ '(id, p), (p_addr <$> rebuilt !! id) ≠ Some (p_addr p)) all in
      ret (inl (mapsToSlice all, Some (map_to_list observed).*2))
  end.

(** ** Requested channels *)

Definition directChannel (channelID : string) (results : direct_results) : M ((option pointer + err) * direct_results) :=
  match results !! channelID with
  | Some r => ret (r, results)
  | None =>
      let! step := current_step in
      let! answer := client_channel channelID in
      let r := match answer with inl c => inl (mkPointer (Answer step 0) <$> c) | inr e => inr e end in
      ret (r, <[channelID := r]> results)
  end.

Fixpoint append_direct (guildID : string) (selectedGuildIDs : gset string) (ids : list string) (m : catalog_map) (requested : gset string)
    (results : direct_results) : M (catalog_map * gset string * direct_results + err) :=
  match ids with
  | [] => ret (inl (m, requested, results))
  | id :: ids =>
      match m !! id with
      | Some _ => append_direct guildID selectedGuildIDs ids m requested results
      | None =>
          let! (r, results) := directChannel id results in
          match r with
          | inr e => ret (inr (EWrap ("fetch requested channel " ++ id ++ ": ") e ""))
          | inl None => append_direct guildID selectedGuildIDs ids m requested results
          | inl (Some p) =>
              let c := p_channel p in
              if (ch_ID c =? "")%string then append_direct guildID selectedGuildIDs ids m requested results
              else if (ch_GuildID c =? "")%string
              then ret (inr (EText ("requested channel " ++ ch_ID c ++ " is not a guild channel")))
              else if negb (ch_GuildID c =? guildID)%string then
                if bool_decide (ch_GuildID c ∈ selectedGuildIDs)
                then append_direct guildID selectedGuildIDs ids m (requested ∖ {[id]}) results
                else ret (inr (EText ("requested channel " ++ ch_ID c ++ " belongs to guild " ++ ch_GuildID c ++ ", not " ++ guildID)))
              else append_direct guildID selectedGuildIDs ids (put p m) requested results
          end
      end
  end.
Definition appendDirectRequestedChannels (guildID : string) (m : catalog_map) (requested selectedGuildIDs : gset string) (results : direct_results) :
    M (catalog_map * gset string * direct_results + err) :=
  append_direct guildID selectedGuildIDs (elements requested) m requested results.

(** The ancestry of one desktop target, up to a channel without a parent. *)
Fixpoint hydrate_target (fuel : nat) (guildID targetID channelID : string) (seen : list string) (m : catalog_map) (results : direct_results) :
    M (catalog_map * direct_results + err) :=
  if (channelID =? "")%string then ret (inl (m, results))
  else if bool_decide (channelID ∈ seen)
  then ret (inr (EText ("channel metadata for " ++ targetID ++ " has an ancestor cycle at " ++ channelID)))
  else match fuel with
  | O => out_of_fuel
  | S fuel =>
      let! (r, results) := (match m !! channelID with Some p => ret (inl (Some p), results) | None => directChannel channelID results end) in
      match r with
      | inr e => ret (inr (EWrap ("fetch channel metadata " ++ channelID ++ " for " ++ targetID ++ ": ") e ""))
      | inl None => ret (inr (EText ("channel metadata " ++ channelID ++ " for " ++ targetID ++ " is missing or has a different ID")))
      | inl (Some p) =>
          let c := p_channel p in
          if negb (ch_ID c =? channelID)%string
          then ret (inr (EText ("channel metadata " ++ channelID ++ " for " ++ targetID ++ " is missing or has a different ID")))
          else if negb (ch_GuildID c =? guildID)%string
          then ret (inr (EText ("channel metadata " ++ channelID ++ " belongs to guild " ++ ch_GuildID c ++ ", not " ++ guildID)))
          else if isThreadChannel (Some c) && (ch_ParentID c =? "")%string
          then ret (inr (EText ("thread metadata " ++ channelID ++ " is missing its parent")))
          else if negb (isThreadChannel (Some c)) && negb (is_some (ch_Overwrites c))
          then ret (inr (EText ("channel metadata " ++ channelID ++ " is missing permission overwrites")))
          else hydrate_target fuel guildID targetID (ch_ParentID c) (channelID :: seen) (<[channelID := p]> m) results
      end
  end.

Fixpoint hydrate_targets (guildID : string) (targets : list string) (m : catalog_map) (results : direct_results) :
    M (catalog_map * direct_results + err) :=
  match targets with
  | [] => ret (inl (m, results))
  | t :: targets =>
      try! (m, results) := hydrate_target fuel guildID t t [] m results orelse (λ e, ret (inr e));
      hydrate_targets guildID targets m results
  end.
Definition hydrateDesktopChannelMetadata (guildID : string) (m : catalog_map) (targets : gset string) (results : direct_results) :
    M (catalog_map * direct_results + err) := hydrate_targets guildID (elements targets) m results.

(** ** The channels of a run *)

(** What [channelList] returns: the channels, whether they were targeted, the
    addresses it has put into [cachedChannels], and the lookups by id. *)
Record listed := mkListed { li_channels : list pointer; li_targeted : bool; li_cached : list address; li_results : direct_results }.

(** The whole catalog of a guild. *)
Definition full_list (guildID : string) (mode : channelCatalogMode) (exclusions : channelExclusions) (results : direct_results) : M (listed + err) :=
  let! started := time_Now in
  try! (channels, observed) := liveChannelList guildID mode exclusions orelse (λ e, ret (inr e));
  let! (stored, e) := storeScopeMetadata guildID (default channels observed) configured_scope started in
  match e with
  | Some e => ret (inr e)
  | None =>
      let channels := match observed with Some _ => channels | None => stored end in
      ret (inl (mkListed (filter_pointers channels (channels_by_id (p_channel <$> channels)) exclusions) false (p_addr <$> channels) results))
  end.

Definition fill_guild (step : nat) (guildID : string) (m : catalog_map) : catalog_map :=
  (λ p, if (ch_GuildID (p_channel p) =? "")%string then copy_with_guild step guildID p else p) <$> m.

(** The live part of a targeted list: forums, direct lookups and the threads of
    every parent are fetched only while a requested id is missing. *)
Definition targeted_list (guildID : string) (requested : gset string) (storedCatalog : gmap string Channel) (storedByID : catalog_map)
    (desktopTargets : gset string) (cached : list address) (exclusions : channelExclusions) (selectedGuildIDs : gset string)
    (results : direct_results) : M (listed + err) :=
  let! started := time_Now in
  try! topLevel := fetch (λ i, GuildChannels i guildID) orelse (λ e, ret (inr (EWrap ("fetch channels for guild " ++ guildID ++ ": ") e "")));
  let live := put_all topLevel ∅ in
  try! (all, results) := hydrateDesktopChannelMetadata guildID live desktopTargets results orelse (λ e, ret (inr e));
  let forums := requestedForumParents all requested in
  try! all := (if bool_decide (forums = ∅) then ret (inl all) else appendThreadCatalog all (elements forums)) orelse (λ e, ret (inr e));
  let selected := selectRequestedChannels all storedByID requested in
  try! (all, requested, results) :=
    (if (0 <? unresolvedRequestedIDs selected requested)%nat
     then appendDirectRequestedChannels guildID all requested selectedGuildIDs results
     else ret (inl (all, requested, results))) orelse (λ e, ret (inr e));
  let selected := selectRequestedChannels all storedByID requested in
  try! all := (if (0 <? unresolvedRequestedIDs selected requested)%nat then appendThreadCatalog all (threadParentIDs topLevel) else ret (inl all))
    orelse (λ e, ret (inr e));
  let! step := current_step in
  let all := fill_guild step guildID all in
  let selected := filter_pointers (selectRequestedChannels all storedByID requested) (mergedChannelCatalog storedCatalog (channels_of all)) exclusions in
  let selected := withHydratedAncestors selected all desktopTargets in
  let observed := hydratedObservations all (dom live) desktopTargets selected in
  let! (observed, e) := storeScopeMetadata guildID observed configured_scope started in
  match e with
  | Some e => ret (inr e)
  | None => ret (inl (mkListed selected true (cached ++ (p_addr <$> observed)) results))
  end.

Definition channelList (guildID : string) (requested : list string) (mode : channelCatalogMode) (exclusions : channelExclusions)
    (selectedGuildIDs : gset string) (results : direct_results) : M (listed + err) :=
  match requested with
  | [] => full_list guildID mode exclusions results
  | _ =>
      let requestedSet := list_to_set (List.filter nonempty requested) in
      let! step := current_step in
      try! rows := Channels guildID orelse (λ e, ret (inr e));
      try! desktopIDs := DesktopChannelIDs guildID orelse (λ e, ret (inr e));
      let desktopTargets := list_to_set (List.filter (λ id, bool_decide (id ∈ requestedSet)) desktopIDs) in
      let storedByID := filter (λ '(id, _), id ∉ desktopTargets) (selectStoredChannels step rows requestedSet) in
      let cached := (λ '(_, p), p_addr p) <$> map_to_list storedByID in
      let storedCatalog := storedChannelCatalog rows in
      if canUseStoredTargets storedByID requestedSet then
        check! (refreshStoredScopes configured_scope) orelse (λ e, ret (inr e));
        let selected := selectRequestedChannels ∅ storedByID requestedSet in
        ret (inl (mkListed (filter_pointers selected storedCatalog exclusions) true cached results))
      else targeted_list guildID requestedSet storedCatalog storedByID desktopTargets cached exclusions selectedGuildIDs results
  end.

(** ** Storing the list (syncer.go) *)

Record SyncStats := mkStats { st_Guilds : nat; st_Channels : nat; st_Threads : nat; st_Members : nat; st_Messages : nat }.
Definition zero_stats : SyncStats := mkStats 0 0 0 0 0.
Definition addChannel (r : ChannelRecord) (s : SyncStats) : SyncStats :=
  mkStats (st_Guilds s) (S (st_Channels s)) (if is_thread_kind (cr_Kind r) then S (st_Threads s) else st_Threads s) (st_Members s) (st_Messages s).

Fixpoint storeChannelList (ps : list pointer) (cached : list address) (alreadyCounted : gset string) (stats : SyncStats) : M (SyncStats * option err) :=
  match ps with
  | [] => ret (stats, None)
  | p :: ps =>
      let record := toChannelRecord (p_channel p) in
      check! (if bool_decide (p_addr p ∈ cached) then ret None else entity_write (λ now, UpsertObservedChannel now record None))
        orelse (λ e, ret (stats, Some e));
      storeChannelList ps cached alreadyCounted (if bool_decide (p_ID p ∈ alreadyCounted) then stats else addChannel record stats)
  end.
End Catalog.
