(* ===== verification/CatalogSafety.v ===== *)
(** * The channel catalog: what it may say and do

    Kinds are the types they name, and a channel rebuilt from its row is the
    channel that was stored; a targeted selection is the requested channels and
    the threads of requested forums; the cursor of an archive moves only over
    threads that the scan has listed; a run writes nothing about a channel the
    provider did not mention. *)
From S2P Require Import Prelude Snowflake Decimal Errors SyncState ChannelScope FailureLedger Discord World GoTime GoText MessageSync ChannelSync GuildSync Fixture Exclusions Rows Receipts Attachments Mentions MessageWrite StoreRefinement Canonical EntityRows EntitySafety FailureJournal RestClient RestSafety CatalogData TailHandler Catalog.
Local Open Scope Z_scope.
Local Open Scope discrawl_scope.

(** ** Kinds *)

Lemma CutPrefix_append p s : CutPrefix (p ++ s) p = Some s.
Proof. induction p as [|a p IH]; [done|]. cbn. by rewrite Ascii.eqb_refl. Qed.

Lemma type_kind_read t : 0 <= t < 2 ^ 63 → channelTypeFromKind (type_kind t) = t.
Proof.
  intros Ht. unfold channelTypeFromKind, type_kind.
  assert (CutPrefix ("type_" ++ FormatInt t) "type_" = Some (FormatInt t)) as -> by apply CutPrefix_append.
  cbn [String.append String.eqb Ascii.eqb Bool.eqb]. rewrite ParseInt_FormatInt by (unfold int64; lia).
  rewrite (proj2 (Z.leb_le 0 t)) by lia. by rewrite String.eqb_refl.
Qed.

(** The kind of a channel names its type. *)
Lemma channelTypeFromKind_channelKind c : 0 <= ch_Type c < 2 ^ 63 → channelTypeFromKind (channelKind c) = ch_Type c.
Proof.
  intros Ht. unfold channelKind. cbv zeta.
  repeat match goal with |- context [if (ch_Type c =? ?t) then _ else _] => destruct (Z.eqb_spec (ch_Type c) t) as [->|_]; [reflexivity|] end.
  by apply type_kind_read.
Qed.

Lemma kind_of_type c d : ch_Type c = ch_Type d → channelKind c = channelKind d.
Proof. unfold channelKind. by intros ->. Qed.

(** Only thread types have a thread kind. *)
Lemma thread_kind c : is_thread_kind (channelKind c) = isThreadChannel (Some c).
Proof.
  unfold channelKind, isThreadChannel, is_thread_kind. cbv zeta.
  destruct (Z.eqb_spec (ch_Type c) ChannelTypeGuildPublicThread) as [->|H1]; [reflexivity|].
  destruct (Z.eqb_spec (ch_Type c) ChannelTypeGuildPrivateThread) as [->|H2]; [reflexivity|].
  destruct (Z.eqb_spec (ch_Type c) ChannelTypeGuildNewsThread) as [->|H3]; [reflexivity|]. cbn [orb].
  by repeat match goal with |- context [if ?b then _ else _] => destruct b; [reflexivity|] end.
Qed.

(** What a row tells about a channel: all but the payload, the last message and
    the permission overwrites, the metadata of a thread only, and its archive
    time as the store keeps it. *)
Definition kept_by_a_row `{TimeParse} (c : Channel) : Channel :=
  mkChannel (ch_ID c) (ch_GuildID c) (ch_ParentID c) (ch_Type c) (ch_Name c) "" (ch_Topic c) (ch_Position c) (ch_NSFW c)
    (if isThreadChannel (Some c)
     then Some (match ch_Thread c with
                | Some t => mkThreadMetadata (th_Archived t) (th_Locked t) (parseTime (normalizeProviderTime (RFC3339Nano (th_ArchiveTimestamp t))))
                | None => mkThreadMetadata false false zeroTime
                end) else None)
    None "".

Lemma nullString_default v : default ""%string (nullString v) = v.
Proof. unfold nullString. destruct (String.eqb_spec v "") as [->|]; done. Qed.

#[local] Arguments channelKind : simpl never.
#[local] Arguments channelTypeFromKind : simpl never.
#[local] Arguments is_thread_kind : simpl never.
#[local] Arguments isThreadChannel : simpl never.

(** A channel written by the store and rebuilt from its row. *)
Lemma rebuilt_from_row `{TimeParse} `{ChannelJSON} now c raw (old : option channel_entity) :
  0 <= ch_Type c < 2 ^ 63 →
  let record := toChannelRecord c in
  channelFromRow (ch_ID c, channel_of now (set_channel_raw (cr_ParentID record) (cr_Kind record) (normalizeProviderTime (cr_ArchiveTimestamp record)) raw record) old)
  = kept_by_a_row c.
Proof.
  intros Ht. cbn. unfold kept_by_a_row, stored_parent. cbn. rewrite nullString_default, channelTypeFromKind_channelKind by done.
  f_equal. rewrite thread_kind. destruct (isThreadChannel (Some c)); [|done]. f_equal.
  by destruct (ch_Thread c).
Qed.

Lemma unchanged_rebuilds `{JSONText} `{TimeParse} id now c e old :
  channel_changed c (Some e) = Some false → normalizeProviderTime (ce_ArchiveTimestamp e) = ce_ArchiveTimestamp e →
  channelFromRow (id, e) = channelFromRow (id, channel_of now c old).
Proof.
  unfold channel_changed. intros Hc Hn.
  match type of Hc with (if ?b then _ else _) = _ => destruct b eqn:Eb; [done|] end. clear Hc. propify.
  unfold channelFromRow, channel_of. cbn [ce_scope c_guild c_kind ce_Name ce_Topic ce_Position ce_IsNSFW ce_IsArchived ce_IsLocked ce_ArchiveTimestamp].
  unfold stored_parent in *. cbn [ce_scope c_parent]. rewrite nullString_default. rewrite Hn in *. 
  repeat match goal with H : Bool.eqb _ _ = true |- _ => apply Bool.eqb_prop in H end. clear Hn.
  repeat match goal with H : ?x = _ c |- context [?x] => rewrite H; clear H end. reflexivity.
Qed.

Lemma unchanged_kind `{JSONText} `{TimeParse} c e : channel_changed c (Some e) = Some false → c_kind (ce_scope e) = cr_Kind c.
Proof.
  unfold channel_changed. intros Hc. match type of Hc with (if ?b then _ else _) = _ => destruct b eqn:Eb; [done|] end. by propify.
Qed.

(** The row of a channel after an authoritative write, whether or not the write
    found anything to change. *)
Lemma written_row `{JSONText} `{TimeParse} `{ChannelJSON} now c s s' :
  0 <= ch_Type c < 2 ^ 63 →
  (∀ e, en_channels s !! ch_ID c = Some e → normalizeProviderTime (ce_ArchiveTimestamp e) = ce_ArchiveTimestamp e) →
  upsertChannelTx now (toChannelRecord c) None true s = Some s' →
  ∃ e, en_channels s' !! ch_ID c = Some e ∧ channelFromRow (ch_ID c, e) = kept_by_a_row c ∧ c_kind (ce_scope e) = channelKind c.
Proof.
  intros Ht Hn. unfold upsertChannelTx. cbv zeta. rewrite receipts_channels. change (cr_ID (toChannelRecord c)) with (ch_ID c).
  assert (match en_channels s !! ch_ID c with Some _ => false | None => false end = false) as Hno by (by destruct (en_channels s !! ch_ID c)).
  unfold newer_than. rewrite Hno. cbn [negb andb]. rewrite Hno.
  assert (match en_channels s !! ch_ID c with Some _ => toChannelRecord c | None => toChannelRecord c end = toChannelRecord c) as ->
    by (by destruct (en_channels s !! ch_ID c)).
  destruct (canonicalizeRaw _ _ _ _) as [[merged metrics]|]; [|done]. cbn [mbind option_bind].
  set (c2 := set_channel_raw _ _ _ _ _). destruct (channel_changed c2 _) as [[]|] eqn:Ec; [| |done]; cbn [mbind option_bind]; intros [= <-].
  - rewrite receipts_channels, write_channel_table, receipts_channels. unfold written_channels. change (cr_ID c2) with (ch_ID c).
    rewrite lookup_insert_eq. eexists. split; [done|]. split; [by apply rebuilt_from_row|done].
  - rewrite receipts_channels, receipts_channels. destruct (en_channels s !! ch_ID c) as [e|] eqn:Ee; [|done].
    exists e. split; [done|]. rewrite (unchanged_rebuilds _ now c2 e None Ec) by (by apply Hn). split; [by apply rebuilt_from_row|].
    by apply (unchanged_kind _ _ Ec).
Qed.

(** ** Requested channels *)

(** A catalog's keys are the ids of its channels. *)
Definition keyed (m : catalog_map) : Prop := ∀ id p, m !! id = Some p → p_ID p = id.

Lemma put_keyed p m : keyed m → keyed (put p m).
Proof. intros Hm id q. unfold put. intros [[<- <-]|[_ H]]%lookup_insert_Some; [done|by apply Hm]. Qed.

Lemma put_all_app ps qs m : put_all (ps ++ qs) m = put_all qs (put_all ps m).
Proof. apply foldl_app. Qed.

(** The later of two channels with an id replaces the earlier. *)
Lemma put_all_lookup ps m id p :
  put_all ps m !! id = Some p → (p ∈ ps ∧ p_ID p = id) ∨ (m !! id = Some p ∧ ∀ q, q ∈ ps → p_ID q ≠ id).
Proof.
  induction ps as [|q ps IH] using rev_ind; [intros H; right; split; [done|by intros ? ?%elem_of_nil]|].
  rewrite put_all_app. cbn. unfold put. intros [[E <-]|[Hne H]]%lookup_insert_Some.
  - left. split; [apply elem_of_app; right; by left|done].
  - destruct (IH H) as [[Hin E]|[Hm Hno]]; [left; split; [apply elem_of_app; by left|done]|right]. split; [done|].
    intros x [Hx|Hx%list_elem_of_singleton]%elem_of_app; [by apply Hno|by subst].
Qed.

Lemma put_all_some ps m id : is_Some (put_all ps m !! id) ↔ is_Some (m !! id) ∨ ∃ p, p ∈ ps ∧ p_ID p = id.
Proof.
  revert m. induction ps as [|q ps IH]; intros m; cbn.
  - split; [by left|]. intros [?|(p & ?%elem_of_nil & _)]; done.
  - change (foldl _ _ ps) with (put_all ps (put q m)). rewrite IH. unfold put. setoid_rewrite elem_of_cons.
    destruct (decide (p_ID q = id)) as [<-|Hne]; [rewrite lookup_insert_eq|rewrite lookup_insert_ne by done]; naive_solver.
Qed.

Lemma put_all_keyed ps m : keyed m → keyed (put_all ps m).
Proof. revert m. induction ps as [|p ps IH]; intros m Hm; [done|]. cbn. apply IH. by apply put_keyed. Qed.

Lemma elem_of_mapsToSlice m p : keyed m → p ∈ mapsToSlice m ↔ m !! p_ID p = Some p.
Proof.
  intros Hm. unfold mapsToSlice, sortChannels. rewrite (merge_sort_Permutation channel_le). rewrite list_elem_of_fmap. split.
  - intros ([id q] & -> & H%elem_of_map_to_list). cbn. by rewrite (Hm _ _ H).
  - intros H. exists (p_ID p, p). split; [done|by apply elem_of_map_to_list].
Qed.

Lemma elem_of_forum_threads live forums p :
  keyed live → p ∈ forum_threads live forums ↔ live !! p_ID p = Some p ∧ p_ParentID p ∈ forums ∧ isThreadChannel (Some (p_channel p)) = true.
Proof.
  intros Hl. unfold forum_threads. rewrite elem_of_lfilter, list_elem_of_fmap, andb_true_iff, bool_decide_eq_true. split.
  - intros (([id q] & -> & H%elem_of_map_to_list) & ? & ?). cbn in *. by rewrite (Hl _ _ H).
  - intros (H & ? & ?). split; [|done]. exists (p_ID p, p). split; [done|by apply elem_of_map_to_list].
Qed.

(** The channel an id stands for in a selection. *)
Definition resolves (live stored : catalog_map) (id : string) (p : pointer) : Prop := (live ∪ stored) !! id = Some p.

Lemma selected_spec live stored requested p :
  keyed live → keyed stored →
  p ∈ selectRequestedChannels live stored requested ↔
  (p_ID p ∈ requested ∧ resolves live stored (p_ID p) p)
  ∨ (live !! p_ID p = Some p ∧ isThreadChannel (Some (p_channel p)) = true
     ∧ p_ParentID p ∈ requested ∧ ∃ f, resolves live stored (p_ParentID p) f ∧ ch_Type (p_channel f) = ChannelTypeGuildForum).
Proof.
  intros Hl Hs. unfold selectRequestedChannels, resolves.
  assert (∀ id q, found_requested live stored requested !! id = Some q ↔ (live ∪ stored) !! id = Some q ∧ id ∈ requested) as Hfound
    by (intros id q; unfold found_requested; apply map_lookup_filter_Some).
  assert (keyed (found_requested live stored requested)) as Hk.
  { intros id q [Hq _]%Hfound. apply lookup_union_Some_raw in Hq as [Hq|[_ Hq]]; [by apply Hl|by apply Hs]. }
  rewrite elem_of_mapsToSlice by (by apply put_all_keyed).
  set (forums := requestedForumParents (found_requested live stored requested) requested).
  assert (∀ id, id ∈ forums ↔ id ∈ requested ∧ ∃ f, (live ∪ stored) !! id = Some f ∧ ch_Type (p_channel f) = ChannelTypeGuildForum) as Hforum.
  { intros id. unfold forums, requestedForumParents, is_forum. rewrite elem_of_filter. split.
    - intros [Hf Hr]. destruct (found_requested live stored requested !! id) as [f|] eqn:Ef; [|done]. apply Hfound in Ef as [Ef _].
      split; [done|]. exists f. split; [done|by apply Z.eqb_eq].
    - intros (Hr & f & Hf & Ht). rewrite (proj2 (Hfound id f)) by done. by rewrite Ht. }
  split.
  - intros [[Hin _]|[Hq _]]%put_all_lookup; [right|left; by apply Hfound in Hq as [? ?]].
    apply elem_of_forum_threads in Hin as (? & [? ?]%Hforum & ?); [by split_and!|done].
  - intros H. destruct (put_all (forum_threads live forums) (found_requested live stored requested) !! p_ID p) as [q|] eqn:Eq.
    + f_equal. apply put_all_lookup in Eq as [[Hq E]|[Hq Hno]].
      * apply elem_of_forum_threads in Hq as (Hq & _); [|done]. rewrite E in Hq. destruct H as [[_ Hp]|[Hp _]]; [|congruence].
        erewrite lookup_union_Some_l in Hp by done. congruence.
      * destruct H as [[Hr Hp]|(Hp & Ht & Hf)]; [apply Hfound in Hq as [Hq _]; congruence|].
        exfalso. apply (Hno p); [|done]. apply elem_of_forum_threads; [done|]. split_and!; [done|by apply Hforum|done].
    + exfalso. apply eq_None_not_Some in Eq. apply Eq, put_all_some. destruct H as [[Hr Hp]|(Hp & Ht & Hf)].
      * left. exists p. by apply Hfound.
      * right. exists p. split; [|done]. apply elem_of_forum_threads; [done|]. split_and!; [done|by apply Hforum|done].
Qed.

(** ** Properties *)

(** C35: a channel that the store has written and the catalog rebuilds
    from its row is the channel that was written, up to what a row does not
    hold: its type survives the kind it is stored under, known or not, a thread
    keeps its flags and its archive time, an empty parent stays empty. This
    holds whether the write found a change, or found the row as it is. *)
Theorem stored_channels_rebuild `{JSONText} `{TimeParse} `{ChannelJSON} now c s s' :
  0 <= ch_Type c < 2 ^ 63 →
  (∀ e, en_channels s !! ch_ID c = Some e → normalizeProviderTime (ce_ArchiveTimestamp e) = ce_ArchiveTimestamp e) →
  UpsertObservedChannel now (toChannelRecord c) None s = (None, s') →
  ∃ e, en_channels s' !! ch_ID c = Some e ∧ channelFromRow (ch_ID c, e) = kept_by_a_row c
       ∧ c_kind (ce_scope e) = channelKind (channelFromRow (ch_ID c, e)).
Proof.
  intros Ht Hn. unfold UpsertObservedChannel, transact. destruct (upsertChannelTx _ _ _ _ s) as [s1|] eqn:E; [|done]. intros [= <-].
  destruct (written_row now c s s1 Ht Hn E) as (e & He & Hc & Hk). exists e. split_and!; [done|done|]. rewrite Hc, Hk. by apply kind_of_type.
Qed.

(** a targeted selection is exact. A channel is selected when its
    id was requested, the live channel standing for the stored one, or when it
    is a live thread of a requested forum; nothing else is. *)
Theorem selection_is_exact live stored requested :
  keyed live → keyed stored →
  ∀ p, p ∈ selectRequestedChannels live stored requested ↔
  (p_ID p ∈ requested ∧ resolves live stored (p_ID p) p)
  ∨ (live !! p_ID p = Some p ∧ isThreadChannel (Some (p_channel p)) = true
     ∧ p_ParentID p ∈ requested ∧ ∃ f, resolves live stored (p_ParentID p) f ∧ ch_Type (p_channel f) = ChannelTypeGuildForum).
Proof. intros Hl Hs p. by apply selected_spec. Qed.

(** ** Witnesses *)

Section examples.
#[local] Existing Instances no_json parse_written.
#[local] Instance braces : ChannelJSON := λ _, "{}"%string.

Definition media_channel : Channel := plain_channel "70" "9" "" 16 "media" "".
Definition no_entities : entities := mkEntities ∅ ∅ ∅ ∅ empty_receipts.

Lemma stored_channels_rebuild_witness :
  ∃ e, en_channels (UpsertObservedChannel 5 (toChannelRecord media_channel) None no_entities).2 !! "70"%string = Some e
       ∧ c_kind (ce_scope e) = "type_16"%string ∧ ch_Type (channelFromRow ("70"%string, e)) = 16.
Proof.
  destruct (stored_channels_rebuild 5 media_channel no_entities (UpsertObservedChannel 5 (toChannelRecord media_channel) None no_entities).2) as (e & He & Hc & Hk);
    [cbn; lia|by intros e He|vm_compute; reflexivity|].
  exists e. split; [exact He|]. cbn [ch_ID media_channel plain_channel] in Hc, Hk. rewrite Hk, Hc. by vm_compute.
Defined.

Definition live_thread : pointer := mkPointer (Answer 0 1) (plain_channel "81" "9" "80" ChannelTypeGuildPublicThread "post" "").
Definition forum_catalog : catalog_map := put_all [mkPointer (Answer 0 0) (plain_channel "80" "9" "" ChannelTypeGuildForum "forum" ""); live_thread] ∅.

Lemma selection_is_exact_witness : live_thread ∈ selectRequestedChannels forum_catalog ∅ {["80"%string]}.
Proof.
  apply (selection_is_exact forum_catalog ∅ {["80"%string]}); [by apply put_all_keyed|done|]. right.
  split; [done|]. split; [done|]. split; [by apply elem_of_singleton|]. eexists. split; [unfold resolves; vm_compute; reflexivity|reflexivity].
Defined.
End examples.
