(* ===== verification/CatalogCursor.v ===== *)
(** * The cursors of the archived threads

    An incremental catalog lists each archive from a cursor of its own. The
    cursor moves only to the start of a scan that listed the archive from the
    old cursor on, so that, while catalogs are stored, no archived thread is
    skipped but for one of the archive instant of another that is listed
    (RestSafety); it moves before the catalog is stored, and an example shows
    the thread that is lost when storing fails. *)
From S2P Require Import Prelude Snowflake Decimal Errors SyncState ChannelScope FailureLedger Discord World GoTime GoText MessageSync ChannelSync GuildSync Fixture Exclusions Rows Receipts Attachments Mentions MessageWrite StoreRefinement Canonical EntityRows EntitySafety FailureJournal RestClient RestSafety CatalogData TailHandler Catalog CatalogSafety.
Local Open Scope Z_scope.
Local Open Scope discrawl_scope.

Lemma archive_scope_inj ch ch' private private' :
  channelArchivedThreadCursorScope ch private = channelArchivedThreadCursorScope ch' private' → ch = ch' ∧ private = private'.
Proof.
  intros H. unfold channelArchivedThreadCursorScope in H.
  destruct private, private'; apply channelScope_inj in H as [? ?]; done.
Qed.

Lemma archive_scope_not_unavailable ch ch' private :
  channelArchivedThreadCursorScope ch private ≠ channelThreadCatalogUnavailableScope ch'.
Proof.
  intros H. unfold channelArchivedThreadCursorScope, channelThreadCatalogUnavailableScope in H.
  destruct private; apply channelScope_inj in H as [? ?]; done.
Qed.

#[local] Arguments channelArchivedThreadCursorScope : simpl never.

Section Cursor.
Context {ENV : Env} {TE : TailEnv} {RE : RestEnv} {CE : CatalogEnv} {CF : ChannelJSON}.
Context {tp : TimeParse} {jt : JSONText}.
Context (configured_scope : channelExclusions) (fuel : nat).
Local Abbreviation M := (M tail_tables).

(** Only the steps that a listing took pass. *)
Lemma listing_keeps ch private after before out (w : tail_world) f :
  wp (ThreadsArchived_loop f ch private after before out) (λ _ w', w_sync w' = w_sync w) w.
Proof.
  revert before out w. induction f as [|f IH]; intros before out w; [apply wp_fuel|]. cbn [ThreadsArchived_loop].
  apply wp_bind with (R := λ _ w', w_sync w' = w_sync w); [by intros ? ? [= <- <-]|]. intros [[threads more]|e] w1 Hw; [|by apply wp_ret].
  destruct (last threads) as [oldest|]; [|by apply wp_ret]. destruct (until_covered after threads) as [reached kept].
  destruct (reached || negb more); [by apply wp_ret|]. destruct (ch_Thread oldest); [|by apply wp_ret].
  case_bool_decide; [by apply wp_ret|]. rewrite <- Hw. apply IH.
Qed.

(** ** What a channel's scan does to one cursor *)

Context (ch : string) (private : bool) (archive : list Channel) (HA : serves_archive ch private archive).
Context (Hnano : ∀ t t', Parse layoutRFC3339Nano (RFC3339Nano t) = Some t' → t' = t).
Context (old : string) (initial started : Z).

Abbreviation the_scope := (channelArchivedThreadCursorScope ch private).
Definition reads (w : tail_world) (text : string) : Prop := GetSyncState the_scope (w_sync w) = text.

(** The instant a scan starts from. *)
Definition starts_from (after : Z) : Prop := (old = ""%string ∧ after = initial) ∨ (old ≠ ""%string ∧ Parse layoutRFC3339Nano old = Some after).

(** Every thread archived after [after] is in the catalog, or one archived at
    the same instant is. *)
Definition in_catalog (m : catalog_map) (c : Channel) : Prop :=
  is_Some (m !! ch_ID c) ∨ ∃ d, d ∈ archive ∧ twin d c ∧ is_Some (m !! ch_ID d).
Definition holds_archive (after : Z) (m : catalog_map) : Prop := ∀ c, c ∈ archive → covered after c = false → in_catalog m c.

(** Where the cursor may be during a scan; the third place asks for a catalog
    with the threads. *)
Definition not_moved (w : tail_world) : Prop := reads w old ∨ (old = ""%string ∧ reads w (RFC3339Nano initial)).
Definition moved_over (m : catalog_map) (w : tail_world) : Prop :=
  reads w (RFC3339Nano started) ∧ ∃ after, starts_from after ∧ holds_archive after m.
Definition placed (m : catalog_map) (w : tail_world) : Prop := not_moved w ∨ moved_over m w.

Lemma in_catalog_grows m m' c : (∀ id, is_Some (m !! id) → is_Some (m' !! id)) → in_catalog m c → in_catalog m' c.
Proof. intros Hm [Hc|(d & Hd & Ht & Hm')]; [left; by apply Hm|right; exists d; split_and!; [done..|by apply Hm]]. Qed.

Lemma placed_grows m m' w w' :
  placed m w → (∀ id, is_Some (m !! id) → is_Some (m' !! id)) → w_sync w' = w_sync w → placed m' w'.
Proof.
  unfold placed, moved_over, not_moved, reads, holds_archive. intros H Hm ->. destruct H as [H|(H & after & Hs & Hh)]; [by left|right].
  split; [done|]. exists after. split; [done|]. intros c Hc Hcov. eapply in_catalog_grows; [exact Hm|by apply Hh].
Qed.

Lemma placed_other m w scope now cur : placed m w → scope ≠ the_scope → placed m (with_sync (SetSyncState now scope cur (w_sync w)) w).
Proof.
  unfold placed, moved_over, not_moved, reads. intros H Hne. cbn. by rewrite GetSyncState_Set_ne.
Qed.

Lemma put_all_grows ps m id : is_Some (m !! id) → is_Some (put_all ps m !! id).
Proof. intros H. apply put_all_some. by left. Qed.

(** Another scope is written, or nothing is. *)
Lemma set_elsewhere m scope cur w : placed m w → scope ≠ the_scope → wp (T:=tail_tables) (set_sync_state scope cur) (λ _ w', placed m w') w.
Proof.
  intros Hp Hne. eapply wp_conseq; [|exact Hp|by intros ? ? H; exact H].
  apply hoare_store_write; [|intros now w1 e w2 H1 [= <- <-]; split; intros; by apply placed_other|done].
  intros w1 H1. by apply (placed_grows m m w1).
Qed.

Lemma clear_elsewhere m channelID w : placed m w → wp (T:=tail_tables) (clearThreadCatalogUnavailableChannel channelID) (λ _ w', placed m w') w.
Proof.
  intros Hp. unfold clearThreadCatalogUnavailableChannel. destruct (_ =? "")%string; [by apply wp_ret|].
  eapply wp_conseq; [|exact Hp|by intros ? ? H; exact H].
  apply hoare_store_write; [intros w1 H1; by apply (placed_grows m m w1)| |done].
  assert (∀ w1, placed m w1 → placed m (with_sync (DeleteSyncState (channelThreadCatalogUnavailableScope channelID) (w_sync w1)) w1)) as Hd.
  { unfold placed, moved_over, not_moved, reads. intros w1 H1. cbn. rewrite GetSyncState_Delete_ne; [done|]. intros E. symmetry in E. by apply archive_scope_not_unavailable in E. }
  intros now w1 e w2 H1 [= <- <-]. split; intros; by apply Hd.
Qed.

Lemma read_keeps m scope w : placed m w → wp (T:=tail_tables) (get_sync_state scope) (λ r w', placed m w' ∧ (∀ v, r = inl v → v = GetSyncState scope (w_sync w)) ∧ w_sync w' = w_sync w) w.
Proof.
  intros Hp r w'. unfold get_sync_state, store_read. destruct (outcome_at _); intros [= <- <-]; (split; [by apply (placed_grows m m w)|split; [by intros ? [= <-]|done]]).
Qed.

Lemma skip_keeps m channelID e w :
  placed m w → wp (T:=tail_tables) (skipUnavailableChannelByID channelID e channelThreadCatalogUnavailableScope) (λ _ w', placed m w') w.
Proof.
  intros Hp. unfold skipUnavailableChannelByID. cbv zeta. destruct (_ =? "")%string; [by apply wp_ret|]. destruct (channelID =? "")%string; [by apply wp_ret|].
  eapply wp_bind; [by apply read_keeps|]. intros r w1 [H1 _]. eapply wp_bind.
  { apply set_elsewhere; [exact H1|]. intros E. symmetry in E. by apply archive_scope_not_unavailable in E. }
  intros [e'|] w2 H2; by apply wp_ret.
Qed.

(** A listing: the catalog grows, and by the whole archive when it is this one
    and the listing did not fail. *)
Lemma listing_places m channelID kind after w :
  placed m w →
  wp (appendArchivedThreads fuel m channelID kind after)
     (λ '(m', failed) w', placed m' w' ∧ (failed = false → (moved_over m w → moved_over m' w') ∧ (channelID = ch → kind = private → holds_archive after m'))) w.
Proof.
  intros Hp. unfold appendArchivedThreads. apply wp_bind with (R := λ s w', s = w_step w ∧ w' = w); [by intros ? ? [= <- <-]|]. intros s w1 [-> ->].
  apply wp_bind with (R := λ r w', w_sync w' = w_sync w ∧ (channelID = ch → kind = private →
     ∀ out, r = inl out → archive_listed archive after out)).
  { intros r w' E. split; [by apply (listing_keeps _ _ _ _ _ _ _ _ _ E)|]. intros -> -> out ->.
    apply (archive_ends _ _ _ HA fuel after None [] w (archive_start archive after) _ _ E _ eq_refl). }
  intros [out|e] w1 [Hw Hall].
  - apply wp_ret. split; [apply (placed_grows m _ w); [done|intros; by apply put_all_grows|done]|]. intros _. split.
    { unfold moved_over, reads. cbn. rewrite Hw. intros (Hr & a & Ha & Hh). split; [done|]. exists a. split; [done|]. intros c Hc Hcov.
      eapply in_catalog_grows; [intros id; apply put_all_grows|by apply Hh]. }
    assert (Hput : ∀ c, c ∈ out → is_Some (put_all (allocate (w_step w) out) m !! ch_ID c)).
    { intros c [i Hi]%list_elem_of_lookup. apply put_all_some. right. exists (mkPointer (Answer (w_step w) i) c). split; [|done].
      unfold allocate. apply list_elem_of_lookup. exists i. by rewrite list_lookup_imap, Hi. }
    intros Hch Hk c Hc Hcov. destruct (Hall Hch Hk out eq_refl) as [[_ Hs] Ha].
    destruct (Ha c Hc Hcov) as [Hin|(d & Hd & Ht)]; [left; by apply Hput|right]. exists d. split_and!; [by apply Hs|done|by apply Hput].
  - eapply wp_bind; [apply (skip_keeps m); by apply (placed_grows m m w)|]. intros skipped w2 H2. apply wp_ret. by split.
Qed.

(** Reading a cursor, or giving it its first place. *)
Lemma cursor_places m channelID kind w :
  placed m w →
  wp (T:=tail_tables) (archivedThreadCursor (channelArchivedThreadCursorScope channelID kind) initial)
     (λ r w', placed m w' ∧ (channelID = ch → kind = private → ∀ after, r = inl after → starts_from after ∨ moved_over m w')) w.
Proof.
  intros Hp. unfold archivedThreadCursor. eapply wp_bind; [by apply read_keeps|]. intros [raw|e] w1 (H1 & Hraw & Hsync); [|by apply wp_ret].
  specialize (Hraw raw eq_refl). destruct (String.eqb_spec raw "") as [Eraw|Hne].
  - eapply wp_bind with (R := λ r w', placed m w' ∧ (channelID = ch → kind = private → r = None → old = ""%string ∨ moved_over m w')).
    2: { intros [e|] w2 [H2 Ho]; apply wp_ret; [by split|]. split; [done|]. intros Hch Hk after [= <-]. destruct (Ho Hch Hk eq_refl) as [?|?]; [left; by left|by right]. }
    destruct (decide (channelID = ch ∧ kind = private)) as [[-> ->]|Hother].
    + assert (old = ""%string) as Hold.
      { destruct H1 as [[H1|[-> _]]|[H1 _]]; [|done|]; unfold reads in H1; rewrite Hsync, <- Hraw, Eraw in H1; [done|].
        pose proof (RFC3339Nano_nonempty started) as Hn. by rewrite <- H1 in Hn. }
      intros r w2. unfold set_sync_state, store_write, on_sync.
      assert (∀ now w3, placed m (with_sync (SetSyncState now the_scope (RFC3339Nano initial) w3) w1)) as Hset.
      { intros now w3. left. right. split; [done|]. unfold reads. cbn. by rewrite GetSyncState_Set_eq. }
      destruct (outcome_at _); intros [= <- <-]; (split; [|by intros; left]); [apply (placed_grows m m (with_sync (SetSyncState (clock (w_step w1)) the_scope (RFC3339Nano initial) (w_sync w1)) w1)); done|by apply (placed_grows m m w1)|].
      apply (placed_grows m m (with_sync (SetSyncState (clock (w_step w1)) the_scope (RFC3339Nano initial) (w_sync w1)) w1)); done.
    + intros r w2 E. split; [|intros; naive_solver]. refine (set_elsewhere m _ _ w1 H1 _ _ _ E). intros [-> ->]%archive_scope_inj. naive_solver.
  - destruct (Parse layoutRFC3339Nano raw) as [t|] eqn:Et; [|by apply wp_ret]. apply wp_ret. split; [done|].
    intros -> -> after [= <-]. rewrite <- Hsync in Hraw. destruct H1 as [[H1|[Ho H1]]|H1]; unfold reads in *.
    + left. right. rewrite H1 in Hraw. by subst.
    + left. left. rewrite H1 in Hraw. subst raw. by apply Hnano in Et as ->.
    + by right.
Qed.

(** The cursor moves over what was listed. *)
Lemma set_started_places m channelID kind after w :
  placed m w → (channelID = ch → kind = private → (starts_from after ∧ holds_archive after m) ∨ moved_over m w) →
  wp (T:=tail_tables) (set_sync_state (channelArchivedThreadCursorScope channelID kind) (RFC3339Nano started)) (λ _ w', placed m w') w.
Proof.
  intros Hp Hover. destruct (decide (channelID = ch ∧ kind = private)) as [[-> ->]|Hother].
  - assert (∃ a, starts_from a ∧ holds_archive a m) as Ha by (destruct (Hover eq_refl eq_refl) as [?|[_ ?]]; [by eexists|done]).
    intros r w'. unfold set_sync_state, store_write, on_sync.
    assert (placed m (with_sync (SetSyncState (clock (w_step w)) the_scope (RFC3339Nano started) (w_sync w)) w)) as Hset.
    { right. split; [|done]. unfold reads. cbn. by rewrite GetSyncState_Set_eq. }
    destruct (outcome_at _); intros [= <- <-]; [by apply (placed_grows m m _ _ Hset)|by apply (placed_grows m m w)|by apply (placed_grows m m _ _ Hset)].
  - apply set_elsewhere; [done|]. intros [-> ->]%archive_scope_inj. naive_solver.
Qed.

(** The outcome of a scan, which returns a catalog or fails. *)
Definition scanned {A} (catalog : A → catalog_map) (r : A + err) (w' : tail_world) : Prop :=
  match r with inl a => placed (catalog a) w' | inr _ => ∃ m', placed m' w' end.

Lemma archives_place m channelID kinds failed w :
  placed m w → wp (incremental_archives fuel m channelID started initial kinds failed) (scanned fst) w.
Proof.
  revert m failed w. induction kinds as [|kind kinds IH]; intros m failed w Hp; cbn [incremental_archives]; [by apply wp_ret|]. cbv zeta.
  eapply wp_bind; [by apply (cursor_places m)|]. intros [after|e] w1 [H1 Hafter]; [|apply wp_ret; by exists m].
  eapply wp_bind.
  { intros r w2 E. pose proof (listing_places m channelID kind after w1 H1 _ _ E) as Hl.
    refine (_ : (λ '(m2, failed2) w2, placed m2 w2 ∧ (failed2 = false → channelID = ch → kind = private →
      (starts_from after ∧ holds_archive after m2) ∨ moved_over m2 w2)) r w2).
    destruct r as [m2 failed2]. destruct Hl as [H2 Hl]. split; [done|]. intros Hf Hch Hk. destruct (Hl Hf) as [Hm Hh].
    destruct (Hafter Hch Hk after eq_refl) as [Hs|Hs]; [left; split; [done|by apply Hh]|right; by apply Hm]. }
  intros [m2 failed2] w2 [H2 Hover]. destruct failed2; [by apply IH|].
  eapply wp_bind; [by apply (set_started_places m2 _ _ after), Hover|]. intros [e|] w3 H3; [apply wp_ret; by exists m2|by apply IH].
Qed.

Lemma catalog_place m parents w : placed m w → wp (incremental_catalog fuel m started initial parents) (scanned id) w.
Proof.
  revert m w. induction parents as [|parent parents IH]; intros m w Hp; cbn [incremental_catalog]; [by apply wp_ret|].
  destruct (m !! parent) as [p|]; [|by apply IH]. destruct (negb _); [by apply IH|].
  eapply wp_bind; [by apply archives_place|]. intros [[m2 failed2]|e] w2 H2; [|by apply wp_ret]. cbn in H2.
  eapply wp_bind with (R := λ _ w', placed m2 w'); [destruct failed2; [by apply wp_ret|by apply clear_elsewhere]|].
  intros [e|] w3 H3; [apply wp_ret; by exists m2|by apply IH].
Qed.
End Cursor.

(** ** Properties *)

(** Where a channel without a cursor starts: at the last successful sync, or at
    the scan itself. *)
Definition first_cursor `{Env} `{TimeParse} (w : tail_world) (t : Z) : Prop :=
  let raw := GetSyncState lastSuccessScope (w_sync w) in
  (raw = ""%string ∧ t = clock (w_step w)) ∨ (raw ≠ ""%string ∧ Parse layoutRFC3339Nano raw = Some t).

Lemma initial_cursor `{Env} `{TimeParse} fallback (w : tail_world) :
  wp (T:=tail_tables) (archivedThreadInitialCursor fallback) (λ r w', w_sync w' = w_sync w ∧ ∀ t, r = inl t →
    let raw := GetSyncState lastSuccessScope (w_sync w) in (raw = ""%string ∧ t = fallback) ∨ (raw ≠ ""%string ∧ Parse layoutRFC3339Nano raw = Some t)) w.
Proof.
  unfold archivedThreadInitialCursor. apply wp_bind with (R := λ r w', w_sync w' = w_sync w ∧ ∀ v, r = inl v → v = GetSyncState lastSuccessScope (w_sync w)).
  { intros r w1. unfold get_sync_state, store_read. destruct (outcome_at _); intros [= <- <-]; (split; [done|by intros ? [= <-]]). }
  intros [raw|e] w1 [Hw Hr]; [|by apply wp_ret]. specialize (Hr raw eq_refl). rewrite <- Hr.
  destruct (String.eqb_spec raw ""); [apply wp_ret; split; [done|]; intros t [= <-]; by left|].
  destruct (Parse _ raw) as [t|]; apply wp_ret; (split; [done|]); [intros ? [= <-]; by right|done].
Qed.

(** C11: an incremental catalog moves the cursor of a channel's archive
    only over threads it has listed. Whatever fails on the way, the cursor is
    afterwards where it was, or at its first place, or at the start of the
    scan; and in that last case, against a provider that serves the archive,
    every thread archived since the old cursor is in the catalog the scan
    returns, or it shares its archive instant with another thread that is (the
    one case in which the cursor passes a thread that was not listed). *)
Theorem archive_cursors_pass_over_listed_threads `{Env} `{TailEnv} `{RestEnv} `{TimeParse} fuel ch private archive m parents (w w' : tail_world) r :
  serves_archive ch private archive →
  (∀ t t', Parse layoutRFC3339Nano (RFC3339Nano t) = Some t' → t' = t) →
  appendIncrementalArchivedThreadCatalog fuel m parents w = Some (r, w') →
  let cursor (w : tail_world) := GetSyncState (channelArchivedThreadCursorScope ch private) (w_sync w) in
  cursor w' = cursor w
  ∨ (cursor w = ""%string ∧ ∃ t, first_cursor w t ∧ cursor w' = RFC3339Nano t)
  ∨ (cursor w' = RFC3339Nano (clock (w_step w)) ∧ ∃ after,
       (cursor w = ""%string ∧ first_cursor w after ∨ cursor w ≠ ""%string ∧ Parse layoutRFC3339Nano (cursor w) = Some after)
       ∧ ∀ m', r = inl m' → ∀ c, c ∈ archive → covered after c = false →
            is_Some (m' !! ch_ID c) ∨ ∃ d, d ∈ archive ∧ twin d c ∧ is_Some (m' !! ch_ID d)).
Proof.
  intros HA Hnano E cursor.
  assert (∀ w1 w2 : tail_world, w_sync w2 = w_sync w1 → cursor w2 = cursor w1) as Hsame by (intros w1 w2 Hw; unfold cursor; by rewrite Hw).
  revert r w' E. change (wp (appendIncrementalArchivedThreadCatalog fuel m parents) (λ r w',
    cursor w' = cursor w ∨ (cursor w = ""%string ∧ ∃ t, first_cursor w t ∧ cursor w' = RFC3339Nano t)
    ∨ (cursor w' = RFC3339Nano (clock (w_step w)) ∧ ∃ after,
       (cursor w = ""%string ∧ first_cursor w after ∨ cursor w ≠ ""%string ∧ Parse layoutRFC3339Nano (cursor w) = Some after)
       ∧ ∀ m', r = inl m' → ∀ c, c ∈ archive → covered after c = false →
            is_Some (m' !! ch_ID c) ∨ ∃ d, d ∈ archive ∧ twin d c ∧ is_Some (m' !! ch_ID d))) w).
  unfold appendIncrementalArchivedThreadCatalog.
  apply wp_bind with (R := λ t w1, t = clock (w_step w) ∧ w_sync w1 = w_sync w); [by intros ? ? [= <- <-]|]. intros started w1 [-> Hw1].
  eapply wp_bind; [apply initial_cursor|]. intros [initial|e] w2 [Hw2 Hfirst]; [|apply wp_ret; left; apply Hsame; congruence].
  specialize (Hfirst initial eq_refl). rewrite Hw1 in Hfirst, Hw2.
  intros r w3 E. pose proof (catalog_place fuel ch private archive HA Hnano (cursor w) initial (clock (w_step w)) m (uniqueIDs parents) w2) as Hp.
  assert (∃ m1, placed ch private archive (cursor w) initial (clock (w_step w)) m1 w3 ∧ ∀ m', r = inl m' → m1 = m') as (m1 & Hm1 & Hr).
  { specialize (Hp (or_introl (or_introl (Hsame _ _ Hw2))) _ _ E). destruct r as [m'|e]; [|destruct Hp as [m1 ?]]; [exists m'|exists m1]; (split; [done|]); [by intros ? [= <-]|done]. }
  destruct Hm1 as [[Hr1|[Ho Hr1]]|(Hr1 & after & Hs & Hh)]; [by left|right; left; split; [done|by exists initial]|right; right].
  split; [done|]. exists after. split; [|by intros m' Em; rewrite <- (Hr m' Em)].
  destruct Hs as [[Ho ->]|Hs]; [by left|by right].
Qed.

(** ** Concrete runs *)

Section runs.
#[local] Existing Instance no_json.
#[local] Instance no_marshal : ChannelJSON := λ _, "{}"%string.
#[local] Instance quiet_tail : TailEnv := {
  ChannelMessage _ _ _ := inl None; dir_at _ := sample_draws; dir_keeps _ _ := false; dir_syncs _ := true;
  guild_payload _ := None; policy_digest _ := ""%string }.
#[local] Existing Instance small_provider.

Definition text_channel : Channel := plain_channel "7" "9" "" ChannelTypeGuildText "general" "".
#[local] Instance one_channel : CatalogEnv := {
  GuildChannels _ _ := inl [text_channel]; GuildThreadsActive _ _ := inl []; ThreadsActive _ _ := inl []; desktop_payload _ := false }.

Definition no_rows : tail_tables := mkTail empty_mstate (mkEntities ∅ ∅ ∅ ∅ empty_receipts) ∅ ∅.
Definition bare_world (sync : gmap string sync_row) : tail_world := mkWorld sync ∅ no_rows empty_ledger 0.
Definition one_parent : catalog_map := {["7"%string := mkPointer (Answer 0 0) text_channel]}.
Definition public_scope : string := channelArchivedThreadCursorScope "7" false.

Lemma archive_cursors_pass_over_listed_threads_witness :
  ∃ m' w', appendIncrementalArchivedThreadCatalog (ENV := calm_env [] (λ _, Done)) (tp := λ _ _, None) 4 one_parent ["7"%string] (bare_world ∅) = Some (inl m', w')
    ∧ GetSyncState public_scope (w_sync w') = RFC3339Nano 0 ∧ is_Some (m' !! "31"%string).
Proof.
  destruct (appendIncrementalArchivedThreadCatalog (ENV := calm_env [] (λ _, Done)) (tp := λ _ _, None) 4 one_parent ["7"%string] (bare_world ∅)) as [[[m'|e] w']|] eqn:E; [|vm_compute in E; discriminate E..].
  destruct (archive_cursors_pass_over_listed_threads (H := calm_env [] (λ _, Done)) (H2 := λ _ _, None) 4 "7" false three_threads one_parent ["7"%string] (bare_world ∅) w' (inl m') small_archive
    ltac:(done) E) as [Hc|[(Ho & t & [[_ ->]|[Hne _]] & Ht)|(Hc & after & Hs & Hall)]].
  - exfalso. clear -E Hc. vm_compute in E. injection E as _ <-. vm_compute in Hc. discriminate Hc.
  - exists m', w'. split; [done|]. split; [exact Ht|]. clear -E. vm_compute in E. injection E as <- _. vm_compute. by eexists.
  - by destruct (Hne eq_refl).
  - exists m', w'. split; [done|]. split; [exact Hc|]. destruct (Hall m' eq_refl (some_thread "31" 20)) as [Hin|(d & Hd & [Hid Hat] & _)]; [right; by left| |exact Hin|].
    + destruct Hs as [[_ [[_ ->]|[Hne _]]]|[Hne _]]; [by vm_compute|by destruct (Hne eq_refl)|by destruct (Hne eq_refl)].
    + exfalso. clear -Hd Hid Hat. unfold three_threads in Hd. repeat (apply elem_of_cons in Hd as [->|Hd]; [by vm_compute in Hat|| by apply Hid|]). by apply elem_of_nil in Hd.
Defined.

(** Reads back the texts of the first instants. *)
Definition parse_small : TimeParse := λ _ s, List.find (λ t, (RFC3339Nano t =? s)%string) (seqZ 0 200).
#[local] Existing Instance parse_small.
Definition no_exclusions : channelExclusions := newChannelScope [] [] [].
Definition from_ten : gmap string sync_row := SetSyncState 0 public_scope (RFC3339Nano 10) ∅.
Definition threads_at_100 (fails : nat → outcome) : Env := let calm := calm_env [] fails in {|
  clock n := 100 + Z.of_nat n; outcome_at := fails; context_err _ := None; ChannelMessages := @ChannelMessages calm;
  ClientChannel _ _ := inl None; World.CanReadHistory := None; extract_outcome _ _ := None; policyID := "" |}.
Definition incremental_run (fails : nat → outcome) (w : tail_world) : option ((listed + err) * tail_world) :=
  channelList (ENV := threads_at_100 fails) no_exclusions 4 "9" [] channelCatalogIncremental no_exclusions ∅ ∅ w.
Definition stored_ids (w : tail_world) : list string := fst <$> map_to_list (en_channels (tt_entities (w_messages w))).
Definition disk_full_from (k : nat) (n : nat) : outcome := if (k <=? n)%nat then FailBefore (EText "disk is full") else Done.

(** One run stores the two threads archived since the cursor. *)
Example threads_are_stored :
  match incremental_run (λ _, Done) (bare_world from_ten) with
  | Some (inl l, w) => (p_ID <$> li_channels l, stored_ids w) = (["31"; "33"; "7"], ["7"; "33"; "31"])%string
  | _ => False
  end.
Proof. vm_compute. reflexivity. Qed.

(** When the first run fails to store its catalog, its cursor has already
    passed the threads: the next run succeeds, and they are not stored. *)
Example threads_are_lost :
  match incremental_run (disk_full_from 14) (bare_world from_ten) with
  | Some (inr _, w1) =>
      match incremental_run (λ _, Done) w1 with
      | Some (inl l, w2) => (p_ID <$> li_channels l, stored_ids w2) = (["7"], ["7"])%string
      | _ => False
      end
  | _ => False
  end.
Proof. vm_compute. reflexivity. Qed.

(** *** A targeted channel is written twice *)

Definition targeted_run (w : tail_world) : option ((listed + err) * tail_world) :=
  channelList (ENV := threads_at_100 (λ _, Done)) no_exclusions 4 "9" ["7"%string] channelCatalogFull no_exclusions ∅ ∅ w.
Definition renamed : ChannelRecord := toChannelRecord (plain_channel "7" "9" "" ChannelTypeGuildText "renamed" "").
Definition stored_name (w : tail_world) : option string := ce_Name <$> en_channels (tt_entities (w_messages w)) !! "7"%string.

(** [storeScopeMetadata] replaces the elements of its slice by copies, so the
    addresses marked as cached are not those of the returned channels, and the
    second write of [storeChannelList], which carries no observation start,
    undoes a rename that the Gateway has stored in between. *)
Example stale_targeted_write :
  match targeted_run (bare_world ∅) with
  | Some (inl l, w1) =>
      match entity_write (ENV := threads_at_100 (λ _, Done)) (λ now, UpsertObservedChannel now renamed None) w1 with
      | Some (_, w2) =>
          match storeChannelList (ENV := threads_at_100 (λ _, Done)) (li_channels l) (li_cached l) ∅ zero_stats w2 with
          | Some (_, w3) => (stored_name w2, stored_name w3) = (Some "renamed", Some "general")%string
          | None => False
          end
      | None => False
      end
  | _ => False
  end.
Proof. vm_compute. reflexivity. Qed.
End runs.
