(* ===== verification/CatalogWrites.v ===== *)
(** * What a run's catalog writes about channels

    Only provider observations are stored as metadata: a channel that no answer
    of the provider mentions keeps its row, but for the columns of the scope
    decision, through [channelList] and [storeChannelList] alike. *)
From S2P Require Import Prelude Snowflake Decimal Errors SyncState ChannelScope FailureLedger Discord World GoTime GoText MessageSync ChannelSync GuildSync Fixture Exclusions Rows Receipts Attachments Mentions MessageWrite StoreRefinement Canonical EntityRows EntitySafety FailureJournal RestClient RestSafety CatalogData TailHandler Catalog CatalogSafety CatalogCursor.
Local Open Scope Z_scope.
Local Open Scope discrawl_scope.

(** ** The content of a row *)

(** The columns of a row besides those of its scope decision. *)
Definition row_core (r : channel_row) : channel_row := ChannelRow (c_guild r) (c_parent r) (c_kind r) (c_deleted r) (c_source r) "" "" 0.
Definition content (e : channel_entity) : channel_entity := set_scope (row_core (ce_scope e)) e.

Lemma content_set_scope r e : content (set_scope r e) = set_scope (row_core r) e.
Proof. done. Qed.

Lemma channel_table_same t : channel_table (scope_table t) t = t.
Proof.
  apply map_eq. intros id. unfold channel_table, scope_table. rewrite map_lookup_imap, lookup_fmap.
  destruct (t !! id) as [e|]; [|done]. cbn. by destruct e.
Qed.

(** A table whose decisions alone have changed. *)
Lemma table_content c c' e id : row_core <$> c' !! id = row_core <$> c !! id → content <$> channel_table c' e !! id = content <$> channel_table c e !! id.
Proof.
  intros H. unfold channel_table. rewrite !map_lookup_imap. destruct (c !! id) as [r|], (c' !! id) as [r'|]; try done. cbn in *. injection H as H1 H2 H3 H4 H5.
  f_equal. destruct (e !! id); unfold content, set_scope, blank_entity, row_core; cbn; congruence.
Qed.

Lemma set_scopes_core now policy changes t err t' id : set_scopes now policy changes t = (err, t') → row_core <$> t' !! id = row_core <$> t !! id.
Proof.
  revert t. induction changes as [|[x d] changes IH]; intros t; cbn; [by intros [= _ <-]|]. destruct (negb _); [by intros [= _ <-]|].
  intros H. rewrite (IH _ H), lookup_set_scope_row. destruct (decide (id = x)) as [->|]; [|done]. destruct (t !! x) as [r|]; [|done]. cbn. by case_match.
Qed.

Lemma SetChannelScopes_core now policy changes t err t' id : SetChannelScopes now changes policy t = (err, t') → row_core <$> t' !! id = row_core <$> t !! id.
Proof.
  unfold SetChannelScopes. destruct (set_scopes now policy changes t) as [[e|] t1] eqn:E; intros [= _ <-]; [done|]. by eapply set_scopes_core.
Qed.

(** Writing one channel leaves the content of the others. *)
Lemma upsert_content `{JSONText} `{TimeParse} now c started s s' e id :
  UpsertObservedChannel now c started s = (e, s') → cr_ID c ≠ id → content <$> en_channels s' !! id = content <$> en_channels s !! id.
Proof.
  unfold UpsertObservedChannel, transact. destruct (upsertChannelTx now c started true s) as [s1|] eqn:E; intros [= _ <-] Hne; [|done].
  destruct (upsert_channel_cases _ _ _ _ _ _ E) as [->|(c' & [Hid _ _ _] & -> & _)]; [done|]. unfold written_channels. rewrite Hid.
  rewrite lookup_insert_ne by done. destruct (match en_channels s !! cr_ID c with Some e => moved c' e | None => false end); [|done].
  destruct (en_channels s !! id) as [x|] eqn:Ex; [|by rewrite invalidate_scopes_none].
  rewrite (invalidate_scopes_lookup _ _ _ _ _ Ex). cbn. f_equal. rewrite content_set_scope. by case_match.
Qed.

Section Writes.
Context {ENV : Env} {TE : TailEnv} {RE : RestEnv} {CE : CatalogEnv} {CF : ChannelJSON}.
Context {tp : TimeParse} {jt : JSONText}.
Context (configured_scope : channelExclusions) (fuel : nat).
Local Abbreviation M := (M tail_tables).

(** The channels the provider may mention. *)
Context (mentioned : string → Prop).
Record mentions_only : Prop := {
  mo_guild i g cs : GuildChannels i g = inl cs → ∀ c, c ∈ cs → mentioned (ch_ID c);
  mo_active i g cs : GuildThreadsActive i g = inl cs → ∀ c, c ∈ cs → mentioned (ch_ID c);
  mo_threads i ch cs : ThreadsActive i ch = inl cs → ∀ c, c ∈ cs → mentioned (ch_ID c);
  mo_archived i ch private before cs more : ArchivedPage i ch private before = inl (cs, more) → ∀ c, c ∈ cs → mentioned (ch_ID c);
  mo_direct i id c : ClientChannel i id = inl (Some c) → mentioned (ch_ID c) }.
Context (Hmo : mentions_only).

(** The row of a channel it does not mention. *)
Context (id : string) (Hid : ¬ mentioned id) (v : option channel_entity).
Definition keeps (w : tail_world) : Prop := content <$> stored_table w !! id = v.

Lemma keeps_tick w : keeps w → keeps (tick w).
Proof. done. Qed.

Lemma keeps_sync f : hoare keeps (store_write (T:=tail_tables) (on_sync f)) (λ _, keeps).
Proof.
  apply hoare_store_write; [done| |done]. intros now w e w' Hw. unfold on_sync. destruct (f now (w_sync w)) as [e1 s].
  intros [= <- <-]. split; intros; exact Hw.
Qed.

Lemma keeps_read {A} (f : Z → tail_world → A) : hoare keeps (store_read f) (λ _, keeps).
Proof. by apply hoare_store_read. Qed.

Lemma keeps_scopes now_changes policy : hoare keeps (channel_write (λ now, SetChannelScopes now now_changes policy)) (λ _, keeps).
Proof.
  apply hoare_store_write; [done| |done]. intros now w e w' Hw. destruct (SetChannelScopes now now_changes policy (w_channels w)) as [e1 c] eqn:E.
  assert (keeps (set_channels c w)) as Hk.
  { unfold keeps in *. rewrite <- Hw. unfold stored_table. cbn. apply table_content. by eapply SetChannelScopes_core. }
  intros [= <- <-]. by split.
Qed.

(** A write of a mentioned channel. *)
Lemma keeps_upsert (record : ChannelRecord) started : mentioned (cr_ID record) →
  hoare keeps (entity_write (λ now, UpsertObservedChannel now record started)) (λ _, keeps).
Proof.
  intros Hm. apply hoare_store_write; [done| |done]. intros now w e w' Hw. unfold on_entities.
  destruct (UpsertObservedChannel now record started _) as [e1 s'] eqn:E.
  assert (keeps (set_channels (scope_table (en_channels s')) (on_tables (with_entities s') w))) as Hk.
  { unfold keeps, stored_table in *. cbn. rewrite channel_table_same, <- Hw. apply (upsert_content _ _ _ _ _ _ _ E). by intros <-. }
  intros [= <- <-]. by split.
Qed.

Lemma keeps_refresh e : hoare keeps (refreshStoredScopes e) (λ _, keeps).
Proof.
  unfold refreshStoredScopes. cbv zeta. apply hoare_bind_inv; [apply keeps_read|]. intros [rows|]; [|by apply hoare_ret].
  destruct (scope_changes _ _ rows); [by apply hoare_ret|apply keeps_scopes].
Qed.

Lemma keeps_skip ch e : hoare keeps (skipUnavailableChannelByID (T:=tail_tables) ch e channelThreadCatalogUnavailableScope) (λ _, keeps).
Proof.
  unfold skipUnavailableChannelByID. cbv zeta. destruct (_ =? "")%string; [by apply hoare_ret|]. destruct (_ =? "")%string; [by apply hoare_ret|].
  apply hoare_bind_inv; [apply keeps_read|]. intros _. apply hoare_bind_inv; [apply keeps_sync|]. intros [e'|]; by apply hoare_ret.
Qed.

Lemma keeps_clear ch : hoare keeps (clearThreadCatalogUnavailableChannel ch) (λ _, keeps).
Proof. unfold clearThreadCatalogUnavailableChannel. destruct (_ =? "")%string; [by apply hoare_ret|apply keeps_sync]. Qed.

(** ** Catalogs of known origin *)

Definition seen_now (p : pointer) : Prop := mentioned (p_ID p).

Lemma allocated_seen step cs : (∀ c, c ∈ cs → mentioned (ch_ID c)) → Forall seen_now (allocate step cs).
Proof.
  intros H. unfold allocate. apply Forall_forall. intros p Hp. apply list_elem_of_lookup in Hp as [i Hi]. rewrite list_lookup_imap in Hi.
  destruct (cs !! i) as [c|] eqn:Ec; [|done]. injection Hi as <-. apply H. by eapply list_elem_of_lookup_2.
Qed.

(** [ok] is what every entry of a catalog satisfies; what was just fetched
    does. *)
Context (ok : string → pointer → Prop) (Hok : ∀ id p, seen_now p → ok id p).

Lemma put_all_ok ps m : map_Forall ok m → Forall seen_now ps → map_Forall ok (put_all ps m).
Proof.
  intros Hm Hps i p Hp. apply put_all_lookup in Hp as [[Hin _]|[Hp _]]; [by apply Hok, (proj1 (Forall_forall _ _) Hps)|by apply (Hm i)].
Qed.

Lemma fetched f : (∀ i cs, f i = inl cs → ∀ c, c ∈ cs → mentioned (ch_ID c)) →
  hoare keeps (fetch f) (λ r w, keeps w ∧ ∀ ps, r = inl ps → Forall seen_now ps).
Proof.
  intros Hf w r w' Hw. unfold fetch. intros [= <- <-]. split; [exact Hw|]. destruct (f (w_step w)) as [cs|e] eqn:E; [|done].
  intros ps [= <-]. apply allocated_seen. by eapply Hf.
Qed.

Lemma listed_archive f ch private after before out :
  (∀ c, c ∈ out → mentioned (ch_ID c)) →
  hoare keeps (ThreadsArchived_loop f ch private after before out) (λ r w, keeps w ∧ ∀ cs, r = inl cs → ∀ c, c ∈ cs → mentioned (ch_ID c)).
Proof.
  assert (∀ seen cs c, c ∈ first_of_id seen cs → c ∈ cs) as Hfirst.
  { intros seen cs. revert seen. induction cs as [|x cs IH]; intros seen c; cbn; [done|]. case_bool_decide; [intros Hc; right; by eapply IH|].
    intros [->|Hc]%elem_of_cons; [by left|right; by eapply IH]. }
  assert (∀ cs c, c ∈ uniqueChannels cs → c ∈ cs) as Huniq.
  { intros cs c. unfold uniqueChannels. rewrite (merge_sort_Permutation id_le). apply Hfirst. }
  assert (∀ page c, c ∈ snd (until_covered after page) → c ∈ page) as Hkept.
  { intros page c. induction page as [|x page IH]; cbn; [done|]. destruct (covered after x); [by intros ?%elem_of_nil|].
    destruct (until_covered after page) as [rd kp]. cbn in *. intros [->|Hc]%elem_of_cons; [by left|right; by apply IH]. }
  revert before out. induction f as [|f IH]; intros before out Hout; [apply hoare_fuel|]. cbn [ThreadsArchived_loop].
  apply hoare_bind with (Q := λ r w, keeps w ∧ ∀ cs more, r = inl (cs, more) → ∀ c, c ∈ cs → mentioned (ch_ID c)).
  { intros w r w' Hw. unfold ask. intros [= <- <-]. split; [exact Hw|]. intros cs more. apply (mo_archived Hmo). }
  intros [[threads more]|e]; [|apply hoare_ret; by intros w [? _]].
  apply hoare_conseq with (P := λ w, (∀ c, c ∈ threads → mentioned (ch_ID c)) ∧ keeps w) (Q := λ r w, keeps w ∧ ∀ cs, r = inl cs → ∀ c, c ∈ cs → mentioned (ch_ID c));
    [|intros w [Hw Hall]; split; [by eapply Hall|done]|done]. apply hoare_pre_pure. intros Hthreads.
  destruct (last threads) as [oldest|]; [|apply hoare_ret; intros w Hw; split; [done|by intros ? [= <-]]].
  specialize (Hkept threads). destruct (until_covered after threads) as [reached kept]. cbn in Hkept.
  assert (∀ c, c ∈ out ++ kept → mentioned (ch_ID c)) as Hnext by (intros c [Hc|Hc]%elem_of_app; auto).
  assert (∀ w, keeps w → keeps w ∧ ∀ cs, inl (uniqueChannels (out ++ kept)) = inl cs (B := err) → ∀ c, c ∈ cs → mentioned (ch_ID c)) as Hdone
    by (intros w Hw; split; [done|]; intros ? [= <-] c Hc; by apply Hnext, Huniq).
  destruct (_ || _); [by apply hoare_ret|]. destruct (ch_Thread oldest); [|by apply hoare_ret].
  case_bool_decide; [apply hoare_ret; intros w Hw; by split|by apply IH].
Qed.

(** ** The catalog's operations *)

Definition yields {A} (F : A → Prop) (r : A + err) (w : tail_world) : Prop := keeps w ∧ ∀ a, r = inl a → F a.

Lemma yields_ret {A} (F : A → Prop) a : F a → hoare keeps (ret (inl a)) (yields F).
Proof. intros H. apply hoare_ret. intros w Hw. split; [done|]. by intros ? [= <-]. Qed.
Lemma yields_err {A} (F : A → Prop) e : hoare keeps (ret (inr e)) (yields F).
Proof. apply hoare_ret. by intros w Hw. Qed.

Lemma yields_try {A B} (F : A → Prop) (G : B → Prop) (c : M (A + err)) (k : A → M (B + err)) h :
  hoare keeps c (yields F) → (∀ a, F a → hoare keeps (k a) (yields G)) → (∀ e, hoare keeps (h e) (yields G)) →
  hoare keeps (bind c (λ r, match r with inr e => h e | inl a => k a end)) (yields G).
Proof.
  intros Hc Hk Hh. apply (hoare_bind _ _ _ _ _ Hc). intros [a|e] w b w' [Hw Ha] E; [by apply (Hk a (Ha a eq_refl) _ _ _ Hw E)|by apply (Hh e _ _ _ Hw E)].
Qed.

Lemma yields_check {B} (G : B → Prop) (c : M (option err)) (k : M (B + err)) :
  hoare keeps c (λ _, keeps) → hoare keeps k (yields G) →
  hoare keeps (bind c (λ e, match e with Some e' => ret (inr e') | None => k end)) (yields G).
Proof. intros Hc Hk. apply (hoare_bind _ _ _ _ _ Hc). intros [e|]; [apply yields_err|done]. Qed.

Lemma yields_call {A B} (F : A → Prop) (G : B → Prop) (c : M A) (k : A → M (B + err)) :
  hoare keeps c (λ a w, keeps w ∧ F a) → (∀ a, F a → hoare keeps (k a) (yields G)) → hoare keeps (bind c k) (yields G).
Proof. intros Hc Hk. apply (hoare_bind _ _ _ _ _ Hc). intros a w b w' [Hw Ha] E. by apply (Hk a Ha _ _ _ Hw E). Qed.

Lemma step_yields : hoare keeps current_step (λ (_ : nat) w, keeps w ∧ True).
Proof. by intros w a w' Hw [= <- <-]. Qed.
Lemma now_yields : hoare keeps (time_Now (T:=tail_tables)) (λ (_ : Z) w, keeps w ∧ True).
Proof. intros w a w' Hw [= <- <-]. by split. Qed.
Lemma read_yields {A} (f : Z → tail_world → A) : hoare keeps (store_read f) (yields (λ _, True)).
Proof. intros w a w' Hw E. split; [|done]. by apply (keeps_read f w a w' Hw). Qed.

Abbreviation ok_map := (map_Forall ok).
Abbreviation ok_pair := (λ x : catalog_map * bool, ok_map (fst x)).

Lemma archived_yields m ch private after : ok_map m → hoare keeps (appendArchivedThreads fuel m ch private after) (λ x w, keeps w ∧ ok_map (fst x)).
Proof.
  intros Hm. unfold appendArchivedThreads. apply (hoare_bind _ _ _ _ _ step_yields). intros step w x w' [Hw _]. revert w x w' Hw.
  fold (hoare keeps (bind (ThreadsArchived fuel ch private after) (λ archived, match archived with
    | inr e => bind (skipUnavailableChannelByID ch e channelThreadCatalogUnavailableScope) (λ _, ret (m, true))
    | inl threads => ret (put_all (allocate step threads) m, false) end)) (λ x w, keeps w ∧ ok_map (fst x))).
  eapply hoare_bind; [apply listed_archive; by intros c ?%elem_of_nil|]. intros [cs|e].
  - apply hoare_ret. intros w [Hw Hcs]. split; [done|]. apply put_all_ok; [done|]. apply allocated_seen. by apply Hcs.
  - apply hoare_conseq with (P := keeps) (Q := λ x w, keeps w ∧ ok_map (fst x)); [|by intros w [? _]|done].
    apply (hoare_bind _ _ _ _ _ (keeps_skip ch e)). intros _. by apply hoare_ret.
Qed.

Lemma archives_yields m ch kinds failed : ok_map m → hoare keeps (append_archives fuel m ch kinds failed) (λ x w, keeps w ∧ ok_map (fst x)).
Proof.
  revert m failed. induction kinds as [|kind kinds IH]; intros m failed Hm; cbn [append_archives]; [by apply hoare_ret|].
  apply (hoare_bind _ _ _ _ _ (archived_yields m ch kind zeroTime Hm)). intros [m1 f1] w x w' [Hw H1] E. by apply (IH m1 _ H1 _ _ _ Hw E).
Qed.

Lemma active_yields m ch clear : ok_map m → hoare keeps (appendActiveThreads m ch clear) (yields ok_pair).
Proof.
  intros Hm. unfold appendActiveThreads. eapply hoare_bind; [apply fetched, (λ i cs, mo_threads Hmo i ch cs)|]. intros [ps|e].
  - intros w x w' [Hw Hps]. specialize (Hps ps eq_refl). revert w x w' Hw.
    apply (yields_check ok_pair (if clear then clearThreadCatalogUnavailableChannel ch else ret None)).
    + destruct clear; [apply keeps_clear|by apply hoare_ret].
    + apply yields_ret. cbn. by apply put_all_ok.
  - apply hoare_conseq with (P := keeps) (Q := yields ok_pair); [|by intros w [? _]|done].
    apply (hoare_bind _ _ _ _ _ (keeps_skip ch e)). intros [|]; [by apply yields_ret|apply yields_err].
Qed.

Lemma thread_catalog_yields m parents : ok_map m → hoare keeps (append_thread_catalog fuel m parents) (yields ok_map).
Proof.
  revert m. induction parents as [|parent parents IH]; intros m Hm; cbn [append_thread_catalog]; [by apply yields_ret|].
  destruct (m !! parent) as [p|]; [|by apply IH]. destruct (negb _); [by apply IH|]. cbv zeta.
  eapply yields_try; [by apply active_yields| |intros; apply yields_err]. intros [m1 unavailable] H1.
  eapply yields_call; [by apply archives_yields|]. intros [m2 failed] H2.
  apply yields_check; [destruct failed; [by apply hoare_ret|apply keeps_clear]|by apply IH].
Qed.

Lemma guild_threads_yields m guild parents : ok_map m → hoare keeps (appendActiveThreadCatalog m guild parents) (yields ok_map).
Proof.
  intros Hm. unfold appendActiveThreadCatalog. destruct (allowed_parents m parents) as [|a l]; [by apply yields_ret|].
  eapply hoare_bind; [apply fetched, (λ i cs, mo_active Hmo i guild cs)|]. intros [ps|e].
  - apply hoare_ret. intros w [Hw Hps]. split; [done|]. intros ? [= <-]. apply put_all_ok; [done|]. specialize (Hps ps eq_refl).
    apply Forall_forall. intros p [Hp _]%elem_of_lfilter. by apply (proj1 (Forall_forall _ _) Hps).
  - apply hoare_conseq with (P := keeps) (Q := yields ok_map); [|by intros w [? _]|done]. destruct (isMissingAccess e); [by apply yields_ret|apply yields_err].
Qed.

Lemma incremental_archives_yields m ch started initial kinds failed : ok_map m → hoare keeps (incremental_archives fuel m ch started initial kinds failed) (yields ok_pair).
Proof.
  revert m failed. induction kinds as [|kind kinds IH]; intros m failed Hm; cbn [incremental_archives]; [by apply yields_ret|]. cbv zeta.
  eapply yields_try with (F := λ _, True); [|intros after _|intros; apply yields_err].
  { unfold archivedThreadCursor. eapply yields_try; [apply read_yields| |intros; apply yields_err]. intros raw _.
    destruct (raw =? "")%string; [apply yields_check; [apply keeps_sync|by apply yields_ret]|]. destruct (Parse _ raw); [by apply yields_ret|apply yields_err]. }
  eapply yields_call; [by apply archived_yields|]. intros [m1 failed1] H1. destruct failed1; [by apply IH|].
  apply yields_check; [apply keeps_sync|by apply IH].
Qed.

Lemma incremental_yields m parents : ok_map m → hoare keeps (appendIncrementalArchivedThreadCatalog fuel m parents) (yields ok_map).
Proof.
  intros Hm. unfold appendIncrementalArchivedThreadCatalog. eapply yields_call; [apply now_yields|]. intros started _.
  eapply yields_try with (F := λ _, True); [|intros initial _|intros; apply yields_err].
  { unfold archivedThreadInitialCursor. eapply yields_try; [apply read_yields| |intros; apply yields_err]. intros raw _.
    destruct (raw =? "")%string; [by apply yields_ret|]. destruct (Parse _ raw); [by apply yields_ret|apply yields_err]. }
  generalize (uniqueIDs parents). intros ids. revert m Hm. induction ids as [|x ids IH]; intros m Hm; cbn [incremental_catalog]; [by apply yields_ret|].
  destruct (m !! x) as [p|]; [|by apply IH]. destruct (negb _); [by apply IH|].
  eapply yields_try; [by apply incremental_archives_yields| |intros; apply yields_err]. intros [m1 failed] H1.
  apply yields_check; [destruct failed; [by apply hoare_ret|apply keeps_clear]|by apply IH].
Qed.
End Writes.

Lemma in_mapsToSlice m p : p ∈ mapsToSlice m → ∃ id, m !! id = Some p.
Proof.
  unfold mapsToSlice, sortChannels. rewrite (merge_sort_Permutation channel_le). intros ([id q] & -> & H%elem_of_map_to_list)%list_elem_of_fmap. by exists id.
Qed.

Lemma in_filter_pointers ps byID e p : p ∈ filter_pointers ps byID e → p ∈ ps.
Proof. unfold filter_pointers. destruct (negb (configured e)); [done|]. by intros [? _]%elem_of_lfilter. Qed.

Lemma in_selection live stored requested p :
  p ∈ selectRequestedChannels live stored requested → (∃ id, live !! id = Some p) ∨ (∃ id, stored !! id = Some p).
Proof.
  unfold selectRequestedChannels. intros [id H]%in_mapsToSlice. apply put_all_lookup in H as [[H _]|[H _]].
  - left. unfold forum_threads in H. apply elem_of_lfilter in H as [H _]. apply list_elem_of_fmap in H as ([k q] & -> & H%elem_of_map_to_list). by exists k.
  - unfold found_requested in H. apply map_lookup_filter_Some in H as [H _]. apply lookup_union_Some_raw in H as [H|[_ H]]; [left|right]; by exists id.
Qed.

Lemma in_ancestors fuel m parent p : p ∈ ancestors fuel m parent → ∃ id, m !! id = Some p.
Proof.
  revert parent. induction fuel as [|fuel IH]; intros parent; cbn; [by intros ?%elem_of_nil|]. destruct (m !! parent) as [q|] eqn:E; [|by intros ?%elem_of_nil].
  intros [->|H]%elem_of_cons; [by exists parent|by eapply IH].
Qed.

Lemma in_hydrated selected m targets p : p ∈ withHydratedAncestors selected m targets → p ∈ selected ∨ ∃ id, m !! id = Some p.
Proof.
  unfold withHydratedAncestors. case_bool_decide; [by left|]. intros [id Hp]%in_mapsToSlice. revert id p Hp.
  assert (∀ out, (∀ id p, out !! id = Some p → p ∈ selected ∨ ∃ id, m !! id = Some p) → ∀ l, (∀ p, p ∈ l → p ∈ selected) →
    ∀ id p, foldl (λ out p, let out := put p out in if bool_decide (p_ID p ∈ targets) then put_all (ancestors (size m) m (p_ParentID p)) out else out) out l !! id = Some p →
    p ∈ selected ∨ ∃ id, m !! id = Some p) as Hfold.
  { intros out Hout l. revert out Hout. induction l as [|x l IH]; intros out Hout Hl id p; [apply Hout|]. cbn [foldl]. apply IH; [|intros; apply Hl; by right].
    intros i q. cbv zeta. assert (∀ i q, put x out !! i = Some q → q ∈ selected ∨ ∃ id, m !! id = Some q) as Hput.
    { unfold put. intros i0 q0 [[_ <-]|[_ Hq]]%lookup_insert_Some; [left; apply Hl; by left|by eapply Hout]. }
    case_bool_decide; [|apply Hput]. intros [[Hq _]|[Hq _]]%put_all_lookup; [right; by eapply in_ancestors|by eapply Hput]. }
  intros id p. apply Hfold; [by intros ? ?|done].
Qed.

Lemma merge_keeps_live `{TimeParse} step rows m id p : m !! id = Some p → mergeStoredThreadChannels step rows m !! id = Some p.
Proof.
  unfold mergeStoredThreadChannels. generalize (zip rows (rows_allocated step rows)). intros l. revert m. induction l as [|[r q] l IH]; intros m Hm; [done|].
  cbn. apply IH. destruct (negb _); [done|]. destruct (m !! r.1) eqn:E; [done|]. rewrite lookup_insert_ne; [done|]. intros <-. congruence.
Qed.

Section Lists.
Context {ENV : Env} {TE : TailEnv} {RE : RestEnv} {CE : CatalogEnv} {CF : ChannelJSON}.
Context {tp : TimeParse} {jt : JSONText}.
Context (configured_scope : channelExclusions) (fuel : nat).
Local Abbreviation M := (M tail_tables).
Context (mentioned : string → Prop) (Hmo : mentions_only mentioned).
Context (id : string) (Hid : ¬ mentioned id) (v : option channel_entity).
Local Abbreviation keeps := (keeps id v).
Local Abbreviation yields := (yields id v).
Local Abbreviation seen_now := (seen_now mentioned).

Lemma observed_keeps guild started ps : Forall seen_now ps → hoare keeps (store_observed guild started ps) (λ _, keeps).
Proof.
  induction 1 as [|p ps Hp _ IH]; cbn [store_observed]; [by apply hoare_ret|]. cbv zeta.
  destruct (_ =? "")%string; [apply hoare_bind_inv; [exact IH|intros [? ?]; by apply hoare_ret]|].
  destruct (_ && _); [by apply hoare_ret|]. apply hoare_bind_inv; [by intros w a w' Hw [= <- <-]|]. intros step.
  apply hoare_bind_inv; [by apply (keeps_upsert mentioned id Hid v)|]. intros [e|]; [by apply hoare_ret|].
  apply hoare_bind_inv; [exact IH|]. intros [? ?]. by apply hoare_ret.
Qed.

Lemma metadata_keeps guild ps e started : Forall seen_now ps → hoare keeps (storeScopeMetadata guild ps e started) (λ _, keeps).
Proof.
  intros Hps. unfold storeScopeMetadata. apply hoare_bind_inv; [by apply observed_keeps|]. intros [ps' [err|]]; [by apply hoare_ret|].
  apply hoare_bind_inv; [apply keeps_refresh|]. intros err. by apply hoare_ret.
Qed.

Local Abbreviation seen_map := (map_Forall (λ _ : string, seen_now)).

Lemma seen_slice m : seen_map m → Forall seen_now (mapsToSlice m).
Proof. intros Hm. apply Forall_forall. intros p [i Hp]%in_mapsToSlice. by apply (Hm i). Qed.

Lemma seen_put_all ps m : seen_map m → Forall seen_now ps → seen_map (put_all ps m).
Proof. apply put_all_ok. by intros. Qed.

Lemma live_yields guild mode exclusions :
  hoare keeps (liveChannelList fuel guild mode exclusions) (yields (λ x, Forall seen_now (default (fst x) (snd x)))).
Proof.
  unfold liveChannelList. eapply yields_try; [apply (fetched mentioned), (λ i cs, mo_guild _ Hmo i guild cs)| |intros; apply yields_err].
  intros channels Hchannels. cbv zeta.
  assert (seen_map (put_all channels ∅)) as Hall by (apply seen_put_all; [apply map_Forall_empty|done]).
  destruct mode.
  - eapply yields_call; [apply step_yields|]. intros step _. eapply yields_try; [apply read_yields| |intros; apply yields_err]. intros rows _.
    set (merged := mergeStoredThreadChannels step rows (put_all channels ∅)). set (rebuilt := filter _ merged).
    set (ok := λ (i : string) p, seen_now p ∨ rebuilt !! i = Some p).
    assert (map_Forall ok merged) as Hmerged.
    { intros i p Hp. destruct (put_all channels ∅ !! i) as [q|] eqn:Eq.
      - left. assert (merged !! i = Some q) as Hq by (by apply merge_keeps_live). rewrite Hq in Hp. injection Hp as <-. by apply (Hall i).
      - right. unfold rebuilt. by apply map_lookup_filter_Some. }
    assert (∀ i p, seen_now p → ok i p) as Hok by (by left).
    eapply yields_try with (F := map_Forall ok); [|intros all Hall'|intros; apply yields_err].
    + destruct (bool_decide _); [by apply (thread_catalog_yields fuel mentioned Hmo id v ok Hok)|by apply (guild_threads_yields mentioned Hmo id v ok Hok)].
    + apply yields_ret. cbn. apply Forall_forall. intros p ([i q] & -> & H%elem_of_map_to_list)%list_elem_of_fmap.
      apply map_lookup_filter_Some in H as [Hp Hnot]. cbn in *. destruct (Hall' i q Hp) as [?|Hr]; [done|]. exfalso. apply Hnot. by rewrite Hr.
  - assert (∀ (i : string) p, seen_now p → seen_now p) as Hok by done.
    eapply yields_try; [by apply (guild_threads_yields mentioned Hmo id v (λ _, seen_now) Hok)| |intros; apply yields_err]. intros all1 H1.
    eapply yields_try; [by apply (incremental_yields fuel mentioned Hmo id v (λ _, seen_now) Hok)| |intros; apply yields_err]. intros all2 H2.
    apply yields_ret. cbn. by apply seen_slice.
Qed.

(** ** Lists *)

Definition results_seen (results : direct_results) : Prop := ∀ i p, results !! i = Some (inl (Some p)) → seen_now p.

(** What the list holds is cached or was just seen. *)
Definition list_ok (l : listed) : Prop :=
  (∀ p, p ∈ li_channels l → p_addr p ∈ li_cached l ∨ seen_now p) ∧ results_seen (li_results l).

Lemma metadata_yields guild ps started (l : list pointer → listed) :
  Forall seen_now ps → (∀ ps', list_ok (l ps')) →
  hoare keeps (bind (storeScopeMetadata guild ps configured_scope started) (λ '(ps', e), match e with Some e => ret (inr e) | None => ret (inl (l ps')) end)) (yields list_ok).
Proof.
  intros Hps Hl. apply (hoare_bind _ _ _ _ _ (metadata_keeps guild ps configured_scope started Hps)). intros [ps' [e|]]; [apply yields_err|by apply yields_ret].
Qed.

Lemma full_yields guild mode exclusions results : results_seen results →
  hoare keeps (full_list configured_scope fuel guild mode exclusions results) (yields list_ok).
Proof.
  intros Hr. unfold full_list. eapply yields_call; [apply now_yields|]. intros started _.
  eapply yields_try; [apply live_yields| |intros; apply yields_err]. intros [channels observed] Hobs. cbn in Hobs.
  apply (metadata_yields guild _ started (λ stored, let channels := match observed with Some _ => channels | None => stored end in
    mkListed (filter_pointers channels (channels_by_id (p_channel <$> channels)) exclusions) false (p_addr <$> channels) results)); [done|].
  intros ps'. split; [|done]. cbn. intros p Hp%in_filter_pointers. left. by apply list_elem_of_fmap_2.
Qed.

Lemma direct_yields channelID results : results_seen results →
  hoare keeps (directChannel channelID results) (λ x w, keeps w ∧ results_seen (snd x) ∧ ∀ p, fst x = inl (Some p) → seen_now p).
Proof.
  intros Hr. unfold directChannel. destruct (results !! channelID) as [r|] eqn:E.
  - apply hoare_ret. intros w Hw. split_and!; [done|done|]. cbn. intros p ->. by apply (Hr channelID).
  - intros w x w' Hw. unfold bind, current_step, client_channel. intros [= <- <-]. split; [exact Hw|]. cbn.
    assert (∀ p, match ClientChannel (w_step w) channelID with inl c => inl (mkPointer (Answer (w_step w) 0) <$> c) | inr e => inr e end = inl (Some p) → seen_now p) as Hseen.
    { intros p. destruct (ClientChannel (w_step w) channelID) as [[c|]|e] eqn:Ec; [|done..]. intros [= <-]. by apply (mo_direct _ Hmo _ _ _ Ec). }
    split; [|done]. intros i p [[_ Hp]|[_ Hp]]%lookup_insert_Some; [by apply Hseen|by apply (Hr i)].
Qed.

Local Abbreviation seen_state := (λ x : catalog_map * direct_results, seen_map (fst x) ∧ results_seen (snd x)).

Lemma hydrate_yields f guild target channelID seen m results : seen_map m → results_seen results →
  hoare keeps (hydrate_target f guild target channelID seen m results) (yields seen_state).
Proof.
  revert channelID seen m results. induction f as [|f IH]; intros channelID seen m results Hm Hr; cbn [hydrate_target];
    (destruct (_ =? "")%string; [by apply yields_ret|]); (case_bool_decide; [apply yields_err|]); [apply hoare_fuel|].
  eapply yields_call with (F := λ x : (option pointer + err) * direct_results, results_seen (snd x) ∧ ∀ p, fst x = inl (Some p) → seen_now p).
  { destruct (m !! channelID) as [p|] eqn:E; [|by apply direct_yields]. apply hoare_ret. intros w Hw. split; [done|]. split; [done|]. cbn. intros ? [= <-]. by apply (Hm channelID). }
  intros [[[p|]|e] results'] [Hr' Hp]; cbn in Hr', Hp; [|apply yields_err..]. cbv zeta.
  repeat (match goal with |- hoare _ (if ?b then _ else _) _ => destruct b; [apply yields_err|] end).
  apply IH; [|done]. apply map_Forall_insert_2; [by apply Hp|done].
Qed.

Lemma hydrate_all_yields guild targets m results : seen_map m → results_seen results →
  hoare keeps (hydrate_targets fuel guild targets m results) (yields seen_state).
Proof.
  revert m results. induction targets as [|t targets IH]; intros m results Hm Hr; cbn [hydrate_targets]; [by apply yields_ret|].
  eapply yields_try; [by apply hydrate_yields| |intros; apply yields_err]. intros [m1 r1] [H1 H2]. by apply IH.
Qed.

Lemma append_direct_yields guild selected ids m requested results : seen_map m → results_seen results →
  hoare keeps (append_direct guild selected ids m requested results) (yields (λ x, seen_map (fst (fst x)) ∧ results_seen (snd x))).
Proof.
  revert m requested results. induction ids as [|i ids IH]; intros m requested results Hm Hr; cbn [append_direct]; [by apply yields_ret|].
  destruct (m !! i); [by apply IH|]. eapply yields_call with (F := λ x : (option pointer + err) * direct_results, results_seen (snd x) ∧ ∀ p, fst x = inl (Some p) → seen_now p).
  { by apply direct_yields. }
  intros [[[p|]|e] results'] [Hr' Hp]; cbn in Hr', Hp; [|by apply IH|apply yields_err]. cbv zeta.
  destruct (_ =? "")%string; [by apply IH|]. destruct (_ =? "")%string; [apply yields_err|].
  destruct (negb _); [case_bool_decide; [by apply IH|apply yields_err]|]. apply IH; [|done].
  unfold put. apply map_Forall_insert_2; [by apply Hp|done].
Qed.

Lemma filled_seen step guild m : seen_map m → seen_map (fill_guild step guild m).
Proof.
  intros Hm i p. unfold fill_guild. rewrite lookup_fmap. intros (q & Hq & ->)%fmap_Some_1. specialize (Hm i q Hq). by case_match.
Qed.

Lemma targeted_yields guild requested storedCatalog storedByID targets cached exclusions selected results :
  (∀ i p, storedByID !! i = Some p → p_addr p ∈ cached) → results_seen results →
  hoare keeps (targeted_list configured_scope fuel guild requested storedCatalog storedByID targets cached exclusions selected results) (yields list_ok).
Proof.
  intros Hcached Hr. unfold targeted_list. eapply yields_call; [apply now_yields|]. intros started _.
  eapply yields_try; [apply (fetched mentioned), (λ i cs, mo_guild _ Hmo i guild cs)| |intros; apply yields_err]. intros top Htop. cbv zeta.
  assert (seen_map (put_all top ∅)) as H0 by (apply seen_put_all; [apply map_Forall_empty|done]).
  assert (∀ (i : string) p, seen_now p → seen_now p) as Hok by done.
  eapply yields_try; [by apply hydrate_all_yields| |intros; apply yields_err]. intros [m1 r1] [H1 Hr1]. cbn in H1, Hr1.
  eapply yields_try with (F := seen_map); [|intros m2 H2|intros; apply yields_err].
  { destruct (bool_decide _); [by apply yields_ret|]. by apply (thread_catalog_yields fuel mentioned Hmo id v (λ _, seen_now) Hok). }
  eapply yields_try with (F := λ x : catalog_map * gset string * direct_results, seen_map (fst (fst x)) ∧ results_seen (snd x)); [| |intros; apply yields_err].
  { destruct (_ <? _)%nat; [|by apply yields_ret]. by apply append_direct_yields. }
  intros [[m3 req3] r3] [H3 Hr3]. cbn in H3, Hr3.
  eapply yields_try with (F := seen_map); [|intros m4 H4|intros; apply yields_err].
  { destruct (_ <? _)%nat; [|by apply yields_ret]. by apply (thread_catalog_yields fuel mentioned Hmo id v (λ _, seen_now) Hok). }
  eapply yields_call; [apply step_yields|]. intros step _. pose proof (filled_seen step guild m4 H4) as H5. set (m5 := fill_guild step guild m4) in *.
  set (chosen := withHydratedAncestors _ m5 targets).
  apply (metadata_yields guild (hydratedObservations m5 (dom (put_all top ∅)) targets chosen) started (λ obs, mkListed chosen true (cached ++ (p_addr <$> obs)) r3)).
  - unfold hydratedObservations. case_bool_decide; [by apply seen_slice|]. apply seen_slice. intros i p Hp. apply map_lookup_filter_Some in Hp as [Hp _]. by apply (H5 i).
  - intros ps'. split; [|done]. cbn. intros p [Hp|[i Hp]]%in_hydrated; [|right; by apply (H5 i)].
    apply in_filter_pointers, in_selection in Hp as [[i Hp]|[i Hp]]; [right; by apply (H5 i)|left; apply elem_of_app; left; by eapply Hcached].
Qed.

Lemma list_yields guild requested mode exclusions selected results : results_seen results →
  hoare keeps (channelList configured_scope fuel guild requested mode exclusions selected results) (yields list_ok).
Proof.
  intros Hr. unfold channelList. destruct requested as [|x requested]; [by apply full_yields|]. cbv zeta.
  eapply yields_call; [apply step_yields|]. intros step _.
  eapply yields_try; [apply read_yields| |intros; apply yields_err]. intros rows _.
  eapply yields_try; [apply read_yields| |intros; apply yields_err]. intros desktop _.
  set (stored := filter _ (selectStoredChannels step rows _)).
  assert (∀ i p, stored !! i = Some p → p_addr p ∈ ((λ '(_, p), p_addr p) <$> map_to_list stored)) as Hcached.
  { intros i p Hp. apply list_elem_of_fmap. exists (i, p). split; [done|by apply elem_of_map_to_list]. }
  destruct (canUseStoredTargets _ _); [|by apply targeted_yields].
  apply (yields_check id v); [apply keeps_refresh|]. apply yields_ret. split; [|done]. cbn.
  intros p [[i Hp]|[i Hp]]%in_filter_pointers%in_selection; [done|left; by eapply Hcached].
Qed.

Lemma store_list_keeps ps cached counted stats : (∀ p, p ∈ ps → p_addr p ∈ cached ∨ seen_now p) →
  hoare keeps (storeChannelList ps cached counted stats) (λ _, keeps).
Proof.
  revert stats. induction ps as [|p ps IH]; intros stats Hps; cbn [storeChannelList]; [by apply hoare_ret|]. cbv zeta.
  apply hoare_bind_inv; [|intros [e|]; [by apply hoare_ret|apply IH; intros q Hq; apply Hps; by right]].
  case_bool_decide as Hc; [by apply hoare_ret|]. apply (keeps_upsert mentioned id Hid v). destruct (Hps p) as [?|?]; [by left|done|done].
Qed.
End Lists.

(** ** Properties *)

(** C10: building a run's channel list and storing it writes metadata
    only for channels the provider mentioned. Under every fault schedule, for
    every mode, every targeting and every exclusion: a channel that no answer
    of the provider mentions keeps all of its row but the scope decision (its
    payload, its tombstone and its parent included), and none is invented for
    it; the list that [channelList] returns with the addresses it marked as
    cached makes [storeChannelList] leave it alone too. *)
Theorem unmentioned_channels_keep_their_rows `{Env} `{TailEnv} `{RestEnv} `{CatalogEnv} `{ChannelJSON} `{TimeParse} `{JSONText}
    configured_scope fuel (mentioned : string → Prop) guild requested mode exclusions selected results (w w1 : tail_world) r :
  mentions_only mentioned → results_seen mentioned results →
  channelList configured_scope fuel guild requested mode exclusions selected results w = Some (r, w1) →
  (∀ id, ¬ mentioned id → content <$> stored_table w1 !! id = content <$> stored_table w !! id)
  ∧ ∀ l counted stats x w2, r = inl l → storeChannelList (li_channels l) (li_cached l) counted stats w1 = Some (x, w2) →
      ∀ id, ¬ mentioned id → content <$> stored_table w2 !! id = content <$> stored_table w !! id.
Proof.
  intros Hmo Hr E. split.
  - intros id Hid. by destruct (list_yields configured_scope fuel mentioned Hmo id Hid _ guild requested mode exclusions selected results Hr w r w1 eq_refl E).
  - intros l counted stats x w2 -> E2 id Hid.
    destruct (list_yields configured_scope fuel mentioned Hmo id Hid _ guild requested mode exclusions selected results Hr w _ w1 eq_refl E) as [Hk Hl].
    destruct (Hl l eq_refl) as [Hok _]. by apply (store_list_keeps mentioned id Hid _ (li_channels l) (li_cached l) counted stats Hok w1 x w2 Hk).
Qed.

Section runs.
#[local] Existing Instances no_json no_marshal quiet_tail small_provider one_channel parse_small.
#[local] Instance steady_env : Env := threads_at_100 (λ _, Done).

(** Thread 40 is stored; the provider lists channel 7 and three threads. *)
Definition old_thread : channel_entity :=
  mkChannelEntity (ChannelRow "9" (Some "7"%string) "thread_public" (Some 5) (Some "discord-gateway"%string) "unknown" "" 5) "old" "" 0 false true false false "7" "" "{kept}".
Definition with_old_thread : tail_world :=
  mkWorld ∅ {["40"%string := ce_scope old_thread]} (mkTail empty_mstate (mkEntities ∅ {["40"%string := old_thread]} ∅ ∅ empty_receipts) ∅ ∅) empty_ledger 0.
Definition provider_channels : list string := ["7"; "31"; "32"; "33"]%string.
Definition stored_run : option ((listed + err) * tail_world) := channelList no_exclusions 4 "9" [] channelCatalogFull no_exclusions ∅ ∅ with_old_thread.
Definition world_after {A} (r : option (A * tail_world)) : tail_world := match r with Some (_, w) => w | None => with_old_thread end.
Definition list_after (r : option ((listed + err) * tail_world)) : listed := match r with Some (inl l, _) => l | _ => mkListed [] false [] ∅ end.

Lemma provider_mentions : mentions_only (λ id, id ∈ provider_channels).
Proof.
  assert (∀ before c, c ∈ take 1 (List.filter (before_cursor before) three_threads) → ch_ID c ∈ provider_channels) as Hthreads.
  { intros before c Hc%elem_of_take_in%elem_of_lfilter. destruct Hc as [Hc _]. unfold three_threads in Hc.
    repeat (apply elem_of_cons in Hc as [->|Hc]; [by apply (bool_decide_unpack _)|]). by apply elem_of_nil in Hc. }
  split.
  - intros i g cs [= <-] c Hc%list_elem_of_singleton. subst c. by left.
  - by intros i g cs [= <-] c Hc%elem_of_nil.
  - by intros i ch cs [= <-] c Hc%elem_of_nil.
  - intros i ch private before cs more [= <- _]. apply Hthreads.
  - done.
Qed.

Lemma unmentioned_channels_keep_their_rows_witness :
  let w1 := world_after stored_run in let l := list_after stored_run in
  p_ID <$> li_channels l = ["40"; "7"]%string
  ∧ content <$> stored_table w1 !! "40"%string = Some (content old_thread)
  ∧ content <$> stored_table (world_after (storeChannelList (li_channels l) (li_cached l) ∅ zero_stats w1)) !! "40"%string = Some (content old_thread).
Proof.
  assert (results_seen (λ id, id ∈ provider_channels) ∅) as Hr by (intros i p Hp; by rewrite lookup_empty in Hp).
  assert (¬ "40"%string ∈ provider_channels) as Hn by (apply (bool_decide_unpack _); vm_compute; exact I).
  assert (content <$> stored_table with_old_thread !! "40"%string = Some (content old_thread)) as H0 by (vm_compute; reflexivity).
  destruct stored_run as [[[l|e] w1]|] eqn:E; [|vm_compute in E; discriminate E..].
  assert (p_ID <$> li_channels l = ["40"; "7"]%string) as Hl by (clear -E; vm_compute in E; injection E as <- _; reflexivity).
  unfold stored_run in E.
  destruct (unmentioned_channels_keep_their_rows no_exclusions 4 (λ id, id ∈ provider_channels) "9" [] channelCatalogFull no_exclusions ∅ ∅
    with_old_thread w1 (inl l) provider_mentions Hr E) as [H1 H2].
  specialize (H1 "40"%string Hn). rewrite H0 in H1. cbn [world_after list_after]. split; [exact Hl|]. split; [exact H1|].
  destruct (storeChannelList (li_channels l) (li_cached l) ∅ zero_stats w1) as [[x w2]|] eqn:E2; cbn [world_after]; [|exact H0].
  rewrite (H2 l ∅ zero_stats x w2 eq_refl E2 _ Hn). exact H0.
Defined.
End runs.
