(* ===== verification/MemberRefresh.v ===== *)
(** * The refresh of a guild's members

    The member run of internal/syncer/syncer.go: whether a refresh is due, the
    enumeration of RestClient, its conversion (records.go), the merge of
    EntityRows and the marker of the last complete refresh. Of the two contexts
    of the function, [context_err] is the member context with its timeout, and
    [run_err] the run's. *)
From S2P Require Import Prelude Snowflake Decimal Errors SyncState ChannelScope FailureLedger Discord World GoTime GoText MessageSync GuildSync CrawlSafety Fixture Rows Receipts Attachments Mentions MessageWrite MessageSafety Canonical EntityRows EntitySafety MemberSafety FailureJournal RestClient RestSafety TailHandler.
Local Open Scope Z_scope.
Local Open Scope discrawl_scope.

(** The marshalled member and its roles. *)
Class MemberJSON := { member_JSON : Member → string; roles_JSON : Member → string }.

Class RunEnv := {
  (** [ctx.Err()] of the run. *)
  run_err : nat → option err }.

Definition displayName (m : Member) : string :=
  match gm_User m with
  | None => ""
  | Some u => if negb (gm_Nick m =? "")%string then gm_Nick m
              else if negb (us_GlobalName u =? "")%string then us_GlobalName u else us_Username u
  end.

Definition toMemberRecord `{MemberJSON} (guildID : string) (m : Member) : MemberRecord :=
  match gm_User m with
  | None => mkMemberRecord "" "" "" "" "" "" "" "" false "" "" ""
  | Some u => mkMemberRecord guildID (us_ID u) (us_Username u) (us_GlobalName u) (displayName m) (gm_Nick m) (us_Discriminator u)
                (gm_Avatar m) (us_Bot u) (RFC3339Nano (gm_JoinedAt m)) (roles_JSON m) (member_JSON m)
  end.

Definition guildMemberSyncSuccessScope (guildID : string) : string := "guild:" ++ guildID ++ ":members:last_success".
Definition guild_members_ref (guildID : string) : FailureRef := mkRef "guild_members" "discord" guildID "" "" "" "".

Section Refresh.
Context {ENV : Env} {RE : RestEnv} {RUN : RunEnv} {ER : ErrorReport} {MJ : MemberJSON}.
Context {tp : TimeParse} {jt : JSONText} (profileText : string → string).
(** [s.memberRefreshInterval]; bounds on the pages and on the waits of a page. *)
Context (memberRefreshInterval : Z) (fuel tries : nat).
Local Abbreviation M := (M tail_tables).

Definition shouldRefreshMembers (guildID : string) : M bool :=
  if (guildID =? "")%string then ret true
  else
    try! lastSuccess := get_sync_state (guildMemberSyncSuccessScope guildID) orelse (λ _, ret true);
    if (lastSuccess =? "")%string || (memberRefreshInterval <=? 0) then ret true
    else match Parse layoutRFC3339Nano lastSuccess with
         | None => ret true
         | Some lastAt => let! now := time_Now in ret (negb (now - lastAt <? memberRefreshInterval))
         end.

Fixpoint convert_members (guildID : string) (ms : list Member) : M (list MemberRecord + err) :=
  match ms with
  | [] => ret (inl [])
  | m :: ms =>
      check! ctx_Err orelse (λ e, ret (inr e));
      let r := toMemberRecord guildID m in
      if (mb_UserID r =? "")%string then ret (inr (EText "member enumeration returned a missing user identity"))
      else try! rs := convert_members guildID ms orelse (λ e, ret (inr e)); ret (inl (r :: rs))
  end.

(** [store.MergeObservedMembers]: one step per batch, and one for the check of
    the context at the end. A batch that fails is rolled back. *)
Definition refused (i : nat) : option err := match outcome_at i with Done => None | FailBefore e | FailAfter e => Some e end.
Definition steps (n : nat) (w : tail_world) : tail_world := mkWorld (w_sync w) (w_channels w) (w_messages w) (w_ledger w) (n + w_step w).
Definition merge_observed (guildID : string) (members : list MemberRecord) (started : Z) : M (MemberRefreshMerge * option err) := λ w,
  let n := length members in
  let '(r, s) := MergeObservedMembers profileText (λ i, clock (w_step w + i)) (λ i, refused (w_step w + i)) (context_err (w_step w + n)) guildID members
                   (Some started) (tt_entities (w_messages w)) in
  Some (r, steps (S n) (on_tables (with_entities s) w)).

Definition refresh_members (guildID : string) : M (nat * option err) :=
  let! startedAt := time_Now in
  let! (enumeration, e) := GuildMemberEnumeration fuel tries guildID in
  match (match e with
         | None => if me_Complete enumeration then None else Some (EText "member enumeration has no completed pagination boundary")
         | Some e => Some e
         end) with
  | Some e => ret (0%nat, Some (EWrap "crawl guild members: " e ""))
  | None =>
      try! converted := convert_members guildID (me_Members enumeration) orelse (λ e, ret (0%nat, Some e));
      let! (merged, e) := merge_observed guildID converted startedAt in
      match e with
      | Some e => ret (0%nat, Some (EWrap "merge guild members: " e ""))
      | None =>
          check! (ledger_call (λ now, ResolveFailureIdentity now (guild_members_ref guildID)))
            orelse (λ e, ret (0%nat, Some (EWrap "resolve guild member refresh failure: " e "")));
          let! now := time_Now in
          check! (set_sync_state (guildMemberSyncSuccessScope guildID) (RFC3339Nano now))
            orelse (λ e, ret (0%nat, Some (EWrap "record guild member sync: " e "")));
          ret (length converted, None)
      end
  end.

(** With the deferred recording of a failure. *)
Definition refreshGuildMembers (guildID : string) (force : bool) : M (nat * option err) :=
  let! due := (if force then ret true else shouldRefreshMembers guildID) in
  if negb due then ret (0%nat, None)
  else
    let! (count, resultErr) := refresh_members guildID in
    match resultErr with
    | None => ret (count, None)
    | Some e =>
        let! stopped := ask run_err in
        match stopped with
        | Some _ => ret (count, Some e)
        | None => let! recorded := ledger_call (λ now, RecordFailure now (guild_members_ref guildID) (Some e)) in ret (count, errors_Join (Some e) recorded)
        end
    end.
End Refresh.

(** ** What a refresh certifies *)

Definition same_tables {T} (w0 w : world T) : Prop :=
  w_sync w = w_sync w0 ∧ w_channels w = w_channels w0 ∧ w_messages w = w_messages w0 ∧ w_ledger w = w_ledger w0.

Section Certified.
Context {ENV : Env} {RE : RestEnv} {RUN : RunEnv} {ER : ErrorReport} {MJ : MemberJSON}.
Context {tp : TimeParse} {jt : JSONText} (profileText : string → string).
Context (memberRefreshInterval : Z) (fuel tries : nat).

(** Enumerating only asks. *)
Lemma page_same (w0 : tail_world) n guild after r : hoare (same_tables w0) (memberPage (T:=tail_tables) n guild after r) (λ _, same_tables w0).
Proof.
  assert (∀ A (f : nat → A), hoare (same_tables w0) (ask (T:=tail_tables) f) (λ _, same_tables w0)) as Hask by (by intros A f w a w' Hw [= <- <-]).
  revert r. induction n as [|n IH]; intros r; [apply hoare_fuel|]. cbn [memberPage].
  apply hoare_bind_inv; [apply Hask|]. intros [e|]; [by apply hoare_ret|].
  apply hoare_bind_inv; [by intros w a w' Hw [= <- <-]|]. intros [e|]; [by apply hoare_ret|].
  apply hoare_bind_inv; [apply Hask|]. intros [page|e]; [by apply hoare_ret|].
  destruct (rate_limited e); [|by apply hoare_ret]. cbv zeta. destruct (_ || _); [by apply hoare_ret|].
  apply hoare_bind_inv; [apply Hask|]. intros [e'|]; [by apply hoare_ret|]. apply IH.
Qed.

Lemma enumerate_same (w0 : tail_world) n k guild after previous r :
  hoare (same_tables w0) (enumerate (T:=tail_tables) n k guild after previous r) (λ _, same_tables w0).
Proof.
  revert after previous r. induction n as [|n IH]; intros after previous r; [apply hoare_fuel|]. cbn [enumerate].
  apply hoare_bind_inv; [apply page_same|]. intros [[[|m page]|e] r1]; [by apply hoare_ret| |by apply hoare_ret]. cbv zeta.
  destruct (page_members guild (m :: page) previous) as [[ms final]|e]; [|by apply hoare_ret].
  destruct (_ =? "")%string; [by apply hoare_ret|]. destruct (_ =? after)%string; [by apply hoare_ret|].
  destruct (_ <? 1000)%nat; [by apply hoare_ret|]. apply IH.
Qed.

Lemma convert_members_spec guild ms (w0 : tail_world) :
  hoare (same_tables w0) (convert_members guild ms) (λ r w, same_tables w0 w ∧ ∀ rs, r = inl rs → rs = toMemberRecord guild <$> ms).
Proof.
  induction ms as [|m ms IH]; cbn [convert_members]; [apply hoare_ret; intros w Hw; split; [done|]; by intros rs [= <-]|].
  apply hoare_bind with (Q := λ _, same_tables w0); [by intros w a w' Hw [= <- <-]|]. intros [e|]; [apply hoare_ret; by intros w Hw|]. cbv zeta.
  destruct (_ =? "")%string; [apply hoare_ret; by intros w Hw|].
  eapply hoare_bind; [exact IH|]. intros [rs|e]; apply hoare_ret; intros w [Hw Hrs]; (split; [exact Hw|]); [|done].
  intros rs' [= <-]. cbn. by rewrite (Hrs rs eq_refl).
Qed.

Definition entities_of (w : tail_world) : entities := tt_entities (w_messages w).
Definition marker (guild : string) (w : tail_world) : string := GetSyncState (guildMemberSyncSuccessScope guild) (w_sync w).

(** Every member of the roster has been merged between the two worlds, as
    observed at the time that was read right before the enumeration that listed
    them. *)
Definition roster_merged (guild : string) (roster : list Member) (w w' : tail_world) : Prop :=
  ∃ w0 listing w1 r, same_tables w w0 ∧ GuildMemberEnumeration fuel tries guild (tick w0) = Some ((listing, None), w1)
    ∧ merged_listing (clock (w_step w0)) (toMemberRecord guild <$> roster) r (entities_of w) (entities_of w').

Lemma enumerated_roster guild roster r e (w w' : tail_world) :
  serves_roster guild roster → GuildMemberEnumeration fuel tries guild w = Some ((r, e), w') → e = None → me_Members r = roster.
Proof.
  intros HS E ->. assert (listed_so_far "" 0 (mkEnumeration [] 0 "" false 0)) as Hinit by (split; [split; constructor|done]).
  by apply (enumerate_served _ _ HS _ _ _ _ _ roster _ Hinit eq_refl _ _ E eq_refl).
Qed.

(** What [refresh_members] leaves behind. *)
Definition refresh_post (guild : string) (roster : list Member) (w : tail_world) (a : nat * option err) (w' : tail_world) : Prop :=
  match snd a with
  | None => fst a = length roster ∧ roster_merged guild roster w w' ∧ ∃ now, marker guild w' = RFC3339Nano now
  | Some _ => fst a = 0%nat ∧ (w_sync w' = w_sync w ∨ roster_merged guild roster w w')
  end.

Lemma merge_observed_spec guild members started (w0 : tail_world) :
  hoare (same_tables w0) (merge_observed profileText guild members started)
    (λ x w, w_sync w = w_sync w0 ∧ (snd x = None → ∃ r, merged_listing started members r (entities_of w0) (entities_of w))).
Proof.
  intros w x w' (Hs & _ & Hm & _). unfold merge_observed. destruct (MergeObservedMembers _ _ _ _ _ _ _ _) as [[r e] s'] eqn:E. intros [= <- <-].
  split; [exact Hs|]. cbn. intros ->. destruct (member_refresh_applies_listing _ _ _ _ _ _ _ _ _ _ _ E) as (done & rest & -> & Hl & Hr).
  rewrite (Hr eq_refl), app_nil_r. exists r. unfold entities_of. cbn. by rewrite <- Hm.
Qed.

Lemma refresh_members_spec guild roster (w : tail_world) :
  serves_roster guild roster → wp (refresh_members profileText fuel tries guild) (refresh_post guild roster w) w.
Proof.
  intros HS. unfold refresh_members.
  eapply (wp_bind _ _ (λ started w1, started = clock (w_step w) ∧ w1 = tick w)); [by intros a w1 [= <- <-]|]. intros started w1 [-> ->].
  assert (same_tables w (tick w)) as H1 by done.
  eapply (wp_bind _ _ (λ x w', same_tables (tick w) w' ∧ (snd x = None → me_Members (fst x) = roster) ∧ GuildMemberEnumeration fuel tries guild (tick w) = Some (x, w'))).
  { intros [r e] w2 E. split; [by apply (enumerate_same (tick w) _ _ _ _ _ _ _ _ _ ltac:(done) E)|]. split; [cbn; intros ->|exact E].
    by apply (enumerated_roster guild roster r None (tick w) w2 HS E). }
  intros [r e] w2 (H2 & Hroster & Hlisted). cbn in Hroster.
  assert (same_tables w w2) as H02 by (destruct H1 as (? & ? & ? & ?), H2 as (? & ? & ? & ?); split_and!; congruence). clear H1 H2.
  destruct (match e with Some _ => _ | None => _ end) as [e1|] eqn:Ee; [apply wp_ret; split; [done|left; apply H02]|].
  assert (e = None) as -> by (by destruct e). rewrite (Hroster eq_refl).
  eapply wp_call; [apply convert_members_spec|exact H02|]. intros [rs|e2] w3 [H3 Hrs]; [|apply wp_ret; split; [done|left; apply H3]].
  rewrite (Hrs rs eq_refl).
  eapply wp_call; [apply (merge_observed_spec guild _ _ w)|exact H3|]. intros [m [e3|]] w4 [Hs Hmerged]; [apply wp_ret; split; [done|by left]|].
  cbn in Hmerged. specialize (Hmerged eq_refl).
  apply (wp_call _ _ (λ w', w_sync w' = w_sync w ∧ roster_merged guild roster w w') (λ _ w', w_sync w' = w_sync w ∧ roster_merged guild roster w w')).
  { apply hoare_store_write; [done| |done]. intros now w5 e5 w6 Hw. unfold on_ledger. destruct (ResolveFailureIdentity _ _ _) as [e6 l]. intros [= <- <-]. by split. }
  { split; [exact Hs|]. destruct Hmerged as [r' Hr']. by exists w, r, w2, r'. }
  intros [e4|] w5 [H5 Hm5]; [apply wp_ret; split; [done|by left]|].
  apply (wp_call _ _ (λ w', roster_merged guild roster w w') (λ _ w', roster_merged guild roster w w')); [by intros w6 a w7 Hw [= <- <-]|done|]. intros now w6 Hm6.
  apply (wp_call _ _ (λ w', roster_merged guild roster w w') (λ e w', roster_merged guild roster w w' ∧ (e = None → marker guild w' = RFC3339Nano now))); [|done|].
  { apply hoare_store_write; [done| |intros w7 e7 Hw; by split]. intros now7 w7 e7 w8 Hw. unfold on_sync. intros [= <- <-]. split; [by intros; split|].
    split; [exact Hw|]. intros _. unfold marker. cbn. apply GetSyncState_Set_eq. }
  intros [e5|] w7 [Hm7 Hk]; apply wp_ret; split; [done|by right|by rewrite length_fmap|]. split; [done|]. exists now. by apply Hk.
Qed.

(** A refresh that is not due touches nothing, and the last complete one is
    recent. *)
Definition still_fresh (guild : string) (w : tail_world) : Prop :=
  ∃ last now, Parse layoutRFC3339Nano (marker guild w) = Some last ∧ now - last < memberRefreshInterval.

Lemma should_refresh_spec guild (w : tail_world) :
  wp (shouldRefreshMembers memberRefreshInterval guild) (λ due w', same_tables w w' ∧ (due = false → still_fresh guild w)) w.
Proof.
  unfold shouldRefreshMembers. destruct (guild =? "")%string; [by apply wp_ret|].
  apply (wp_call _ _ (same_tables w) (λ r w', same_tables w w' ∧ ∀ raw, r = inl raw → raw = marker guild w)); [|done|].
  { apply hoare_store_read; [done| |by intros w1 e Hw; split]. intros now w1 Hw. split; [exact Hw|]. intros raw [= <-]. unfold marker.
    destruct Hw as (-> & _). done. }
  intros [raw|e] w1 [H1 Hraw]; [|by apply wp_ret]. specialize (Hraw raw eq_refl) as ->.
  destruct (_ || _); [by apply wp_ret|]. destruct (Parse _ _) as [lastAt|] eqn:Ep; [|by apply wp_ret].
  eapply (wp_bind _ _ (λ _ w', same_tables w w')); [by intros a w2 [= <- <-]|]. intros now w2 H2. apply wp_ret. split; [exact H2|].
  intros Hdue%negb_false_iff%Z.ltb_lt. by exists lastAt, now.
Qed.

(** C14: the marker of a member refresh is a certificate. A refresh that ends
    without error has either found the last one recent, and changed nothing, or
    has merged the provider's whole roster, as observed when its enumeration
    began: as many members as it returns, each stored as the provider gave it or
    skipped for something newer, nobody else changed. The marker moves only with such a merge, whatever else fails and
    under every fault schedule. *)
Theorem refresh_marker_certifies guild force roster count e (w w' : tail_world) :
  serves_roster guild roster →
  refreshGuildMembers profileText memberRefreshInterval fuel tries guild force w = Some ((count, e), w') →
  (marker guild w' = marker guild w ∨ roster_merged guild roster w w')
  ∧ match e with
    | None => (force = false ∧ count = 0%nat ∧ same_tables w w' ∧ still_fresh guild w)
              ∨ (count = length roster ∧ roster_merged guild roster w w' ∧ ∃ now, marker guild w' = RFC3339Nano now)
    | Some _ => count = 0%nat
    end.
Proof.
  intros HS Hrun. revert Hrun.
  set (Q := λ (x : nat * option err) (w' : tail_world), (marker guild w' = marker guild w ∨ roster_merged guild roster w w')
    ∧ match snd x with
      | None => (force = false ∧ fst x = 0%nat ∧ same_tables w w' ∧ still_fresh guild w)
                ∨ (fst x = length roster ∧ roster_merged guild roster w w' ∧ ∃ now, marker guild w' = RFC3339Nano now)
      | Some _ => fst x = 0%nat
      end).
  enough (wp (refreshGuildMembers profileText memberRefreshInterval fuel tries guild force) Q w) as H by (by intros Hrun; apply H in Hrun).
  unfold refreshGuildMembers.
  eapply (wp_bind _ _ (λ due w', same_tables w w' ∧ (due = false → force = false ∧ still_fresh guild w))).
  { destruct force; [by apply wp_ret|]. intros due w1 E. destruct (should_refresh_spec guild w due w1 E) as [? Hf]. split; [done|]. auto. }
  intros due w1 [H1 Hdue]. destruct due; cbn [negb].
  - assert (∀ w2, roster_merged guild roster w1 w2 → roster_merged guild roster w w2) as Hback.
    { intros w2 (w0 & x & w3 & r & H0 & He & Hm). exists w0, x, w3, r. destruct H1 as (? & ? & H1 & ?), H0 as (? & ? & ? & ?).
      split; [split_and!; congruence|]. split; [exact He|]. unfold entities_of in *. by rewrite <- H1. }
    eapply wp_bind; [apply (refresh_members_spec guild roster w1 HS)|]. intros [n [e1|]] w2; unfold refresh_post; cbn [fst snd].
    + intros [-> Hmoved].
      assert (∀ w3, w_sync w3 = w_sync w2 → w_messages w3 = w_messages w2 → marker guild w3 = marker guild w ∨ roster_merged guild roster w w3) as Hpost.
      { intros w3 Hs3 Hm3. destruct Hmoved as [Hs|Hm]; [left; unfold marker; destruct H1 as (H1 & _); by rewrite Hs3, Hs, H1|right; apply Hback].
        unfold roster_merged, entities_of in *. by rewrite Hm3. }
      apply (wp_bind _ _ (λ _ w3, w_sync w3 = w_sync w2 ∧ w_messages w3 = w_messages w2)); [by intros a w3 [= <- <-]|].
      intros [stopped|] w3 [Hs3 Hm3]; [apply wp_ret; split; [by apply Hpost|done]|].
      apply (wp_call _ _ (λ w4, w_sync w4 = w_sync w2 ∧ w_messages w4 = w_messages w2) (λ _ w4, w_sync w4 = w_sync w2 ∧ w_messages w4 = w_messages w2)); [|done|].
      { apply hoare_store_write; [done| |done]. intros now w5 e5 w6 Hw. unfold on_ledger. destruct (RecordFailure _ _ _ _) as [e6 l]. intros [= <- <-]. by split. }
      intros recorded w4 [Hs4 Hm4]. apply wp_ret. split; [by apply Hpost|]. by destruct recorded.
    + intros (-> & Hm & now & Hnow). apply wp_ret. split; [right; by apply Hback|]. right. split_and!; [done|by apply Hback|by exists now].
  - destruct (Hdue eq_refl) as [-> Hf]. apply wp_ret. split; [left; unfold marker; by destruct H1 as (-> & _)|]. left. by split_and!.
Qed.
End Certified.

(** ** A refresh *)

Definition bare_members : Member → string := λ _, "{}"%string.
#[local] Instance plain_members : MemberJSON := {| member_JSON := bare_members; roles_JSON := λ _, "[]"%string |}.
#[local] Instance running : RunEnv := {| run_err := λ _, None |}.
Definition bare_tables : tail_tables := mkTail empty_mstate no_entities ∅ ∅.
Definition bare_refresh (fails : nat → outcome) : option ((nat * option err) * tail_world) :=
  refreshGuildMembers (ENV := calm_env [] fails) (RE := small_provider) (ER := plain_report) (tp := parse_written) (jt := no_json) id 1000 2 1 "9" false
    (mkWorld ∅ ∅ bare_tables empty_ledger 0).

Lemma refresh_marker_certifies_witness :
  ∃ count w', bare_refresh (λ _, Done) = Some ((count, None), w') ∧ count = 2%nat
    ∧ ∃ now, marker "9" w' = RFC3339Nano now.
Proof.
  destruct (bare_refresh (λ _, Done)) as [[[count [e|]] w']|] eqn:E; [by vm_compute in E| |by vm_compute in E].
  exists count, w'. split; [done|].
  destruct (refresh_marker_certifies (ENV := calm_env [] (λ _, Done)) (RE := small_provider) (RUN := running) (ER := plain_report) (MJ := plain_members)
              (tp := parse_written) (jt := no_json) id 1000 2 1 "9" false two_members count None _ w' small_roster E)
    as [_ [(_ & -> & _)|(-> & _ & Hnow)]]; [by vm_compute in E|done].
Defined.

(** The same when the write of the marker fails: the failure is recorded and
    the next run refreshes again. *)
Example refresh_fails : ∃ w', bare_refresh (λ i, if (i =? 12)%nat then FailBefore (EText "disk full") else Done)
    = Some ((0%nat, Some (EWrap "record guild member sync: " (EText "disk full") "")), w')
  ∧ marker "9" w' = ""%string ∧ length (rows (w_ledger w')) = 1%nat.
Proof. eexists. vm_compute. split_and!; reflexivity. Qed.
