(* ===== verification/SyncEntry.v ===== *)
(** * A sync run

    The entry point of internal/syncer/syncer.go: the guilds of a run, one guild
    after the other, the batches of channels left over by an earlier full sync,
    and the composition of catalog, members and messages. Messages run with one
    worker. [directChannelResults], a map that the guilds of a run share, is
    passed from call to call. *)
From S2P Require Import Prelude Snowflake Decimal Errors SyncState ChannelScope FailureLedger Discord World GoTime GoText MessageSync ChannelSync GuildSync Exclusions Rows Receipts Attachments Mentions MessageWrite Canonical EntityRows FailureJournal RestClient CatalogData TailHandler Catalog MemberRefresh.
Local Open Scope Z_scope.
Local Open Scope discrawl_scope.

Record Guild := mkGuild { dg_ID : string; dg_Name : string; dg_Icon : string; dg_rest : string }.
Class GuildJSON := guild_JSON : Guild → string.
(** [client.Guild]. *)
Class GuildEnv := ClientGuild : nat → string → Guild + err.

(** The options of a run besides those of its message sync; [ro_exclude] is the
    scope of its three exclusion lists. *)
Record RunOptions := mkRunOptions {
  ro_sync : SyncOptions; ro_GuildIDs : list string; ro_IncludeStoredThreads : bool;
  ro_SkipMembers : bool; ro_RequireMembers : bool; ro_exclude : channelExclusions }.

Definition with_targets (ids : list string) (o : RunOptions) : RunOptions :=
  let s := ro_sync o in
  mkRunOptions (mkOptions (o_Full s) (o_Embeddings s) (o_LatestOnly s) (o_Since s) ids)
    (ro_GuildIDs o) (ro_IncludeStoredThreads o) (ro_SkipMembers o) (ro_RequireMembers o) (ro_exclude o).
Definition targets (o : RunOptions) : list string := o_ChannelIDs (ro_sync o).

Definition fullSyncBatchSize : nat := 25.

Definition catalogModeForSync (o : RunOptions) : channelCatalogMode :=
  if o_LatestOnly (ro_sync o) && negb (o_Full (ro_sync o)) && bool_decide (targets o = []) then channelCatalogIncremental else channelCatalogFull.

Definition shouldResumeIncompleteFullSync (o : RunOptions) : bool :=
  o_Full (ro_sync o) && negb (is_some (o_Since (ro_sync o))) && bool_decide (targets o = []).

Definition add_stats (a b : SyncStats) : SyncStats :=
  mkStats (st_Guilds a + st_Guilds b) (st_Channels a + st_Channels b) (st_Threads a + st_Threads b) (st_Members a + st_Members b)
    (st_Messages a + st_Messages b).
Definition with_member_count (n : nat) (s : SyncStats) : SyncStats := mkStats (st_Guilds s) (st_Channels s) (st_Threads s) n (st_Messages s).
Definition more_messages (n : nat) (s : SyncStats) : SyncStats :=
  mkStats (st_Guilds s) (st_Channels s) (st_Threads s) (st_Members s) (st_Messages s + n).

(** ** Guilds of a run (records.go) *)

Definition selectGuilds (all : list UserGuild) (requested : list string) : list UserGuild :=
  match requested with
  | [] => all
  | _ => List.filter (λ g, bool_decide (ug_ID g ∈ makeGuildSet requested)) all
  end.

Fixpoint missing_ids (available : gset string) (seen : list string) (requested : list string) : list string :=
  match requested with
  | [] => []
  | id :: requested =>
      let id := TrimSpace id in
      if (id =? "")%string || bool_decide (id ∈ seen) then missing_ids available seen requested
      else (if bool_decide (id ∈ available) then [] else [id]) ++ missing_ids available (id :: seen) requested
  end.
Definition missingGuildIDs (all : list UserGuild) (requested : list string) : list string :=
  missing_ids (makeGuildSet (ug_ID <$> all)) [] requested.

Fixpoint join_comma (l : list string) : string :=
  match l with
  | [] => ""
  | [x] => x
  | x :: l => x ++ ", " ++ join_comma l
  end.

(** ** Channels left over by a full sync *)

(** [ListAllIncompleteMessageChannelIDsByGuild]; for no guild, of all. *)
Definition message_kinds : list string :=
  ["text"; "news"; "announcement"; "voice"; "type_13"; "thread_public"; "thread_private"; "thread_news"; "thread_announcement"]%string.
Definition incomplete (sync : gmap string sync_row) (guildID : string) (r : row) : bool :=
  bool_decide (row_kind r ∈ message_kinds) && ((guildID =? "")%string || (c_guild (ce_scope (snd r)) =? guildID)%string)
  && negb (is_some (sync !! channelHistoryCompleteScope (fst r))).
Definition AllIncompleteMessageChannelIDs (guildID : string) (w : tail_world) : list string :=
  merge_sort string_le (fst <$> List.filter (incomplete (w_sync w) guildID) (map_to_list (stored_table w))).

Record incompleteBatchResult := mkBatches {
  ib_stats : SyncStats; ib_channelIDs : gset string; ib_backlog : bool; ib_results : direct_results }.

Section Entry.
Context {ENV : Env} {TE : TailEnv} {RE : RestEnv} {CE : CatalogEnv} {RUN : RunEnv} {GE : GuildEnv} {ER : ErrorReport}.
Context {CF : ChannelJSON} {MJ : MemberJSON} {GJ : GuildJSON} {JC : JSON historyVerificationCheckpoint} {JW : JSON HistoryWindow}.
Context {tp : TimeParse} {jt : JSONText} {MS : MessageStore tail_tables} (profileText : string → string).
Context (configured_scope : channelExclusions) (memberRefreshInterval : Z) (fuel tries : nat).
Local Abbreviation M := (M tail_tables).

Definition effectiveChannelExclusions (o : RunOptions) : channelExclusions := merged configured_scope (ro_exclude o).

Definition syncGuildRecord (guildID : string) : M (option err) :=
  let! started := time_Now in
  try! guild := ask (λ i, ClientGuild i guildID) orelse (λ e, ret (Some (EWrap ("fetch guild " ++ guildID ++ ": ") e "")));
  entity_write (λ now, UpsertObservedGuild now (mkGuildRecord (dg_ID guild) (dg_Name guild) (dg_Icon guild) (guild_JSON guild)) (Some started)).

Definition refreshGuildMembersForSync (guildID : string) (targeted : bool) (o : RunOptions) : M (nat * option err) :=
  if targeted then
    ret (0%nat, if ro_RequireMembers o then Some (EText "cannot require a member refresh for a targeted channel sync") else None)
  else if ro_SkipMembers o then ret (0%nat, None)
  else
    let! (members, e) := refreshGuildMembers profileText memberRefreshInterval fuel tries guildID (ro_RequireMembers o) in
    match e with
    | Some e => if ro_RequireMembers o then ret (0%nat, Some e) else ret (members, None)
    | None => ret (members, None)
    end.

Definition shouldUseIncrementalFullCatalog (guildID : string) : M bool :=
  if (guildID =? "")%string then ret false
  else try! rows := Channels guildID orelse (λ _, ret false); ret (0 <? length rows)%nat.

Definition stored_without_excluded (guildID : string) (channelIDs : list string) (o : RunOptions) : M (list string + err) :=
  let e := effectiveChannelExclusions o in
  if negb (configured e) then ret (inl channelIDs)
  else
    try! rows := Channels guildID orelse (λ e, ret (inr e));
    ret (inl (filterExcludedStoredChannelIDs channelIDs e (list_to_map ((λ '(id, r), (id, ce_scope r)) <$> rows)))).

(** The incomplete channels, and the message channels marked as unavailable. *)
Definition batch_candidates (rows : list row) (unavailable : gset string) (incomplete_ids : list string) : gset string :=
  makeGuildSet incomplete_ids
  ∪ list_to_set (omap (λ r, if bool_decide (channelMessageUnavailableScope (fst r) ∈ unavailable) && IsMessageChannel (Some (channelFromRow r))
                            then Some (fst r) else None) rows).

(** ** One guild

    [again] is the recursive call of [syncGuild] for a batch. *)
Section Guild.
Context (again : RunOptions → direct_results → M (SyncStats * direct_results * option err)).

Fixpoint sync_batches (n : nat) (ids : list string) (o : RunOptions) (stats : SyncStats) (results : direct_results) :
    M (SyncStats * direct_results * option err) :=
  match n, ids with
  | O, _ | _, [] => ret (stats, results, None)
  | S n, _ =>
      let! (one, results, e) := again (with_targets (take fullSyncBatchSize ids) o) results in
      match e with
      | Some e => ret (stats, results, Some e)
      | None => sync_batches n (drop fullSyncBatchSize ids) o (add_stats stats one) results
      end
  end.

Definition syncGuildIncompleteBatches (guildID : string) (o : RunOptions) (results : direct_results) : M (incompleteBatchResult + err) :=
  try! incomplete_ids := store_read (λ _ w, AllIncompleteMessageChannelIDs guildID w) orelse (λ e, ret (inr e));
  try! markers := store_read (λ _ w, SyncStateBySuffix ChannelUnavailableSuffix (w_sync w)) orelse (λ e, ret (inr e));
  let unavailable := list_to_set (markers.*1) : gset string in
  try! rows := (if bool_decide (unavailable = ∅) then ret (inl []) else Channels guildID) orelse (λ e, ret (inr e));
  try! channelIDs := stored_without_excluded guildID (merge_sort string_le (elements (batch_candidates rows unavailable incomplete_ids))) o
    orelse (λ e, ret (inr e));
  match channelIDs with
  | [] => ret (inl (mkBatches zero_stats ∅ false results))
  | _ =>
      let backlog := existsb (λ id, negb (bool_decide (channelMessageUnavailableScope id ∈ unavailable))) channelIDs in
      let! (stats, results, e) := sync_batches (length channelIDs) channelIDs o zero_stats results in
      match e with
      | Some e => ret (inr e)
      | None => ret (inl (mkBatches stats (makeGuildSet channelIDs) backlog results))
      end
  end.

(** Catalog, members and messages, after the batches. *)
Definition sync_catalog (guildID : string) (o : RunOptions) (mode : channelCatalogMode) (resumed : incompleteBatchResult) (selected : gset string) :
    M (SyncStats * direct_results * option err) :=
  let stats := ib_stats resumed in
  let results := ib_results resumed in
  try! l := channelList configured_scope fuel guildID (targets o) mode (effectiveChannelExclusions o) selected results
    orelse (λ e, ret (stats, results, Some e));
  let results := li_results l in
  let! (stats, e) := storeChannelList (li_channels l) (li_cached l) (ib_channelIDs resumed) stats in
  match e with
  | Some e => ret (stats, results, Some e)
  | None =>
      check! (refreshStoredScopes configured_scope) orelse (λ e, ret (stats, results, Some e));
      let channels := List.filter (λ p, negb (bool_decide (p_ID p ∈ ib_channelIDs resumed))) (li_channels l) in
      let! (members, e) := refreshGuildMembersForSync guildID (li_targeted l) o in
      match e with
      | Some e => ret (stats, results, Some e)
      | None =>
          let stats := with_member_count members stats in
          let! (messageCount, e, _) := syncMessageChannels fuel guildID (p_channel <$> channels) (ro_sync o) in
          match e with
          | Some e => ret (stats, results, Some e)
          | None => ret (more_messages messageCount stats, results, None)
          end
      end
  end.

Definition sync_guild_with (guildID : string) (selected : gset string) (o : RunOptions) (results : direct_results) :
    M (SyncStats * direct_results * option err) :=
  try! o := (if ro_IncludeStoredThreads o
             then try! rows := Channels guildID orelse (λ e, ret (inr e)); ret (inl (with_targets (includeStoredThreadTargets rows guildID (targets o)) o))
             else ret (inl o)) orelse (λ e, ret (zero_stats, results, Some e));
  check! (syncGuildRecord guildID) orelse (λ e, ret (zero_stats, results, Some e));
  if shouldResumeIncompleteFullSync o then
    try! resumed := syncGuildIncompleteBatches guildID o results orelse (λ e, ret (zero_stats, results, Some e));
    if ib_backlog resumed then
      let! (members, e) := refreshGuildMembersForSync guildID false o in
      match e with
      | Some e => ret (ib_stats resumed, ib_results resumed, Some e)
      | None => ret (with_member_count members (ib_stats resumed), ib_results resumed, None)
      end
    else
      let! incremental := shouldUseIncrementalFullCatalog guildID in
      sync_catalog guildID o (if incremental then channelCatalogIncremental else catalogModeForSync o) resumed selected
  else sync_catalog guildID o (catalogModeForSync o) (mkBatches zero_stats ∅ false results) selected.
End Guild.

(** A batch names its channels, so it resumes nothing: the recursion ends one
    level down. *)
Definition syncGuild (guildID : string) (selected : gset string) : RunOptions → direct_results → M (SyncStats * direct_results * option err) :=
  sync_guild_with (sync_guild_with (λ _ _, out_of_fuel) guildID selected) guildID selected.

(** ** The run *)

Fixpoint sync_guilds (guilds : list string) (selected : gset string) (o : RunOptions) (results : direct_results) (stats : SyncStats) :
    M (SyncStats * option err) :=
  match guilds with
  | [] => ret (stats, None)
  | g :: guilds =>
      let! (one, results, e) := syncGuild g selected o results in
      match e with
      | Some e => ret (stats, Some e)
      | None =>
          sync_guilds guilds selected o results
            (mkStats (S (st_Guilds stats)) (st_Channels stats + st_Channels one) (st_Threads stats + st_Threads one)
               (st_Members stats + st_Members one) (st_Messages stats + st_Messages one))
      end
  end.

Definition Sync (o : RunOptions) : M (SyncStats * option err) :=
  if ro_IncludeStoredThreads o && bool_decide (makeGuildSet (targets o) = ∅)
  then ret (zero_stats, Some (EText "including stored threads requires explicit channel targets"))
  else
    try! guilds := Guilds fuel orelse (λ e, ret (zero_stats, Some (EWrap "list guilds: " e "")));
    match missingGuildIDs guilds (ro_GuildIDs o) with
    | (_ :: _) as missing => ret (zero_stats, Some (EText ("requested guilds not accessible: " ++ join_comma missing)))
    | [] =>
        let ids := ug_ID <$> selectGuilds guilds (ro_GuildIDs o) in
        let! (stats, e) := sync_guilds ids (list_to_set ids) o ∅ zero_stats in
        match e with
        | Some e => ret (stats, Some e)
        | None =>
            let! now := time_Now in
            let! e := set_sync_state lastSuccessScope (RFC3339Nano now) in
            ret (stats, e)
        end
    end.
End Entry.
