(* ===== verification/SyncSafety.v ===== *)
(** * What a successful run means

    The instant of the last successful run is what the catalog of archived
    threads starts from when it has no cursor of its own. It moves only at the
    end of a run that crawled every one of its guilds without error: nothing
    else that a run does writes it. And the batches of a full sync do not nest. *)
From S2P Require Import Prelude Snowflake Decimal Errors SyncState ChannelScope FailureLedger Discord World Provider GoTime GoText MessageSync ChannelSync GuildSync Fixture CrawlSafety GuildSafety Exclusions Rows Receipts Attachments Mentions MessageWrite Canonical EntityRows EntitySafety FailureJournal RestClient CatalogData TailHandler Catalog CatalogSafety CatalogCursor MemberSafety RestSafety MessageSafety StoreRefinement MemberRefresh SyncEntry.
Local Open Scope Z_scope.
Local Open Scope discrawl_scope.

Definition last_success {T} (w : world T) : string := GetSyncState lastSuccessScope (w_sync w).

(** ** The marker through the parts of a run *)

Lemma channel_scope_not_last ch suffix : channelScope ch suffix ≠ lastSuccessScope.
Proof. unfold channelScope, lastSuccessScope. by cbn. Qed.

(** Walks through a function's binds and branches. *)
Ltac spare_walk :=
  repeat (cbv zeta; lazymatch goal with
          | |- hoare _ (bind _ _) _ => apply hoare_bind_inv; [|intros ?]
          | |- hoare _ (ret _) _ => apply hoare_ret; by intros
          | |- hoare _ out_of_fuel _ => apply hoare_fuel
          | |- hoare _ (match ?x with _ => _ end) _ => destruct x
          | |- _ => solve [eauto with spare]
          end).

Create HintDb spare.

Section Spared.
Context {ENV : Env} {TE : TailEnv} {RE : RestEnv} {CE : CatalogEnv} {RUN : RunEnv} {GE : GuildEnv} {ER : ErrorReport}.
Context {CF : ChannelJSON} {MJ : MemberJSON} {GJ : GuildJSON} {JC : JSON historyVerificationCheckpoint} {JW : JSON HistoryWindow}.
Context {tp : TimeParse} {jt : JSONText} {MS : MessageStore tail_tables} {ML : MessageStoreLaws tail_tables} (profileText : string → string).
Context (configured_scope : channelExclusions) (memberRefreshInterval : Z) (fuel tries : nat) (v : string).

Definition at_last (w : tail_world) : Prop := last_success w = v.
Abbreviation spared m := (hoare at_last m (λ _, at_last)).

Lemma spare_ask {A} (f : nat → A) : spared (ask f).
Proof. by intros w a w' Hw [= <- <-]. Qed.
Lemma spare_fetch f : spared (fetch f).
Proof. by intros w a w' Hw [= <- <-]. Qed.
Lemma spare_step : spared current_step.
Proof. by intros w a w' Hw [= <- <-]. Qed.
Lemma spare_now : spared (time_Now (T:=tail_tables)).
Proof. by intros w a w' Hw [= <- <-]. Qed.
Lemma spare_client ch : spared (client_channel (T:=tail_tables) ch).
Proof. by intros w a w' Hw [= <- <-]. Qed.
Lemma spare_ctx : spared (ctx_Err (T:=tail_tables)).
Proof. by intros w a w' Hw [= <- <-]. Qed.
Lemma spare_read {A} (f : Z → tail_world → A) : spared (store_read f).
Proof. by apply hoare_store_read. Qed.
Lemma spare_get scope : spared (get_sync_state (T:=tail_tables) scope).
Proof. apply spare_read. Qed.

Lemma spare_write f : (∀ now w e w', f now w = (e, w') → w_sync w' = w_sync w) → spared (store_write f).
Proof.
  intros Hf. apply hoare_store_write; [done| |done]. intros now w e w' Hw E. apply Hf in E.
  unfold at_last, last_success in *. rewrite E. by split.
Qed.
Lemma spare_ledger f : spared (ledger_call (T:=tail_tables) f).
Proof. apply spare_write. intros now w e w'. unfold on_ledger. destruct (f now (w_ledger w)). by intros [= <- <-]. Qed.
Lemma spare_channels f : spared (channel_write f).
Proof. apply spare_write. intros now w e w'. destruct (f now (w_channels w)). by intros [= <- <-]. Qed.
Lemma spare_entities f : spared (entity_write f).
Proof. apply spare_write. intros now w e w'. unfold on_entities. destruct (f now _). by intros [= <- <-]. Qed.

Lemma spare_set scope cur : scope ≠ lastSuccessScope → spared (set_sync_state (T:=tail_tables) scope cur).
Proof.
  intros Hs. apply hoare_store_write; [done| |done]. intros now w e w' Hw. unfold on_sync. intros [= <- <-].
  unfold at_last, last_success in *. cbn. rewrite GetSyncState_Set_ne by done. by split.
Qed.
Lemma spare_delete scope : scope ≠ lastSuccessScope → spared (delete_sync_state (T:=tail_tables) scope).
Proof.
  intros Hs. apply hoare_store_write; [done| |done]. intros now w e w' Hw. unfold on_sync. intros [= <- <-].
  unfold at_last, last_success in *. cbn. unfold GetSyncState, DeleteSyncState in *. rewrite lookup_delete_ne by done. by split.
Qed.

Lemma archive_scope_spared ch private cur : spared (set_sync_state (T:=tail_tables) (channelArchivedThreadCursorScope ch private) cur).
Proof. apply spare_set. by unfold channelArchivedThreadCursorScope. Qed.
Lemma member_scope_spared guild cur : spared (set_sync_state (T:=tail_tables) (guildMemberSyncSuccessScope guild) cur).
Proof. apply spare_set. by unfold guildMemberSyncSuccessScope. Qed.
Lemma thread_scope_spared ch cur : spared (set_sync_state (T:=tail_tables) (channelThreadCatalogUnavailableScope ch) cur).
Proof. apply spare_set. by unfold channelThreadCatalogUnavailableScope. Qed.
Lemma thread_clear_spared ch : spared (delete_sync_state (T:=tail_tables) (channelThreadCatalogUnavailableScope ch)).
Proof. apply spare_delete. by unfold channelThreadCatalogUnavailableScope. Qed.

#[local] Hint Resolve spare_ask spare_fetch spare_step spare_now spare_client spare_ctx spare_read spare_get spare_ledger spare_channels spare_entities
  archive_scope_spared member_scope_spared thread_scope_spared thread_clear_spared : spare.

(** *** The catalog *)

Lemma refresh_spared e : spared (refreshStoredScopes e).
Proof. unfold refreshStoredScopes. spare_walk. Qed.
Lemma observed_spared guild started ps : spared (store_observed guild started ps).
Proof. induction ps as [|p ps IH]; cbn [store_observed]; spare_walk. Qed.
#[local] Hint Resolve refresh_spared observed_spared : spare.
Lemma metadata_spared guild ps e started : spared (storeScopeMetadata guild ps e started).
Proof. unfold storeScopeMetadata. spare_walk. Qed.
Lemma skip_spared ch e : spared (skipUnavailableChannelByID (T:=tail_tables) ch e channelThreadCatalogUnavailableScope).
Proof. unfold skipUnavailableChannelByID. spare_walk. Qed.
Lemma clear_spared ch : spared (clearThreadCatalogUnavailableChannel ch).
Proof. unfold clearThreadCatalogUnavailableChannel. spare_walk. Qed.
Lemma archived_loop_spared n ch private after before out : spared (ThreadsArchived_loop (T:=tail_tables) n ch private after before out).
Proof. revert before out. induction n as [|n IH]; intros before out; cbn [ThreadsArchived_loop]; spare_walk. Qed.
#[local] Hint Resolve metadata_spared skip_spared clear_spared archived_loop_spared : spare.
Lemma archived_spared m ch private after : spared (appendArchivedThreads fuel m ch private after).
Proof. unfold appendArchivedThreads, ThreadsArchived. spare_walk. Qed.
#[local] Hint Resolve archived_spared : spare.
Lemma archives_spared m ch kinds failed : spared (append_archives fuel m ch kinds failed).
Proof. revert m failed. induction kinds as [|k kinds IH]; intros m failed; cbn [append_archives]; spare_walk. Qed.
Lemma active_spared m ch clear : spared (appendActiveThreads m ch clear).
Proof. unfold appendActiveThreads. spare_walk. Qed.
#[local] Hint Resolve archives_spared active_spared : spare.
Lemma thread_catalog_spared m parents : spared (append_thread_catalog fuel m parents).
Proof. revert m. induction parents as [|p parents IH]; intros m; cbn [append_thread_catalog]; spare_walk. Qed.
Lemma guild_threads_spared m guild parents : spared (appendActiveThreadCatalog m guild parents).
Proof. unfold appendActiveThreadCatalog. spare_walk. Qed.
Lemma incremental_archives_spared m ch started initial kinds failed : spared (incremental_archives fuel m ch started initial kinds failed).
Proof.
  revert m failed. induction kinds as [|k kinds IH]; intros m failed; cbn [incremental_archives]; unfold archivedThreadCursor; spare_walk.
Qed.
#[local] Hint Resolve thread_catalog_spared guild_threads_spared incremental_archives_spared : spare.
Lemma incremental_catalog_spared m started initial parents : spared (incremental_catalog fuel m started initial parents).
Proof. revert m. induction parents as [|x parents IH]; intros m; cbn [incremental_catalog]; spare_walk. Qed.
#[local] Hint Resolve incremental_catalog_spared : spare.
Lemma incremental_spared m parents : spared (appendIncrementalArchivedThreadCatalog fuel m parents).
Proof.
  unfold appendIncrementalArchivedThreadCatalog, archivedThreadInitialCursor. spare_walk.
Qed.
#[local] Hint Resolve incremental_spared : spare.
Lemma live_spared guild mode e : spared (liveChannelList fuel guild mode e).
Proof. unfold liveChannelList, appendThreadCatalog, Channels. spare_walk. Qed.
Lemma direct_one_spared ch results : spared (directChannel ch results).
Proof. unfold directChannel. spare_walk. Qed.
#[local] Hint Resolve live_spared direct_one_spared : spare.
Lemma append_direct_spared guild selected l m requested results : spared (append_direct guild selected l m requested results).
Proof. revert m requested results. induction l as [|x l IH]; intros m requested results; cbn [append_direct]; spare_walk. Qed.
Lemma hydrate_spared n guild target ch seen m results : spared (hydrate_target n guild target ch seen m results).
Proof. revert ch seen m results. induction n as [|n IH]; intros ch seen m results; cbn [hydrate_target]; spare_walk. Qed.
#[local] Hint Resolve append_direct_spared hydrate_spared : spare.
Lemma hydrate_all_spared guild l m results : spared (hydrate_targets fuel guild l m results).
Proof. revert m results. induction l as [|x l IH]; intros m results; cbn [hydrate_targets]; spare_walk. Qed.
#[local] Hint Resolve hydrate_all_spared : spare.
Lemma list_spared guild requested mode e selected results : spared (channelList configured_scope fuel guild requested mode e selected results).
Proof.
  unfold channelList, full_list, targeted_list, hydrateDesktopChannelMetadata, appendThreadCatalog, appendDirectRequestedChannels, Channels, DesktopChannelIDs.
  spare_walk.
Qed.
Lemma store_list_spared ps cached counted stats : spared (storeChannelList ps cached counted stats).
Proof. revert stats. induction ps as [|p ps IH]; intros stats; cbn [storeChannelList]; spare_walk. Qed.
#[local] Hint Resolve list_spared store_list_spared : spare.

(** *** Members *)

Lemma page_spared n guild after r : spared (memberPage (T:=tail_tables) n guild after r).
Proof. revert r. induction n as [|n IH]; intros r; cbn [memberPage]; spare_walk. Qed.
#[local] Hint Resolve page_spared : spare.
Lemma enumerate_spared n k guild after previous r : spared (enumerate (T:=tail_tables) n k guild after previous r).
Proof. revert after previous r. induction n as [|n IH]; intros after previous r; cbn [enumerate]; spare_walk. Qed.
Lemma guilds_spared n before out : spared (Guilds_loop (T:=tail_tables) n before out).
Proof. revert before out. induction n as [|n IH]; intros before out; cbn [Guilds_loop]; spare_walk. Qed.
Lemma convert_spared guild ms : spared (convert_members guild ms).
Proof. induction ms as [|m ms IH]; cbn [convert_members]; spare_walk. Qed.
Lemma merge_spared guild members started : spared (merge_observed profileText guild members started).
Proof. intros w a w' Hw. unfold merge_observed. destruct (MergeObservedMembers _ _ _ _ _ _ _ _) as [r s]. by intros [= <- <-]. Qed.
#[local] Hint Resolve enumerate_spared guilds_spared convert_spared merge_spared : spare.
Lemma members_spared guild force : spared (refreshGuildMembers profileText memberRefreshInterval fuel tries guild force).
Proof. unfold refreshGuildMembers, shouldRefreshMembers, refresh_members, GuildMemberEnumeration. spare_walk. Qed.
#[local] Hint Resolve members_spared : spare.
Lemma members_for_sync_spared guild targeted o :
  spared (refreshGuildMembersForSync profileText memberRefreshInterval fuel tries guild targeted o).
Proof. unfold refreshGuildMembersForSync. spare_walk. Qed.

(** *** Messages *)

Lemma at_last_closed ch : crawl_closed (T:=tail_tables) ch (run_scope ch) at_last.
Proof.
  assert (∀ scope, run_scope ch scope → scope ≠ lastSuccessScope) as Hrun.
  { intros scope [[->|[->|[->|[->|(t & -> & _)]]]]| ->]; apply channel_scope_not_last. }
  split; try done; unfold at_last, last_success; cbn [w_sync with_sync].
  - intros w now id Hw. destruct (AdvanceChannelLatestMessageID now ch id (w_sync w)) as [e t] eqn:E. cbn.
    rewrite (advance_frame_get _ _ _ _ _ _ _ E); [done|]. apply not_eq_sym, channel_scope_not_last.
  - intros w now Hw. by rewrite ensure_get.
  - intros w now scope cur Hs Hw. by rewrite GetSyncState_Set_ne by (by apply Hrun).
  - intros w scope Hs Hw. by rewrite GetSyncState_Delete_ne by (by apply Hrun).
Qed.

Lemma messages_spared guild cs o : spared (syncMessageChannels fuel guild cs o).
Proof. apply syncMessageChannels_closed. apply at_last_closed. Qed.
#[local] Hint Resolve members_for_sync_spared messages_spared : spare.

(** *** One guild *)

Section Guild.
Context (again : RunOptions → direct_results → World.M tail_tables (SyncStats * direct_results * option err)) (Hagain : ∀ o r, spared (again o r)).

Lemma batches_spared n l o stats results : spared (sync_batches again n l o stats results).
Proof. revert l stats results. induction n as [|n IH]; intros l stats results; cbn [sync_batches]; spare_walk. Qed.
Hint Resolve batches_spared : spare.
Lemma incomplete_spared guild o results : spared (syncGuildIncompleteBatches configured_scope again guild o results).
Proof. unfold syncGuildIncompleteBatches, stored_without_excluded, Channels. spare_walk. Qed.
Lemma guild_with_spared guild selected o results :
  spared (sync_guild_with profileText configured_scope memberRefreshInterval fuel tries again guild selected o results).
Proof.
  pose proof incomplete_spared. unfold sync_guild_with, sync_catalog, syncGuildRecord, shouldUseIncrementalFullCatalog, Channels. spare_walk.
Qed.
End Guild.

Lemma guild_spared guild selected o results :
  spared (syncGuild profileText configured_scope memberRefreshInterval fuel tries guild selected o results).
Proof. unfold syncGuild. apply guild_with_spared. intros o' r. apply guild_with_spared. intros. apply hoare_fuel. Qed.
#[local] Hint Resolve guild_spared : spare.
End Spared.

(** ** The run *)

Lemma missing_ids_spec available seen requested id :
  missing_ids available seen requested = [] → id ∈ requested → TrimSpace id ≠ ""%string → TrimSpace id ∈ seen ∨ TrimSpace id ∈ available.
Proof.
  revert seen. induction requested as [|x requested IH]; intros seen; cbn; [by intros _ ?%elem_of_nil|].
  intros Hm [->|Hin]%elem_of_cons Hid.
  - apply String.eqb_neq in Hid. rewrite Hid in Hm. cbn in Hm. case_bool_decide; [by left|]. cbn in Hm. right. by case_bool_decide.
  - destruct (TrimSpace x =? "")%string; [by apply (IH seen)|]. case_bool_decide; [by apply (IH seen)|]. cbn in Hm.
    apply app_eq_nil in Hm as [Hx Hm]. destruct (IH _ Hm Hin Hid) as [[Hs|Hs]%elem_of_cons|Hs]; [|by left|by right].
    right. rewrite Hs. by case_bool_decide.
Qed.

Lemma requested_accessible all requested id :
  missingGuildIDs all requested = [] → id ∈ requested → TrimSpace id ≠ ""%string → TrimSpace id ∈ ug_ID <$> all.
Proof.
  unfold missingGuildIDs. intros Hm Hin Hid. destruct (missing_ids_spec _ _ _ _ Hm Hin Hid) as [?%elem_of_nil|H]; [done|].
  unfold makeGuildSet in H. apply elem_of_list_to_set, elem_of_lfilter in H. by destruct H.
Qed.

Section Run.
Context {ENV : Env} {TE : TailEnv} {RE : RestEnv} {CE : CatalogEnv} {RUN : RunEnv} {GE : GuildEnv} {ER : ErrorReport}.
Context {CF : ChannelJSON} {MJ : MemberJSON} {GJ : GuildJSON} {JC : JSON historyVerificationCheckpoint} {JW : JSON HistoryWindow}.
Context {tp : TimeParse} {jt : JSONText} {MS : MessageStore tail_tables} {ML : MessageStoreLaws tail_tables} (profileText : string → string).
Context (configured_scope : channelExclusions) (memberRefreshInterval : Z) (fuel tries : nat).
Local Abbreviation guild_sync := (syncGuild profileText configured_scope memberRefreshInterval fuel tries).

(** Every guild of the list is crawled without error, each from where the one
    before it ended. *)
Inductive guild_runs (selected : gset string) (o : RunOptions) : list string → direct_results → tail_world → tail_world → Prop :=
  | runs_nil results w : guild_runs selected o [] results w w
  | runs_cons g guilds results one results' w w1 w' :
      guild_sync g selected o results w = Some ((one, results', None), w1) →
      guild_runs selected o guilds results' w1 w' → guild_runs selected o (g :: guilds) results w w'.

Lemma sync_guilds_spec guilds selected o results stats (w : tail_world) :
  wp (sync_guilds profileText configured_scope memberRefreshInterval fuel tries guilds selected o results stats)
     (λ x w', last_success w' = last_success w
              ∧ (snd x = None → guild_runs selected o guilds results w w' ∧ st_Guilds (fst x) = (st_Guilds stats + length guilds)%nat)) w.
Proof.
  revert results stats w. induction guilds as [|g guilds IH]; intros results stats w; cbn [sync_guilds].
  { apply wp_ret. split; [done|]. intros _. split; [constructor|cbn; lia]. }
  eapply (wp_bind _ _ (λ x w1, guild_sync g selected o results w = Some (x, w1) ∧ last_success w1 = last_success w)).
  { intros x w1 E. split; [exact E|]. by apply (guild_spared profileText configured_scope memberRefreshInterval fuel tries (last_success w) g selected o results w x w1). }
  intros [[one results1] [e|]] w1 [E Hl]; [by apply wp_ret|].
  intros x w2 E2. destruct (IH _ _ _ _ _ E2) as [Hl2 Hx]. split; [by rewrite Hl2|]. intros Hn. destruct (Hx Hn) as [Hr Hs].
  split; [by econstructor|]. rewrite Hs. cbn. lia.
Qed.

(** The guilds of the run were all crawled without error, and the instant of
    this was then written. *)
Definition complete_run (o : RunOptions) (stats : SyncStats) (w w' : tail_world) : Prop :=
  ∃ guilds w1 w2,
    Guilds fuel w = Some (inl guilds, w1)
    ∧ (∀ id, id ∈ ro_GuildIDs o → TrimSpace id ≠ ""%string → TrimSpace id ∈ ug_ID <$> guilds)
    ∧ (let ids := ug_ID <$> selectGuilds guilds (ro_GuildIDs o) in
       guild_runs (list_to_set ids) o ids ∅ w1 w2 ∧ st_Guilds stats = length ids)
    ∧ ∃ now, last_success w' = RFC3339Nano now.

(** C13: the marker of success certifies a whole run. Whatever the provider
    answers and whichever calls fail, [sync:last_success] moves only when every
    requested guild is accessible and every selected guild has been crawled
    without error, one after the other, and then holds the instant at the end of
    the run; no part of a crawl, of the catalog or of the members writes it.
    A run that reports success has moved it so. *)
Theorem success_marker_certifies_run o stats e (w w' : tail_world) :
  Sync profileText configured_scope memberRefreshInterval fuel tries o w = Some ((stats, e), w') →
  (last_success w' = last_success w ∨ complete_run o stats w w') ∧ (e = None → complete_run o stats w w').
Proof.
  set (Q := λ (x : SyncStats * option err) w', (last_success w' = last_success w ∨ complete_run o (fst x) w w') ∧ (snd x = None → complete_run o (fst x) w w')).
  enough (wp (Sync profileText configured_scope memberRefreshInterval fuel tries o) Q w) as H by (intros Hrun; by apply H in Hrun).
  assert (∀ stats e w1, last_success w1 = last_success w → Q (stats, Some e) w1) as Hfail by (intros; split; [by left|done]).
  unfold Sync. destruct (_ && _); [by apply wp_ret, Hfail|].
  eapply (wp_bind _ _ (λ r w1, Guilds fuel w = Some (r, w1) ∧ last_success w1 = last_success w)).
  { intros r w1 E. split; [exact E|]. by apply (guilds_spared (last_success w) fuel "" [] w r w1). }
  intros [guilds|e1] w1 [E1 H1]; [|by apply wp_ret, Hfail].
  destruct (missingGuildIDs guilds (ro_GuildIDs o)) as [|x missing] eqn:Em; [|by apply wp_ret, Hfail]. cbv zeta.
  eapply wp_bind; [apply sync_guilds_spec|]. intros [stats1 [e2|]] w2 [H2 Hruns]; [apply wp_ret, Hfail; by rewrite H2|].
  destruct (Hruns eq_refl) as [Hr Hs]. cbn [fst] in Hs.
  apply (wp_call _ _ (λ w3, last_success w3 = last_success w) (λ _ w3, last_success w3 = last_success w)); [by intros w3 a w4 Hw [= <- <-]|by rewrite H2|].
  intros now w3 H3.
  apply (wp_call _ _ (λ w3, last_success w3 = last_success w)
           (λ e w4, (last_success w4 = last_success w ∧ is_Some e) ∨ last_success w4 = RFC3339Nano now)); [|exact H3|].
  { apply hoare_store_write; [done| |intros w4 e4 Hw; by left]. intros now4 w4 e4 w5 Hw. unfold on_sync. intros [= <- <-].
    assert (last_success (with_sync (SetSyncState now4 lastSuccessScope (RFC3339Nano now) (w_sync w4)) w4) = RFC3339Nano now) as -> by apply GetSyncState_Set_eq.
    by split; [intros ?|]; right. }
  assert (∀ w4, last_success w4 = RFC3339Nano now → complete_run o stats1 w w4) as Hdone.
  { intros w4 H4. exists guilds, w1, w2. split_and!; [exact E1| |by split|by exists now]. intros id. by apply requested_accessible. }
  intros [e4|] w4 Hw4; apply wp_ret; split; cbn.
  - destruct Hw4 as [[Hw4 _]|Hw4]; [by left|right; by apply Hdone].
  - done.
  - destruct Hw4 as [[_ [? ?]]|Hw4]; [done|]. right. by apply Hdone.
  - intros _. destruct Hw4 as [[_ [? ?]]|Hw4]; [done|]. by apply Hdone.
Qed.

(** ** Batches do not nest *)

Lemma bind_agree {A B} (m : World.M tail_tables A) (k1 k2 : A → World.M tail_tables B) w :
  (∀ a w, k1 a w = k2 a w) → bind m k1 w = bind m k2 w.
Proof. intros H. unfold bind. by destruct (m w) as [[a w1]|]. Qed.
Lemma bind_ret {A B} (a : A) (k : A → World.M tail_tables B) w : bind (ret a) k w = k a w.
Proof. done. Qed.

(** A run that names its channels resumes nothing. *)
Lemma targeted_never_again again1 again2 guild selected o results (w : tail_world) :
  targets o ≠ [] → ro_IncludeStoredThreads o = false →
  sync_guild_with profileText configured_scope memberRefreshInterval fuel tries again1 guild selected o results w
  = sync_guild_with profileText configured_scope memberRefreshInterval fuel tries again2 guild selected o results w.
Proof.
  intros Ht Hi. unfold sync_guild_with. rewrite Hi.
  assert (shouldResumeIncompleteFullSync o = false) as Hs.
  { unfold shouldResumeIncompleteFullSync. case_bool_decide; [done|]. by rewrite andb_false_r. }
  rewrite !bind_ret. apply bind_agree. intros [e|] w1; [done|]. by rewrite Hs.
Qed.

Lemma batches_agree again1 again2 n l o stats results (w : tail_world) :
  (∀ ids r w, ids ≠ [] → again1 (with_targets ids o) r w = again2 (with_targets ids o) r w) →
  sync_batches again1 n l o stats results w = sync_batches again2 n l o stats results w.
Proof.
  intros Hag. revert l stats results w. induction n as [|n IH]; intros l stats results w; [by destruct l|]. destruct l as [|x l]; [done|].
  cbn [sync_batches]. unfold bind. rewrite Hag by done.
  destruct (again2 _ _ w) as [[[[one r] [e|]] w1]|]; [done|apply IH|done].
Qed.

(** [syncGuild] is the recursion of the code: a run whose batches call
    [syncGuild] itself is the same run. *)
Lemma syncGuild_recursion guild selected o results (w : tail_world) :
  ro_IncludeStoredThreads o = false →
  guild_sync guild selected o results w
  = sync_guild_with profileText configured_scope memberRefreshInterval fuel tries (guild_sync guild selected) guild selected o results w.
Proof.
  intros Hi. unfold syncGuild. set (inner := sync_guild_with _ _ _ _ _ (λ _ _, out_of_fuel) guild selected).
  set (outer := sync_guild_with profileText configured_scope memberRefreshInterval fuel tries inner guild selected).
  assert (∀ ids r w, ids ≠ [] → inner (with_targets ids o) r w = outer (with_targets ids o) r w) as Hag
    by (intros ids r w' Hids; by apply targeted_never_again).
  unfold outer at 1, sync_guild_with. rewrite Hi, !bind_ret. apply bind_agree. intros [e|] w1; [done|].
  destruct (shouldResumeIncompleteFullSync o); [|done].
  assert (syncGuildIncompleteBatches configured_scope inner guild o results w1 = syncGuildIncompleteBatches configured_scope outer guild o results w1) as Hb.
  { unfold syncGuildIncompleteBatches. do 4 (apply bind_agree; intros [?|?] ?; [|done]; cbv zeta). case_match; [done|]. unfold bind.
    rewrite (batches_agree inner outer) by (intros; by apply Hag). done. }
  unfold bind. by rewrite Hb.
Qed.
End Run.

(** ** The tables of a run behind the message store's interface *)

#[export] Instance tail_store `{MessageStore mstate} : MessageStore tail_tables := {
  message_channels t := message_channels (tt_messages t);
  World.UpsertMessages now cs ms t := let '(e, s) := World.UpsertMessages now cs ms (tt_messages t) in (e, with_mstate s t) }.

#[export] Instance tail_store_laws `{MessageStoreLaws mstate} : MessageStoreLaws tail_tables.
Proof.
  split; cbn; intros now cs ms t; destruct (World.UpsertMessages now cs ms (tt_messages t)) as [e1 s] eqn:E.
  - intros t' [= -> <-]. by eapply upsert_stored.
  - intros e t' id [= -> <-]. by eapply upsert_keeps.
  - intros e t' id c [= -> <-]. by eapply upsert_origin.
  - intros t' [= -> <-]. by eapply upsert_scoped.
Qed.

(** ** A concrete run *)

Section Example_run.
#[local] Existing Instance no_json.
#[local] Existing Instance no_marshal.
#[local] Existing Instance quiet_tail.
#[local] Existing Instance one_channel.
#[local] Existing Instance plain_members.
#[local] Existing Instance running.
#[local] Existing Instance parse_written.
#[local] Existing Instance plain_payloads.
#[local] Existing Instance no_languages.
#[local] Existing Instance plain_records.
#[local] Existing Instance plain_report.
#[local] Instance one_guild : RestEnv := {
  UserGuilds _ _ := inl [mkUserGuild "9" ""]; ArchivedPage _ _ _ _ := inl ([], false);
  GuildMembersPage := @GuildMembersPage small_provider;
  rate_limited _ := None; ShouldRetryOnRateLimit := true; wait_outcome _ := None;
  NewSession _ := None; FreshChannel _ _ := inr (EText "none"); SelfID _ := inl "1"%string; ChannelPermissions _ _ _ := inl 0 }.
#[local] Instance the_guild : GuildEnv := λ _ id, inl (mkGuild id "guild" "" "").
#[local] Instance guild_text : GuildJSON := λ _, "{}"%string.
Definition whole_guild (ids : list string) : RunOptions :=
  mkRunOptions (mkOptions true false false None []) ids false false true no_exclusions.
Definition sample_run (fails : nat → outcome) (ids : list string) : option ((SyncStats * option err) * tail_world) :=
  Sync (ENV := calm_env [] fails) id no_exclusions 1000 9 1 (whole_guild ids) (bare_world ∅).

Example sample_run_stats :
  match sample_run (λ _, Done) ["9"]%string with
  | Some ((stats, None), w) => (stats, negb (last_success w =? "")%string) = (mkStats 1 1 0 2 0, true)
  | _ => False
  end.
Proof. vm_compute. reflexivity. Qed.

#[local] Instance run_laws : MessageStoreLaws tail_tables := tail_store_laws (H0 := writer_laws (ltac:(by split))).

Lemma success_marker_certifies_run_witness :
  ∃ stats w', sample_run (λ _, Done) ["9"]%string = Some ((stats, None), w') ∧ ∃ now, last_success w' = RFC3339Nano now.
Proof.
  destruct (sample_run (λ _, Done) ["9"]%string) as [[[stats [e|]] w']|] eqn:E; [by vm_compute in E| |by vm_compute in E].
  exists stats, w'. split; [done|].
  destruct (proj2 (success_marker_certifies_run (ENV := calm_env [] (λ _, Done)) id no_exclusions 1000 9 1 (whole_guild ["9"]%string) stats None _ w' E) eq_refl)
    as (guilds & w1 & w2 & _ & _ & _ & Hnow). exact Hnow.
Defined.

(** An id padded with white space passes the test of accessibility and selects
    no guild: the run crawls nothing and reports success. *)
Example padded_request_crawls_nothing :
  match sample_run (λ _, Done) [" 9"]%string with
  | Some ((stats, None), w) => (stats, negb (last_success w =? "")%string) = (zero_stats, true)
  | _ => False
  end.
Proof. vm_compute. reflexivity. Qed.
End Example_run.
