(* ===== verification/TailReplay.v ===== *)
(** * Replay of failed message events

    internal/syncer/tail_replay.go: the pending failures of message events are
    fetched again one by one, and each is settled only on evidence: the message
    is stored, the provider says it does not exist, or its channel has left the
    collection scope. *)
From S2P Require Import Prelude Snowflake Errors SyncState ChannelScope FailureLedger Discord World GoTime GoText MessageSync GuildSync Exclusions Rows Receipts Attachments Mentions MessageWrite StoreRefinement Canonical EntityRows FailureJournal TailHandler.
Local Open Scope Z_scope.
Local Open Scope discrawl_scope.

Definition TailMessageReplayLimit : Z := 25.

Record replay_stats := mkReplay { rp_OutOfScope : nat; rp_Unavailable : nat; rp_Candidates : nat; rp_Recovered : nat; rp_Deferred : nat; rp_PolicyDeferred : nat }.

(** What became of one candidate. *)
Inductive replayed := Recovered | Unavailable | OutOfScope | Deferred | PolicyDeferred.

Definition count (o : replayed) (s : replay_stats) : replay_stats :=
  match o with
  | Recovered => mkReplay (rp_OutOfScope s) (rp_Unavailable s) (rp_Candidates s) (S (rp_Recovered s)) (rp_Deferred s) (rp_PolicyDeferred s)
  | Unavailable => mkReplay (rp_OutOfScope s) (S (rp_Unavailable s)) (rp_Candidates s) (rp_Recovered s) (rp_Deferred s) (rp_PolicyDeferred s)
  | OutOfScope => mkReplay (S (rp_OutOfScope s)) (rp_Unavailable s) (rp_Candidates s) (rp_Recovered s) (rp_Deferred s) (rp_PolicyDeferred s)
  | Deferred => mkReplay (rp_OutOfScope s) (rp_Unavailable s) (rp_Candidates s) (rp_Recovered s) (S (rp_Deferred s)) (rp_PolicyDeferred s)
  | PolicyDeferred => mkReplay (rp_OutOfScope s) (rp_Unavailable s) (rp_Candidates s) (rp_Recovered s) (rp_Deferred s) (S (rp_PolicyDeferred s))
  end.

Definition tailMessageReplayEventKind (f : Failure) : option string :=
  if negb (RelatedKind (Ref f) =? tailMessageFailureRelatedKind)%string then None else normalizeTailMessageEventKind (RelatedID (Ref f)).

(** [validateTailMessageReplay]. *)
Definition validateTailMessageReplay (f : Failure) (m : option gateway_message) : option err :=
  match m with
  | None => Some (EText "exact message fetch returned no message")
  | Some g =>
      let m := g_message g in
      if (m_ID m =? "")%string then Some (EText "exact message fetch returned an empty message id")
      else if negb (m_ID m =? MessageID (Ref f))%string then Some (EText "exact message fetch returned a different message id")
      else if (m_ChannelID m =? "")%string then Some (EText "exact message fetch returned an empty channel id")
      else if negb (m_ChannelID m =? ChannelID (Ref f))%string then Some (EText "exact message fetch returned a different channel id")
      else if negb (m_GuildID m =? "")%string && negb (GuildID (Ref f) =? "")%string && negb (m_GuildID m =? GuildID (Ref f))%string
      then Some (EText "exact message fetch returned a different guild id")
      else None
  end.

(** The provider's answer that a message or its channel does not exist. *)
Definition provider_says_missing (e : err) : bool :=
  match as_rest e with
  | Some (Some status, Some code) => (status =? 404) && ((code =? 10003) || (code =? 10008))
  | _ => false
  end.

Section Replay.
Context {ENV : Env} {TE : TailEnv} {ER : ErrorReport} {CF : ChannelJSON}.
Context {tp : TimeParse} {rp : RawPayloads} {lx : Lexical} {mr : MutationRecords} {jt : JSONText} {jx : JournalText}.
Context (cfg : tail_config) (advanceCursor : bool).
Local Abbreviation M := (M tail_tables).

(** [importTailMessageFailureFallbacks]; the transaction of the import ends as
    the environment says. *)
Definition import_fallbacks : M (option err) := λ w,
  let step := w_step w in
  let commit := match outcome_at step with Done => Commits | FailBefore e => RollsBack e | FailAfter e => CommitsButFails e end in
  let '(_, e, j) := ImportTailMessageFailureFallbacks (clock step) commit (dir_keeps step) (dir_syncs step)
                      (mkJournal (tt_files (w_messages w)) (w_sync w) (w_ledger w)) in
  Some (match e with Some e => Some (EWrap "import tail message failure fallbacks: " e "") | None => None end,
        tick (with_sync (j_sync j) (with_ledger (j_ledger j) (on_tables (with_files (j_files j)) w)))).

(** [recordTailMessageReplayFailure], and the candidate stays pending. *)
Definition keep_pending (f : Failure) (text : string) (o : replayed) : M (replayed + err) :=
  check! (ledger_call (λ now, RecordFailure now (Ref f) (Some (EText text)))) orelse (λ e, ret (inr e));
  ret (inl o).

Definition resolve_candidate (f : Failure) (reason : string) (o : replayed) : M (replayed + err) :=
  check! (ledger_call (λ now, ResolveFailureGeneration now f reason)) orelse (λ e, ret (inr e));
  ret (inl o).

(** A failed step ends the replay when its context has ended, and otherwise
    leaves the candidate pending. *)
Definition interrupted (f : Failure) (text : string) : M (replayed + err) :=
  let! done := ctx_Err in
  match done with Some e => ret (inr e) | None => keep_pending f text Deferred end.

Definition replayTailMessageDelete (f : Failure) : M (option err) :=
  check! (message_write (λ now _, markMessageDeleted now (GuildID (Ref f)) (ChannelID (Ref f)) (MessageID (Ref f)) None true)) orelse (λ e, ret (Some e));
  ledger_call (λ now, ResolveFailureGeneration now f "exact_message_reconciled").

(** Whether the channel may be collected: [inl o] ends the candidate. *)
Definition replay_admission (f : Failure) : M (option (replayed + err)) :=
  if configured (tc_exclusions cfg) then
    let! allowed := allowMessageChannel cfg (GuildID (Ref f)) (ChannelID (Ref f)) in
    match allowed with
    | inr _ => let! r := keep_pending f "tail message replay policy deferred" PolicyDeferred in ret (Some r)
    | inl false => let! r := resolve_candidate f "excluded_by_collection_policy" OutOfScope in ret (Some r)
    | inl true => ret None
    end
  else
    let! admitted := channel_admitted (ChannelID (Ref f)) "" in
    match admitted with
    | inr e => if is_scope e then let! r := resolve_candidate f "excluded_by_collection_policy" OutOfScope in ret (Some r) else ret (Some (inr e))
    | inl false => let! r := resolve_candidate f "excluded_by_collection_policy" OutOfScope in ret (Some r)
    | inl true => ret None
    end.

(** The message is written, the cursor advanced and the failure resolved. *)
Definition replay_write (f : Failure) (m : Message) (started : Z) : M (replayed + err) :=
  let! built := buildMessageMutation m "" (GuildID (Ref f)) (tc_embeddings cfg) in
  match built with
  | inr e => if is_scope e then resolve_candidate f "excluded_by_collection_policy" OutOfScope else interrupted f "tail message replay mutation build failed"
  | inl mu =>
      let! written := write_event cfg mu "snapshot" (Some started) true in
      match written with
      | Some e =>
          let! done := ctx_Err in
          match done with
          | Some e => ret (inr e)
          | None => if is_scope e then resolve_candidate f "excluded_by_collection_policy" OutOfScope else keep_pending f "tail message replay canonical upsert failed" Deferred
          end
      | None =>
          let! cursor := (if advanceCursor then advanceChannelLatest (ChannelID (Ref f)) (MessageID (Ref f)) else ret None) in
          match cursor with
          | Some _ => interrupted f "tail message replay cursor advance failed"
          | None =>
              let! done := ctx_Err in
              match done with Some e => ret (inr e) | None => resolve_candidate f "exact_message_reconciled" Recovered end
          end
      end
  end.

Definition replay_fetch (f : Failure) : M (replayed + err) :=
  if negb (tc_client cfg) then keep_pending f "tail message replay client is unavailable" Deferred
  else
    let! started := time_Now in
    let! fetched := channel_message (ChannelID (Ref f)) (MessageID (Ref f)) in
    let! done := ctx_Err in
    match done, fetched with
    | Some e, _ => ret (inr e)
    | None, inr e => if provider_says_missing e then resolve_candidate f "provider_unavailable_404" Unavailable else keep_pending f "tail message replay exact fetch failed" Deferred
    | None, inl g =>
        match validateTailMessageReplay f g, g with
        | None, Some g =>
            let m := g_message g in
            replay_write f (mkMessage (m_ID m) (m_ChannelID m) (or_else (m_GuildID m) (GuildID (Ref f))) (m_Timestamp m) (m_payload m)) started
        | _, _ => keep_pending f "tail message replay identity validation failed" Deferred
        end
    end.

(** One round of the loop. *)
Definition replay_one (f : Failure) : M (replayed + err) :=
  match tailMessageReplayEventKind f with
  | None => keep_pending f "tail message replay policy deferred" PolicyDeferred
  | Some kind =>
      if (GuildID (Ref f) =? "")%string || (ChannelID (Ref f) =? "")%string || (MessageID (Ref f) =? "")%string
      then keep_pending f "tail message replay identity is incomplete" Deferred
      else if (kind =? "delete")%string then
        let! e := replayTailMessageDelete f in
        match e with
        | Some _ => interrupted f "tail message replay canonical delete failed"
        | None => ret (inl Recovered)
        end
      else
        let! ended := replay_admission f in
        match ended with Some r => ret r | None => replay_fetch f end
  end.

Fixpoint replay_all (fs : list Failure) (stats : replay_stats) : M (replay_stats * option err) :=
  match fs with
  | [] => ret (stats, None)
  | f :: fs =>
      check! ctx_Err orelse (λ e, ret (stats, Some e));
      let! r := replay_one f in
      match r with
      | inr e => ret (stats, Some e)
      | inl o => replay_all fs (count o stats)
      end
  end.

End Replay.

(** ** The run *)

Section Run.
Context {ENV : Env} {TE : TailEnv} {ER : ErrorReport} {CF : ChannelJSON}.
Context {tp : TimeParse} {rp : RawPayloads} {lx : Lexical} {mr : MutationRecords} {jt : JSONText} {jx : JournalText}.
Local Abbreviation M := (M tail_tables).

(** The resolver is a fresh handler for the guilds of the run. *)
Definition resolver (cfg : tail_config) (guildIDs : list string) : tail_config :=
  mkTailConfig (makeGuildSet guildIDs) (tc_client cfg) (tc_embeddings cfg) (tc_preserveHistoryCursor cfg) (tc_exclusions cfg).

Definition no_stats (candidates : nat) : replay_stats := mkReplay 0 0 candidates 0 0 0.

(** The resolver's catalog is empty until it is seeded. *)
Definition replayTailMessages (cfg : tail_config) (advanceCursor : bool) (guildIDs : list string) (limit : Z) : M (replay_stats * option err) :=
  check! import_fallbacks orelse (λ e, ret (no_stats 0, Some e));
  try! candidates := store_query (λ _ w, ListFailureReplayCandidatesMatchingRelatedIDs
      (mkRef tailMessageFailureOperation "discord" "" "" "" tailMessageFailureRelatedKind "") guildIDs ["create"; "update"; "delete"]%string limit (w_ledger w))
    orelse (λ e, ret (no_stats 0, Some e));
  let stats := no_stats (length candidates) in
  let! _ := set_catalog ∅ in
  check! (if configured (tc_exclusions cfg) then seedScopeMetadata (resolver cfg guildIDs) else ret None) orelse (λ e, ret (stats, Some e));
  replay_all (resolver cfg guildIDs) advanceCursor candidates stats.

Definition ReplayTailMessageFailures (cfg : tail_config) (guildIDs : list string) (limit : Z) : M (replay_stats * option err) :=
  if (limit <=? 0) || (TailMessageReplayLimit <? limit) then ret (no_stats 0, Some (EText "tail message replay limit must be between 1 and 25"))
  else replayTailMessages cfg true guildIDs limit.
End Run.
