(* ===== verification/TailEvidence.v ===== *)
(** * What the event handler and the replay guarantee

    Under every fault schedule: an event that is reported as archived is
    stored, one that is ignored changes neither messages nor cursors, a failure
    that is reported as recorded is durable, and the replay settles a failure
    only on evidence. *)
From S2P Require Import Prelude Snowflake Errors SyncState ChannelScope FailureLedger Discord World GoTime GoText MessageSync GuildSync Exclusions Rows Receipts Attachments Mentions MessageWrite MessageSafety StoreRefinement Canonical EntityRows FailureJournal TailHandler TailReplay Fixture EntitySafety.
Local Open Scope Z_scope.
Local Open Scope discrawl_scope.

(** Passes a call whose effect does not matter. *)
Ltac skip_call := apply (hoare_bind _ _ _ (λ _ _, True)); [done|].

(** ** Rules *)

Section Rules.
Context {ENV : Env} {TE : TailEnv} {ER : ErrorReport} {CF : ChannelJSON}.
Context {tp : TimeParse} {rp : RawPayloads} {lx : Lexical} {mr : MutationRecords} {jt : JSONText} {jx : JournalText}.
Local Abbreviation M := (M tail_tables).

(** An error the environment lets a store call fail with. *)
Definition store_fails (e : err) : Prop := ∃ n, outcome_at n = FailBefore e ∨ outcome_at n = FailAfter e.

Lemma wp_write f (Q : option err → tail_world → Prop) w :
  (∀ e, store_fails e → Q (Some e) (tick w)) →
  (∀ now e w', f now (tick w) = (e, w') → Q e w' ∧ ∀ e', store_fails e' → Q (Some e') w') →
  wp (store_write f) Q w.
Proof.
  intros Hb Hf a w'. unfold store_write. cbv zeta. destruct (outcome_at (w_step w)) as [|e|e] eqn:E.
  - destruct (f _ _) as [e1 w1] eqn:Ef. intros [= <- <-]. by apply (Hf _ _ _ Ef).
  - intros [= <- <-]. apply Hb. exists (w_step w). by left.
  - destruct (f _ _) as [e1 w1] eqn:Ef. intros [= <- <-]. apply (Hf _ _ _ Ef). exists (w_step w). by right.
Qed.

Lemma wp_read {A} (f : Z → tail_world → A) (Q : A + err → tail_world → Prop) w :
  (∀ now, Q (inl (f now (tick w))) (tick w)) → (∀ e, store_fails e → Q (inr e) (tick w)) → wp (store_read f) Q w.
Proof.
  intros Hf Hb a w'. unfold store_read. cbv zeta. destruct (outcome_at (w_step w)) as [|e|e] eqn:E; intros [= <- <-]; auto;
    apply Hb; exists (w_step w); auto.
Qed.

Lemma wp_tick {A} (f : tail_world → A) (Q : A → tail_world → Prop) w : Q (f w) (tick w) → wp (λ w, Some (f w, tick w)) Q w.
Proof. by intros H a w' [= <- <-]. Qed.

Lemma wp_mono {A} (m : M A) (P Q : A → tail_world → Prop) w : wp m P w → (∀ a w', P a w' → Q a w') → wp m Q w.
Proof. intros H HPQ a w' E. eauto. Qed.

(** ** What deciding a channel's scope can change *)

(** Invariants of the catalog work: they do not look at the channel rows, the
    entities, the handler's catalog and the clock. *)
Record scope_frame (I : tail_world → Prop) : Prop := {
  sf_tick w : I w → I (tick w);
  sf_channels w c : I w → I (set_channels c w);
  sf_entities w e : I w → I (on_tables (with_entities e) w);
  sf_catalog w c : I w → I (on_tables (with_catalog c) w) }.

Section Frame.
Context (cfg : tail_config) (I : tail_world → Prop) (HI : scope_frame I).

Lemma store_write_frame f : (∀ now w, I w → I (f now w).2) → hoare I (store_write f) (λ _, I).
Proof.
  intros Hf. apply hoare_wp. intros w Hw. pose proof (sf_tick _ HI _ Hw) as Ht. apply wp_write; [done|].
  intros now e w' E. pose proof (Hf now (tick w) Ht) as H. rewrite E in H. done.
Qed.

Lemma read_frame {A} (f : Z → tail_world → A) : hoare I (store_read f) (λ _, I).
Proof. apply hoare_wp. intros w Hw. apply wp_read; intros; by apply (sf_tick _ HI). Qed.

Lemma channel_write_frame f : hoare I (channel_write f) (λ _, I).
Proof. apply store_write_frame. intros now w Hw. destruct (f now (w_channels w)). by apply (sf_channels _ HI). Qed.

Lemma entity_write_frame f : hoare I (entity_write f) (λ _, I).
Proof.
  apply store_write_frame. intros now w Hw. unfold on_entities. destruct (f now _). cbn [snd].
  apply (sf_channels _ HI). by apply (sf_entities _ HI).
Qed.

Lemma tick_frame {A} (f : tail_world → A) : hoare I (λ w, Some (f w, tick w)) (λ _, I).
Proof. intros w a w' Hw [= <- <-]. by apply (sf_tick _ HI). Qed.

Lemma catalog_frame : hoare I catalog (λ _, I).
Proof. by intros w a w' Hw [= <- <-]. Qed.

Lemma set_catalog_frame c : hoare I (set_catalog c) (λ _, I).
Proof. intros w a w' Hw [= <- <-]. by apply (sf_catalog _ HI). Qed.

Create HintDb tail.
#[local] Hint Resolve channel_write_frame entity_write_frame read_frame tick_frame catalog_frame set_catalog_frame : tail.

(** Walks through a function's calls with an invariant. *)
Ltac tail_walk :=
  repeat (cbv zeta; lazymatch goal with
          | |- hoare _ (bind _ _) _ => apply hoare_bind_inv; [|intros ?]
          | |- hoare _ (ret _) _ => apply hoare_ret; by intros
          | |- hoare _ (match ?x with _ => _ end) _ => destruct x
          | |- _ => solve [eauto with tail]
          end).

Lemma refreshScope_frame : hoare I (refreshScope cfg) (λ _, I).
Proof. unfold refreshScope. tail_walk. Qed.
#[local] Hint Resolve refreshScope_frame : tail.

Lemma fetch_ancestry_frame fuel guild next seen : hoare I (fetch_ancestry cfg fuel guild next seen) (λ _, I).
Proof.
  revert next seen. induction fuel as [|fuel IH]; intros next seen; cbn [fetch_ancestry]; unfold time_Now, client_channel; tail_walk.
Qed.
#[local] Hint Resolve fetch_ancestry_frame : tail.

Lemma excludeChannel_frame id : hoare I (excludeChannel cfg id) (λ _, I).
Proof. unfold excludeChannel. tail_walk. Qed.

Lemma scopeDecision_frame id : hoare I (scopeDecision cfg id) (λ _, I).
Proof. unfold scopeDecision. tail_walk. Qed.
#[local] Hint Resolve scopeDecision_frame excludeChannel_frame : tail.

Lemma resolve_ancestry_frame guild id : hoare I (resolve_ancestry cfg guild id) (λ _, I).
Proof. unfold resolve_ancestry. tail_walk. Qed.
#[local] Hint Resolve resolve_ancestry_frame : tail.

Lemma allowMessageChannel_frame guild id : hoare I (allowMessageChannel cfg guild id) (λ _, I).
Proof. unfold allowMessageChannel, scopeCacheStale, channel_admitted. tail_walk. Qed.

Lemma seed_channels_frame guild cs known : hoare I (seed_channels guild cs known) (λ _, I).
Proof. revert known. induction cs as [|c cs IH]; intros known; cbn [seed_channels]; tail_walk. Qed.
#[local] Hint Resolve seed_channels_frame : tail.

Lemma seed_guilds_frame guilds known : hoare I (seed_guilds cfg guilds known) (λ _, I).
Proof. revert known. induction guilds as [|[id raw] guilds IH]; intros known; cbn [seed_guilds]; tail_walk. Qed.
#[local] Hint Resolve seed_guilds_frame : tail.

Lemma seedScopeMetadata_frame : hoare I (seedScopeMetadata cfg) (λ _, I).
Proof. unfold seedScopeMetadata. tail_walk. Qed.
End Frame.
End Rules.

(** ** Facts of the tables *)

Section Facts.
Context {ENV : Env} {TE : TailEnv} {ER : ErrorReport} {CF : ChannelJSON}.
Context {tp : TimeParse} {rp : RawPayloads} {lx : Lexical} {mr : MutationRecords} {jt : JSONText} {jx : JournalText}.

(** No failure of this identity is pending. *)
Definition settled_identity (ref : FailureRef) (l : ledger) : Prop := ∀ f, f ∈ rows l → Ref f = normalizeFailureRef ref → unresolved f = false.

Lemma prune_rows now l f : f ∈ rows (pruneResolvedFailures now l) → f ∈ rows l.
Proof. by intros [? _]%elem_of_lfilter. Qed.

Lemma resolve_identity_settles now ref l l' : ResolveFailureIdentity now ref l = (None, l') → settled_identity ref l'.
Proof.
  unfold ResolveFailureIdentity. destruct (ref_required _); [done|]. intros [= <-] f (f0 & -> & Hf)%prune_rows%elem_of_update Href.
  destruct (unresolved f0 && bool_decide (Ref f0 = normalizeFailureRef ref)) eqn:E; [done|]. rewrite Href in E.
  rewrite bool_decide_true, andb_true_r in E; done.
Qed.

Abbreviation messages w := (tt_messages (w_messages (w : tail_world))).

Definition row_of (id : string) (w : tail_world) : option storedMessage := ms_rows (messages w) !! id.

(** The tables a handler writes to besides the catalog are as they were. *)
Definition untouched (w0 w : tail_world) : Prop :=
  w_sync w = w_sync w0 ∧ w_ledger w = w_ledger w0 ∧ messages w = messages w0 ∧ tt_files (w_messages w) = tt_files (w_messages w0).

Lemma untouched_frame w0 : scope_frame (untouched w0).
Proof. by split. Qed.

Lemma untouched_refl w : untouched w w.
Proof. done. Qed.
(** *** What a written event leaves *)

Definition event_of (id type : string) (s : mstate) : Prop := ∃ ev, ev ∈ ms_events s ∧ ev_message ev = id ∧ ev_type ev = type.

Lemma mutation_event now cs m s s' :
  write_mutation now cs m s = inl s' → AppendEvent (mm_Options m) = true → mm_EventType m ≠ ""%string → DeduplicateEvent (mm_Options m) = false →
  event_of (r_ID (mm_Record m)) (mm_EventType m) s'.
Proof.
  intros (_ & m' & _ & Hp & Hcase)%mutation_cases Ha Ht Hd.
  assert (∀ x, event_of (r_ID (mm_Record m)) (mm_EventType m) (appendMutationEvent now m' x)) as Happ.
  { intros x. unfold appendMutationEvent. pose proof (prepared_id _ _ Hp) as Hid. destruct Hp as (Hty & _ & Ho & _). rewrite Ho, Ha, Hd, Hty.
    destruct (String.eqb_spec (mm_EventType m) ""); [done|]. cbn [negb orb andb]. eexists. split; [apply elem_of_app; right; by left|]. by rewrite <- Hid. }
  destruct Hcase as [[_ ->]|(_ & b & s1 & _ & ->)]; apply Happ.
Qed.

(** [UpsertMessages] of one record. *)
Lemma upsert_one now cs m s e s' :
  upsertMessages now cs [m] s = (e, s') →
  (e = None ∧ write_mutation now cs m s = inl s') ∨ (∃ er, e = Some er ∧ s' = s ∧ write_mutation now cs m s = inr er).
Proof.
  unfold upsertMessages. cbn [write_mutations]. destruct (write_mutation now cs m s) as [s1|er]; intros [= <- <-]; [by left|right; eauto].
Qed.

(** A message that is marked deleted: its row, when there is one, is a tombstone. *)
Lemma deleted_row now g c id ev v s s' :
  markMessageDeleted now g c id ev v s = (None, s') → ∀ st, ms_rows s' !! id = Some st → s_deleted st ≠ ""%string.
Proof.
  unfold markMessageDeleted. destruct (if v then _ else None); [done|]. cbv zeta. set (preserve := v && _). set (s1 := if preserve then s else _).
  assert (Hd : ∀ st, ms_rows s1 !! id = Some st → s_deleted st ≠ ""%string).
  { intros st. unfold s1, preserve. destruct (v && _) eqn:E.
    - apply andb_prop in E as [_ E]. intros Hst. rewrite Hst in E. by destruct (String.eqb_spec (s_deleted st) "").
    - cbn. rewrite lookup_alter_eq, fmap_Some. intros (y & _ & ->). cbn. apply String.eqb_neq, timeLayout_nonempty. }
  clearbody s1. intros [= <-] st. destruct ev; cbn [appendEvent with_events with_jobs ms_rows deleteMessageEmbeddings with_embeddings];
    rewrite rows_archive; destruct (MessageFTSRowID id); apply Hd.
Qed.

(** With the delete event's payload, the event is in the log. *)
Lemma delete_leaves now g c id payload s e s' :
  markMessageDeleted now g c id (Some payload) false s = (e, s') →
  event_of id "delete" s' ∧ ∀ st, ms_rows s' !! id = Some st → s_deleted st ≠ ""%string.
Proof.
  intros H. assert (e = None) as -> by (unfold markMessageDeleted in H; cbv zeta in H; by injection H as <- _).
  split; [|by eapply deleted_row]. unfold markMessageDeleted in H. cbv zeta in H. injection H as <-.
  eexists. split; [cbn; apply elem_of_app; right; by left|done].
Qed.
End Facts.

(** ** Archived events *)

Section Archived.
Context {ENV : Env} {TE : TailEnv} {ER : ErrorReport} {CF : ChannelJSON}.
Context {tp : TimeParse} {rp : RawPayloads} {lx : Lexical} {mr : MutationRecords} {jt : JSONText} {jx : JournalText}.
Context (Hrec : MutationRecordsLaws) (cfg : tail_config).
Local Abbreviation M := (M tail_tables).
Abbreviation messages w := (tt_messages (w_messages (w : tail_world))).

(** What an archived event of a kind leaves in the message tables. *)
Definition archived_as (kind : string) (m : Message) (s : mstate) : Prop :=
  event_of (m_ID m) kind s
  ∧ if (kind =? "delete")%string then ∀ st, ms_rows s !! m_ID m = Some st → s_deleted st ≠ ""%string
    else is_Some (ms_rows s !! m_ID m).

Lemma write_event_archives mu event started :
  event ≠ ""%string → event ≠ "delete"%string →
  hoare (λ _, True) (write_event cfg mu event started false) (λ e w, e = None → archived_as event (mu_message mu) (messages w)).
Proof.
  intros He Hd. apply hoare_store_write; [done| |done]. intros now w e w' _.
  destruct (upsertMessages _ _ _ _) as [e1 s1] eqn:E. intros [= <- <-]. split; [done|]. intros ->.
  apply upsert_one in E as [[_ Hw]|(? & ? & _)]; [|done]. unfold archived_as. rewrite <- (record_id mu). split.
  - by apply (mutation_event _ _ _ _ _ Hw).
  - apply String.eqb_neq in Hd as ->. by apply mutation_evidence in Hw as (_ & _ & _ & Hr).
Qed.

Lemma delete_archives g c id payload :
  hoare (λ _, True) (message_write (λ now _, markMessageDeleted now g c id (Some payload) false))
    (λ e w, e = None → event_of id "delete" (messages w) ∧ ∀ st, ms_rows (messages w) !! id = Some st → s_deleted st ≠ ""%string).
Proof.
  apply hoare_store_write; [done| |done]. intros now w e w' _.
  destruct (markMessageDeleted _ _ _ _ _ _) as [e1 s1] eqn:E. intros [= <- <-]. split; [done|]. intros ->. by apply delete_leaves in E.
Qed.

(** Calls on cursors and on the ledger leave the message tables. *)
Lemma sync_keeps_tables (P : tail_tables → Prop) f : hoare (λ w, P (w_messages w)) (store_write (on_sync f)) (λ _ w, P (w_messages w)).
Proof. apply hoare_store_write; [done| |done]. intros now w e w' Hw. unfold on_sync. destruct (f _ _). by intros [= <- <-]. Qed.

Lemma resolve_settles (P : tail_tables → Prop) g c id kind :
  kind ∈ ["create"; "update"; "delete"]%string →
  hoare (λ w, P (w_messages w)) (resolveMessageFailure g c id kind)
    (λ e w, P (w_messages w) ∧ (e = None → settled_identity (tailMessageFailureIdentity g c id kind) (w_ledger w))).
Proof.
  intros Hk. unfold resolveMessageFailure.
  assert (normalizeTailMessageEventKind kind = Some kind) as ->
    by (repeat (apply elem_of_cons in Hk as [->|Hk]; [vm_compute; reflexivity|]); by apply elem_of_nil in Hk).
  apply hoare_store_write; [done| |done]. intros now w e w' Hw. unfold on_ledger.
  destruct (ResolveFailureIdentity _ _ _) as [e1 l1] eqn:E. intros [= <- <-]. split; [done|]. split; [done|]. intros ->. by apply resolve_identity_settles in E.
Qed.

Lemma build_of m cn g b : hoare (λ _, True) (buildMessageMutation (T := tail_tables) m cn g b) (λ r _, ∀ mu, r = inl mu → mu_message mu = m).
Proof.
  apply (hoare_bind _ _ _ (λ _ _, True)); [done|]. intros [e|]; apply hoare_ret; [done|]. by intros _ _ mu [= <-].
Qed.

Lemma rejection_not_archived kind m e : hoare (λ _, True) (scopeRejection kind m e) (λ r _, r ≠ inl Archived).
Proof.
  unfold scopeRejection. destruct (negb _); [by apply hoare_ret|].
  apply (hoare_bind _ _ _ (λ _ _, True)); [done|]. intros [?|]; by apply hoare_ret.
Qed.

(** The message an update stores is the one the event names. *)
Definition names_same (m full : Message) : Prop :=
  m_ID full = m_ID m ∧ m_ChannelID full = m_ChannelID m ∧ (m_GuildID m ≠ "" → m_GuildID full = m_GuildID m)%string.

Lemma or_else_same (a b : string) :
  (negb (a =? "") && negb (b =? "") && negb (a =? b) = false)%string → b ≠ ""%string → or_else a b = b.
Proof. unfold or_else. destruct (String.eqb_spec a ""), (String.eqb_spec b ""), (String.eqb_spec a b); by subst. Qed.

Lemma validated_identity m full :
  ValidateMessageUpdateIdentity m full = None → m_ID m ≠ ""%string → m_ChannelID m ≠ ""%string → names_same m (fill_identity full m).
Proof.
  unfold ValidateMessageUpdateIdentity. cbv beta zeta. do 3 (case_match; [done|]).
  intros _ Hi Hc. unfold names_same. split_and!; cbn; [by apply or_else_same..|]. intros Hg. by apply or_else_same.
Qed.

Lemma snapshot_identity g :
  hoare (λ _, True) (messageUpdateSnapshot cfg g) (λ r _, ∀ full, r = inl (Some full) → names_same (g_message g) full).
Proof.
  assert (Hown : ∀ full, (if isPartialMessageUpdate g then None else Some (g_message g)) = Some full → names_same (g_message g) full)
    by (intros full; destruct (isPartialMessageUpdate g); [done|by intros [= <-]]).
  unfold messageUpdateSnapshot. cbv zeta. destruct (_ || _) eqn:E.
  - apply hoare_ret. intros _ _ full [= Hf]. auto.
  - apply orb_false_iff in E as [[_ Hc%String.eqb_neq]%orb_false_iff Hi%String.eqb_neq].
    apply (hoare_bind _ _ _ (λ _ _, True)); [done|]. intros [[full|]|e]; [|apply hoare_ret; intros _ _ full [= Hf]; auto|by apply hoare_ret].
    destruct (ValidateMessageUpdateIdentity _ _) eqn:Ev; apply hoare_ret; [done|]. intros _ _ full' [= <-]. by apply validated_identity.
Qed.

(** An archived event is in the event log, its row is stored (a tombstone after
    a delete), and no failure of the event is pending. *)
Definition accounted (kind guild : string) (m : Message) (w : tail_world) : Prop :=
  archived_as kind m (messages w) ∧ settled_identity (tailMessageFailureIdentity guild (m_ChannelID m) (m_ID m) kind) (w_ledger w).

(** The end of a handler, after its write. *)
Lemma cursor_and_settle kind m (f : M (option err)) :
  kind ∈ ["create"; "update"; "delete"]%string →
  (∀ P, hoare (λ w, P (w_messages w)) f (λ _ w, P (w_messages w))) →
  hoare (λ w, archived_as kind m (messages w))
    (check! f orelse (λ e, ret (inr e)); check! (resolveMessageFailure (m_GuildID m) (m_ChannelID m) (m_ID m) kind) orelse (λ e, ret (inr e)); ret (inl Archived))
    (λ r w, r = inl Archived → accounted kind (m_GuildID m) m w).
Proof.
  intros Hk Hf. eapply hoare_bind; [apply (Hf (λ t, archived_as kind m (tt_messages t)))|]. intros [e|]; [by apply hoare_ret|].
  eapply hoare_bind; [apply (resolve_settles (λ t, archived_as kind m (tt_messages t))); done|]. intros [e|]; apply hoare_ret; [done|].
  intros w [Hw Hs] _. split; auto.
Qed.

Lemma create_accounted m :
  hoare (λ _, True) (OnMessageCreate cfg (Some m)) (λ r w, r = inl Archived → accounted "create" (m_GuildID m) m w).
Proof.
  cbn [OnMessageCreate]. destruct (negb (allowGuild _ _)); [by apply hoare_ret|].
  skip_call. intros [allowed|e]; [|by apply hoare_ret]. destruct (negb allowed); [by apply hoare_ret|].
  eapply hoare_bind; [apply build_of|]. intros [mu|e]; [|eapply hoare_conseq; [apply rejection_not_archived|done|by intros ? ? ? ?]].
  apply (hoare_conseq _ (λ w, mu_message mu = m ∧ True) _ (λ r w, r = inl Archived → accounted "create" (m_GuildID m) m w)); [|auto|auto].
  apply hoare_pre_pure. intros Hm.
  eapply hoare_bind; [by apply write_event_archives|]. intros [e|]; [eapply hoare_conseq; [apply rejection_not_archived|done|by intros ? ? ? ?]|].
  rewrite Hm. eapply hoare_bind; [eapply hoare_conseq; [apply (sync_keeps_tables (λ t, archived_as "create" m (tt_messages t)))|by intros w H; apply H|intros ? ? H; exact H]|].
  intros [e|]; [by apply hoare_ret|]. apply cursor_and_settle; [by left|]. intros P. destruct (tc_preserveHistoryCursor cfg); [by apply hoare_ret|apply sync_keeps_tables].
Qed.

Lemma update_accounted g :
  hoare (λ _, True) (OnMessageUpdate cfg (Some g))
    (λ r w, r = inl Archived → ∃ m, names_same (g_message g) m ∧ accounted "update" (m_GuildID m) m w).
Proof.
  cbn [OnMessageUpdate]. cbv zeta. destruct (_ && _); [by apply hoare_ret|].
  skip_call. intros [allowed|e]; [|by apply hoare_ret]. destruct (negb allowed); [by apply hoare_ret|].
  skip_call. intros started. eapply hoare_bind; [apply snapshot_identity|]. intros [[m|]|e]; [|by apply hoare_ret..].
  apply (hoare_conseq _ (λ w, names_same (g_message g) m ∧ True) _ (λ r w, r = inl Archived → ∃ m, names_same (g_message g) m ∧ accounted "update" (m_GuildID m) m w)); [|auto|auto].
  apply hoare_pre_pure. intros Hsame. apply (hoare_conseq _ (λ _, True) _ (λ r w, r = inl Archived → accounted "update" (m_GuildID m) m w)); [|done|eauto].
  destruct (negb (allowGuild _ _)); [by apply hoare_ret|]. skip_call. intros [|]; [by apply hoare_ret|].
  eapply hoare_bind; [apply build_of|]. intros [mu|e]; [|eapply hoare_conseq; [apply rejection_not_archived|done|by intros ? ? ? ?]].
  apply (hoare_conseq _ (λ w, mu_message mu = m ∧ True) _ (λ r w, r = inl Archived → accounted "update" (m_GuildID m) m w)); [|auto|auto].
  apply hoare_pre_pure. intros Hm.
  eapply hoare_bind; [by apply write_event_archives|]. intros [e|]; [eapply hoare_conseq; [apply rejection_not_archived|done|by intros ? ? ? ?]|].
  rewrite Hm. eapply hoare_conseq; [apply (cursor_and_settle "update" m); [by right; left|intros P; apply sync_keeps_tables]|by intros w H; apply H|done].
Qed.

Lemma delete_accounted d :
  hoare (λ _, True) (OnMessageDelete cfg (Some d)) (λ r w, r = inl Archived → accounted "delete" (m_GuildID (d_message d)) (d_message d) w).
Proof.
  cbn [OnMessageDelete]. cbv zeta. destruct (negb (allowGuild _ _)); [by apply hoare_ret|]. skip_call. intros [|]; [by apply hoare_ret|].
  eapply hoare_bind; [apply delete_archives|]. intros [e|]; [by apply hoare_ret|].
  eapply hoare_conseq; [apply (cursor_and_settle "delete" (d_message d)); [by right; right; left|intros P; apply sync_keeps_tables]|by intros w H; apply H|done].
Qed.
End Archived.

(** ** Ignored events *)

Section Ignored.
Context {ENV : Env} {TE : TailEnv} {ER : ErrorReport} {CF : ChannelJSON}.
Context {tp : TimeParse} {rp : RawPayloads} {lx : Lexical} {mr : MutationRecords} {jt : JSONText} {jx : JournalText}.
Context (Hfail : ∀ e, store_fails e → is_scope e = false) (cfg : tail_config) (w0 : tail_world).
Local Abbreviation M := (M tail_tables).

(** The messages and the cursors are those of [w0]. *)
Definition unstored (w : tail_world) : Prop := tt_messages (w_messages w) = tt_messages (w_messages w0) ∧ w_sync w = w_sync w0.

Lemma unstored_frame : scope_frame unstored.
Proof. by split. Qed.

Lemma write_event_scope mu event started :
  hoare unstored (write_event cfg mu event started false) (λ e w, match e with Some e => is_scope e = true → unstored w | None => True end).
Proof.
  apply hoare_wp. intros w Hw. apply wp_write; [by intros e He%Hfail; rewrite He|].
  intros now e w'. destruct (upsertMessages _ _ _ _) as [e1 s1] eqn:E. intros [= <- <-]. split; [|by intros e He%Hfail; rewrite He].
  apply upsert_one in E as [[-> _]|(er & -> & -> & _)]; [done|]. by intros _.
Qed.

Lemma rejection_unstored kind m e :
  hoare (λ w, is_scope e = true → unstored w) (scopeRejection kind m e) (λ r w, ∀ reason, r = inl (Ignored reason) → unstored w).
Proof.
  unfold scopeRejection. destruct (is_scope e); cbn [negb]; [|by apply hoare_ret].
  eapply (hoare_bind _ _ _ (λ _, unstored)); [|intros [?|]; [by apply hoare_ret|apply hoare_ret; auto]].
  apply hoare_store_write; [auto| |auto]. intros now w e' w' Hw. unfold on_ledger. destruct (ResolveFailureWithReason _ _ _ _). intros [= <- <-]. split; by intros; apply Hw.
Qed.

(** What follows the write cannot ignore the event. *)
Lemma settle_not_ignored (f : M (option err)) (k : M (handled + err)) :
  hoare (λ _, True) k (λ r _, ∀ reason, r ≠ inl (Ignored reason)) →
  hoare (λ _, True) (check! f orelse (λ e, ret (inr e)); k) (λ r _, ∀ reason, r ≠ inl (Ignored reason)).
Proof. intros Hk. skip_call. intros [e|]; [by apply hoare_ret|done]. Qed.

Lemma ignored_of P (m : M (handled + err)) :
  hoare (λ _, True) m (λ r _, ∀ reason, r ≠ inl (Ignored reason)) → hoare P m (λ r w, ∀ reason, r = inl (Ignored reason) → unstored w).
Proof. intros H. eapply hoare_conseq; [exact H|done|]. intros a w Ha reason Hr. by destruct (Ha reason). Qed.

Lemma allow_unstored g c : hoare unstored (allowMessageChannel cfg g c) (λ _, unstored).
Proof. apply allowMessageChannel_frame, unstored_frame. Qed.

Lemma exclude_unstored c : hoare unstored (excludeChannel cfg c) (λ _, unstored).
Proof. apply excludeChannel_frame. Qed.

Lemma snapshot_unstored g : hoare unstored (messageUpdateSnapshot cfg g) (λ _, unstored).
Proof.
  unfold messageUpdateSnapshot. cbv zeta. destruct (_ || _); [by apply hoare_ret|].
  eapply hoare_bind; [by apply tick_frame, unstored_frame|]. intros [[full|]|e]; [|by apply hoare_ret..].
  destruct (ValidateMessageUpdateIdentity _ _); by apply hoare_ret.
Qed.

Lemma build_unstored m cn g b : hoare unstored (buildMessageMutation (T := tail_tables) m cn g b) (λ _, unstored).
Proof. eapply hoare_bind; [by apply tick_frame, unstored_frame|]. intros [e|]; by apply hoare_ret. Qed.

(** The common end of the create and the update handler. *)
Lemma write_ignores kind m (k : M (handled + err)) started :
  hoare (λ _, True) k (λ r _, ∀ reason, r ≠ inl (Ignored reason)) →
  hoare unstored
    (try! mu := buildMessageMutation m "" "" (tc_embeddings cfg) orelse (scopeRejection kind m);
     check! (write_event cfg mu kind started false) orelse (scopeRejection kind m); k)
    (λ r w, ∀ reason, r = inl (Ignored reason) → unstored w).
Proof.
  intros Hk. eapply hoare_bind; [apply build_unstored|]. intros [mu|e]; [|eapply hoare_conseq; [apply rejection_unstored|by intros w Hw _|by intros r w Hw]].
  eapply hoare_bind; [apply write_event_scope|]. intros [e|]; [apply rejection_unstored|by apply ignored_of].
Qed.

Lemma archived_not_ignored : hoare (λ _, True) (ret (inl Archived) : M (handled + err)) (λ r _, ∀ reason, r ≠ inl (Ignored reason)).
Proof. by apply hoare_ret. Qed.

#[local] Hint Resolve settle_not_ignored archived_not_ignored : core.

Lemma create_ignores m : hoare unstored (OnMessageCreate cfg m) (λ r w, ∀ reason, r = inl (Ignored reason) → unstored w).
Proof.
  destruct m as [m|]; [|by apply hoare_ret]. cbn [OnMessageCreate]. destruct (negb (allowGuild _ _)); [by apply hoare_ret|].
  eapply hoare_bind; [apply allow_unstored|]. intros [allowed|e]; [|by apply hoare_ret]. destruct (negb allowed); [by apply hoare_ret|].
  apply write_ignores. auto.
Qed.

Lemma update_ignores g : hoare unstored (OnMessageUpdate cfg g) (λ r w, ∀ reason, r = inl (Ignored reason) → unstored w).
Proof.
  destruct g as [g|]; [|by apply hoare_ret]. cbn [OnMessageUpdate]. cbv zeta. destruct (_ && _); [by apply hoare_ret|].
  eapply hoare_bind; [apply allow_unstored|]. intros [allowed|e]; [|by apply hoare_ret]. destruct (negb allowed); [by apply hoare_ret|].
  eapply hoare_bind; [by apply tick_frame, unstored_frame|]. intros started. eapply hoare_bind; [apply snapshot_unstored|].
  intros [[m|]|e]; [|by apply hoare_ret..]. destruct (negb (allowGuild _ _)); [by apply hoare_ret|].
  eapply hoare_bind; [apply exclude_unstored|]. intros [|]; [by apply hoare_ret|]. apply write_ignores. auto.
Qed.

Lemma delete_ignores d : hoare unstored (OnMessageDelete cfg d) (λ r w, ∀ reason, r = inl (Ignored reason) → unstored w).
Proof.
  destruct d as [d|]; [|by apply hoare_ret]. cbn [OnMessageDelete]. cbv zeta. destruct (negb (allowGuild _ _)); [by apply hoare_ret|].
  eapply hoare_bind; [apply exclude_unstored|]. intros [|]; [by apply hoare_ret|]. apply ignored_of. auto.
Qed.
End Ignored.

(** ** The message handlers *)

(** A message event of the Gateway, and its handler. *)
Inductive message_event := Create (m : option Message) | Update (g : option gateway_message) | Delete (d : option delete_event).

Section Events.
Context {ENV : Env} {TE : TailEnv} {ER : ErrorReport} {CF : ChannelJSON}.
Context {tp : TimeParse} {rp : RawPayloads} {lx : Lexical} {mr : MutationRecords} {jt : JSONText} {jx : JournalText}.
Context (cfg : tail_config).

Definition handle (ev : message_event) : M tail_tables (handled + err) :=
  match ev with
  | Create m => OnMessageCreate cfg m
  | Update g => OnMessageUpdate cfg g
  | Delete d => OnMessageDelete cfg d
  end.

Definition event_kind (ev : message_event) : string := match ev with Create _ => "create" | Update _ => "update" | Delete _ => "delete" end.
Definition event_message (ev : message_event) : option Message :=
  match ev with Create m => m | Update g => g_message <$> g | Delete d => d_message <$> d end.
End Events.

(** C8: an event that the handler reports as archived is accounted for, under
    every fault schedule: its entry is in the event log; the message's row is
    stored, or is a tombstone after a delete; no failure of the event is pending
    in the ledger; and an update has stored the message the event names, also
    when the provider was asked for the full message. *)
Theorem archived_events_are_stored `{Env} `{TailEnv} `{ErrorReport} `{ChannelJSON} `{TimeParse} `{RawPayloads} `{Lexical} `{MutationRecords} `{JSONText} `{JournalText}
    (Hrecords : MutationRecordsLaws) cfg ev w w' :
  handle cfg ev w = Some (inl Archived, w') →
  ∃ m m', event_message ev = Some m ∧ names_same m m' ∧ accounted (event_kind ev) (m_GuildID m') m' w'.
Proof.
  intros Hrun. assert (Hid : ∀ m, names_same m m) by done.
  destruct ev as [[m|]|[g|]|[d|]]; cbn [handle event_message event_kind fmap option_fmap option_map] in *; try done.
  - exists m, m. split_and!; [done..|]. by eapply (create_accounted Hrecords cfg m w).
  - apply (update_accounted Hrecords cfg g w) in Hrun as (m & Hm & Ha); [|done|done]. eauto.
  - exists (d_message d), (d_message d). split_and!; [done..|]. by eapply (delete_accounted cfg d w).
Qed.

(** an event that the handler ignores changes neither the messages, their
    event log and indexes nor any sync cursor, as long as the store does not
    itself report collection-scope errors: the handler takes such an error for
    the refusal of the message writer, and only that refusal is known to have
    written nothing. *)
Theorem ignored_events_change_nothing `{Env} `{TailEnv} `{ErrorReport} `{ChannelJSON} `{TimeParse} `{RawPayloads} `{Lexical} `{MutationRecords} `{JSONText} `{JournalText}
    (Hfail : ∀ e, store_fails e → is_scope e = false) cfg ev reason w w' :
  handle cfg ev w = Some (inl (Ignored reason), w') →
  tt_messages (w_messages w') = tt_messages (w_messages w) ∧ w_sync w' = w_sync w.
Proof.
  intros Hrun. destruct ev; cbn [handle] in Hrun.
  - by eapply (create_ignores Hfail cfg w).
  - by eapply (update_ignores Hfail cfg w).
  - by eapply (delete_ignores cfg w).
Qed.

(** ** Failures that are reported as recorded *)

(** A call of a run that ended. *)
Lemma bind_run {T A B} (m : M T A) (k : A → M T B) w r : bind m k w = Some r → ∃ a w1, m w = Some (a, w1) ∧ k a w1 = Some r.
Proof. unfold bind. destruct (m w) as [[a w1]|]; [eauto|done]. Qed.

Section Recorded.
Context {ENV : Env} {TE : TailEnv} {ER : ErrorReport} {CF : ChannelJSON}.
Context {tp : TimeParse} {rp : RawPayloads} {lx : Lexical} {mr : MutationRecords} {jt : JSONText} {jx : JournalText} {jl : JournalTextLaws}.

(** A pending row of the ledger for an event of this kind on this message; a
    guild or channel that the event does not name may come from the stored row. *)
Definition pending_event (kind g c id : string) (l : ledger) : Prop :=
  ∃ f, f ∈ rows l ∧ unresolved f = true ∧ Operation (Ref f) = tailMessageFailureOperation ∧ RelatedKind (Ref f) = tailMessageFailureRelatedKind
     ∧ RelatedID (Ref f) = kind ∧ MessageID (Ref f) = TrimSpace id
     ∧ (TrimSpace g ≠ "" → GuildID (Ref f) = TrimSpace g)%string ∧ (TrimSpace c ≠ "" → ChannelID (Ref f) = TrimSpace c)%string.

(** A file of the journal that reads back as such an event. *)
Definition journalled_event (kind g c id : string) (before after : directory) : Prop :=
  ∃ r name, before !! name = None ∧ after = <[name := Marshal r]> before ∧ readCommittedTailMessageFailure name (Marshal r) = Some r
     ∧ record_ref r = tailMessageFailureIdentity (TrimSpace g) (TrimSpace c) (TrimSpace id) kind.

Lemma recordFailure_leaves now ref e l l' :
  recordFailure now ref e l = (None, l') →
  ∃ f, f ∈ rows (pruneResolvedFailures now l') ∧ unresolved f = true ∧ Ref f = normalizeFailureRef (mergeFailureRef ref (FailureRefFromError e)).
Proof.
  unfold recordFailure. cbv zeta. destruct (ref_required _); [done|]. destruct (existsb _ _) eqn:Ex; intros [= <-].
  - apply existsb_exists in Ex as (f & Hf%list_elem_of_In & Hr%bool_decide_eq_true). exists (record_row now e f). split_and!; [|done|done].
    apply prune_unresolved; [done|]. apply elem_of_update. exists f. by rewrite bool_decide_eq_true_2.
  - eexists. split; [apply prune_unresolved; [|cbn; apply elem_of_app; right; by left]|]; done.
Qed.

#[local] Arguments TrimSpace _ : simpl never.

(** A field that is set survives the merges and normalizations. *)
Lemma set_field (a b : string) : TrimSpace a ≠ ""%string → TrimSpace (if (a =? "")%string then b else a) = TrimSpace a.
Proof. intros Ha. by destruct (String.eqb_spec a ""); [subst|]. Qed.

Lemma set_again (a b : string) : TrimSpace a ≠ ""%string → TrimSpace (if (TrimSpace a =? "")%string then b else TrimSpace a) = TrimSpace a.
Proof. intros Ha. rewrite set_field; rewrite TrimSpace_idem; done. Qed.

(** The ledger keeps a failure under its message, whatever the stored message
    adds to its scope. *)
Lemma scoped_record_pending now g c id kind e stored l l' :
  kind ∈ ["create"; "update"; "delete"]%string → id ≠ ""%string →
  RecordFailureWithMessageScope now (tailMessageFailureIdentity g c id kind) (Some e) stored l = (None, l') → pending_event kind g c id l'.
Proof.
  intros Hkind Hid. assert (Hk : TrimSpace kind = kind ∧ kind ≠ ""%string)
    by (repeat (apply elem_of_cons in Hkind as [->|Hkind]; [by vm_compute|]); by apply elem_of_nil in Hkind).
  destruct Hk as [Hk Hk']. unfold RecordFailureWithMessageScope. cbv zeta. set (r := normalizeFailureRef _). destruct (ref_required _) eqn:Ereq; [done|].
  destruct (String.eqb_spec (MessageID r) "") as [|Hm]; [done|]. set (scoped := match stored _ with Some _ => _ | None => _ end).
  assert (Hscoped : ∀ r', scoped = inl r' → Operation r' = Operation r ∧ RelatedKind r' = RelatedKind r ∧ RelatedID r' = RelatedID r ∧ MessageID r' = MessageID r
                            ∧ (GuildID r ≠ "" → GuildID r' = GuildID r)%string ∧ (ChannelID r ≠ "" → ChannelID r' = ChannelID r)%string).
  { unfold scoped. destruct (stored _) as [[g' c']|]; [|by intros ? [= <-]]. do 2 (case_match; [done|]). intros r' [= <-]. cbn.
    split_and!; [done..| |]; intros H1%String.eqb_neq; by rewrite H1. }
  destruct scoped as [r'|]; [|done]. destruct (Hscoped r' eq_refl) as (Eo & Ek & Er & Em & Eg & Ec). clear Hscoped.
  destruct (_ || _); [done|]. destruct (recordFailure _ _ _ _) as [[?|] l1] eqn:E; [done|]. intros [= <-].
  apply recordFailure_leaves in E as (f & Hf & Hu & Href). exists f. rewrite Href. cbn. rewrite Eo, Ek, Er, Em. subst r. cbn in Hm |- *.
  apply String.eqb_neq in Hid as Hid'. rewrite Hid' in Hm |- *. apply String.eqb_neq in Hk' as Hk''. rewrite Hk'', Hk, Hk''.
  split_and!; try done; [by rewrite set_again|..]; intros Hne; [rewrite Eg|rewrite Ec]; cbn; rewrite !set_field by (rewrite ?set_field by done; by rewrite ?TrimSpace_idem); by rewrite ?TrimSpace_idem.
Qed.

Lemma persist_journals fb w w' :
  valid_ids fb → Forall (λ d, match d with Drawn id _ => validLowerHex id occurrenceBytes = true | DrawFails => True end) (di_draws (dir_at (w_step w))) →
  normalizeTailMessageEventKind (fb_EventKind fb) = Some (fb_EventKind fb) →
  persist_fallback fb w = Some (None, w') →
  journalled_event (fb_EventKind fb) (fb_GuildID fb) (fb_ChannelID fb) (fb_MessageID fb) (tt_files (w_messages w)) (tt_files (w_messages w')).
Proof.
  intros Hids Hdraws Hk. unfold persist_fallback. destruct (PersistTailMessageFailureFallback _ _ _) as [e files] eqn:E. intros [= -> <-]. cbn.
  apply Persist_adds in E as [[_ ?]|(r & id & Hr & Hid & Hnone & ->)]; [done|]. rewrite Forall_forall in Hdraws. pose proof (Hdraws _ Hid) as Hhex.
  exists r, (file_name id (Marshal r)). destruct (read_back r id (normalize_committable fb r Hids Hr) Hhex) as [Hread _]. split_and!; [done..|].
  unfold normalizeTailMessageFailureFallback in Hr. rewrite Hk in Hr. destruct (normalizeTailMessageFailureKind _); [|done].
  cbv zeta in Hr. destruct (_ || _ || _); [done|]. destruct (_ <? _)%nat; [done|]. by injection Hr as <-.
Qed.

(** The failure of a message event, when the handler reports it as recorded. *)
Lemma recorded_durably (f : tail_failure) kind w w' :
  normalizeTailMessageEventKind (tf_EventType f) = Some kind →
  valid_text (TrimSpace (tf_GuildID f)) → valid_text (TrimSpace (tf_ChannelID f)) → valid_text (TrimSpace (tf_MessageID f)) →
  (∀ n, Forall (λ d, match d with Drawn id _ => validLowerHex id occurrenceBytes = true | DrawFails => True end) (di_draws (dir_at n))) →
  RecordTailFailure f w = Some (None, w') →
  pending_event kind (tf_GuildID f) (tf_ChannelID f) (tf_MessageID f) (w_ledger w')
  ∨ journalled_event kind (tf_GuildID f) (tf_ChannelID f) (tf_MessageID f) (tt_files (w_messages w)) (tt_files (w_messages w')).
Proof.
  intros Hkind Hg Hc Hm Hdraws. pose proof (event_kind_again _ _ Hkind) as [Hagain Hin]. unfold RecordTailFailure. rewrite Hkind.
  destruct (failure_sentinel _) as [[failureKind durable]|]; [|by intros [=]]. cbv zeta. set (e := if (_ =? _)%string then durable else _).
  destruct (String.eqb_spec (tf_MessageID f) "") as [|Hid]; [by intros [=]|].
  set (fb := mkFallback _ _ _ _ _). intros Hrun. apply bind_run in Hrun as (ledger & w1 & Hl & Hrun).
  assert (Hfiles : tt_files (w_messages w1) = tt_files (w_messages w) ∧ (ledger = None → pending_event kind (tf_GuildID f) (tf_ChannelID f) (tf_MessageID f) (w_ledger w1))).
  { destruct (tf_ForceFallback f); [by injection Hl as <- <-|]. refine (wp_write _ (λ ledger w1, tt_files (w_messages w1) = tt_files (w_messages w) ∧ (ledger = None → pending_event kind (tf_GuildID f) (tf_ChannelID f) (tf_MessageID f) (w_ledger w1))) w _ _ ledger w1 Hl); [done|].
    intros now e1 w2. destruct (RecordFailureWithMessageScope _ _ _ _ _) as [r l] eqn:E. intros [= <- <-].
    split; [|done]. split; [done|]. intros ->. by apply scoped_record_pending in E. }
  destruct Hfiles as [Hfiles Hpending]. destruct ledger; [|injection Hrun as <-; left; by apply Hpending].
  apply bind_run in Hrun as (fallback & w2 & Hf & Hrun). destruct fallback; [done|]. injection Hrun as <-. right.
  rewrite <- Hfiles. by apply (persist_journals fb).
Qed.
End Recorded.

(** ** The replay *)

Section Replayed.
Context {ENV : Env} {TE : TailEnv} {ER : ErrorReport} {CF : ChannelJSON}.
Context {tp : TimeParse} {rp : RawPayloads} {lx : Lexical} {mr : MutationRecords} {jt : JSONText} {jx : JournalText}.
Context (Hrec : MutationRecordsLaws) (cfg : tail_config) (advanceCursor : bool) (f : Failure).
Local Abbreviation M := (M tail_tables).
Abbreviation tables w := (tt_messages (w_messages (w : tail_world))).

(** The generation of the failure that the replay has read is not pending. *)
Definition settled_generation (l : ledger) : Prop :=
  ∀ g, g ∈ rows l → FailureID g = FailureID f → RetryCount g = RetryCount f → unresolved g = false.

Definition still_pending (l : ledger) : Prop :=
  ∃ g text, g ∈ rows l ∧ unresolved g = true ∧ Ref g = normalizeFailureRef (mergeFailureRef (Ref f) (FailureRefFromError (EText text))).

(** An error of the environment: the database, the extraction of attachments, a
    tokenizer. *)
Definition reported_by_library (e : err) : Prop :=
  store_fails e ∨ (∃ n m, extract_outcome n m = Some e) ∨ ∃ text, tokenizeLexical text = inr e.

(** The message's channel is outside the collection: the configured exclusions
    name it or decide against it by the catalog; without exclusions, it or an
    ancestor is a tombstone; or the writer's own check refused it, by the rows it
    then had, for this guild; or a library returned the error of that check. *)
Definition out_of_scope (w : tail_world) : Prop :=
  let excl := tc_exclusions cfg in
  let id := ChannelID (Ref f) in
  (configured excl = true ∧ (excludesID excl id = true ∨ scope excl id (tt_catalog (w_messages w)) = "excluded"%string))
  ∨ (configured excl = false ∧ ChannelCollectionAdmitted (w_channels w) id "" = false)
  ∨ (∃ guild, TrimSpace guild = TrimSpace (GuildID (Ref f)) ∧ is_Some (requireMessageScope (w_channels w) id guild (scopePolicy cfg)))
  ∨ ∃ e, is_scope e = true ∧ reported_by_library e.

(** What entitles the replay to an outcome. *)
Definition evidence (o : replayed) (w : tail_world) : Prop :=
  match o with
  | Recovered =>
      settled_generation (w_ledger w)
      ∧ (if bool_decide (tailMessageReplayEventKind f = Some "delete"%string)
         then ∀ st, ms_rows (tables w) !! MessageID (Ref f) = Some st → s_deleted st ≠ ""%string
         else is_Some (ms_rows (tables w) !! MessageID (Ref f)))
  | Unavailable =>
      settled_generation (w_ledger w)
      ∧ ∃ n e, ChannelMessage n (ChannelID (Ref f)) (MessageID (Ref f)) = inr e ∧ provider_says_missing e = true
  | OutOfScope => settled_generation (w_ledger w) ∧ out_of_scope w
  | Deferred | PolicyDeferred => still_pending (w_ledger w)
  end.

Abbreviation justified := (λ (r : replayed + err) w, ∀ o, r = inl o → evidence o w).

Lemma keep_pending_justified text o P : o = Deferred ∨ o = PolicyDeferred → hoare P (keep_pending f text o) justified.
Proof.
  intros Ho. eapply (hoare_bind _ _ _ (λ e w, e = None → still_pending (w_ledger w))).
  - apply (hoare_conseq _ (λ _, True) _ (λ e w, e = None → still_pending (w_ledger w))); [|done|done].
    apply hoare_store_write; [done| |done]. intros now w e w' _. unfold on_ledger, RecordFailure.
    destruct (recordFailure _ _ _ _) as [[?|] l] eqn:E; intros [= <- <-]; (split; [done|]); intros ?; [done|].
    apply recordFailure_leaves in E as (g & Hg & Hu & Hr). exists g, text. done.
  - intros [e|]; apply hoare_ret; [done|]. intros w Hw o' [= <-]. destruct Ho as [->| ->]; by apply Hw.
Qed.

Lemma settle_justified reason o (P : tail_world → Prop) :
  (∀ w w', P w → w_messages w' = w_messages w → w_channels w' = w_channels w → settled_generation (w_ledger w') → evidence o w') →
  hoare P (resolve_candidate f reason o) justified.
Proof.
  intros HP. eapply (hoare_bind _ _ _ (λ e w, e = None → evidence o w)).
  - apply hoare_wp. intros w Hw. apply wp_write; [done|]. intros now e w'. unfold on_ledger, ResolveFailureGeneration.
    destruct (_ =? _)%string; [by intros [= <- <-]|]. destruct (_ =? 0); intros [= <- <-]; (split; [|done]); intros Hn; [done|].
    apply (HP w); [done..|]. cbn. intros g (g0 & -> & _)%elem_of_update Hid Hrc. destruct (_ && unresolved g0) eqn:E; [done|].
    rewrite Hid, Hrc, !Z.eqb_refl in E. done.
  - intros [e|]; apply hoare_ret; [done|]. intros w Hw o' [= <-]. by apply Hw.
Qed.

Lemma interrupted_justified text P : hoare P (interrupted f text) justified.
Proof.
  apply (hoare_bind _ _ _ (λ _ _, True)); [done|]. intros [e|]; [by apply hoare_ret|]. apply keep_pending_justified. by left.
Qed.

Lemma out_of_scope_justified reason : hoare out_of_scope (resolve_candidate f reason OutOfScope) justified.
Proof. apply settle_justified. intros w w' Hw Hm Hc Hs. split; [done|]. unfold out_of_scope. by rewrite Hm, Hc. Qed.

(** *** The decision of the admission *)

Lemma scopeDecision_spec id P : hoare P (scopeDecision cfg id) (λ s w, s = scope (tc_exclusions cfg) id (tt_catalog (w_messages w))).
Proof. intros w a w' _ [= <- <-]. done. Qed.

Lemma stale_keeps id (Q : channels → Prop) :
  hoare (λ w, Q (tt_catalog (w_messages w))) (scopeCacheStale id) (λ _ (w : tail_world), Q (tt_catalog (w_messages w))).
Proof.
  unfold scopeCacheStale. eapply (hoare_bind _ _ _ (λ _ w, Q (tt_catalog (w_messages w)))); [by intros w a w' Hw [= <- <-]|]. intros cat.
  destruct (cat !! id); [|by apply hoare_ret].
  eapply (hoare_bind _ _ _ (λ _ w, Q (tt_catalog (w_messages w)))); [by apply hoare_store_read|]. intros [?|?]; by apply hoare_ret.
Qed.

Definition decided_against (id : string) (w : tail_world) : Prop := scope (tc_exclusions cfg) id (tt_catalog (w_messages w)) = "excluded"%string.
Definition policy_excludes (id : string) (w : tail_world) : Prop := excludesID (tc_exclusions cfg) id = true ∨ decided_against id w.
Abbreviation refusal id := (λ (r : bool + err) (w : tail_world), r = inl false → policy_excludes id w).

Lemma decision_refuses id state (w : tail_world) :
  state = scope (tc_exclusions cfg) id (tt_catalog (w_messages w)) → (state =? "unknown")%string = false → refusal id (inl (state =? "allowed")%string) w.
Proof.
  intros -> Hu [= Ha]. right. pose proof (scope_valid (tc_exclusions cfg) id (tt_catalog (w_messages w))) as Hv. unfold valid_scope in Hv.
  rewrite Ha, Hu, orb_false_r in Hv. cbn in Hv. by apply String.eqb_eq in Hv.
Qed.

Lemma resolve_ancestry_refuses guild id P : hoare P (resolve_ancestry cfg guild id) (refusal id).
Proof.
  unfold resolve_ancestry. destruct (negb (tc_client cfg)); [by apply hoare_ret|]. skip_call. intros [e|]; [by apply hoare_ret|].
  skip_call. intros [e|]; [by apply hoare_ret|]. eapply hoare_bind; [apply (scopeDecision_spec id (λ _, True))|]. intros state.
  destruct (_ =? "unknown")%string eqn:Eu; apply hoare_ret; [done|]. intros w Hw. by eapply decision_refuses.
Qed.

Lemma allow_refuses guild id : configured (tc_exclusions cfg) = true → hoare (λ _, True) (allowMessageChannel cfg guild id) (refusal id).
Proof.
  intros Hc. unfold allowMessageChannel. rewrite Hc. cbn [negb]. destruct (excludesID _ _) eqn:Ex; [apply hoare_ret; by left|].
  skip_call. intros state0. skip_call. intros [e|]; [by apply hoare_ret|].
  eapply hoare_bind; [apply (scopeDecision_spec id (λ _, True))|]. intros state. destruct (state =? "unknown")%string eqn:Eu; [apply resolve_ancestry_refuses|].
  eapply hoare_bind; [apply (stale_keeps id (λ c, state = scope (tc_exclusions cfg) id c))|]. intros [stale|e]; [|by apply hoare_ret].
  eapply (hoare_bind _ _ _ (λ _ w, stale = false → state = scope (tc_exclusions cfg) id (tt_catalog (w_messages w)))).
  { destruct stale; [intros w a w' _ _; done|apply hoare_ret; done]. }
  intros [e|]; [by apply hoare_ret|].
  eapply (hoare_bind _ _ _ (λ st w, st = scope (tc_exclusions cfg) id (tt_catalog (w_messages w)))).
  { destruct stale; [apply scopeDecision_spec|apply hoare_ret; auto]. }
  intros st. destruct (st =? "unknown")%string eqn:Est; [apply resolve_ancestry_refuses|]. apply hoare_ret. intros w Hw. by eapply decision_refuses.
Qed.

(** *** The refusal of the writer *)

Lemma write_refused now cs m st e : write_mutation now cs m st = inr e → is_scope e = true →
  is_Some (requireMessageScope cs (r_ChannelID (mm_Record m)) (r_GuildID (mm_Record m)) (ScopePolicy (mm_Options m))) ∨ ∃ text, tokenizeLexical text = inr e.
Proof.
  unfold write_mutation. destruct (requireMessageScope _ _ _ _) as [e1|]; [by left|]. cbv zeta. intros Hw He. right.
  destruct (prepareTextMutation _ _) as [m1|e1] eqn:Ep.
  2:{ injection Hw as ->. revert Ep He. unfold prepareTextMutation. destruct (negb _); [done|]. cbv zeta. destruct (project_text _ _) as [[? ?]|]; [done|]. by intros [= <-]. }
  destruct (_ && _); [done|]. destruct (upsertMessage _ _ _ _) as [[b s1]|e1] eqn:Eu; [by destruct (write_relations _ _ _ _)|]. injection Hw as ->.
  revert Eu. unfold upsertMessage. cbv zeta. set (m2 := set_raw _ _). clearbody m2.
  assert (Hwrite : ∀ s2, match (if (r_DeletedAt m2 =? "")%string then tokenizeLexical (r_NormalizedContent m2) else inl ∅) with
                         | inr e => inr e | inl tokenized => inl (true, write_message now m2 (mm_Options m1) tokenized s2) end = inr e → ∃ text, tokenizeLexical text = inr e).
  { intros s2. destruct (_ =? "")%string; [|done]. destruct (tokenizeLexical _) eqn:Et; [done|]. intros [= <-]. eauto. }
  destruct (ms_rows _ !! _) as [st1|]; [|apply Hwrite]. destruct (negb (messageContentChanged _ _)); [|apply Hwrite].
  unfold refreshUnchanged. destruct (negb _); [done|]. unfold refresh_search.
  repeat (case_match; try done); intros; simplify_eq; eauto.
Qed.

(** The channel of the message that was fetched is the failure's. *)
Definition of_failure (m : Message) : Prop :=
  m_ID m = MessageID (Ref f) ∧ m_ChannelID m = ChannelID (Ref f) ∧ m_GuildID m = GuildID (Ref f).

Lemma refused_write mu m now cs st e started :
  of_failure m → mu_message mu = m → mu_guild mu = effectiveMessageGuildID m (GuildID (Ref f)) →
  write_mutation now cs (tail_mutation cfg mu "snapshot" started true) st = inr e → is_scope e = true →
  (∃ guild, TrimSpace guild = TrimSpace (GuildID (Ref f)) ∧ is_Some (requireMessageScope cs (ChannelID (Ref f)) guild (scopePolicy cfg))) ∨ reported_by_library e.
Proof.
  intros (_ & Hc & Hg) Hm Hmg Hw He. destruct (write_refused _ _ _ _ _ Hw He) as [Hr|Ht]; [left|right; right; right; exact Ht].
  cbn in Hr. rewrite record_channel, record_guild, Hm, Hc, Hmg in Hr. eexists. split; [|exact Hr].
  unfold effectiveMessageGuildID. rewrite Hg. destruct (String.eqb_spec (TrimSpace (GuildID (Ref f))) ""%string) as [E|]; cbn; [by rewrite E|done].
Qed.

Abbreviation stored_row w := (is_Some (ms_rows (tables w) !! MessageID (Ref f))).
#[local] Hint Resolve interrupted_justified : core.

Lemma built_mutation m cn g b : hoare (λ _, True) (buildMessageMutation (T := tail_tables) m cn g b)
  (λ r _, match r with inl mu => mu_message mu = m ∧ mu_guild mu = effectiveMessageGuildID m g | inr e => ∃ n, extract_outcome n m = Some e end).
Proof.
  eapply (hoare_bind _ _ _ (λ e _, ∃ n, e = extract_outcome n m)); [intros w a w' _ [= <- <-]; eauto|].
  intros [e|]; apply hoare_ret; [intros w [n ->]; eauto|done].
Qed.

(** A scope error of the mutation or of the write ends the candidate. *)
Lemma scope_error_justified reason e P :
  is_scope e = true → (∀ w, P w → out_of_scope w) → hoare P (resolve_candidate f reason OutOfScope) justified.
Proof. intros He HP. eapply hoare_conseq; [apply out_of_scope_justified|exact HP|done]. Qed.

Lemma write_event_outcome mu m started :
  of_failure m → mu_message mu = m → mu_guild mu = effectiveMessageGuildID m (GuildID (Ref f)) →
  hoare (λ _, True) (write_event cfg mu "snapshot" started true)
    (λ e w, match e with None => stored_row w | Some e => is_scope e = true → out_of_scope w end).
Proof.
  intros Hf Hm Hg. apply hoare_wp. intros w _. assert (Hlib : ∀ e (w : tail_world), store_fails e → is_scope e = true → out_of_scope w).
  { intros e w1 Hs He. right. right. right. exists e. split; [done|by left]. }
  apply wp_write; [intros e Hs; by apply Hlib|]. intros now e w'. destruct (upsertMessages _ _ _ _) as [e1 s1] eqn:E. intros [= <- <-].
  split; [|intros e Hs; by apply Hlib]. apply upsert_one in E as [[-> Hw]|(er & -> & _ & Hw)].
  - apply mutation_evidence in Hw as (_ & _ & _ & Hr). cbn in Hr. destruct Hf as [Hid _]. by rewrite record_id, Hm, Hid in Hr.
  - intros He. destruct (refused_write _ _ _ _ _ _ _ Hf Hm Hg Hw He) as [Hr|Hr]; right; right; [by left|right; eauto].
Qed.

Lemma replay_write_justified m started :
  of_failure m → tailMessageReplayEventKind f ≠ Some "delete"%string → hoare (λ _, True) (replay_write cfg advanceCursor f m started) justified.
Proof.
  intros Hf Hkind. eapply hoare_bind; [apply built_mutation|]. intros [mu|e].
  2:{ destruct (is_scope e) eqn:He; [|auto]. apply (scope_error_justified _ e); [done|]. intros w [n Hn]. right. right. right. exists e. split; [done|]. right. left. eauto. }
  apply (hoare_conseq _ (λ w, (mu_message mu = m ∧ mu_guild mu = effectiveMessageGuildID m (GuildID (Ref f))) ∧ True) _ justified); [|auto|auto].
  apply hoare_pre_pure. intros [Hm Hg]. eapply hoare_bind; [by eapply write_event_outcome|].
  intros [e|].
  - eapply (hoare_bind _ _ _ (λ _ w, is_scope e = true → out_of_scope w)); [intros w a w' Hw [= <- <-]; exact Hw|]. intros [?|]; [by apply hoare_ret|].
    destruct (is_scope e) eqn:He; [apply (scope_error_justified _ e); auto|]. apply keep_pending_justified. by left.
  - eapply (hoare_bind _ _ _ (λ _ w, stored_row w)).
    { destruct advanceCursor; [|apply hoare_ret; auto].
      eapply hoare_conseq; [apply (sync_keeps_tables (λ t, is_Some (ms_rows (tt_messages t) !! MessageID (Ref f))))|intros w Hw; by apply Hw|intros a w Hw; exact Hw]. }
    intros [e|]; [auto|]. eapply (hoare_bind _ _ _ (λ _ w, stored_row w)); [by apply hoare_tick|]. intros [e|]; [by apply hoare_ret|].
    apply settle_justified. intros w w' Hw Ht _ Hs. split; [done|]. rewrite bool_decide_eq_false_2 by done. by rewrite Ht.
Qed.

Lemma validated_message g : GuildID (Ref f) ≠ ""%string → validateTailMessageReplay f (Some g) = None →
  let m := g_message g in of_failure (mkMessage (m_ID m) (m_ChannelID m) (or_else (m_GuildID m) (GuildID (Ref f))) (m_Timestamp m) (m_payload m)).
Proof.
  unfold validateTailMessageReplay. cbv zeta. intros Hg. set (m := g_message g). destruct (m_ID m =? "")%string; [done|].
  destruct (String.eqb_spec (m_ID m) (MessageID (Ref f))); [|done]. cbn [negb]. destruct (m_ChannelID m =? "")%string; [done|].
  destruct (String.eqb_spec (m_ChannelID m) (ChannelID (Ref f))); [|done]. cbn [negb].
  destruct (negb (m_GuildID m =? "")%string && _ && _) eqn:E; [done|]. intros _. split_and!; [done..|]. cbn. unfold or_else.
  destruct (String.eqb_spec (m_GuildID m) ""); [done|]. apply String.eqb_neq in Hg. rewrite Hg in E. cbn in E. by propify.
Qed.

Lemma replay_fetch_justified :
  GuildID (Ref f) ≠ ""%string → tailMessageReplayEventKind f ≠ Some "delete"%string → hoare (λ _, True) (replay_fetch cfg advanceCursor f) justified.
Proof.
  intros Hg Hkind. unfold replay_fetch. destruct (negb _); [apply keep_pending_justified; by left|].
  apply (hoare_bind _ _ _ (λ _ _, True)); [done|]. intros started.
  eapply (hoare_bind _ _ _ (λ r _, ∃ n, r = ChannelMessage n (ChannelID (Ref f)) (MessageID (Ref f)))); [intros w a w' _ [= <- <-]; eauto|].
  intros fetched. apply (hoare_bind _ _ _ (λ _ _, ∃ n, fetched = ChannelMessage n (ChannelID (Ref f)) (MessageID (Ref f)))); [intros w a w' Hw _; exact Hw|].
  intros [e|]; [by apply hoare_ret|]. destruct fetched as [g|e].
  - destruct (validateTailMessageReplay f g) eqn:E; [apply keep_pending_justified; by left|].
    destruct g as [g|]; [|apply keep_pending_justified; by left].
    eapply hoare_conseq; [apply replay_write_justified; [by apply validated_message|done]|done|auto].
  - destruct (provider_says_missing e) eqn:E; [|apply keep_pending_justified; by left].
    apply settle_justified. intros w w' [n Hn] _ _ Hs. split; [done|]. by exists n, e.
Qed.

Lemma replay_admission_justified : hoare (λ _, True) (replay_admission cfg f) (λ r w, ∀ r', r = Some r' → ∀ o, r' = inl o → evidence o w).
Proof.
  assert (Hlift : ∀ P (m : M (replayed + err)), hoare P m justified →
            hoare P (let! r := m in ret (Some r)) (λ r w, ∀ r', r = Some r' → ∀ o, r' = inl o → evidence o w)).
  { intros P m Hm. eapply hoare_bind; [exact Hm|]. intros r. apply hoare_ret. intros w Hw r' [= <-]. exact Hw. }
  unfold replay_admission. destruct (configured _) eqn:Hc.
  - eapply hoare_bind; [by apply allow_refuses|]. intros [[|]|e]; [by apply hoare_ret| |].
    + apply Hlift, (scope_error_justified _ ECollectionScope); [done|]. intros w Hw. left. split; [done|]. by apply Hw.
    + apply Hlift, keep_pending_justified. by right.
  - eapply (hoare_bind _ _ _ (λ r w, match r with inl b => ChannelCollectionAdmitted (w_channels w) (ChannelID (Ref f)) "" = b | inr e => store_fails e end)).
    { apply hoare_wp. intros w _. by apply wp_read. }
    intros [[|]|e]; [by apply hoare_ret| |].
    + apply Hlift, (scope_error_justified _ ECollectionScope); [done|]. intros w Hw. right. by left.
    + destruct (is_scope e) eqn:He; [|apply hoare_ret; intros w _ r' [= <-]; done]. apply Hlift, (scope_error_justified _ e); [done|].
      intros w Hw. right. right. right. exists e. split; [done|by left].
Qed.

Lemma replay_delete_justified : tailMessageReplayEventKind f = Some "delete"%string →
  hoare (λ _, True) (replayTailMessageDelete f) (λ e w, e = None → evidence Recovered w).
Proof.
  intros Hkind. unfold replayTailMessageDelete. set (dead w := ∀ st, ms_rows (tables w) !! MessageID (Ref f) = Some st → s_deleted st ≠ ""%string).
  eapply (hoare_bind _ _ _ (λ e w, e = None → dead w)).
  { apply hoare_store_write; [done| |done]. intros now w e w' _. destruct (markMessageDeleted _ _ _ _ _ _ _) as [e1 s1] eqn:E. intros [= <- <-]. split; [done|].
    intros ->. exact (deleted_row _ _ _ _ _ _ _ _ E). }
  intros [e|]; [by apply hoare_ret|]. apply hoare_wp. intros w Hw. apply wp_write; [done|]. intros now e w'. unfold on_ledger, ResolveFailureGeneration.
  destruct (_ =? _)%string; [by intros [= <- <-]|]. destruct (_ =? 0); intros [= <- <-]; (split; [|done]); intros Hn; [done|].
  split; [|rewrite bool_decide_eq_true_2 by done; by apply Hw]. cbn. intros g (g0 & -> & _)%elem_of_update Hid Hrc. destruct (_ && unresolved g0) eqn:E; [done|].
  by rewrite Hid, Hrc, !Z.eqb_refl in E.
Qed.

Lemma replay_one_justified : hoare (λ _, True) (replay_one cfg advanceCursor f) justified.
Proof.
  unfold replay_one. destruct (tailMessageReplayEventKind f) as [kind|] eqn:Hkind; [|apply keep_pending_justified; by right].
  destruct (_ || _ || _) eqn:Hid; [apply keep_pending_justified; by left|]. destruct (String.eqb_spec kind "delete") as [->|Hne].
  - eapply hoare_bind; [by apply replay_delete_justified|]. intros [e|]; [auto|]. apply hoare_ret. intros w Hw o [= <-]. by apply Hw.
  - eapply hoare_bind; [apply replay_admission_justified|]. intros [r|]; [apply hoare_ret; intros w Hw; by apply Hw|].
    eapply hoare_conseq; [apply replay_fetch_justified; [by propify|congruence]|done|auto].
Qed.
End Replayed.

(** C31: when [RecordTailFailure] reports a message event's failure as recorded,
    the failure is durable, under every fault schedule: the ledger has a pending
    row for that event and message, or the journal directory has one file more,
    under a name that was free, which reads back as that event. *)
Theorem recorded_failures_are_durable `{Env} `{TailEnv} `{ErrorReport} `{jl : JournalTextLaws} f kind w w' :
  normalizeTailMessageEventKind (tf_EventType f) = Some kind →
  valid_text (TrimSpace (tf_GuildID f)) → valid_text (TrimSpace (tf_ChannelID f)) → valid_text (TrimSpace (tf_MessageID f)) →
  (∀ n, Forall (λ d, match d with Drawn id _ => validLowerHex id occurrenceBytes = true | DrawFails => True end) (di_draws (dir_at n))) →
  RecordTailFailure f w = Some (None, w') →
  pending_event kind (tf_GuildID f) (tf_ChannelID f) (tf_MessageID f) (w_ledger w')
  ∨ journalled_event kind (tf_GuildID f) (tf_ChannelID f) (tf_MessageID f) (tt_files (w_messages w)) (tt_files (w_messages w')).
Proof. intros Hkind Hg Hc Hm Hdraws Hrun. by eapply recorded_durably. Qed.

(** C9: the replay settles a failure only on evidence, under every fault
    schedule. A recovered failure's message is stored, or for a delete its row
    is a tombstone or absent; an unavailable one's message was denied by the
    provider with 404 and code 10003 or 10008; and for a failure settled as out
    of scope the channel is outside the collection: excluded by the configured
    policy, or without one below a tombstone, or refused by the check of the
    write itself (or a library reported the error of that check). In the three
    cases the generation that was read is no longer pending. A deferred failure
    is still pending. *)
Theorem replay_outcomes_have_evidence `{Env} `{TailEnv} `{ErrorReport} `{ChannelJSON} `{TimeParse} `{RawPayloads} `{Lexical} `{MutationRecords} `{JSONText} `{JournalText}
    (Hrecords : MutationRecordsLaws) cfg advanceCursor f o w w' :
  replay_one cfg advanceCursor f w = Some (inl o, w') → evidence cfg f o w'.
Proof. intros Hrun. by apply (replay_one_justified Hrecords cfg advanceCursor f w (inl o) w' I). Qed.

(** ** Accounting *)

Definition counted (s : replay_stats) : nat := rp_OutOfScope s + rp_Unavailable s + rp_Recovered s + rp_Deferred s + rp_PolicyDeferred s.

Lemma replay_all_counts `{Env} `{TailEnv} `{ErrorReport} `{ChannelJSON} `{TimeParse} `{RawPayloads} `{Lexical} `{MutationRecords} `{JSONText} `{JournalText}
    cfg advanceCursor fs stats w stats' e w' :
  replay_all cfg advanceCursor fs stats w = Some ((stats', e), w') →
  (rp_Candidates stats' = rp_Candidates stats ∧ counted stats' ≤ counted stats + length fs ∧ (e = None → counted stats' = counted stats + length fs))%nat.
Proof.
  revert stats w. induction fs as [|f fs IH]; intros stats w; cbn [replay_all].
  { intros [= <- <- <-]. cbn. split_and!; lia. }
  intros (done & w1 & _ & Hrun)%bind_run. destruct done; [injection Hrun as <- <- <-; cbn; split_and!; [done|lia|done]|].
  apply bind_run in Hrun as (r & w2 & _ & Hrun). destruct r as [o|e']; [|injection Hrun as <- <- <-; cbn; split_and!; [done|lia|done]].
  apply IH in Hrun as (Hc & Hle & Heq). assert (counted (count o stats) = S (counted stats)) as Ho by (destruct o; unfold counted; cbn; lia).
  rewrite Ho in Hle, Heq. split_and!; [rewrite Hc; by destruct o|cbn; lia|intros He; cbn; specialize (Heq He); lia].
Qed.

(** a replay run takes at most [limit] failures, at most 25, and accounts
    for each of them: the five outcomes add up to the candidates, or to at most
    that number when the run ends with an error. *)
Theorem replay_accounts_for_candidates `{Env} `{TailEnv} `{ErrorReport} `{ChannelJSON} `{TimeParse} `{RawPayloads} `{Lexical} `{MutationRecords} `{JSONText} `{JournalText}
    cfg guildIDs limit w stats e w' :
  ReplayTailMessageFailures cfg guildIDs limit w = Some ((stats, e), w') →
  (counted stats ≤ rp_Candidates stats)%nat ∧ (e = None → counted stats = rp_Candidates stats)
  ∧ Z.of_nat (rp_Candidates stats) <= Z.max 0 limit ∧ (rp_Candidates stats ≤ 25)%nat.
Proof.
  unfold ReplayTailMessageFailures. destruct (_ || _) eqn:Elim; [intros [= <- _ _]; cbn; lia|]. apply orb_false_iff in Elim as [Elo Ehi].
  apply Z.leb_gt in Elo. apply Z.ltb_ge in Ehi. unfold TailMessageReplayLimit in Ehi. unfold replayTailMessages. intros (done & w1 & _ & Hrun)%bind_run.
  destruct done; [injection Hrun as <- _ _; cbn; lia|]. apply bind_run in Hrun as (r & w2 & Hq & Hrun).
  destruct r as [fs|er]; [|injection Hrun as <- _ _; cbn; lia].
  assert (Hlen : Z.of_nat (length fs) <= limit).
  { revert Hq. unfold store_query. cbv zeta. destruct (outcome_at _); [|by intros [=]..]. intros [= Hq _].
    unfold ListFailureReplayCandidatesMatchingRelatedIDs in Hq. destruct (negb _); [done|]. destruct (FailureLedger.distinct_ids _ _); [done|].
    unfold listFailureReplayCandidates in Hq. cbv zeta in Hq. destruct (ref_required _); [done|]. rewrite (proj2 (Z.leb_gt _ _) Elo) in Hq.
    destruct (_ <? _); [done|]. injection Hq as <-. rewrite length_take. lia. }
  apply bind_run in Hrun as (_ & w3 & _ & Hrun). apply bind_run in Hrun as (seeded & w4 & _ & Hrun). destruct seeded; [injection Hrun as <- <- _; split_and!; [cbn; lia|done|cbn; lia|cbn; lia]|].
  apply replay_all_counts in Hrun as (Hc & Hle & Heq). cbn in Hc. rewrite Hc. unfold counted in *. cbn in Hle, Heq |- *. split_and!; [lia|exact Heq|lia|lia].
Qed.

(** ** Witnesses *)

Section witnesses.
#[local] Existing Instances parse_written plain_report BitText.bit_text BitText.bit_text_laws.
#[local] Instance plain_message_payloads : RawPayloads :=
  { canonicalizeMessage i _ := i; sameCanonicalMessage := String.eqb; sameMessageTextShape := String.eqb;
    project_text raw _ := Some (raw, "[]"%string) }.
#[local] Instance no_lexicon : Lexical := { lexicalLanguages := []; Tokenize _ t := inl t }.
#[local] Existing Instances plain_records no_json.
#[local] Instance plain_fields : ChannelJSON := λ _, "{}"%string.

(** The provider knows message 30 of channel 7 and answers 404 otherwise; every
    store write of step 2 fails. *)
Definition known_message : Message := mkMessage "30" "7" "9" 4 "hello".
#[local] Instance tail_env : TailEnv := {
  ChannelMessage _ ch id := if (id =? "30")%string then inl (Some (mkGateway known_message true false)) else inr (ERest (Some 404) (Some 10008) "HTTP 404");
  dir_at _ := sample_draws; dir_keeps _ _ := false; dir_syncs _ := true; guild_payload _ := None; policy_digest _ := ""%string }.
#[local] Instance served_env : Env := calm_env [] (λ n, if (n =? 90)%nat then FailBefore (EText "disk is full") else Done).

Definition open_config : tail_config := mkTailConfig ∅ true false false (newChannelScope [] [] []).
Definition empty_tail : tail_tables := mkTail empty_mstate (mkEntities ∅ ∅ ∅ ∅ empty_receipts) ∅ ∅.
Definition tail_start (l : ledger) : tail_world := mkWorld ∅ ∅ empty_tail l 0.
Definition after_event {A} (r : option (A * tail_world)) (w : tail_world) : tail_world := match r with Some (_, w') => w' | None => w end.

Definition partial_update : message_event := Update (Some (mkGateway (mkMessage "30" "7" "" 0 "") false true)).

Lemma archived_events_are_stored_witness :
  ∃ m m', event_message partial_update = Some m ∧ names_same m m'
    ∧ accounted "update" (m_GuildID m') m' (after_event (handle open_config partial_update (tail_start empty_ledger)) (tail_start empty_ledger)).
Proof.
  apply (archived_events_are_stored ltac:(by split) open_config partial_update (tail_start empty_ledger)). vm_compute. reflexivity.
Defined.

Definition closed_config : tail_config := mkTailConfig {["5"%string]} true false false (newChannelScope [] [] []).

Lemma ignored_events_change_nothing_witness :
  let w' := after_event (handle closed_config (Create (Some known_message)) (tail_start empty_ledger)) (tail_start empty_ledger) in
  tt_messages (w_messages w') = empty_mstate ∧ w_sync w' = ∅.
Proof.
  apply (ignored_events_change_nothing (H := served_env) ltac:(intros e [n Hn]; cbn in Hn; destruct (n =? 90)%nat; destruct Hn as [Hn|Hn]; try discriminate; by injection Hn as <-)
           closed_config (Create (Some known_message)) "guild_scope" (tail_start empty_ledger)). vm_compute. reflexivity.
Defined.

Definition failed_update : tail_failure := mkTailFailure "MESSAGE_UPDATE" "panic" "" "9" "7" "30" "" None true.

Lemma recorded_failures_are_durable_witness :
  let w' := after_event (RecordTailFailure failed_update (tail_start empty_ledger)) (tail_start empty_ledger) in
  pending_event "update" "9" "7" "30" (w_ledger w') ∨ journalled_event "update" "9" "7" "30" ∅ (tt_files (w_messages w')).
Proof.
  apply (recorded_failures_are_durable failed_update "update" (tail_start empty_ledger)); [vm_compute; reflexivity|exact I..| |vm_compute; reflexivity].
  intros n. apply Forall_singleton. vm_compute. reflexivity.
Defined.

Definition pending_update (id : string) : Failure := mkFailure 1 (tailMessageFailureIdentity "9" "7" id "update") "class" "text" 1 1 0 None "".
Definition pending_world (id : string) : tail_world := tail_start (mkLedger [pending_update id] 1).

(** The channel 7 is excluded by its id, or it is a tombstone. *)
Definition excluding_config : tail_config := mkTailConfig ∅ true false false (newChannelScope ["7"%string] [] []).
Definition buried_world (id : string) : tail_world :=
  mkWorld ∅ {["7"%string := ChannelRow "9" None "text" (Some 1) None "allowed" "" 1]} empty_tail (mkLedger [pending_update id] 1) 0.

Lemma replay_outcomes_have_evidence_witness :
  evidence open_config (pending_update "30") Recovered (after_event (replay_one open_config true (pending_update "30") (pending_world "30")) (pending_world "30"))
  ∧ evidence open_config (pending_update "31") Unavailable (after_event (replay_one open_config true (pending_update "31") (pending_world "31")) (pending_world "31"))
  ∧ evidence excluding_config (pending_update "30") OutOfScope (after_event (replay_one excluding_config true (pending_update "30") (pending_world "30")) (pending_world "30"))
  ∧ evidence open_config (pending_update "30") OutOfScope (after_event (replay_one open_config true (pending_update "30") (buried_world "30")) (buried_world "30")).
Proof.
  split_and!.
  - apply (replay_outcomes_have_evidence ltac:(by split) open_config true (pending_update "30") Recovered (pending_world "30")). vm_compute. reflexivity.
  - apply (replay_outcomes_have_evidence ltac:(by split) open_config true (pending_update "31") Unavailable (pending_world "31")). vm_compute. reflexivity.
  - apply (replay_outcomes_have_evidence ltac:(by split) excluding_config true (pending_update "30") OutOfScope (pending_world "30")). vm_compute. reflexivity.
  - apply (replay_outcomes_have_evidence ltac:(by split) open_config true (pending_update "30") OutOfScope (buried_world "30")). vm_compute. reflexivity.
Defined.

Definition replay_run : option ((replay_stats * option err) * tail_world) := ReplayTailMessageFailures open_config ["9"]%string 25 (pending_world "30").

Lemma replay_accounts_for_candidates_witness :
  ∃ stats e w', replay_run = Some ((stats, e), w') ∧ rp_Recovered stats = 1%nat ∧ (counted stats ≤ rp_Candidates stats)%nat.
Proof.
  destruct replay_run as [[[stats e] w']|] eqn:E; [|vm_compute in E; discriminate].
  exists stats, e, w'. split; [reflexivity|]. split.
  - apply (f_equal (option_map (λ r, rp_Recovered (fst (fst r))))) in E. vm_compute in E. injection E as E. exact (eq_sym E).
  - apply (replay_accounts_for_candidates open_config ["9"]%string 25 (pending_world "30") stats e w' E).
Defined.
End witnesses.
