(* ===== verification/ChangeFeed.v ===== *)
(** * The source change feed

    internal/store/change_feed.go: the log of changed rows that a reader copies
    instead of whole tables. Triggers of SQLite append one entry per changed
    row in the writer's transaction; a table whose history the log cannot
    express starts a new generation; compaction removes a prefix. A transaction
    that fails leaves the database as it was, so an operation that fails
    returns only its error. *)
From S2P Require Import Prelude Errors SyncState.
Local Open Scope Z_scope.

Definition ChangeFeedContractVersion : Z := 1.
Definition ChangeFeedLatestContractVersion : Z := 2.
Definition ChangeFeedRetention : Z := 7 * 24 * 3600 * 1000000000.
Definition changeFeedCompactionBatch : nat := Z.to_nat 5000.

Definition ChangeOpInsert : string := "i".
Definition ChangeOpUpdate : string := "u".
Definition ChangeOpDelete : string := "d".

Definition changeFeedV1Tables : list string :=
  ["message_attachments"; "mention_events"; "message_embedding_history"; "attachment_text_history"]%string.
Definition changeFeedV2Tables : list string :=
  ["guilds"; "channels"; "members"; "messages"; "entity_metrics"; "entity_evidence"; "entity_observations"; "entity_check_history";
   "mention_event_history"; "mention_event_id_map"]%string.
Definition changeFeedTables : list string := changeFeedV1Tables ++ changeFeedV2Tables.
Definition changeFeedContracts : list (Z * list string) := [(1, changeFeedV1Tables); (2, changeFeedTables)].
Definition changeFeedTableContract (table : string) : Z := if bool_decide (table ∈ changeFeedV1Tables) then 1 else 2.

(** ** Texts *)

Definition dquote : string := String "034" EmptyString.
Fixpoint join (sep : string) (l : list string) : string :=
  match l with
  | [] => ""
  | [s] => s
  | s :: l => s ++ sep ++ join sep l
  end.

(** [json.Marshal] of a list of identifiers: none of them needs an escape. *)
Definition changeFeedContractsJSON (version : Z) : string :=
  match list_find (λ p, p.1 = version) changeFeedContracts with
  | Some (_, (_, tables)) => "[" ++ join "," (map (λ t, dquote ++ t ++ dquote) tables) ++ "]"
  | None => "null"
  end%string.

(** [strings.ReplaceAll] of a quote by two. *)
Fixpoint double_quotes (s : string) : string :=
  match s with
  | EmptyString => EmptyString
  | String c s => if Ascii.eqb c "034" then String c (String c (double_quotes s)) else String c (double_quotes s)
  end.
Definition quoteIdent (name : string) : string := (dquote ++ double_quotes name ++ dquote)%string.

Record changeFeedColumn := mkColumn { col_name : string; col_pk : Z }.
#[export] Instance changeFeedColumn_eq_dec : EqDecision changeFeedColumn.
Proof. solve_decision. Defined.

Definition pk_le (a b : changeFeedColumn * nat) : Prop := col_pk a.1 <= col_pk b.1.
#[export] Instance pk_le_dec : RelDecision pk_le.
Proof. intros a b. unfold pk_le. apply _. Defined.

(** The columns of the primary key, in its order, with their positions. *)
Definition key_columns (columns : list changeFeedColumn) : list (changeFeedColumn * nat) :=
  merge_sort pk_le (List.filter (λ p, 0 <? col_pk p.1) (zip columns (seq 0 (length columns)))).

Definition trigger_name (table suffix : string) : string := ("change_feed_" ++ table ++ "_" ++ suffix)%string.
Definition trigger_now : string := "cast(round((julianday('now')-2440587.5)*86400000.0) as integer)".
Definition key_part (alias name : string) : string :=
  let ref := (alias ++ "." ++ quoteIdent name)%string in
  ("case typeof(" ++ ref ++ ") when 'blob' then json_object('blob_hex',hex(" ++ ref ++ ")) else " ++ ref ++ " end")%string.
Definition key_expr (columns : list changeFeedColumn) (alias : string) : string :=
  ("json_array(" ++ join "," (map (λ p, key_part alias (col_name p.1)) (key_columns columns)) ++ ")")%string.
Definition is_not (name : string) : string := ("old." ++ quoteIdent name ++ " is not new." ++ quoteIdent name)%string.
Definition entry_sql (table : string) (columns : list changeFeedColumn) (op alias : string) : string :=
  ("insert into change_log(table_name,op,row_key,recorded_at_ms) values('" ++ table ++ "','" ++ op ++ "'," ++ key_expr columns alias ++ "," ++ trigger_now ++ ");")%string.

(** The triggers of a table by their names, in the order of the names. *)
Definition changeFeedTriggerSQL (table : string) (columns : list changeFeedColumn) : list (string * string) :=
  let head suffix := ("CREATE TRIGGER " ++ quoteIdent (trigger_name table suffix))%string in
  [(trigger_name table "ad", head "ad" ++ " after delete on " ++ quoteIdent table ++ " begin " ++ entry_sql table columns ChangeOpDelete "old" ++ " end");
   (trigger_name table "ai", head "ai" ++ " after insert on " ++ quoteIdent table ++ " begin " ++ entry_sql table columns ChangeOpInsert "new" ++ " end");
   (trigger_name table "au", head "au" ++ " after update on " ++ quoteIdent table ++ " when " ++ join " or " (map (λ c, is_not (col_name c)) columns) ++ " begin "
      ++ "insert into change_log(table_name,op,row_key,recorded_at_ms) select '" ++ table ++ "','" ++ ChangeOpDelete ++ "'," ++ key_expr columns "old" ++ "," ++ trigger_now
      ++ " where " ++ join " or " (map (λ p, is_not (col_name p.1)) (key_columns columns)) ++ "; " ++ entry_sql table columns ChangeOpUpdate "new" ++ " end")]%string.

(** ** The database *)

(** A column's value; a blob is told apart from a text in keys. *)
Inductive value := Plain (s : string) | Blob (hex : string).
#[export] Instance value_eq_dec : EqDecision value.
Proof. solve_decision. Defined.
#[export] Instance value_countable : Countable value.
Proof.
  apply (inj_countable' (λ v, match v with Plain s => (true, s) | Blob s => (false, s) end) (λ p, if p.1 then Plain p.2 else Blob p.2)). by intros [].
Defined.

Abbreviation row_key := (list value).
Abbreviation row := (list value).

(** What identifies an entry: [json_array(table_name,op,row_key,recorded_at_ms)]. *)
Abbreviation digest := (string * string * row_key * Z)%type.

Record log_entry := mkEntry { e_seq : Z; e_table : string; e_op : string; e_key : row_key; e_at : Z }.
Definition digest_of (e : log_entry) : digest := (e_table e, e_op e, e_key e, e_at e).

(** change_feed_tables, change_feed_meta, change_feed_contracts. *)
Record feed_table := mkFeedTable {
  ft_generation : Z; ft_id : string; ft_seq : Z; ft_reason : string; ft_schema : string; ft_contract : Z; ft_updated : Z }.
Record feed_meta := mkMeta { fm_contract : Z; fm_through : Z; fm_entry : option digest; fm_at : option Z; fm_retention : Z }.

(** The native tables and the objects of the feed: a table that is not in the
    schema is [None]; [db_meta] is [Some None] when the table lacks its row.
    [db_sequence] is change_log's row of sqlite_sequence, [db_draws] counts the
    ids drawn from the random source. *)
Record feed_db := mkDB {
  db_schema : gmap string (string * list changeFeedColumn);
  db_rows : gmap string (gmap row_key row);
  db_log : option (list log_entry);
  db_sequence : option Z;
  db_tables : option (gmap string feed_table);
  db_meta : option (option feed_meta);
  db_contracts : option (gmap Z string);
  db_triggers : gmap string (string * string);
  db_draws : nat }.

Definition with_rows (r : gmap string (gmap row_key row)) (s : feed_db) : feed_db :=
  mkDB (db_schema s) r (db_log s) (db_sequence s) (db_tables s) (db_meta s) (db_contracts s) (db_triggers s) (db_draws s).
Definition with_log (l : option (list log_entry)) (q : option Z) (s : feed_db) : feed_db :=
  mkDB (db_schema s) (db_rows s) l q (db_tables s) (db_meta s) (db_contracts s) (db_triggers s) (db_draws s).
Definition with_tables (t : option (gmap string feed_table)) (draws : nat) (s : feed_db) : feed_db :=
  mkDB (db_schema s) (db_rows s) (db_log s) (db_sequence s) t (db_meta s) (db_contracts s) (db_triggers s) draws.
Definition with_meta (m : option (option feed_meta)) (s : feed_db) : feed_db :=
  mkDB (db_schema s) (db_rows s) (db_log s) (db_sequence s) (db_tables s) m (db_contracts s) (db_triggers s) (db_draws s).
Definition with_contracts (c : option (gmap Z string)) (s : feed_db) : feed_db :=
  mkDB (db_schema s) (db_rows s) (db_log s) (db_sequence s) (db_tables s) (db_meta s) c (db_triggers s) (db_draws s).
Definition with_triggers (t : gmap string (string * string)) (s : feed_db) : feed_db :=
  mkDB (db_schema s) (db_rows s) (db_log s) (db_sequence s) (db_tables s) (db_meta s) (db_contracts s) t (db_draws s).

Definition log_of (s : feed_db) : list log_entry := default [] (db_log s).
Definition tables_of (s : feed_db) : gmap string feed_table := default ∅ (db_tables s).
Definition meta_of (s : feed_db) : option feed_meta := mjoin (db_meta s).
Definition rows_of (table : string) (s : feed_db) : gmap row_key row := default ∅ (db_rows s !! table).
Definition through_of (s : feed_db) : Z := match meta_of s with Some m => fm_through m | None => 0 end.

Definition max_seq (l : list log_entry) : Z := foldr (λ e m, Z.max (e_seq e) m) 0 l.

(** [changeFeedHead]. *)
Definition changeFeedHead (s : feed_db) : Z := Z.max (default 0 (db_sequence s)) (Z.max (max_seq (log_of s)) (through_of s)).

(** ** Native writes *)

Definition key_of (columns : list changeFeedColumn) (r : row) : row_key := omap (λ p, r !! p.2) (key_columns columns).

Definition installed (table suffix : string) (s : feed_db) : bool :=
  match db_schema s !! table with
  | Some (_, columns) =>
      existsb (λ p, (p.1 =? trigger_name table suffix)%string && bool_decide (db_triggers s !! p.1 = Some (table, p.2))) (changeFeedTriggerSQL table columns)
  | None => false
  end.

(** [insert into change_log]; AUTOINCREMENT numbers above everything it has
    allocated. Without the table the statement fails. *)
Definition append (at_ms : Z) (table op : string) (key : row_key) (s : feed_db) : option feed_db :=
  match db_log s with
  | None => None
  | Some l => let seq := Z.max (default 0 (db_sequence s)) (max_seq l) + 1 in Some (with_log (Some (l ++ [mkEntry seq table op key at_ms])) (Some seq) s)
  end.

Definition fires (b : bool) (f : feed_db → option feed_db) (s : feed_db) : option feed_db := if b then f s else Some s.

Definition put_rows (table : string) (r : gmap row_key row) (s : feed_db) : feed_db := with_rows (<[table := r]> (db_rows s)) s.

Inductive native_write :=
  | WInsert (r : row)                  (** [insert]; a conflict fails *)
  | WIgnore (r : row)                  (** [insert or ignore] *)
  | WReplace (r : row)                 (** [insert or replace]: the replaced row fires no delete trigger *)
  | WUpdate (key : row_key) (r : row)
  | WDelete (key : row_key).

(** A statement and its triggers, in the writer's transaction. *)
Definition apply_write (at_ms : Z) (table : string) (w : native_write) (s : feed_db) : option feed_db :=
  match db_schema s !! table with
  | None => None
  | Some (_, columns) =>
      let rows := rows_of table s in
      let insert r := fires (installed table "ai" s) (append at_ms table ChangeOpInsert (key_of columns r)) (put_rows table (<[key_of columns r := r]> rows) s) in
      match w with
      | WInsert r => if bool_decide (is_Some (rows !! key_of columns r)) then None else insert r
      | WIgnore r => if bool_decide (is_Some (rows !! key_of columns r)) then Some s else insert r
      | WReplace r => insert r
      | WUpdate key r =>
          match rows !! key with
          | None => Some s
          | Some old =>
              let key' := key_of columns r in
              if negb (bool_decide (key = key')) && bool_decide (is_Some (rows !! key')) then None
              else
                let au := installed table "au" s && negb (bool_decide (old = r)) in
                s ← fires (au && negb (bool_decide (key = key'))) (append at_ms table ChangeOpDelete key) (put_rows table (<[key' := r]> (delete key rows)) s);
                fires au (append at_ms table ChangeOpUpdate key') s
          end
      | WDelete key =>
          match rows !! key with
          | None => Some s
          | Some _ => fires (installed table "ad" s) (append at_ms table ChangeOpDelete key) (put_rows table (delete key rows) s)
          end
      end
  end.

(** The writes of one transaction. *)
Fixpoint apply_writes (ws : list (Z * string * native_write)) (s : feed_db) : option feed_db :=
  match ws with
  | [] => Some s
  | (at_ms, table, w) :: ws => s ← apply_write at_ms table w s; apply_writes ws s
  end.

(** ** Installing and repairing the feed *)

(** SHA-256 of a table definition, and the random generation ids. *)
Class FeedText := { schema_sha256 : string → string; generation_id : nat → string }.

Section Feed.
Context {ft : FeedText}.

Definition changeFeedExpected (table : string) (s : feed_db) : (string * list (string * string)) + err :=
  match db_schema s !! table with
  | None => inr (EText ("inspect change feed table " ++ table))
  | Some (_, []) => inr (EText ("change feed table " ++ table ++ " has no columns"))
  | Some (ddl, columns) => inl (schema_sha256 ddl, changeFeedTriggerSQL table columns)
  end.

Definition changeFeedTableCurrent (table : string) (s : feed_db) : bool + err :=
  match tables_of s !! table with
  | None => inl false
  | Some t =>
      match changeFeedExpected table s with
      | inr e => inr e
      | inl (sha, triggers) =>
          inl (negb (negb (ft_schema t =? sha)%string || negb (ft_contract t =? changeFeedTableContract table))
               && forallb (λ p, bool_decide (db_triggers s !! p.1 = Some (table, p.2))) triggers)
      end
  end.

Definition changeFeedContractsCurrent (s : feed_db) : bool :=
  match db_contracts s with
  | None => false
  | Some stored => forallb (λ p, bool_decide (stored !! p.1 = Some (changeFeedContractsJSON p.1))) changeFeedContracts
  end.

Definition present (s : feed_db) : bool :=
  match db_log s, db_tables s, db_meta s with Some _, Some _, Some _ => true | _, _, _ => false end.

Fixpoint all_current (tables : list string) (s : feed_db) : bool + err :=
  match tables with
  | [] => inl true
  | table :: tables => match changeFeedTableCurrent table s with inl true => all_current tables s | r => r end
  end.

Definition changeFeedCurrent (s : feed_db) : bool + err :=
  if negb (present s) then inl false
  else match meta_of s with
       | None => inl false
       | Some m =>
           if negb (fm_contract m =? ChangeFeedContractVersion) then inl false
           else if negb (changeFeedContractsCurrent s) then inl false
           else all_current changeFeedTables s
       end.

Definition restoreChangeLogAllocator (s : feed_db) : feed_db :=
  let floor := Z.max (through_of s) (Z.max (map_fold (λ _ t m, Z.max (ft_seq t) m) 0 (tables_of s)) (max_seq (log_of s))) in
  if floor =? 0 then s
  else let q := default 0 (db_sequence s) in with_log (db_log s) (Some (if q <? floor then floor else q)) s.

Definition changeFeedRepairReason (table : string) (s : feed_db) : string + err :=
  match tables_of s !! table with
  | None => inl "enabled"%string
  | Some t =>
      match changeFeedExpected table s with
      | inr e => inr e
      | inl (sha, _) =>
          inl (if negb (ft_contract t =? changeFeedTableContract table) then "contract_upgraded"%string
               else if negb (ft_schema t =? sha)%string then "schema_changed"%string else "triggers_restored"%string)
      end
  end.

Definition installChangeFeedTriggers (table : string) (s : feed_db) : feed_db + err :=
  match changeFeedExpected table s with
  | inr e => inr e
  | inl (_, triggers) => inl (with_triggers (foldr (λ p t, <[p.1 := (table, p.2)]> t) (db_triggers s) triggers) s)
  end.

Definition bumpChangeFeedGeneration (now : Z) (table reason : string) (s : feed_db) : feed_db + err :=
  match changeFeedExpected table s with
  | inr e => inr e
  | inl (sha, _) =>
      let generation := match tables_of s !! table with Some t => ft_generation t + 1 | None => 1 end in
      let t := mkFeedTable generation (generation_id (db_draws s)) (changeFeedHead s) reason sha (changeFeedTableContract table) now in
      inl (with_tables (Some (<[table := t]> (tables_of s))) (S (db_draws s)) s)
  end.

Definition restart (now : Z) (table reason : string) (s : feed_db) : feed_db + err :=
  match installChangeFeedTriggers table s with
  | inr e => inr e
  | inl s => bumpChangeFeedGeneration now table reason s
  end.

Fixpoint ensure_tables (now : Z) (partial : bool) (tables : list string) (s : feed_db) : feed_db + err :=
  match tables with
  | [] => inl s
  | table :: tables =>
      match changeFeedTableCurrent table s with
      | inr e => inr e
      | inl current =>
          if current && negb partial then ensure_tables now partial tables s
          else
            match changeFeedRepairReason table s with
            | inr e => inr e
            | inl reason =>
                let reason := if partial && negb (reason =? "enabled")%string then "feed_restored"%string else reason in
                match restart now table reason s with
                | inr e => inr e
                | inl s => ensure_tables now partial tables s
                end
            end
      end
  end.

(** The tables, the allocator, the meta row and the contracts. *)
Definition ensure_objects (s : feed_db) : feed_db :=
  let s := with_meta (Some (meta_of s)) (with_tables (Some (tables_of s)) (db_draws s) (with_log (Some (log_of s)) (db_sequence s) s)) in
  let s := restoreChangeLogAllocator s in
  let m := match meta_of s with
           | Some m => mkMeta ChangeFeedContractVersion (fm_through m) (fm_entry m) (fm_at m) (ChangeFeedRetention / 1000000000)
           | None => mkMeta ChangeFeedContractVersion 0 None None (ChangeFeedRetention / 1000000000)
           end in
  let s := with_meta (Some (Some m)) s in
  with_contracts (Some (foldr (λ p c, <[p.1 := changeFeedContractsJSON p.1]> c) (default ∅ (db_contracts s)) changeFeedContracts)) s.

(** The head becomes the floor. *)
Definition restore_floor (now : Z) (s : feed_db) : feed_db :=
  let head := changeFeedHead s in
  let s := with_log (Some (List.filter (λ e, negb (e_seq e <=? head)) (log_of s))) (db_sequence s) s in
  match meta_of s with
  | Some m => with_meta (Some (Some (mkMeta (fm_contract m) head None (Some now) (fm_retention m)))) s
  | None => s
  end.

Definition ensureChangeFeedTx (now : Z) (s : feed_db) : feed_db + err :=
  let partial := negb (present s) || bool_decide (meta_of s = None) in
  let s := ensure_objects s in
  let s := if partial then restore_floor now s else s in
  ensure_tables now partial changeFeedTables s.

Definition ensureChangeFeed (now : Z) (s : feed_db) : option err * feed_db :=
  match changeFeedCurrent s with
  | inr e => (Some e, s)
  | inl true => (None, s)
  | inl false => match ensureChangeFeedTx now s with inl s' => (None, s') | inr e => (Some e, s) end
  end.

(** ** Replacements *)

Fixpoint restart_tracked (now : Z) (reason : string) (tables : list string) (s : feed_db) : feed_db + err :=
  match tables with
  | [] => inl s
  | table :: tables =>
      if negb (bool_decide (table ∈ changeFeedTables)) then inr (EText ("change feed does not track " ++ table))
      else match restart now table reason s with inr e => inr e | inl s => restart_tracked now reason tables s end
  end.

Definition BumpChangeFeedGenerationTx (now : Z) (reason : string) (tables : list string) (s : feed_db) : feed_db + err :=
  match db_tables s with None => inl s | Some _ => restart_tracked now reason tables s end.

Definition drop_triggers (table : string) (s : feed_db) : feed_db :=
  with_triggers (delete (trigger_name table "ad") (delete (trigger_name table "au") (delete (trigger_name table "ai") (db_triggers s)))) s.

Fixpoint suspend_tracked (tables : list string) (s : feed_db) : feed_db + err :=
  match tables with
  | [] => inl s
  | table :: tables =>
      if negb (bool_decide (table ∈ changeFeedTables)) then inr (EText ("change feed does not track " ++ table))
      else suspend_tracked tables (drop_triggers table s)
  end.

Definition SuspendChangeFeedTx (tables : list string) (s : feed_db) : feed_db + err :=
  match db_tables s with None => inl s | Some _ => suspend_tracked tables s end.

Definition ChangeFeedReplacedTables (tables : list string) : list string := List.filter (λ t, bool_decide (t ∈ changeFeedTables)) tables.

(** The snapshot replacement of internal/share/import.go: the triggers are
    suspended, the tables rewritten, and the generations restarted, in one
    transaction. *)
Definition replace_tables (now : Z) (tables : list string) (writes : list (Z * string * native_write)) (s : feed_db) : option feed_db :=
  match SuspendChangeFeedTx (ChangeFeedReplacedTables tables) s with
  | inr _ => None
  | inl s =>
      s ← apply_writes writes s;
      match BumpChangeFeedGenerationTx now "snapshot_import" (ChangeFeedReplacedTables tables) s with inl s => Some s | inr _ => None end
  end.
End Feed.

(** ** Compaction *)

(** The last sequence of the prefix that was recorded before the cutoff, what
    was scanned, and whether the scan stopped inside the window. *)
Fixpoint compactable_prefix (entries : list log_entry) (cutoff through : Z) (seen : nat) : Z * nat * bool :=
  match entries with
  | [] => (through, seen, false)
  | e :: entries => if cutoff <=? e_at e then (through, S seen, true) else compactable_prefix entries cutoff (e_seq e) (S seen)
  end.

Definition compactableChangePrefix (floor cutoff : Z) (log : list log_entry) : Z * nat * bool :=
  compactable_prefix (take changeFeedCompactionBatch (List.filter (λ e, floor <? e_seq e) log)) cutoff floor 0.

Definition entry_at (seq : Z) (log : list log_entry) : option digest :=
  match list_find (λ e, e_seq e = seq) log with Some (_, e) => Some (digest_of e) | None => None end.

(** One transaction: what it deletes and whether it was the last. *)
Definition compactChangeFeedBatch (cutoff now : Z) (s : feed_db) : (nat * bool * feed_db) + err :=
  match db_meta s, db_log s with
  | Some (Some m), Some log =>
      let floor := fm_through m in
      let '(through, seen, stopped) := compactableChangePrefix floor cutoff log in
      if through =? floor then inl (0%nat, true, s)
      else
        match entry_at through log with
        | None => inr (EText "sql: no rows in result set")
        | Some entry =>
            let removed e := (floor <? e_seq e) && (e_seq e <=? through) in
            inl (length (List.filter removed log), stopped || (seen <? changeFeedCompactionBatch)%nat,
                 with_meta (Some (Some (mkMeta (fm_contract m) through (Some entry) (Some now) (fm_retention m))))
                   (with_log (Some (List.filter (λ e, negb (removed e)) log)) (db_sequence s) s))
        end
  | Some None, _ => inl (0%nat, true, s)
  | _, _ => inr (EText "no such table")
  end.

(** The loop over the batches; [fails] says before which batch the context has
    ended or at which the transaction fails. *)
Fixpoint compact_loop (fuel : nat) (fails : nat → option err) (cutoff now : Z) (total : nat) (s : feed_db) : option (nat * option err * feed_db) :=
  match fuel with
  | O => None
  | S k =>
      match fails k with
      | Some e => Some (total, Some e, s)
      | None =>
          match compactChangeFeedBatch cutoff now s with
          | inr e => Some (total, Some e, s)
          | inl (deleted, true, s) => Some ((total + deleted)%nat, None, s)
          | inl (deleted, false, s) => compact_loop k fails cutoff now (total + deleted) s
          end
      end
  end.

Definition CompactChangeFeed (fuel : nat) (fails : nat → option err) (now retention : Z) (s : feed_db) : option (nat * option err * feed_db) :=
  if retention <=? 0 then Some (0%nat, Some (EText "change feed retention must be positive"), s)
  else compact_loop fuel fails ((now - retention) / 1000000) now 0 s.

(** ** Status *)

Record ChangeFeedStatus := mkStatus {
  st_ContractVersion : Z; st_ContractVersions : list Z; st_HeadSeq : Z; st_CompactedThrough : Z; st_CompactedAt : option Z; st_RetentionSeconds : Z;
  st_Tables : list (string * feed_table) }.

Definition name_le (a b : string * feed_table) : Prop := string_le a.1 b.1.
#[export] Instance name_le_dec : RelDecision name_le.
Proof. intros a b. unfold name_le. apply _. Defined.

(** [None] when the feed is not installed. *)
Definition changeFeedStatus (s : feed_db) : option ChangeFeedStatus :=
  if negb (present s) then None
  else match meta_of s with
       | None => None
       | Some m => Some (mkStatus (fm_contract m) (if changeFeedContractsCurrent s then map fst changeFeedContracts else [ChangeFeedContractVersion])
                           (changeFeedHead s) (fm_through m) (fm_at m) (fm_retention m) (merge_sort name_le (map_to_list (tables_of s))))
       end.

(** ** The reader of docs/guides/change-feed.md *)

Record feed_cursor := mkCursor { cu_generation : string; cu_seq : Z; cu_digest : option digest }.
Record reader := mkReader { rd_cursor : option feed_cursor; rd_rows : gmap row_key row }.
Definition new_reader : reader := mkReader None ∅.

(** The digest a cursor keeps for a position. *)
Definition digest_at (seq : Z) (s : feed_db) : option digest :=
  match entry_at seq (log_of s) with
  | Some d => Some d
  | None => if seq =? through_of s then meta_of s ≫= fm_entry else None
  end.

Definition cursor_valid (c : feed_cursor) (generation : string) (s : feed_db) : bool :=
  (cu_generation c =? generation)%string && (through_of s <=? cu_seq c) && (cu_seq c <=? changeFeedHead s)
  && (match entry_at (cu_seq c) (log_of s) with
      | Some d => bool_decide (cu_digest c = Some d)
      | None => (cu_seq c =? through_of s) && bool_decide (cu_digest c = (meta_of s ≫= fm_entry))
      end).

Definition changed_keys (table : string) (after : Z) (s : feed_db) : list row_key :=
  map e_key (List.filter (λ e, (e_table e =? table)%string && (after <? e_seq e)) (log_of s)).

(** The rows of the changed keys are read again. *)
Definition reread (native : gmap row_key row) (key : row_key) (copy : gmap row_key row) : gmap row_key row :=
  match native !! key with Some r => <[key := r]> copy | None => delete key copy end.

Definition capture (table : string) (s : feed_db) (r : reader) : reader :=
  let native := rows_of table s in
  match tables_of s !! table with
  | None => mkReader None native
  | Some t =>
      let copy := match rd_cursor r with
                  | Some c => if cursor_valid c (ft_id t) s then foldr (reread native) (rd_rows r) (changed_keys table (cu_seq c) s) else native
                  | None => native
                  end in
      mkReader (Some (mkCursor (ft_id t) (changeFeedHead s) (digest_at (changeFeedHead s) s))) copy
  end.
