(* ===== verification/FeedSafety.v ===== *)
(** * What a reader of the change feed can rely on

    Through any run of logged writes, snapshot replacements, generation
    restarts, compactions and reopenings after damage, a reader that follows the
    protocol of docs/guides/change-feed.md holds exactly the table's rows after
    each capture; its cursor stays valid until its generation ends or the
    compaction floor passes it. *)
From S2P Require Import Prelude Errors SyncState ChangeFeed.
Local Open Scope Z_scope.

(** ** The log *)

Definition allocated (s : feed_db) : Z := default 0 (db_sequence s).

(** The entries are those of the sequences above the floor, in order. *)
Record log_ok (s : feed_db) : Prop := {
  lo_sorted : StronglySorted (λ a b, e_seq a < e_seq b) (log_of s);
  lo_range e : e ∈ log_of s → through_of s < e_seq e <= allocated s;
  lo_through : 0 <= through_of s <= allocated s;
  lo_full n : through_of s < n <= allocated s → ∃ e, e ∈ log_of s ∧ e_seq e = n }.

Lemma max_seq_le l m : 0 <= m → (∀ e, e ∈ l → e_seq e <= m) → max_seq l <= m.
Proof.
  intros Hm. induction l as [|e l IH]; intros H; [done|]. cbn. apply Z.max_lub; [apply H; by left|]. apply IH. intros x Hx. apply H. by right.
Qed.

Lemma max_seq_nonneg l : 0 <= max_seq l.
Proof. unfold max_seq. induction l; cbn; lia. Qed.

Lemma head_allocated s : log_ok s → changeFeedHead s = allocated s.
Proof.
  intros Hok. unfold changeFeedHead. fold (allocated s). destruct (lo_through _ Hok).
  pose proof (max_seq_le (log_of s) (allocated s) ltac:(lia) (λ e He, proj2 (lo_range _ Hok e He))). lia.
Qed.

Lemma entry_at_spec l n d :
  StronglySorted (λ a b, e_seq a < e_seq b) l → entry_at n l = Some d ↔ ∃ e, e ∈ l ∧ e_seq e = n ∧ digest_of e = d.
Proof.
  unfold entry_at. induction 1 as [|e l Hs IH Hlt]; cbn.
  { split; [done|]. intros (? & ?%elem_of_nil & _). done. }
  case_decide as Hn.
  - split; [intros [= <-]; exists e; split_and!; [by left|done|done]|]. intros (e' & [->|He']%elem_of_cons & Hn' & <-); [done|].
    rewrite Forall_forall in Hlt. specialize (Hlt _ He'). lia.
  - destruct (list_find _ l) as [[i x]|]; cbn in *; rewrite IH; split; intros (e' & He' & Hn' & Hd).
    + exists e'. split_and!; [by right|done|done].
    + apply elem_of_cons in He' as [->|He']; [done|]. by exists e'.
    + exists e'. split_and!; [by right|done|done].
    + apply elem_of_cons in He' as [->|He']; [done|]. by exists e'.
Qed.

Lemma entry_at_none l n : entry_at n l = None → ∀ e, e ∈ l → e_seq e ≠ n.
Proof.
  unfold entry_at. destruct (list_find _ l) as [[i x]|] eqn:E; [done|]. intros _ e He. apply list_find_None in E. rewrite Forall_forall in E. by apply E.
Qed.

(** ** Evolution

    What one or more steps leave of a table's generation. *)

Section Evolution.
Context {ft : FeedText}.

Definition fresh_id (s s' : feed_db) (id : string) : Prop := ∃ i, (db_draws s ≤ i < db_draws s')%nat ∧ id = generation_id i.

(** The table keeps its generation: sequences are allocated upwards, positions
    keep their digests, rows that change have an entry above the old head. *)
Record continues (T : string) (s s' : feed_db) : Prop := {
  ct_head : changeFeedHead s <= changeFeedHead s';
  ct_through : through_of s <= through_of s';
  ct_digest n : n <= changeFeedHead s → through_of s' <= n → digest_at n s' = digest_at n s;
  ct_rows k : through_of s' <= changeFeedHead s → rows_of T s' !! k ≠ rows_of T s !! k → k ∈ changed_keys T (changeFeedHead s) s';
  ct_entries e : e ∈ log_of s → through_of s' < e_seq e → e ∈ log_of s' }.

Definition evolves (P : string → Prop) (s s' : feed_db) : Prop :=
  (db_draws s ≤ db_draws s')%nat ∧
  ∀ T t', P T → tables_of s' !! T = Some t' →
    fresh_id s s' (ft_id t') ∨ ∃ t, tables_of s !! T = Some t ∧ ft_id t' = ft_id t ∧ continues T s s'.

Lemma elem_of_changed T n s k : k ∈ changed_keys T n s ↔ ∃ e, e ∈ log_of s ∧ e_table e = T ∧ n < e_seq e ∧ e_key e = k.
Proof.
  unfold changed_keys. rewrite list_elem_of_fmap. split.
  - intros (e & -> & [[Ht%String.eqb_eq Hn%Z.ltb_lt]%andb_true_iff He]%list_elem_of_In%filter_In%and_comm). exists e. split_and!; [|done..]. by apply list_elem_of_In.
  - intros (e & He & <- & Hn & <-). exists e. split; [done|]. apply list_elem_of_In, filter_In. rewrite <- list_elem_of_In, String.eqb_refl. split; [done|]. cbn. by apply Z.ltb_lt.
Qed.

Lemma continues_refl T s : continues T s s.
Proof. split; try done; lia. Qed.

Lemma continues_trans T s1 s2 s3 : continues T s1 s2 → continues T s2 s3 → continues T s1 s3.
Proof.
  intros [H1 H2 H3 H4 H5] [K1 K2 K3 K4 K5]. split; [lia|lia| | |].
  - intros n Hn Ht. rewrite K3 by lia. apply H3; lia.
  - intros k Ht Hk. destruct (decide (rows_of T s3 !! k = rows_of T s2 !! k)) as [E|E].
    + rewrite E in Hk. apply H4 in Hk as (e & He & HT & Hn & Hke)%elem_of_changed; [|lia]. apply elem_of_changed. exists e. split_and!; try done. apply K5; [done|lia].
    + apply K4 in E as (e & He & HT & Hn & Hke)%elem_of_changed; [|lia]. apply elem_of_changed. exists e. split_and!; try done. lia.
  - intros e He Ht. apply K5; [|done]. apply H5; [done|lia].
Qed.

Lemma evolves_refl P s : evolves P s s.
Proof. split; [done|]. intros T t' _ Ht. right. exists t'. split_and!; [done|done|apply continues_refl]. Qed.

Lemma evolves_trans P s1 s2 s3 : evolves P s1 s2 → evolves P s2 s3 → evolves P s1 s3.
Proof.
  intros [Hd H] [Kd K]. split; [lia|]. intros T t3 HP Ht3. destruct (K T t3 HP Ht3) as [(i & Hi & ->)|(t2 & Ht2 & Hid & Hc)].
  { left. exists i. split; [lia|done]. }
  destruct (H T t2 HP Ht2) as [(i & Hi & Hi')|(t1 & Ht1 & Hid1 & Hc1)].
  - left. exists i. split; [lia|congruence].
  - right. exists t1. split_and!; [done|congruence|by eapply continues_trans].
Qed.

Lemma evolves_weaken (P Q : string → Prop) s s' : (∀ T, Q T → P T) → evolves P s s' → evolves Q s s'.
Proof. intros HPQ [Hd H]. split; [done|]. intros T t' HQ. apply H. auto. Qed.

(** ** The reader *)

(** A copy differs from the table only in rows that the log names above its
    cursor. *)
Definition in_step (T : string) (s : feed_db) (r : reader) : Prop :=
  match rd_cursor r with
  | None => True
  | Some c =>
      (∃ i, (i < db_draws s)%nat ∧ cu_generation c = generation_id i)
      ∧ ∀ t, tables_of s !! T = Some t → ft_id t = cu_generation c →
          cu_seq c <= changeFeedHead s
          ∧ (through_of s <= cu_seq c →
               cu_digest c = digest_at (cu_seq c) s
               ∧ ∀ k, rd_rows r !! k ≠ rows_of T s !! k → k ∈ changed_keys T (cu_seq c) s)
  end.

Context (Hdraws : ∀ i j, generation_id i = generation_id j → i = j).

Lemma in_step_evolves (P : string → Prop) T s s' r : P T → evolves P s s' → in_step T s r → in_step T s' r.
Proof.
  intros HP [Hd Hev]. unfold in_step. destruct (rd_cursor r) as [c|]; [|done]. intros [(i & Hi & Hgen) H]. split; [exists i; split; [lia|done]|].
  intros t' Ht' Hid. destruct (Hev T t' HP Ht') as [(j & Hj & Hj')|(t & Ht & Hid' & [C1 C2 C3 C4 C5])].
  { rewrite Hid, Hgen in Hj'. apply Hdraws in Hj'. lia. }
  destruct (H t Ht ltac:(congruence)) as [Hseq Hcopy]. split; [lia|]. intros Hthrough. destruct (Hcopy ltac:(lia)) as [Hdig Hkeys]. split.
  { rewrite C3 by lia. done. }
  intros k Hk. destruct (decide (rows_of T s' !! k = rows_of T s !! k)) as [E|E].
  - rewrite E in Hk. apply Hkeys in Hk as (e & He & HT & Hn & Hke)%elem_of_changed. apply elem_of_changed. exists e. split_and!; try done. apply C5; [done|lia].
  - apply C4 in E as (e & He & HT & Hn & Hke)%elem_of_changed; [|lia]. apply elem_of_changed. exists e. split_and!; try done. lia.
Qed.

Lemma reread_lookup native keys copy k :
  foldr (reread native) copy keys !! k = if decide (k ∈ keys) then native !! k else copy !! k.
Proof.
  induction keys as [|k' keys IH]; cbn [foldr]; [by rewrite decide_False by apply not_elem_of_nil|].
  unfold reread at 1. destruct (decide (k = k')) as [->|Hne].
  - rewrite decide_True by by left. destruct (native !! k') eqn:E; [by rewrite lookup_insert_eq|by rewrite lookup_delete_eq].
  - destruct (native !! k') eqn:E; rewrite ?lookup_insert_ne, ?lookup_delete_ne, IH by done;
      (destruct (decide (k ∈ keys)); [rewrite decide_True by by right|rewrite decide_False by by intros [?|?]%elem_of_cons]); done.
Qed.

(** One capture copies the table. *)
Lemma capture_exact T s r : in_step T s r → rd_rows (capture T s r) = rows_of T s.
Proof.
  unfold capture, in_step. destruct (tables_of s !! T) as [t|] eqn:Et; [|done]. cbn. destruct (rd_cursor r) as [c|]; [|done]. intros [_ H].
  destruct (cursor_valid c (ft_id t) s) eqn:Ev; [|done]. unfold cursor_valid in Ev. propify.
  destruct (H t eq_refl ltac:(congruence)) as [_ Hc]. destruct (Hc ltac:(lia)) as [_ Hkeys].
  apply map_eq. intros k. rewrite reread_lookup. destruct (decide (k ∈ changed_keys T (cu_seq c) s)) as [Hk|Hk]; [done|]. destruct (decide (rd_rows r !! k = rows_of T s !! k)) as [|E]; [done|]. by apply Hkeys in E.
Qed.
End Evolution.

(** ** Logged writes *)

Abbreviation suffixes := ["ad"; "ai"; "au"]%string.

(** The three triggers of a table are installed as expected. *)
Definition recording (T : string) (s : feed_db) : Prop := ∀ suffix, suffix ∈ ["ad"; "ai"; "au"]%string → installed T suffix s = true.

(** Only rows and the log change, and the log only grows. *)
Record logged (s s' : feed_db) (new : list log_entry) : Prop := {
  lg_log : log_of s' = log_of s ++ new;
  lg_new e : e ∈ new → allocated s < e_seq e;
  lg_ok : log_ok s';
  lg_allocated : allocated s <= allocated s';
  lg_schema : db_schema s' = db_schema s;
  lg_tables : db_tables s' = db_tables s;
  lg_meta : db_meta s' = db_meta s;
  lg_triggers : db_triggers s' = db_triggers s;
  lg_draws : db_draws s' = db_draws s }.

Lemma logged_refl s : log_ok s → logged s s [].
Proof. split; try done; [by rewrite app_nil_r|by intros e ?%elem_of_nil]. Qed.

Lemma logged_trans s1 s2 s3 n1 n2 : logged s1 s2 n1 → logged s2 s3 n2 → logged s1 s3 (n1 ++ n2).
Proof.
  intros [] []. split; try congruence; [rewrite lg_log1, lg_log0; by rewrite app_assoc| |lia].
  intros e [?|?]%elem_of_app; [auto|]. specialize (lg_new1 _ ltac:(done)). lia.
Qed.

Lemma StronglySorted_snoc l (e : log_entry) :
  StronglySorted (λ a b, e_seq a < e_seq b) l → (∀ x, x ∈ l → e_seq x < e_seq e) → StronglySorted (λ a b, e_seq a < e_seq b) (l ++ [e]).
Proof.
  induction 1 as [|a l Hs IH Ha]; intros H; cbn; [by repeat constructor|]. constructor.
  - apply IH. intros x Hx. apply H. by right.
  - apply Forall_app. split; [done|]. apply Forall_singleton, H. by left.
Qed.

Lemma append_logged at_ms T op k s s' :
  log_ok s → append at_ms T op k s = Some s' → ∃ e, logged s s' [e] ∧ db_rows s' = db_rows s ∧ e_table e = T ∧ e_key e = k.
Proof.
  intros Hok. unfold append. destruct (db_log s) as [l|] eqn:El; [|done]. intros [= <-]. assert (log_of s = l) as Hl by (unfold log_of; by rewrite El).
  assert (Hq : Z.max (default 0 (db_sequence s)) (max_seq l) = allocated s).
  { fold (allocated s). destruct (lo_through _ Hok). pose proof (max_seq_le (log_of s) (allocated s) ltac:(lia) (λ e He, proj2 (lo_range _ Hok e He))) as Hmax.
    rewrite Hl in Hmax. lia. }
  rewrite Hq. set (e := mkEntry (allocated s + 1) T op k at_ms). exists e. destruct (lo_through _ Hok) as [Ht0 Ht].
  split_and!; [|done|done|done]. split; try done; cbn; [by rewrite Hl|intros x ->%list_elem_of_singleton; cbn; lia| |lia].
  split; unfold through_of, meta_of, allocated in *; cbn in *.
  - rewrite <- Hl. apply StronglySorted_snoc; [apply lo_sorted, Hok|]. intros x Hx%(lo_range _ Hok). unfold allocated in Hx. cbn. lia.
  - intros x [Hx| ->%list_elem_of_singleton]%elem_of_app; [|cbn; lia]. rewrite <- Hl in Hx. apply (lo_range _ Hok) in Hx. unfold through_of, meta_of, allocated in Hx. lia.
  - lia.
  - intros n Hn. destruct (decide (n = default 0 (db_sequence s) + 1)) as [->|Hne].
    + exists e. split; [apply elem_of_app; right; by left|done].
    + destruct (lo_full _ Hok n) as (x & Hx & <-); [unfold through_of, meta_of, allocated; lia|]. exists x. split; [apply elem_of_app; left; by rewrite <- Hl|done].
Qed.

Lemma fires_logged b at_ms T op k s s' :
  log_ok s → fires b (append at_ms T op k) s = Some s' →
  ∃ new, logged s s' new ∧ db_rows s' = db_rows s ∧ (b = true → ∃ e, e ∈ new ∧ e_table e = T ∧ e_key e = k).
Proof.
  intros Hok. unfold fires. destruct b.
  - intros (e & Hl & Hr & Ht & Hk)%append_logged; [|done]. exists [e]. split_and!; [done|done|]. intros _. exists e. split_and!; [by left|done|done].
  - intros [= <-]. exists []. split_and!; [by apply logged_refl|done|done].
Qed.

(** The rows are not looked at by the log. *)
Lemma logged_put T r s s' new : logged (put_rows T r s) s' new → logged s s' new.
Proof. intros []. by split. Qed.

Lemma put_ok T r s : log_ok s → log_ok (put_rows T r s).
Proof. intros []. by split. Qed.

Lemma rows_put T r s : rows_of T (put_rows T r s) = r.
Proof. unfold rows_of, put_rows. cbn. by rewrite lookup_insert_eq. Qed.

Lemma rows_put_ne T T' r s : T' ≠ T → rows_of T' (put_rows T r s) = rows_of T' s.
Proof. intros Hne. unfold rows_of, put_rows. cbn. by rewrite lookup_insert_ne. Qed.

Lemma rows_eq T s s' : db_rows s' = db_rows s → rows_of T s' = rows_of T s.
Proof. unfold rows_of. by intros ->. Qed.

(** A row's place is its key. *)
Definition keyed (T : string) (s : feed_db) : Prop :=
  ∀ ddl columns k r, db_schema s !! T = Some (ddl, columns) → rows_of T s !! k = Some r → k = key_of columns r.

(** What a statement leaves. *)
Definition statement (T : string) (s s' : feed_db) : Prop :=
  ∃ new, logged s s' new ∧ (keyed T s → keyed T s') ∧ (∀ T', T' ≠ T → rows_of T' s' = rows_of T' s)
       ∧ (keyed T s → recording T s → ∀ k, rows_of T s' !! k ≠ rows_of T s !! k → ∃ e, e ∈ new ∧ e_table e = T ∧ e_key e = k).

Lemma statement_refl T s : log_ok s → statement T s s.
Proof. intros Hok. exists []. split_and!; [by apply logged_refl|done|done|by intros _ _ k Hk]. Qed.

Lemma keyed_put T r s s' new ddl columns :
  logged s s' new → db_schema s !! T = Some (ddl, columns) → rows_of T s' = r → (∀ k x, r !! k = Some x → k = key_of columns x) → keyed T s'.
Proof. intros Hl Hs Hr H ddl' columns' k x Hs' Hx. rewrite (lg_schema _ _ _ Hl), Hs in Hs'. injection Hs' as <- <-. rewrite Hr in Hx. eauto. Qed.

(** One row is written and logged. *)
Lemma statement_one at_ms T op k r suffix b s s' ddl columns :
  log_ok s → db_schema s !! T = Some (ddl, columns) → suffix ∈ ["ad"; "ai"; "au"]%string → (installed T suffix s = true → b = true) →
  (∀ k', k' ≠ k → r !! k' = rows_of T s !! k') → (∀ x, r !! k = Some x → k = key_of columns x) →
  fires b (append at_ms T op k) (put_rows T r s) = Some s' → statement T s s'.
Proof.
  intros Hok Hs Hsuf Hb Hr Hk (new & Hl & Hrows & He)%fires_logged; [|by apply put_ok]. apply logged_put in Hl.
  exists new. split_and!; [done| | |].
  - intros Hkeyed. eapply (keyed_put T r); [done|done|by rewrite (rows_eq _ _ _ Hrows), rows_put|]. intros k' x Hx.
    destruct (decide (k' = k)) as [->|Hne]; [auto|]. rewrite Hr in Hx by done. by eapply Hkeyed.
  - intros T' Hne. by rewrite (rows_eq _ _ _ Hrows), rows_put_ne.
  - intros _ Hrec k' Hk'. rewrite (rows_eq _ _ _ Hrows), rows_put in Hk'. destruct (decide (k' = k)) as [->|Hne]; [|by rewrite Hr in Hk'].
    by apply He, Hb, Hrec.
Qed.

(** An update logs the old key, when it changes, and the new one. *)
Lemma statement_update at_ms T key old r b1 b2 s s' ddl columns :
  let key' := key_of columns r in
  log_ok s → db_schema s !! T = Some (ddl, columns) → rows_of T s !! key = Some old →
  (installed T "au" s = true → b2 = negb (bool_decide (old = r)) ∧ b1 = b2 && negb (bool_decide (key = key'))) →
  (s ← fires b1 (append at_ms T ChangeOpDelete key) (put_rows T (<[key' := r]> (delete key (rows_of T s))) s);
   fires b2 (append at_ms T ChangeOpUpdate key') s) = Some s' → statement T s s'.
Proof.
  intros key' Hok Hs Hold Hb (s1 & H1 & H2)%bind_Some.
  apply fires_logged in H1 as (n1 & L1 & R1 & E1); [|by apply put_ok]. apply fires_logged in H2 as (n2 & L2 & R2 & E2); [|apply L1].
  apply logged_put in L1. pose proof (logged_trans _ _ _ _ _ L1 L2) as L.
  assert (Hrows : rows_of T s' = <[key' := r]> (delete key (rows_of T s))) by by rewrite (rows_eq _ _ _ R2), (rows_eq _ _ _ R1), rows_put.
  exists (n1 ++ n2). split_and!; [done| | |].
  - intros Hkeyed. eapply keyed_put; [done|done|done|]. intros k x [[<- <-]|[_ [_ Hx]%lookup_delete_Some]]%lookup_insert_Some; [done|by eapply Hkeyed].
  - intros T' Hne. rewrite (rows_eq _ _ _ R2), (rows_eq _ _ _ R1). by rewrite rows_put_ne.
  - intros Hkeyed Hrec k Hk. rewrite Hrows in Hk. destruct (Hb (Hrec "au"%string ltac:(by right; right; left))) as [-> ->].
    destruct (decide (old = r)) as [->|Hor].
    { assert (key' = key) as Hkk by (by symmetry; eapply Hkeyed). rewrite Hkk in Hk.
      destruct (decide (k = key)) as [->|Hne]; [by rewrite lookup_insert_eq in Hk|by rewrite lookup_insert_ne, lookup_delete_ne in Hk]. }
    rewrite bool_decide_eq_false_2 in E1, E2 by done. cbn [negb andb] in E1, E2.
    destruct (decide (k = key')) as [->|Hne']; [destruct (E2 eq_refl) as (e & He & ? & ?); exists e; split_and!; [apply elem_of_app; by right|done|done]|].
    rewrite lookup_insert_ne in Hk by done. destruct (decide (k = key)) as [->|Hne]; [|by rewrite lookup_delete_ne in Hk].
    rewrite bool_decide_eq_false_2 in E1 by done. destruct (E1 eq_refl) as (e & He & ? & ?). exists e. split_and!; [apply elem_of_app; by left|done|done].
Qed.

Lemma apply_write_statement at_ms T w s s' : log_ok s → apply_write at_ms T w s = Some s' → statement T s s'.
Proof.
  intros Hok. unfold apply_write. destruct (db_schema s !! T) as [[ddl columns]|] eqn:Es; [|done].
  assert (Hins : ∀ r s', fires (installed T "ai" s) (append at_ms T ChangeOpInsert (key_of columns r)) (put_rows T (<[key_of columns r := r]> (rows_of T s)) s) = Some s' →
            statement T s s').
  { intros r s1. eapply (statement_one _ _ _ _ _ "ai"); [done|done|by right; left|done|intros k' Hne; by rewrite lookup_insert_ne|].
    intros x. rewrite lookup_insert_eq. by intros [= <-]. }
  destruct w as [r|r|r|key r|key]; cbv zeta.
  - case_bool_decide; [done|apply Hins].
  - case_bool_decide; [intros [= <-]; by apply statement_refl|apply Hins].
  - apply Hins.
  - destruct (rows_of T s !! key) as [old|] eqn:Eold; [|intros [= <-]; by apply statement_refl]. destruct (_ && bool_decide (is_Some _)); [done|].
    eapply statement_update; [done|done|done|]. by intros ->.
  - destruct (rows_of T s !! key) eqn:E; [|intros [= <-]; by apply statement_refl].
    eapply (statement_one _ _ _ _ _ "ad"); [done|done|by left|done|intros k' Hne; by rewrite lookup_delete_ne|].
    intros x. by rewrite lookup_delete_eq.
Qed.

(** ** The invariant *)

Section Steps.
Context {ft : FeedText}.

(** The tables of [P] that have a generation are recorded by their triggers. *)
Record feed_ok (P : string → Prop) (s : feed_db) : Prop := {
  fo_log : log_ok s;
  fo_ids T t : tables_of s !! T = Some t → ft_seq t <= allocated s ∧ ∃ i, (i < db_draws s)%nat ∧ ft_id t = generation_id i;
  fo_recording T t : P T → tables_of s !! T = Some t → recording T s;
  fo_keyed T : keyed T s }.

Lemma installed_eq T suffix s s' : db_schema s' = db_schema s → db_triggers s' = db_triggers s → installed T suffix s' = installed T suffix s.
Proof. unfold installed. by intros -> ->. Qed.

Lemma entry_at_low l new n : (∀ e, e ∈ new → n < e_seq e) → entry_at n (l ++ new) = entry_at n l.
Proof.
  intros Hnew. unfold entry_at. destruct (list_find _ l) as [[i x]|] eqn:E.
  - by rewrite (list_find_app_l _ l new i x E).
  - rewrite list_find_app_r by done. destruct (list_find _ new) as [[i x]|] eqn:E2; [|done]. apply list_find_Some in E2 as (Hx%list_elem_of_lookup_2 & Hn & _).
    apply Hnew in Hx. lia.
Qed.

Lemma logged_continues T s s' new :
  log_ok s → logged s s' new → (∀ k, rows_of T s' !! k ≠ rows_of T s !! k → ∃ e, e ∈ new ∧ e_table e = T ∧ e_key e = k) → continues T s s'.
Proof.
  intros Hok [] Hrows. assert (through_of s' = through_of s) as Ht by (unfold through_of, meta_of; by rewrite lg_meta0).
  split; rewrite ?Ht, ?(head_allocated _ Hok), ?(head_allocated _ lg_ok0).
  - done.
  - lia.
  - intros n Hn _. unfold digest_at. rewrite Ht. unfold meta_of. rewrite lg_meta0, lg_log0, entry_at_low; [done|]. intros e He%lg_new0. lia.
  - intros k _ (e & He & HT & Hk)%Hrows. apply elem_of_changed. exists e. rewrite lg_log0. split_and!; [apply elem_of_app; by right|done|by apply lg_new0|done].
  - intros e He _. rewrite lg_log0. apply elem_of_app. by left.
Qed.

Lemma statement_step P T s s' : feed_ok P s → statement T s s' → feed_ok P s' ∧ evolves P s s'.
Proof.
  intros [Hlog Hids Hrec Hkeyed] (new & Hl & Hk & Hother & Hrows). pose proof Hl as []. assert (tables_of s' = tables_of s) as Et by (unfold tables_of; by rewrite lg_tables0). split.
  - split; [done| | |].
    + intros T' t Ht. rewrite Et in Ht. destruct (Hids T' t Ht) as (? & i & ? & ?). rewrite lg_draws0. split; [lia|]. by exists i.
    + intros T' t HP Ht suffix Hsuf. rewrite Et in Ht. rewrite (installed_eq _ _ s) by done. by eapply Hrec.
    + intros T'. destruct (decide (T' = T)) as [->|Hne]; [auto|]. intros ddl columns k r Hs Hr. rewrite Hother in Hr by done. rewrite lg_schema0 in Hs. by eapply Hkeyed.
  - split; [lia|]. intros T' t HP Ht. rewrite Et in Ht. right. exists t. split_and!; [done|done|]. eapply logged_continues; [done|done|].
    intros k Hk'. destruct (decide (T' = T)) as [->|Hne]; [|by rewrite Hother in Hk']. apply Hrows; [done|by eapply Hrec|done].
Qed.

Lemma writes_step P ws s s' : feed_ok P s → apply_writes ws s = Some s' → feed_ok P s' ∧ evolves P s s' ∧ db_tables s' = db_tables s.
Proof.
  revert s. induction ws as [|[[at_ms T] w] ws IH]; intros s Hok; cbn [apply_writes].
  { intros [= <-]. split_and!; [done|apply evolves_refl|done]. }
  intros (s1 & Hw & Hws)%bind_Some. apply apply_write_statement in Hw; [|apply Hok]. assert (db_tables s1 = db_tables s) as <- by (by destruct Hw as (? & [] & _)).
  apply (statement_step P) in Hw as [Hok1 Hev]; [|done]. apply IH in Hws as (Hok2 & Hev2 & Ht); [|done]. split_and!; [done|by eapply evolves_trans|done].
Qed.

(** ** Generations *)

Lemma append_cancel_r (a b c d : string) : String.length c = String.length d → (a ++ c = b ++ d)%string → a = b ∧ c = d.
Proof.
  revert b. induction a as [|x a IH]; intros [|y b] Hl; cbn; intros H.
  - done.
  - rewrite H in Hl. cbn in Hl. rewrite length_append in Hl. lia.
  - rewrite <- H in Hl. cbn in Hl. rewrite length_append in Hl. lia.
  - injection H as -> H. by destruct (IH b Hl H) as [-> ->].
Qed.

Lemma suffix_length a : a ∈ suffixes → String.length a = 2%nat.
Proof. intros Ha. repeat (apply elem_of_cons in Ha as [->|Ha]; [done|]). by apply elem_of_nil in Ha. Qed.

Lemma trigger_name_inj T T' a b : a ∈ suffixes → b ∈ suffixes → trigger_name T a = trigger_name T' b → T = T' ∧ a = b.
Proof.
  intros Ha%suffix_length Hb%suffix_length H. unfold trigger_name in H. apply append_inj_l, append_cancel_r in H as [-> H]; [|cbn; lia].
  by apply append_inj_l in H.
Qed.

Lemma trigger_names T columns : (changeFeedTriggerSQL T columns).*1 = map (trigger_name T) suffixes.
Proof. done. Qed.

Lemma trigger_names_nodup T columns : NoDup (changeFeedTriggerSQL T columns).*1.
Proof.
  rewrite trigger_names. apply NoDup_fmap_2_strong; [|by apply (bool_decide_unpack (NoDup suffixes)); vm_compute].
  intros a b Ha Hb H. by apply trigger_name_inj in H as [_ ->].
Qed.

Lemma installed_spec T suffix s :
  installed T suffix s = true ↔
  ∃ ddl columns sql, db_schema s !! T = Some (ddl, columns) ∧ (trigger_name T suffix, sql) ∈ changeFeedTriggerSQL T columns
    ∧ db_triggers s !! trigger_name T suffix = Some (T, sql).
Proof.
  unfold installed. destruct (db_schema s !! T) as [[ddl columns]|].
  - rewrite existsb_exists. setoid_rewrite andb_true_iff. setoid_rewrite String.eqb_eq. setoid_rewrite bool_decide_eq_true. split.
    + intros ([n sql] & Hin%list_elem_of_In & Hn & Ht). cbn in *. subst n. by exists ddl, columns, sql.
    + intros (ddl' & columns' & sql & [= <- <-] & Hin & Ht). exists (trigger_name T suffix, sql). by rewrite <- list_elem_of_In.
  - split; [done|]. by intros (? & ? & ? & ? & _).
Qed.

Lemma install_lookup T (l : list (string * string)) (m : gmap string (string * string)) n :
  foldr (λ p t, <[p.1 := (T, p.2)]> t) m l !! n = match list_find (λ p, p.1 = n) l with Some (_, p) => Some (T, p.2) | None => m !! n end.
Proof.
  induction l as [|[n' sql] l IH]; [done|]. cbn. case_decide as Hn; [subst; by rewrite lookup_insert_eq|].
  rewrite lookup_insert_ne, IH by done. by destruct (list_find _ l) as [[]|].
Qed.

Lemma NoDup_fst_unique {A B} (l : list (A * B)) n a b : NoDup l.*1 → (n, a) ∈ l → (n, b) ∈ l → a = b.
Proof.
  induction l as [|[m c] l IH]; cbn; [by intros _ ?%elem_of_nil|]. intros [Hm Hl]%NoDup_cons Ha Hb.
  apply elem_of_cons in Ha as [Ha|Ha], Hb as [Hb|Hb]; [congruence| | |by apply IH]; destruct Hm.
  - injection Ha as <- _. by apply (list_elem_of_fmap_2 fst _ (n, b)).
  - injection Hb as <- _. by apply (list_elem_of_fmap_2 fst _ (n, a)).
Qed.

Lemma triggers_with t s : db_triggers (with_triggers t s) = t.
Proof. done. Qed.

Lemma expected_spec T s sha triggers :
  changeFeedExpected T s = inl (sha, triggers) → ∃ ddl columns, db_schema s !! T = Some (ddl, columns) ∧ sha = schema_sha256 ddl ∧ triggers = changeFeedTriggerSQL T columns.
Proof. unfold changeFeedExpected. destruct (db_schema s !! T) as [[ddl [|c columns]]|]; [done| |done]. intros [= <- <-]. by exists ddl, (c :: columns). Qed.

Lemma install_spec T s s' :
  installChangeFeedTriggers T s = inl s' →
  ∃ ddl columns, db_schema s !! T = Some (ddl, columns) ∧
    s' = with_triggers (foldr (λ p t, <[p.1 := (T, p.2)]> t) (db_triggers s) (changeFeedTriggerSQL T columns)) s.
Proof.
  unfold installChangeFeedTriggers. destruct (changeFeedExpected T s) as [[sha triggers]|] eqn:E; [|done]. intros [= <-].
  apply expected_spec in E as (ddl & columns & Hs & _ & ->). by exists ddl, columns.
Qed.

Lemma install_recording T s s' : installChangeFeedTriggers T s = inl s' → recording T s'.
Proof.
  intros (ddl & columns & Hs & ->)%install_spec suffix Hsuf. apply installed_spec. exists ddl, columns.
  assert (∃ sql, (trigger_name T suffix, sql) ∈ changeFeedTriggerSQL T columns) as [sql Hin].
  { assert (trigger_name T suffix ∈ (changeFeedTriggerSQL T columns).*1) as ([n sql] & -> & Hin)%list_elem_of_fmap
      by (rewrite trigger_names; by apply list_elem_of_fmap_2). by exists sql. }
  exists sql. split_and!; [done|done|]. rewrite triggers_with, install_lookup. destruct (list_find _ _) as [[i p]|] eqn:E.
  - apply list_find_Some in E as (Hp%list_elem_of_lookup_2 & Hn & _). destruct p as [n sql']. cbn [fst snd] in *. subst n. f_equal. f_equal.
    by eapply (NoDup_fst_unique _ (trigger_name T suffix)); [apply trigger_names_nodup| |].
  - apply list_find_None in E. rewrite Forall_forall in E. by apply E in Hin.
Qed.

(** Objects of other tables are left alone. *)
Lemma recording_other T T' s s' :
  T' ≠ T → db_schema s' = db_schema s → (∀ suffix, suffix ∈ suffixes → db_triggers s' !! trigger_name T' suffix = db_triggers s !! trigger_name T' suffix) →
  recording T' s → recording T' s'.
Proof.
  intros Hne Hs Ht Hrec suffix Hsuf. specialize (Hrec suffix Hsuf). rewrite installed_spec in *. rewrite Hs, Ht by done. exact Hrec.
Qed.

Lemma install_other T T' s s' suffix :
  T' ≠ T → suffix ∈ suffixes → installChangeFeedTriggers T s = inl s' → db_triggers s' !! trigger_name T' suffix = db_triggers s !! trigger_name T' suffix.
Proof.
  intros Hne Hsuf (ddl & columns & Hs & ->)%install_spec. rewrite triggers_with, install_lookup. destruct (list_find _ _) as [[i p]|] eqn:Ef; [|done].
  apply list_find_Some in Ef as (Hp%list_elem_of_lookup_2 & Hn & _). apply (list_elem_of_fmap_2 fst) in Hp. rewrite trigger_names, Hn in Hp.
  apply list_elem_of_fmap in Hp as (b & Hb & Hbs). apply trigger_name_inj in Hb as [? _]; done.
Qed.

(** What generations and triggers do not touch. *)
Definition same_log (s s' : feed_db) : Prop :=
  db_log s' = db_log s ∧ db_sequence s' = db_sequence s ∧ db_meta s' = db_meta s ∧ db_rows s' = db_rows s ∧ db_schema s' = db_schema s.

Lemma same_log_ok s s' : same_log s s' → log_ok s → log_ok s'.
Proof.
  intros (El & Eq & Em & _) []. split; unfold log_of, through_of, allocated, meta_of in *; rewrite ?El, ?Eq, ?Em; done.
Qed.

Lemma same_continues T s s' : same_log s s' → continues T s s'.
Proof.
  intros (El & Eq & Em & Er & _). assert (El' : log_of s' = log_of s) by (unfold log_of; by rewrite El).
  assert (Et : through_of s' = through_of s) by (unfold through_of, meta_of; by rewrite Em).
  assert (Eh : changeFeedHead s' = changeFeedHead s) by (unfold changeFeedHead; by rewrite Eq, El', Et).
  split; [lia|lia| | |by rewrite El'].
  - intros n _ _. unfold digest_at, meta_of. by rewrite El', Et, Em.
  - intros k _ Hk. by rewrite (rows_eq _ _ _ Er) in Hk.
Qed.

Lemma same_keyed T s s' : same_log s s' → keyed T s → keyed T s'.
Proof. intros (_ & _ & _ & Er & Es) Hk ddl columns k r. rewrite Es, (rows_eq _ _ _ Er). apply Hk. Qed.

Lemma bump_spec now T reason s s' :
  bumpChangeFeedGeneration now T reason s = inl s' →
  ∃ t, s' = with_tables (Some (<[T := t]> (tables_of s))) (S (db_draws s)) s ∧ ft_id t = generation_id (db_draws s) ∧ ft_seq t = changeFeedHead s.
Proof. unfold bumpChangeFeedGeneration. destruct (changeFeedExpected T s) as [[sha ?]|]; [|done]. intros [= <-]. by eexists. Qed.

Lemma restart_step P now T reason s s' :
  feed_ok P s → restart now T reason s = inl s' →
  feed_ok (λ T', T' = T ∨ P T') s' ∧ (∀ Q, evolves Q s s') ∧ (∀ t, tables_of s' !! T = Some t → fresh_id s s' (ft_id t)) ∧ same_log s s'
  ∧ (∀ T', T' ≠ T → tables_of s' !! T' = tables_of s !! T' ∧ ∀ suffix, suffix ∈ suffixes → db_triggers s' !! trigger_name T' suffix = db_triggers s !! trigger_name T' suffix).
Proof.
  intros Hok. unfold restart. destruct (installChangeFeedTriggers T s) as [s1|] eqn:Ei; [|done]. intros (t & -> & Hid & Hseq)%bump_spec.
  pose proof (install_recording _ _ _ Ei) as Hrec. assert (Hother := λ T' suffix Hne Hsuf, install_other T T' s s1 suffix Hne Hsuf Ei).
  apply install_spec in Ei as (ddl & columns & Hs & ->). set (s1 := with_triggers _ _) in *.
  assert (Hsame : same_log s s1) by done. assert (Htab : tables_of s1 = tables_of s) by done.
  set (s' := with_tables _ _ s1). assert (Hsame' : same_log s s') by done. pose proof (same_log_ok _ _ Hsame' (fo_log _ _ Hok)) as Hlog.
  assert (Htab' : tables_of s' = <[T := t]> (tables_of s)) by done. split_and!; [|intros Q| |done|].
  - split; [done| | |intros T'; apply (same_keyed _ s); [done|apply Hok]].
    + intros T' t'. rewrite Htab'. intros [[<- <-]|[_ Ht]]%lookup_insert_Some.
      * rewrite Hseq, Hid. split; [|exists (db_draws s); split; [cbn; lia|done]].
        change (changeFeedHead s1) with (changeFeedHead s). rewrite (head_allocated _ (fo_log _ _ Hok)). done.
      * destruct (fo_ids _ _ Hok _ _ Ht) as (? & i & ? & ?). split; [done|]. exists i. split; [cbn; lia|done].
    + intros T' t' HP Ht suffix Hsuf. rewrite (installed_eq _ _ s1) by done. destruct (decide (T' = T)) as [->|Hne]; [by apply Hrec|].
      destruct HP as [|HP]; [done|]. rewrite Htab', lookup_insert_ne in Ht by done.
      apply (recording_other T T' s s1); [done|done|intros ? ?; by apply Hother|by eapply fo_recording|done].
  - split; [cbn; lia|]. intros T' t' _. rewrite Htab'. intros [[<- <-]|[_ Ht]]%lookup_insert_Some.
    + left. exists (db_draws s). split; [cbn; lia|done].
    + right. exists t'. split_and!; [done|done|by apply same_continues].
  - intros t' Ht. rewrite Htab', lookup_insert_eq in Ht. injection Ht as <-. exists (db_draws s). split; [cbn; lia|done].
  - intros T' Hne. rewrite Htab', lookup_insert_ne by done. split; [done|]. intros suffix Hsuf. by apply Hother.
Qed.

Lemma feed_ok_weaken (P Q : string → Prop) s : (∀ T, Q T → P T) → feed_ok P s → feed_ok Q s.
Proof. intros HPQ []. split; [done|done| |done]. intros T t HQ. apply fo_recording0. auto. Qed.

Lemma restart_tracked_step P now reason tables s s' :
  feed_ok P s → restart_tracked now reason tables s = inl s' → feed_ok (λ T, T ∈ tables ∨ P T) s' ∧ ∀ Q, evolves Q s s'.
Proof.
  revert P s. induction tables as [|T tables IH]; intros P s Hok; cbn [restart_tracked].
  { intros [= <-]. split; [|intros; apply evolves_refl]. eapply feed_ok_weaken; [|done]. by intros T [?%elem_of_nil|?]. }
  destruct (negb _); [done|]. destruct (restart now T reason s) as [s1|] eqn:E; [|done]. intros Hr. apply (restart_step P) in E as (Hok1 & Hev & _); [|done].
  apply (IH (λ T', T' = T ∨ P T')) in Hr as [Hok2 Hev2]; [|done]. split; [|intros Q; by eapply evolves_trans].
  eapply feed_ok_weaken; [|done]. intros T' [[->|?]%elem_of_cons|?]; auto.
Qed.

Lemma bump_step P now reason tables s s' :
  feed_ok P s → BumpChangeFeedGenerationTx now reason tables s = inl s' → (db_tables s = None ∨ feed_ok (λ T, T ∈ tables ∨ P T) s') ∧ feed_ok P s' ∧ ∀ Q, evolves Q s s'.
Proof.
  intros Hok. unfold BumpChangeFeedGenerationTx. destruct (db_tables s).
  - intros [Hok' Hev]%(restart_tracked_step P); [|done]. split_and!; [by right| |done]. eapply feed_ok_weaken; [|done]. intros T HT. by right.
  - intros [= <-]. split_and!; [by left|done|intros; apply evolves_refl].
Qed.

(** ** Replacements *)

Lemma drop_step P T s : feed_ok P s → feed_ok (λ T', T' ≠ T ∧ P T') (drop_triggers T s).
Proof.
  intros [Hlog Hids Hrec Hkeyed]. assert (Hsame : same_log s (drop_triggers T s)) by done. split.
  - by apply (same_log_ok s).
  - done.
  - intros T' t [Hne HP] Ht. apply (recording_other T T' s); [done|done| |by eapply Hrec]. intros suffix Hsuf.
    assert (Hother : ∀ suffix', suffix' ∈ suffixes → trigger_name T suffix' ≠ trigger_name T' suffix) by (intros suffix' Hsuf' H; by apply trigger_name_inj in H as [? _]).
    unfold drop_triggers. rewrite triggers_with, !lookup_delete_ne; [done|..]; apply Hother; [by right; left|by right; right; left|by left].
  - intros T'. by apply (same_keyed _ s).
Qed.

Lemma suspend_step P tables s s' :
  feed_ok P s → suspend_tracked tables s = inl s' → feed_ok (λ T, T ∉ tables ∧ P T) s' ∧ (∀ Q, evolves Q s s') ∧ db_tables s' = db_tables s.
Proof.
  revert P s. induction tables as [|T tables IH]; intros P s Hok; cbn [suspend_tracked].
  { intros [= <-]. split_and!; [|intros; apply evolves_refl|done]. eapply feed_ok_weaken; [|done]. by intros T [_ ?]. }
  destruct (negb _); [done|]. intros H. apply (IH (λ T', T' ≠ T ∧ P T')) in H as (Hok' & Hev & Ht); [|by apply drop_step]. split_and!; [| |by rewrite Ht].
  - eapply feed_ok_weaken; [|done]. intros T' [Hn HP]. rewrite not_elem_of_cons in Hn. tauto.
  - intros Q. eapply evolves_trans; [|apply Hev]. split; [done|]. intros T' t' _ Ht'. right. exists t'. split_and!; [done|done|by apply same_continues].
Qed.

Lemma fresh_stays s s1 s' T t' :
  (db_draws s ≤ db_draws s1)%nat → (∀ t, tables_of s1 !! T = Some t → fresh_id s s1 (ft_id t)) → evolves (λ _, True) s1 s' →
  tables_of s' !! T = Some t' → fresh_id s s' (ft_id t').
Proof.
  intros Hd Hfresh [Hd' Hev] Ht'. destruct (Hev T t' I Ht') as [(i & Hi & ->)|(t & Ht & -> & _)]; [exists i; split; [lia|done]|].
  destruct (Hfresh t Ht) as (i & Hi & ->). exists i. split; [lia|done].
Qed.

Lemma fresh_later s s1 s' id : (db_draws s ≤ db_draws s1)%nat → fresh_id s1 s' id → fresh_id s s' id.
Proof. intros Hd (i & Hi & ->). exists i. split; [lia|done]. Qed.

Lemma restart_tracked_fresh P now reason tables s s' T t' :
  feed_ok P s → restart_tracked now reason tables s = inl s' → T ∈ tables → tables_of s' !! T = Some t' → fresh_id s s' (ft_id t').
Proof.
  revert P s. induction tables as [|T1 tables IH]; intros P s Hok; cbn [restart_tracked]; [by intros _ ?%elem_of_nil|].
  destruct (negb _); [done|]. destruct (restart now T1 reason s) as [s1|] eqn:E; [|done]. intros Hr HT Ht'.
  apply (restart_step P) in E as (Hok1 & Hev & Hfresh & _ & _); [|done]. destruct (Hev (λ _, True)) as [Hd _].
  destruct (restart_tracked_step _ _ _ _ _ _ Hok1 Hr) as [_ Hev2]. apply elem_of_cons in HT as [->|HT].
  - by apply (fresh_stays s s1 s' T1).
  - eapply fresh_later; [exact Hd|]. by eapply IH.
Qed.

Lemma replace_step P now tables ws s s' : feed_ok P s → replace_tables now tables ws s = Some s' → feed_ok P s' ∧ evolves P s s'.
Proof.
  intros Hok. unfold replace_tables, SuspendChangeFeedTx, BumpChangeFeedGenerationTx. set (X := ChangeFeedReplacedTables tables).
  destruct (db_tables s) as [ts|] eqn:Et.
  - destruct (suspend_tracked X s) as [s1|] eqn:Es; [|done]. intros (s2 & Hw & Hb)%bind_Some.
    apply (suspend_step P) in Es as (Hok1 & Hev1 & Ht1); [|done]. apply (writes_step _ _ _ _ Hok1) in Hw as (Hok2 & Hev2 & Ht2).
    rewrite Ht2, Ht1, Et in Hb.
    destruct (restart_tracked _ _ _ _) as [s3|] eqn:Er; [|done]. injection Hb as <-.
    pose proof (restart_tracked_step _ _ _ _ _ _ Hok2 Er) as [Hok3 Hev3].
    destruct (Hev1 P) as [Hd1 _], Hev2 as [Hd2 Hev2], (Hev3 P) as [Hd3 _]. split.
    + eapply feed_ok_weaken; [|done]. intros T HP. destruct (decide (T ∈ X)); [by left|right; done].
    + split; [lia|]. intros T t' HP Ht'. destruct (decide (T ∈ X)) as [HX|HX].
      * left. eapply (fresh_later _ s2); [lia|]. by eapply restart_tracked_fresh.
      * assert (Hev : evolves (λ T, T ∉ X ∧ P T) s s3) by (eapply evolves_trans; [apply Hev1|]; eapply evolves_trans; [by split|apply Hev3]).
        by apply Hev.
  - intros (s2 & Hw & Hb)%bind_Some. destruct (writes_step _ _ _ _ Hok Hw) as (Hok2 & Hev2 & Ht2). rewrite Ht2, Et in Hb.
    injection Hb as <-. done.
Qed.
End Steps.

(** ** Compaction *)

Section Compaction.
Context {ft : FeedText}.

(** The first entry of a log, if any, is inside the retention window. *)
Definition window_reached (cutoff : Z) (l : list log_entry) : Prop := match l with [] => True | e :: _ => cutoff <= e_at e end.

Lemma compactable_spec entries cutoff through seen through' seen' stopped :
  compactable_prefix entries cutoff through seen = (through', seen', stopped) →
  ∃ pre post, entries = pre ++ post ∧ Forall (λ e, e_at e < cutoff) pre
    ∧ through' = (match last pre with Some e => e_seq e | None => through end)
    ∧ (if stopped then post ≠ [] ∧ window_reached cutoff post else post = [] ∧ seen' = seen + length entries)%nat.
Proof.
  revert through seen. induction entries as [|e entries IH]; intros through seen; cbn [compactable_prefix].
  { intros [= <- <- <-]. exists [], []. split_and!; [done|done|done|done|cbn; lia]. }
  destruct (Z.leb_spec cutoff (e_at e)) as [Hle|Hlt].
  { intros [= <- <- <-]. exists [], (e :: entries). by split_and!. }
  intros (pre & post & -> & Hpre & -> & Hend)%IH. exists (e :: pre), post. split_and!; [done|by constructor| |].
  - rewrite last_cons. by destruct (last pre).
  - destruct stopped; [done|]. destruct Hend as [-> ->]. split; [done|]. cbn. lia.
Qed.

Lemma filter_all {A} (f : A → bool) l : (∀ x, x ∈ l → f x = true) → List.filter f l = l.
Proof. induction l as [|x l IH]; intros H; [done|]. cbn. rewrite H by by left. rewrite IH; [done|]. intros y Hy. apply H. by right. Qed.

Lemma filter_none {A} (f : A → bool) l : (∀ x, x ∈ l → f x = false) → List.filter f l = [].
Proof. induction l as [|x l IH]; intros H; [done|]. cbn. rewrite H by by left. apply IH. intros y Hy. apply H. by right. Qed.

Lemma sorted_split (pre post : list log_entry) x y :
  StronglySorted (λ a b, e_seq a < e_seq b) (pre ++ post) → x ∈ pre → y ∈ post → e_seq x < e_seq y.
Proof. intros Hs Hx Hy. by eapply (StronglySorted_app_1_elem_of _ _ _ _ _ Hs). Qed.

Lemma sorted_last (pre : list log_entry) e x :
  StronglySorted (λ a b, e_seq a < e_seq b) (pre ++ [e]) → x ∈ pre ++ [e] → e_seq x <= e_seq e.
Proof.
  intros Hs [Hx| ->%list_elem_of_singleton]%elem_of_app; [|done]. pose proof (sorted_split _ _ x e Hs Hx ltac:(by left)). lia.
Qed.

(** One transaction removes a prefix that is older than the cutoff; the last
    removed entry is the new floor. *)
Lemma batch_spec cutoff now s deleted final s' :
  log_ok s → compactChangeFeedBatch cutoff now s = inl (deleted, final, s') →
  ∃ pre post, log_of s = pre ++ post ∧ log_of s' = post ∧ deleted = length pre ∧ Forall (λ e, e_at e < cutoff) pre
    ∧ (final = true → is_Some (meta_of s) → window_reached cutoff post) ∧ (final = false → pre ≠ [])
    ∧ ((pre = [] ∧ s' = s)
       ∨ ∃ m pre' e, meta_of s = Some m ∧ pre = pre' ++ [e]
           ∧ s' = with_meta (Some (Some (mkMeta (fm_contract m) (e_seq e) (Some (digest_of e)) (Some now) (fm_retention m)))) (with_log (Some post) (db_sequence s) s)).
Proof.
  intros Hok. unfold compactChangeFeedBatch.
  destruct (db_meta s) as [[m|]|] eqn:Em; [|intros [= <- <- <-]; exists [], (log_of s); split_and!; try done; [unfold meta_of; rewrite Em; by intros _ [? ?]|by left]|done].
  destruct (db_log s) as [log|] eqn:El; [|done]. assert (log_of s = log) as Hlog by (unfold log_of; by rewrite El).
  assert (meta_of s = Some m) as Hm by (unfold meta_of; by rewrite Em). assert (through_of s = fm_through m) as Ht by (unfold through_of; by rewrite Hm).
  pose proof Hok as []. rewrite Hlog in *. unfold compactableChangePrefix. rewrite (filter_all _ log)
    by (intros x Hx; apply Z.ltb_lt; rewrite <- Ht; by apply lo_range0).
  destruct (compactable_prefix _ _ _ _) as [[through seen] stopped] eqn:Ep. apply compactable_spec in Ep as (pre & rest & Hsplit & Hold & Hthrough & Hend).
  set (post := rest ++ drop changeFeedCompactionBatch log).
  assert (Hl : log = pre ++ post) by (unfold post; rewrite app_assoc, <- Hsplit; by rewrite take_drop).
  assert (Hwin : stopped || (seen <? changeFeedCompactionBatch)%nat = true → window_reached cutoff post).
  { destruct stopped; cbn [orb]; [destruct Hend as [Hne Hw]; intros _; unfold post; by destruct rest|]. destruct Hend as [-> ->]. intros Hlt%Nat.ltb_lt.
    rewrite Nat.add_0_l, length_take in Hlt. unfold post. rewrite drop_ge by lia. done. }
  destruct (last pre) as [e|] eqn:Elast.
  - apply last_Some in Elast as [pre' ->]. subst through.
    assert (He : e ∈ log) by (rewrite Hl; apply elem_of_app; left; apply elem_of_app; right; by left).
    destruct (Z.eqb_spec (e_seq e) (fm_through m)) as [Heq|Hne]; [apply lo_range0 in He; lia|].
    assert (entry_at (e_seq e) log = Some (digest_of e)) as -> by (apply entry_at_spec; [done|by exists e]). cbv zeta. intros [= <- <- <-].
    assert (Hpre : ∀ x, x ∈ pre' ++ [e] → ((fm_through m <? e_seq x) && (e_seq x <=? e_seq e)) = true).
    { intros x Hx. rewrite andb_true_iff, Z.ltb_lt, Z.leb_le. split; [rewrite <- Ht; apply lo_range0; rewrite Hl; apply elem_of_app; by left|].
      apply (sorted_last pre'); [|done]. rewrite Hl in lo_sorted0. by apply StronglySorted_app_1_l in lo_sorted0. }
    assert (Hpost : ∀ x, x ∈ post → ((fm_through m <? e_seq x) && (e_seq x <=? e_seq e)) = false).
    { intros x Hx. rewrite Hl in lo_sorted0. pose proof (sorted_split _ _ e x lo_sorted0 ltac:(apply elem_of_app; right; by left) Hx) as Hlt.
      rewrite (proj2 (Z.leb_gt _ _) Hlt). by rewrite andb_false_r. }
    exists (pre' ++ [e]), post. assert (Hf : List.filter (λ x, negb ((fm_through m <? e_seq x) && (e_seq x <=? e_seq e))) log = post).
    { rewrite Hl, List.filter_app, filter_none, filter_all; [done| |]; intros x Hx; [by rewrite Hpost|by rewrite Hpre]. }
    split_and!; [done| | |done|intros H _; auto|intros _ H; by destruct pre'|right; exists m, pre', e; by rewrite Hf].
    + cbn. by rewrite Hf.
    + rewrite Hl, List.filter_app, filter_all, (filter_none _ post), app_nil_r by done. done.
  - apply last_None in Elast as ->. subst through. rewrite Z.eqb_refl. intros [= <- <- <-].
    exists [], log. split_and!; [done|done|done|done| |done|by left]. intros _ _. cbn [app] in Hl. rewrite Hl. apply Hwin.
    destruct stopped; [done|]. cbn. apply Nat.ltb_lt. destruct Hend as [-> ->]. cbn in Hsplit. rewrite Hsplit. cbn. unfold changeFeedCompactionBatch. lia.
Qed.

Lemma entry_at_late pre post n :
  StronglySorted (λ a b, e_seq a < e_seq b) (pre ++ post) → (∀ x, x ∈ pre → e_seq x < n) → entry_at n (pre ++ post) = entry_at n post.
Proof.
  intros Hs Hpre. induction pre as [|x pre IH]; [done|]. cbn [app] in *. apply StronglySorted_inv in Hs as [Hs _].
  rewrite <- IH; [|done|intros y Hy; apply Hpre; by right]. unfold entry_at. cbn. rewrite decide_False by (specialize (Hpre x ltac:(by left)); lia).
  by destruct (list_find _ _) as [[]|].
Qed.

(** The entries that stay are above the new floor, the removed ones are not. *)
Lemma batch_bounds s pre' e post :
  log_ok s → log_of s = (pre' ++ [e]) ++ post →
  through_of s < e_seq e <= allocated s ∧ (∀ x, x ∈ post → e_seq e < e_seq x) ∧ (∀ x, x ∈ pre' ++ [e] → e_seq x <= e_seq e).
Proof.
  intros [] Hl. rewrite Hl in *. split_and!.
  - apply lo_range0. apply elem_of_app. left. apply elem_of_app. right. by left.
  - apply lo_range0. apply elem_of_app. left. apply elem_of_app. right. by left.
  - intros x Hx. eapply sorted_split; [done|apply elem_of_app; right; by left|done].
  - intros x Hx. apply (sorted_last pre'); [by apply StronglySorted_app_1_l in lo_sorted0|done].
Qed.

Lemma batch_ok cutoff now s deleted final s' : log_ok s → compactChangeFeedBatch cutoff now s = inl (deleted, final, s') → log_ok s'.
Proof.
  intros Hok Hb. apply batch_spec in Hb as (pre & post & Hl & Hl' & _ & _ & _ & _ & [[_ ->]|(m & pre' & e & Hm & -> & Hs')]); [done| |done].
  destruct (batch_bounds _ _ _ _ Hok Hl) as (He & Hpost & Hpre). destruct Hok. rewrite Hl in *.
  assert (Ht' : through_of s' = e_seq e) by by rewrite Hs'. assert (Ha : allocated s' = allocated s) by by rewrite Hs'. split; rewrite ?Hl', ?Ht', ?Ha.
  - by apply StronglySorted_app_1_r in lo_sorted0.
  - intros x Hx. split; [by apply Hpost|]. apply lo_range0. apply elem_of_app. by right.
  - lia.
  - intros n Hn. destruct (lo_full0 n ltac:(lia)) as (x & [Hx|Hx]%elem_of_app & <-); [apply Hpre in Hx; lia|by exists x].
Qed.

Lemma batch_continues T cutoff now s deleted final s' : log_ok s → compactChangeFeedBatch cutoff now s = inl (deleted, final, s') → continues T s s'.
Proof.
  intros Hok Hb. pose proof (batch_ok _ _ _ _ _ _ Hok Hb) as Hok'.
  apply batch_spec in Hb as (pre & post & Hl & Hl' & _ & _ & _ & _ & [[_ ->]|(m & pre' & e & Hm & -> & Hs')]); [apply continues_refl| |done].
  destruct (batch_bounds _ _ _ _ Hok Hl) as (He & Hpost & Hpre). pose proof (lo_sorted _ Hok) as Hs. rewrite Hl in Hs.
  assert (Ht' : through_of s' = e_seq e) by by rewrite Hs'. assert (Ha : allocated s' = allocated s) by by rewrite Hs'.
  split; rewrite ?(head_allocated _ Hok), ?(head_allocated _ Hok'), ?Ht', ?Ha; [lia|lia| | |].
  - intros n Hn Hen. unfold digest_at. rewrite Hl, Hl', Ht'. destruct (decide (n = e_seq e)) as [->|Hne].
    + assert (Hd : entry_at (e_seq e) ((pre' ++ [e]) ++ post) = Some (digest_of e)).
      { apply entry_at_spec; [done|]. exists e. split_and!; [apply elem_of_app; left; apply elem_of_app; right; by left|done|done]. }
      rewrite Hd. destruct (entry_at (e_seq e) post) eqn:Ee.
      { apply entry_at_spec in Ee as (x & Hx%Hpost & ? & _); [lia|by apply StronglySorted_app_1_r in Hs]. }
      rewrite Z.eqb_refl. by rewrite Hs'.
    + rewrite entry_at_late; [|done|intros x Hx%Hpre; lia]. destruct (entry_at n post); [done|].
      rewrite (proj2 (Z.eqb_neq _ _) Hne). destruct (Z.eqb_spec n (through_of s)); [lia|done].
  - intros k _ Hk. by rewrite Hs' in Hk.
  - intros x Hx Hex. rewrite Hl in Hx. rewrite Hl'. apply elem_of_app in Hx as [Hx%Hpre|Hx]; [lia|done].
Qed.

Lemma batch_step P cutoff now s deleted final s' :
  feed_ok P s → compactChangeFeedBatch cutoff now s = inl (deleted, final, s') → feed_ok P s' ∧ ∀ Q, evolves Q s s'.
Proof.
  intros [Hok Hids Hrec Hkeyed] Hb. pose proof (batch_ok _ _ _ _ _ _ Hok Hb) as Hok'. assert (Hc := λ T, batch_continues T _ _ _ _ _ _ Hok Hb).
  assert (tables_of s' = tables_of s ∧ db_draws s' = db_draws s ∧ allocated s' = allocated s ∧ db_schema s' = db_schema s ∧ db_triggers s' = db_triggers s ∧ db_rows s' = db_rows s)
    as (Htab & Hdraws & Ha & Hsch & Htr & Hrows).
  { apply batch_spec in Hb as (? & ? & _ & _ & _ & _ & _ & _ & [[_ ->]|(? & ? & ? & _ & _ & ->)]); done. }
  split.
  - split; [done| | |].
    + intros T t. rewrite Htab, Ha, Hdraws. apply Hids.
    + intros T t HP. rewrite Htab. intros Ht0 suffix Hsuf. rewrite (installed_eq _ _ s) by done. by eapply Hrec.
    + intros T ddl columns k r. rewrite (rows_eq _ _ _ Hrows), Hsch. apply Hkeyed.
  - intros Q. split; [lia|]. intros T t _ Ht0. rewrite Htab in Ht0. right. exists t. by split_and!.
Qed.

Lemma compact_loop_step P fuel fails cutoff now total s n e s' :
  feed_ok P s → compact_loop fuel fails cutoff now total s = Some (n, e, s') → feed_ok P s' ∧ ∀ Q, evolves Q s s'.
Proof.
  revert total s. induction fuel as [|fuel IH]; intros total s Hok; cbn [compact_loop]; [done|].
  destruct (fails fuel); [intros [= _ _ <-]; split; [done|intros; apply evolves_refl]|].
  destruct (compactChangeFeedBatch cutoff now s) as [[[deleted final] s1]|] eqn:E; [|intros [= _ _ <-]; split; [done|intros; apply evolves_refl]].
  apply (batch_step P) in E as [Hok1 Hev1]; [|done]. destruct final; [by intros [= _ _ <-]|]. intros [Hok2 Hev2]%IH; [|done].
  split; [done|]. intros Q. by eapply evolves_trans.
Qed.

Lemma compact_step P fuel fails now retention s n e s' :
  feed_ok P s → CompactChangeFeed fuel fails now retention s = Some (n, e, s') → feed_ok P s' ∧ ∀ Q, evolves Q s s'.
Proof.
  intros Hok. unfold CompactChangeFeed. destruct (_ <=? _); [intros [= _ _ <-]; split; [done|intros; apply evolves_refl]|by apply compact_loop_step].
Qed.

(** What the whole loop removes, and that it ends. *)
Lemma loop_spec fuel fails cutoff now total s n e s' :
  log_ok s → compact_loop fuel fails cutoff now total s = Some (n, e, s') →
  ∃ pre post, log_of s = pre ++ post ∧ log_of s' = post ∧ (n = total + length pre)%nat ∧ Forall (λ x, e_at x < cutoff) pre
    ∧ (e = None → is_Some (meta_of s) → window_reached cutoff post).
Proof.
  assert (Hnil : ∀ s, ∃ pre post, log_of s = pre ++ post ∧ log_of s = post ∧ (total + 0 = total + length pre)%nat ∧ Forall (λ x, e_at x < cutoff) pre)
    by (intros s0; by exists [], (log_of s0)).
  revert total s Hnil. induction fuel as [|fuel IH]; intros total s Hnil Hok; cbn [compact_loop]; [done|].
  destruct (fails fuel); [intros [= <- <- <-]; exists [], (log_of s); split_and!; try done; cbn; lia|].
  destruct (compactChangeFeedBatch cutoff now s) as [[[deleted final] s1]|] eqn:E; [|intros [= <- <- <-]; exists [], (log_of s); split_and!; try done; cbn; lia].
  assert (Hok1 : log_ok s1).
  { by eapply batch_ok. }
  apply batch_spec in E as (pre & post & Hl & Hl1 & -> & Hold & Hwin & Hne & Hs1); [|done]. destruct final.
  - intros [= <- <- <-]. exists pre, post. split_and!; [done|done|done|done|]. intros _ Hm. by apply Hwin.
  - intros (pre2 & post2 & Hl2 & Hl' & -> & Hold2 & Hwin2)%IH; [|intros; by exists [], (log_of s0)|done].
    exists (pre ++ pre2), post2. split_and!; [by rewrite Hl, <- Hl1, Hl2, app_assoc|done|rewrite length_app; lia|by apply Forall_app|].
    intros He Hm. apply Hwin2; [done|]. destruct Hs1 as [[_ ->]|(m & pre' & e' & _ & _ & ->)]; [done|by eexists].
Qed.

Lemma loop_ends fuel fails cutoff now total s : log_ok s → (length (log_of s) < fuel)%nat → compact_loop fuel fails cutoff now total s ≠ None.
Proof.
  revert total s. induction fuel as [|fuel IH]; intros total s Hok Hf; [lia|]. cbn [compact_loop]. destruct (fails fuel); [done|].
  destruct (compactChangeFeedBatch cutoff now s) as [[[deleted final] s1]|] eqn:E; [|done]. destruct final; [done|].
  pose proof (batch_ok _ _ _ _ _ _ Hok E) as Hok1. apply batch_spec in E as (pre & post & Hl & Hl1 & _ & _ & _ & Hne & _); [|done].
  apply IH; [done|]. rewrite Hl1. rewrite Hl, length_app in Hf. destruct pre; [by destruct Hne|cbn in Hf; lia].
Qed.
End Compaction.

(** ** Opening a damaged archive *)

Section Open.
Context {ft : FeedText}.

Definition tracked (T : string) : Prop := T ∈ changeFeedTables.

(** Between two opens, other programs may have dropped objects of the feed or
    changed tables behind its triggers. What they cannot do is invent
    generations, rewrite a log that is still there, or change a table that they
    leave current in an archive whose log is not partial. *)
Record damaged (s s1 : feed_db) : Prop := {
  dm_draws : db_draws s1 = db_draws s;
  dm_tables T t : tables_of s1 !! T = Some t → tables_of s !! T = Some t;
  dm_sequence : db_sequence s1 = None ∨ db_sequence s1 = db_sequence s;
  dm_kept : present s1 = true → meta_of s1 ≠ None →
      log_of s1 = log_of s ∧ db_sequence s1 = db_sequence s ∧ through_of s1 = through_of s ∧ meta_of s1 ≫= fm_entry = meta_of s ≫= fm_entry;
  dm_rows T : present s1 = true → meta_of s1 ≠ None → tracked T → changeFeedTableCurrent T s1 = inl true → rows_of T s1 = rows_of T s;
  dm_keyed T : keyed T s1 }.

Lemma current_recording T s : changeFeedTableCurrent T s = inl true → recording T s.
Proof.
  unfold changeFeedTableCurrent. destruct (tables_of s !! T) as [t|]; [|done]. destruct (changeFeedExpected T s) as [[sha triggers]|] eqn:E; [|done].
  intros [= Hall] suffix Hsuf. apply andb_true_iff in Hall as [_ Hall]. apply expected_spec in E as (ddl & columns & Hs & _ & ->). apply installed_spec. exists ddl, columns.
  assert (trigger_name T suffix ∈ (changeFeedTriggerSQL T columns).*1) as ([n sql] & Hn & Hin)%list_elem_of_fmap by (rewrite trigger_names; by apply list_elem_of_fmap_2).
  cbn [fst] in Hn. subst n. exists sql. split_and!; [done|done|]. apply list_elem_of_In, (proj1 (forallb_forall _ _) Hall) in Hin. cbn [fst snd] in Hin. by apply bool_decide_eq_true in Hin.
Qed.

Lemma forallb_same {A} (f g : A → bool) l : (∀ x, x ∈ l → f x = g x) → forallb f l = forallb g l.
Proof. induction l as [|x l IH]; intros H; [done|]. cbn. rewrite H by by left. rewrite IH; [done|]. intros y Hy. apply H. by right. Qed.

(** Restarting other tables leaves a table current, or not. *)
Lemma current_other T s s' :
  db_schema s' = db_schema s → tables_of s' !! T = tables_of s !! T →
  (∀ suffix, suffix ∈ suffixes → db_triggers s' !! trigger_name T suffix = db_triggers s !! trigger_name T suffix) →
  changeFeedTableCurrent T s' = changeFeedTableCurrent T s.
Proof.
  intros Hs Ht Htr. unfold changeFeedTableCurrent. rewrite Ht. destruct (tables_of s !! T); [|done].
  assert (changeFeedExpected T s' = changeFeedExpected T s) as -> by (unfold changeFeedExpected; by rewrite Hs).
  destruct (changeFeedExpected T s) as [[sha triggers]|] eqn:E; [|done]. f_equal. f_equal.
  apply expected_spec in E as (ddl & columns & _ & _ & ->). apply forallb_same. intros p Hp.
  apply (list_elem_of_fmap_2 fst) in Hp. rewrite trigger_names in Hp. apply list_elem_of_fmap in Hp as (suffix & -> & Hsuf). by rewrite Htr.
Qed.

(** The loop over the tables: each is current and kept, or starts a fresh
    generation. *)
Lemma ensure_tables_step now partial tables P s s' :
  NoDup tables → feed_ok P s → ensure_tables now partial tables s = inl s' →
  feed_ok (λ T, T ∈ tables ∨ P T) s' ∧ (∀ Q, evolves Q s s') ∧ same_log s s'
  ∧ ∀ T, T ∈ tables → (changeFeedTableCurrent T s = inl true ∧ partial = false) ∨ ∀ t, tables_of s' !! T = Some t → fresh_id s s' (ft_id t).
Proof.
  revert P s. induction tables as [|T tables IH]; intros P s Hnd Hok; cbn [ensure_tables].
  { intros [= <-]. split_and!; [|intros; apply evolves_refl|done|by intros T ?%elem_of_nil]. eapply feed_ok_weaken; [|done]. by intros T [?%elem_of_nil|?]. }
  apply NoDup_cons in Hnd as [Hnin Hnd]. destruct (changeFeedTableCurrent T s) as [current|] eqn:Ec; [|done]. destruct (current && negb partial) eqn:Ekeep.
  - apply andb_prop in Ekeep as [-> Hp%negb_true_iff]. intros H. apply (IH (λ T', T' = T ∨ P T')) in H as (Hok' & Hev & Hsame & Hall); [|done|].
    + split_and!; [|done|done|].
      * eapply feed_ok_weaken; [|done]. intros T' [[->|?]%elem_of_cons|?]; auto.
      * intros T' [->|HT']%elem_of_cons; [by left|auto].
    + destruct Hok. split; [done|done| |done]. intros T' t [->|HP] Ht; [by apply current_recording|by eapply fo_recording0].
  - destruct (changeFeedRepairReason T s) as [reason|]; [|done]. cbv zeta. set (reason' := if _ : bool then _ else _).
    destruct (restart now T reason' s) as [s1|] eqn:Er; [|done]. apply (restart_step P) in Er as (Hok1 & Hev1 & Hfresh1 & Hsame1 & Hother1); [|done].
    destruct (Hev1 (λ _, True)) as [Hd1 _]. intros H. apply (IH (λ T', T' = T ∨ P T')) in H as (Hok' & Hev & Hsame & Hall); [|done|done]. split_and!.
    + eapply feed_ok_weaken; [|done]. intros T' [[->|?]%elem_of_cons|?]; auto.
    + intros Q. by eapply evolves_trans.
    + destruct Hsame as (?&?&?&?&?), Hsame1 as (?&?&?&?&?). split_and!; congruence.
    + intros T' [->|HT']%elem_of_cons.
      * right. intros t Ht. by apply (fresh_stays s s1 s' T).
      * assert (T' ≠ T) as Hne by (by intros ->). destruct (Hother1 T' Hne) as [Ht1 Htr1]. destruct (Hall T' HT') as [[Hcur Hp]|Hfresh].
        -- left. split; [|done]. rewrite <- Hcur. symmetry. apply current_other; [by destruct Hsame1 as (?&?&?&?&?)|done|done].
        -- right. intros t Ht. eapply fresh_later; [exact Hd1|]. by apply Hfresh.
Qed.

(** What the log's positions depend on. *)
Definition same_view (s s' : feed_db) : Prop :=
  log_of s' = log_of s ∧ allocated s' = allocated s ∧ through_of s' = through_of s ∧ meta_of s' ≫= fm_entry = meta_of s ≫= fm_entry.

Lemma view_ok s s' : same_view s s' → log_ok s → log_ok s'.
Proof. intros (El & Ea & Et & _) []. split; rewrite ?El, ?Ea, ?Et; done. Qed.

Lemma view_continues T s s' : same_view s s' → rows_of T s' = rows_of T s → continues T s s'.
Proof.
  intros (El & Ea & Et & Em) Er. assert (Eh : changeFeedHead s' = changeFeedHead s) by (unfold changeFeedHead; fold (allocated s) (allocated s'); by rewrite El, Ea, Et).
  split; rewrite ?Eh, ?Et; [lia|lia| | |by rewrite El].
  - intros n _ _. unfold digest_at. by rewrite El, Et, Em.
  - intros k _ Hk. by rewrite Er in Hk.
Qed.

Lemma fold_seq_spec (m : gmap string feed_table) :
  0 <= map_fold (λ _ t b, Z.max (ft_seq t) b) 0 m ∧ ∀ b, 0 <= b → map_fold (λ _ t b, Z.max (ft_seq t) b) 0 m <= b ↔ ∀ T t, m !! T = Some t → ft_seq t <= b.
Proof.
  apply (map_fold_weak_ind (λ x m, 0 <= x ∧ ∀ b, 0 <= b → x <= b ↔ ∀ T t, m !! T = Some t → ft_seq t <= b)).
  { split; [done|]. intros b Hb. split; [by intros _ T t; rewrite lookup_empty|done]. }
  intros T t m' x Hn [Hx IH]. split; [lia|]. intros b Hb. rewrite Z.max_lub_iff, IH by done. split.
  - intros [H1 H2] T' t'. intros [[<- <-]|[_ ?]]%lookup_insert_Some; eauto.
  - intros H. split; [apply (H T); by rewrite lookup_insert_eq|]. intros T' t' Ht'. apply (H T'). rewrite lookup_insert_ne; [done|]. intros ->. congruence.
Qed.

Definition retained_floor (s : feed_db) : Z :=
  Z.max (through_of s) (Z.max (map_fold (λ _ t m, Z.max (ft_seq t) m) 0 (tables_of s)) (max_seq (log_of s))).

Lemma objects_spec s :
  let s' := ensure_objects s in
  db_schema s' = db_schema s ∧ db_rows s' = db_rows s ∧ db_triggers s' = db_triggers s ∧ db_draws s' = db_draws s ∧ tables_of s' = tables_of s
  ∧ log_of s' = log_of s ∧ through_of s' = through_of s ∧ meta_of s' ≫= fm_entry = meta_of s ≫= fm_entry ∧ is_Some (meta_of s')
  ∧ allocated s' = if retained_floor s =? 0 then allocated s else Z.max (allocated s) (retained_floor s).
Proof.
  cbv zeta. unfold ensure_objects, restoreChangeLogAllocator. cbv zeta.
  change (Z.max (through_of _) _) with (retained_floor s). destruct (retained_floor s =? 0) eqn:E.
  - cbn. unfold through_of, meta_of, allocated. cbn. destruct (db_meta s) as [[m|]|]; cbn; split_and!; try done; by eexists.
  - cbn. unfold through_of, meta_of, allocated. cbn. destruct (db_meta s) as [[m|]|]; cbn; split_and!; try done; try (by eexists);
      destruct (Z.ltb_spec (default 0 (db_sequence s)) (retained_floor s)); lia.
Qed.

Lemma tracked_nodup : NoDup changeFeedTables.
Proof. apply (bool_decide_unpack _). vm_compute. exact I. Qed.

Lemma all_current_spec tables s : all_current tables s = inl true → ∀ T, T ∈ tables → changeFeedTableCurrent T s = inl true.
Proof.
  induction tables as [|T tables IH]; cbn; [by intros _ T ?%elem_of_nil|]. destruct (changeFeedTableCurrent T s) as [[|]|] eqn:E; [|done..].
  intros H T' [->|?]%elem_of_cons; [done|auto].
Qed.

(** An archive in which nothing needs repair. *)
Lemma intact_step s s1 :
  feed_ok tracked s → damaged s s1 → changeFeedCurrent s1 = inl true → feed_ok tracked s1 ∧ evolves tracked s s1.
Proof.
  intros Hok [Hd Htab _ Hkept Hrows Hkeyed]. unfold changeFeedCurrent. destruct (present s1) eqn:Hp; [|done]. cbn [negb].
  destruct (meta_of s1) as [m|] eqn:Em; [|done]. destruct (negb _); [done|]. destruct (negb _); [done|]. intros Hall.
  destruct (Hkept eq_refl ltac:(congruence)) as (El & Eq & Et & Ee). rewrite <- Em in Ee. assert (Ha : allocated s1 = allocated s) by (unfold allocated; by rewrite Eq).
  assert (Hview : same_view s s1) by by split_and!. split.
  - split; [by apply (view_ok s), Hok| | |done].
    + intros T t Ht%Htab. destruct (fo_ids _ _ Hok _ _ Ht) as (? & i & ? & ?). rewrite Ha, Hd. split; [done|]. by exists i.
    + intros T t HT _. apply current_recording. by eapply all_current_spec.
  - split; [lia|]. intros T t HT Ht. right. exists t. split_and!; [by apply Htab|done|]. apply view_continues; [done|].
    apply Hrows; [done|congruence|done|by eapply all_current_spec].
Qed.

Lemma allocated_nonneg P s s1 : feed_ok P s → damaged s s1 → 0 <= allocated s1.
Proof.
  intros Hok Hdm. destruct (lo_through _ (fo_log _ _ Hok)). unfold allocated in *. destruct (dm_sequence _ _ Hdm) as [->| ->]; cbn; lia.
Qed.

(** The objects of a log that is still there: nothing moves. *)
Lemma objects_kept s s1 :
  feed_ok tracked s → damaged s s1 → present s1 = true → meta_of s1 ≠ None → same_view s (ensure_objects s1).
Proof.
  intros Hok Hdm Hp Hm. destruct (dm_kept _ _ Hdm Hp Hm) as (El & Eq & Et & Ee).
  destruct (objects_spec s1) as (_ & _ & _ & _ & _ & Hl & Ht & He & _ & Ha). split_and!; [by rewrite Hl|rewrite Ha|by rewrite Ht|by rewrite He].
  assert (allocated s1 = allocated s) as -> by (unfold allocated; by rewrite Eq). destruct (retained_floor s1 =? 0); [done|].
  destruct (lo_through _ (fo_log _ _ Hok)). assert (retained_floor s1 <= allocated s); [|lia]. unfold retained_floor. rewrite Et, El.
  assert (map_fold (λ _ t m, Z.max (ft_seq t) m) 0 (tables_of s1) <= allocated s).
  { apply fold_seq_spec; [lia|]. intros T t HT%(dm_tables _ _ Hdm). by apply (fo_ids _ _ Hok) in HT as [? _]. }
  pose proof (max_seq_le (log_of s) (allocated s) ltac:(lia) (λ e He, proj2 (lo_range _ (fo_log _ _ Hok) e He))). lia.
Qed.

(** A partial feed: the log is emptied and the head becomes the floor. *)
Lemma objects_restored now s s1 :
  feed_ok tracked s → damaged s s1 →
  let s3 := restore_floor now (ensure_objects s1) in
  log_ok s3 ∧ (∀ T t, tables_of s1 !! T = Some t → ft_seq t <= allocated s3)
  ∧ db_schema s3 = db_schema s1 ∧ db_rows s3 = db_rows s1 ∧ db_draws s3 = db_draws s1 ∧ tables_of s3 = tables_of s1.
Proof.
  intros Hok Hdm s3. pose proof (allocated_nonneg _ _ _ Hok Hdm) as Hpos.
  destruct (objects_spec s1) as (Hs & Hr & _ & Hd & Htab & Hl & Ht & _ & [m Hm] & Ha). unfold s3, restore_floor. cbv zeta.
  set (s2 := ensure_objects s1) in *. change (meta_of (with_log _ _ s2)) with (meta_of s2). rewrite Hm.
  pose proof (proj1 (fold_seq_spec (tables_of s1))) as Hf. pose proof (max_seq_nonneg (log_of s1)).
  assert (Hbound : retained_floor s1 <= allocated s2) by (rewrite Ha; destruct (Z.eqb_spec (retained_floor s1) 0); lia).
  assert (Hhead : changeFeedHead s2 = allocated s2) by (unfold changeFeedHead; fold (allocated s2); rewrite Hl, Ht; unfold retained_floor in Hbound; lia).
  assert (Hempty : List.filter (λ e, negb (e_seq e <=? changeFeedHead s2)) (log_of s2) = []).
  { apply filter_none. intros e He. apply negb_false_iff, Z.leb_le. rewrite Hhead, Hl in *.
    assert (Hmax : ∀ l, e ∈ l → e_seq e <= max_seq l) by (induction l as [|x l IH]; [by intros ?%elem_of_nil|]; unfold max_seq in *; cbn; intros [->|Hin%IH]%elem_of_cons; lia).
    apply Hmax in He. unfold retained_floor in Hbound. lia. }
  rewrite Hempty, Hhead. assert (0 <= allocated s2) by (rewrite Ha; destruct (_ =? _); lia). split_and!; try done.
  - match goal with |- log_ok ?s3 => assert (log_of s3 = [] ∧ through_of s3 = allocated s2 ∧ allocated s3 = allocated s2) as (E1 & E2 & E3) by done end.
    split; rewrite ?E1, ?E2, ?E3; [apply SSorted_nil|by intros e ?%elem_of_nil|lia|lia].
  - intros T t HT. change (allocated (with_meta _ _)) with (allocated s2).
    assert (ft_seq t <= map_fold (λ _ t m, Z.max (ft_seq t) m) 0 (tables_of s1)) by (eapply (proj2 (fold_seq_spec (tables_of s1))); [done|done|exact HT]).
    unfold retained_floor in Hbound. lia.
Qed.

Lemma ensured_ids P s s1 s2 :
  feed_ok P s → damaged s s1 → db_draws s2 = db_draws s1 → tables_of s2 = tables_of s1 → (∀ T t, tables_of s1 !! T = Some t → ft_seq t <= allocated s2) →
  ∀ T t, tables_of s2 !! T = Some t → ft_seq t <= allocated s2 ∧ ∃ i, (i < db_draws s2)%nat ∧ ft_id t = generation_id i.
Proof.
  intros Hok Hdm Hd Ht Hseq T t. rewrite Ht. intros HT. split; [by eapply Hseq|]. apply (dm_tables _ _ Hdm) in HT.
  destruct (fo_ids _ _ Hok _ _ HT) as (_ & i & Hi & ?). exists i. rewrite Hd, (dm_draws _ _ Hdm). done.
Qed.

Lemma repair_step now s s1 s' :
  feed_ok tracked s → damaged s s1 → ensureChangeFeedTx now s1 = inl s' → feed_ok tracked s' ∧ evolves tracked s s'.
Proof.
  intros Hok Hdm. unfold ensureChangeFeedTx. cbv zeta. set (partial := _ || _). set (s2 := if partial then _ else _). intros He.
  destruct (objects_spec s1) as (Hs & Hr & Htr & Hd & Htab & _).
  assert (Hs2 : feed_ok (λ _, False) s2 ∧ db_draws s2 = db_draws s ∧ (partial = false → same_view s s2 ∧ s2 = ensure_objects s1)).
  { assert (Hkeyed : ∀ s2, db_schema s2 = db_schema s1 → db_rows s2 = db_rows s1 → ∀ T, keyed T s2)
      by (intros s3 H1 H2 T ddl columns k r; rewrite H1, (rows_eq _ _ _ H2); apply (dm_keyed _ _ Hdm)).
    destruct partial eqn:Ep; unfold s2.
    - destruct (objects_restored now s s1 Hok Hdm) as (Hlog & Hseq & H1 & H2 & H3 & H4). split_and!; [|by rewrite H3, (dm_draws _ _ Hdm)|done].
      split; [done|by eapply ensured_ids|done|by apply Hkeyed].
    - unfold partial in Ep. apply orb_false_iff in Ep as [Hp%negb_false_iff Hm%bool_decide_eq_false].
      pose proof (objects_kept s s1 Hok Hdm Hp Hm) as Hview. split_and!; [|by rewrite Hd, (dm_draws _ _ Hdm)|done].
      split; [by apply (view_ok s), Hok| |done|by apply Hkeyed]. eapply ensured_ids; [done|done|done|done|].
      intros T t HT%(dm_tables _ _ Hdm). apply (fo_ids _ _ Hok) in HT as [? _]. by destruct Hview as (_ & -> & _). }
  destruct Hs2 as (Hok2 & Hd2 & Hview).
  apply (ensure_tables_step _ _ _ (λ _, False)) in He as (Hok' & Hev & Hsame & Hall); [|apply tracked_nodup|done]. destruct (Hev (λ _, True)) as [Hd' Hev'].
  split; [eapply feed_ok_weaken; [|done]; by left|]. split; [lia|]. intros T t' HT Ht'.
  assert (Hfresh : fresh_id s2 s' (ft_id t') → fresh_id s s' (ft_id t')) by (intros; eapply fresh_later; [|done]; lia).
  destruct (Hall T HT) as [[Hcur Hp]|Hf]; [|left; by apply Hfresh, Hf].
  destruct (Hev' T t' I Ht') as [?|(t & Ht & Hid & Hc)]; [left; auto|]. right. destruct (Hview Hp) as [Hv Hs2]. rewrite Hs2, Htab in Ht.
  exists t. split_and!; [by apply (dm_tables _ _ Hdm)|done|]. eapply continues_trans; [|exact Hc]. apply view_continues; [done|]. rewrite Hs2, (rows_eq _ _ _ Hr).
  unfold partial in Hp. apply orb_false_iff in Hp as [Hp%negb_false_iff Hm%bool_decide_eq_false]. apply (dm_rows _ _ Hdm); [done|done|done|].
  rewrite <- Hcur, Hs2. symmetry. apply current_other; [done|by rewrite Htab|by rewrite Htr].
Qed.

Lemma open_step now s s1 s' :
  feed_ok tracked s → damaged s s1 → ensureChangeFeed now s1 = (None, s') → feed_ok tracked s' ∧ evolves tracked s s'.
Proof.
  intros Hok Hdm. unfold ensureChangeFeed. destruct (changeFeedCurrent s1) as [[|]|] eqn:E; [| |done].
  - intros [= <-]. by apply intact_step.
  - destruct (ensureChangeFeedTx now s1) as [s2|] eqn:Et; [|done]. intros [= <-]. by eapply repair_step.
Qed.
End Open.

(** ** Runs *)

Section Runs.
Context {ft : FeedText}.

(** A committed transaction of a writer, a snapshot replacement, the start of
    generations, a compaction that may be cut short, or an open after damage.
    A transaction that fails is no step. *)
Inductive feed_step : feed_db → feed_db → Prop :=
  | step_write ws s s' : apply_writes ws s = Some s' → feed_step s s'
  | step_replace now tables ws s s' : replace_tables now tables ws s = Some s' → feed_step s s'
  | step_bump now reason tables s s' : BumpChangeFeedGenerationTx now reason tables s = inl s' → feed_step s s'
  | step_compact fuel fails now retention n e s s' : CompactChangeFeed fuel fails now retention s = Some (n, e, s') → feed_step s s'
  | step_open now s s1 s' : damaged s s1 → ensureChangeFeed now s1 = (None, s') → feed_step s s'.

(** The run of a reader of one table next to them. *)
Inductive reader_step (T : string) : feed_db * reader → feed_db * reader → Prop :=
  | reader_waits s s' r : feed_step s s' → reader_step T (s, r) (s', r)
  | reader_captures s r : reader_step T (s, r) (s, capture T s r).

(** An archive before its first open with a feed. *)
Definition unfed (s : feed_db) : Prop :=
  db_log s = None ∧ db_sequence s = None ∧ db_tables s = None ∧ db_meta s = None ∧ db_draws s = 0%nat ∧ ∀ T, keyed T s.

Lemma unfed_ok s : unfed s → feed_ok tracked s.
Proof.
  intros (Hl & Hq & Ht & Hm & Hd & Hk). assert (log_of s = [] ∧ through_of s = 0 ∧ allocated s = 0 ∧ tables_of s = ∅) as (E1 & E2 & E3 & E4)
    by (unfold log_of, through_of, meta_of, allocated, tables_of; by rewrite Hl, Hq, Ht, Hm).
  split; [|by rewrite E4|by rewrite E4|done]. split; rewrite ?E1, ?E2, ?E3; [apply SSorted_nil|by intros e ?%elem_of_nil|lia|lia].
Qed.

Lemma feed_step_ok s s' : feed_ok tracked s → feed_step s s' → feed_ok tracked s' ∧ evolves tracked s s'.
Proof.
  intros Hok Hstep. destruct Hstep as [ws s s' H|now tables ws s s' H|now reason tables s s' H|fuel fails now retention n e s s' H|now s s1 s' Hdm H].
  - by destruct (writes_step _ _ _ _ Hok H) as (? & ? & _).
  - by apply (replace_step _ now tables ws).
  - destruct (bump_step _ _ _ _ _ _ Hok H) as (_ & ? & ?). auto.
  - destruct (compact_step _ _ _ _ _ _ _ _ _ Hok H). auto.
  - by eapply open_step.
Qed.

Lemma feed_run_ok s s' : feed_ok tracked s → rtc feed_step s s' → feed_ok tracked s'.
Proof. intros Hok Hrun. induction Hrun as [|s s1 s' Hs _ IH]; [done|]. apply IH. by eapply feed_step_ok. Qed.

Lemma capture_in_step T s r : feed_ok tracked s → in_step T s r → in_step T s (capture T s r).
Proof.
  intros Hok Hin. unfold in_step. destruct (rd_cursor (capture T s r)) as [c|] eqn:Ec; [|done].
  assert (Hcopy := capture_exact T s r Hin). unfold capture in Ec. destruct (tables_of s !! T) as [t|] eqn:Et; [|done]. cbn [rd_cursor] in Ec. injection Ec as <-.
  destruct (fo_ids _ _ Hok _ _ Et) as (_ & i & Hi & Hid). split; [by exists i|]. intros t' [= <-] _. split; [done|]. intros _. split; [done|].
  intros k Hk. by rewrite Hcopy in Hk.
Qed.

Context (Hdraws : ∀ i j, generation_id i = generation_id j → i = j).

Lemma reader_run_ok T s r s' r' :
  tracked T → feed_ok tracked s → in_step T s r → rtc (reader_step T) (s, r) (s', r') → feed_ok tracked s' ∧ in_step T s' r'.
Proof.
  intros HT Hok Hin Hrun. remember (s, r) as x eqn:Ex. remember (s', r') as y eqn:Ey. revert s r Ex Hok Hin. induction Hrun as [x|x x1 y Hs _ IH]; intros s r -> Hok Hin.
  - by injection Ey as <- <-.
  - inversion Hs as [s0 s1 r0 Hf|s0 r0]; subst.
    + destruct (feed_step_ok _ _ Hok Hf) as [Hok1 Hev]. eapply IH; [done|done|done|]. by eapply (in_step_evolves Hdraws tracked).
    + eapply IH; [done|done|done|]. by apply capture_in_step.
Qed.

(** A cursor of the current generation is valid until the floor passes it. *)
Lemma cursor_stays_valid T s r c t :
  feed_ok tracked s → in_step T s r → rd_cursor r = Some c → tables_of s !! T = Some t → ft_id t = cu_generation c → through_of s <= cu_seq c →
  cursor_valid c (ft_id t) s = true.
Proof.
  unfold in_step. intros Hok Hin Hc Ht Hid Hthrough. rewrite Hc in Hin. destruct Hin as [_ Hin]. destruct (Hin t Ht Hid) as [Hseq Hrest]. destruct (Hrest Hthrough) as [Hdig _].
  unfold cursor_valid. rewrite Hid, String.eqb_refl. rewrite (proj2 (Z.leb_le _ _) Hthrough), (proj2 (Z.leb_le _ _) Hseq). cbn [andb]. rewrite Hdig. unfold digest_at.
  destruct (entry_at (cu_seq c) (log_of s)) eqn:E; [by apply bool_decide_eq_true_2|]. destruct (Z.eqb_spec (cu_seq c) (through_of s)); [by apply bool_decide_eq_true_2|].
  rewrite (head_allocated _ (fo_log _ _ Hok)) in Hseq. destruct (lo_full _ (fo_log _ _ Hok) (cu_seq c)) as (e & He & Hn); [lia|].
  by apply (entry_at_none _ _ E) in He.
Qed.
End Runs.

(** C15: a reader that follows the protocol of docs/guides/change-feed.md holds
    exactly the rows of its table after each capture, in every run from an
    archive without a feed: logged writes, snapshot replacements, new
    generations, compactions that may stop half-way, and opens that repair a
    feed whose objects were dropped or bypassed. The reader's cursor is accepted
    as long as its generation lasts and the compaction floor has not passed it,
    so that only then it reads the whole table again. Generation ids are random
    and are assumed never to repeat. *)
Theorem feed_reader_copies_exactly `{FeedText} (Hdraws : ∀ i j, generation_id i = generation_id j → i = j) T s0 s r :
  T ∈ changeFeedTables → unfed s0 → rtc (reader_step T) (s0, new_reader) (s, r) →
  rd_rows (capture T s r) = rows_of T s
  ∧ ∀ c t, rd_cursor r = Some c → tables_of s !! T = Some t → ft_id t = cu_generation c → through_of s <= cu_seq c → cursor_valid c (ft_id t) s = true.
Proof.
  intros HT Hstart Hrun. destruct (reader_run_ok Hdraws T s0 new_reader s r HT (unfed_ok _ Hstart) I Hrun) as [Hok Hin].
  split; [by apply capture_exact|]. intros c t ? ? ? ?. by eapply cursor_stays_valid.
Qed.

(** C36: compaction ends, and removes exactly a prefix of the log whose entries
    are all older than the retention; when it ends without an error, the first
    entry that is left is inside the window. The number of rounds is bounded by
    the length of the log, however the context or a transaction fails. *)
Theorem compaction_keeps_the_window `{FeedText} s0 s fails now retention :
  unfed s0 → rtc feed_step s0 s →
  ∃ n e s' pre, CompactChangeFeed (S (length (log_of s))) fails now retention s = Some (n, e, s')
    ∧ log_of s = pre ++ log_of s' ∧ n = length pre ∧ Forall (λ x, e_at x < (now - retention) / 1000000) pre
    ∧ (e = None → is_Some (meta_of s) → window_reached ((now - retention) / 1000000) (log_of s')).
Proof.
  intros Hstart Hrun. pose proof (fo_log _ _ (feed_run_ok _ _ (unfed_ok _ Hstart) Hrun)) as Hok. unfold CompactChangeFeed.
  destruct (retention <=? 0); [exists 0%nat; do 2 eexists; exists []; by split_and!|].
  destruct (compact_loop _ _ _ _ _ _) as [[[n e] s']|] eqn:E; [|by apply loop_ends in E; [|done|lia]].
  apply loop_spec in E as (pre & post & Hl & Hl' & -> & Hold & Hwin); [|done]. exists (length pre), e, s', pre. rewrite Hl'. by split_and!.
Qed.

(** ** Witnesses *)

Section witnesses.
#[local] Instance plain_feed_text : FeedText := { schema_sha256 s := s; generation_id i := pretty i }.

Definition plain_columns : list changeFeedColumn := [mkColumn "id" 1; mkColumn "body" 0].
Definition plain_archive : feed_db :=
  mkDB (list_to_map (map (λ T, (T, ("create table"%string, plain_columns))) changeFeedTables)) ∅ None None None None None ∅ 0.

Definition opened_archive : feed_db := (ensureChangeFeed 5 plain_archive).2.
Definition text_row (id body : string) : row := [Plain id; Plain body].
Definition after_writes (ws : list (Z * string * native_write)) (s : feed_db) : feed_db := default s (apply_writes ws s).

Definition guild_inserts : list (Z * string * native_write) := [(1, "guilds", WInsert (text_row "1" "a")); (1, "guilds", WInsert (text_row "2" "b"))]%string.
Definition guild_edits : list (Z * string * native_write) :=
  [(900000, "guilds", WUpdate [Plain "1"] (text_row "3" "c")); (900000, "guilds", WDelete [Plain "2"])]%string.
Definition two_guilds : feed_db := after_writes guild_inserts opened_archive.
Definition first_copy : reader := capture "guilds" two_guilds new_reader.
Definition edited_guilds : feed_db := after_writes guild_edits two_guilds.
Definition compacted_guilds : feed_db := match CompactChangeFeed 9 (λ _, None) 1000000000000 400000000000 edited_guilds with Some (_, _, s) => s | None => edited_guilds end.

Lemma plain_archive_unfed : unfed plain_archive.
Proof. by split_and!. Qed.

Lemma damaged_refl (s : feed_db) : (∀ T, keyed T s) → damaged s s.
Proof. intros Hk. split; try done. by right. Qed.

Definition is_some {A} (o : option A) : bool := match o with Some _ => true | None => false end.

(** Only whether the operation succeeds is computed. *)
Lemma ensured now s : (ensureChangeFeed now s).1 = None → ensureChangeFeed now s = (None, (ensureChangeFeed now s).2).
Proof. intros <-. by destruct (ensureChangeFeed now s). Qed.
Lemma written ws s : is_some (apply_writes ws s) = true → apply_writes ws s = Some (after_writes ws s).
Proof. unfold after_writes. by destruct (apply_writes ws s). Qed.

Lemma open_run : feed_step plain_archive opened_archive.
Proof. apply (step_open 5 _ plain_archive); [by apply damaged_refl, plain_archive_unfed|apply ensured; vm_compute; reflexivity]. Qed.
Lemma insert_run : feed_step opened_archive two_guilds.
Proof. apply (step_write guild_inserts), written. vm_compute. reflexivity. Qed.
Lemma edit_run : feed_step two_guilds edited_guilds.
Proof. apply (step_write guild_edits), written. vm_compute. reflexivity. Qed.
Lemma compacted : is_some (CompactChangeFeed 9 (λ _, None) 1000000000000 400000000000 edited_guilds) = true.
Proof. vm_compute. reflexivity. Qed.
Lemma compact_run : feed_step edited_guilds compacted_guilds.
Proof.
  pose proof compacted as H. unfold compacted_guilds. destruct (CompactChangeFeed _ _ _ _ _) as [[[n e] s]|] eqn:E; [|done]. exact (step_compact _ _ _ _ _ _ _ _ E).
Qed.
Lemma guilds_tracked : "guilds"%string ∈ changeFeedTables.
Proof. apply (bool_decide_unpack _). vm_compute. exact I. Qed.
Lemma first_copied : reader_step "guilds" (two_guilds, new_reader) (two_guilds, first_copy).
Proof. exact (reader_captures "guilds" two_guilds new_reader). Qed.
Lemma guilds_run : rtc (reader_step "guilds") (plain_archive, new_reader) (compacted_guilds, first_copy).
Proof.
  apply (rtc_l _ _ (opened_archive, new_reader)); [exact (reader_waits _ _ _ _ open_run)|].
  apply (rtc_l _ _ (two_guilds, new_reader)); [exact (reader_waits _ _ _ _ insert_run)|].
  apply (rtc_l _ _ (two_guilds, first_copy)); [exact first_copied|].
  apply (rtc_l _ _ (edited_guilds, first_copy)); [exact (reader_waits _ _ _ _ edit_run)|].
  apply rtc_once. exact (reader_waits _ _ _ _ compact_run).
Qed.

(** The reader copies two guilds, one is renamed and one deleted, and the
    inserts are compacted: its next capture replays the edits. *)
Lemma feed_reader_copies_exactly_witness :
  let r := capture "guilds" compacted_guilds first_copy in
  rd_rows first_copy !! [Plain "1"] = Some (text_row "1" "a") ∧ rd_rows r = rows_of "guilds" compacted_guilds ∧ rd_rows r !! [Plain "3"] = Some (text_row "3" "c").
Proof.
  assert (Hinj : ∀ i j, generation_id i = generation_id j → i = j) by (intros i j H; by apply (inj pretty) in H).
  split; [vm_compute; reflexivity|]. split; [|vm_compute; reflexivity].
  exact (proj1 (feed_reader_copies_exactly Hinj "guilds" plain_archive compacted_guilds first_copy guilds_tracked plain_archive_unfed guilds_run)).
Defined.

Lemma compaction_keeps_the_window_witness :
  ∃ n e s' pre, CompactChangeFeed (S (length (log_of edited_guilds))) (λ _, None) 1000000000000 400000000000 edited_guilds = Some (n, e, s')
    ∧ log_of edited_guilds = pre ++ log_of s' ∧ n = length pre ∧ Forall (λ x, e_at x < 600000) pre
    ∧ (e = None → is_Some (meta_of edited_guilds) → window_reached 600000 (log_of s')).
Proof.
  apply (compaction_keeps_the_window plain_archive edited_guilds (λ _, None) 1000000000000 400000000000); [exact plain_archive_unfed|].
  apply (rtc_l _ _ opened_archive); [exact open_run|]. apply (rtc_l _ _ two_guilds); [exact insert_run|]. apply rtc_once. exact edit_run.
Defined.
End witnesses.
