(* ===== verification/Runes.v ===== *)
(** * Runes of a Go string

    The conversions [[]rune(s)] and [string(runes)] of the language (UTF-8, an
    invalid byte reads as U+FFFD, and so does every value that is no Unicode
    scalar when written), and [capRunes] of internal/store/embeddings.go, which
    cuts texts to a number of characters. *)
From S2P Require Import Prelude.
Local Open Scope Z_scope.

Definition RuneError : Z := 65533.

Definition continues (b : Z) : bool := (128 <=? b) && (b <=? 191).
(** The first two bytes of a longer sequence: no overlong form, no surrogate,
    nothing above U+10FFFF. *)
Definition starts_two (a : Z) : bool := (194 <=? a) && (a <=? 223).
Definition starts_three (a b : Z) : bool :=
  (224 <=? a) && (a <=? 239) && continues b && negb ((a =? 224) && (b <? 160)) && negb ((a =? 237) && (160 <=? b)).
Definition starts_four (a b : Z) : bool :=
  (240 <=? a) && (a <=? 244) && continues b && negb ((a =? 240) && (b <? 144)) && negb ((a =? 244) && (144 <=? b)).

(** [[]rune(s)]. *)
Fixpoint runes (s : string) : list Z :=
  match s with
  | EmptyString => []
  | String x t =>
      let a := byte_of x in
      if a <? 128 then a :: runes t
      else match t with
           | EmptyString => [RuneError]
           | String y t1 =>
               let b := byte_of y in
               if starts_two a && continues b then (a - 192) * 64 + (b - 128) :: runes t1
               else match t1 with
                    | EmptyString => RuneError :: runes t
                    | String z t2 =>
                        let c := byte_of z in
                        if starts_three a b && continues c
                        then (a - 224) * 4096 + (b - 128) * 64 + (c - 128) :: runes t2
                        else match t2 with
                             | EmptyString => RuneError :: runes t
                             | String w t3 =>
                                 let d := byte_of w in
                                 if starts_four a b && continues c && continues d
                                 then (a - 240) * 262144 + (b - 128) * 4096 + (c - 128) * 64 + (d - 128) :: runes t3
                                 else RuneError :: runes t
                             end
                    end
           end
  end.

Definition is_rune (r : Z) : bool := (0 <=? r) && (r <? 55296) || (57344 <=? r) && (r <? 1114112).

Definition byte (z : Z) : ascii := ascii_of_N (Z.to_N z).

Definition encode_rune (r : Z) : string :=
  let r := if is_rune r then r else RuneError in
  if r <? 128 then String (byte r) ""
  else if r <? 2048 then String (byte (192 + r / 64)) (String (byte (128 + r mod 64)) "")
  else if r <? 65536 then
    String (byte (224 + r / 4096)) (String (byte (128 + r / 64 mod 64)) (String (byte (128 + r mod 64)) ""))
  else String (byte (240 + r / 262144)) (String (byte (128 + r / 4096 mod 64))
         (String (byte (128 + r / 64 mod 64)) (String (byte (128 + r mod 64)) ""))).

(** [string(runes)]. *)
Fixpoint string_of_runes (rs : list Z) : string :=
  match rs with
  | [] => ""
  | r :: rest => encode_rune r ++ string_of_runes rest
  end.

(** [capRunes]. *)
Definition capRunes (value : string) (maxChars : Z) : string :=
  if maxChars <=? 0 then value
  else let rs := runes value in
       if Z.of_nat (length rs) <=? maxChars then value else string_of_runes (firstn (Z.to_nat maxChars) rs).

Example capRunes_ascii : capRunes "hello" 3 = "hel"%string.
Proof. reflexivity. Qed.
(** "é", "€" and an emoji are one rune each; a broken byte is one too. *)
Example runes_widths : runes (String (byte 195) (String (byte 169) (String (byte 226) (String (byte 130) (String (byte 172)
  (String (byte 240) (String (byte 159) (String (byte 152) (String (byte 128) (String (byte 255) "x"))))))))))
  = [233; 8364; 128512; 65533; 120].
Proof. reflexivity. Qed.

(** ** Reading back what was written *)

Lemma byte_of_byte z : 0 <= z < 256 → byte_of (byte z) = z.
Proof.
  intros Hz. unfold byte_of, byte. rewrite N_ascii_embedding by lia. lia.
Qed.

Lemma byte_range c : 0 <= byte_of c < 256.
Proof. unfold byte_of. pose proof (N_ascii_bounded c). lia. Qed.

#[local] Arguments byte : simpl never.
#[local] Arguments byte_of : simpl never.
#[local] Arguments Z.mul : simpl never.
#[local] Arguments Z.add : simpl never.
#[local] Arguments Z.ltb : simpl never.
#[local] Arguments Z.leb : simpl never.

(** Decides the comparisons of a goal by arithmetic. *)
Ltac decide_tests :=
  repeat match goal with
  | |- context [?a <? ?b] => first [rewrite (proj2 (Z.ltb_lt a b)) by lia | rewrite (proj2 (Z.ltb_ge a b)) by lia]
  | |- context [?a <=? ?b] => first [rewrite (proj2 (Z.leb_le a b)) by lia | rewrite (proj2 (Z.leb_gt a b)) by lia]
  | |- context [?a =? ?b] => first [rewrite (proj2 (Z.eqb_eq a b)) by lia | rewrite (proj2 (Z.eqb_neq a b)) by lia]
  end.

Ltac Zdivs := Z.to_euclidean_division_equations; lia.

Lemma three_starts a b : 224 <= a <= 239 → 128 <= b <= 191 → (a = 224 → 160 <= b) → (a = 237 → b < 160) → starts_three a b = true.
Proof.
  intros ? ? ? ?. unfold starts_three, continues. decide_tests. cbn [andb].
  apply andb_true_iff. rewrite !negb_true_iff. split; apply andb_false_iff.
  - destruct (Z.eqb_spec a 224); [right; apply Z.ltb_ge; lia|by left].
  - destruct (Z.eqb_spec a 237); [right; apply Z.leb_gt; lia|by left].
Qed.

Lemma four_starts a b : 240 <= a <= 244 → 128 <= b <= 191 → (a = 240 → 144 <= b) → (a = 244 → b < 144) → starts_four a b = true.
Proof.
  intros ? ? ? ?. unfold starts_four, continues. decide_tests. cbn [andb].
  apply andb_true_iff. rewrite !negb_true_iff. split; apply andb_false_iff.
  - destruct (Z.eqb_spec a 240); [right; apply Z.ltb_ge; lia|by left].
  - destruct (Z.eqb_spec a 244); [right; apply Z.leb_gt; lia|by left].
Qed.

(** One rune off the front, by its length. *)
Lemma runes_two x y s :
  starts_two (byte_of x) = true → continues (byte_of y) = true →
  runes (String x (String y s)) = (byte_of x - 192) * 64 + (byte_of y - 128) :: runes s.
Proof.
  intros Hx Hy. cbn [runes]. rewrite Hx, Hy. unfold starts_two in Hx. propify. by decide_tests.
Qed.

Lemma runes_three x y z s :
  starts_three (byte_of x) (byte_of y) = true → continues (byte_of z) = true →
  runes (String x (String y (String z s))) = (byte_of x - 224) * 4096 + (byte_of y - 128) * 64 + (byte_of z - 128) :: runes s.
Proof.
  intros Hx Hz. assert (224 <= byte_of x) by (unfold starts_three in Hx; propify; lia).
  cbn [runes]. rewrite Hx, Hz. unfold starts_two. by decide_tests.
Qed.

Lemma runes_four x y z w s :
  starts_four (byte_of x) (byte_of y) = true → continues (byte_of z) = true → continues (byte_of w) = true →
  runes (String x (String y (String z (String w s))))
  = (byte_of x - 240) * 262144 + (byte_of y - 128) * 4096 + (byte_of z - 128) * 64 + (byte_of w - 128) :: runes s.
Proof.
  intros Hx Hz Hw. assert (240 <= byte_of x) by (unfold starts_four in Hx; propify; lia).
  cbn [runes]. rewrite Hx, Hz, Hw. unfold starts_two, starts_three. by decide_tests.
Qed.

Lemma runes_encode r s : is_rune r = true → runes (encode_rune r ++ s) = r :: runes s.
Proof.
  intros Hr. unfold encode_rune. rewrite Hr. unfold is_rune in Hr.
  assert (Hc : ∀ k, 0 <= k < 64 → continues (byte_of (byte (128 + k))) = true)
    by (intros k Hk; rewrite byte_of_byte by lia; unfold continues; by decide_tests).
  destruct (Z.ltb_spec r 128) as [H1|H1].
  { assert (0 <= r) by lia. cbn. rewrite byte_of_byte by lia. by decide_tests. }
  destruct (Z.ltb_spec r 2048) as [H2|H2]; [|destruct (Z.ltb_spec r 65536) as [H3|H3]]; cbn [String.append].
  - rewrite runes_two; [| |apply Hc; Zdivs].
    + rewrite !byte_of_byte by Zdivs. f_equal. Zdivs.
    + rewrite byte_of_byte by Zdivs. unfold starts_two. assert (2 <= r / 64 < 32) by Zdivs. by decide_tests.
  - rewrite runes_three; [| |apply Hc; Zdivs].
    + rewrite !byte_of_byte by Zdivs. f_equal. Zdivs.
    + rewrite !byte_of_byte by Zdivs. apply three_starts; Zdivs.
  - rewrite runes_four; [| |apply Hc; Zdivs|apply Hc; Zdivs].
    + rewrite !byte_of_byte by Zdivs. f_equal. Zdivs.
    + rewrite !byte_of_byte by Zdivs. apply four_starts; Zdivs.
Qed.

Lemma runes_written rs : Forall (λ r, is_rune r = true) rs → runes (string_of_runes rs) = rs.
Proof. induction 1 as [|r rs Hr _ IH]; [done|]. cbn. rewrite runes_encode by done. by rewrite IH. Qed.

Ltac rune_range := unfold starts_two, starts_three, starts_four, continues in *; propify; lia.

(** By induction on the length, as a rune takes up to four bytes. *)
Lemma runes_valid s : Forall (λ r, is_rune r = true) (runes s).
Proof.
  assert (∀ n s, (String.length s <= n)%nat → Forall (λ r, is_rune r = true) (runes s)) as H; [|by apply (H (String.length s))].
  clear s. induction n as [|n IH]; intros [|x t] Hn; cbn [String.length] in Hn; [constructor|lia|constructor|].
  cbn [runes]. pose proof (byte_range x). set (a := byte_of x) in *. unfold is_rune in *.
  destruct (Z.ltb_spec a 128); [constructor; [rune_range|apply IH; lia]|].
  assert (Herr : Forall (λ r, (0 <=? r) && (r <? 55296) || (57344 <=? r) && (r <? 1114112) = true) (RuneError :: runes t)) by (constructor; [done|apply IH; lia]).
  destruct t as [|y t1]; [by repeat constructor|]. pose proof (byte_range y). set (b := byte_of y) in *. cbn [String.length] in Hn.
  destruct (starts_two a && continues b) eqn:E2; [constructor; [rune_range|apply IH; lia]|].
  destruct t1 as [|z t2]; [exact Herr|]. pose proof (byte_range z). set (c := byte_of z) in *. cbn [String.length] in Hn.
  destruct (starts_three a b && continues c) eqn:E3; [constructor; [|apply IH; lia]|].
  { unfold starts_three, continues in E3. destruct (Z.eqb_spec a 224), (Z.eqb_spec a 237); cbn [andb negb] in E3; propify; lia. }
  destruct t2 as [|w t3]; [exact Herr|]. pose proof (byte_range w). set (d := byte_of w) in *. cbn [String.length] in Hn.
  destruct (starts_four a b && continues c && continues d) eqn:E4; [constructor; [|apply IH; lia]|exact Herr].
  unfold starts_four, continues in E4. destruct (Z.eqb_spec a 240), (Z.eqb_spec a 244); cbn [andb negb] in E4; propify; lia.
Qed.

(** A capped text has the first characters of the text, however many bytes
    they take. *)
Lemma runes_cap value n : 0 < n → runes (capRunes value n) = firstn (Z.to_nat n) (runes value).
Proof.
  intros Hn. unfold capRunes. rewrite (proj2 (Z.leb_gt n 0)) by lia. cbv zeta.
  destruct (Z.leb_spec (Z.of_nat (length (runes value))) n); [by rewrite firstn_all2 by lia|].
  apply runes_written, Forall_take, runes_valid.
Qed.

Lemma capRunes_short value n : 0 < n → (length (runes (capRunes value n)) <= Z.to_nat n)%nat.
Proof. intros Hn. rewrite runes_cap by done. rewrite length_firstn. lia. Qed.

Lemma capRunes_again value n : capRunes (capRunes value n) n = capRunes value n.
Proof.
  destruct (Z.leb_spec n 0) as [Hn|Hn]; [unfold capRunes; by rewrite !(proj2 (Z.leb_le n 0)) by lia|].
  pose proof (capRunes_short value n Hn). unfold capRunes at 1. rewrite (proj2 (Z.leb_gt n 0)) by lia. cbv zeta.
  by rewrite (proj2 (Z.leb_le _ n)) by lia.
Qed.
