(* ===== verification/MessageText.v ===== *)
(** * Texts of a message

    internal/messagetext/text.go: the attributed text parts of a message and
    the normalized text that is searched and embedded. The fields of
    discordgo's messages are those the package reads; a nil pointer is [None].
    The package unicode/norm is the class [Normalization]. *)
From S2P Require Import Prelude Runes.
Local Open Scope Z_scope.

(** [norm.NFKC.String]. *)
Class Normalization := { NFKC : string → string }.

Definition Version : Z := 2.

(** ** Provider data *)

(** A component of a message. [OtherComponent] is a component of a type without
    text, a nil pointer of any type, or a nil interface. *)
Inductive MessageComponent :=
  | TextDisplay (Content : string)
  | Button (Label URL : string)
  | Thumbnail (Description : option string)
  | MediaGallery (Items : list (option string))
  | SectionComponent (Components : list MessageComponent) (Accessory : MessageComponent)
  | Container (Components : list MessageComponent)
  | ActionsRow (Components : list MessageComponent)
  | OtherComponent.

Record Part := mkPart { Kind : string; Path : string; Text : string; AttachmentID : string; MessageID : string }.
Record Attachment := mkAttachment { at_ID : string; at_Filename : string; at_Text : string }.

Record EmbedField := mkField { ef_Name : string; ef_Value : string }.
Record MessageEmbed := mkEmbed {
  em_Author : option string; em_Title : string; em_Description : string;
  em_Fields : list (option EmbedField); em_Footer : option string }.
(** The referenced message, as far as it is read. *)
Record ReferencedMessage := mkReferenced { rm_ID : string; rm_Content : string }.
(** The text of a poll's question and, for each answer that has media, its text. *)
Record Poll := mkPoll { po_Question : string; po_Answers : list (option string) }.

Record TextMessage := mkTextMessage {
  tm_Content : string; tm_Flags : Z; tm_Components : list MessageComponent;
  tm_Attachments : list (option Attachment); tm_Embeds : list (option MessageEmbed);
  tm_Referenced : option ReferencedMessage; tm_ReferenceType : option Z; tm_Poll : option Poll }.

Definition MessageFlagsIsComponentsV2 : Z := 32768.
Definition MessageReferenceTypeForward : Z := 1.

(** ** Parts *)

(** The closures [add]: nothing is added for an empty text. *)
Definition add (kind path text : string) : list Part :=
  if (text =? "")%string then [] else [mkPart kind path text "" ""].
Definition add_attachment (kind path text id : string) : list Part :=
  if (text =? "")%string then [] else [mkPart kind path text id ""].

(** [fmt.Sprintf("%s/%d", path, i)]. *)
Definition at_index (path : string) (i : nat) : string := path ++ "/" ++ pretty i.

(** A loop over indexed elements. *)
Section Each.
Context {A B : Type} (f : nat → A → list B).
Fixpoint each_from (i : nat) (l : list A) : list B :=
  match l with
  | [] => []
  | x :: l => f i x ++ each_from (S i) l
  end.
Definition each (l : list A) : list B := each_from 0 l.
End Each.

(** [appendComponentPart]: what it appends. *)
Fixpoint appendComponentPart (component : MessageComponent) (path : string) : list Part :=
  let appendComponentParts cs path := each (λ i c, appendComponentPart c (at_index path i)) cs in
  match component with
  | TextDisplay content => add "component_text" (path ++ "/content") content
  | Button label url => add "component_label" (path ++ "/label") label ++ add "component_url" (path ++ "/url") url
  | Thumbnail description => match description with Some d => add "component_description" (path ++ "/description") d | None => [] end
  | MediaGallery items =>
      each (λ i item, match item with
                      | Some d => add "component_description" (at_index (path ++ "/items") i ++ "/description") d
                      | None => []
                      end) items
  | SectionComponent cs accessory => appendComponentParts cs (path ++ "/components")%string ++ appendComponentPart accessory (path ++ "/accessory")
  | Container cs | ActionsRow cs => appendComponentParts cs (path ++ "/components")%string
  | OtherComponent => []
  end.
Definition appendComponentParts (components : list MessageComponent) (path : string) : list Part :=
  each (λ i c, appendComponentPart c (at_index path i)) components.

Definition attachment_parts (i : nat) (a : Attachment) : list Part :=
  add_attachment "attachment_filename" (at_index "/attachments" i ++ "/filename") (at_Filename a) (at_ID a)
  ++ add_attachment "attachment_text" "message_attachments/text_content" (at_Text a) (at_ID a).

Definition field_parts (base : string) (j : nat) (f : option EmbedField) : list Part :=
  match f with
  | None => []
  | Some f => add "embed_field_name" (at_index (base ++ "/fields") j ++ "/name") (ef_Name f)
              ++ add "embed_field_value" (at_index (base ++ "/fields") j ++ "/value") (ef_Value f)
  end.

Definition embed_parts (i : nat) (e : option MessageEmbed) : list Part :=
  match e with
  | None => []
  | Some e =>
      let base := at_index "/embeds" i in
      match em_Author e with Some name => add "embed_author" (base ++ "/author/name") name | None => [] end
      ++ add "embed_title" (base ++ "/title") (em_Title e)
      ++ add "embed_description" (base ++ "/description") (em_Description e)
      ++ each (field_parts base) (em_Fields e)
      ++ match em_Footer e with Some text => add "embed_footer" (base ++ "/footer/text") text | None => [] end
  end.

Definition reference_kind (t : option Z) : string :=
  match t with
  | Some t => if t =? MessageReferenceTypeForward then "forward_context" else "reply_context"
  | None => "reply_context"
  end.

Definition poll_parts (p : Poll) : list Part :=
  add "poll_question" "/poll/question/text" (po_Question p)
  ++ each (λ i a, match a with
                  | Some text => add "poll_answer" (at_index "/poll/answers" i ++ "/poll_media/text") text
                  | None => []
                  end) (po_Answers p).

Definition is_components_v2 (m : TextMessage) : bool := negb (Z.land (tm_Flags m) MessageFlagsIsComponentsV2 =? 0).

(** The attachments whose texts are used: those given, else (nil) those of the
    message. *)
Definition used_attachments (m : TextMessage) (attachments : option (list Attachment)) : list Attachment :=
  match attachments with
  | Some l => l
  | None => (λ a, mkAttachment (at_ID a) (at_Filename a) "") <$> omap id (tm_Attachments m)
  end.

Definition Parts (m : option TextMessage) (attachments : option (list Attachment)) : list Part :=
  match m with
  | None => []
  | Some m =>
      add "authored" "/content" (tm_Content m)
      ++ (if is_components_v2 m then appendComponentParts (tm_Components m) "/components" else [])
      ++ each attachment_parts (used_attachments m attachments)
      ++ each embed_parts (tm_Embeds m)
      ++ match tm_Referenced m with
         | Some r => if (rm_Content r =? "")%string then []
                     else [mkPart (reference_kind (tm_ReferenceType m)) "/referenced_message/content" (rm_Content r) "" (rm_ID r)]
         | None => []
         end
      ++ match tm_Poll m with Some p => poll_parts p | None => [] end
  end.

(** ** Normalization *)

(** [strings.ToValidUTF8(s, "")]: the sequences that encode a rune. *)
Fixpoint ToValidUTF8 (s : string) : string :=
  match s with
  | EmptyString => EmptyString
  | String x t =>
      let a := byte_of x in
      if a <? 128 then String x (ToValidUTF8 t)
      else match t with
           | EmptyString => EmptyString
           | String y t1 =>
               let b := byte_of y in
               if starts_two a && continues b then String x (String y (ToValidUTF8 t1))
               else match t1 with
                    | EmptyString => ToValidUTF8 t
                    | String z t2 =>
                        let c := byte_of z in
                        if starts_three a b && continues c then String x (String y (String z (ToValidUTF8 t2)))
                        else match t2 with
                             | EmptyString => ToValidUTF8 t
                             | String w t3 =>
                                 let d := byte_of w in
                                 if starts_four a b && continues c && continues d
                                 then String x (String y (String z (String w (ToValidUTF8 t3))))
                                 else ToValidUTF8 t
                             end
                    end
           end
  end.

(** [unicode.IsSpace]: the property White_Space. *)
Definition IsSpace (r : Z) : bool :=
  (9 <=? r) && (r <=? 13) || (r =? 32) || (r =? 133) || (r =? 160) || (r =? 5760) || (8192 <=? r) && (r <=? 8202)
  || (r =? 8232) || (r =? 8233) || (r =? 8239) || (r =? 8287) || (r =? 12288).
(** [unicode.IsControl]: the category Cc. *)
Definition IsControl (r : Z) : bool := (0 <=? r) && (r <? 32) || (127 <=? r) && (r <? 160).
(** U+200B, U+200C, U+200D and U+FEFF. *)
Definition zero_width (r : Z) : bool := (8203 <=? r) && (r <=? 8205) || (r =? 65279).

(** The loop: [started] is [b.Len() > 0], [space] a pending space. *)
Fixpoint squeeze (started space : bool) (rs : list Z) : list Z :=
  match rs with
  | [] => []
  | r :: rs =>
      if IsSpace r then squeeze started started rs
      else if IsControl r || zero_width r then squeeze started space rs
      else if space then 32 :: r :: squeeze true false rs else r :: squeeze true false rs
  end.

Section Normalize.
Context `{Normalization}.

Definition Sanitize (raw : string) : string :=
  TrimSpace (string_of_runes (squeeze false false (runes (NFKC (ToValidUTF8 raw))))).

Definition normalize_part (p : Part) : option string :=
  let text := Sanitize (Text p) in
  if (text =? "")%string then None
  else Some (if (Kind p =? "reply_context")%string then "reply:" ++ text
             else if (Kind p =? "forward_context")%string then "forward:" ++ text else text)%string.

Definition newline : string := String (byte 10) "".

(** [strings.Join(out, "\n")]. *)
Fixpoint join_lines (lines : list string) : string :=
  match lines with
  | [] => ""
  | [l] => l
  | l :: lines => l ++ newline ++ join_lines lines
  end.

Definition Normalize (parts : list Part) : string := join_lines (omap normalize_part parts).
End Normalize.
