(* ===== verification/TextSafety.v ===== *)
(** * The texts of a message are attributed and normalized

    Every searchable text of a message is one part, and a part's path is the
    JSON pointer (RFC 6901) at which the text stands in the provider's payload.
    The normalized text is, line by line, the visible words of the parts. *)
From S2P Require Import Prelude Runes MessageText.
Local Open Scope Z_scope.

(** ** Documents and pointers *)

(** The searchable part of a payload. *)
Inductive document :=
  | Leaf (text : string)
  | Object (fields : list (string * document))
  | Array (elements : list document).

(** The first reference token of a pointer, and what follows it. *)
Definition next_token (path : string) : option (string * string) :=
  match CutPrefix path "/" with
  | Some rest => let '(token, rest, found) := CutByte rest "/" in Some (token, if found then String "/" rest else "")
  | None => None
  end.

(** The text a pointer points at. *)
Fixpoint text_at (t : document) (path : string) : option string :=
  match t with
  | Leaf s => if (path =? "")%string then Some s else None
  | Object fields =>
      match next_token path with
      | None => None
      | Some (token, rest) =>
          (fix find fields := match fields with
                              | [] => None
                              | (k, t) :: fields => if (k =? token)%string then text_at t rest else find fields
                              end) fields
      end
  | Array elements =>
      match next_token path with
      | None => None
      | Some (token, rest) =>
          (fix find i elements := match elements with
                                  | [] => None
                                  | t :: elements => if (pretty (i : nat) =? token)%string then text_at t rest else find (S i) elements
                                  end) 0%nat elements
      end
  end.

(** The texts with their pointers, in the order of the document. *)
Fixpoint leaves (t : document) (path : string) : list (string * string) :=
  match t with
  | Leaf s => [(path, s)]
  | Object fields => flat_map (λ '(k, t), leaves t (path ++ "/" ++ k)) fields
  | Array elements => each (λ i t, leaves t (at_index path i)) elements
  end.

Definition optional {A} (f : A → document) (x : option A) : document :=
  match x with Some a => f a | None => Object [] end.

Fixpoint component_document (c : MessageComponent) : document :=
  match c with
  | TextDisplay content => Object [("content", Leaf content)]
  | Button label url => Object [("label", Leaf label); ("url", Leaf url)]
  | Thumbnail description => optional (λ d, Object [("description", Leaf d)]) description
  | MediaGallery items => Object [("items", Array (optional (λ d, Object [("description", Leaf d)]) <$> items))]
  | SectionComponent cs accessory => Object [("components", Array (map component_document cs)); ("accessory", component_document accessory)]
  | Container cs | ActionsRow cs => Object [("components", Array (map component_document cs))]
  | OtherComponent => Object []
  end%string.

Definition field_document (f : EmbedField) : document := Object [("name", Leaf (ef_Name f)); ("value", Leaf (ef_Value f))]%string.
Definition embed_document (e : MessageEmbed) : document :=
  Object [("author", optional (λ s, Object [("name", Leaf s)]) (em_Author e)); ("title", Leaf (em_Title e));
          ("description", Leaf (em_Description e)); ("fields", Array (optional field_document <$> em_Fields e));
          ("footer", optional (λ s, Object [("text", Leaf s)]) (em_Footer e))]%string.
Definition poll_document (p : Poll) : document :=
  Object [("question", Object [("text", Leaf (po_Question p))]);
          ("answers", Array (optional (λ s, Object [("poll_media", Object [("text", Leaf s)])]) <$> po_Answers p))]%string.

(** The payload of a message with these attachments; components count only in a
    message of the second version. *)
Definition message_document (m : TextMessage) (attachments : list Attachment) : document :=
  Object [("content", Leaf (tm_Content m));
          ("components", Array (if is_components_v2 m then map component_document (tm_Components m) else []));
          ("attachments", Array ((λ a, Object [("filename", Leaf (at_Filename a))]) <$> attachments));
          ("embeds", Array (optional embed_document <$> tm_Embeds m));
          ("referenced_message", optional (λ r, Object [("content", Leaf (rm_Content r))]) (tm_Referenced m));
          ("poll", optional poll_document (tm_Poll m))]%string.

(** ** The parts are the leaves *)

Definition filed_text (kind : string) : bool := (kind =? "attachment_text")%string.
(** Path and text of the parts that stand in the payload. *)
Definition attributed (ps : list Part) : list (string * string) :=
  (λ p, (Path p, Text p)) <$> List.filter (λ p, negb (filed_text (Kind p))) ps.
Definition with_text (l : list (string * string)) : list (string * string) := List.filter (λ '(_, t), nonempty t) l.

Lemma attributed_app l k : attributed (l ++ k) = attributed l ++ attributed k.
Proof. unfold attributed. by rewrite List.filter_app, fmap_app. Qed.
Lemma with_text_app l k : with_text (l ++ k) = with_text l ++ with_text k.
Proof. apply List.filter_app. Qed.

Lemma each_from_rel {A A' B B'} (R : list B → list B' → Prop) (f : nat → A → list B) (g : nat → A' → list B') h :
  R [] [] → (∀ l k l' k', R l l' → R k k' → R (l ++ k) (l' ++ k')) →
  ∀ l i, Forall (λ a, ∀ i, R (f i a) (g i (h a))) l → R (each_from f i l) (each_from g i (map h l)).
Proof. intros Hnil Happ l. induction l as [|a l IH]; intros i H; cbn; [done|]. inversion H; subst. apply Happ; auto. Qed.

(** The parts [ps] are the texts of [l]. *)
Definition tells (ps : list Part) (l : list (string * string)) : Prop := attributed ps = with_text l.

Lemma tells_nil : tells [] [].
Proof. done. Qed.
Lemma tells_app ps qs l k : tells ps l → tells qs k → tells (ps ++ qs) (l ++ k).
Proof. unfold tells. rewrite attributed_app, with_text_app. congruence. Qed.
Lemma tells_add kind path text : filed_text kind = false → tells (add kind path text) [(path, text)].
Proof.
  intros Hk. unfold tells, add, with_text, nonempty. cbn. destruct (text =? "")%string; cbn; [done|]. unfold attributed. cbn. by rewrite Hk.
Qed.
Lemma tells_each {A} (f : nat → A → list Part) (g : nat → document → list (string * string)) h l :
  Forall (λ a, ∀ i, tells (f i a) (g i (h a))) l → tells (each f l) (@each document _ g (map h l)).
Proof. apply (each_from_rel tells); [apply tells_nil|apply tells_app]. Qed.

#[local] Hint Resolve tells_nil tells_app tells_add : tells.

Lemma MessageComponent_nested (P : MessageComponent → Prop) :
  (∀ s, P (TextDisplay s)) → (∀ l u, P (Button l u)) → (∀ d, P (Thumbnail d)) → (∀ l, P (MediaGallery l)) →
  (∀ cs a, Forall P cs → P a → P (SectionComponent cs a)) → (∀ cs, Forall P cs → P (Container cs)) → (∀ cs, Forall P cs → P (ActionsRow cs)) →
  P OtherComponent → ∀ c, P c.
Proof.
  intros Ht Hb Hth Hm Hs Hc Ha Ho. fix IH 1.
  intros [s|l u|d|l|cs a|cs|cs|]; [apply Ht|apply Hb|apply Hth|apply Hm|apply Hs; [|apply IH]|apply Hc|apply Ha|apply Ho];
    (induction cs as [|c cs IHcs]; [constructor|constructor; [apply IH|exact IHcs]]).
Qed.

Lemma leaves_object path k t fields : leaves (Object ((k, t) :: fields)) path = leaves t (path ++ "/" ++ k) ++ leaves (Object fields) path.
Proof. done. Qed.
Lemma leaves_array path ts : leaves (Array ts) path = each (λ i t, leaves t (at_index path i)) ts.
Proof. done. Qed.
Lemma leaves_leaf path s : leaves (Leaf s) path = [(path, s)].
Proof. done. Qed.

(** One field whose document tells the parts [ps], before the others. *)
Lemma tells_field ps qs k t fields path :
  tells ps (leaves t (path ++ "/" ++ k)) → tells qs (leaves (Object fields) path) → tells (ps ++ qs) (leaves (Object ((k, t) :: fields)) path).
Proof. rewrite leaves_object. apply tells_app. Qed.
Lemma tells_field_last ps k t path : tells ps (leaves t (path ++ "/" ++ k)) → tells ps (leaves (Object [(k, t)]) path).
Proof. intros H. rewrite <- (app_nil_r ps). exact (tells_field ps [] k t [] path H tells_nil). Qed.

(** The parts of a component are its texts. *)
Lemma tells_component c : ∀ path, tells (appendComponentPart c path) (leaves (component_document c) path).
Proof.
  induction c as [s|l u|[d|]|l|cs a IHcs IHa|cs IHcs|cs IHcs|] using MessageComponent_nested; intros path; cbn [appendComponentPart component_document optional].
  - apply tells_field_last, tells_add. done.
  - apply tells_field; [by apply tells_add|]. by apply tells_field_last, tells_add.
  - apply tells_field_last, tells_add. done.
  - apply tells_nil.
  - apply tells_field_last. rewrite leaves_array. apply tells_each, Forall_true. intros [d|] i; [|apply tells_nil].
    by apply tells_field_last, tells_add.
  - apply tells_field; [|by apply tells_field_last]. rewrite leaves_array. apply tells_each. eapply Forall_impl; [exact IHcs|naive_solver].
  - apply tells_field_last. rewrite leaves_array. apply tells_each. eapply Forall_impl; [exact IHcs|naive_solver].
  - apply tells_field_last. rewrite leaves_array. apply tells_each. eapply Forall_impl; [exact IHcs|naive_solver].
  - apply tells_nil.
Qed.

Lemma tells_embed e i : tells (embed_parts i e) (leaves (optional embed_document e) (at_index "/embeds" i)).
Proof.
  destruct e as [e|]; [|apply tells_nil]. cbn [embed_parts optional]. unfold embed_document.
  assert (Hnest : ∀ a b c, (a ++ b ++ c)%string = ((a ++ b) ++ c)%string) by (intros; by rewrite append_assoc).
  repeat apply tells_field; try by apply tells_add.
  - destruct (em_Author e); [|apply tells_nil]. apply tells_field_last. rewrite append_assoc. by apply tells_add.
  - rewrite leaves_array. apply tells_each, Forall_true. intros [f|] j; [|apply tells_nil].
    apply tells_field; [by apply tells_add|]. by apply tells_field_last, tells_add.
  - apply tells_field_last. destruct (em_Footer e); [|apply tells_nil]. apply tells_field_last. rewrite append_assoc. by apply tells_add.
Qed.

Lemma tells_poll p : tells (poll_parts p) (leaves (poll_document p) "/poll").
Proof.
  apply tells_field; [by apply tells_field_last, tells_add|]. apply tells_field_last. rewrite leaves_array. apply tells_each, Forall_true.
  intros [s|] j; [|apply tells_nil]. apply tells_field_last, tells_field_last. rewrite append_assoc. by apply tells_add.
Qed.

Lemma tells_attachment a i : tells (attachment_parts i a) (leaves (Object [("filename"%string, Leaf (at_Filename a))]) (at_index "/attachments" i)).
Proof.
  unfold tells, attachment_parts, add_attachment, attributed, with_text, nonempty. cbn.
  destruct (at_Filename a =? "")%string, (at_Text a =? "")%string; reflexivity.
Qed.

Lemma tells_message m attachments :
  tells (Parts (Some m) attachments) (leaves (message_document m (used_attachments m attachments)) "").
Proof.
  unfold Parts, message_document. repeat apply tells_field; try by apply tells_add.
  - rewrite leaves_array. destruct (is_components_v2 m); [|apply tells_nil].
    apply tells_each, Forall_true. intros c i. apply tells_component.
  - rewrite leaves_array. apply tells_each, Forall_true. intros a i. apply tells_attachment.
  - rewrite leaves_array. apply tells_each, Forall_true. intros e i. apply tells_embed.
  - destruct (tm_Referenced m) as [r|]; [|apply tells_nil]. apply tells_field_last.
    unfold tells, attributed, with_text, nonempty. cbn. destruct (rm_Content r =? "")%string; [done|].
    unfold reference_kind. destruct (tm_ReferenceType m) as [t|]; [destruct (t =? _)|]; reflexivity.
  - apply tells_field_last. destruct (tm_Poll m) as [p|]; [apply tells_poll|apply tells_nil].
Qed.

(** ** The paths are pointers *)

Fixpoint slash_free (s : string) : bool :=
  match s with
  | EmptyString => true
  | String c s => negb (Ascii.eqb c "/") && slash_free s
  end.
(** What may follow a reference token. *)
Definition pointer_shaped (s : string) : Prop := s = ""%string ∨ ∃ t, s = String "/" t.

Lemma cut_token s token rest :
  (let '(t, r, found) := CutByte s "/" in (t, if (found : bool) then String "/" r else ""%string)) = (token, rest)
  ↔ s = (token ++ rest)%string ∧ slash_free token = true ∧ pointer_shaped rest.
Proof.
  revert token. induction s as [|c s IH]; intros token; cbn.
  { split; [intros [= <- <-]; split_and!; [done|done|by left]|]. intros (Hs & _ & _). by destruct token; destruct rest. }
  destruct (Ascii.eqb_spec c "/") as [->|Hc].
  - split; [intros [= <- <-]; split_and!; [done|done|right; by eexists]|]. intros (Hs & Ht & _). destruct token as [|d token]; [by rewrite Hs|].
    cbn in Hs. injection Hs as <- _. done.
  - specialize (IH (match token with String _ t => t | "" => "" end)%string). destruct (CutByte s "/") as [[t r] found]. split.
    + intros [= <- Hr]. destruct (proj1 IH) as (-> & Ht & Hrest); [by rewrite Hr|]. split_and!; [done| |done].
      cbn. apply andb_true_iff. split; [by apply negb_true_iff, Ascii.eqb_neq|done].
    + intros (Hs & Ht & Hrest). destruct token as [|d token]; [destruct Hrest as [->|[u ->]]; cbn in Hs; congruence|].
      cbn in Hs, Ht. injection Hs as <- ->. apply andb_true_iff in Ht as [_ Ht].
      assert ((t, if (found : bool) then String "/" r else ""%string) = (token, rest)) as [= -> ->] by (by apply IH). done.
Qed.

Lemma next_token_spec path token rest :
  next_token path = Some (token, rest) ↔ path = ("/" ++ token ++ rest)%string ∧ slash_free token = true ∧ pointer_shaped rest.
Proof.
  unfold next_token. destruct (CutPrefix path "/") as [s|] eqn:E.
  - apply CutPrefix_Some in E as ->. pose proof (cut_token s token rest) as H.
    destruct (CutByte s "/") as [[t r] found]. split.
    + intros [= <- Hr]. destruct (proj1 H) as (-> & ? & ?); [by rewrite Hr|]. done.
    + intros (Hp & Ht & Hr). apply append_inj_l in Hp as ->. f_equal. by apply H.
  - split; [done|]. intros (-> & _). by rewrite CutPrefix_app in E.
Qed.

Lemma slash_free_pretty_N s n : slash_free s = true → slash_free (pretty_N_go n s) = true.
Proof.
  revert s. induction (N.lt_wf_0 n) as [n _ IH]. intros s Hs. destruct (decide (n = 0%N)) as [->|Hn]; [by rewrite pretty_N_go_0|].
  rewrite pretty_N_go_step by lia. apply IH; [apply N.div_lt; lia|]. cbn. rewrite Hs.
  assert (n `mod` 10 < 10)%N as Hm by (apply N.mod_lt; lia).
  unfold pretty_N_char. repeat case_match; done.
Qed.
Lemma slash_free_pretty (i : nat) : slash_free (pretty i) = true.
Proof.
  unfold pretty, pretty_nat, pretty, pretty_N. case_decide; [done|]. by apply slash_free_pretty_N.
Qed.

Lemma document_nested (P : document → Prop) :
  (∀ s, P (Leaf s)) → (∀ fs, Forall (λ f, P (snd f)) fs → P (Object fs)) → (∀ ts, Forall P ts → P (Array ts)) → ∀ t, P t.
Proof.
  intros Hl Ho Ha. fix IH 1. intros [s|fs|ts]; [apply Hl|apply Ho|apply Ha].
  - induction fs as [|[k t] fs IHfs]; [constructor|constructor; [apply IH|exact IHfs]].
  - induction ts as [|t ts IHts]; [constructor|constructor; [apply IH|exact IHts]].
Qed.

(** Objects have distinct field names, which need no escape in a pointer. *)
Inductive well_formed : document → Prop :=
  | wf_leaf s : well_formed (Leaf s)
  | wf_object fs : NoDup fs.*1 → Forall (λ f, slash_free (fst f) = true ∧ well_formed (snd f)) fs → well_formed (Object fs)
  | wf_array ts : Forall well_formed ts → well_formed (Array ts).

(** Leaves below a path. *)
Definition under_path (path : string) (l : string * string) : string * string := ((path ++ fst l)%string, snd l).

Lemma each_from_map {A B} (g : B → B) (f f' : nat → A → list B) l : ∀ i,
  Forall (λ a, ∀ i, f i a = g <$> f' i a) l → each_from f i l = g <$> each_from f' i l.
Proof. induction l as [|a l IH]; intros i H; [done|]. inversion H as [|?? Ha Hl]; subst. cbn. rewrite fmap_app, <- Ha, <- IH; done. Qed.

Lemma leaves_below t : ∀ path, leaves t path = under_path path <$> leaves t "".
Proof.
  assert (Hcomp : ∀ p q (l : list (string * string)), under_path (p ++ q)%string <$> l = under_path p <$> (under_path q <$> l)).
  { intros p q l. rewrite <- list_fmap_compose. apply list_fmap_ext. intros i [x y] _. unfold under_path. cbn. by rewrite append_assoc. }
  induction t as [s|fs IH|ts IH] using document_nested; intros path.
  - cbn. unfold under_path. cbn. by rewrite append_nil_r.
  - induction IH as [|[k t] fs Ht _ IHfs]; [done|]. rewrite !leaves_object, fmap_app, <- IHfs. f_equal. cbn in Ht.
    rewrite (Ht (path ++ "/" ++ k)%string), (Ht ("" ++ "/" ++ k)%string), Hcomp. done.
  - rewrite !leaves_array. apply each_from_map. eapply Forall_impl; [exact IH|]. intros t Ht i. cbn beta in Ht.
    rewrite Ht, (Ht (at_index "" i)). unfold at_index. rewrite Hcomp. done.
Qed.

Lemma elem_of_below path p s (l : list (string * string)) : (p, s) ∈ under_path path <$> l ↔ ∃ r, p = (path ++ r)%string ∧ (r, s) ∈ l.
Proof.
  rewrite list_elem_of_fmap. split.
  - intros ([r s'] & [= -> ->] & H). eauto.
  - intros (r & -> & H). by exists (r, s).
Qed.

Lemma leaf_of_object fs p s :
  (p, s) ∈ leaves (Object fs) "" ↔ ∃ k t r, (k, t) ∈ fs ∧ p = ("/" ++ k ++ r)%string ∧ (r, s) ∈ leaves t "".
Proof.
  induction fs as [|[k t] fs IH].
  { cbn. split; [by intros ?%elem_of_nil|]. by intros (? & ? & ? & ?%elem_of_nil & _). }
  rewrite leaves_object, elem_of_app, IH, leaves_below, elem_of_below. setoid_rewrite elem_of_cons. split.
  - intros [(r & -> & Hr)|(k' & t' & r & Hin & -> & Hr)]; [exists k, t, r; rewrite append_assoc; auto|exists k', t', r; auto].
  - intros (k' & t' & r & [[= -> ->]|Hin] & -> & Hr); [left; exists r; rewrite append_assoc; done|right; exists k', t', r; auto].
Qed.

Lemma elem_of_each_from {A B} (f : nat → A → list B) x l : ∀ i, x ∈ each_from f i l ↔ ∃ j a, l !! j = Some a ∧ x ∈ f (i + j)%nat a.
Proof.
  induction l as [|a l IH]; intros i; cbn.
  { split; [by intros ?%elem_of_nil|]. by intros (? & ? & ? & _). }
  rewrite elem_of_app, IH. split.
  - intros [H|(j & b & Hj & H)]; [exists 0%nat, a; by rewrite Nat.add_0_r|exists (S j), b; by rewrite Nat.add_succ_r].
  - intros ([|j] & b & Hj & H); cbn in Hj; [injection Hj as ->; left; by rewrite Nat.add_0_r in H|].
    right. exists j, b. by rewrite Nat.add_succ_r in H.
Qed.

Lemma leaf_of_array ts p s :
  (p, s) ∈ leaves (Array ts) "" ↔ ∃ i t r, ts !! i = Some t ∧ p = ("/" ++ pretty (i : nat) ++ r)%string ∧ (r, s) ∈ leaves t "".
Proof.
  rewrite leaves_array. unfold each. rewrite elem_of_each_from. split.
  - intros (i & t & Hi & H). rewrite leaves_below, elem_of_below in H. destruct H as (r & -> & Hr). exists i, t, r.
    done.
  - intros (i & t & r & Hi & -> & Hr). exists i, t. split; [done|]. rewrite leaves_below. apply elem_of_below. exists r. split; [|done].
    done.
Qed.

Lemma leaf_shaped t p s : (p, s) ∈ leaves t "" → pointer_shaped p.
Proof.
  destruct t as [u|fs|ts].
  - cbn. intros [= -> ->]%list_elem_of_singleton. by left.
  - intros (k & t & r & _ & -> & _)%leaf_of_object. right. by eexists.
  - intros (k & t & r & _ & -> & _)%leaf_of_array. right. by eexists.
Qed.

(** ** Finding a text by its pointer *)

Lemma text_of_object fs p s : NoDup fs.*1 →
  text_at (Object fs) p = Some s ↔ ∃ k t r, next_token p = Some (k, r) ∧ (k, t) ∈ fs ∧ text_at t r = Some s.
Proof.
  intros Hnd. cbn [text_at]. destruct (next_token p) as [[k r]|]; [|split; [done|by intros (? & ? & ? & ? & _)]].
  induction fs as [|[k' t'] fs IH]; cbn in Hnd.
  { split; [done|]. by intros (? & ? & ? & _ & ?%elem_of_nil & _). }
  apply NoDup_cons in Hnd as [Hk' Hnd]. destruct (String.eqb_spec k' k) as [->|Hne].
  - split; [intros H; exists k, t', r; split_and!; [done|left|done]|].
    intros (k1 & t1 & r1 & [= <- <-] & [[= ->]|Hin]%elem_of_cons & H); [done|]. destruct Hk'. apply (list_elem_of_fmap_2' fst _ (k, t1)); done.
  - rewrite IH by done. setoid_rewrite elem_of_cons. naive_solver.
Qed.

Lemma text_of_array ts p s :
  text_at (Array ts) p = Some s ↔ ∃ (i : nat) t r, next_token p = Some (pretty i, r) ∧ ts !! i = Some t ∧ text_at t r = Some s.
Proof.
  cbn [text_at]. destruct (next_token p) as [[k r]|]; [|split; [done|by intros (? & ? & ? & ? & _)]].
  transitivity (∃ (i : nat) t, k = pretty (0 + i)%nat ∧ ts !! i = Some t ∧ text_at t r = Some s); [|cbn; naive_solver].
  generalize 0%nat as i0. induction ts as [|t ts IH]; intros i0.
  { split; [done|]. by intros (? & ? & _ & ? & _). }
  destruct (String.eqb_spec (pretty i0) k) as [<-|Hne].
  - split; [intros H; exists 0%nat, t; by rewrite Nat.add_0_r|]. intros (i & t' & Hk & Hi & H).
    apply (inj pretty) in Hk. assert (i = 0%nat) as -> by lia. by injection Hi as ->.
  - rewrite IH. split.
    + intros (i & t' & -> & Hi & H). exists (S i), t'. by rewrite Nat.add_succ_r.
    + intros ([|i] & t' & -> & Hi & H); [by rewrite Nat.add_0_r in Hne|]. exists i, t'. by rewrite Nat.add_succ_r.
Qed.

Lemma text_at_leaf t : well_formed t → ∀ p s, text_at t p = Some s ↔ (p, s) ∈ leaves t "".
Proof.
  induction t as [u|fs IH|ts IH] using document_nested; intros Hwf p s.
  - cbn. rewrite list_elem_of_singleton. destruct (String.eqb_spec p "") as [->|]; naive_solver.
  - inversion Hwf as [|? Hnd Hall|]; subst. rewrite text_of_object, leaf_of_object by done. rewrite Forall_forall in IH, Hall. split.
    + intros (k & t & r & (-> & _)%next_token_spec & Hin & H). exists k, t, r. split_and!; [done|done|]. by apply (IH (k, t) Hin), H; apply (Hall (k, t)).
    + intros (k & t & r & Hin & -> & H). exists k, t, r. split_and!; [|done|by apply (IH (k, t) Hin); [apply (Hall (k, t))|]].
      apply next_token_spec. split_and!; [done|by apply (Hall (k, t))|by eapply leaf_shaped].
  - inversion Hwf as [| |? Hall]; subst. rewrite text_of_array, leaf_of_array. rewrite Forall_forall in IH, Hall.
    split.
    + intros (i & t & r & (-> & _)%next_token_spec & Hi & H). pose proof (list_elem_of_lookup_2 _ _ _ Hi) as Hin.
      exists i, t, r. split_and!; [done|done|]. by apply (IH t Hin), H; apply Hall.
    + intros (i & t & r & Hi & -> & H). pose proof (list_elem_of_lookup_2 _ _ _ Hi) as Hin.
      exists i, t, r. split_and!; [|done|by apply (IH t Hin); [apply Hall|]].
      apply next_token_spec. split_and!; [done|apply slash_free_pretty|by eapply leaf_shaped].
Qed.

(** ** No text twice *)

Lemma token_unique k k' r r' : slash_free k = true → slash_free k' = true → pointer_shaped r → pointer_shaped r' →
  ("/" ++ k ++ r)%string = ("/" ++ k' ++ r')%string → k = k'.
Proof.
  intros Hk Hk' Hr Hr' E. assert (next_token ("/" ++ k ++ r) = Some (k, r)) as H1 by (by apply next_token_spec).
  assert (next_token ("/" ++ k' ++ r') = Some (k', r')) as H2 by (by apply next_token_spec). congruence.
Qed.

Lemma path_in_leaves t path p : p ∈ (leaves t path).*1 → ∃ r s, p = (path ++ r)%string ∧ (r, s) ∈ leaves t "".
Proof. intros ([q s] & -> & H)%list_elem_of_fmap. rewrite leaves_below, elem_of_below in H. destruct H as (r & -> & H). by exists r, s. Qed.

Lemma NoDup_below path (l : list (string * string)) : NoDup l.*1 → NoDup (under_path path <$> l).*1.
Proof.
  intros H. assert ((under_path path <$> l).*1 = (String.append path) <$> l.*1) as -> by (by rewrite <- !list_fmap_compose).
  apply NoDup_fmap_2; [|done]. intros a b. apply append_inj_l.
Qed.

(** The elements of an array from the [i]th on. *)
Lemma paths_of_array ts : Forall (λ t, NoDup (leaves t "").*1) ts → ∀ i, NoDup (each_from (λ i t, leaves t (at_index "" i)) i ts).*1.
Proof.
  induction 1 as [|t ts Ht _ IH]; intros i; cbn; [constructor|]. rewrite fmap_app. apply NoDup_app. split_and!; [|intros p Hp Hp'|apply IH].
  - rewrite leaves_below. by apply NoDup_below.
  - apply path_in_leaves in Hp as (r & s & -> & Hr). apply list_elem_of_fmap in Hp' as ([q s'] & Eq & Hq). cbn in Eq. subst q.
    apply elem_of_each_from in Hq as (j & t' & Hj & Hq). rewrite leaves_below in Hq. apply elem_of_below in Hq as (r' & Eq & Hr').
    unfold at_index in Eq. cbn [String.append] in Eq.
    assert (pretty i = pretty (S i + j)%nat) as Hi%(inj pretty).
    { apply (token_unique _ _ r r'); [apply slash_free_pretty|apply slash_free_pretty|by eapply leaf_shaped|by eapply leaf_shaped|exact Eq]. }
    lia.
Qed.

Lemma paths_unique t : well_formed t → NoDup (leaves t "").*1.
Proof.
  induction t as [u|fs IH|ts IH] using document_nested; intros Hwf.
  - cbn. apply NoDup_singleton.
  - inversion Hwf as [|? Hnd Hall|]; subst. clear Hwf. induction fs as [|[k t] fs IHfs]; [constructor|].
    inversion IH as [|?? Ht IHrest]; subst. inversion Hall as [|?? [Hk Hwt] Hrest]; subst. apply NoDup_cons in Hnd as [Hnotin Hnd].
    rewrite leaves_object, fmap_app. apply NoDup_app. split_and!; [|intros p Hp Hp'|by apply IHfs].
    + rewrite leaves_below. by apply NoDup_below, Ht.
    + apply path_in_leaves in Hp as (r & s & -> & Hr). apply list_elem_of_fmap in Hp' as ([q s'] & Eq & Hq). cbn in Eq. subst q.
      apply leaf_of_object in Hq as (k' & t' & r' & Hin & Eq & Hr'). rewrite Forall_forall in Hrest. destruct (Hrest _ Hin) as [Hk' _].
      cbn [String.append] in Eq. apply token_unique in Eq as <-; [|done|done|by eapply leaf_shaped|by eapply leaf_shaped].
      apply Hnotin. by apply (list_elem_of_fmap_2' fst _ (k, t')).
  - inversion Hwf as [| |? Hall]; subst. rewrite leaves_array. apply paths_of_array.
    rewrite Forall_forall in *. intros t Hin. apply IH; [done|]. by apply Hall.
Qed.

(** ** The documents of messages are well formed *)

Lemma wf_optional {A} (f : A → document) x : (∀ a, well_formed (f a)) → well_formed (optional f x).
Proof. intros H. destruct x; [apply H|]. constructor; constructor. Qed.
Lemma wf_elements {A} (f : A → document) l : (∀ a, well_formed (f a)) → well_formed (Array (f <$> l)).
Proof. intros H. constructor. apply Forall_fmap, Forall_true, H. Qed.

Lemma wf_nested cs : Forall (λ c, well_formed (component_document c)) cs → well_formed (Array (map component_document cs)).
Proof. intros H. constructor. by apply Forall_map. Qed.

Ltac solve_well_formed :=
  repeat first
    [ exact I | apply wf_leaf | apply wf_nested; assumption | apply wf_elements; intros | apply wf_optional; intros | assumption
    | apply wf_object; [apply (bool_decide_unpack _); vm_compute; exact I|repeat (apply Forall_cons; split); try apply Forall_nil]
    | split; [reflexivity|] ].

Lemma wf_component c : well_formed (component_document c).
Proof.
  induction c as [s|l u|d|l|cs a IHcs IHa|cs IHcs|cs IHcs|] using MessageComponent_nested; cbn [component_document];
    solve_well_formed.
Qed.

Lemma wf_message m attachments : well_formed (message_document m attachments).
Proof.
  unfold message_document, embed_document, poll_document, field_document. solve_well_formed.
  destruct (is_components_v2 m); [apply wf_nested, Forall_true, wf_component|constructor; constructor].
Qed.

(** ** Normalized text *)

Definition visible (r : Z) : bool := negb (IsSpace r) && negb (IsControl r || zero_width r).

(** The runs of visible runes between white space; [w] is the run so far. *)
Definition flush_word (w : list Z) : list (list Z) := match w with [] => [] | _ => [w] end.
Fixpoint words_from (w rs : list Z) : list (list Z) :=
  match rs with
  | [] => flush_word w
  | r :: rs => if IsSpace r then flush_word w ++ words_from [] rs
               else if visible r then words_from (w ++ [r]) rs else words_from w rs
  end.
Definition words (rs : list Z) : list (list Z) := words_from [] rs.

Fixpoint join_with (sep : Z) (ls : list (list Z)) : list Z :=
  match ls with
  | [] => []
  | [l] => l
  | l :: ls => l ++ sep :: join_with sep ls
  end.
Fixpoint split_at (sep : Z) (rs : list Z) : list (list Z) :=
  match rs with
  | [] => [[]]
  | r :: rs => if r =? sep then [] :: split_at sep rs
               else match split_at sep rs with l :: ls => (r :: l) :: ls | [] => [[r]] end
  end.

Lemma join_cons sep l ls : ls ≠ [] → join_with sep (l :: ls) = l ++ sep :: join_with sep ls.
Proof. by destruct ls. Qed.

(** The three states of the loop. *)
Lemma squeeze_words rs :
  (∀ w, w ≠ [] → w ++ squeeze true false rs = join_with 32 (words_from w rs))
  ∧ squeeze true true rs = match words rs with [] => [] | ws => 32 :: join_with 32 ws end
  ∧ squeeze false false rs = join_with 32 (words rs).
Proof.
  induction rs as [|r rs (IHw & IHs & IHn)]; unfold words in *.
  { split_and!; [|done..]. intros [|r w] Hw; [done|]. cbn. by rewrite app_nil_r. }
  cbn [squeeze words_from flush_word app]. unfold visible. destruct (IsSpace r); cbn [andb negb].
  { split_and!; [|done..]. intros w Hw. destruct w as [|x w]; [done|]. rewrite IHs. cbn [flush_word app].
    destruct (words_from [] rs) as [|v vs]; [cbn; by rewrite app_nil_r|]. by rewrite (join_cons 32 (x :: w) (v :: vs)) by done. }
  destruct (IsControl r || zero_width r); cbn [negb]; [done|].
  assert (Hr : r :: squeeze true false rs = join_with 32 (words_from [r] rs)) by (by apply (IHw [r])).
  assert (Hne : words_from [r] rs ≠ []).
  { clear. enough (∀ w, w ≠ [] → words_from w rs ≠ []) by auto. induction rs as [|x rs IH]; intros w Hw; cbn; [by destruct w|].
    destruct (IsSpace x); [by destruct w|]. destruct (visible x); apply IH; [by destruct w|done]. }
  split_and!.
  - intros w Hw. rewrite <- IHw by (by destruct w). rewrite <- app_assoc. done.
  - rewrite Hr. by destruct (words_from [r] rs).
  - done.
Qed.

Lemma words_visible rs : Forall (λ w, w ≠ [] ∧ Forall (λ r, visible r = true ∧ r ∈ rs) w) (words rs).
Proof.
  unfold words. enough (∀ rs' w, Forall (λ r, visible r = true ∧ r ∈ rs) w → Forall (λ r, r ∈ rs) rs' →
    Forall (λ w, w ≠ [] ∧ Forall (λ r, visible r = true ∧ r ∈ rs) w) (words_from w rs')) as H.
  { apply H; [constructor|]. by apply Forall_forall. }
  assert (Hf : ∀ w, Forall (λ r, visible r = true ∧ r ∈ rs) w → Forall (λ w, w ≠ [] ∧ Forall (λ r, visible r = true ∧ r ∈ rs) w) (flush_word w)).
  { intros [|x w] Hw; cbn; [constructor|]. by apply Forall_singleton. }
  induction rs' as [|r rs' IH]; intros w Hw Hrs; cbn; [by apply Hf|]. inversion Hrs; subst.
  destruct (IsSpace r); [apply Forall_app; split; [by apply Hf|apply IH; [constructor|done]]|].
  destruct (visible r) eqn:Ev; apply IH; [|done|done|done]. apply Forall_app. split; [done|]. by apply Forall_singleton.
Qed.

(** *** Nothing is left to trim *)

#[local] Arguments byte : simpl never.
#[local] Arguments byte_of : simpl never.
#[local] Arguments Z.add : simpl never.
#[local] Arguments space1 : simpl never.
#[local] Arguments space2 : simpl never.
#[local] Arguments space3 : simpl never.

Lemma trim_left_one x s : byte_of x < 194 → space1 (byte_of x) = false → trim_left (String x s) = String x s.
Proof.
  intros Hx H1. assert (∀ b c, space2 (byte_of x) b = false ∧ space3 (byte_of x) b c = false) as H by (intros b c; unfold space2, space3; lia).
  destruct s as [|y [|z s]]; cbn; rewrite ?H1; [done|by rewrite (proj1 (H _ 0))|]. by rewrite (proj1 (H _ 0)), (proj2 (H _ _)).
Qed.

Lemma trim_left_rev_one x s : byte_of x < 128 → space1 (byte_of x) = false → trim_left_rev (String x s) = String x s.
Proof.
  intros Hx H1. assert (∀ a b, space2 b (byte_of x) = false ∧ space3 a b (byte_of x) = false) as H by (intros a b; unfold space2, space3; lia).
  destruct s as [|y [|z s]]; cbn; rewrite ?H1; [done|by rewrite (proj1 (H 0 _))|]. by rewrite (proj1 (H 0 _)), (proj2 (H _ _)).
Qed.

Lemma trim_left_keeps x s : space1 (byte_of x) = false →
  (∀ y t, s = String y t → space2 (byte_of x) (byte_of y) = false) →
  (∀ y z t, s = String y (String z t) → space3 (byte_of x) (byte_of y) (byte_of z) = false) → trim_left (String x s) = String x s.
Proof.
  intros H1 H2 H3. destruct s as [|y [|z s]]; cbn; rewrite H1; [done|by rewrite (H2 y "")|].
  by rewrite (H2 y (String z s)), (H3 y z s).
Qed.
Lemma trim_left_rev_keeps x s : space1 (byte_of x) = false →
  (∀ y t, s = String y t → space2 (byte_of y) (byte_of x) = false) →
  (∀ y z t, s = String y (String z t) → space3 (byte_of z) (byte_of y) (byte_of x) = false) → trim_left_rev (String x s) = String x s.
Proof.
  intros H1 H2 H3. destruct s as [|y [|z s]]; cbn; rewrite H1; [done|by rewrite (H2 y "")|].
  by rewrite (H2 y (String z s)), (H3 y z s).
Qed.

(** Closes a test of a byte sequence by arithmetic. *)
Ltac solve_bytes := intros; simplify_eq; rewrite ?byte_of_byte by lia; repeat match goal with |- context [byte_of ?x] => is_var x; pose proof (byte_range x); generalize dependent (byte_of x); intros end;
  unfold space1, space2, space3; lia.

Lemma trim_kept r s : is_rune r = true → IsSpace r = false →
  trim_left (encode_rune r ++ s) = (encode_rune r ++ s)%string ∧ trim_left_rev (rev_string (encode_rune r) s) = rev_string (encode_rune r) s.
Proof.
  intros Hr Hs. unfold encode_rune. rewrite Hr. unfold is_rune in Hr. unfold IsSpace in Hs.
  pose proof (Z.div_mod r 64 ltac:(lia)) as E1. pose proof (Z.mod_pos_bound r 64 ltac:(lia)).
  pose proof (Z.div_mod (r / 64) 64 ltac:(lia)) as E2. pose proof (Z.mod_pos_bound (r / 64) 64 ltac:(lia)).
  pose proof (Z.div_mod (r / 4096) 64 ltac:(lia)) as E3. pose proof (Z.mod_pos_bound (r / 4096) 64 ltac:(lia)).
  rewrite Z.div_div in E2 by lia. rewrite Z.div_div in E3 by lia. change (64 * 64) with 4096 in E2. change (4096 * 64) with 262144 in E3.
  set (c := r mod 64) in *. set (b := r / 64 mod 64) in *. set (a := r / 4096 mod 64) in *.
  set (q1 := r / 64) in *. set (q2 := r / 4096) in *. set (q3 := r / 262144) in *. clearbody a b c q1 q2 q3.
  destruct (Z.ltb_spec r 128); [|destruct (Z.ltb_spec r 2048); [|destruct (Z.ltb_spec r 65536)]];
    cbn [String.append rev_string]; (split; [apply trim_left_keeps|apply trim_left_rev_keeps]); solve_bytes.
Qed.

Lemma rev_string_over s t acc : rev_string (s ++ t) acc = rev_string t (rev_string s acc).
Proof. revert acc. induction s as [|c s IH]; intros acc; cbn; [done|apply IH]. Qed.
Lemma rev_string_twice s acc t : rev_string (rev_string s acc) t = rev_string acc (s ++ t).
Proof. revert acc t. induction s as [|c s IH]; intros acc t; cbn; [done|]. by rewrite IH. Qed.
Lemma string_of_runes_app l k : string_of_runes (l ++ k) = (string_of_runes l ++ string_of_runes k)%string.
Proof. induction l as [|r l IH]; cbn; [done|]. by rewrite IH, append_assoc. Qed.

(** Runes that neither start nor end with white space. *)
Definition unpadded (rs : list Z) : Prop :=
  Forall (λ r, is_rune r = true) rs ∧ from_option IsSpace false (head rs) = false ∧ from_option IsSpace false (last rs) = false.

Lemma TrimSpace_unpadded rs : unpadded rs → TrimSpace (string_of_runes rs) = string_of_runes rs.
Proof.
  intros (Hr & Hh & Hl). destruct rs as [|r rs]; [done|]. unfold TrimSpace. inversion Hr; subst. cbn in Hh.
  assert (trim_left (string_of_runes (r :: rs)) = string_of_runes (r :: rs)) as -> by (by apply (trim_kept r)).
  assert (r :: rs ≠ []) as Hne by done. apply List.exists_last in Hne as (init & l & E). rewrite E in *.
  rewrite last_snoc in Hl. cbn in Hl. apply Forall_app in Hr as [_ Hlr]. rewrite Forall_singleton in Hlr.
  rewrite string_of_runes_app, rev_string_over. cbn [string_of_runes]. rewrite append_nil_r.
  rewrite (proj2 (trim_kept l _ Hlr Hl)), !rev_string_twice. cbn. by rewrite append_nil_r.
Qed.

Lemma join_unpadded ws : Forall (λ w, w ≠ [] ∧ Forall (λ r, visible r = true ∧ is_rune r = true) w) ws →
  unpadded (join_with 32 ws) ∧ Forall (λ r, visible r = true ∨ r = 32) (join_with 32 ws) ∧ (join_with 32 ws = [] → ws = []).
Proof.
  assert (Hv : ∀ r, visible r = true → IsSpace r = false) by (unfold visible; intros r [?%negb_true_iff _]%andb_true_iff; done).
  intros H. induction H as [|w ws [Hw Hall] Hws IH]; [split_and!; [by split_and!; [constructor|..]|constructor|done]|].
  assert (Hhead : ∀ k, from_option IsSpace false (head (w ++ k)) = false).
  { intros k. destruct w as [|r w]; [done|]. inversion Hall as [|?? [Hr _]]; subst. by apply Hv. }
  destruct ws as [|v vs].
  - cbn. split_and!; [split_and!; [eapply Forall_impl; [exact Hall|naive_solver]|by rewrite <- (app_nil_r w)|]|eapply Forall_impl; [exact Hall|naive_solver]|done].
    destruct (last w) as [l|] eqn:El; [|done]. cbn. apply Hv. rewrite Forall_forall in Hall. by apply Hall, last_Some_elem_of.
  - rewrite join_cons by done. destruct IH as ((IH1 & _ & IH3) & IH2 & IHn). split_and!; [split_and!; [|apply Hhead|]| |by destruct w].
    + apply Forall_app. split; [eapply Forall_impl; [exact Hall|naive_solver]|]. by constructor.
    + rewrite last_app_cons. destruct (join_with 32 (v :: vs)) as [|x xs] eqn:Ej; [by specialize (IHn eq_refl)|]. by rewrite last_cons_cons.
    + apply Forall_app. split; [eapply Forall_impl; [exact Hall|naive_solver]|]. constructor; [by right|done].
Qed.

Section Normalized.
Context `{Normalization}.

(** The text of a part as runes, on one line. *)
Definition part_words (raw : string) : list Z := join_with 32 (words (runes (NFKC (ToValidUTF8 raw)))).

Lemma words_runes s : Forall (λ w, w ≠ [] ∧ Forall (λ r, visible r = true ∧ is_rune r = true) w) (words (runes s)).
Proof.
  pose proof (runes_valid s) as Hv. rewrite Forall_forall in Hv. eapply Forall_impl; [apply words_visible|]. intros w [Hw Hall].
  split; [done|]. eapply Forall_impl; [exact Hall|]. naive_solver.
Qed.

Lemma Sanitize_words raw : Sanitize raw = string_of_runes (part_words raw).
Proof.
  unfold Sanitize. rewrite (proj2 (proj2 (squeeze_words _))). apply TrimSpace_unpadded. by apply join_unpadded, words_runes.
Qed.

Lemma one_line raw : Forall (λ r, is_rune r = true ∧ (r =? 10) = false) (part_words raw).
Proof.
  destruct (join_unpadded _ (words_runes (NFKC (ToValidUTF8 raw)))) as ((Hr & _) & Hv & _). apply Forall_and. split; [exact Hr|].
  eapply Forall_impl; [exact Hv|]. intros r [Hvis| ->]; [|done]. destruct (Z.eqb_spec r 10) as [->|]; done.
Qed.

Lemma split_at_clean l : Forall (λ r, (r =? 10) = false) l → split_at 10 l = [l].
Proof. induction 1 as [|r l Hr _ IH]; [done|]. cbn. by rewrite Hr, IH. Qed.
Lemma split_at_line l k : Forall (λ r, (r =? 10) = false) l → split_at 10 (l ++ 10 :: k) = l :: split_at 10 k.
Proof. induction 1 as [|r l Hr _ IH]; [done|]. cbn. by rewrite Hr, IH. Qed.

Lemma split_lines ls : ls ≠ [] → Forall (λ l, ∃ rs, l = string_of_runes rs ∧ Forall (λ r, is_rune r = true ∧ (r =? 10) = false) rs) ls →
  split_at 10 (runes (join_lines ls)) = runes <$> ls.
Proof.
  assert (Hrun : ∀ rs s, Forall (λ r, is_rune r = true) rs → runes (string_of_runes rs ++ s) = rs ++ runes s).
  { intros rs s Hrs. induction Hrs as [|r rs Hr _ IH]; [done|]. cbn. rewrite append_assoc, runes_encode by done. by rewrite IH. }
  intros Hne Hall. induction Hall as [|l ls (rs & -> & [Hr Hc]%Forall_and) Hls IH]; [done|]. destruct ls as [|l' ls].
  - cbn. rewrite runes_written by done. by rewrite split_at_clean.
  - change (join_lines (string_of_runes rs :: l' :: ls)) with (string_of_runes rs ++ newline ++ join_lines (l' :: ls))%string.
    rewrite Hrun by done. unfold newline. cbn [String.append]. change (String (byte 10) (join_lines (l' :: ls))) with (encode_rune 10 ++ join_lines (l' :: ls))%string.
    rewrite runes_encode by done. rewrite split_at_line by done. rewrite IH by done. rewrite !fmap_cons, runes_written; done.
Qed.

Lemma normalized_line p l : normalize_part p = Some l → ∃ rs, l = string_of_runes rs ∧ Forall (λ r, is_rune r = true ∧ (r =? 10) = false) rs.
Proof.
  unfold normalize_part. rewrite Sanitize_words. pose proof (one_line (Text p)) as Hone. intros Hl. case_step_in Hl; [done|]. injection Hl as <-.
  destruct (Kind p =? "reply_context")%string; [|destruct (Kind p =? "forward_context")%string].
  - exists (runes "reply:" ++ part_words (Text p)). rewrite string_of_runes_app. split; [done|]. apply Forall_app. split; [|done].
    by repeat constructor.
  - exists (runes "forward:" ++ part_words (Text p)). rewrite string_of_runes_app. split; [done|]. apply Forall_app. split; [|done].
    by repeat constructor.
  - by exists (part_words (Text p)).
Qed.

(** C25: normalization is exact. The sanitized text of a part is its visible
    runes (after NFKC), with one space wherever white space separated them and
    none at the ends; and the lines of the normalized text are, in order, the
    parts that have visible text, one line each, a reply's or a forward's text
    marked as such. *)
Theorem normalized_lines_are_parts parts :
  (∀ raw, runes (Sanitize raw) = join_with 32 (words (runes (NFKC (ToValidUTF8 raw)))))
  ∧ (omap normalize_part parts = [] → Normalize parts = ""%string)
  ∧ (omap normalize_part parts ≠ [] → split_at 10 (runes (Normalize parts)) = runes <$> omap normalize_part parts)
  ∧ (∀ p, normalize_part p = None ↔ words (runes (NFKC (ToValidUTF8 (Text p)))) = []).
Proof.
  split_and!.
  - intros raw. rewrite Sanitize_words. apply runes_written. eapply Forall_impl; [apply one_line|naive_solver].
  - unfold Normalize. by intros ->.
  - intros Hne. apply split_lines; [done|]. apply Forall_forall. intros l (p & _ & Hl)%list_elem_of_omap. by eapply normalized_line.
  - intros p. unfold normalize_part. rewrite Sanitize_words. unfold part_words.
    destruct (join_unpadded _ (words_runes (NFKC (ToValidUTF8 (Text p))))) as (_ & _ & Hnil).
    destruct (String.eqb_spec (string_of_runes (join_with 32 (words (runes (NFKC (ToValidUTF8 (Text p))))))) "") as [E|E].
    + split; [intros _; apply Hnil|done]. apply (f_equal runes) in E. rewrite runes_written in E; [done|].
      eapply Forall_impl; [apply (one_line (Text p))|naive_solver].
    + split; [done|]. intros Hw. by rewrite Hw in E.
Qed.
End Normalized.

(** ** Attribution *)

Lemma each_Forall {A B} (P : B → Prop) (f : nat → A → list B) l : Forall (λ a, ∀ i, Forall P (f i a)) l → Forall P (each f l).
Proof. unfold each. generalize 0%nat. induction l as [|a l IH]; intros n H; cbn; [constructor|]. inversion H; subst. apply Forall_app. auto. Qed.

(** The kinds of the parts a piece of a message has. *)
Definition of_kinds (kinds : list string) (p : Part) : Prop := Kind p ∈ kinds.
Definition component_kinds : list string := ["component_text"; "component_label"; "component_url"; "component_description"]%string.
Definition embed_kinds : list string :=
  ["embed_author"; "embed_title"; "embed_description"; "embed_field_name"; "embed_field_value"; "embed_footer"]%string.
Definition context_kinds : list string := ["reply_context"; "forward_context"]%string.
Definition poll_kinds : list string := ["poll_question"; "poll_answer"]%string.
Definition attachment_kinds : list string := ["attachment_filename"; "attachment_text"]%string.

Lemma add_kind kinds kind path text : bool_decide (kind ∈ kinds) = true → Forall (of_kinds kinds) (add kind path text).
Proof.
  intros H%bool_decide_eq_true. unfold add. destruct (text =? "")%string; [constructor|]. by apply Forall_singleton.
Qed.

Lemma component_of_kinds c : ∀ path, Forall (of_kinds component_kinds) (appendComponentPart c path).
Proof.
  assert (Hcs : ∀ cs path, Forall (λ c, ∀ path, Forall (of_kinds component_kinds) (appendComponentPart c path)) cs →
    Forall (of_kinds component_kinds) (each (λ i c, appendComponentPart c (at_index path i)) cs)).
  { intros cs path H. apply each_Forall. eapply Forall_impl; [exact H|]. intros c' Hc i. apply Hc. }
  induction c as [s|l u|[d|]|l|cs a IHcs IHa|cs IHcs|cs IHcs|] using MessageComponent_nested; intros path; cbn [appendComponentPart].
  - by apply add_kind.
  - apply Forall_app. split; by apply add_kind.
  - by apply add_kind.
  - constructor.
  - apply each_Forall, Forall_true. intros [d|] i; [by apply add_kind|constructor].
  - apply Forall_app. split; [by apply Hcs|apply IHa].
  - by apply Hcs.
  - by apply Hcs.
  - constructor.
Qed.

Lemma embed_of_kinds e i : Forall (of_kinds embed_kinds) (embed_parts i e).
Proof.
  destruct e as [e|]; [|constructor]. cbn [embed_parts]. repeat (apply Forall_app; split); try (by apply add_kind).
  - destruct (em_Author e); [by apply add_kind|constructor].
  - apply each_Forall, Forall_true. intros [f|] j; [|constructor]. apply Forall_app. split; by apply add_kind.
  - destruct (em_Footer e); [by apply add_kind|constructor].
Qed.

(** The parts of a message, piece by piece. *)
Lemma pieces m attachments : ∃ components embeds context poll,
  Parts (Some m) attachments
  = add "authored" "/content" (tm_Content m) ++ components ++ each attachment_parts (used_attachments m attachments) ++ embeds ++ context ++ poll
  ∧ Forall (of_kinds component_kinds) components ∧ Forall (of_kinds embed_kinds) embeds
  ∧ Forall (of_kinds context_kinds) context ∧ Forall (of_kinds poll_kinds) poll.
Proof.
  do 4 eexists. split; [reflexivity|]. split_and!.
  - destruct (is_components_v2 m); [|constructor]. apply each_Forall, Forall_true. intros c i. apply component_of_kinds.
  - apply each_Forall, Forall_true. intros e i. apply embed_of_kinds.
  - destruct (tm_Referenced m) as [r|]; [|constructor]. destruct (rm_Content r =? "")%string; [constructor|]. apply Forall_singleton.
    unfold of_kinds, reference_kind. cbn [Kind]. destruct (tm_ReferenceType m) as [t|]; [destruct (t =? _)|]; (apply (bool_decide_unpack _); done).
  - destruct (tm_Poll m) as [p|]; [|constructor]. apply Forall_app. split; [by apply add_kind|].
    apply each_Forall, Forall_true. intros [s|] i; [by apply add_kind|constructor].
Qed.

Lemma attributed_elem ps path text :
  (path, text) ∈ attributed ps ↔ ∃ p, p ∈ ps ∧ filed_text (Kind p) = false ∧ Path p = path ∧ Text p = text.
Proof.
  unfold attributed. rewrite list_elem_of_fmap. setoid_rewrite elem_of_lfilter. setoid_rewrite negb_true_iff. naive_solver.
Qed.

Lemma pointed_parts m attachments path text : text ≠ ""%string →
  text_at (message_document m (used_attachments m attachments)) path = Some text
  ↔ ∃ p, p ∈ Parts (Some m) attachments ∧ filed_text (Kind p) = false ∧ Path p = path ∧ Text p = text.
Proof.
  intros Htext. rewrite <- attributed_elem, tells_message, text_at_leaf by apply wf_message.
  unfold with_text. rewrite elem_of_lfilter, nonempty_spec. naive_solver.
Qed.

Lemma NoDup_kept {A B} (f : A * B → bool) l : NoDup l.*1 → NoDup (List.filter f l).*1.
Proof.
  induction l as [|x l IH]; cbn; [done|]. intros [Hx Hl]%NoDup_cons. destruct (f x); [|auto]. cbn. apply NoDup_cons. split; [|auto].
  intros ([a b] & E & [Hin _]%elem_of_lfilter)%list_elem_of_fmap. apply Hx. rewrite E. by apply (list_elem_of_fmap_2 fst).
Qed.

Lemma paths_once m attachments : NoDup (attributed (Parts (Some m) attachments)).*1.
Proof. rewrite tells_message. apply NoDup_kept, paths_unique, wf_message. Qed.

(** The texts of attachments, with the attachment they came from. *)
Definition filed (ps : list Part) : list (string * string) := (λ p, (AttachmentID p, Text p)) <$> List.filter (λ p, filed_text (Kind p)) ps.

Lemma filed_app l k : filed (l ++ k) = filed l ++ filed k.
Proof. unfold filed. by rewrite List.filter_app, fmap_app. Qed.
Lemma filed_none kinds ps : Forall (of_kinds kinds) ps → existsb filed_text kinds = false → filed ps = [].
Proof.
  intros Hps Hk. unfold filed. induction Hps as [|p ps Hp _ IH]; [done|]. cbn. unfold of_kinds in Hp.
  destruct (filed_text (Kind p)) eqn:E; [|done]. exfalso. apply not_true_iff_false in Hk. apply Hk, existsb_exists. exists (Kind p).
  by rewrite <- list_elem_of_In.
Qed.

Lemma filed_attachments l : ∀ i, filed (each_from attachment_parts i l) = with_text ((λ a, (at_ID a, at_Text a)) <$> l).
Proof.
  induction l as [|a l IH]; intros i; [done|]. cbn [each_from]. rewrite filed_app, IH. cbn. unfold attachment_parts, add_attachment, nonempty.
  destruct (at_Filename a =? "")%string, (at_Text a =? "")%string; reflexivity.
Qed.

Lemma filed_parts m attachments :
  filed (Parts (Some m) attachments) = with_text ((λ a, (at_ID a, at_Text a)) <$> used_attachments m attachments).
Proof.
  destruct (pieces m attachments) as (cs & es & rs & ps & -> & Hc & He & Hr & Hp). rewrite !filed_app.
  rewrite (filed_none _ _ (add_kind ["authored"]%string "authored" "/content" (tm_Content m) eq_refl) eq_refl).
  rewrite (filed_none _ _ Hc eq_refl), (filed_none _ _ He eq_refl), (filed_none _ _ Hr eq_refl), (filed_none _ _ Hp eq_refl).
  cbn [app]. rewrite !app_nil_r. apply filed_attachments.
Qed.

Lemma attachment_of_kinds l : Forall (of_kinds attachment_kinds) (each attachment_parts l).
Proof.
  apply each_Forall, Forall_true. intros a i. apply Forall_app. split.
  - unfold add_attachment. destruct (at_Filename a =? "")%string; [constructor|]. apply Forall_singleton. unfold of_kinds. cbn [Kind]. by apply (bool_decide_unpack _).
  - unfold add_attachment. destruct (at_Text a =? "")%string; [constructor|]. apply Forall_singleton. unfold of_kinds. cbn [Kind]. by apply (bool_decide_unpack _).
Qed.

Lemma authored_is_content m attachments p : p ∈ Parts (Some m) attachments → Kind p = "authored"%string → Path p = "/content"%string ∧ Text p = tm_Content m.
Proof.
  destruct (pieces m attachments) as (cs & es & rs & ps & -> & Hc & He & Hr & Hp). intros Hin Hk.
  assert (Hno : ∀ kinds l, Forall (of_kinds kinds) l → p ∈ l → bool_decide ("authored"%string ∈ kinds) = true).
  { intros kinds l Hl Hpl. rewrite Forall_forall in Hl. apply bool_decide_eq_true. rewrite <- Hk. by apply Hl. }
  rewrite !elem_of_app in Hin. destruct Hin as [Hin|[Hin|[Hin|[Hin|[Hin|Hin]]]]].
  - unfold add in Hin. destruct (tm_Content m =? "")%string; [by apply elem_of_nil in Hin|]. by apply list_elem_of_singleton in Hin as ->.
  - by apply (Hno _ _ Hc) in Hin.
  - by apply (Hno _ _ (attachment_of_kinds _)) in Hin.
  - by apply (Hno _ _ He) in Hin.
  - by apply (Hno _ _ Hr) in Hin.
  - by apply (Hno _ _ Hp) in Hin.
Qed.

(** C16: the parts are the searchable texts of the message, attributed. A
    pointer leads to a text of the payload exactly when one part has that path
    and that text, whatever the nesting of the components; the texts that were
    extracted from attachments are, in order, the parts without a pointer, with
    the attachment they belong to; and only the message's own content counts as
    authored. *)
Theorem parts_are_the_texts m attachments :
  let used := used_attachments m attachments in
  let parts := Parts (Some m) attachments in
  (∀ path text, text ≠ ""%string →
     text_at (message_document m used) path = Some text
     ↔ ∃ p, p ∈ parts ∧ filed_text (Kind p) = false ∧ Path p = path ∧ Text p = text)
  ∧ NoDup (attributed parts).*1
  ∧ filed parts = with_text ((λ a, (at_ID a, at_Text a)) <$> used)
  ∧ (∀ p, p ∈ parts → Kind p = "authored"%string → Path p = "/content"%string ∧ Text p = tm_Content m).
Proof.
  intros used parts. split_and!; [apply pointed_parts|apply paths_once|apply filed_parts|apply authored_is_content].
Qed.

(** ** A message *)

Definition sample_text : TextMessage :=
  mkTextMessage "see" MessageFlagsIsComponentsV2
    [Container [TextDisplay "inner"; SectionComponent [TextDisplay "deep"] (Thumbnail (Some "alt"))];
     OtherComponent; ActionsRow [Button "Open" "https://example.test"]]%string
    [] [None; Some (mkEmbed None "Title" "" [Some (mkField "F" "v")] (Some "foot"))]%string
    (Some (mkReferenced "9" "said")) None (Some (mkPoll "why" [None; Some "so"]))%string.

Example sample_parts :
  (λ p, (Kind p, Path p, Text p)) <$> Parts (Some sample_text) (Some [mkAttachment "a" "f.txt" "body"])%string =
  [("authored", "/content", "see"); ("component_text", "/components/0/components/0/content", "inner");
   ("component_text", "/components/0/components/1/components/0/content", "deep");
   ("component_description", "/components/0/components/1/accessory/description", "alt");
   ("component_label", "/components/2/components/0/label", "Open"); ("component_url", "/components/2/components/0/url", "https://example.test");
   ("attachment_filename", "/attachments/0/filename", "f.txt"); ("attachment_text", "message_attachments/text_content", "body");
   ("embed_title", "/embeds/1/title", "Title"); ("embed_field_name", "/embeds/1/fields/0/name", "F");
   ("embed_field_value", "/embeds/1/fields/0/value", "v"); ("embed_footer", "/embeds/1/footer/text", "foot");
   ("reply_context", "/referenced_message/content", "said"); ("poll_question", "/poll/question/text", "why");
   ("poll_answer", "/poll/answers/1/poll_media/text", "so")]%string.
Proof. vm_compute. reflexivity. Qed.

Definition ascii_normal : Normalization := {| NFKC := λ s, s |}.

(** Tabs and newlines become one space, control and zero-width runes vanish. *)
Example sanitized : Sanitize (H := ascii_normal) ("  a" ++ newline ++ String (byte 9) "b" ++ String (byte 0) ("c" ++ encode_rune 8203 ++ " "))
  = "a bc"%string.
Proof. vm_compute. reflexivity. Qed.

Definition two_parts : list Part := [mkPart "authored" "/content" ("a" ++ newline ++ "b") "" ""; mkPart "reply_context" "/r" "c" "" ""].

Lemma parts_are_the_texts_witness :
  text_at (message_document sample_text []) "/components/0/components/1/accessory/description" = Some "alt"%string
  ∧ ∃ p, p ∈ Parts (Some sample_text) None ∧ filed_text (Kind p) = false
         ∧ Path p = "/components/0/components/1/accessory/description"%string ∧ Text p = "alt"%string.
Proof.
  split; [vm_compute; reflexivity|].
  apply (proj1 (parts_are_the_texts sample_text None)); [discriminate|vm_compute; reflexivity].
Defined.

Lemma normalized_lines_are_parts_witness :
  split_at 10 (runes (Normalize (H := ascii_normal) two_parts)) = runes <$> ["a b"; "reply:c"]%string.
Proof.
  pose proof (proj1 (proj2 (proj2 (normalized_lines_are_parts (H := ascii_normal) two_parts)))) as Hlines.
  change (["a b"; "reply:c"]%string) with (omap (normalize_part (H := ascii_normal)) two_parts). apply Hlines. vm_compute. discriminate.
Defined.
