(* ===== verification/Embeddings.v ===== *)
(** * Embeddings

    internal/store/embedding_worker.go and embeddings.go over the tables of
    MessageWrite: the queue of the background worker (claim, process, complete,
    retry, release, and the recovery of interrupted claims at startup), and the
    one-shot drain with its locks, its stored failures and its counters.

    The provider of vectors, the encoding of a vector as a blob and the error
    types of the provider's library are the class [EmbedLib] and function
    arguments; the runner that calls the queue is outside (any order of its
    calls is allowed by the properties). Statements that fail inside SQLite are
    outside the model, as in MessageWrite: a failed transaction changes nothing. *)
From S2P Require Import Prelude Decimal GoTime GoText Errors SyncState ChannelScope FailureLedger Rows Receipts Attachments Mentions MessageWrite Runes.
Local Open Scope Z_scope.

Definition EmbeddingInputVersion : string := "message_normalized_v1".
Definition defaultEmbedLimit : Z := 1000.
Definition maxEmbeddingAttempts : Z := 3.
Definition maxStoredErrorChars : Z := 500.
Definition embeddingLockTimeout : Z := 15 * 60 * second.

(** A float32 by its bits; [embed.EmbeddingBatch]. *)
Definition vector := list Z.
Record EmbeddingBatch := mkBatch { Vectors : list vector; Dimensions : Z }.

(** [worker.Failure]. *)
Record WorkFailure := mkWorkFailure { f_Code : string; f_Pause : bool; f_Permanent : bool; f_RetryAfter : Z }.

(** crawlkit's embed, vector and worker packages. *)
Class EmbedLib := {
  DefaultBatchSize : Z;
  DefaultMaxInputChars : Z;
  DefaultRequestTimeout : Z;
  EncodeFloat32 : vector → string + err;
  IsRateLimitError : err → bool;
  as_Failure : err → option WorkFailure;              (** [errors.AsType[*worker.Failure]] *)
  as_HTTPError : err → option (Z * string);       (** status, [Retry-After] *)
  ParseHTTPTime : string → option Z               (** [http.ParseTime] *)
}.

Record EmbeddingDrainOptions := mkDrainOptions {
  do_RequestTimeout : Z; do_Provider : string; do_Model : string; do_InputVersion : string;
  do_Limit : Z; do_BatchSize : Z; do_MaxInputChars : Z
}.

Record EmbeddingDrainStats := mkDrainStats {
  st_Processed : Z; st_Succeeded : Z; st_Failed : Z; st_Skipped : Z; st_Requeued : Z;
  st_RemainingBacklog : Z; st_RateLimited : bool
}.

Record embeddingJob := mkEmbeddingJob {
  ej_MessageID : string; ej_NormalizedContent : string; ej_Attempts : Z;
  ej_Provider : string; ej_Model : string; ej_InputVersion : string
}.

(** [worker.Job[string]]; the payload is the key. *)
Record work_job := mkWorkJob { w_Key : string; w_Revision : Z; w_Attempts : Z; w_Token : string }.
#[export] Instance work_job_eq_dec : EqDecision work_job.
Proof. solve_decision. Defined.

Record ClaimRequest := mkClaim { c_Kind : string; c_CatchUp : bool; c_Now : Z; c_LeaseUntil : Z; c_Limit : Z }.
Record Retry_request := mkRetry { rt_Now : Z; rt_At : Z; rt_Code : string; rt_Permanent : bool; rt_CountAttempt : bool }.

Record embeddingWorkResult := mkWorkResult {
  wr_input : string; wr_valid : bool; wr_blob : string; wr_dimensions : Z; wr_empty : bool
}.

(** ** Rows *)

(** [update embedding_jobs set ... where message_id=?]. *)
Definition on_job (f : embedding_job → embedding_job) (id : string) (s : mstate) : mstate :=
  with_jobs (alter f id (ms_jobs s)) s.
Definition delete_job (id : string) (s : mstate) : mstate := with_jobs (delete id (ms_jobs s)) s.

Definition live (r : storedMessage) : bool := (s_deleted r =? "")%string && negb (s_guild r =? "@me")%string.
(** The text of a message that is not deleted and not a direct message. *)
Definition live_text (s : mstate) (id : string) : option string :=
  match ms_rows s !! id with
  | Some r => if live r then Some (s_normalized r) else None
  | None => None
  end.

Definition same_identity (a b : embedding) : bool :=
  (e_provider a =? e_provider b)%string && (e_model a =? e_model b)%string && (e_version a =? e_version b)%string.
Definition put_embedding (e : embedding) (l : list embedding) : list embedding :=
  if existsb (same_identity e) l then map (λ x, if same_identity e x then e else x) l else l ++ [e].
Definition upsertEmbedding (id : string) (e : embedding) (s : mstate) : mstate :=
  with_embeddings (<[id := put_embedding e (default [] (ms_embeddings s !! id))]> (ms_embeddings s)) (ms_embedding_history s) s.

Section embeddings.
Context `{EmbedLib}.

Definition normalizeEmbeddingDrainOptions (o : EmbeddingDrainOptions) : EmbeddingDrainOptions :=
  let version := TrimSpace (do_InputVersion o) in
  let limit := if do_Limit o <=? 0 then defaultEmbedLimit else do_Limit o in
  let batch := if do_BatchSize o <=? 0 then DefaultBatchSize else do_BatchSize o in
  mkDrainOptions (do_RequestTimeout o) (ToLower (TrimSpace (do_Provider o))) (TrimSpace (do_Model o))
    (if (version =? "")%string then EmbeddingInputVersion else version)
    limit (if limit <? batch then limit else batch)
    (if do_MaxInputChars o <=? 0 then DefaultMaxInputChars else do_MaxInputChars o).

Definition EncodeEmbeddingVector (values : vector) : string + err :=
  match EncodeFloat32 values with
  | inl blob => inl blob
  | inr e => inr (EWrap "encode embedding vector: " e "")
  end.

(** The loop of [validateEmbeddingBatch]. *)
Fixpoint same_dimensions (dimensions : Z) (vectors : list vector) : Z + err :=
  match vectors with
  | [] => inl dimensions
  | v :: rest =>
      let n := Z.of_nat (length v) in
      if n =? 0 then inr (EText "embedding provider returned an empty vector")
      else if dimensions =? 0 then same_dimensions n rest
      else if negb (n =? dimensions) then
        inr (EText ("embedding provider dimensions mismatch: got " ++ pretty n ++ " want " ++ pretty dimensions))
      else same_dimensions dimensions rest
  end.
Definition validateEmbeddingBatch (batch : EmbeddingBatch) (expected : nat) : Z + err :=
  if negb (length (Vectors batch) =? expected)%nat then
    inr (EText ("embedding provider returned " ++ pretty (length (Vectors batch)) ++ " vectors for " ++ pretty expected ++ " inputs"))
  else same_dimensions (Dimensions batch) (Vectors batch).

(** ** The worker *)

(** [NewEmbeddingWorker]: the claims of a process that is gone. *)
Definition recovered_job (j : embedding_job) : embedding_job :=
  if (j_state j =? "pending")%string && (negb (j_lease_token j =? "")%string || negb (j_locked j =? "")%string)
  then mkJob (j_state j) (j_attempts j) (j_provider j) (j_model j) (j_version j) (j_last_error j) "" (j_updated j)
         (j_revision j) "" "" (j_available j) (j_priority j) (j_enqueued j)
  else j.
Definition recoverClaims (s : mstate) : mstate := with_jobs (recovered_job <$> ms_jobs s) s.

(** [applyEmbeddingWorkerMigration], once the columns exist. *)
Definition unlocked_job (j : embedding_job) : embedding_job :=
  if (j_state j =? "pending")%string
  then mkJob (j_state j) (j_attempts j) (j_provider j) (j_model j) (j_version j) (j_last_error j) "" (j_updated j)
         (j_revision j) (j_lease_token j) (j_lease_until j) (j_available j) (j_priority j) (j_enqueued j)
  else j.
Definition applyEmbeddingWorkerMigration (s : mstate) : mstate := with_jobs (unlocked_job <$> ms_jobs s) s.

Fixpoint lex_leb (xs ys : list string) : bool :=
  match xs, ys with
  | x :: xs, y :: ys => String.ltb x y || (x =? y)%string && lex_leb xs ys
  | _, _ => true
  end.
(** [limit ?]: SQLite reads a negative number as no limit. *)
Definition sql_limit {A} (n : Z) (l : list A) : list A := if n <? 0 then l else firstn (Z.to_nat n) l.

Definition claim_le (a b : string * embedding_job) : Prop :=
  lex_leb [j_available a.2; j_updated a.2; a.1] [j_available b.2; j_updated b.2; b.1] = true.
#[global] Instance claim_le_dec : RelDecision claim_le.
Proof. unfold claim_le. intros a b. apply _. Defined.

Definition ready (s : mstate) (priority : Z) (now : string) (row : string * embedding_job) : bool :=
  let '(id, j) := row in
  (j_state j =? "pending")%string && (j_priority j =? priority) && String.leb (j_available j) now && String.leb (j_lease_until j) now
  && match live_text s id with Some _ => true | None => false end.

Definition has_identity (o : EmbeddingDrainOptions) (j : embedding_job) : bool :=
  (j_provider j =? do_Provider o)%string && (j_model j =? do_Model o)%string && (j_version j =? do_InputVersion o)%string.

Definition claimed_job (o : EmbeddingDrainOptions) (now until : string) (token : string) (attempts : Z) (j : embedding_job) : embedding_job :=
  mkJob (j_state j) attempts (do_Provider o) (do_Model o) (do_InputVersion o) (j_last_error j) now (j_updated j)
    (j_revision j) token until (j_available j) (j_priority j) (j_enqueued j).

(** One row of [Claim], with the token [rand.Text] gave it. *)
Definition claim_of (o : EmbeddingDrainOptions) (row : string * embedding_job) (token : string) : work_job :=
  let '(id, j) := row in
  mkWorkJob id (j_revision j) (if has_identity o j then j_attempts j else 0) token.
Definition claim_row (o : EmbeddingDrainOptions) (now until : string) (s : mstate) (w : work_job) : mstate :=
  match ms_jobs s !! w_Key w with
  | Some j => if j_revision j =? w_Revision w
              then on_job (claimed_job o now until (w_Token w) (w_Attempts w)) (w_Key w) s else s
  | None => s
  end.

(** [Claim]; [tokens] are the values of [rand.Text] in the order of the rows. *)
Definition Claim (o : EmbeddingDrainOptions) (req : ClaimRequest) (tokens : nat → string) (s : mstate) : (list work_job * mstate) + err :=
  if negb (c_Kind req =? "embeddings")%string then inr (EText "unsupported worker kind")
  else
    let priority := if c_CatchUp req then 0 else 1 in
    let now := timeLayout (c_Now req) in
    let rows := sql_limit (c_Limit req) (merge_sort claim_le (List.filter (ready s priority now) (map_to_list (ms_jobs s)))) in
    let jobs := imap (λ i row, claim_of o row (tokens i)) rows in
    inl (jobs, fold_left (claim_row o now (timeLayout (c_LeaseUntil req))) jobs s).

(** What the worker reads of a job from its read-only connection. *)
Definition read_input (o : EmbeddingDrainOptions) (s : mstate) (w : work_job) : embeddingWorkResult * option string :=
  let found := match live_text s (w_Key w), ms_jobs s !! w_Key w with
               | Some text, Some j => if (j_revision j =? w_Revision w) && (j_lease_token j =? w_Token w)%string then Some text else None
               | _, _ => None
               end in
  match found with
  | None => (mkWorkResult "" false "" 0 true, None)
  | Some text =>
      let input := capRunes text (do_MaxInputChars o) in
      if (TrimSpace text =? "")%string then (mkWorkResult input true "" 0 true, None)
      else (mkWorkResult input true "" 0 false, Some input)
  end.

(** The results with the vectors of those that had an input, in order. *)
Fixpoint fill_results (dimensions : Z) (reads : list (embeddingWorkResult * option string)) (vectors : list vector)
    : list embeddingWorkResult + WorkFailure :=
  match reads with
  | [] => inl []
  | (r, None) :: rest => match fill_results dimensions rest vectors with inl rs => inl (r :: rs) | inr f => inr f end
  | (r, Some _) :: rest =>
      match vectors with
      | [] => inr (mkWorkFailure "invalid_embedding_response" false true 0)
      | v :: vectors =>
          match EncodeEmbeddingVector v with
          | inr _ => inr (mkWorkFailure "invalid_embedding_vector" false true 0)
          | inl blob => match fill_results dimensions rest vectors with
                        | inl rs => inl (mkWorkResult (wr_input r) (wr_valid r) blob dimensions (wr_empty r) :: rs)
                        | inr f => inr f
                        end
          end
      end
  end.

Definition int64_wrap (z : Z) : Z := (z + 2 ^ 63) mod 2 ^ 64 - 2 ^ 63.
Definition int64_clamp (z : Z) : Z := Z.max (- 2 ^ 63) (Z.min (2 ^ 63 - 1) z).

(** [embeddingWorkerFailure]; [now] is the time of [time.Until]. *)
Definition embeddingWorkerFailure (now : Z) (e : err) : WorkFailure :=
  match as_Failure e with
  | Some f => f
  | None =>
      match as_HTTPError e with
      | Some (status, header) =>
          let pause := (status =? 401) || (status =? 403) || (status =? 429) || (500 <=? status) in
          let after := match ParseInt header with
                       | Some seconds => if 0 <? seconds then Some (int64_wrap (seconds * second)) else None
                       | None => None
                       end in
          let after := match after with
                       | Some d => d
                       | None => match ParseHTTPTime header with Some at_ => int64_clamp (at_ - now) | None => 0 end
                       end in
          mkWorkFailure ("embedding_http_" ++ pretty status) pause (negb pause) (if pause && (after <=? 0) then 5 * second else after)
      | None => mkWorkFailure "embedding_provider_unavailable" true false (5 * second)
      end
  end.

(** [process]: the [i]-th job is read in the state [at_read i], as nothing
    keeps the writer from working between two reads. *)
Definition process (o : EmbeddingDrainOptions) (embed : list string → EmbeddingBatch + err) (now : Z) (at_read : nat → mstate) (jobs : list work_job)
    : list embeddingWorkResult + WorkFailure :=
  let reads := imap (λ i w, read_input o (at_read i) w) jobs in
  let inputs := omap snd reads in
  match inputs with
  | [] => inl (fst <$> reads)
  | _ => match embed inputs with
         | inr e => inr (embeddingWorkerFailure now e)
         | inl batch =>
             match validateEmbeddingBatch batch (length inputs) with
             | inr _ => inr (mkWorkFailure "invalid_embedding_response" false true 0)
             | inl dimensions => fill_results dimensions reads (Vectors batch)
             end
         end
  end.

(** The condition of every settlement: the claim is still in force. *)
Definition holds (w : work_job) (now : string) (j : embedding_job) : bool :=
  (j_revision j =? w_Revision w) && (j_lease_token j =? w_Token w)%string && String.ltb now (j_lease_until j) && (j_state j =? "pending")%string.

Definition completed_job (now : string) (j : embedding_job) : embedding_job :=
  mkJob "done" 0 (j_provider j) (j_model j) (j_version j) "" "" now (j_revision j) "" "" "" (j_priority j) (j_enqueued j).
(** The message changed under the worker: fresh work again. *)
Definition requeued_job (now : string) (j : embedding_job) : embedding_job :=
  mkJob "pending" (j_attempts j) (j_provider j) (j_model j) (j_version j) (j_last_error j) (j_locked j) (j_updated j)
    (j_revision j + 1) (j_lease_token j) (j_lease_until j) (j_available j) 1 now.

Definition result_embedding (o : EmbeddingDrainOptions) (now : string) (r : embeddingWorkResult) : embedding :=
  mkEmbedding (do_Provider o) (do_Model o) (do_InputVersion o) (wr_dimensions r) (wr_blob r) now.

Definition Complete (o : EmbeddingDrainOptions) (w : work_job) (r : embeddingWorkResult) (now : Z) (s : mstate) : bool * mstate :=
  let id := w_Key w in
  let now := timeLayout now in
  match ms_jobs s !! id with
  | None => (false, s)
  | Some j =>
      if negb (holds w now j) then (false, s)
      else
        let s := on_job (completed_job now) id s in
        match live_text s id with
        | None => (false, deleteMessageEmbeddings id (delete_job id s))
        | Some current =>
            if negb (wr_valid r) || negb (capRunes current (do_MaxInputChars o) =? wr_input r)%string
            then (false, deleteMessageEmbeddings id (on_job (requeued_job now) id s))
            else if wr_empty r then (true, deleteMessageEmbeddings id s)
            else (true, upsertEmbedding id (result_embedding o now r) s)
        end
  end.

Definition retried_job (r : Retry_request) (j : embedding_job) : embedding_job :=
  mkJob (if rt_Permanent r then "failed" else "pending") (j_attempts j + (if rt_CountAttempt r then 1 else 0))
    (j_provider j) (j_model j) (j_version j) (rt_Code r) "" (timeLayout (rt_Now r)) (j_revision j) "" "" (timeLayout (rt_At r))
    (j_priority j) (j_enqueued j).
Definition released_job (j : embedding_job) : embedding_job :=
  mkJob (j_state j) (j_attempts j) (j_provider j) (j_model j) (j_version j) (j_last_error j) "" (j_updated j)
    (j_revision j) "" "" (j_available j) (j_priority j) (j_enqueued j).

(** An update of a job whose claim is in force. *)
Definition settle (w : work_job) (now : Z) (f : embedding_job → embedding_job) (s : mstate) : bool * mstate :=
  match ms_jobs s !! w_Key w with
  | Some j => if holds w (timeLayout now) j then (true, on_job f (w_Key w) s) else (false, s)
  | None => (false, s)
  end.
Definition Retry (w : work_job) (r : Retry_request) (s : mstate) : bool * mstate := settle w (rt_Now r) (retried_job r) s.
Definition Release (w : work_job) (now : Z) (s : mstate) : bool * mstate := settle w now released_job s.

(** ** Counts *)

Definition backlog_row (s : mstate) (row : string * embedding_job) : bool :=
  (j_state row.2 =? "pending")%string && match live_text s row.1 with Some _ => true | None => false end.
(** [CountEmbeddingBacklog], and [Pending] of the worker's status. *)
Definition EmbeddingBacklog (s : mstate) : Z := Z.of_nat (length (List.filter (backlog_row s) (map_to_list (ms_jobs s)))).
Definition FailedJobs (s : mstate) : Z := Z.of_nat (length (List.filter (λ row, (j_state row.2 =? "failed")%string) (map_to_list (ms_jobs s)))).

(** ** The one-shot drain *)

(** [trimStoredError]. *)
Definition trimStoredError (e : option err) : string :=
  match e with None => "" | Some e => capRunes (TrimSpace (Error e)) maxStoredErrorChars end.

Definition sameEmbeddingIdentity (j : embeddingJob) (o : EmbeddingDrainOptions) : bool :=
  (ej_Provider j =? do_Provider o)%string && (ej_Model j =? do_Model o)%string && (ej_InputVersion j =? do_InputVersion o)%string.
Definition emptyEmbeddingIdentity (j : embeddingJob) : bool :=
  (ej_Provider j =? "")%string && (ej_Model j =? "")%string && (ej_InputVersion j =? "")%string.

Definition unlocked (staleBefore : string) (j : embedding_job) : bool :=
  (j_locked j =? "")%string || String.ltb (j_locked j) staleBefore.

Definition drain_le (a b : string * embedding_job) : Prop := lex_leb [j_updated a.2; a.1] [j_updated b.2; b.1] = true.
#[global] Instance drain_le_dec : RelDecision drain_le.
Proof. unfold drain_le. intros a b. apply _. Defined.

Definition drain_job (s : mstate) (row : string * embedding_job) : embeddingJob :=
  let '(id, j) := row in
  mkEmbeddingJob id (default ""%string (live_text s id)) (j_attempts j) (j_provider j) (j_model j) (j_version j).
Definition pendingEmbeddingJobs (limit : Z) (staleBefore : string) (s : mstate) : list embeddingJob :=
  drain_job s <$> sql_limit limit (merge_sort drain_le
    (List.filter (λ row, backlog_row s row && unlocked staleBefore row.2) (map_to_list (ms_jobs s)))).

(** The statements of the drain on one row. *)
Definition reset_job (o : EmbeddingDrainOptions) (now : string) (resetAttempts : bool) (j : embedding_job) : embedding_job :=
  mkJob (j_state j) (if resetAttempts then 0 else j_attempts j) (do_Provider o) (do_Model o) (do_InputVersion o) "" "" now
    (j_revision j) (j_lease_token j) (j_lease_until j) (j_available j) (j_priority j) (j_enqueued j).
Definition locked_job (lockedAt : string) (j : embedding_job) : embedding_job :=
  mkJob (j_state j) (j_attempts j) (j_provider j) (j_model j) (j_version j) (j_last_error j) lockedAt lockedAt
    (j_revision j) (j_lease_token j) (j_lease_until j) (j_available j) (j_priority j) (j_enqueued j).
Definition marked_job (o : EmbeddingDrainOptions) (now state : string) (attempts : Z) (lastError : string) (j : embedding_job) : embedding_job :=
  mkJob state attempts (do_Provider o) (do_Model o) (do_InputVersion o) lastError "" now
    (j_revision j) (j_lease_token j) (j_lease_until j) (j_available j) (j_priority j) (j_enqueued j).
Definition done_job (o : EmbeddingDrainOptions) (now : string) (j : embedding_job) : embedding_job := marked_job o now "done" 0 "" j.
Definition empty_done_job (o : EmbeddingDrainOptions) (now : string) (j : embedding_job) : embedding_job := marked_job o now "done" (j_attempts j) "" j.
Definition rate_limited_job (o : EmbeddingDrainOptions) (now lastError : string) (j : embedding_job) : embedding_job :=
  marked_job o now "pending" (j_attempts j) lastError j.

(** [lockEmbeddingJobs]: the jobs that were still free are claimed. *)
Fixpoint lockEmbeddingJobs (jobs : list embeddingJob) (lockedAt staleBefore : string) (s : mstate) : list embeddingJob * mstate :=
  match jobs with
  | [] => ([], s)
  | job :: rest =>
      let id := ej_MessageID job in
      match ms_jobs s !! id with
      | Some j =>
          if (j_state j =? "pending")%string && unlocked staleBefore j then
            let '(claimed, s) := lockEmbeddingJobs rest lockedAt staleBefore (on_job (locked_job lockedAt) id s) in (job :: claimed, s)
          else lockEmbeddingJobs rest lockedAt staleBefore s
      | None => lockEmbeddingJobs rest lockedAt staleBefore s
      end
  end.

(** The transaction of [storeEmbeddingBatch]; it fails as a whole. *)
Fixpoint store_vectors (o : EmbeddingDrainOptions) (now : string) (dimensions : Z) (jobs : list embeddingJob) (vectors : list vector) (s : mstate)
    : mstate + err :=
  match jobs, vectors with
  | [], _ => inl s
  | _, [] => inl s
  | job :: jobs, v :: vectors =>
      match EncodeEmbeddingVector v with
      | inr e => inr e
      | inl blob =>
          let id := ej_MessageID job in
          let e := mkEmbedding (do_Provider o) (do_Model o) (do_InputVersion o) dimensions blob now in
          store_vectors o now dimensions jobs vectors (on_job (done_job o now) id (upsertEmbedding id e s))
      end
  end.

(** [markEmbeddingJobsFailed] for one job. *)
Definition failed_job (o : EmbeddingDrainOptions) (now lastError : string) (job : embeddingJob) (j : embedding_job) : embedding_job :=
  let attempts := ej_Attempts job + 1 in
  marked_job o now (if maxEmbeddingAttempts <=? attempts then "failed" else "pending") attempts lastError j.

Definition markEmbeddingJobsDone (o : EmbeddingDrainOptions) (now : string) (jobs : list embeddingJob) (s : mstate) : mstate :=
  fold_left (λ s job, on_job (empty_done_job o now) (ej_MessageID job) (deleteMessageEmbeddings (ej_MessageID job) s)) jobs s.
Definition markEmbeddingJobsRateLimited (o : EmbeddingDrainOptions) (now : string) (jobs : list embeddingJob) (cause : err) (s : mstate) : mstate :=
  fold_left (λ s job, on_job (rate_limited_job o now (trimStoredError (Some cause))) (ej_MessageID job) s) jobs s.
Definition markEmbeddingJobsFailed (o : EmbeddingDrainOptions) (now : string) (jobs : list embeddingJob) (cause : err) (s : mstate) : mstate :=
  fold_left (λ s job, on_job (failed_job o now (trimStoredError (Some cause)) job) (ej_MessageID job) s) jobs s.

Definition embeddingFailureRef (o : EmbeddingDrainOptions) (messageID : string) : FailureRef :=
  mkRef "embed_message" "embeddings" "" "" messageID "embedding_identity"
    (do_Provider o ++ "/" ++ do_Model o ++ "/" ++ do_InputVersion o).

Definition withEmbeddingFailureRecord (failure : err) (recordErr : option err) : err :=
  match recordErr with
  | None => failure
  | Some e => EWrap2 "" failure " (record failure ledger: " e ")"
  end.
End embeddings.

(** The store, the failure ledger, the number of answers taken so far from the
    clock and the provider, and, for the interleaving with others, the
    transactions on the store that were committed, in order. *)
Record drain := mkDrain { d_store : mstate; d_failures : ledger; d_tick : nat; d_log : list (mstate → mstate) }.
Definition in_store (f : mstate → mstate) (d : drain) : drain := mkDrain (f (d_store d)) (d_failures d) (d_tick d) (d_log d ++ [f]).

Definition count_skipped (st : EmbeddingDrainStats) : EmbeddingDrainStats :=
  mkDrainStats (st_Processed st + 1) (st_Succeeded st) (st_Failed st) (st_Skipped st + 1) (st_Requeued st) (st_RemainingBacklog st) (st_RateLimited st).
Definition count_failed (n : Z) (st : EmbeddingDrainStats) : EmbeddingDrainStats :=
  mkDrainStats (st_Processed st + n) (st_Succeeded st) (st_Failed st + n) (st_Skipped st) (st_Requeued st) (st_RemainingBacklog st) (st_RateLimited st).
Definition count_succeeded (n : Z) (st : EmbeddingDrainStats) : EmbeddingDrainStats :=
  mkDrainStats (st_Processed st + n) (st_Succeeded st + n) (st_Failed st) (st_Skipped st) (st_Requeued st) (st_RemainingBacklog st) (st_RateLimited st).
Definition count_requeued (n : Z) (st : EmbeddingDrainStats) : EmbeddingDrainStats :=
  mkDrainStats (st_Processed st) (st_Succeeded st) (st_Failed st) (st_Skipped st) (st_Requeued st + n) (st_RemainingBacklog st) (st_RateLimited st).
Definition set_rate_limited (st : EmbeddingDrainStats) : EmbeddingDrainStats :=
  mkDrainStats (st_Processed st) (st_Succeeded st) (st_Failed st) (st_Skipped st) (st_Requeued st) (st_RemainingBacklog st) true.
Definition set_backlog (n : Z) (st : EmbeddingDrainStats) : EmbeddingDrainStats :=
  mkDrainStats (st_Processed st) (st_Succeeded st) (st_Failed st) (st_Skipped st) (st_Requeued st) n (st_RateLimited st).

Section drain.
Context `{EmbedLib} `{ErrorReport}.
Variable clock : nat → Z.
Variable provider : nat → list string → EmbeddingBatch + err.

Definition read_clock (d : drain) : Z * drain := (clock (d_tick d), mkDrain (d_store d) (d_failures d) (S (d_tick d)) (d_log d)).
Definition Embed (inputs : list string) (d : drain) : (EmbeddingBatch + err) * drain :=
  (provider (d_tick d) inputs, mkDrain (d_store d) (d_failures d) (S (d_tick d)) (d_log d)).
(** A call of the ledger, which reads the time itself. *)
Definition in_ledger (f : Z → ledger → option err * ledger) (d : drain) : option err * drain :=
  let '(now, d) := read_clock d in
  let '(e, l) := f now (d_failures d) in (e, mkDrain (d_store d) l (d_tick d) (d_log d)).
(** A transaction that reads the time first. *)
Definition in_store_at (f : string → mstate → mstate) (d : drain) : drain :=
  let '(now, d) := read_clock d in in_store (f (timeLayout now)) d.

Fixpoint recordEmbeddingFailures (o : EmbeddingDrainOptions) (jobs : list embeddingJob) (failure : err) (d : drain) : option err * drain :=
  match jobs with
  | [] => (None, d)
  | job :: rest =>
      match in_ledger (λ now, RecordFailure now (embeddingFailureRef o (ej_MessageID job)) (Some failure)) d with
      | (Some e, d) => (Some e, d)
      | (None, d) => recordEmbeddingFailures o rest failure d
      end
  end.

(** The jobs of a batch that failed for good, counted and recorded. *)
Definition fail_batch (o : EmbeddingDrainOptions) (jobs : list embeddingJob) (failure : err) (st : EmbeddingDrainStats) (d : drain)
    : option err * EmbeddingDrainStats * drain :=
  let d := in_store_at (λ now, markEmbeddingJobsFailed o now jobs failure) d in
  match recordEmbeddingFailures o jobs failure d with
  | (Some e, d) => (Some e, st, d)
  | (None, d) => (None, count_failed (Z.of_nat (length jobs)) st, d)
  end.

(** [processEmbeddingBatch]: the error, whether the provider limits the rate,
    the counters. *)
Definition processEmbeddingBatch (o : EmbeddingDrainOptions) (batch : list embeddingJob) (st : EmbeddingDrainStats) (d : drain)
    : option err * bool * EmbeddingDrainStats * drain :=
  let '(now, d) := read_clock d in
  let lock := lockEmbeddingJobs batch (timeLayout now) (timeLayout (now - embeddingLockTimeout)) in
  let jobs := fst (lock (d_store d)) in
  let d := in_store (λ s, snd (lock s)) d in
  match jobs with
  | [] => (None, false, st, d)
  | _ =>
      let inputs := (λ j, capRunes (ej_NormalizedContent j) (do_MaxInputChars o)) <$> jobs in
      let n := Z.of_nat (length jobs) in
      match Embed inputs d with
      | (inr e, d) =>
          if IsRateLimitError e then
            let d := in_store_at (λ now, markEmbeddingJobsRateLimited o now jobs e) d in
            match recordEmbeddingFailures o jobs e d with
            | (Some er, d) => (Some er, false, st, d)
            | (None, d) => (None, true, count_requeued n st, d)
            end
          else let '(er, st, d) := fail_batch o jobs e st d in (er, false, st, d)
      | (inl answer, d) =>
          match validateEmbeddingBatch answer (length jobs) with
          | inr e => let '(er, st, d) := fail_batch o jobs e st d in (er, false, st, d)
          | inl dimensions =>
              let '(now, d) := read_clock d in
              let store := store_vectors o (timeLayout now) dimensions jobs (Vectors answer) in
              match store (d_store d) with
              | inr e => let '(er, d) := recordEmbeddingFailures o jobs e d in (Some (withEmbeddingFailureRecord e er), false, st, d)
              | inl _ =>
                  let d := in_store (λ s, match store s with inl s => s | inr _ => s end) d in
                  match in_ledger (λ now, ResolveMessageFailures now (embeddingFailureRef o "") (ej_MessageID <$> jobs)) d with
                  | (Some e, d) => (Some e, false, st, d)
                  | (None, d) => (None, false, count_succeeded n st, d)
                  end
              end
          end
      end
  end.

Definition flush (o : EmbeddingDrainOptions) (batch : list embeddingJob) (st : EmbeddingDrainStats) (d : drain) : option err * EmbeddingDrainStats * drain :=
  match batch with
  | [] => (None, st, d)
  | _ => match processEmbeddingBatch o batch st d with
         | (Some e, _, st, d) => (Some e, st, d)
         | (None, limited, st, d) => (None, if limited then set_rate_limited st else st, d)
         end
  end.

(** A job left by another configuration is retargeted. *)
Definition retarget (o : EmbeddingDrainOptions) (job : embeddingJob) (d : drain) : embeddingJob * drain :=
  if sameEmbeddingIdentity job o then (job, d)
  else
    let resetAttempts := negb (emptyEmbeddingIdentity job) in
    (mkEmbeddingJob (ej_MessageID job) (ej_NormalizedContent job) (if resetAttempts then 0 else ej_Attempts job)
       (do_Provider o) (do_Model o) (do_InputVersion o),
     in_store_at (λ now, on_job (reset_job o now resetAttempts) (ej_MessageID job)) d).

(** The loop over the pending jobs, and the batch it leaves. *)
Fixpoint drain_jobs (o : EmbeddingDrainOptions) (jobs batch : list embeddingJob) (st : EmbeddingDrainStats) (d : drain)
    : option err * list embeddingJob * EmbeddingDrainStats * drain :=
  match jobs with
  | [] => (None, batch, st, d)
  | job :: rest =>
      let '(job, d) := retarget o job d in
      if (TrimSpace (ej_NormalizedContent job) =? "")%string then
        let d := in_store_at (λ now, markEmbeddingJobsDone o now [job]) d in
        match in_ledger (λ now, ResolveMessageFailures now (mkRef "embed_message" "embeddings" "" "" "" "" "") [ej_MessageID job]) d with
        | (Some e, d) => (Some e, batch, st, d)
        | (None, d) => drain_jobs o rest batch (count_skipped st) d
        end
      else
        let batch := batch ++ [job] in
        if do_BatchSize o <=? Z.of_nat (length batch) then
          match flush o batch st d with
          | (Some e, st, d) => (Some e, [], st, d)
          | (None, st, d) => if st_RateLimited st then (None, [], st, d) else drain_jobs o rest [] st d
          end
        else drain_jobs o rest batch st d
  end.

(** [DrainEmbeddingJobs] with a provider. *)
Definition DrainEmbeddingJobs (opts : EmbeddingDrainOptions) (d : drain) : option err * EmbeddingDrainStats * drain :=
  let o := normalizeEmbeddingDrainOptions opts in
  let st := mkDrainStats 0 0 0 0 0 0 false in
  let '(now, d) := read_clock d in
  let jobs := pendingEmbeddingJobs (do_Limit o) (timeLayout (now - embeddingLockTimeout)) (d_store d) in
  match drain_jobs o jobs [] st d with
  | (Some e, _, st, d) => (Some e, st, d)
  | (None, batch, st, d) =>
      match (if st_RateLimited st then (None, st, d) else flush o batch st d) with
      | (Some e, st, d) => (Some e, st, d)
      | (None, st, d) => (None, set_backlog (EmbeddingBacklog (d_store d)) st, d)
      end
  end.

(** [RequeueAllEmbeddingJobs]: every live message is pending again. *)
Definition missing_job (o : EmbeddingDrainOptions) (now : string) : embedding_job :=
  mkJob "pending" 0 (do_Provider o) (do_Model o) (do_InputVersion o) "" "" now 1 "" "" "" 0 "".
Definition requeue_row (o : EmbeddingDrainOptions) (now : string) (s : mstate) (id : string) : mstate :=
  match live_text s id with
  | None => s
  | Some _ => let j := default (missing_job o now) (ms_jobs s !! id) in
              with_jobs (<[id := marked_job o now "pending" 0 "" j]> (ms_jobs s)) s
  end.
Definition RequeueAllEmbeddingJobs (opts : EmbeddingDrainOptions) (d : drain) : Z * drain :=
  let o := normalizeEmbeddingDrainOptions opts in
  let '(now, d) := read_clock d in
  let ids := List.filter (λ id, match live_text (d_store d) id with Some _ => true | None => false end) (elements (dom (ms_rows (d_store d)))) in
  (Z.of_nat (length ids), in_store (λ s, fold_left (requeue_row o (timeLayout now)) ids s) d).
End drain.
