(* ===== verification/EmbeddingSlots.v ===== *)
(** * What a message writer does to one message's embedding

    The row, the job and the vectors of one message are its slot. The writers of
    MessageWrite act on the slot of the message they write as the functions
    below say, and leave every other slot alone: the abstract view of the
    writers that the proofs on the embedding queue are made against. *)
From S2P Require Import Prelude GoTime GoText Errors ChannelScope Rows Receipts Attachments Mentions MessageWrite MessageSafety.
Local Open Scope Z_scope.

Abbreviation slot := (option storedMessage * option embedding_job * list embedding)%type.
Definition slot_of (s : mstate) (id : string) : slot := (ms_rows s !! id, ms_jobs s !! id, vectors s id).
Definition slot_text (x : slot) : option string := s_normalized <$> x.1.1.
Definition slot_job (x : slot) : option embedding_job := x.1.2.

Section facts.
Context {tp : TimeParse} {rp : RawPayloads} {lx : Lexical}.

(** [write_message] on its message. *)
Definition write_slot (now : Z) (m : MessageRecord) (o : WriteOptions) (x : slot) : slot :=
  let '(row, job, vs) := x in
  let n := r_NormalizedContent m in
  let changed := match slot_text x with Some p => negb (p =? n)%string | None => false end in
  let job1 := if changed && negb (EnqueueEmbedding o) then revoke <$> job else job in
  let vs1 := if changed then [] else vs in
  let queued := EnqueueEmbedding o && negb (r_GuildID m =? "@me")%string
                && match row, job with Some _, Some _ => changed | _, _ => true end in
  let kept := if queued then (Some (written_row now m row), Some (pending_job now (EmbeddingCatchUp o) job), [])
              else (Some (written_row now m row), job1, vs1) in
  match MessageFTSRowID (r_ID m) with
  | Some _ => if negb (r_DeletedAt m =? "")%string then (Some (written_row now m row), None, []) else kept
  | None => kept
  end.

(** The write of a message whose content is what is stored. *)
Definition refresh_slot (now : Z) (m : MessageRecord) (o : WriteOptions) (x : slot) : slot :=
  let '(row, job, vs) := x in
  match row, job with
  | Some st, None => if (s_deleted st =? "")%string && EnqueueEmbedding o && negb (r_GuildID m =? "@me")%string
                     then (row, Some (pending_job now (EmbeddingCatchUp o) None), []) else x
  | _, _ => x
  end.

Definition touch_slot (now : Z) (x : slot) : slot := (touch now <$> x.1.1, x.1.2, x.2).
Definition delete_slot (row : option storedMessage) : slot := (row, None, []).

(** A write of one message as its slot sees it: kept, refreshed, or written,
    and then perhaps touched for a change of its relations. *)
Inductive slot_write (now : Z) (m : MessageRecord) (o : WriteOptions) (x : slot) : slot → Prop :=
  | SlotKept : slot_write now m o x x
  | SlotRefreshed st : x.1.1 = Some st → messageContentChanged st m = false → slot_write now m o x (refresh_slot now m o x)
  | SlotWritten : slot_write now m o x (write_slot now m o x).

Lemma slot_ext s s' id : ms_rows s' !! id = ms_rows s !! id → ms_jobs s' !! id = ms_jobs s !! id → ms_embeddings s' !! id = ms_embeddings s !! id → slot_of s' id = slot_of s id.
Proof. unfold slot_of, vectors. by intros -> -> ->. Qed.

Lemma slot_archive now i t s id : slot_of (archiveMessageEmbeddings now i t s) id = slot_of s id.
Proof. unfold archiveMessageEmbeddings. by destruct (ms_rows s !! i). Qed.

Lemma slot_discard i s id : slot_of (deleteMessageEmbeddings i s) id = if decide (id = i) then (ms_rows s !! id, ms_jobs s !! id, []) else slot_of s id.
Proof. unfold slot_of, vectors. cbn. case_decide as E; [subst; by rewrite lookup_delete_eq|by rewrite lookup_delete_ne]. Qed.

Lemma slot_queue now c i t s id :
  slot_of (queueEmbedding now c i t s) id = if decide (id = i) then (ms_rows s !! id, Some (pending_job now c (ms_jobs s !! id)), []) else slot_of s id.
Proof.
  unfold queueEmbedding. rewrite slot_discard. cbn. rewrite rows_archive, (proj2 (fts_archive _ _ _ _)).
  case_decide as E; [subst; by rewrite lookup_insert_eq|]. rewrite <- (slot_archive now i t s id). apply slot_ext; [done| |done].
  cbn. by rewrite (proj2 (fts_archive _ _ _ _)), lookup_insert_ne.
Qed.

(** The parts of a slot, after a write of another table. *)
Ltac slot_frame := by apply slot_ext.

(** The vectors and the job a change of the text leaves behind. *)
Lemma slot_retire now p n (enqueue : bool) i s id :
  slot_of (if negb (p =? n)%string then
             let s := deleteMessageEmbeddings i (archiveMessageEmbeddings now i p s) in if negb enqueue then revokeJob i s else s
           else s) id
  = if decide (id = i) then (ms_rows s !! id, if negb (p =? n)%string && negb enqueue then revoke <$> ms_jobs s !! id else ms_jobs s !! id,
                             if negb (p =? n)%string then [] else vectors s id) else slot_of s id.
Proof.
  destruct (negb (p =? n)%string); cbn [andb]; [|by case_decide].
  assert (Hd : ∀ b : bool, slot_of (if b then revokeJob i (deleteMessageEmbeddings i (archiveMessageEmbeddings now i p s)) else deleteMessageEmbeddings i (archiveMessageEmbeddings now i p s)) id
    = if decide (id = i) then (ms_rows s !! id, if b then revoke <$> ms_jobs s !! id else ms_jobs s !! id, []) else slot_of s id); [|by destruct enqueue; apply (Hd true) || apply (Hd false)].
  intros b. destruct b.
  - unfold revokeJob, slot_of at 1, vectors. cbn. rewrite rows_archive, emb_archive, (proj2 (fts_archive _ _ _ _)).
    case_decide as E; [subst; by rewrite lookup_alter_eq, lookup_delete_eq|]. by rewrite lookup_alter_ne, lookup_delete_ne.
  - rewrite slot_discard. case_decide as E; [by rewrite rows_archive, (proj2 (fts_archive _ _ _ _))|apply slot_archive].
Qed.

Lemma slot_maybe_queue (b : bool) now c i t s id :
  slot_of (if b then queueEmbedding now c i t s else s) id
  = if b && bool_decide (id = i) then (ms_rows s !! id, Some (pending_job now c (ms_jobs s !! id)), []) else slot_of s id.
Proof. destruct b; [|done]. rewrite slot_queue. cbn [andb]. by case_decide; case_bool_decide. Qed.

Lemma slot_row i r s id : slot_of (with_rows (<[i := r]> (ms_rows s)) s) id = if decide (id = i) then (Some r, ms_jobs s !! id, vectors s id) else slot_of s id.
Proof. unfold slot_of. cbn. case_decide as E; [subst; by rewrite lookup_insert_eq|by rewrite lookup_insert_ne]. Qed.

Lemma slot_gone now i t s id :
  slot_of (with_jobs (delete i (ms_jobs (deleteMessageEmbeddings i (archiveMessageEmbeddings now i t s)))) (deleteMessageEmbeddings i (archiveMessageEmbeddings now i t s))) id
  = if decide (id = i) then delete_slot (ms_rows s !! id) else slot_of s id.
Proof.
  unfold slot_of at 1, vectors. cbn. rewrite rows_archive, emb_archive, (proj2 (fts_archive _ _ _ _)).
  case_decide as E; [subst; by rewrite !lookup_delete_eq|by rewrite !lookup_delete_ne].
Qed.

Lemma slot_inj (a a' : option storedMessage) (b b' : option embedding_job) (c c' : list embedding) :
  (a, b, c) = (a', b', c') → a = a' ∧ b = b' ∧ c = c'.
Proof. by intros [= -> -> ->]. Qed.

Lemma slot_write_message now m o tok s id :
  slot_of (write_message now m o tok s) id = if decide (id = r_ID m) then write_slot now m o (slot_of s id) else slot_of s id.
Proof.
  unfold write_message. cbv zeta.
  match goal with |- context [with_rows ?x ?s0] => set (s1 := s0) end.
  set (changed := match s_normalized <$> ms_rows s !! r_ID m with Some p => negb (p =? r_NormalizedContent m)%string | None => false end).
  assert (Hs1 : slot_of s1 id = if decide (id = r_ID m)
            then (ms_rows s !! id, if changed && negb (EnqueueEmbedding o) then revoke <$> ms_jobs s !! id else ms_jobs s !! id,
                  if changed then [] else vectors s id) else slot_of s id).
  { unfold s1, changed. destruct (s_normalized <$> ms_rows s !! r_ID m) as [p|]; [apply slot_retire|by case_decide]. }
  clearbody s1.
  set (queued := EnqueueEmbedding o && negb (r_GuildID m =? "@me")%string && _).
  assert (Hqueued : queued = EnqueueEmbedding o && negb (r_GuildID m =? "@me")%string
                             && match ms_rows s !! r_ID m, ms_jobs s !! r_ID m with Some _, Some _ => changed | _, _ => true end).
  { unfold queued, changed. destruct (ms_rows s !! r_ID m) as [st|]; cbn; [|done]. destruct (EnqueueEmbedding o); [|done].
    destruct (ms_jobs s !! r_ID m); cbn; destruct (s_normalized st =? _)%string; done. }
  clearbody queued. set (s2 := with_rows _ s1).
  assert (Hs2 : slot_of s2 id = if decide (id = r_ID m)
            then (Some (written_row now m (ms_rows s !! id)), if changed && negb (EnqueueEmbedding o) then revoke <$> ms_jobs s !! id else ms_jobs s !! id,
                  if changed then [] else vectors s id) else slot_of s id).
  { unfold s2. rewrite slot_row. case_decide as E; [|done]. subst id. apply slot_inj in Hs1 as (_ & -> & ->). done. }
  clearbody s2. clear Hs1 s1.
  assert (Hq : ∀ t x, slot_of x id = slot_of s2 id →
    slot_of (if queued then queueEmbedding now (EmbeddingCatchUp o) (r_ID m) t x else x) id
    = if decide (id = r_ID m) then
        (if queued then (Some (written_row now m (ms_rows s !! id)), Some (pending_job now (EmbeddingCatchUp o) (ms_jobs s !! id)), [])
         else (Some (written_row now m (ms_rows s !! id)), if changed && negb (EnqueueEmbedding o) then revoke <$> ms_jobs s !! id else ms_jobs s !! id,
               if changed then [] else vectors s id))
      else slot_of s id).
  { intros t x Hx. rewrite slot_maybe_queue, Hx, Hs2. rewrite Hs2 in Hx. case_decide as E; [|by rewrite bool_decide_eq_false_2, andb_false_r].
    rewrite bool_decide_eq_true_2, andb_true_r by done. apply slot_inj in Hx as (Hr & Hj & _). rewrite Hr, Hj.
    destruct queued; [|done]. symmetry in Hqueued. apply andb_true_iff in Hqueued as [[-> _]%andb_true_iff _]. by rewrite andb_false_r. }
  unfold write_slot, slot_of at 2. cbn [slot_text fst]. destruct (MessageFTSRowID (r_ID m)) as [rid|] eqn:Er.
  - destruct (negb (r_DeletedAt m =? "")%string).
    + rewrite slot_gone. case_decide as E; [|by rewrite <- Hs2; apply slot_ext].
      unfold delete_slot. cbn. apply slot_inj in Hs2 as (-> & _). done.
    + rewrite Hq by slot_frame. case_decide as E; [|done]. subst id. by rewrite Hqueued.
  - rewrite Hq by done. case_decide as E; [|done]. subst id. by rewrite Hqueued.
Qed.

Lemma slot_refresh now st m o s s' id :
  refreshUnchanged now st m o s = inl s' → ms_rows s !! r_ID m = Some st →
  slot_of s' id = if decide (id = r_ID m) then refresh_slot now m o (slot_of s id) else slot_of s id.
Proof.
  intros H Hst. unfold refreshUnchanged in H.
  assert (Hx : ∀ j v, refresh_slot now m o (Some st, Some j, v) = (Some st, Some j, v)) by done.
  destruct (s_deleted st =? "")%string eqn:Ed; cbn [negb] in H.
  2:{ injection H as <-. case_decide as E; [|done]. subst id. unfold slot_of, refresh_slot. rewrite Hst, Ed. by destruct (ms_jobs s !! r_ID m). }
  destruct (refresh_search m s) as [s1|] eqn:E1; [|done].
  assert (Hs1 : ∀ i, slot_of s1 i = slot_of s i) by (intros i; unfold refresh_search in E1; repeat case_match; simplify_eq; slot_frame).
  clear E1. assert (ms_rows s1 !! r_ID m = Some st ∧ ms_jobs s1 !! r_ID m = ms_jobs s !! r_ID m) as [Hst1 Hj1]
    by (destruct (slot_inj _ _ _ _ _ _ (Hs1 (r_ID m))) as (-> & -> & _); done).
  destruct (negb (EnqueueEmbedding o) || (r_GuildID m =? "@me")%string) eqn:Eq.
  { injection H as <-. rewrite Hs1. case_decide as E; [|done]. subst id. unfold slot_of, refresh_slot. rewrite Hst, Ed. destruct (ms_jobs s !! r_ID m); [done|].
    destruct (EnqueueEmbedding o); [|done]. cbn in Eq. by rewrite Eq. }
  destruct (ms_jobs s1 !! r_ID m) as [j|] eqn:Ej; injection H as <-.
  { rewrite Hs1. case_decide as E; [|done]. subst id. unfold slot_of. by rewrite Hst, <- Hj1. }
  rewrite slot_queue, !Hs1. case_decide as E; [|done]. subst id. unfold slot_of, refresh_slot.
  rewrite Hst1, Ej, Hst, <- Hj1, Ed. apply orb_false_iff in Eq as [->%negb_false_iff ->]. done.
Qed.

(** What the writers may do to the slot of [id], for writes that satisfy [P]. *)
Inductive slot_step (P : MessageRecord → WriteOptions → Prop) (id : string) (x : slot) : slot → Prop :=
  | SlotWrite now m o y : r_ID m = id → P m o → slot_write now m o x y → slot_step P id x y
  | SlotTouch now : slot_step P id x (touch_slot now x)
  | SlotTombstone now : slot_step P id x (delete_slot (set_deleted now <$> x.1.1))
  | SlotDeletedAgain : (∀ r, x.1.1 = Some r → s_deleted r ≠ ""%string) → slot_step P id x (delete_slot x.1.1).
Definition slots_step (P : MessageRecord → WriteOptions → Prop) (s s' : mstate) : Prop := ∀ id, rtc (slot_step P id) (slot_of s id) (slot_of s' id).

Lemma slots_frame P s s' : ms_rows s' = ms_rows s → ms_jobs s' = ms_jobs s → ms_embeddings s' = ms_embeddings s → slots_step P s s'.
Proof. intros E1 E2 E3 id. unfold slot_of, vectors. rewrite E1, E2, E3. apply rtc_refl. Qed.
Lemma slots_trans P s1 s2 s3 : slots_step P s1 s2 → slots_step P s2 s3 → slots_step P s1 s3.
Proof. intros H1 H2 id. eapply rtc_trans; [apply H1|apply H2]. Qed.

(** One slot changes, by one step. *)
Lemma slots_one P s s' i :
  (∀ id, id ≠ i → slot_of s' id = slot_of s id) → slot_step P i (slot_of s i) (slot_of s' i) → slots_step P s s'.
Proof. intros Ho Hi id. destruct (decide (id = i)) as [->|Hne]; [by apply rtc_once|]. rewrite Ho by done. apply rtc_refl. Qed.

Lemma slots_upsert (P : MessageRecord → WriteOptions → Prop) now m o s b s' :
  P (canonical_record m (ms_rows s !! r_ID m)) o → upsertMessage now m o s = inl (b, s') → slots_step P s s'.
Proof.
  intros HP. unfold upsertMessage. fold (canonical_record m (ms_rows s !! r_ID m)). cbv zeta. set (m' := canonical_record _ _) in *.
  assert (Hid : r_ID m' = r_ID m) by done.
  assert (Hw : ∀ tok x, (∀ id, slot_of x id = slot_of s id) → slots_step P s (write_message now m' o tok x)).
  { intros tok x Hx. apply (slots_one _ _ _ (r_ID m')); [intros id Hne|]; rewrite slot_write_message, Hx; [by rewrite decide_False|].
    rewrite decide_True by done. eapply SlotWrite; [done|exact HP|constructor]. }
  destruct (ms_rows s !! r_ID m) as [st|] eqn:Est.
  - destruct (messageContentChanged st m') eqn:Ec; cbn [negb].
    + repeat case_match; try done; intros [= _ <-]; by apply Hw.
    + destruct (refreshUnchanged now st m' o s) as [s1|] eqn:Er; [|done]. intros [= _ <-].
      apply (slots_one _ _ _ (r_ID m')); [intros id Hne|]; rewrite (slot_refresh _ _ _ _ _ _ _ Er) by done; [by rewrite decide_False|].
      rewrite decide_True by done. eapply SlotWrite; [done|exact HP|]. by eapply SlotRefreshed.
  - repeat case_match; try done; intros [= _ <-]; by apply Hw.
Qed.

Lemma slots_mutation (P : MessageRecord → WriteOptions → Prop) now cs m s s' :
  (∀ r, r_ID r = r_ID (mm_Record m) → r_GuildID r = r_GuildID (mm_Record m) → r_DeletedAt r = r_DeletedAt (mm_Record m) → P r (mm_Options m)) →
  write_mutation now cs m s = inl s' → slots_step P s s'.
Proof.
  intros HP (_ & m' & _ & Hp & Hc)%mutation_cases.
  assert (Hev : ∀ x, slots_step P x (appendMutationEvent now m' x))
    by (intros x; unfold appendMutationEvent; repeat case_match; by apply slots_frame).
  assert (H0 : slots_step P s (observed now m s)) by by apply slots_frame.
  destruct Hc as [[_ ->]|(_ & b & s1 & Hu & ->)]; [by eapply slots_trans|].
  eapply slots_trans; [exact H0|]. eapply slots_trans; [eapply slots_upsert; [|exact Hu]|eapply slots_trans; [|apply Hev]].
  { apply HP; cbn; [by apply prepared_id|destruct Hp as (_ & _ & _ & _ & [->|(? & ? & ->)]); done..]. }
  eapply (slots_trans _ _ (snd (write_relations now m' b s1))); [|by apply slots_frame].
  intros id. assert (Hj : ms_jobs (snd (write_relations now m' b s1)) = ms_jobs s1 ∧ ms_embeddings (snd (write_relations now m' b s1)) = ms_embeddings s1)
    by (unfold write_relations; by repeat case_match). destruct Hj as [Hj He].
  unfold slot_of, vectors. rewrite Hj, He. destruct (rows_relations now m' b s1) as [->| ->]; [apply rtc_refl|].
  destruct (decide (id = r_ID (mm_Record m'))) as [->|Hne]; [|rewrite lookup_alter_ne by done; apply rtc_refl].
  rewrite lookup_alter_eq. apply rtc_once, (SlotTouch _ _ (_, _, _)).
Qed.

Lemma slots_delete P now g c id ev v s : slots_step P s (snd (markMessageDeleted now g c id ev v s)).
Proof.
  unfold markMessageDeleted. destruct (if v then _ else None); [by apply slots_frame|]. cbn [snd]. set (preserve := v && _). cbv zeta.
  match goal with |- context [archiveMessageEmbeddings now id ?t ?x] => set (text := t); set (s2 := x) end.
  assert (Hs2 : ms_rows s2 = (if preserve then ms_rows s else alter (set_deleted now) id (ms_rows s)) ∧ ms_jobs s2 = ms_jobs s ∧ ms_embeddings s2 = ms_embeddings s)
    by (unfold s2; by destruct (MessageFTSRowID id), preserve). clearbody s2. destruct Hs2 as (Hr & Hj & He).
  eapply (slots_trans _ _ (with_jobs (delete id (ms_jobs (deleteMessageEmbeddings id (archiveMessageEmbeddings now id text s2)))) (deleteMessageEmbeddings id (archiveMessageEmbeddings now id text s2))));
    [|destruct ev; by apply slots_frame].
  apply (slots_one _ _ _ id); [intros i Hne|]; rewrite slot_gone; [rewrite decide_False by done|rewrite decide_True by done].
  - unfold slot_of, vectors. rewrite Hr, Hj, He. destruct preserve; [done|]. by rewrite lookup_alter_ne.
  - rewrite Hr. destruct preserve eqn:Ep.
    + apply (SlotDeletedAgain _ _ (slot_of s id)). cbn. intros r Hr'. unfold preserve in Ep. rewrite Hr' in Ep. propify. done.
    + rewrite lookup_alter_eq. apply (SlotTombstone _ _ (slot_of s id)).
Qed.

(** Every writer, as steps of slots. *)
Lemma slots_batch (P : MessageRecord → WriteOptions → Prop) now cs ms s :
  (∀ m, m ∈ ms → ∀ r, r_ID r = r_ID (mm_Record m) → r_GuildID r = r_GuildID (mm_Record m) → r_DeletedAt r = r_DeletedAt (mm_Record m) → P r (mm_Options m)) →
  slots_step P s (snd (upsertMessages now cs ms s)).
Proof.
  intros HP. apply (batch_ind (slots_step P s)); [|by apply slots_frame].
  intros m s1 s2 Hm Hw Hv. eapply slots_trans; [exact Hv|]. eapply slots_mutation; [|done]. by apply HP.
Qed.

Lemma slots_single (P : MessageRecord → WriteOptions → Prop) now m o s :
  (∀ r, r_ID r = r_ID m → r_GuildID r = r_GuildID m → r_DeletedAt r = r_DeletedAt m → P r o) →
  slots_step P s (snd (upsertMessageWithOptions now m o s)).
Proof.
  intros HP. unfold upsertMessageWithOptions. cbv zeta. destruct (_ && _); [by apply slots_frame|].
  destruct (upsertMessage _ _ _ _) as [[b s1]|] eqn:E; [|by apply slots_frame]. apply (slots_upsert P) in E; [|by apply HP].
  eapply slots_trans; [|eapply slots_trans; [exact E|by apply slots_frame]]. by apply slots_frame.
Qed.

Lemma slots_message_step s s' : message_step s s' → slots_step (λ _ _, True) s s'.
Proof. intros [now cs ms|now m o|now g c id ev v]; [by apply slots_batch|by apply slots_single|apply slots_delete]. Qed.
End facts.
