(* ===== verification/EmbeddingSafety.v ===== *)
(** * The embedding queue under interleaving

    The writers of MessageWrite, any number of claims and settlements of the
    background worker, restarts and one-shot drains, in any order: which vectors
    the store may hold, whose settlement counts, and that the queue accounts for
    every message. The reads of a worker may come from any earlier state of the
    store, as it reads on a connection of its own.

    A drain is not one step: [discrawl embed] commits several transactions, with
    calls of the provider between them, and trusts the text it has listed. What
    protects it is the sync lock (internal/cli/sync_lock.go): [runEmbed] runs
    under [withLocalStoreLocked], and sync, tail (with its worker) and import
    hold the same lock. [system] models that lock: while a drain holds it, its
    transactions become visible one at a time, others may read, but commit
    nothing, and the process may die, which frees the lock, after any of them. *)
From S2P Require Import Prelude GoTime GoText Errors ChannelScope FailureLedger Rows Receipts Attachments Mentions MessageWrite MessageSafety Runes Embeddings EmbeddingSlots.
Local Open Scope Z_scope.

(** ** The system *)

Record wstate := mkWState {
  ws_store : mstate;
  ws_past : list mstate;                                  (** every earlier state of the store *)
  ws_claims : list work_job;                              (** every claim handed out, oldest first *)
  ws_results : list (EmbeddingDrainOptions * work_job * embeddingWorkResult);
  ws_settled : list work_job                              (** the claims whose settlement took effect *)
}.

Definition seen (w : wstate) : list mstate := ws_store w :: ws_past w.
Definition advance (s : mstate) (w : wstate) : wstate := mkWState s (seen w) (ws_claims w) (ws_results w) (ws_settled w).
Definition with_claims (jobs : list work_job) (w : wstate) : wstate :=
  mkWState (ws_store w) (ws_past w) (ws_claims w ++ jobs) (ws_results w) (ws_settled w).
Definition with_results (o : EmbeddingDrainOptions) (rs : list (work_job * embeddingWorkResult)) (w : wstate) : wstate :=
  mkWState (ws_store w) (ws_past w) (ws_claims w) (ws_results w ++ ((λ p, (o, p.1, p.2)) <$> rs)) (ws_settled w).

(** Whether a settlement of claim [c] at [now] would take effect. *)
Definition effective (c : work_job) (now : Z) (s : mstate) : bool :=
  match ms_jobs s !! w_Key c with Some j => holds c (timeLayout now) j | None => false end.
Definition note_settled (c : work_job) (now : Z) (w : wstate) : wstate :=
  mkWState (ws_store w) (ws_past w) (ws_claims w) (ws_results w) (if effective c now (ws_store w) then c :: ws_settled w else ws_settled w).

Definition fresh_tokens (tokens : nat → string) (claims : list work_job) : Prop :=
  (∀ i, tokens i ≠ ""%string ∧ tokens i ∉ (w_Token <$> claims)) ∧ ∀ i k, tokens i = tokens k → i = k.

Abbreviation identity := (string * string * string)%type.
Definition identity_of (o : EmbeddingDrainOptions) : identity := (do_Provider o, do_Model o, do_InputVersion o).
Definition identity_of_vector (e : embedding) : identity := (e_provider e, e_model e, e_version e).

Section worker.
Context `{EmbedLib} `{ErrorReport}.
(** What the provider of an identity may answer for an input. *)
Variable Answers : identity → string → vector → Prop.

(** The vectors of an answer belong to the inputs, in order. *)
Definition honest (o : EmbeddingDrainOptions) (embed : list string → EmbeddingBatch + err) : Prop :=
  ∀ inputs b, embed inputs = inl b → length (Vectors b) = length inputs → Forall2 (Answers (identity_of o)) inputs (Vectors b).

(** The steps of the processes that write and of the background worker;
    [writes] are the writers' steps, [uses] the configurations in use. *)
Inductive worker_step (writes : mstate → mstate → Prop) (uses : EmbeddingDrainOptions → Prop) (w : wstate) : wstate → Prop :=
  | W_write s : writes (ws_store w) s → worker_step writes uses w (advance s w)
  | W_restart : worker_step writes uses w (advance (recoverClaims (ws_store w)) w)
  | W_claim o req tokens jobs s :
      uses o → Claim o req tokens (ws_store w) = inl (jobs, s) → fresh_tokens tokens (ws_claims w) →
      worker_step writes uses w (with_claims jobs (advance s w))
  | W_process o embed now at_read jobs rs :
      uses o → honest o embed → jobs ⊆ ws_claims w → (∀ i, at_read i ∈ seen w) →
      process o embed now at_read jobs = inl rs → worker_step writes uses w (with_results o (zip jobs rs) w)
  | W_complete o c r now :
      (o, c, r) ∈ ws_results w → worker_step writes uses w (advance (Complete o c r now (ws_store w)).2 (note_settled c now w))
  | W_retry c r : c ∈ ws_claims w → worker_step writes uses w (advance (Retry c r (ws_store w)).2 (note_settled c (rt_Now r) w))
  | W_release c now : c ∈ ws_claims w → worker_step writes uses w (advance (Release c now (ws_store w)).2 (note_settled c now w))
  | W_requeue clock opts l tick n d :
      uses (normalizeEmbeddingDrainOptions opts) →
      RequeueAllEmbeddingJobs clock opts (mkDrain (ws_store w) l tick []) = (n, d) → worker_step writes uses w (advance (d_store d) w).

(** The whole: the drain that holds the sync lock, if one does, by the
    transactions it has still to commit. *)
Record system := mkSystem { sy_worker : wstate; sy_drain : option (list (mstate → mstate)) }.

Inductive system_step (writes : mstate → mstate → Prop) (uses : EmbeddingDrainOptions → Prop) (x : system) : system → Prop :=
  (** what commits to the store holds the lock *)
  | Sys_step w : sy_drain x = None → worker_step writes uses (sy_worker x) w → system_step writes uses x (mkSystem w None)
  (** what commits nothing needs no lock *)
  | Sys_read w : worker_step writes uses (sy_worker x) w → ws_store w = ws_store (sy_worker x) → system_step writes uses x (mkSystem w (sy_drain x))
  | Sys_drain clock provider opts l tick e st d :
      sy_drain x = None → uses (normalizeEmbeddingDrainOptions opts) → (∀ i, honest (normalizeEmbeddingDrainOptions opts) (provider i)) →
      DrainEmbeddingJobs clock provider opts (mkDrain (ws_store (sy_worker x)) l tick []) = (e, st, d) →
      system_step writes uses x (mkSystem (sy_worker x) (Some (d_log d)))
  | Sys_commit f fs : sy_drain x = Some (f :: fs) →
      system_step writes uses x (mkSystem (advance (f (ws_store (sy_worker x))) (sy_worker x)) (Some fs))
  (** the drain has returned, or its process is gone *)
  | Sys_end fs : sy_drain x = Some fs → system_step writes uses x (mkSystem (sy_worker x) None).

(** ** What holds of a vector, a result, a job *)

(** [e] is what its provider gave for [text], cut to some length. *)
Definition embeds (e : embedding) (text : string) : Prop :=
  ∃ n v, Answers (identity_of_vector e) (capRunes text n) v ∧ EncodeFloat32 v = inl (e_vector e) ∧ e_dimensions e = Z.of_nat (length v).

Definition vectors_current (s : mstate) : Prop :=
  ∀ id e, e ∈ vectors s id → ∃ r, ms_rows s !! id = Some r ∧ embeds e (s_normalized r).

Definition answered (o : EmbeddingDrainOptions) (r : embeddingWorkResult) : Prop :=
  wr_valid r = true → wr_empty r = false →
  ∃ v, Answers (identity_of o) (wr_input r) v ∧ EncodeFloat32 v = inl (wr_blob r) ∧ wr_dimensions r = Z.of_nat (length v).

(** The dimensions of a validated answer are those of each of its vectors. *)
Lemma same_dimensions_spec d vs n :
  same_dimensions d vs = inl n → (d ≠ 0 → n = d) ∧ ∀ v, v ∈ vs → v ≠ [] ∧ n = Z.of_nat (length v).
Proof.
  revert d. induction vs as [|v vs IH]; intros d; cbn [same_dimensions]; [intros [= <-]; split; [done|by intros v Hv%elem_of_nil]|].
  destruct (Z.eqb_spec (Z.of_nat (length v)) 0) as [|Hv]; [done|].
  assert (v ≠ []) as Hne by (by intros ->).
  destruct (Z.eqb_spec d 0) as [->|Hd].
  - intros [Hn Hall]%IH. split; [done|]. intros x [->|Hx]%elem_of_cons; [split; [done|by apply Hn]|by apply Hall].
  - destruct (Z.eqb_spec (Z.of_nat (length v)) d) as [Heq|]; [|done]. intros [Hn Hall]%IH. split; [done|].
    intros x [->|Hx]%elem_of_cons; [split; [done|]|by apply Hall]. rewrite Hn by done. by rewrite <- Heq.
Qed.

Lemma validated batch n d :
  validateEmbeddingBatch batch n = inl d → length (Vectors batch) = n ∧ ∀ v, v ∈ Vectors batch → v ≠ [] ∧ d = Z.of_nat (length v).
Proof.
  unfold validateEmbeddingBatch. destruct (Nat.eqb_spec (length (Vectors batch)) n); [|done]. cbn. intros [_ ?]%same_dimensions_spec. done.
Qed.

Lemma encoded v blob : EncodeEmbeddingVector v = inl blob → EncodeFloat32 v = inl blob.
Proof. unfold EncodeEmbeddingVector. by destruct (EncodeFloat32 v); intros [= ->]. Qed.

(** ** Results of a batch *)

(** A result, against what was read for it. *)
Definition result_for (o : EmbeddingDrainOptions) (read : embeddingWorkResult * option string) (r : embeddingWorkResult) : Prop :=
  wr_input r = wr_input read.1 ∧ wr_valid r = wr_valid read.1 ∧ wr_empty r = wr_empty read.1
  ∧ ∀ x, read.2 = Some x → ∃ v, Answers (identity_of o) x v ∧ EncodeFloat32 v = inl (wr_blob r) ∧ wr_dimensions r = Z.of_nat (length v).

Lemma fill_results_for o d reads vs rs :
  Forall2 (Answers (identity_of o)) (omap snd reads) vs → (∀ v, v ∈ vs → d = Z.of_nat (length v)) →
  fill_results d reads vs = inl rs → Forall2 (result_for o) reads rs.
Proof.
  revert vs rs. induction reads as [|[r [x|]] reads IH]; intros vs rs HA Hd; cbn [fill_results].
  - intros [= <-]. constructor.
  - cbn in HA. inversion HA as [|? v ? vs' Hv Hvs]; subst. destruct (EncodeEmbeddingVector v) as [blob|] eqn:Eb; [|done].
    destruct (fill_results d reads vs') as [rs'|] eqn:Er; [|done]. intros [= <-]. constructor.
    + split_and!; [done..|]. cbn. intros y [= <-]. exists v. split_and!; [done|by apply encoded|apply Hd; by left].
    + eapply IH; [exact Hvs| |exact Er]. intros u Hu. apply Hd. by right.
  - cbn in HA. destruct (fill_results d reads vs) as [rs'|] eqn:Er; [|done]. intros [= <-]. constructor; [|by eapply IH].
    by split_and!.
Qed.

Lemma process_results o embed now at_read jobs rs :
  honest o embed → process o embed now at_read jobs = inl rs → Forall2 (result_for o) (imap (λ i w, read_input o (at_read i) w) jobs) rs.
Proof.
  intros Hh. unfold process. set (reads := imap _ jobs). clearbody reads. destruct (omap snd reads) as [|x xs] eqn:Ei.
  - intros [= <-]. clear -Ei. induction reads as [|[r [y|]] reads IH]; cbn in *; [constructor|done|]. constructor; [by split_and!|by apply IH].
  - rewrite <- Ei. destruct (embed (omap snd reads)) as [b|] eqn:Eb; [|done]. destruct (validateEmbeddingBatch b _) as [d|] eqn:Ed; [|done].
    apply validated in Ed as [Hl Hd]. apply fill_results_for; [by apply (Hh _ _ Eb)|]. intros v Hv. by apply Hd.
Qed.

Lemma read_input_spec o s w :
  let '(r, x) := read_input o s w in
  match x with Some i => i = wr_input r ∧ wr_valid r = true ∧ wr_empty r = false | None => wr_valid r = true → wr_empty r = true end
  ∧ (wr_valid r = true → ∃ text j, live_text s (w_Key w) = Some text ∧ ms_jobs s !! w_Key w = Some j ∧ j_revision j = w_Revision w ∧ j_lease_token j = w_Token w
       ∧ wr_input r = capRunes text (do_MaxInputChars o) ∧ wr_empty r = (TrimSpace text =? "")%string).
Proof.
  unfold read_input. destruct (live_text s (w_Key w)) as [text|]; [|by split]. destruct (ms_jobs s !! w_Key w) as [j|]; [|by split].
  destruct ((j_revision j =? w_Revision w) && (j_lease_token j =? w_Token w)%string) eqn:Eh; [|by split]. propify.
  destruct (TrimSpace text =? "")%string eqn:Et; split; try done; intros _; exists text, j; by rewrite Et.
Qed.

(** ** The drain, as moves on the tables *)

(** What the drain may do, one statement or transaction at a time. *)
Inductive drain_move (o : EmbeddingDrainOptions) (s : mstate) : mstate → Prop :=
  | DM_reset id now b : drain_move o s (on_job (reset_job o now b) id s)
  | DM_lock id now : drain_move o s (on_job (locked_job now) id s)
  | DM_limited id now e : drain_move o s (on_job (rate_limited_job o now e) id s)
  | DM_failed id now state n e : 0 <= n → state = "pending"%string ∨ state = "failed"%string → drain_move o s (on_job (marked_job o now state n e) id s)
  | DM_blank id now text : live_text s id = Some text → TrimSpace text = ""%string →
      drain_move o s (on_job (empty_done_job o now) id (deleteMessageEmbeddings id s))
  | DM_store id now e text : live_text s id = Some text → embeds e text → identity_of_vector e = identity_of o →
      drain_move o s (on_job (done_job o now) id (upsertEmbedding id e s)).

Lemma move_rows o s s' : rtc (drain_move o) s s' → ms_rows s' = ms_rows s.
Proof. induction 1 as [|s1 s2 s3 Hm _ ->]; [done|]. by destruct Hm. Qed.

Lemma live_text_rows s s' id : ms_rows s' = ms_rows s → live_text s' id = live_text s id.
Proof. unfold live_text. by intros ->. Qed.

(** A job as it was listed: its text is the message's, its count is no debt. *)
Definition listed (s : mstate) (job : embeddingJob) : Prop :=
  live_text s (ej_MessageID job) = Some (ej_NormalizedContent job) ∧ 0 <= ej_Attempts job.

Lemma listed_rows s s' jobs : ms_rows s' = ms_rows s → Forall (listed s) jobs → Forall (listed s') jobs.
Proof. intros E Hl. eapply Forall_impl; [exact Hl|]. intros job [Ht Ha]. split; [by rewrite (live_text_rows _ _ _ E)|done]. Qed.

Lemma listed_moves o s s' jobs : rtc (drain_move o) s s' → Forall (listed s) jobs → Forall (listed s') jobs.
Proof. intros Hm. by apply listed_rows, (move_rows o). Qed.

Section drained.
Variables (clock : nat → Z) (provider : nat → list string → EmbeddingBatch + err) (o : EmbeddingDrainOptions).
Hypothesis Hhonest : ∀ i, honest o (provider i).

(** A list of transactions, each made of moves in the state it is committed in. *)
Fixpoint planned (s : mstate) (fs : list (mstate → mstate)) : Prop :=
  match fs with
  | [] => True
  | f :: fs => rtc (drain_move o) s (f s) ∧ planned (f s) fs
  end.
Definition commit_all (fs : list (mstate → mstate)) (s : mstate) : mstate := fold_left (λ s f, f s) fs s.

Lemma planned_app s fs gs : planned s (fs ++ gs) ↔ planned s fs ∧ planned (commit_all fs s) gs.
Proof. revert s. induction fs as [|f fs IH]; intros s; cbn; [tauto|]. rewrite IH. unfold commit_all. cbn. tauto. Qed.

Lemma planned_moves s fs : planned s fs → rtc (drain_move o) s (commit_all fs s).
Proof. revert s. induction fs as [|f fs IH]; intros s; [intros _; apply rtc_refl|]. intros [Hf Hfs]. eapply rtc_trans; [exact Hf|by apply IH]. Qed.

(** A part of a drain: the transactions it commits. *)
Definition runs (d d' : drain) : Prop :=
  ∃ fs, d_log d' = d_log d ++ fs ∧ planned (d_store d) fs ∧ d_store d' = commit_all fs (d_store d).

#[global] Instance runs_preorder : PreOrder runs.
Proof.
  split; [intros d; exists []; by rewrite app_nil_r|]. intros d1 d2 d3 (fs & Hl1 & Hp1 & Hs1) (gs & Hl2 & Hp2 & Hs2). exists (fs ++ gs).
  rewrite Hl2, Hl1, <- app_assoc, planned_app, Hs2. split_and!; [done..|by rewrite <- Hs1|]. rewrite Hs1. symmetry. apply fold_left_app.
Qed.

Lemma runs_moves d d' : runs d d' → rtc (drain_move o) (d_store d) (d_store d').
Proof. intros (fs & _ & Hp & ->). by apply planned_moves. Qed.
Lemma runs_listed d d' jobs : runs d d' → Forall (listed (d_store d)) jobs → Forall (listed (d_store d')) jobs.
Proof. intros Hr%runs_moves. by apply (listed_moves o). Qed.

(** What commits nothing, and one transaction. *)
Lemma runs_quiet d d' : d_store d' = d_store d → d_log d' = d_log d → runs d d'.
Proof. intros Hs Hl. exists []. by rewrite app_nil_r. Qed.
Lemma runs_store f d : rtc (drain_move o) (d_store d) (f (d_store d)) → runs d (in_store f d).
Proof. intros Hf. by exists [f]. Qed.
Lemma runs_store_at f d : (∀ now, rtc (drain_move o) (d_store d) (f now (d_store d))) → runs d (in_store_at clock f d).
Proof. intros Hf. by exists [f (timeLayout (clock (d_tick d)))]. Qed.

Lemma in_ledger_store f d : d_store (in_ledger clock f d).2 = d_store d.
Proof. unfold in_ledger. cbn. by destruct (f _ _). Qed.
Lemma in_ledger_runs f d : runs d (in_ledger clock f d).2.
Proof. apply runs_quiet; unfold in_ledger; cbn; by destruct (f _ _). Qed.

Lemma record_runs jobs e d : runs d (recordEmbeddingFailures clock o jobs e d).2.
Proof.
  revert d. induction jobs as [|job jobs IH]; intros d; [done|]. cbn [recordEmbeddingFailures].
  pose proof (in_ledger_runs (λ now, RecordFailure now (embeddingFailureRef o (ej_MessageID job)) (Some e)) d) as Hs.
  destruct (in_ledger _ _ _) as [[er|] d1]; cbn [snd] in *; [done|]. by transitivity d1.
Qed.

(** A fold of one move per job. *)
Lemma fold_moves (f : mstate → embeddingJob → mstate) jobs s :
  (∀ s job, job ∈ jobs → Forall (listed s) jobs → drain_move o s (f s job)) → Forall (listed s) jobs → rtc (drain_move o) s (fold_left f jobs s).
Proof.
  intros Hf. assert (∀ l s, l ⊆ jobs → Forall (listed s) jobs → rtc (drain_move o) s (fold_left f l s)) as Hgen; [|by apply Hgen].
  clear s. induction l as [|job l IH]; intros s Hl Hs; [apply rtc_refl|]. cbn. assert (drain_move o s (f s job)) as Hm by (apply Hf; [apply Hl; left|done]).
  eapply rtc_l; [exact Hm|]. apply IH; [intros x Hx; apply Hl; by right|]. eapply listed_moves; [by apply rtc_once|done].
Qed.

Lemma lock_moves jobs at_ stale s claimed s' :
  lockEmbeddingJobs jobs at_ stale s = (claimed, s') → rtc (drain_move o) s s' ∧ claimed ⊆ jobs ∧ (length claimed <= length jobs)%nat.
Proof.
  revert s claimed s'. induction jobs as [|job jobs IH]; intros s claimed s'; cbn [lockEmbeddingJobs length].
  - intros [= <- <-]. split_and!; [apply rtc_refl|done|done].
  - destruct (ms_jobs s !! ej_MessageID job) as [j|]; [destruct (_ && _)|].
    + destruct (lockEmbeddingJobs jobs at_ stale _) as [c1 s1] eqn:E. intros [= <- <-]. apply IH in E as (Hm & Hc & Hl). split_and!.
      * eapply rtc_l; [constructor 2|exact Hm].
      * intros x [->|Hx]%elem_of_cons; [left|right; by apply Hc].
      * cbn. lia.
    + intros (? & Hc & ?)%IH. split_and!; [done| |lia]. intros x Hx. right. by apply Hc.
    + intros (? & Hc & ?)%IH. split_and!; [done| |lia]. intros x Hx. right. by apply Hc.
Qed.

Lemma failed_moves now jobs e s : Forall (listed s) jobs → rtc (drain_move o) s (markEmbeddingJobsFailed o now jobs e s).
Proof.
  apply fold_moves. intros s1 job Hj Hs. rewrite Forall_forall in Hs. destruct (Hs _ Hj) as [_ Ha].
  unfold failed_job. apply DM_failed; [lia|]. destruct (_ <=? _); auto.
Qed.

Lemma fail_batch_runs jobs e st d er st' d' :
  Forall (listed (d_store d)) jobs → fail_batch clock o jobs e st d = (er, st', d') → runs d d'.
Proof.
  intros Hl. unfold fail_batch. cbv zeta. set (d1 := in_store_at clock _ d).
  assert (runs d d1) as Hm by (apply runs_store_at; intros now; by apply failed_moves).
  pose proof (record_runs jobs e d1) as Hr. destruct (recordEmbeddingFailures clock o jobs e d1) as [[e1|] d2]; intros [= _ _ <-]; by transitivity d1.
Qed.

Lemma store_vectors_moves now n jobs vs s s' :
  Forall (listed s) jobs → Forall2 (λ job v, Answers (identity_of o) (capRunes (ej_NormalizedContent job) (do_MaxInputChars o)) v ∧ n = Z.of_nat (length v)) jobs vs →
  store_vectors o now n jobs vs s = inl s' → rtc (drain_move o) s s'.
Proof.
  intros Hl Ha. revert s s' Hl. induction Ha as [|job v jobs vs [Hv Hn] _ IH]; intros s s' Hl; cbn [store_vectors]; [intros [= <-]; apply rtc_refl|].
  destruct (EncodeEmbeddingVector v) as [blob|] eqn:Eb; [|done]. intros Hs. apply Forall_cons in Hl as [[Ht Hat] Hl].
  set (s1 := on_job _ _ _) in Hs. assert (drain_move o s s1) as Hm.
  { eapply DM_store; [exact Ht| |done]. exists (do_MaxInputChars o), v. split_and!; [done|by apply encoded|done]. }
  eapply rtc_l; [exact Hm|]. apply IH; [|exact Hs]. eapply listed_moves; [by apply rtc_once|done].
Qed.

Lemma subset_listed s jobs jobs' : jobs' ⊆ jobs → Forall (listed s) jobs → Forall (listed s) jobs'.
Proof. rewrite !Forall_forall. intros Hs Hall x Hx. by apply Hall, Hs. Qed.

Lemma answers_for jobs answer n i inputs :
  provider i inputs = inl answer → inputs = ((λ j, capRunes (ej_NormalizedContent j) (do_MaxInputChars o)) <$> jobs) →
  validateEmbeddingBatch answer (length jobs) = inl n →
  Forall2 (λ job v, Answers (identity_of o) (capRunes (ej_NormalizedContent job) (do_MaxInputChars o)) v ∧ n = Z.of_nat (length v)) jobs (Vectors answer).
Proof.
  intros Ep -> [Hlen Hn]%validated. pose proof (Hhonest _ _ _ Ep) as HA. rewrite length_fmap in HA. specialize (HA Hlen).
  apply Forall2_same_length_lookup. split; [done|]. intros k job v Hj Hv. split; [|apply Hn; by eapply list_elem_of_lookup_2].
  eapply (Forall2_lookup_lr _ _ _ k _ v HA); [by rewrite list_lookup_fmap, Hj|done].
Qed.

Lemma process_runs batch st d er limited st' d' :
  Forall (listed (d_store d)) batch → processEmbeddingBatch clock provider o batch st d = (er, limited, st', d') → runs d d'.
Proof.
  intros Hl. unfold processEmbeddingBatch, read_clock. cbv zeta. cbn [d_store].
  set (lock := lockEmbeddingJobs batch _ _). set (d1 := in_store _ _).
  assert (runs d d1 ∧ Forall (listed (d_store d1)) (lock (d_store d)).1) as [Hm1 Hl1].
  { destruct (lock (d_store d)) as [jobs s] eqn:Elock. destruct (lock_moves _ _ _ _ _ _ Elock) as (Hm & Hsub & _).
    assert (runs d d1) as Hr.
    { exists [λ s, (lock s).2]. split_and!; [done| |done]. cbn. by rewrite Elock. }
    split; [done|]. eapply runs_listed; [exact Hr|]. by eapply subset_listed. }
  clearbody d1. destruct (lock (d_store d)).1 as [|job0 jobs0]; [by intros [= _ _ _ <-]|]. set (jobs := job0 :: jobs0) in *. clearbody jobs. clear lock Hl job0 jobs0.
  unfold Embed. set (inputs := _ <$> jobs). set (d2 := mkDrain (d_store d1) (d_failures d1) (S (d_tick d1)) (d_log d1)).
  assert (runs d d2) as Hm2 by (transitivity d1; [done|by apply runs_quiet]). change (d_store d1) with (d_store d2) in Hl1.
  destruct (provider (d_tick d1) inputs) as [answer|e] eqn:Ep; clearbody d2.
  - destruct (validateEmbeddingBatch answer (length jobs)) as [n|e] eqn:Ev.
    + pose proof (answers_for jobs answer n _ _ Ep eq_refl Ev) as HA. set (d3 := mkDrain (d_store d2) (d_failures d2) (S (d_tick d2)) (d_log d2)).
      assert (runs d d3) as Hm3 by (transitivity d2; [done|by apply runs_quiet]). change (d_store d3) with (d_store d2).
      set (store := store_vectors o _ n jobs (Vectors answer)). destruct (store (d_store d2)) as [s|e] eqn:Es.
      * set (d4 := in_store _ d3). assert (runs d d4) as Hm4.
        { transitivity d3; [done|]. apply runs_store. change (d_store d3) with (d_store d2). rewrite Es. by eapply store_vectors_moves. }
        match goal with |- context [in_ledger clock ?f d4] => pose proof (in_ledger_runs f d4) as Hr; destruct (in_ledger clock f d4) as [[e|] d5] end;
          intros [= _ _ _ <-]; by transitivity d4.
      * pose proof (record_runs jobs e d3) as Hr. destruct (recordEmbeddingFailures clock o jobs e d3) as [e1 d4]. intros [= _ _ _ <-]. by transitivity d3.
    + destruct (fail_batch clock o jobs e st d2) as [[er' st1] d3] eqn:Ef. intros [= _ _ _ <-]. transitivity d2; [done|by eapply fail_batch_runs].
  - destruct (IsRateLimitError e).
    + set (d3 := in_store_at clock _ d2). assert (runs d2 d3) as Hm3 by (apply runs_store_at; intros now; apply fold_moves; [intros; apply DM_limited|done]).
      pose proof (record_runs jobs e d3) as Hr. destruct (recordEmbeddingFailures clock o jobs e d3) as [[e1|] d4]; intros [= _ _ _ <-]; transitivity d2; (done || by transitivity d3).
    + destruct (fail_batch clock o jobs e st d2) as [[er' st1] d3] eqn:Ef. intros [= _ _ _ <-]. transitivity d2; [done|by eapply fail_batch_runs].
Qed.
Lemma flush_runs batch st d er st' d' : Forall (listed (d_store d)) batch → flush clock provider o batch st d = (er, st', d') → runs d d'.
Proof.
  intros Hl. unfold flush. destruct batch as [|job0 rest]; [by intros [= _ _ <-]|].
  destruct (processEmbeddingBatch clock provider o (job0 :: rest) st d) as [[[e limited] st1] d1] eqn:Ep. apply process_runs in Ep; [|done].
  destruct e; by intros [= _ _ <-].
Qed.

Lemma retarget_runs job d job' d' : listed (d_store d) job → retarget clock o job d = (job', d') → runs d d' ∧ listed (d_store d') job'.
Proof.
  intros [Ht Ha]. unfold retarget. destruct (sameEmbeddingIdentity job o); [by intros [= <- <-]|].
  intros [= <- <-]. split; [apply runs_store_at; intros now; apply rtc_once; constructor|]. split; [exact Ht|]. cbn. destruct (negb _); lia.
Qed.

Lemma drain_jobs_runs jobs batch st d er batch' st' d' :
  Forall (listed (d_store d)) jobs → Forall (listed (d_store d)) batch →
  drain_jobs clock provider o jobs batch st d = (er, batch', st', d') → runs d d' ∧ Forall (listed (d_store d')) batch'.
Proof.
  revert batch st d. induction jobs as [|job jobs IH]; intros batch st d Hj Hb; cbn [drain_jobs]; [by intros [= _ <- _ <-]|].
  apply Forall_cons in Hj as [Hjob Hj]. destruct (retarget clock o job d) as [job1 d1] eqn:Er. apply retarget_runs in Er as [Hm1 Hjob1]; [|done].
  apply (runs_listed _ _ _ Hm1) in Hj, Hb.
  destruct (TrimSpace (ej_NormalizedContent job1) =? "")%string eqn:Et.
  - set (d2 := in_store_at clock _ d1). assert (Hm2 : runs d1 d2).
    { apply runs_store_at. intros now. apply rtc_once. destruct Hjob1 as [Ht _]. eapply DM_blank; [exact Ht|]. by propify. }
    clearbody d2. match goal with |- context [in_ledger clock ?f d2] => pose proof (in_ledger_runs f d2) as Hs; destruct (in_ledger clock f d2) as [[e|] d3] end; cbn [snd] in Hs;
      assert (runs d1 d3) as Hm3 by (by transitivity d2); apply (runs_listed _ _ _ Hm3) in Hj, Hb.
    + intros [= _ <- _ <-]. split; [by transitivity d1|done].
    + intros [Hm4 Hb4]%IH; [|done..]. split; [|done]. transitivity d1; [done|by transitivity d3].
  - assert (Hb' : Forall (listed (d_store d1)) (batch ++ [job1])) by (apply Forall_app; split; [done|by constructor]).
    destruct (do_BatchSize o <=? _).
    + destruct (flush clock provider o (batch ++ [job1]) st d1) as [[e st1] d2] eqn:Ef. apply flush_runs in Ef; [|done].
      apply (runs_listed _ _ _ Ef) in Hj. assert (runs d d2) as Hm2 by (by transitivity d1). destruct e; [by intros [= _ <- _ <-]|].
      destruct (st_RateLimited st1); [by intros [= _ <- _ <-]|].
      intros [Hm3 Hb3]%IH; [|done..]. split; [by transitivity d2|done].
    + intros [Hm3 Hb3]%IH; [|done..]. split; [by transitivity d1|done].
Qed.
End drained.

Lemma elem_of_limit {A} n (l : list A) x : x ∈ sql_limit n l → x ∈ l.
Proof. unfold sql_limit. destruct (n <? 0); [done|]. intros Hx. rewrite <- (take_drop (Z.to_nat n) l). apply elem_of_app. by left. Qed.

Lemma pending_listed limit stale s :
  (∀ id j, ms_jobs s !! id = Some j → 0 <= j_attempts j) → Forall (listed s) (pendingEmbeddingJobs limit stale s).
Proof.
  intros Hwf. unfold pendingEmbeddingJobs. rewrite Forall_fmap, Forall_forall. intros [id j] Hin%elem_of_limit.
  assert ((id, j) ∈ List.filter (λ row, backlog_row s row && unlocked stale row.2) (map_to_list (ms_jobs s))) as Hf.
  { by rewrite (merge_sort_Permutation drain_le) in Hin. }
  apply list_elem_of_In, filter_In in Hf as [Hf Hb]. apply list_elem_of_In, elem_of_map_to_list in Hf. unfold backlog_row in Hb. cbn in Hb.
  unfold listed, drain_job. cbn. destruct (live_text s id); [|by rewrite andb_false_r in Hb]. split; [done|]. by eapply Hwf.
Qed.

Lemma drain_runs clock provider opts d e st d' :
  (∀ i, honest (normalizeEmbeddingDrainOptions opts) (provider i)) → (∀ id j, ms_jobs (d_store d) !! id = Some j → 0 <= j_attempts j) →
  DrainEmbeddingJobs clock provider opts d = (e, st, d') → runs (normalizeEmbeddingDrainOptions opts) d d'.
Proof.
  intros Hh Hwf. unfold DrainEmbeddingJobs, read_clock. cbv zeta. set (o := normalizeEmbeddingDrainOptions opts) in *. cbn [d_store].
  pose proof (pending_listed (do_Limit o) (timeLayout (clock (d_tick d) - embeddingLockTimeout)) (d_store d) Hwf) as Hl.
  set (jobs := pendingEmbeddingJobs _ _ _) in *. clearbody jobs. set (d0 := mkDrain _ _ _ _).
  assert (runs o d d0) as Hm0 by (by apply runs_quiet). change (d_store d) with (d_store d0) in Hl. clearbody d0.
  destruct (drain_jobs clock provider o jobs [] _ _) as [[[er batch] st1] d1] eqn:Ed. apply (drain_jobs_runs clock provider o Hh) in Ed as [Hm Hb]; [|done|constructor].
  assert (runs o d d1) as Hm1 by (by transitivity d0).
  destruct er; [by intros [= _ _ <-]|]. destruct (st_RateLimited st1); [by intros [= _ _ <-]|].
  destruct (flush clock provider o batch st1 d1) as [[er st2] d2] eqn:Ef. apply (flush_runs clock provider o Hh) in Ef; [|done..].
  destruct er; intros [= _ _ <-]; by transitivity d1.
Qed.

(** ** The tables under every step *)

Definition lease_of (s : mstate) (id : string) : string :=
  match ms_jobs s !! id with Some j => j_lease_token j | None => "" end.
(** A step that gives no lease. *)
Definition no_lease (s s' : mstate) : Prop := ∀ id, lease_of s' id = lease_of s id ∨ lease_of s' id = ""%string.

Lemma no_lease_refl s : no_lease s s.
Proof. by left. Qed.
Lemma no_lease_trans s1 s2 s3 : no_lease s1 s2 → no_lease s2 s3 → no_lease s1 s3.
Proof. intros H12 H23 id. destruct (H23 id) as [->|]; [apply H12|by right]. Qed.

Definition job_wf (j : embedding_job) : Prop :=
  (j_state j = "pending" ∨ j_state j = "done" ∨ j_state j = "failed")%string ∧ 0 <= j_attempts j ∧ 1 <= j_revision j
  ∧ (j_priority j = 0 ∨ j_priority j = 1) ∧ (j_lease_token j = ""%string ↔ j_lease_until j = ""%string).

(** The well-formed tables: jobs of the five kinds, one vector per identity,
    and every vector of its message's present text. *)
Record store_ok (s : mstate) : Prop := {
  so_jobs id j : ms_jobs s !! id = Some j → job_wf j;
  so_unique id : NoDup (identity_of_vector <$> vectors s id);
  so_current : vectors_current s }.

Definition slot_ok (x : slot) : Prop :=
  (∀ j, x.1.2 = Some j → job_wf j) ∧ NoDup (identity_of_vector <$> x.2) ∧ ∀ e, e ∈ x.2 → ∃ r, x.1.1 = Some r ∧ embeds e (s_normalized r).

Lemma store_slots s : store_ok s ↔ ∀ id, slot_ok (slot_of s id).
Proof.
  split; [intros [H1 H2 H3] id|intros Hs; split; [intros id|intros id|intros id e He]].
  - split_and!; [intros j; apply H1|apply H2|intros e; apply H3].
  - apply (Hs id).
  - apply (Hs id).
  - destruct (Hs id) as (_ & _ & Hc). by apply Hc.
Qed.

Lemma pending_job_wf now c j : (∀ j', j = Some j' → job_wf j') → job_wf (pending_job now c j).
Proof.
  intros Hj. unfold pending_job. destruct j as [j|]; [destruct (Hj j eq_refl) as (_ & _ & ? & _)|]; unfold job_wf; cbn;
    (split_and!; [by left|lia|lia|destruct c; auto|done]).
Qed.

Lemma pending_lease now c j : j_lease_token (pending_job now c j) = ""%string.
Proof. by destruct j. Qed.

Lemma revoke_wf j : job_wf j → job_wf (revoke j).
Proof. intros (? & ? & ? & ? & _). unfold job_wf. cbn. split_and!; [done..|lia|done|done]. Qed.

Section slots.
Context {tp : TimeParse} {rp : RawPayloads}.

Lemma slot_ok_none row job : (∀ j, job = Some j → job_wf j) → slot_ok (row, job, []).
Proof. intros Hj. split_and!; [done|apply NoDup_nil_2|]. intros e He. by apply elem_of_nil in He. Qed.

(** A slot whose row changes without its text, and its job to a good one. *)
Lemma slot_ok_same row row' job job' vs :
  slot_ok (row, job, vs) → (∀ j, job' = Some j → job_wf j) → (∀ r, row = Some r → s_normalized <$> row' = Some (s_normalized r)) → slot_ok (row', job', vs).
Proof.
  intros (Hj & Hn & Hc) Hj' Hr. split_and!; [done..|]. cbn in *. intros e He. destruct (Hc e He) as (r & Hr1 & Hem). specialize (Hr r Hr1).
  destruct row' as [r'|]; [|done]. cbn in Hr. injection Hr as Hr. exists r'. split; [done|]. by rewrite Hr.
Qed.

Lemma written_text now m stored : s_normalized (written_row now m stored) = r_NormalizedContent m.
Proof. unfold written_row. by destruct (text_parts_of m stored). Qed.

Lemma write_slot_ok now m o x : slot_ok x → slot_ok (write_slot now m o x).
Proof.
  intros Hx. destruct x as [[row job] vs]. unfold write_slot. set (changed := match slot_text _ with Some p => _ | None => _ end).
  destruct Hx as (Hj & Hn & Hc). cbn in Hj, Hn, Hc.
  assert (Hpend : slot_ok (Some (written_row now m row), Some (pending_job now (EmbeddingCatchUp o) job), [])).
  { apply slot_ok_none. intros j [= <-]. by apply pending_job_wf. }
  assert (Hkept : slot_ok (Some (written_row now m row), if changed && negb (EnqueueEmbedding o) then revoke <$> job else job, if changed then [] else vs)).
  { assert (Hj' : ∀ j, (if changed && negb (EnqueueEmbedding o) then revoke <$> job else job) = Some j → job_wf j).
    { intros j. destruct (changed && _); [|apply Hj]. destruct job as [j0|]; [|done]. cbn. intros [= <-]. by apply revoke_wf, Hj. }
    destruct changed eqn:Ech; [by apply slot_ok_none|]. eapply (slot_ok_same row _ job); [by split_and!|done|].
    intros r ->. unfold changed in Ech. cbn in Ech. propify. cbn. by rewrite written_text, Ech. }
  destruct (EnqueueEmbedding o && negb (r_GuildID m =? "@me")%string && _), (MessageFTSRowID (r_ID m)), (negb (r_DeletedAt m =? "")%string);
    first [done|by apply slot_ok_none].
Qed.

Lemma slot_step_ok P id x y : slot_step P id x y → slot_ok x → slot_ok y.
Proof.
  intros [now m o z _ _ Hw|now|now|Hd] Hx.
  - destruct Hw as [|st Hst _|]; [done| |by apply write_slot_ok]. destruct x as [[row job] vs]. unfold refresh_slot. cbn in Hst. subst row.
    destruct job as [j|]; [done|]. destruct (_ && _); [|done]. apply slot_ok_none. intros j [= <-]. by apply pending_job_wf.
  - destruct x as [[row job] vs]. cbn. eapply slot_ok_same; [exact Hx|apply Hx|]. intros r ->. done.
  - by apply slot_ok_none.
  - by apply slot_ok_none.
Qed.

Lemma slot_steps_ok P s s' : slots_step P s s' → store_ok s → store_ok s'.
Proof.
  rewrite !store_slots. intros Hs Hok id. specialize (Hs id). specialize (Hok id). induction Hs as [|x y z Hxy _ IH]; [done|]. apply IH. by eapply slot_step_ok.
Qed.

Lemma slot_step_lease P id x y :
  slot_step P id x y → slot_job y = slot_job x ∨ match slot_job y with Some j => j_lease_token j = ""%string | None => True end.
Proof.
  intros [now m o z _ _ Hw|now|now|Hd]; [|by left|by right|by right].
  destruct x as [[row job] vs]. destruct Hw as [|st Hst _|]; [by left| |].
  - cbn in Hst. subst row. unfold refresh_slot. destruct job as [j|]; [by left|]. destruct (_ && _); [|by left]. right. apply pending_lease.
  - unfold write_slot. set (changed := match slot_text _ with Some p => _ | None => _ end). clearbody changed.
    assert (∀ v, slot_job (Some (written_row now m row), if changed && negb (EnqueueEmbedding o) then revoke <$> job else job, v) = job
      ∨ match slot_job (Some (written_row now m row), if changed && negb (EnqueueEmbedding o) then revoke <$> job else job, v) with Some j => j_lease_token j = ""%string | None => True end) as Hk
      by (intros v; destruct (changed && _); [right; by destruct job|by left]).
    destruct (EnqueueEmbedding o && negb (r_GuildID m =? "@me")%string && _), (MessageFTSRowID (r_ID m)), (negb (r_DeletedAt m =? "")%string);
      first [apply Hk|right; apply pending_lease|by right].
Qed.

Lemma slots_no_lease P s s' : slots_step P s s' → no_lease s s'.
Proof.
  intros Hs id. specialize (Hs id). change (lease_of s' id) with (match slot_job (slot_of s' id) with Some j => j_lease_token j | None => ""%string end).
  change (lease_of s id) with (match slot_job (slot_of s id) with Some j => j_lease_token j | None => ""%string end).
  induction Hs as [|x y z Hxy _ IH]; [by left|]. destruct IH as [->|]; [|by right]. apply slot_step_lease in Hxy as [->|Ht]; [by left|]. right. by destruct (slot_job y).
Qed.
End slots.

(** A step on the jobs alone. *)
Lemma store_ok_jobs s s' :
  ms_rows s' = ms_rows s → ms_embeddings s' = ms_embeddings s → (∀ id j, ms_jobs s' !! id = Some j → job_wf j) → store_ok s → store_ok s'.
Proof.
  intros Er Ee Hj [_ Hu Hc]. split; [done|intros id; unfold vectors; rewrite Ee; apply Hu|].
  intros id e. unfold vectors. rewrite Ee, Er. apply Hc.
Qed.

Lemma on_job_ok f id s : (∀ j, ms_jobs s !! id = Some j → job_wf j → job_wf (f j)) → store_ok s → store_ok (on_job f id s).
Proof.
  intros Hf Hok. apply (store_ok_jobs s); [done..| |done]. intros i j. cbn. destruct (decide (i = id)) as [->|Hne].
  - rewrite lookup_alter_eq. destruct (ms_jobs s !! id) as [j0|] eqn:E; [|done]. intros [= <-]. apply Hf; [done|]. by apply (so_jobs s Hok id).
  - rewrite lookup_alter_ne by done. apply (so_jobs s Hok).
Qed.

Lemma on_job_lease f id s :
  (∀ j, ms_jobs s !! id = Some j → j_lease_token (f j) = j_lease_token j ∨ j_lease_token (f j) = ""%string) → no_lease s (on_job f id s).
Proof.
  intros Hf i. unfold lease_of. cbn. destruct (decide (i = id)) as [->|Hne]; [|rewrite lookup_alter_ne by done; by left].
  rewrite lookup_alter_eq. destruct (ms_jobs s !! id) as [j|]; [by apply Hf|by left].
Qed.

Lemma fmap_jobs_ok f s : (∀ j, job_wf j → job_wf (f j)) → store_ok s → store_ok (with_jobs (f <$> ms_jobs s) s).
Proof.
  intros Hf Hok. apply (store_ok_jobs s); [done..| |done]. intros i j. cbn. rewrite lookup_fmap. destruct (ms_jobs s !! i) eqn:E; [|done].
  cbn. intros [= <-]. by apply Hf, (so_jobs s Hok i).
Qed.

Lemma vectors_delete id s i : vectors (deleteMessageEmbeddings id s) i = if decide (i = id) then [] else vectors s i.
Proof. unfold vectors. cbn. case_decide as E; [subst; by rewrite lookup_delete_eq|by rewrite lookup_delete_ne]. Qed.

Lemma discard_ok id s : store_ok s → store_ok (deleteMessageEmbeddings id s).
Proof.
  intros [Hj Hu Hc]. split; [done|intros i; rewrite vectors_delete; case_decide; [apply NoDup_nil_2|apply Hu]|].
  intros i e. rewrite vectors_delete. case_decide; [by intros ?%elem_of_nil|apply Hc].
Qed.

Lemma delete_job_ok id s : store_ok s → store_ok (delete_job id s).
Proof. intros Hok. apply (store_ok_jobs s); [done..| |done]. intros i j. cbn. intros [_ Hj]%lookup_delete_Some. by apply (so_jobs s Hok i). Qed.

Lemma same_identity_spec a b : same_identity a b = true ↔ identity_of_vector a = identity_of_vector b.
Proof.
  unfold same_identity, identity_of_vector. rewrite !andb_true_iff, !String.eqb_eq. split; [by intros [[-> ->] ->]|by intros [= -> -> ->]].
Qed.

Lemma put_embedding_in e l x : x ∈ put_embedding e l → x = e ∨ x ∈ l.
Proof.
  unfold put_embedding. destruct (existsb _ _).
  - intros Hx. apply list_elem_of_In, in_map_iff in Hx as (y & Hy & Hin). destruct (same_identity e y); [by left|]. right. subst y. by apply list_elem_of_In.
  - intros [Hx|Hx%list_elem_of_singleton]%elem_of_app; auto.
Qed.

Lemma put_embedding_there e l : e ∈ put_embedding e l.
Proof.
  unfold put_embedding. destruct (existsb _ _) eqn:E; [|apply elem_of_app; right; by left].
  apply existsb_exists in E as (x & Hin & Hx). apply list_elem_of_In, in_map_iff. exists x. by rewrite Hx.
Qed.

Lemma put_embedding_unique e l : NoDup (identity_of_vector <$> l) → NoDup (identity_of_vector <$> put_embedding e l).
Proof.
  unfold put_embedding. destruct (existsb (same_identity e) l) eqn:E.
  - intros Hn. assert (identity_of_vector <$> map (λ x, if same_identity e x then e else x) l = identity_of_vector <$> l) as ->; [|done].
    clear. induction l as [|x l IH]; [done|]. cbn. rewrite <- IH. f_equal. destruct (same_identity e x) eqn:Ex; [by apply same_identity_spec|done].
  - intros Hn. rewrite fmap_app. apply NoDup_app. split_and!; [done| |apply NoDup_singleton].
    intros i Hi. cbn. rewrite list_elem_of_singleton. intros ->. apply list_elem_of_fmap in Hi as (x & Hx & Hin).
    apply not_true_iff_false in E. apply E. apply existsb_exists. exists x. split; [by apply list_elem_of_In|]. by apply same_identity_spec.
Qed.

Lemma vectors_upsert id e s i : vectors (upsertEmbedding id e s) i = if decide (i = id) then put_embedding e (vectors s id) else vectors s i.
Proof. unfold vectors. cbn. case_decide as E; [subst; by rewrite lookup_insert_eq|by rewrite lookup_insert_ne]. Qed.

Lemma live_row s id text : live_text s id = Some text → ∃ r, ms_rows s !! id = Some r ∧ live r = true ∧ s_normalized r = text.
Proof. unfold live_text. destruct (ms_rows s !! id) as [r|]; [|done]. destruct (live r) eqn:E; [|done]. intros [= <-]. eauto. Qed.

Lemma upsert_ok id e text s : live_text s id = Some text → embeds e text → store_ok s → store_ok (upsertEmbedding id e s).
Proof.
  intros (r & Hr & _ & Ht)%live_row He [Hj Hu Hc]. split; [done|intros i; rewrite vectors_upsert; case_decide; [by apply put_embedding_unique|apply Hu]|].
  intros i x. rewrite vectors_upsert. case_decide as E; [|apply Hc]. subst i. intros [->|Hx]%put_embedding_in; [|by apply Hc].
  exists r. split; [done|]. by rewrite Ht.
Qed.

(** Changes of one job that keep it well formed. *)
Ltac wf_job := intros ? ? (? & ? & ? & ? & ?); unfold job_wf in *; cbn in *; split_and!; (done || lia || tauto).

Lemma drain_move_ok o s s' : drain_move o s s' → store_ok s → store_ok s' ∧ no_lease s s'.
Proof.
  intros [id now b|id now|id now e|id now st n e Hn Hst|id now text Ht Hb|id now e text Ht He Hi] Hok.
  - split; [apply on_job_ok; [|done]; destruct b; wf_job|apply on_job_lease; by left].
  - split; [apply on_job_ok; [|done]; wf_job|apply on_job_lease; by left].
  - split; [apply on_job_ok; [|done]; wf_job|apply on_job_lease; by left].
  - split; [apply on_job_ok; [|done]; destruct Hst as [-> | ->]; wf_job|apply on_job_lease; by left].
  - split; [apply on_job_ok; [wf_job|by apply discard_ok]|]. apply (on_job_lease _ _ (deleteMessageEmbeddings id s)). by left.
  - split; [apply on_job_ok; [wf_job|by eapply upsert_ok]|]. apply (on_job_lease _ _ (upsertEmbedding id e s)). by left.
Qed.

Lemma drain_moves_ok o s s' : rtc (drain_move o) s s' → store_ok s → store_ok s' ∧ no_lease s s'.
Proof.
  induction 1 as [s|s1 s2 s3 Hm _ IH]; intros Hok; [split; [done|apply no_lease_refl]|]. destruct (drain_move_ok _ _ _ Hm Hok) as [Hok2 Hl].
  destruct (IH Hok2) as [? Hl2]. split; [done|by eapply no_lease_trans].
Qed.

Lemma restart_ok s : store_ok s → store_ok (recoverClaims s) ∧ no_lease s (recoverClaims s).
Proof.
  intros Hok. split; [apply fmap_jobs_ok; [|done]|].
  - intros j Hj. unfold recovered_job. destruct (_ && _); [|done]. revert Hj. intros (? & ? & ? & ? & ?). unfold job_wf. cbn. by split_and!.
  - intros id. unfold lease_of, recoverClaims. cbn. rewrite lookup_fmap. destruct (ms_jobs s !! id) as [j|]; [|by left]. cbn.
    unfold recovered_job. destruct (_ && _); [by right|by left].
Qed.

Lemma requeue_row_ok o now s id : store_ok s → store_ok (requeue_row o now s id) ∧ no_lease s (requeue_row o now s id).
Proof.
  intros Hok. unfold requeue_row. destruct (live_text s id); [|split; [done|apply no_lease_refl]]. split.
  - apply (store_ok_jobs s); [done..| |done]. intros i j. cbn. rewrite lookup_insert. case_decide; [|apply (so_jobs s Hok)].
    intros [= <-]. destruct (ms_jobs s !! id) as [j|] eqn:E; cbn; [|unfold job_wf; cbn; split_and!; auto; lia].
    destruct (so_jobs s Hok id j E) as (? & ? & ? & ? & ?). unfold job_wf. cbn. split_and!; auto; lia.
  - intros i. unfold lease_of. cbn. rewrite lookup_insert. case_decide as E; [subst i|by left]. cbn. destruct (ms_jobs s !! id); by left.
Qed.

Lemma requeue_ok clock opts d n d' :
  RequeueAllEmbeddingJobs clock opts d = (n, d') → store_ok (d_store d) → store_ok (d_store d') ∧ no_lease (d_store d) (d_store d').
Proof.
  unfold RequeueAllEmbeddingJobs. cbn [read_clock]. intros [= _ <-]. cbn. generalize (List.filter (λ id, match live_text (d_store d) id with Some _ => true | None => false end) (elements (dom (ms_rows (d_store d))))) as ids.
  intros ids. generalize (d_store d) as s. induction ids as [|id ids IH]; intros s Hok; [split; [done|apply no_lease_refl]|]. cbn.
  destruct (requeue_row_ok (normalizeEmbeddingDrainOptions opts) (timeLayout (clock (d_tick d))) s id Hok) as [Hok1 Hl1].
  destruct (IH _ Hok1) as [? ?]. split; [done|by eapply no_lease_trans].
Qed.

(** ** Settlements *)

(** What a settlement of a claim does to the leases: nothing unless it takes
    effect, and then the message's lease is gone. *)
Definition settles (c : work_job) (now : Z) (s s' : mstate) (ok : bool) : Prop :=
  no_lease s s' ∧ if effective c now s then lease_of s' (w_Key c) = ""%string else ok = false ∧ s' = s.

Lemma complete_settles o c r now s : settles c now s (Complete o c r now s).2 (Complete o c r now s).1.
Proof.
  unfold settles, effective, Complete. destruct (ms_jobs s !! w_Key c) as [j|] eqn:Ej; [|by split; [apply no_lease_refl|]].
  destruct (holds c (timeLayout now) j); cbn [negb]; [|by split; [apply no_lease_refl|]].
  set (s1 := on_job _ _ s).
  assert (Hc : ∀ s', (∀ i, i ≠ w_Key c → ms_jobs s' !! i = ms_jobs s1 !! i) → lease_of s' (w_Key c) = ""%string → no_lease s s' ∧ lease_of s' (w_Key c) = ""%string).
  { intros s' Ho Hl. split; [|done]. intros i. destruct (decide (i = w_Key c)) as [->|Hne]; [by right|]. left.
    unfold lease_of. rewrite Ho by done. unfold s1. cbn. by rewrite lookup_alter_ne. }
  assert (Hs1 : ∀ f, (∀ j, j_lease_token (f j) = j_lease_token j) → lease_of (on_job f (w_Key c) s1) (w_Key c) = ""%string).
  { intros f Hf. unfold lease_of, s1. cbn. rewrite !lookup_alter_eq, Ej. cbn. by rewrite Hf. }
  assert (Hs1' : lease_of s1 (w_Key c) = ""%string) by (unfold lease_of, s1; cbn; by rewrite lookup_alter_eq, Ej).
  destruct (live_text s1 (w_Key c)) as [current|].
  - destruct (_ || _); [|destruct (wr_empty r)]; cbn [fst snd]; apply Hc; try done.
    + intros i Hi. cbn. by rewrite lookup_alter_ne.
    + exact (Hs1 (requeued_job (timeLayout now)) (λ _, eq_refl)).
  - cbn [fst snd]. apply Hc; [intros i Hi; cbn; by rewrite lookup_delete_ne|]. unfold lease_of. cbn. by rewrite lookup_delete_eq.
Qed.

Lemma settle_settles c now f s :
  (∀ j, j_lease_token (f j) = ""%string) → settles c now s (settle c now f s).2 (settle c now f s).1.
Proof.
  intros Hf. unfold settles, effective, settle. destruct (ms_jobs s !! w_Key c) as [j|] eqn:Ej; [|by split; [apply no_lease_refl|]].
  destruct (holds c (timeLayout now) j); [|by split; [apply no_lease_refl|]]. cbn. split; [apply on_job_lease; by right|].
  unfold lease_of. cbn. rewrite lookup_alter_eq, Ej. cbn. apply Hf.
Qed.

Lemma settle_ok c now f s : (∀ j, job_wf j → job_wf (f j)) → store_ok s → store_ok (settle c now f s).2.
Proof.
  intros Hf Hok. unfold settle. destruct (ms_jobs s !! w_Key c) as [j|]; [|done]. destruct (holds _ _ _); [|done]. apply on_job_ok; [|done]. intros ? _. apply Hf.
Qed.

Lemma retried_wf r j : job_wf j → job_wf (retried_job r j).
Proof.
  intros (? & ? & ? & ? & ?). unfold job_wf. cbn. split_and!; [destruct (rt_Permanent r); auto|destruct (rt_CountAttempt r); lia|lia|done|done].
Qed.
Lemma released_wf j : job_wf j → job_wf (released_job j).
Proof. intros (? & ? & ? & ? & ?). unfold job_wf. cbn. by split_and!. Qed.

Lemma complete_ok o c r now s : answered o r → store_ok s → store_ok (Complete o c r now s).2.
Proof.
  intros Ha Hok. unfold Complete. destruct (ms_jobs s !! w_Key c) as [j|]; [|done]. destruct (holds _ _ _); cbn [negb]; [|done].
  set (s1 := on_job _ _ s). assert (store_ok s1) as Hok1 by (apply on_job_ok; [wf_job|done]). clearbody s1.
  destruct (live_text s1 (w_Key c)) as [current|] eqn:El; cbn [snd]; [|by apply discard_ok, delete_job_ok].
  destruct (negb (wr_valid r) || _) eqn:Ec; cbn [snd]; [apply discard_ok, on_job_ok; [wf_job|done]|].
  destruct (wr_empty r) eqn:Ee; cbn [snd]; [by apply discard_ok|]. apply orb_false_iff in Ec as [Hv%negb_false_iff Hi%negb_false_iff%String.eqb_eq]. destruct (Ha Hv Ee) as (v & Hans & Hb & Hd).
  eapply upsert_ok; [exact El| |done]. exists (do_MaxInputChars o), v. rewrite Hi. by split_and!.
Qed.

(** ** Claims *)

(** [c] is the latest claim of its message. *)
Definition latest (claims : list work_job) (c : work_job) : Prop :=
  ∃ l1 l2, claims = l1 ++ c :: l2 ∧ ∀ x, x ∈ l2 → w_Key x ≠ w_Key c.

Lemma latest_in claims c : latest claims c → c ∈ claims.
Proof. intros (l1 & l2 & -> & _). apply elem_of_app. right. by left. Qed.

Lemma latest_keep claims jobs c : latest claims c → (∀ x, x ∈ jobs → w_Key x ≠ w_Key c) → latest (claims ++ jobs) c.
Proof.
  intros (l1 & l2 & -> & Hl) Hj. exists l1, (l2 ++ jobs). split; [by rewrite <- app_assoc|]. intros x [Hx|Hx]%elem_of_app; auto.
Qed.

Lemma latest_new claims jobs c : NoDup (w_Key <$> jobs) → c ∈ jobs → latest (claims ++ jobs) c.
Proof.
  intros Hn (l1 & l2 & ->)%list_elem_of_split. exists (claims ++ l1), l2. split; [by rewrite <- app_assoc|].
  rewrite fmap_app, fmap_cons in Hn. apply NoDup_app in Hn as (_ & _ & Hn). apply NoDup_cons in Hn as [Hn _].
  intros x Hx Heq. apply Hn. rewrite <- Heq. by apply list_elem_of_fmap_2.
Qed.

Lemma claim_rows o now until jobs s : ms_rows (fold_left (claim_row o now until) jobs s) = ms_rows s ∧ ms_embeddings (fold_left (claim_row o now until) jobs s) = ms_embeddings s.
Proof.
  revert s. induction jobs as [|w jobs IH]; intros s; [done|]. cbn. destruct (IH (claim_row o now until s w)) as [-> ->].
  unfold claim_row. destruct (ms_jobs s !! w_Key w); [|done]. by destruct (_ =? _).
Qed.

Lemma claim_other o now until jobs s id : id ∉ w_Key <$> jobs → ms_jobs (fold_left (claim_row o now until) jobs s) !! id = ms_jobs s !! id.
Proof.
  revert s. induction jobs as [|w jobs IH]; intros s Hid; [done|]. rewrite fmap_cons, not_elem_of_cons in Hid. destruct Hid as [Hne Hid].
  cbn. rewrite IH by done. unfold claim_row. destruct (ms_jobs s !! w_Key w); [|done]. destruct (_ =? _); [|done]. cbn. by rewrite lookup_alter_ne.
Qed.

Lemma claim_one o now until jobs s w j :
  NoDup (w_Key <$> jobs) → w ∈ jobs → ms_jobs s !! w_Key w = Some j → j_revision j = w_Revision w →
  ms_jobs (fold_left (claim_row o now until) jobs s) !! w_Key w = Some (claimed_job o now until (w_Token w) (w_Attempts w) j).
Proof.
  intros Hn Hw Hj Hr. revert s Hj. induction jobs as [|x jobs IH]; intros s Hj; [by apply elem_of_nil in Hw|]. cbn.
  rewrite fmap_cons in Hn. apply NoDup_cons in Hn as [Hx Hn]. apply elem_of_cons in Hw as [->|Hw].
  - rewrite claim_other by done. unfold claim_row. rewrite Hj, Hr, Z.eqb_refl. cbn. by rewrite lookup_alter_eq, Hj.
  - apply IH; [done..|]. assert (w_Key w ≠ w_Key x) by (intros E; apply Hx; rewrite <- E; by apply list_elem_of_fmap_2).
    unfold claim_row. destruct (ms_jobs s !! w_Key x); [|done]. destruct (_ =? _); [|done]. cbn. by rewrite lookup_alter_ne.
Qed.

(** What a claim hands out. *)
Record claimed (o : EmbeddingDrainOptions) (req : ClaimRequest) (tokens : nat → string) (s : mstate) (jobs : list work_job) (s' : mstate) : Prop := {
  cl_keys : NoDup (w_Key <$> jobs);
  cl_tokens : ∃ n, w_Token <$> jobs = tokens <$> seq 0 n;
  cl_ready w : w ∈ jobs → ∃ j, ms_jobs s !! w_Key w = Some j ∧ w_Revision w = j_revision j ∧ ready s (if c_CatchUp req then 0 else 1) (timeLayout (c_Now req)) (w_Key w, j) = true
      ∧ w_Attempts w = (if has_identity o j then j_attempts j else 0)
      ∧ ms_jobs s' !! w_Key w = Some (claimed_job o (timeLayout (c_Now req)) (timeLayout (c_LeaseUntil req)) (w_Token w) (w_Attempts w) j);
  cl_other id : id ∉ w_Key <$> jobs → ms_jobs s' !! id = ms_jobs s !! id;
  cl_rows : ms_rows s' = ms_rows s;
  cl_embeddings : ms_embeddings s' = ms_embeddings s }.

Lemma imap_fmap_keys {A B} (f : nat → A → B) (g : B → string) (h : A → string) l k :
  (∀ i x, g (f i x) = h x) → g <$> imap (λ i, f (k + i)%nat) l = h <$> l.
Proof. intros Hf. revert k. induction l as [|x l IH]; intros k; [done|]. cbn. f_equal; [apply Hf|]. rewrite <- (IH (S k)). f_equal. apply imap_ext. intros i ? _. cbn. f_equal. lia. Qed.

Lemma ready_rows_unique (p : string * embedding_job → bool) (R : string * embedding_job → string * embedding_job → Prop) `{RelDecision _ _ R} n s :
  NoDup (fst <$> sql_limit n (merge_sort R (List.filter p (map_to_list (ms_jobs s))))).
Proof.
  assert (Hn : NoDup (fst <$> merge_sort R (List.filter p (map_to_list (ms_jobs s))))).
  { rewrite merge_sort_Permutation. pose proof (NoDup_fst_map_to_list (ms_jobs s)) as Hn. revert Hn. generalize (map_to_list (ms_jobs s)) as l. clear.
    induction l as [|x l IH]; [done|]. cbn [List.filter]. rewrite fmap_cons. intros [Hx Hn]%NoDup_cons. destruct (p x); [|by apply IH].
    rewrite fmap_cons. apply NoDup_cons. split; [|by apply IH]. intros (y & Hy & Hin)%list_elem_of_fmap. apply Hx. rewrite Hy. apply list_elem_of_fmap_2.
    apply list_elem_of_In, filter_In in Hin as [Hin _]. by apply list_elem_of_In. }
  unfold sql_limit. destruct (n <? 0); [done|]. rewrite <- (take_drop (Z.to_nat n) (merge_sort _ _)), fmap_app in Hn. by apply NoDup_app in Hn as [Hn _].
Qed.

Lemma claim_spec o req tokens s jobs s' : Claim o req tokens s = inl (jobs, s') → claimed o req tokens s jobs s'.
Proof.
  unfold Claim. destruct (negb _); [done|]. cbv zeta. set (prio := if c_CatchUp req then 0 else 1). set (now := timeLayout (c_Now req)).
  set (rows := sql_limit _ _). intros Hc.
  assert (Hrows : ∀ row, row ∈ rows → ms_jobs s !! row.1 = Some row.2 ∧ ready s prio now row = true).
  { intros [id j] Hin%elem_of_limit. rewrite (merge_sort_Permutation claim_le) in Hin. apply list_elem_of_In, filter_In in Hin as [Hin Hr].
    split; [|done]. by apply list_elem_of_In, elem_of_map_to_list in Hin. }
  assert (Hn : NoDup (fst <$> rows)) by (unfold rows; apply ready_rows_unique; apply _). clearbody rows.
  set (js := imap (λ i row, claim_of o row (tokens i)) rows) in Hc.
  assert (Hk : w_Key <$> js = fst <$> rows) by (unfold js; apply (imap_fmap_keys (λ i row, claim_of o row (tokens i)) w_Key fst rows 0); by intros i [id j]).
  assert (Ht : w_Token <$> js = tokens <$> seq 0 (length rows)).
  { apply list_eq. intros i. unfold js. rewrite !list_lookup_fmap, list_lookup_imap. destruct (rows !! i) as [[id j]|] eqn:Ei; cbn.
    - rewrite lookup_seq_lt by (by eapply lookup_lt_Some). done.
    - rewrite lookup_seq_ge by (by apply lookup_ge_None). done. }
  assert (Hw : ∀ w, w ∈ js → ∃ row, row ∈ rows ∧ w_Key w = row.1 ∧ w_Revision w = j_revision row.2 ∧ w_Attempts w = (if has_identity o row.2 then j_attempts row.2 else 0)).
  { intros w (i & Hi)%list_elem_of_lookup. unfold js in Hi. rewrite list_lookup_imap in Hi. destruct (rows !! i) as [[id j]|] eqn:Ei; [|done].
    injection Hi as <-. exists (id, j). split; [by eapply list_elem_of_lookup_2|done]. }
  clearbody js. injection Hc as <- <-. destruct (claim_rows o now (timeLayout (c_LeaseUntil req)) js s) as [Hr He].
  split; [by rewrite Hk|eauto| |apply claim_other|done|done].
  intros w Hin. destruct (Hw w Hin) as ([id j] & Hrow & Hid & Hrev & Hat). cbn in *. destruct (Hrows _ Hrow) as [Hj Hready]. cbn in *. subst id.
  exists j. split_and!; [done..|]. apply claim_one; [by rewrite Hk|done..].
Qed.

(** ** The invariant of the system *)

Record queue_ok (w : wstate) : Prop := {
  q_store : store_ok (ws_store w);
  q_tokens : NoDup (w_Token <$> ws_claims w) ∧ ∀ c, c ∈ ws_claims w → w_Token c ≠ ""%string;
  q_results o c r : (o, c, r) ∈ ws_results w → c ∈ ws_claims w ∧ answered o r;
  q_lease id : lease_of (ws_store w) id ≠ ""%string →
    ∃ c, latest (ws_claims w) c ∧ w_Key c = id ∧ w_Token c = lease_of (ws_store w) id ∧ c ∉ ws_settled w;
  q_settled : NoDup (ws_settled w) ∧ ws_settled w ⊆ ws_claims w }.

Lemma effective_lease c now s : effective c now s = true → lease_of s (w_Key c) = w_Token c.
Proof. unfold effective, lease_of, holds. destruct (ms_jobs s !! w_Key c); [|done]. intros ?. by propify. Qed.

Lemma effective_latest w c now :
  queue_ok w → c ∈ ws_claims w → effective c now (ws_store w) = true → latest (ws_claims w) c ∧ c ∉ ws_settled w.
Proof.
  intros Hq Hc Ht%effective_lease. destruct (q_tokens w Hq) as [Hn Hne]. destruct (q_lease w Hq (w_Key c)) as (c' & Hl & Hk & Htok & Hs); [rewrite Ht; by apply Hne|].
  assert (c' = c) as ->; [|done]. rewrite Ht in Htok. apply latest_in, list_elem_of_lookup in Hl as [i Hi]. apply list_elem_of_lookup in Hc as [k Hck].
  assert (i = k) as -> by (eapply (NoDup_lookup _ _ _ (w_Token c) Hn); rewrite list_lookup_fmap; [by rewrite Hi, <- Htok|by rewrite Hck]). congruence.
Qed.

(** A step that gives no lease. *)
Lemma queue_advance s w : queue_ok w → store_ok s → no_lease (ws_store w) s → queue_ok (advance s w).
Proof.
  intros Hq Hs Hl. split; try apply Hq; [done|]. cbn. intros id Hid. destruct (Hl id) as [E|]; [|done]. rewrite E in *. by apply Hq.
Qed.

Lemma queue_settled c now s ok w :
  queue_ok w → c ∈ ws_claims w → store_ok s → settles c now (ws_store w) s ok → queue_ok (advance s (note_settled c now w)).
Proof.
  intros Hq Hc Hs [Hl He]. unfold note_settled. destruct (effective c now (ws_store w)) eqn:Eff.
  2:{ assert (queue_ok (advance s w)) as Hq' by (by apply queue_advance). split; apply Hq'. }
  destruct (effective_latest w c now Hq Hc Eff) as [Hlat Hns]. split; cbn; [done|apply Hq|apply Hq| |].
  - intros id Hid. destruct (Hl id) as [E|]; [|done]. rewrite E in Hid. destruct (q_lease w Hq id Hid) as (c' & ? & ? & ? & ?). exists c'. rewrite E.
    split_and!; [done..|]. intros [->|]%elem_of_cons; [|done]. rewrite <- E in Hid. congruence.
  - destruct (q_settled w Hq) as [Hn Hsub]. split; [by constructor|]. intros x [->|Hx]%elem_of_cons; auto.
Qed.

Lemma claimed_tokens o req tokens s jobs s' claims :
  claimed o req tokens s jobs s' → fresh_tokens tokens claims → NoDup (w_Token <$> claims) → NoDup (w_Token <$> (claims ++ jobs)) ∧ ∀ c, c ∈ jobs → w_Token c ≠ ""%string ∧ w_Token c ∉ (w_Token <$> claims).
Proof.
  intros Hcl [Hf Hinj] Hn. destruct (cl_tokens _ _ _ _ _ _ Hcl) as [n Ht].
  assert (∀ t, t ∈ w_Token <$> jobs → t ≠ ""%string ∧ t ∉ (w_Token <$> claims)) as Hfresh.
  { intros t. rewrite Ht. intros (i & -> & _)%list_elem_of_fmap. apply Hf. }
  split; [|intros c Hc; by apply Hfresh, list_elem_of_fmap_2].
  rewrite fmap_app. apply NoDup_app. split_and!; [done|intros t Hc Hj; by apply Hfresh in Hj as [_ ?]|]. rewrite Ht. apply NoDup_fmap_2; [|apply NoDup_seq].
  intros i k. apply Hinj.
Qed.

Lemma claimed_store o req tokens s jobs s' :
  claimed o req tokens s jobs s' → (∀ i, tokens i ≠ ""%string) → timeLayout (c_LeaseUntil req) ≠ ""%string → store_ok s → store_ok s'.
Proof.
  intros Hcl Hne Hu Hok. apply (store_ok_jobs s); [apply Hcl|apply Hcl| |done]. intros id j.
  destruct (decide (id ∈ w_Key <$> jobs)) as [(w & -> & Hw)%list_elem_of_fmap|Hno]; [|rewrite (cl_other _ _ _ _ _ _ Hcl) by done; apply (so_jobs s Hok)].
  destruct (cl_ready _ _ _ _ _ _ Hcl w Hw) as (j0 & Hj & _ & _ & Hat & ->). intros [= <-]. destruct (so_jobs s Hok _ _ Hj) as (? & ? & ? & ? & ?).
  unfold job_wf. cbn. split_and!; [done|destruct (has_identity o j0); lia|done|done|]. split; [|done].
  intros Htok. destruct (cl_tokens _ _ _ _ _ _ Hcl) as [n Ht]. assert (w_Token w ∈ tokens <$> seq 0 n) as (i & Hi & _)%list_elem_of_fmap by (rewrite <- Ht; by apply list_elem_of_fmap_2).
  destruct (Hne i). by rewrite <- Hi.
Qed.

Lemma claimed_lease o req tokens s jobs s' w : claimed o req tokens s jobs s' → w ∈ jobs → lease_of s' (w_Key w) = w_Token w.
Proof. intros Hcl Hw. destruct (cl_ready _ _ _ _ _ _ Hcl w Hw) as (j & _ & _ & _ & _ & Hj). unfold lease_of. by rewrite Hj. Qed.

Lemma claimed_other_lease o req tokens s jobs s' id : claimed o req tokens s jobs s' → id ∉ w_Key <$> jobs → lease_of s' id = lease_of s id.
Proof. intros Hcl Hid. unfold lease_of. by rewrite (cl_other _ _ _ _ _ _ Hcl). Qed.

Lemma queue_claim o req tokens jobs s w :
  queue_ok w → claimed o req tokens (ws_store w) jobs s → fresh_tokens tokens (ws_claims w) → queue_ok (with_claims jobs (advance s w)).
Proof.
  intros Hq Hcl Hf. destruct (claimed_tokens _ _ _ _ _ _ _ Hcl Hf (proj1 (q_tokens w Hq))) as [Hn Hne].
  split; cbn [ws_store ws_claims ws_results ws_settled with_claims advance].
  - eapply claimed_store; [done|intros i; apply Hf| |apply Hq]. apply String.eqb_neq, timeLayout_nonempty.
  - split; [done|]. intros c [Hc|Hc]%elem_of_app; [by apply Hq|by apply Hne].
  - intros o' c r Hr. destruct (q_results w Hq o' c r Hr). split; [|done]. apply elem_of_app. by left.
  - intros id Hid. destruct (decide (id ∈ w_Key <$> jobs)) as [(c & -> & Hc)%list_elem_of_fmap|Hno].
    + exists c. rewrite (claimed_lease _ _ _ _ _ _ _ Hcl Hc). split_and!; [apply latest_new; [apply Hcl|done]|done..|].
      intros Hs. apply (proj2 (q_settled w Hq)) in Hs. apply (Hne c Hc). by apply list_elem_of_fmap_2.
    + rewrite (claimed_other_lease _ _ _ _ _ _ _ Hcl Hno) in *. destruct (q_lease w Hq id Hid) as (c & Hl & Hk & ? & ?). exists c. split_and!; [|done..].
      apply latest_keep; [done|]. intros x Hx E. apply Hno. rewrite <- Hk, <- E. by apply list_elem_of_fmap_2.
  - destruct (q_settled w Hq) as [? Hs]. split; [done|]. intros x Hx. apply elem_of_app. left. by apply Hs.
Qed.

Lemma processed o embed now at_read jobs rs c r :
  honest o embed → process o embed now at_read jobs = inl rs → (c, r) ∈ zip jobs rs →
  c ∈ jobs ∧ answered o r ∧ (wr_valid r = true → ∃ i text j, live_text (at_read i) (w_Key c) = Some text ∧ ms_jobs (at_read i) !! w_Key c = Some j ∧ j_lease_token j = w_Token c
    ∧ wr_input r = capRunes text (do_MaxInputChars o) ∧ wr_empty r = (TrimSpace text =? "")%string).
Proof.
  intros Hh Hp%process_results Hin; [|done]. apply list_elem_of_lookup in Hin as [i Hi]. apply lookup_zip_Some in Hi as [Hc Hr].
  assert (result_for o (read_input o (at_read i) c) r) as (Hinp & Hv & He & Ha) by (eapply (Forall2_lookup_lr _ _ _ i); [exact Hp|by rewrite list_lookup_imap, Hc|done]).
  pose proof (read_input_spec o (at_read i) c) as Hs. destruct (read_input o (at_read i) c) as [r0 x]. destruct Hs as [Hx Hval]. cbn in *. rewrite Hinp, Hv, He.
  split; [by eapply list_elem_of_lookup_2|]. split.
  - unfold answered. rewrite Hinp, Hv, He. intros H1 H2. destruct x as [x|]; [|by rewrite Hx in H2]. destruct Hx as (-> & _). by apply Ha.
  - intros H1. destruct (Hval H1) as (text & j & ? & ? & _ & ? & ? & ?). eauto 10.
Qed.

Section invariant.
Variables (writes : mstate → mstate → Prop) (uses : EmbeddingDrainOptions → Prop).
Hypothesis Hwrites : ∀ s s', writes s s' → store_ok s → store_ok s' ∧ no_lease s s'.

Lemma queue_step w w' : worker_step writes uses w w' → queue_ok w → queue_ok w'.
Proof.
  intros Hstep Hq. pose proof (q_store w Hq) as Hok. destruct Hstep.
  - destruct (Hwrites _ _ H1 Hok). by apply queue_advance.
  - destruct (restart_ok _ Hok). by apply queue_advance.
  - eapply queue_claim; [done|by apply claim_spec|done].
  - split; try apply Hq. cbn. intros o' c r [Hr|Hr]%elem_of_app; [by apply Hq|]. apply list_elem_of_fmap in Hr as ([c' r'] & [= -> -> ->] & Hin).
    destruct (processed _ _ _ _ _ _ _ _ H2 H5 Hin) as (Hc & Ha & _). split; [by apply H3|done].
  - destruct (q_results w Hq _ _ _ H1) as [Hc Ha]. eapply queue_settled; [done..|by apply complete_ok|apply complete_settles].
  - eapply queue_settled; [done..| |apply settle_settles; by intros j]. apply settle_ok; [apply retried_wf|done].
  - eapply queue_settled; [done..| |apply settle_settles; by intros j]. apply settle_ok; [apply released_wf|done].
  - apply requeue_ok in H2 as [? ?]; [|done]. by apply queue_advance.
Qed.

(** The queue is well formed, and what a drain has still to commit is made of
    its moves. *)
Record system_ok (x : system) : Prop := {
  sy_queue : queue_ok (sy_worker x);
  sy_plan fs : sy_drain x = Some fs → ∃ o, uses o ∧ planned o (ws_store (sy_worker x)) fs }.

Lemma system_ok_step x y : system_step writes uses x y → system_ok x → system_ok y.
Proof.
  intros Hstep [Hq Hp]. destruct Hstep as [w Hn Hw|w Hw Hs|clock provider opts l tick e st d Hn Hu Hh Hd|f fs Hfs|fs Hfs].
  - split; cbn; [by eapply queue_step|done].
  - split; cbn; [by eapply queue_step|]. intros fs Hfs. rewrite Hs. by apply Hp.
  - split; cbn; [done|]. intros fs [= <-]. eexists. split; [exact Hu|].
    apply drain_runs in Hd as (fs & Hl & Hpl & _); [|done|intros id j Hj; by apply (so_jobs _ (q_store _ Hq) id j Hj)]. cbn in *. by rewrite Hl.
  - destruct (Hp _ Hfs) as (o & Hu & Hm & Hrest). destruct (drain_moves_ok _ _ _ Hm (q_store _ Hq)). split; cbn; [by apply queue_advance|].
    intros fs' [= <-]. by exists o.
  - split; cbn; [done|]. by intros fs' [=].
Qed.

Lemma system_ok_run x y : rtc (system_step writes uses) x y → system_ok x → system_ok y.
Proof. induction 1; eauto using system_ok_step. Qed.

(** A drain that is not cut short is its transactions one after the other, and
    leaves what [DrainEmbeddingJobs] returns. *)
Lemma whole_drain clock provider opts l tick e st d w :
  queue_ok w → uses (normalizeEmbeddingDrainOptions opts) → (∀ i, honest (normalizeEmbeddingDrainOptions opts) (provider i)) →
  DrainEmbeddingJobs clock provider opts (mkDrain (ws_store w) l tick []) = (e, st, d) →
  ∃ w', rtc (system_step writes uses) (mkSystem w None) (mkSystem w' None) ∧ ws_store w' = d_store d.
Proof.
  intros Hq Hu Hh Hd. assert (d_store d = commit_all (d_log d) (ws_store w)) as ->.
  { destruct (drain_runs _ _ _ (mkDrain (ws_store w) l tick []) _ _ _ Hh (λ id j Hj, proj1 (proj2 (so_jobs _ (q_store _ Hq) id j Hj))) Hd) as (fs & Hl & _ & ->). cbn in *. by rewrite Hl. }
  assert (∀ fs w, ∃ w', rtc (system_step writes uses) (mkSystem w (Some fs)) (mkSystem w' None) ∧ ws_store w' = commit_all fs (ws_store w)) as Hgo.
  { clear. induction fs as [|f fs IH]; intros w; [exists w; split; [by apply rtc_once, (Sys_end _ _ (mkSystem w (Some [])) [])|done]|].
    destruct (IH (advance (f (ws_store w)) w)) as (w' & Hr & Hs). exists w'. split; [|done]. eapply rtc_l; [|exact Hr]. by apply (Sys_commit _ _ (mkSystem w (Some (f :: fs)))). }
  destruct (Hgo (d_log d) w) as (w' & Hr & Hs). exists w'. split; [|done]. eapply rtc_l; [|exact Hr]. by apply (Sys_drain _ _ (mkSystem w None) _ _ _ _ _ _ _ _ eq_refl Hu Hh Hd).
Qed.
End invariant.

End worker.

(** ** Properties *)

(** A store before any worker touched it, and the lock free. *)
Definition started (s : mstate) : wstate := mkWState s [] [] [] [].
Definition idle (s : mstate) : system := mkSystem (started s) None.
Definition unleased (s : mstate) : Prop := ∀ id, lease_of s id = ""%string.

Lemma started_ok `{EmbedLib} Answers s : store_ok Answers s → unleased s → queue_ok Answers (started s).
Proof.
  intros Hs Hl. split; cbn; [done|split; [apply NoDup_nil_2|by intros c ?%elem_of_nil]|by intros o c r ?%elem_of_nil|by intros id; rewrite Hl|].
  split; [apply NoDup_nil_2|by intros c ?%elem_of_nil].
Qed.

Lemma writers_ok `{EmbedLib} `{TimeParse} `{RawPayloads} `{Lexical} Answers s s' :
  message_step s s' → store_ok Answers s → store_ok Answers s' ∧ no_lease s s'.
Proof. intros Hs%slots_message_step Hok. split; [by eapply slot_steps_ok|by eapply slots_no_lease]. Qed.

Lemma queue_run_ok `{EmbedLib} `{ErrorReport} `{TimeParse} `{RawPayloads} `{Lexical} Answers uses s x :
  store_ok Answers s → unleased s → rtc (system_step Answers message_step uses) (idle s) x → queue_ok Answers (sy_worker x).
Proof.
  intros Hs Hl Hrun. eapply sy_queue, system_ok_run; [intros; by apply writers_ok|exact Hrun|]. split; [by apply started_ok|done].
Qed.

(** C17: every vector is of its message's present text: however message
    writes, deletions, claims, late or stale completions and restarts interleave,
    and the transactions of drains with the reads of others, each row of
    [message_embeddings] belongs to a stored message, and is what the provider of
    its identity answered for the text the message has now, cut to some number
    of characters. A drain may end after any of its transactions; as in the code
    it relies on the sync lock, which no writer and no second drain shares with
    it. *)
Theorem vectors_embed_current_text `{EmbedLib} `{ErrorReport} `{TimeParse} `{RawPayloads} `{Lexical}
    (Answers : identity → string → vector → Prop) (uses : EmbeddingDrainOptions → Prop) (s : mstate) (x : system)
    (Hstore : store_ok Answers s) (Hleases : unleased s) (Hrun : rtc (system_step Answers message_step uses) (idle s) x) :
  vectors_current Answers (ws_store (sy_worker x)).
Proof. apply so_current, q_store. by eapply queue_run_ok. Qed.

(** C39: the tables of the queue stay well typed: every job is pending, done or
    failed with a count of attempts, a revision from one on, priority zero or
    one, and a lease that has both its token and its deadline or neither; a
    message has at most one vector per provider, model and input version. *)
Theorem queue_tables_well_typed `{EmbedLib} `{ErrorReport} `{TimeParse} `{RawPayloads} `{Lexical}
    (Answers : identity → string → vector → Prop) (uses : EmbeddingDrainOptions → Prop) (s : mstate) (x : system)
    (Hstore : store_ok Answers s) (Hleases : unleased s) (Hrun : rtc (system_step Answers message_step uses) (idle s) x) :
  (∀ id j, ms_jobs (ws_store (sy_worker x)) !! id = Some j → job_wf j) ∧ ∀ id, NoDup (identity_of_vector <$> vectors (ws_store (sy_worker x)) id).
Proof. assert (store_ok Answers (ws_store (sy_worker x))) as [? ? _] by (by eapply q_store, queue_run_ok). done. Qed.

(** C19: a claim is settled once, by its holder: at any point of any run, a
    settlement of an earlier claim takes effect only if that claim is the
    latest one of its message and has not been settled; otherwise completing,
    retrying and releasing it report failure and change nothing. *)
Theorem leases_are_exclusive `{EmbedLib} `{ErrorReport} `{TimeParse} `{RawPayloads} `{Lexical}
    (Answers : identity → string → vector → Prop) (uses : EmbeddingDrainOptions → Prop) (s : mstate) (x : system) (c : work_job) (now : Z)
    (Hstore : store_ok Answers s) (Hleases : unleased s) (Hrun : rtc (system_step Answers message_step uses) (idle s) x)
    (Hclaim : c ∈ ws_claims (sy_worker x)) :
  let w := sy_worker x in
  if effective c now (ws_store w)
  then latest (ws_claims w) c ∧ c ∉ ws_settled w ∧ NoDup (ws_settled w)
  else (∀ o r, Complete o c r now (ws_store w) = (false, ws_store w)) ∧ Release c now (ws_store w) = (false, ws_store w)
       ∧ ∀ r, rt_Now r = now → Retry c r (ws_store w) = (false, ws_store w).
Proof.
  intros w. assert (queue_ok Answers w) as Hq by (by eapply queue_run_ok). destruct (effective c now (ws_store w)) eqn:E.
  - destruct (effective_latest Answers w c now Hq Hclaim E). split_and!; [done..|]. apply (proj1 (q_settled Answers w Hq)).
  - assert (∀ p s', settles c now (ws_store w) s' p → (p, s') = (false, ws_store w)) as Hf by (intros p s' [_ Hs]; rewrite E in Hs; by destruct Hs as [-> ->]).
    split_and!.
    + intros o r. rewrite (surjective_pairing (Complete o c r now (ws_store w))). apply Hf, complete_settles.
    + rewrite (surjective_pairing (Release c now (ws_store w))). apply Hf, settle_settles. by intros j.
    + intros r <-. rewrite (surjective_pairing (Retry c r (ws_store w))). apply Hf, settle_settles. by intros j.
Qed.

(** ** Witnesses *)

Section witnesses.
#[local] Existing Instance parse_written.
#[local] Existing Instance plain_payloads.
#[local] Existing Instance no_languages.

(** A library whose vectors are encoded as the text of their length. *)
#[export] Instance unary_vectors : EmbedLib :=
  { DefaultBatchSize := 8; DefaultMaxInputChars := 100; DefaultRequestTimeout := 30; EncodeFloat32 v := inl (pretty (Z.of_nat (length v)));
    IsRateLimitError _ := false; as_Failure _ := None; as_HTTPError _ := None; ParseHTTPTime _ := None }.
#[export] Instance no_report : ErrorReport :=
  { type_name _ := ""%string; sanitizeFailureMessage m := m; FailureRefFromError _ := mkRef "" "" "" "" "" "" "" }.

(** A provider whose vector has one entry per byte of the input. *)
Definition byte_vector (input : string) : vector := repeat 1 (String.length input).
Definition byte_provider (inputs : list string) : EmbeddingBatch + err := inl (mkBatch (byte_vector <$> inputs) 0).
Definition byte_answers (_ : identity) (input : string) (v : vector) : Prop := v = byte_vector input.

(** Tokens that never repeat. *)
Fixpoint bars (n : nat) : string := match n with O => "" | S n => String "|" (bars n) end.

Definition live_options : EmbeddingDrainOptions := mkDrainOptions 0 "local" "m" "v1" 10 4 3.
Definition example_request : ClaimRequest := mkClaim "embeddings" false 100 200 10.
Definition claim_result : list work_job * mstate :=
  match Claim live_options example_request (λ i, bars (S i)) one_message with inl p => p | inr _ => ([], one_message) end.
Definition example_claim : work_job := mkWorkJob "10" 2 0 "|".
Definition work_result : list embeddingWorkResult :=
  match process live_options byte_provider 150 (λ _, claim_result.2) [example_claim] with inl rs => rs | inr _ => [] end.

Definition w_written : wstate := advance one_message (started empty_mstate).
Definition w_claimed : wstate := with_claims claim_result.1 (advance claim_result.2 w_written).
Definition w_processed : wstate := with_results live_options (zip [example_claim] work_result) w_claimed.
Definition example_completion : embeddingWorkResult := mkWorkResult "hel" true "3" 3 false.
Definition w_completed : wstate :=
  advance (Complete live_options example_claim example_completion 150 (ws_store w_processed)).2 (note_settled example_claim 150 w_processed).

Lemma byte_honest o : honest byte_answers o byte_provider.
Proof. intros inputs b [= <-] _. cbn. apply Forall2_fmap_r. apply Forall_Forall2_diag, Forall_forall. done. Qed.

Lemma empty_ok Answers : store_ok Answers empty_mstate.
Proof. split; [done|intros id; apply NoDup_nil_2|intros id e ?%elem_of_nil; done]. Qed.

Definition all_uses (_ : EmbeddingDrainOptions) : Prop := True.

Lemma bars_length n : String.length (bars n) = n.
Proof. induction n; cbn; congruence. Qed.
Lemma bars_fresh : fresh_tokens (λ i, bars (S i)) [].
Proof.
  split; [intros i; split; [done|apply not_elem_of_nil]|]. intros i k E. apply (f_equal String.length) in E. rewrite !bars_length in E. congruence.
Qed.

(** The steps of the run, for any writers and configurations that allow it. *)
Section run.
Variables (writes : mstate → mstate → Prop) (uses : EmbeddingDrainOptions → Prop).
Hypotheses (Hwrite : writes empty_mstate one_message) (Huse : uses live_options).
Abbreviation step := (worker_step byte_answers writes uses).

Lemma w_written_step : step (started empty_mstate) w_written.
Proof. apply W_write. exact Hwrite. Qed.
Lemma w_claimed_step : step w_written w_claimed.
Proof. apply (W_claim byte_answers writes uses w_written live_options example_request (λ i, bars (S i))); [done|by vm_compute|exact bars_fresh]. Qed.
Lemma w_processed_step : step w_claimed w_processed.
Proof.
  apply (W_process byte_answers writes uses w_claimed live_options byte_provider 150 (λ _, claim_result.2) [example_claim] work_result).
  - done.
  - apply byte_honest.
  - intros x Hx%list_elem_of_singleton. subst x. change (example_claim ∈ claim_result.1). apply (bool_decide_unpack _). vm_compute. exact I.
  - intros _. by left.
  - by vm_compute.
Qed.
Lemma w_completed_step : step w_processed w_completed.
Proof.
  apply (W_complete byte_answers writes uses w_processed). cbn [ws_results w_processed with_results].
  assert (zip [example_claim] work_result = [(example_claim, example_completion)]) as -> by (by vm_compute). apply elem_of_app. right. by left.
Qed.
Abbreviation alone w := (mkSystem w None).
Lemma alone_step w w' : step w w' → system_step byte_answers writes uses (alone w) (alone w').
Proof. by apply (Sys_step _ _ _ (alone w)). Qed.
Lemma claimed_run : rtc (system_step byte_answers writes uses) (idle empty_mstate) (alone w_processed).
Proof.
  eapply rtc_l; [apply alone_step, w_written_step|]. eapply rtc_l; [apply alone_step, w_claimed_step|]. apply rtc_once, alone_step, w_processed_step.
Qed.
Lemma completed_run : rtc (system_step byte_answers writes uses) (idle empty_mstate) (alone w_completed).
Proof. eapply rtc_r; [exact claimed_run|apply alone_step, w_completed_step]. Qed.
End run.

(** A drain of the one message with room for its whole text: its identity is
    set, it is locked, and its vector is stored. *)
Definition wide_options : EmbeddingDrainOptions := mkDrainOptions 0 "local" "m" "v1" 10 4 100.
Definition one_drain : option err * EmbeddingDrainStats * drain :=
  DrainEmbeddingJobs (λ i, 100 + Z.of_nat i) (λ _, byte_provider) wide_options (mkDrain one_message empty_ledger 0 []).
Definition transactions : list (mstate → mstate) := d_log one_drain.2.

(** Its process dies before the vector is stored. *)
Definition w_locked : wstate :=
  match transactions with
  | [f; g; _] => let w := advance (f (ws_store w_written)) w_written in advance (g (ws_store w)) w
  | _ => w_written
  end.
Lemma locked_run : rtc (system_step byte_answers message_step (λ _, True)) (idle empty_mstate) (mkSystem w_locked None).
Proof.
  eapply rtc_l; [apply alone_step, w_written_step; exact (StepBatch empty_mstate 3 ∅ [first_version])|].
  eapply rtc_l; [apply (Sys_drain _ _ _ (mkSystem w_written None) (λ i, 100 + Z.of_nat i) (λ _, byte_provider) wide_options empty_ledger 0 one_drain.1.1 one_drain.1.2 one_drain.2);
    [done|done|intros i; apply byte_honest|unfold one_drain; by destruct (DrainEmbeddingJobs _ _ _ _) as [[? ?] ?]]|].
  fold transactions. unfold w_locked. assert (∃ f g h, transactions = [f; g; h]) as (f & g & h & ->) by (unfold transactions; vm_compute; eauto).
  eapply rtc_l; [by apply (Sys_commit _ _ _ (mkSystem w_written (Some [f; g; h])))|]. eapply rtc_l; [by eapply (Sys_commit _ _ _ (mkSystem _ (Some [g; h])))|].
  apply rtc_once. by eapply (Sys_end _ _ _ (mkSystem _ (Some [h]))).
Qed.

(** Without the lock, an edit between the drain's lock of the job and the store
    of its vector is answered with the vector of the old text: nothing compares
    the text or the revision again, and the job is done. *)
Example unlocked_edit_gets_a_stale_vector :
  let s1 := commit_all (take 2 transactions) one_message in
  let s2 := snd (upsertMessages 120 ∅ [edited_version] s1) in
  let s3 := commit_all (drop 2 transactions) s2 in
  live_text s3 "10" = Some "edited"%string ∧ e_vector <$> vectors s3 "10" = [pretty (Z.of_nat (String.length "hello"))]
  ∧ j_state <$> ms_jobs s3 !! "10"%string = Some "done"%string ∧ EmbeddingBacklog s3 = 0.
Proof. by vm_compute. Qed.

Lemma first_write : message_step empty_mstate one_message.
Proof. exact (StepBatch empty_mstate 3 ∅ [first_version]). Qed.

Lemma empty_unleased : unleased empty_mstate.
Proof. done. Qed.

(** The message "hello", cut to three characters, has its vector of length
    three; and after a drain that died under the lock its job is locked, and it
    has no vector. *)
Lemma vectors_embed_current_text_witness :
  vectors (ws_store w_completed) "10" = [mkEmbedding "local" "m" "v1" 3 "3" (timeLayout 150)] ∧ vectors_current byte_answers (ws_store w_completed)
  ∧ j_locked <$> ms_jobs (ws_store w_locked) !! "10"%string = Some (timeLayout 102) ∧ vectors (ws_store w_locked) "10" = [] ∧ vectors_current byte_answers (ws_store w_locked).
Proof.
  split_and!; [by vm_compute| |by vm_compute|by vm_compute|].
  - exact (vectors_embed_current_text byte_answers all_uses empty_mstate (mkSystem w_completed None) (empty_ok _) empty_unleased (completed_run _ _ first_write I)).
  - exact (vectors_embed_current_text byte_answers all_uses empty_mstate (mkSystem w_locked None) (empty_ok _) empty_unleased locked_run).
Defined.

Lemma queue_tables_well_typed_witness :
  is_Some (ms_jobs (ws_store w_completed) !! "10"%string) ∧ NoDup (identity_of_vector <$> vectors (ws_store w_completed) "10").
Proof.
  split; [by vm_compute; eexists|].
  exact (proj2 (queue_tables_well_typed byte_answers all_uses empty_mstate (mkSystem w_completed None) (empty_ok _) empty_unleased (completed_run _ _ first_write I)) "10"%string).
Defined.

(** Before the completion the claim is in force, after it no more. *)
Lemma leases_are_exclusive_witness :
  effective example_claim 150 (ws_store w_processed) = true ∧ latest (ws_claims w_processed) example_claim
  ∧ effective example_claim 160 (ws_store w_completed) = false
  ∧ Complete live_options example_claim example_completion 160 (ws_store w_completed) = (false, ws_store w_completed).
Proof.
  assert (example_claim ∈ ws_claims w_processed) as Hin by (apply (bool_decide_unpack _); vm_compute; exact I).
  assert (example_claim ∈ ws_claims w_completed) as Hin' by (apply (bool_decide_unpack _); vm_compute; exact I).
  assert (effective example_claim 150 (ws_store w_processed) = true) as E1 by (by vm_compute).
  assert (effective example_claim 160 (ws_store w_completed) = false) as E2 by (by vm_compute).
  pose proof (leases_are_exclusive byte_answers all_uses empty_mstate (mkSystem w_processed None) example_claim 150 (empty_ok _) empty_unleased (claimed_run _ _ first_write I) Hin) as H1.
  pose proof (leases_are_exclusive byte_answers all_uses empty_mstate (mkSystem w_completed None) example_claim 160 (empty_ok _) empty_unleased (completed_run _ _ first_write I) Hin') as H2.
  cbn [sy_worker] in H1, H2. rewrite E1 in H1. rewrite E2 in H2. split_and!; [done|apply H1|done|apply H2].
Defined.
End witnesses.
