(* ===== verification/EmbeddingAccount.v ===== *)
(** * The embedding queue accounts for every message

    While all workers and drains use one configuration, each live message whose
    own writes queue embeddings has a job, and the job is done only when the
    message's present text is blank or has its vector: no interleaving makes such
    a message drop out silently, whatever is written to the others. *)
From S2P Require Import Prelude GoTime GoText Errors ChannelScope FailureLedger Rows Receipts Attachments Mentions MessageWrite MessageSafety Runes Embeddings EmbeddingSlots EmbeddingSafety.
Local Open Scope Z_scope.

(** What a job promises for a message with [text] and vectors [vs]. *)
Definition accounts (I : identity) (j : embedding_job) (vs : list embedding) (text : string) : Prop :=
  j_state j = "pending"%string ∨ j_state j = "failed"%string
  ∨ j_state j = "done"%string ∧ (TrimSpace text = ""%string ∨ ∃ e, e ∈ vs ∧ identity_of_vector e = I).

Definition slot_accounted (I : identity) (x : slot) : Prop :=
  ∀ r, x.1.1 = Some r → live r = true → ∃ j, x.1.2 = Some j ∧ accounts I j x.2 (s_normalized r).
(** Every live message that is watched has a job that accounts for it. *)
Definition accounted (watched : string → Prop) (I : identity) (s : mstate) : Prop := ∀ id, watched id → slot_accounted I (slot_of s id).

Definition text_of (s : mstate) (id : string) : option string := s_normalized <$> ms_rows s !! id.

Section writers.
Context {tp : TimeParse} {rp : RawPayloads} {lx : Lexical}.

(** The messages that are [watched], and which of them are direct messages.
    Their writes queue embeddings, do not turn a direct message into one of a
    guild or back, and carry no deletion time that is blank once normalised.
    The writes of other messages are free. *)
Variables (watched : string → Prop) (direct : string → bool).
Definition enqueueing (m : MessageRecord) (o : WriteOptions) : Prop :=
  watched (r_ID m) →
  EnqueueEmbedding o = true ∧ (r_GuildID m =? "@me")%string = direct (r_ID m) ∧ (r_DeletedAt m = ""%string ∨ normalizeStoredTime (r_DeletedAt m) ≠ ""%string).

Definition mutation_enqueues (m : MessageMutation) : Prop := enqueueing (mm_Record m) (mm_Options m).
Inductive archive_step (s : mstate) : mstate → Prop :=
  | ArchiveBatch now cs ms : Forall mutation_enqueues ms → archive_step s (snd (upsertMessages now cs ms s))
  | ArchiveSingle now m o : enqueueing m o → archive_step s (snd (upsertMessageWithOptions now m o s))
  | ArchiveDelete now guild chan id event verify : archive_step s (snd (markMessageDeleted now guild chan id event verify s)).

Lemma archive_slots s s' : archive_step s s' → slots_step enqueueing s s'.
Proof.
  assert (Hsame : ∀ m o, enqueueing m o → ∀ r, r_ID r = r_ID m → r_GuildID r = r_GuildID m → r_DeletedAt r = r_DeletedAt m → enqueueing r o)
    by (unfold enqueueing; by intros m o Hm r -> -> ->).
  intros [now cs ms Hall|now m o Hm|now g c id ev v]; [|apply slots_single; by apply Hsame|apply slots_delete].
  apply slots_batch. rewrite Forall_forall in Hall. intros m Hm. apply Hsame. by apply Hall.
Qed.

Section slots.
Variables (I : identity) (id : string).

Definition at_home (x : slot) : Prop := ∀ r, x.1.1 = Some r → (s_guild r =? "@me")%string = direct id.
Hypothesis Hwatched : watched id.

Lemma pending_accounts (now : Z) (c : bool) (j : option embedding_job) (vs : list embedding) (text : string) : accounts I (pending_job now c j) vs text.
Proof. left. by destruct j. Qed.

Lemma slot_pending (row : option storedMessage) (now : Z) (c : bool) (j : option embedding_job) : slot_accounted I (row, Some (pending_job now c j), []).
Proof. intros r _ _. eexists. split; [done|]. apply pending_accounts. Qed.

Lemma slot_dead (row : option storedMessage) (job : option embedding_job) (vs : list embedding) : (∀ r, row = Some r → live r = false) → slot_accounted I (row, job, vs).
Proof. intros Hd r Hr Hl. rewrite (Hd r Hr) in Hl. done. Qed.

Lemma written_home now m row : s_guild (written_row now m row) = r_GuildID m.
Proof. unfold written_row. by destruct (text_parts_of m row). Qed.
Lemma written_deleted_of now m row : s_deleted (written_row now m row) = deleted_of m row.
Proof. unfold written_row. by destruct (text_parts_of m row). Qed.

Lemma write_slot_accounted now m o x :
  r_ID m = id → enqueueing m o → at_home x → slot_accounted I x → at_home (write_slot now m o x) ∧ slot_accounted I (write_slot now m o x).
Proof.
  intros Hid Hen Hh Hx. destruct Hen as (He & Hg & Hd); [by rewrite Hid|]. destruct x as [[row job] vs]. rewrite Hid in Hg.
  assert (Hhome : (s_guild (written_row now m row) =? "@me")%string = direct id) by (by rewrite written_home).
  unfold write_slot. set (changed := match slot_text _ with Some p => _ | None => _ end). rewrite He. cbn [negb andb]. rewrite andb_false_r.
  match goal with |- context [match MessageFTSRowID (r_ID m) with Some _ => _ | None => ?k end] => set (kept := k) end.
  assert (at_home kept ∧ slot_accounted I kept) as Hkept.
  { unfold kept. destruct (String.eqb_spec (r_GuildID m) "@me") as [Hme|Hme]; cbn [negb andb].
    - split; [by intros r [= <-]|]. apply slot_dead. intros r [= <-]. unfold live. rewrite written_home, Hme. by rewrite andb_false_r.
    - destruct row as [st|], job as [j|]; try (split; [by intros r [= <-]|apply slot_pending]).
      destruct changed eqn:Ech; [split; [by intros r [= <-]|apply slot_pending]|]. split; [by intros r [= <-]|].
      intros r [= <-] Hl. cbn [fst snd] in *. unfold changed in Ech. cbn in Ech. propify. destruct (Hx st eq_refl) as (j' & [= <-] & Ha).
      { unfold live in *. rewrite written_home, written_deleted_of in Hl. propify. rewrite (Hh st eq_refl), <- Hg. apply andb_true_iff. split; [|done].
        apply String.eqb_eq. revert H. unfold deleted_of. by destruct (String.eqb_spec (normalizeStoredTime (r_DeletedAt m)) ""). }
      exists j. split; [done|]. rewrite written_text, <- Ech. done. }
  destruct (MessageFTSRowID (r_ID m)); [|exact Hkept]. destruct (String.eqb_spec (r_DeletedAt m) "") as [E|E]; cbn [negb]; [exact Hkept|].
  destruct Hd as [Hd|Hd]; [done|]. split; [by intros r [= <-]|]. apply slot_dead. intros r [= <-]. unfold live. rewrite written_deleted_of. unfold deleted_of.
  apply String.eqb_neq in Hd. by rewrite Hd, Hd.
Qed.

Lemma slot_step_accounted x y :
  slot_step enqueueing id x y → at_home x → slot_accounted I x → at_home y ∧ slot_accounted I y.
Proof.
  intros [now m o z Hid Hp Hw|now|now|Hd] Hh Hx.
  - destruct Hw as [|st Hst _|]; [done| |by apply write_slot_accounted]. destruct x as [[row job] vs]. cbn in Hst. subst row. unfold refresh_slot.
    destruct job as [j|]; [done|]. destruct (_ && _); [|done]. split; [by intros r [= <-]; apply Hh|apply slot_pending].
  - destruct x as [[[r|] job] vs]; [|done]. split; [intros r' [= <-]; by apply (Hh r)|]. intros r' [= <-] Hl. by apply (Hx r).
  - split; [intros r; cbn; destruct x as [[[r0|] job] vs]; [|done]; intros [= <-]; by apply (Hh r0)|]. apply slot_dead. intros r.
    destruct x as [[[r0|] job] vs]; [|done]. intros [= <-]. unfold live. cbn. by rewrite timeLayout_nonempty.
  - split; [done|]. apply slot_dead. intros r Hr. unfold live. by rewrite (proj2 (String.eqb_neq _ _) (Hd r Hr)).
Qed.

(** A lease that is still there after a write is of a text that is too. *)
Definition slot_lease (x : slot) : string := match slot_job x with Some j => j_lease_token j | None => "" end.

Lemma slot_step_text x y :
  slot_step enqueueing id x y → direct id = false → slot_lease y ≠ ""%string → slot_text y = slot_text x.
Proof.
  intros [now m o z Hid Hen Hw|now|now|Hd] Hme Hl; [|by destruct x as [[[r|] job] vs]|done|done].
  destruct Hen as (He & Hg & _); [by rewrite Hid|].
  destruct x as [[row job] vs]. destruct Hw as [|st Hst _|]; [done| |].
  - cbn in Hst. subst row. unfold refresh_slot. destruct job; [done|]. by destruct (_ && _).
  - unfold write_slot in *. set (changed := match slot_text _ with Some p => _ | None => _ end) in *.
    rewrite He in *. rewrite Hid in Hg. rewrite Hg, Hme in *. cbn [negb andb] in *. rewrite andb_false_r in *.
    assert (Hp : ∀ v, slot_lease (Some (written_row now m row), Some (pending_job now (EmbeddingCatchUp o) job), v) = ""%string) by (intros v; apply pending_lease).
    destruct row as [st|], job as [j|]; try (exfalso; destruct (MessageFTSRowID (r_ID m)), (r_DeletedAt m =? "")%string; by rewrite ?Hp in Hl).
    destruct changed eqn:Ech; [exfalso; destruct (MessageFTSRowID (r_ID m)), (r_DeletedAt m =? "")%string; by rewrite ?Hp in Hl|].
    unfold changed in Ech. cbn in Ech. propify. destruct (MessageFTSRowID (r_ID m)), (r_DeletedAt m =? "")%string; cbn; by rewrite written_text, Ech.
Qed.
End slots.

Lemma archive_accounted I s s' :
  archive_step s s' → (∀ id, watched id → at_home id (slot_of s id)) → accounted watched I s →
  (∀ id, watched id → at_home id (slot_of s' id)) ∧ accounted watched I s'.
Proof.
  intros Hs%archive_slots Hh Ha. assert (∀ id, watched id → at_home id (slot_of s' id) ∧ slot_accounted I (slot_of s' id)) as H; [|split; intros id Hid; by apply H].
  intros id Hid. specialize (Hs id). specialize (Hh id Hid). specialize (Ha id Hid). induction Hs as [|x y z Hxy _ IH]; [done|].
  destruct (slot_step_accounted I id Hid _ _ Hxy Hh Ha). by apply IH.
Qed.

Lemma archive_texts s s' id :
  archive_step s s' → watched id → direct id = false → lease_of s' id ≠ ""%string → lease_of s' id = lease_of s id ∧ text_of s' id = text_of s id.
Proof.
  intros Hs%archive_slots Hid Hme. specialize (Hs id).
  change (lease_of s' id) with (slot_lease (slot_of s' id)). change (lease_of s id) with (slot_lease (slot_of s id)).
  change (text_of s' id) with (slot_text (slot_of s' id)). change (text_of s id) with (slot_text (slot_of s id)).
  induction Hs as [|x y z Hxy _ IH]; [done|]. intros Hl. destruct (IH Hl) as [-> ->].
  assert (slot_lease y ≠ ""%string) as Hy by (intros E; destruct (IH Hl) as [Hz _]; congruence).
  split; [|by eapply slot_step_text]. unfold slot_lease in *. destruct (slot_step_lease _ _ _ _ Hxy) as [->|E]; [done|]. by destruct (slot_job y).
Qed.
End writers.

Section worker.
Context `{EmbedLib} `{ErrorReport}.
Variables (Answers : identity → string → vector → Prop) (I : identity) (watched : string → Prop) (direct : string → bool).
Abbreviation accounted := (accounted watched I).

(** ** The steps of the worker on a slot *)

Lemma accounted_one s s' id :
  (∀ i, i ≠ id → slot_of s' i = slot_of s i) → (watched id → slot_accounted I (slot_of s' id)) → accounted s → accounted s'.
Proof. intros Ho Hi Ha i Hw. destruct (decide (i = id)) as [->|Hne]; [by apply Hi|]. rewrite Ho by done. by apply Ha. Qed.

Lemma slot_on_job f id s i : slot_of (on_job f id s) i = if decide (i = id) then (ms_rows s !! i, f <$> ms_jobs s !! i, vectors s i) else slot_of s i.
Proof. unfold slot_of. cbn. case_decide as E; [subst; by rewrite lookup_alter_eq|by rewrite lookup_alter_ne]. Qed.
Lemma slot_delete_job id s i : slot_of (delete_job id s) i = if decide (i = id) then (ms_rows s !! i, None, vectors s i) else slot_of s i.
Proof. unfold slot_of. cbn. case_decide as E; [subst; by rewrite lookup_delete_eq|by rewrite lookup_delete_ne]. Qed.
Lemma slot_upsert id e s i : slot_of (upsertEmbedding id e s) i = if decide (i = id) then (ms_rows s !! i, ms_jobs s !! i, put_embedding e (vectors s i)) else slot_of s i.
Proof. unfold slot_of. rewrite vectors_upsert. case_decide as E; [by subst|done]. Qed.

(** A job that gains no promise. *)
Definition modest (f : embedding_job → embedding_job) : Prop :=
  ∀ j, j_state (f j) = j_state j ∨ j_state (f j) = "pending"%string ∨ j_state (f j) = "failed"%string.

Lemma modest_accounts f j vs text : modest f → accounts I j vs text → accounts I (f j) vs text.
Proof. intros Hf. unfold accounts. destruct (Hf j) as [->|[->| ->]]; auto. Qed.

Lemma accounted_job f id s : modest f → accounted s → accounted (on_job f id s).
Proof.
  intros Hf Ha. apply (accounted_one s _ id); [intros i Hi; by rewrite slot_on_job, decide_False| |done]. rewrite slot_on_job, decide_True by done.
  intros Hw r Hr Hl. destruct (Ha id Hw r Hr Hl) as (j & Hj & Hacc). cbn in *. rewrite Hj. exists (f j). split; [done|]. by apply modest_accounts.
Qed.

Lemma accounted_fmap f s : modest f → accounted s → accounted (with_jobs (f <$> ms_jobs s) s).
Proof.
  intros Hf Ha id Hw r Hr Hl. destruct (Ha id Hw r Hr Hl) as (j & Hj & Hacc). cbn in *. rewrite lookup_fmap, Hj. exists (f j). split; [done|]. by apply modest_accounts.
Qed.

(** A job that is done, with its reason. *)
Lemma accounted_done f id vs s s' :
  (∀ i, i ≠ id → slot_of s' i = slot_of s i) → slot_of s' id = (ms_rows s !! id, f <$> ms_jobs s !! id, vs) → (∀ j, j_state (f j) = "done"%string) →
  (watched id → ∀ r, ms_rows s !! id = Some r → live r = true → TrimSpace (s_normalized r) = ""%string ∨ ∃ e, e ∈ vs ∧ identity_of_vector e = I) →
  accounted s → accounted s'.
Proof.
  intros Ho Hs Hd Hwhy Ha. apply (accounted_one s _ id); [done| |done]. rewrite Hs. intros Hw r Hr Hl. cbn [fst snd] in *.
  destruct (Ha id Hw r Hr Hl) as (j & Hj & _). cbn in Hj. rewrite Hj. exists (f j). split; [done|]. right. right. split; [apply Hd|by apply Hwhy].
Qed.

Lemma accounted_move o s s' : identity_of o = I → drain_move Answers o s s' → accounted s → accounted s'.
Proof.
  intros HI [id now b|id now|id now e|id now st n e Hn Hst|id now text Ht Hb|id now e text Ht He Hi] Ha.
  - apply accounted_job; [by left|done].
  - apply accounted_job; [by left|done].
  - apply accounted_job; [right; by left|done].
  - apply accounted_job; [intros j; right; destruct Hst as [-> | ->]; auto|done].
  - apply (accounted_done (empty_done_job o now) id [] s); [intros i Hne|by rewrite slot_on_job, decide_True, vectors_delete, decide_True by done|done| |done].
    + by rewrite slot_on_job, decide_False, slot_discard, decide_False.
    + intros _ r Hr _. left. apply live_row in Ht as (r' & Hr' & _ & <-). congruence.
  - apply (accounted_done (done_job o now) id (put_embedding e (vectors s id)) s); [intros i Hne|by rewrite slot_on_job, decide_True, vectors_upsert, decide_True by done|done| |done].
    + by rewrite slot_on_job, decide_False, slot_upsert, decide_False.
    + intros _ r _ _. right. exists e. split; [apply put_embedding_there|congruence].
Qed.

Lemma accounted_moves o s s' : identity_of o = I → rtc (drain_move Answers o) s s' → accounted s → accounted s'.
Proof. intros HI. induction 1 as [|x y z Hm _ IH]; [done|]. intros Ha. apply IH. by eapply accounted_move. Qed.

Lemma accounted_requeue clock opts d n d' : RequeueAllEmbeddingJobs clock opts d = (n, d') → accounted (d_store d) → accounted (d_store d').
Proof.
  unfold RequeueAllEmbeddingJobs. cbn [read_clock]. intros [= _ <-]. cbn. generalize (List.filter (λ id, match live_text (d_store d) id with Some _ => true | None => false end) (elements (dom (ms_rows (d_store d))))) as ids.
  intros ids. generalize (d_store d) as s. induction ids as [|id ids IH]; intros s Ha; [done|]. cbn. apply IH. unfold requeue_row.
  destruct (live_text s id); [|done]. apply (accounted_one s _ id); [intros i Hne; unfold slot_of; cbn; by rewrite lookup_insert_ne| |done].
  intros _ r Hr Hl. cbn in *. rewrite lookup_insert_eq. eexists. split; [done|]. by left.
Qed.

Lemma accounted_complete o c r now s :
  identity_of o = I → (watched (w_Key c) → effective c now s = true → wr_valid r = true → wr_empty r = true → ∀ row, ms_rows s !! w_Key c = Some row → TrimSpace (s_normalized row) = ""%string) →
  accounted s → accounted (Complete o c r now s).2.
Proof.
  intros HI Hblank Ha. unfold effective in Hblank. unfold Complete. destruct (ms_jobs s !! w_Key c) as [j|] eqn:Ej; [|done]. destruct (holds _ _ _); cbn [negb]; [|done].
  specialize (λ Hw, Hblank Hw eq_refl) as Hblank'. clear Hblank. rename Hblank' into Hblank. set (s1 := on_job _ _ s). assert (Hrows : ms_rows s1 = ms_rows s) by done.
  assert (Ho : ∀ i, i ≠ w_Key c → slot_of s1 i = slot_of s i) by (intros i Hi; unfold s1; by rewrite slot_on_job, decide_False).
  assert (Hlive : ∀ row, ms_rows s !! w_Key c = Some row → live row = true → live_text s1 (w_Key c) = Some (s_normalized row)) by (intros row Hr Hl; unfold live_text; by rewrite Hrows, Hr, Hl).
  destruct (live_text s1 (w_Key c)) as [current|] eqn:El; cbn [snd].
  2:{ apply (accounted_one s _ (w_Key c)); [intros i Hi; by rewrite slot_discard, decide_False, slot_delete_job, decide_False, Ho| |done].
      intros _ row Hr Hl. exfalso. cbn in Hr. by specialize (Hlive row Hr Hl). }
  destruct (negb (wr_valid r) || _) eqn:Ec; cbn [snd].
  { apply (accounted_one s _ (w_Key c)); [intros i Hi; by rewrite slot_discard, decide_False, slot_on_job, decide_False, Ho| |done].
    rewrite slot_discard, decide_True by done. intros _ row Hr Hl. cbn. rewrite lookup_alter_eq. unfold s1. cbn. rewrite lookup_alter_eq, Ej. cbn. eexists. split; [done|]. by left. }
  apply orb_false_iff in Ec as [Hv%negb_false_iff _].
  destruct (wr_empty r) eqn:Ee; cbn [snd].
  - apply (accounted_done (completed_job (timeLayout now)) (w_Key c) [] s); [intros i Hi; by rewrite slot_discard, decide_False, Ho| |done| |done].
    + rewrite slot_discard, decide_True by done. unfold s1. cbn. by rewrite lookup_alter_eq.
    + intros Hw row Hr _. left. by apply Hblank.
  - apply (accounted_done (completed_job (timeLayout now)) (w_Key c) (put_embedding (result_embedding o (timeLayout now) r) (vectors s (w_Key c))) s);
      [intros i Hi; by rewrite slot_upsert, decide_False, Ho| |done| |done].
    + rewrite slot_upsert, decide_True by done. unfold s1. cbn. by rewrite lookup_alter_eq.
    + intros _ row _ _. right. eexists. split; [apply put_embedding_there|]. by rewrite <- HI.
Qed.

Lemma accounted_claim o req tokens s jobs s' : claimed o req tokens s jobs s' → accounted s → accounted s'.
Proof.
  intros Hcl Ha id Hw r Hr Hl. cbn in *. unfold slot_of, vectors in *. rewrite (cl_rows _ _ _ _ _ _ Hcl) in Hr. rewrite (cl_embeddings _ _ _ _ _ _ Hcl).
  destruct (Ha id Hw r Hr Hl) as (j & Hj & Hacc). cbn in *. destruct (decide (id ∈ w_Key <$> jobs)) as [(w & -> & Hin)%list_elem_of_fmap|Hno].
  - destruct (cl_ready _ _ _ _ _ _ Hcl w Hin) as (j' & Hj' & _ & _ & _ & ->). eexists. split; [done|]. assert (j' = j) as -> by congruence. exact Hacc.
  - rewrite (cl_other _ _ _ _ _ _ Hcl) by done. eauto.
Qed.

(** ** The invariant *)

Record account_ok (w : wstate) : Prop := {
  ac_queue : queue_ok Answers w;
  ac_home id r : watched id → ms_rows (ws_store w) !! id = Some r → (s_guild r =? "@me")%string = direct id;
  ac_jobs : accounted (ws_store w);
  ac_tokens x id : x ∈ seen w → lease_of x id ≠ ""%string → lease_of x id ∈ (w_Token <$> ws_claims w);
  (** a lease that has not ended is of the text it was given for *)
  ac_texts x id : watched id → x ∈ seen w → lease_of (ws_store w) id ≠ ""%string → lease_of x id = lease_of (ws_store w) id → text_of x id = text_of (ws_store w) id;
  ac_lease id : watched id → lease_of (ws_store w) id ≠ ""%string → direct id = false;
  ac_results o c r : (o, c, r) ∈ ws_results w → identity_of o = I ∧
    (wr_valid r = true → ∃ x text, x ∈ seen w ∧ text_of x (w_Key c) = Some text ∧ lease_of x (w_Key c) = w_Token c ∧ wr_empty r = (TrimSpace text =? "")%string) }.

Lemma live_text_of s id text : live_text s id = Some text → text_of s id = Some text.
Proof. intros (r & Hr & _ & <-)%live_row. unfold text_of. by rewrite Hr. Qed.

Lemma account_advance s w w' :
  account_ok w → queue_ok Answers w' → ws_store w' = s → ws_past w' = seen w → ws_claims w' = ws_claims w → ws_results w' = ws_results w →
  (∀ id r, watched id → ms_rows s !! id = Some r → (s_guild r =? "@me")%string = direct id) → accounted s →
  (∀ id, lease_of s id ≠ ""%string → lease_of s id = lease_of (ws_store w) id ∧ (watched id → direct id = false → text_of s id = text_of (ws_store w) id)) →
  account_ok w'.
Proof.
  intros Ha Hq Es Ep Ec Er Hh Hacc Hl. unfold seen in *.
  assert (Hold : ∀ id, lease_of s id ≠ ""%string → lease_of (ws_store w) id ≠ ""%string ∧ lease_of s id = lease_of (ws_store w) id
      ∧ (watched id → direct id = false ∧ text_of s id = text_of (ws_store w) id)).
  { intros id Hid. destruct (Hl id Hid) as [E Ht]. assert (lease_of (ws_store w) id ≠ ""%string) as Hne by (by rewrite <- E).
    split_and!; [done..|]. intros Hw. pose proof (ac_lease w Ha id Hw Hne). auto. }
  split; unfold seen; rewrite ?Es, ?Ep, ?Ec, ?Er; [done..| | | |].
  - intros x id [->|Hx]%elem_of_cons Hne; [|by apply (ac_tokens w Ha)]. destruct (Hold id Hne) as (Hne' & -> & _). apply (ac_tokens w Ha); [by left|done].
  - intros x id Hw [->|Hx]%elem_of_cons Hne Heq; [done|]. destruct (Hold id Hne) as (Hne' & E & Ht). destruct (Ht Hw) as [_ ->]. apply (ac_texts w Ha); [done..|]. by rewrite <- E.
  - intros id Hw Hne. by apply (Hold id Hne).
  - intros o c r Hr. destruct (ac_results w Ha o c r Hr) as [HI Hv]. split; [done|]. intros Hval. destruct (Hv Hval) as (x & text & Hx & ?). exists x, text. split; [by right|done].
Qed.

(** The worker's own steps leave the rows alone. *)
Lemma account_rows s w w' :
  account_ok w → queue_ok Answers w' → ws_store w' = s → ws_past w' = seen w → ws_claims w' = ws_claims w → ws_results w' = ws_results w →
  ms_rows s = ms_rows (ws_store w) → no_lease (ws_store w) s → accounted s → account_ok w'.
Proof.
  intros Ha Hq Es Ep Ec Er Hrows Hl Hacc. eapply account_advance; [exact Ha|done..| |done|].
  - rewrite Hrows. apply (ac_home w Ha).
  - intros id Hne. destruct (Hl id) as [E|]; [|done]. split; [done|]. intros _ _. unfold text_of. by rewrite Hrows.
Qed.

Lemma complete_rows o c r now s : ms_rows (Complete o c r now s).2 = ms_rows s.
Proof. unfold Complete. destruct (ms_jobs s !! w_Key c); [|done]. destruct (negb _); [done|]. cbv zeta. destruct (live_text _ _); [|done]. destruct (_ || _); [done|]. by destruct (wr_empty r). Qed.
Lemma settle_rows c now f s : ms_rows (settle c now f s).2 = ms_rows s.
Proof. unfold settle. destruct (ms_jobs s !! w_Key c); [|done]. by destruct (holds _ _ _). Qed.
Lemma accounted_settle c now f s : modest f → accounted s → accounted (settle c now f s).2.
Proof. intros Hf Ha. unfold settle. destruct (ms_jobs s !! w_Key c); [|done]. destruct (holds _ _ _); [|done]. by apply accounted_job. Qed.

Lemma requeue_rows clock opts d n d' : RequeueAllEmbeddingJobs clock opts d = (n, d') → ms_rows (d_store d') = ms_rows (d_store d).
Proof.
  unfold RequeueAllEmbeddingJobs. cbn [read_clock]. intros [= _ <-]. cbn. generalize (List.filter (λ id, match live_text (d_store d) id with Some _ => true | None => false end) (elements (dom (ms_rows (d_store d))))) as ids.
  intros ids. generalize (d_store d) as s. induction ids as [|id ids IH]; intros s; [done|]. cbn. rewrite IH. unfold requeue_row. by destruct (live_text s id).
Qed.

Lemma recover_modest : modest recovered_job.
Proof. intros j. left. unfold recovered_job. by destruct (_ && _). Qed.
Lemma retry_modest r : modest (retried_job r).
Proof. intros j. right. cbn. destruct (rt_Permanent r); auto. Qed.

Lemma account_claim o req tokens jobs s w :
  account_ok w → claimed o req tokens (ws_store w) jobs s → fresh_tokens tokens (ws_claims w) → account_ok (with_claims jobs (advance s w)).
Proof.
  intros Ha Hcl Hf. pose proof (ac_queue w Ha) as Hq.
  destruct (claimed_tokens _ _ _ _ _ _ _ Hcl Hf (proj1 (q_tokens Answers w Hq))) as [_ Hfresh].
  assert (Htext : ∀ id, text_of s id = text_of (ws_store w) id) by (intros id; unfold text_of; by rewrite (cl_rows _ _ _ _ _ _ Hcl)).
  assert (Hcase : ∀ id, (∃ c, c ∈ jobs ∧ w_Key c = id ∧ lease_of s id = w_Token c) ∨ lease_of s id = lease_of (ws_store w) id).
  { intros id. destruct (decide (id ∈ w_Key <$> jobs)) as [(c & -> & Hc)%list_elem_of_fmap|Hno];
      [left; exists c; split_and!; [done..|by eapply claimed_lease]|right; by eapply claimed_other_lease]. }
  split; unfold seen; cbn [ws_store ws_past ws_claims ws_results with_claims advance]; fold (seen w).
  - by eapply queue_claim.
  - intros id r. rewrite (cl_rows _ _ _ _ _ _ Hcl). apply (ac_home w Ha).
  - eapply accounted_claim; [done|by apply ac_jobs].
  - intros x id [->|Hx]%elem_of_cons Hne; rewrite fmap_app; apply elem_of_app; [|left; by apply (ac_tokens w Ha)].
    destruct (Hcase id) as [(c & Hc & _ & ->)|E]; [right; by apply list_elem_of_fmap_2|left]. rewrite E in Hne |- *. apply (ac_tokens w Ha); [by left|done].
  - intros x id Hw [->|Hx]%elem_of_cons Hne Heq; [done|]. rewrite Htext. destruct (Hcase id) as [(c & Hc & _ & E)|E].
    + exfalso. destruct (Hfresh c Hc) as [Hct Hnew]. apply Hnew. rewrite <- E, <- Heq. apply (ac_tokens w Ha); [done|]. by rewrite Heq.
    + rewrite E in Hne, Heq. by apply (ac_texts w Ha).
  - intros id Hw Hne. destruct (Hcase id) as [(c & Hc & <- & _)|E]; [|rewrite E in Hne; by apply (ac_lease w Ha)].
    destruct (cl_ready _ _ _ _ _ _ Hcl c Hc) as (j & _ & _ & Hr & _). unfold ready in Hr. apply andb_true_iff in Hr as [_ Hr].
    destruct (live_text (ws_store w) (w_Key c)) as [text|] eqn:El; [|done]. apply live_row in El as (r & Hr' & Hl & _).
    rewrite <- (ac_home w Ha _ _ Hw Hr'). unfold live in Hl. propify. by apply String.eqb_neq.
  - intros o' c r Hr. destruct (ac_results w Ha o' c r Hr) as [HI Hv]. split; [done|]. intros Hval. destruct (Hv Hval) as (x & text & Hx & ?). exists x, text. split; [by right|done].
Qed.

Lemma account_step `{TimeParse} `{RawPayloads} `{Lexical} w w' :
  worker_step Answers (archive_step watched direct) (λ o, identity_of o = I) w w' → account_ok w → account_ok w'.
Proof.
  intros Hstep Ha. pose proof (ac_queue w Ha) as Hq. pose proof (q_store Answers w Hq) as Hok.
  assert (Hq' : queue_ok Answers w').
  { eapply queue_step; [|exact Hstep|exact Hq]. intros s s' Hs%archive_slots Hs'. split; [by eapply slot_steps_ok|by eapply slots_no_lease]. }
  destruct Hstep.
  - destruct (archive_accounted watched direct I _ _ H4) as [Hh Hacc]; [intros id Hid r; by apply (ac_home w Ha)|by apply ac_jobs|].
    eapply account_advance; [exact Ha|done..|intros id r Hid; by apply Hh|done|].
    intros id Hne. destruct (slots_no_lease _ _ _ (archive_slots _ _ _ _ H4) id) as [E|]; [|done]. split; [done|]. intros Hid Hm. by eapply archive_texts.
  - eapply account_rows; [exact Ha|done..|exact (proj2 (restart_ok Answers _ Hok))|]. apply accounted_fmap; [apply recover_modest|by apply ac_jobs].
  - eapply account_claim; [done|by apply claim_spec|done].
  - split; try apply Ha; [done|]. cbn. intros o' c r [Hr|Hr]%elem_of_app; [by apply (ac_results w Ha)|]. apply list_elem_of_fmap in Hr as ([c' r'] & [= -> -> ->] & Hin).
    split; [done|]. intros Hv. destruct (processed Answers _ _ _ _ _ _ _ _ H5 H8 Hin) as (_ & _ & Hp). destruct (Hp Hv) as (i & text & j & Hl & Hj & Htok & _ & He).
    exists (at_read i), text. split_and!; [apply H7|by apply live_text_of| |done]. unfold lease_of. by rewrite Hj.
  - destruct (q_results Answers w Hq _ _ _ H4) as [Hc _]. destruct (ac_results w Ha _ _ _ H4) as [HI Hr].
    eapply account_rows; [exact Ha|done..|apply complete_rows|apply complete_settles|]. apply accounted_complete; [done| |by apply ac_jobs].
    intros Hid Heff%effective_lease Hv He row Hrow. destruct (Hr Hv) as (x & text & Hx & Ht & Hlx & Hem). rewrite He in Hem. symmetry in Hem. apply String.eqb_eq in Hem.
    assert (text_of x (w_Key c) = text_of (ws_store w) (w_Key c)) as E.
    { apply (ac_texts w Ha); [done|done| |congruence]. rewrite Heff. by apply (proj2 (q_tokens Answers w Hq)). }
    rewrite E in Ht. unfold text_of in Ht. rewrite Hrow in Ht. injection Ht as <-. done.
  - eapply account_rows; [exact Ha|done..|apply settle_rows|apply settle_settles; by intros j|]. apply accounted_settle; [apply retry_modest|by apply ac_jobs].
  - eapply account_rows; [exact Ha|done..|apply settle_rows|apply settle_settles; by intros j|]. apply accounted_settle; [by left|by apply ac_jobs].
  - pose proof (requeue_rows _ _ _ _ _ H5) as Hrows. pose proof (accounted_requeue _ _ _ _ _ H5 (ac_jobs w Ha)) as Hacc. apply (requeue_ok Answers) in H5 as [_ Hl]; [|done].
    by eapply account_rows; [exact Ha|..].
Qed.

Lemma started_account s :
  store_ok Answers s → unleased s → (∀ id r, watched id → ms_rows s !! id = Some r → (s_guild r =? "@me")%string = direct id) → accounted s →
  account_ok (started s).
Proof.
  intros Hs Hl Hd Ha. split; cbn; [by apply started_ok|done..| | | |].
  - intros x id ->%list_elem_of_singleton. by rewrite Hl.
  - intros x id _ ->%list_elem_of_singleton. done.
  - intros id. by rewrite Hl.
  - by intros o' c r ?%elem_of_nil.
Qed.

(** A transaction of a drain. *)
Lemma account_commit o s w :
  account_ok w → identity_of o = I → rtc (drain_move Answers o) (ws_store w) s → account_ok (advance s w).
Proof.
  intros Ha HI Hm. pose proof (ac_queue w Ha) as Hq. pose proof (move_rows Answers _ _ _ Hm) as Hrows. destruct (drain_moves_ok _ _ _ _ Hm (q_store Answers w Hq)).
  eapply account_rows; [exact Ha|by apply queue_advance|done..|]. eapply accounted_moves; [exact HI|exact Hm|by apply ac_jobs].
Qed.

Lemma account_system `{TimeParse} `{RawPayloads} `{Lexical} x y :
  system_step Answers (archive_step watched direct) (λ o, identity_of o = I) x y →
  system_ok Answers (λ o, identity_of o = I) x → account_ok (sy_worker x) → account_ok (sy_worker y).
Proof.
  intros [w _ Hw|w Hw _|clock provider opts l tick e st d _ _ _ _|f fs Hfs|fs _] Hx Ha; [by eapply account_step..|done| |done].
  destruct (sy_plan _ _ _ Hx _ Hfs) as (o & HI & Hm & _). by eapply account_commit.
Qed.
End worker.

(** ** Property *)

(** C18: the queue accounts for every message whose own writes queue
    embeddings. Take any set of messages whose every write has
    [EnqueueEmbedding], leaves a direct message one and a guild message one, and
    names no deletion time that is blank once normalised; other messages are
    written in any way. Let every worker and drain use the provider, model and
    input version of [o], and let drains hold the sync lock. Then however writes,
    deletions, claims, completions of stale or blank reads, retries and restarts
    interleave, and after each transaction of a drain, each message of the set
    that is not deleted and not a direct message has a job, and its job is done
    only if its text is blank now or has its vector for [o]. *)
Theorem queue_accounts_for_messages `{EmbedLib} `{ErrorReport} `{TimeParse} `{RawPayloads} `{Lexical}
    (Answers : identity → string → vector → Prop) (watched : string → Prop) (direct : string → bool) (o : EmbeddingDrainOptions) (s : mstate) (x : system)
    (Hstore : store_ok Answers s) (Hleases : unleased s)
    (Hdirect : ∀ id r, watched id → ms_rows s !! id = Some r → (s_guild r =? "@me")%string = direct id)
    (Haccounted : accounted watched (identity_of o) s)
    (Hrun : rtc (system_step Answers (archive_step watched direct) (λ o', identity_of o' = identity_of o)) (idle s) x) :
  accounted watched (identity_of o) (ws_store (sy_worker x)).
Proof.
  apply (ac_jobs Answers _ watched direct). assert (account_ok Answers (identity_of o) watched direct (started s)) as Hok by by apply started_account.
  assert (system_ok Answers (λ o', identity_of o' = identity_of o) (idle s)) as Hsys by (split; [apply Hok|done]).
  change (started s) with (sy_worker (idle s)) in Hok. revert Hok Hsys. clear -Hrun. induction Hrun as [|x y z Hxy _ IH]; [done|]. intros Hok Hsys.
  apply IH; [by eapply account_system|]. eapply system_ok_step; [|exact Hxy|exact Hsys]. intros s1 s2 Hs%archive_slots Hs1.
  split; [by eapply slot_steps_ok|by eapply slots_no_lease].
Qed.

(** ** Witness *)

Section witness.
#[local] Existing Instance parse_written.
#[local] Existing Instance plain_payloads.
#[local] Existing Instance no_languages.

Definition all_watched (_ : string) : Prop := True.
Definition no_direct (_ : string) : bool := false.
Lemma first_archive : archive_step all_watched no_direct empty_mstate one_message.
Proof. apply (ArchiveBatch all_watched no_direct empty_mstate 3 ∅ [first_version]). repeat constructor. Qed.

Lemma queue_accounts_for_messages_witness :
  live_text (ws_store w_completed) "10" = Some "hello"%string ∧ accounted all_watched (identity_of live_options) (ws_store w_completed).
Proof.
  split; [by vm_compute|].
  refine (queue_accounts_for_messages byte_answers all_watched no_direct live_options empty_mstate (mkSystem w_completed None) (empty_ok _) empty_unleased _ _
    (completed_run _ _ first_archive eq_refl)); [intros id r _ Hr; by destruct (eq_None_not_Some (ms_rows empty_mstate !! id))|intros id _ r Hr; done].
Defined.

(** Without the hypothesis on the writers a message can drop out: an edit
    written without queueing discards the vector and leaves the job done, and a
    later write that does queue embeddings finds the text unchanged and a job
    there, and queues nothing. *)
Definition with_queueing (b : bool) (m : MessageMutation) : MessageMutation :=
  let o := mm_Options m in
  mkMessageMutation (mm_Record m) (mm_EventType m) (mm_PayloadJSON m)
    (mkWriteOptions (ObservationStartedAt o) (ScopePolicy o) (AppendEvent o) b (EmbeddingCatchUp o) (PreserveNewer o) (DeduplicateEvent o))
    (mm_Attachments m) (mm_Mentions m).
Example unqueued_edit_drops_out :
  let s1 := snd (upsertMessages 200 ∅ [with_queueing false edited_version] (ws_store w_completed)) in
  let s2 := snd (upsertMessages 210 ∅ [with_queueing true edited_version] s1) in
  live_text s2 "10" = Some "edited"%string ∧ vectors s2 "10" = [] ∧ j_state <$> ms_jobs s2 !! "10"%string = Some "done"%string ∧ EmbeddingBacklog s2 = 0.
Proof. by vm_compute. Qed.
End witness.
