(* ===== verification/EmbeddingLiveness.v ===== *)
(** * The embedding queue makes progress

    With a provider that answers: one pass of the worker (claim, process,
    complete within the lease) leaves no due work of its class, and a one-shot
    drain leaves no backlog. *)
From S2P Require Import Prelude GoTime GoText Errors ChannelScope FailureLedger Rows Receipts Attachments Mentions MessageWrite MessageSafety Runes Embeddings EmbeddingSlots EmbeddingSafety EmbeddingAccount.
Local Open Scope Z_scope.

Section progress.
Context `{EmbedLib} `{ErrorReport}.

(** The provider answers every batch with vectors that can be stored. *)
Definition serves (embed : list string → EmbeddingBatch + err) : Prop :=
  ∀ inputs, ∃ b d, embed inputs = inl b ∧ validateEmbeddingBatch b (length inputs) = inl d ∧ Forall (λ v, ∃ blob, EncodeFloat32 v = inl blob) (Vectors b).

(** ** A pass of the worker *)

(** The completions of a batch, in order, and what each returned. *)
Fixpoint complete_all (o : EmbeddingDrainOptions) (now : Z) (rs : list (work_job * embeddingWorkResult)) (s : mstate) : list bool * mstate :=
  match rs with
  | [] => ([], s)
  | (c, r) :: rest =>
      let '(ok, s) := Complete o c r now s in
      let '(oks, s) := complete_all o now rest s in (ok :: oks, s)
  end.

Definition worker_pass (o : EmbeddingDrainOptions) (req : ClaimRequest) (tokens : nat → string) (embed : list string → EmbeddingBatch + err) (now : Z) (s : mstate)
    : option (list work_job * list bool * mstate) :=
  match Claim o req tokens s with
  | inr _ => None
  | inl (jobs, s) =>
      match process o embed now (λ _, s) jobs with
      | inr _ => None
      | inl rs => let '(oks, s) := complete_all o now (zip jobs rs) s in Some (jobs, oks, s)
      end
  end.

(** A message that is embedded for [o]: done, with a vector or a blank text. *)
Definition embedded (o : EmbeddingDrainOptions) (s : mstate) (id : string) : Prop :=
  ∃ j text, ms_jobs s !! id = Some j ∧ j_state j = "done"%string ∧ live_text s id = Some text
  ∧ (TrimSpace text = ""%string ∨ ∃ e, e ∈ vectors s id ∧ identity_of_vector e = identity_of o).

Lemma fill_total d reads vs :
  length vs = length (omap snd reads) → Forall (λ v, ∃ blob, EncodeFloat32 v = inl blob) vs → ∃ rs, fill_results d reads vs = inl rs.
Proof.
  revert vs. induction reads as [|[r [x|]] reads IH]; intros vs Hl Hv; cbn [fill_results]; [eauto| |].
  - destruct vs as [|v vs]; [done|]. apply Forall_cons in Hv as [[blob Hb] Hv]. unfold EncodeEmbeddingVector. rewrite Hb.
    destruct (IH vs) as [rs ->]; [by injection Hl|done|eauto].
  - destruct (IH vs) as [rs ->]; [done..|eauto].
Qed.

Lemma process_total o embed now at_read jobs : serves embed → ∃ rs, process o embed now at_read jobs = inl rs.
Proof.
  intros Hs. unfold process. set (reads := imap _ jobs). destruct (omap snd reads) as [|x xs] eqn:E; [eauto|]. rewrite <- E.
  destruct (Hs (omap snd reads)) as (b & d & -> & Hv & Hb). rewrite Hv. apply validated in Hv as [Hl _]. by apply fill_total.
Qed.

(** A completion under a lease of the text it was made from. *)
Lemma complete_current o c r now s j text :
  ms_jobs s !! w_Key c = Some j → holds c (timeLayout now) j = true → live_text s (w_Key c) = Some text →
  wr_valid r = true → wr_input r = capRunes text (do_MaxInputChars o) → wr_empty r = (TrimSpace text =? "")%string →
  (Complete o c r now s).1 = true ∧ embedded o (Complete o c r now s).2 (w_Key c)
  ∧ ms_rows (Complete o c r now s).2 = ms_rows s ∧ ∀ id, id ≠ w_Key c → slot_of (Complete o c r now s).2 id = slot_of s id.
Proof.
  intros Hj Hh Hl Hv Hi He. split_and!; [| |apply complete_rows|].
  - unfold Complete. rewrite Hj, Hh. cbn [negb]. rewrite (live_text_rows s (on_job _ _ s)), Hl by done. rewrite Hv, Hi, String.eqb_refl. cbn [negb orb]. by destruct (wr_empty r).
  - unfold Complete. rewrite Hj, Hh. cbn [negb]. rewrite (live_text_rows s (on_job _ _ s)), Hl by done. rewrite Hv, Hi, String.eqb_refl. cbn [negb orb].
    exists (completed_job (timeLayout now) j), text. rewrite He. destruct (String.eqb_spec (TrimSpace text) "") as [Ht|Ht]; cbn [snd].
    + split_and!; [cbn; by rewrite lookup_alter_eq, Hj|done|exact Hl|by left].
    + split_and!; [cbn; by rewrite lookup_alter_eq, Hj|done|exact Hl|]. right. eexists. rewrite vectors_upsert, decide_True by done. split; [apply put_embedding_there|done].
  - intros id Hne. unfold Complete. rewrite Hj, Hh. cbn [negb]. rewrite (live_text_rows s (on_job _ _ s)), Hl by done. rewrite Hv, Hi, String.eqb_refl. cbn [negb orb].
    destruct (wr_empty r); cbn [snd]; rewrite ?slot_discard, ?slot_upsert, decide_False, slot_on_job, decide_False; done.
Qed.

(** What is known of a claimed job and its result before it is completed. *)
Definition completable (o : EmbeddingDrainOptions) (now : Z) (s : mstate) (p : work_job * embeddingWorkResult) : Prop :=
  ∃ j text, ms_jobs s !! w_Key p.1 = Some j ∧ holds p.1 (timeLayout now) j = true ∧ live_text s (w_Key p.1) = Some text
  ∧ wr_valid p.2 = true ∧ wr_input p.2 = capRunes text (do_MaxInputChars o) ∧ wr_empty p.2 = (TrimSpace text =? "")%string.

Lemma slot_inv s s' id : slot_of s' id = slot_of s id → ms_jobs s' !! id = ms_jobs s !! id ∧ vectors s' id = vectors s id.
Proof. unfold slot_of. by intros (_ & -> & ->)%slot_inj. Qed.

Lemma embedded_frame o s s' id : ms_rows s' = ms_rows s → slot_of s' id = slot_of s id → embedded o s id → embedded o s' id.
Proof.
  intros Hr [Hj Hv]%slot_inv (j & text & H1 & H2 & H3 & H4). exists j, text. rewrite Hj, Hv, (live_text_rows _ _ _ Hr). done.
Qed.

Lemma complete_all_spec o now rs s :
  NoDup (w_Key <$> (fst <$> rs)) → Forall (completable o now s) rs →
  Forall (λ ok, ok = true) (complete_all o now rs s).1 ∧ Forall (λ p, embedded o (complete_all o now rs s).2 (w_Key p.1)) rs
  ∧ ms_rows (complete_all o now rs s).2 = ms_rows s ∧ ∀ id, id ∉ w_Key <$> (fst <$> rs) → slot_of (complete_all o now rs s).2 id = slot_of s id.
Proof.
  revert s. induction rs as [|[c r] rs IH]; intros s Hn Hc; [split_and!; [constructor..|done|done]|].
  rewrite !fmap_cons in *. apply NoDup_cons in Hn as [Hnew Hn]. apply Forall_cons in Hc as [(j & text & Hj & Hh & Hl & Hv & Hi & He) Hc]. cbn [fst snd] in *.
  destruct (complete_current o c r now s j text Hj Hh Hl Hv Hi He) as (Hok & Hem & Hr & Ho). cbn [complete_all].
  destruct (Complete o c r now s) as [ok s1]. cbn [fst snd] in *.
  assert (Hkeep : ∀ p, p ∈ rs → w_Key p.1 ≠ w_Key c) by (intros p Hp E; apply Hnew; rewrite <- E; by do 2 apply list_elem_of_fmap_2).
  destruct (IH s1 Hn) as (H1 & H2 & H3 & H4).
  { rewrite Forall_forall in *. intros p Hp. destruct (Hc p Hp) as (j' & text' & ? & ? & ? & ?). exists j', text'.
    destruct (slot_inv _ _ _ (Ho _ (Hkeep p Hp))) as [-> _]. by rewrite (live_text_rows _ _ _ Hr). }
  destruct (complete_all o now rs s1) as [oks s2]. cbn [fst snd] in *. split_and!.
  - by constructor.
  - constructor; [|done]. cbn. eapply embedded_frame; [exact H3|by apply H4|done].
  - congruence.
  - intros id Hid. rewrite not_elem_of_cons in Hid. destruct Hid. rewrite H4 by done. by apply Ho.
Qed.

Definition class_of (req : ClaimRequest) : Z := if c_CatchUp req then 0 else 1.
(** The rows a claim may take. *)
Definition due (req : ClaimRequest) (s : mstate) : list (string * embedding_job) :=
  List.filter (ready s (class_of req) (timeLayout (c_Now req))) (map_to_list (ms_jobs s)).

Lemma due_spec req s id j : (id, j) ∈ due req s ↔ ms_jobs s !! id = Some j ∧ ready s (class_of req) (timeLayout (c_Now req)) (id, j) = true.
Proof. unfold due. by rewrite list_elem_of_In, filter_In, <- list_elem_of_In, elem_of_map_to_list. Qed.

(** A claim whose limit is not reached takes every due job. *)
Lemma claim_all o req tokens s jobs s' :
  Claim o req tokens s = inl (jobs, s') → Z.of_nat (length (due req s)) <= c_Limit req → ∀ id j, (id, j) ∈ due req s → id ∈ w_Key <$> jobs.
Proof.
  unfold Claim. destruct (negb _); [done|]. cbv zeta. fold (class_of req). fold (due req s). intros [= <- _] Hl id j Hin.
  rewrite (imap_fmap_keys (λ i row, claim_of o row (tokens i)) w_Key fst _ 0) by (by intros i [? ?]).
  change id with (fst (id, j)). apply list_elem_of_fmap_2. unfold sql_limit. destruct (Z.ltb_spec (c_Limit req) 0).
  - by rewrite (merge_sort_Permutation claim_le).
  - rewrite firstn_all2; [by rewrite (merge_sort_Permutation claim_le)|]. rewrite (Permutation_length (merge_sort_Permutation claim_le _)). lia.
Qed.

Lemma any_honest o embed : honest (λ _ _ _, True) o embed.
Proof. intros inputs b _ Hl. by apply Forall2_same_length_lookup. Qed.

Lemma claimed_completable o req tokens embed now s jobs s1 rs :
  claimed o req tokens s jobs s1 → String.ltb (timeLayout now) (timeLayout (c_LeaseUntil req)) = true →
  process o embed now (λ _, s1) jobs = inl rs → fst <$> zip jobs rs = jobs ∧ Forall (completable o now s1) (zip jobs rs).
Proof.
  intros Hcl Ht Hp. pose proof (process_results _ _ _ _ _ _ _ (any_honest o embed) Hp) as Hrs.
  assert (length rs = length jobs) as Hlen by (apply Forall2_length in Hrs; by rewrite length_imap in Hrs).
  split; [by rewrite fst_zip by lia|]. rewrite Forall_forall. intros [c r] Hin. apply list_elem_of_lookup in Hin as [i Hi].
  apply lookup_zip_Some in Hi as [Hc Hr].
  assert (result_for (λ _ _ _, True) o (read_input o s1 c) r) as (Hinp & Hv & He & _) by (eapply (Forall2_lookup_lr _ _ _ i); [exact Hrs|by rewrite list_lookup_imap, Hc|done]).
  destruct (cl_ready _ _ _ _ _ _ Hcl c) as (j & Hj & Hrev & Hready & _ & Hj1); [by eapply list_elem_of_lookup_2|].
  unfold ready in Hready. apply andb_true_iff in Hready as [Hready Hlt]. destruct (live_text s (w_Key c)) as [text|] eqn:El; [|done].
  assert (live_text s1 (w_Key c) = Some text) as El1 by (by rewrite (live_text_rows _ _ _ (cl_rows _ _ _ _ _ _ Hcl))).
  unfold read_input in *. rewrite El1, Hj1 in *. cbn [j_revision j_lease_token claimed_job] in *. rewrite <- Hrev, Z.eqb_refl, String.eqb_refl in *. cbn [andb] in *.
  eexists _, text. cbn [fst snd]. split_and!; [exact Hj1| |exact El1|..].
  - unfold holds. cbn. rewrite <- Hrev, Z.eqb_refl, String.eqb_refl, Ht. cbn. by destruct (j_state j =? "pending")%string.
  - by destruct (TrimSpace text =? "")%string.
  - by destruct (TrimSpace text =? "")%string.
  - rewrite He. by destruct (TrimSpace text =? "")%string.
Qed.

Lemma ready_live s p now id j : ready s p now (id, j) = true → j_state j = "pending"%string.
Proof. unfold ready. intros. by propify. Qed.

Lemma pass_embeds o req tokens embed now s :
  c_Kind req = "embeddings"%string → serves embed → String.ltb (timeLayout now) (timeLayout (c_LeaseUntil req)) = true →
  Z.of_nat (length (due req s)) <= c_Limit req →
  ∃ jobs oks s', worker_pass o req tokens embed now s = Some (jobs, oks, s') ∧ Forall (λ ok, ok = true) oks
    ∧ (∀ id j, (id, j) ∈ due req s → embedded o s' id) ∧ due req s' = [].
Proof.
  intros Hk Hs Ht Hl. unfold worker_pass. destruct (Claim o req tokens s) as [[jobs s1]|e] eqn:Ec.
  2:{ unfold Claim in Ec. rewrite Hk, String.eqb_refl in Ec. done. }
  pose proof (claim_all _ _ _ _ _ _ Ec Hl) as Hall. apply claim_spec in Ec as Hcl. destruct (process_total o embed now (λ _, s1) jobs Hs) as [rs Hp]. rewrite Hp.
  destruct (claimed_completable _ _ _ _ _ _ _ _ _ Hcl Ht Hp) as [Hz Hc].
  destruct (complete_all_spec o now (zip jobs rs) s1) as (Hoks & Hem & Hr & Ho); [rewrite Hz; apply Hcl|done|]. rewrite Hz in Ho.
  destruct (complete_all o now (zip jobs rs) s1) as [oks s2]. cbn [fst snd] in *. exists jobs, oks, s2.
  assert (Hdone : ∀ id, id ∈ w_Key <$> jobs → embedded o s2 id).
  { intros id Hid. rewrite <- Hz in Hid. apply list_elem_of_fmap in Hid as (w & -> & Hw). apply list_elem_of_fmap in Hw as (p & -> & Hp'). rewrite Forall_forall in Hem. by apply Hem. }
  split_and!; [done..| |].
  - intros id j Hin. apply Hdone. by eapply Hall.
  - destruct (due req s2) as [|[id j] l] eqn:E; [done|]. exfalso. assert ((id, j) ∈ due req s2) as Hin by (rewrite E; apply list_elem_of_here).
    apply due_spec in Hin as [Hj Hready]. destruct (decide (id ∈ w_Key <$> jobs)) as [Hid|Hid].
    + destruct (Hdone id Hid) as (j' & _ & Hj' & Hst & _). apply ready_live in Hready. congruence.
    + apply Hid. apply (Hall id j), due_spec. destruct (slot_inv _ _ _ (Ho id Hid)) as [Hj2 _]. rewrite (cl_other _ _ _ _ _ _ Hcl) in Hj2 by done.
      split; [congruence|]. unfold ready in *. rewrite (live_text_rows s2 s) by (pose proof (cl_rows _ _ _ _ _ _ Hcl); congruence). done.
Qed.
End progress.

(** ** A drain *)

Section drain.
Context `{EmbedLib} `{ErrorReport}.
Variables (clock : nat → Z) (provider : nat → list string → EmbeddingBatch + err) (o : EmbeddingDrainOptions).
Hypothesis Hserves : ∀ i, serves (provider i).

(** A job nobody holds. *)
Definition waiting (s : mstate) (id : string) : Prop := ∃ j, ms_jobs s !! id = Some j ∧ j_state j = "pending"%string ∧ j_locked j = ""%string.

(** Between two steps of the drain: [ids] are still to be done, and are all of
    the backlog; the rest of [start] is embedded. *)
Record draining (start : list string) (s : mstate) (ids : list string) : Prop := {
  dr_nodup : NoDup ids;
  dr_waiting id : id ∈ ids → waiting s id;
  dr_backlog id j : ms_jobs s !! id = Some j → backlog_row s (id, j) = true → id ∈ ids;
  dr_done id : id ∈ start → id ∈ ids ∨ embedded o s id }.

Lemma backlog_rows s s' row : ms_rows s' = ms_rows s → backlog_row s' row = backlog_row s row.
Proof. intros Hr. unfold backlog_row. by rewrite (live_text_rows _ _ _ Hr). Qed.

Lemma embedded_no_backlog s id j : embedded o s id → ms_jobs s !! id = Some j → backlog_row s (id, j) = false.
Proof. intros (j' & _ & Hj' & Hst & _) Hj. assert (j' = j) as -> by congruence. unfold backlog_row. cbn. by rewrite Hst. Qed.

Lemma draining_done start s s' ids fin ids' :
  draining start s ids → ids ≡ₚ fin ++ ids' → ms_rows s' = ms_rows s → (∀ id, id ∈ fin → embedded o s' id) →
  (∀ id, id ∉ fin → slot_of s' id = slot_of s id) → draining start s' ids'.
Proof.
  intros [Hn Hw Hb Hd] Hp Hr Hf Ho. rewrite Hp in Hn. apply NoDup_app in Hn as (_ & Hdis & Hn'). split; [done|..].
  - intros id Hid. destruct (Hw id) as (j & Hj & ?); [rewrite Hp; apply elem_of_app; by right|]. exists j.
    destruct (slot_inv _ _ _ (Ho id (λ Hfin, Hdis id Hfin Hid))) as [-> _]. done.
  - intros id j Hj Hbl. destruct (decide (id ∈ fin)) as [Hfin|Hno]; [by rewrite (embedded_no_backlog s' id j (Hf id Hfin) Hj) in Hbl|].
    destruct (slot_inv _ _ _ (Ho id Hno)) as [E _]. rewrite E in Hj. rewrite (backlog_rows _ _ _ Hr) in Hbl.
    pose proof (Hb id j Hj Hbl) as Hin. rewrite Hp in Hin. by apply elem_of_app in Hin as [?|?].
  - intros id Hid. destruct (decide (id ∈ fin)) as [Hfin|Hno]; [right; by apply Hf|].
    destruct (Hd id Hid) as [Hin|Hem]; [left; rewrite Hp in Hin; by apply elem_of_app in Hin as [?|?]|right]. eapply embedded_frame; [exact Hr|by apply Ho|done].
Qed.

Lemma draining_reset start s ids id now b : draining start s ids → id ∈ ids → draining start (on_job (reset_job o now b) id s) ids.
Proof.
  intros [Hn Hw Hb Hd] Hid. split; [done|..].
  - intros i Hi. destruct (Hw i Hi) as (j & Hj & Hs & Hl). destruct (decide (i = id)) as [->|Hne].
    + exists (reset_job o now b j). cbn. by rewrite lookup_alter_eq, Hj.
    + exists j. cbn. by rewrite lookup_alter_ne.
  - intros i j. cbn. destruct (decide (i = id)) as [->|Hne]; [done|]. rewrite lookup_alter_ne by done. apply Hb.
  - intros i Hi. destruct (decide (i = id)) as [->|Hne]; [by left|]. destruct (Hd i Hi) as [?|He]; [by left|right].
    apply (embedded_frame o s); [done|by rewrite slot_on_job, decide_False|done].
Qed.

Lemma lock_all at_ stale jobs s :
  NoDup (ej_MessageID <$> jobs) → (∀ job, job ∈ jobs → waiting s (ej_MessageID job)) →
  ∃ s', lockEmbeddingJobs jobs at_ stale s = (jobs, s') ∧ ms_rows s' = ms_rows s ∧ (∀ id, vectors s' id = vectors s id)
    ∧ (∀ id, id ∉ ej_MessageID <$> jobs → ms_jobs s' !! id = ms_jobs s !! id) ∧ ∀ id, is_Some (ms_jobs s !! id) → is_Some (ms_jobs s' !! id).
Proof.
  revert s. induction jobs as [|job jobs IH]; intros s Hn Hw; [by exists s|]. rewrite fmap_cons in Hn. apply NoDup_cons in Hn as [Hnew Hn]. cbn [lockEmbeddingJobs].
  destruct (Hw job) as (j & Hj & Hs & Hl); [by left|]. assert ((j_state j =? "pending")%string && unlocked stale j = true) as Hu by (unfold unlocked; by rewrite Hs, Hl). rewrite Hj, Hu.
  destruct (IH (on_job (locked_job at_) (ej_MessageID job) s)) as (s' & -> & Hr & Hv & Ho & Hsome); [done| |].
  - intros x Hx. destruct (Hw x) as (jx & Hjx & ?); [by right|]. exists jx. cbn. rewrite lookup_alter_ne; [done|]. intros E. apply Hnew. rewrite E. by apply list_elem_of_fmap_2.
  - exists s'. split_and!; [done|by rewrite Hr|intros id; by rewrite Hv|..].
    + intros id Hid. rewrite fmap_cons, not_elem_of_cons in Hid. destruct Hid. rewrite Ho by done. cbn. by rewrite lookup_alter_ne.
    + intros id Hid. apply Hsome. cbn. by apply lookup_alter_is_Some.
Qed.

(** Storing the vectors of a batch embeds its messages. *)
Lemma store_all now d jobs vs s :
  NoDup (ej_MessageID <$> jobs) → length vs = length jobs → Forall (λ v, ∃ blob, EncodeFloat32 v = inl blob) vs →
  (∀ job, job ∈ jobs → is_Some (ms_jobs s !! ej_MessageID job) ∧ is_Some (live_text s (ej_MessageID job))) →
  ∃ s', store_vectors o now d jobs vs s = inl s' ∧ ms_rows s' = ms_rows s ∧ (∀ id, id ∈ ej_MessageID <$> jobs → embedded o s' id)
    ∧ ∀ id, id ∉ ej_MessageID <$> jobs → slot_of s' id = slot_of s id.
Proof.
  revert vs s. induction jobs as [|job jobs IH]; intros vs s Hn Hl Hv Hj; [exists s; split_and!; [done..|by intros id ?%elem_of_nil|done]|].
  destruct vs as [|v vs]; [done|]. rewrite fmap_cons in *. apply NoDup_cons in Hn as [Hnew Hn]. apply Forall_cons in Hv as [[blob Hb] Hv]. cbn [store_vectors].
  unfold EncodeEmbeddingVector. rewrite Hb. cbv zeta. set (id0 := ej_MessageID job) in *. set (e := mkEmbedding _ _ _ _ _ _). set (s1 := on_job _ _ _).
  assert (Ho1 : ∀ id, id ≠ id0 → slot_of s1 id = slot_of s id) by (intros id Hne; unfold s1; by rewrite slot_on_job, decide_False, slot_upsert, decide_False).
  destruct (IH vs s1) as (s' & Hs & Hr & He & Ho); [done|by injection Hl|done| |].
  - intros x Hx. assert (ej_MessageID x ≠ id0) as Hne by (intros E; apply Hnew; rewrite <- E; by apply list_elem_of_fmap_2).
    destruct (Hj x) as [H1 H2]; [by right|]. destruct (slot_inv _ _ _ (Ho1 _ Hne)) as [-> _]. rewrite (live_text_rows s s1) by done. done.
  - exists s'. rewrite Hs. split_and!; [done|by rewrite Hr| |].
    + intros id [->|Hid]%elem_of_cons; [|by apply He]. destruct (Hj job) as [[j Hj0] [text Ht]]; [by left|]. fold id0 in Hj0, Ht.
      assert (embedded o s1 id0) as Hem.
      { exists (done_job o now j), text. split_and!; [unfold s1; cbn; by rewrite lookup_alter_eq, Hj0|done|exact Ht|]. right. exists e. split; [|done].
        unfold s1. change (e ∈ vectors (upsertEmbedding id0 e s) id0). rewrite vectors_upsert, decide_True by done. apply put_embedding_there. }
      eapply embedded_frame; [exact Hr|by apply Ho|done].
    + intros id Hid. rewrite not_elem_of_cons in Hid. destruct Hid. rewrite Ho by done. by apply Ho1.
Qed.

Lemma resolve_none now ref ids l : (TrimSpace (Operation ref) =? "")%string = false → (TrimSpace (Source ref) =? "")%string = false → (ResolveMessageFailures now ref ids l).1 = None.
Proof.
  intros H1 H2. unfold ResolveMessageFailures, ref_required. cbn [Operation Source normalizeFailureRef]. rewrite H1, H2. cbn [orb]. cbv zeta. by destruct (FailureLedger.distinct_ids [] ids).
Qed.

Lemma ledger_none f d : (∀ now l, (f now l).1 = None) → (in_ledger clock f d).1 = None ∧ d_store (in_ledger clock f d).2 = d_store d.
Proof. intros Hf. split; [|apply in_ledger_store]. unfold in_ledger. cbn. pose proof (Hf (clock (d_tick d)) (d_failures d)). by destruct (f _ _). Qed.

(** The counters of a drain without failures. *)
Definition clean (st : EmbeddingDrainStats) : Prop := st_Failed st = 0 ∧ st_Requeued st = 0 ∧ st_RateLimited st = false.

Lemma flush_drains start batch ids st d :
  draining start (d_store d) ((ej_MessageID <$> batch) ++ ids) → Forall (listed (d_store d)) batch → clean st →
  ∃ st' d', flush clock provider o batch st d = (None, st', d') ∧ clean st' ∧ ms_rows (d_store d') = ms_rows (d_store d) ∧ draining start (d_store d') ids.
Proof.
  intros Hd Hl Hst. unfold flush. destruct batch as [|job0 rest]; [by exists st, d|]. set (batch := job0 :: rest) in *. clearbody batch.
  assert (Hn : NoDup (ej_MessageID <$> batch)) by (apply dr_nodup in Hd; by apply NoDup_app in Hd as [? _]).
  assert (Hw : ∀ job, job ∈ batch → waiting (d_store d) (ej_MessageID job)) by (intros job Hj; apply (dr_waiting _ _ _ Hd), elem_of_app; left; by apply list_elem_of_fmap_2).
  unfold processEmbeddingBatch. cbn [read_clock]. cbv zeta. unfold in_store. cbn [d_store d_failures d_tick].
  destruct (lock_all (timeLayout (clock (d_tick d))) (timeLayout (clock (d_tick d) - embeddingLockTimeout)) batch (d_store d) Hn Hw) as (s1 & Hlock & Hr1 & Hv1 & Ho1 & Hsome1).
  rewrite !Hlock. cbn [fst snd]. clear Hlock.
  destruct batch as [|job1 rest1] eqn:Eb; [eexists st, _; split_and!; [done|done|exact Hr1|]|].
  { cbn in *. apply (draining_done start (d_store d) _ ids [] ids); [exact Hd|done|done|by intros id ?%elem_of_nil|]. intros id _. unfold slot_of. rewrite Hr1, Hv1, Ho1; [done|]. apply not_elem_of_nil. }
  rewrite <- Eb in *. clear job1 rest1 Eb. unfold Embed. set (inputs := _ <$> batch). assert (Hin : length inputs = length batch) by (unfold inputs; by rewrite length_fmap).
  cbn [d_store d_failures d_tick]. destruct (Hserves (S (d_tick d)) inputs) as (b & n & -> & Hval & Henc). rewrite Hin in Hval. rewrite Hval.
  apply validated in Hval as [Hlen _]. cbn [read_clock]. cbv zeta. cbn [d_store d_failures d_tick].
  destruct (store_all (timeLayout (clock (S (S (d_tick d))))) n batch (Vectors b) s1 Hn Hlen Henc) as (s2 & Hs2 & Hr2 & He2 & Ho2).
  { intros job Hj. destruct (Hw job Hj) as (j & Hj0 & _). split; [apply Hsome1; eauto|]. rewrite (live_text_rows _ _ _ Hr1). rewrite Forall_forall in Hl. destruct (Hl job Hj) as [-> _]. eauto. }
  rewrite !Hs2. match goal with |- context [in_ledger clock ?f ?x] => destruct (ledger_none f x) as [Hnone Hstore];
    [intros; by apply resolve_none|]; destruct (in_ledger clock f x) as [e d3] end. cbn [fst snd] in *. subst e. cbn in Hstore.
  eexists _, d3. split; [done|]. split; [exact Hst|]. rewrite Hstore. split; [congruence|]. eapply draining_done; [exact Hd|reflexivity|congruence|done|].
  intros id Hid. rewrite Ho2 by done. unfold slot_of. rewrite Hr1, Hv1, Ho1; done.
Qed.

Lemma blank_done now s id text :
  waiting s id → live_text s id = Some text → TrimSpace text = ""%string →
  let s' := markEmbeddingJobsDone o now [mkEmbeddingJob id text 0 "" "" ""] s in embedded o s' id ∧ ms_rows s' = ms_rows s ∧ ∀ i, i ≠ id → slot_of s' i = slot_of s i.
Proof.
  intros (j & Hj & _) Ht Hb. cbn. split_and!; [|done|].
  - exists (empty_done_job o now j), text. split_and!; [cbn; by rewrite lookup_alter_eq, Hj|done|exact Ht|by left].
  - intros i Hi. by rewrite slot_on_job, decide_False, slot_discard, decide_False.
Qed.

Lemma retarget_drains start job ids d job' d' :
  draining start (d_store d) ids → ej_MessageID job ∈ ids → retarget clock o job d = (job', d') →
  draining start (d_store d') ids ∧ ms_rows (d_store d') = ms_rows (d_store d) ∧ ej_MessageID job' = ej_MessageID job ∧ ej_NormalizedContent job' = ej_NormalizedContent job.
Proof.
  intros Hd Hin. unfold retarget. destruct (sameEmbeddingIdentity job o); intros [= <- <-]; [done|]. cbn. split_and!; [by apply draining_reset|done..].
Qed.

Lemma jobs_drain start jobs batch st d :
  draining start (d_store d) ((ej_MessageID <$> batch) ++ (ej_MessageID <$> jobs)) → Forall (listed (d_store d)) jobs → Forall (listed (d_store d)) batch → clean st →
  ∃ batch' st' d', drain_jobs clock provider o jobs batch st d = (None, batch', st', d') ∧ clean st'
    ∧ draining start (d_store d') (ej_MessageID <$> batch') ∧ Forall (listed (d_store d')) batch'.
Proof.
  revert batch st d. induction jobs as [|job jobs IH]; intros batch st d Hd Hj Hb Hst; [exists batch, st, d; cbn in *; rewrite app_nil_r in Hd; done|].
  cbn [drain_jobs]. apply Forall_cons in Hj as [[Htext Hatt] Hj].
  destruct (retarget clock o job d) as [job1 d1] eqn:Er.
  assert (Hjob1 : ms_rows (d_store d1) = ms_rows (d_store d) → listed (d_store d1) job1).
  { intros Hr. unfold retarget in Er. unfold listed. rewrite (live_text_rows _ _ _ Hr). destruct (sameEmbeddingIdentity job o); injection Er as <- <-; [done|]. cbn. split; [done|]. destruct (negb _); lia. }
  apply (retarget_drains start _ _ _ _ _ Hd) in Er as (Hd1 & Hr1 & Hid & Hcont); [|apply elem_of_app; right; rewrite fmap_cons; apply list_elem_of_here].
  specialize (Hjob1 Hr1). apply (listed_rows _ _ _ Hr1) in Hj, Hb. rewrite fmap_cons, <- Hid in Hd1.
  assert (Hlive : live_text (d_store d1) (ej_MessageID job1) = Some (ej_NormalizedContent job1)) by apply Hjob1.
  destruct (String.eqb_spec (TrimSpace (ej_NormalizedContent job1)) "") as [Hblank|_].
  - set (d2 := in_store_at clock _ d1).
    destruct (blank_done (timeLayout (clock (d_tick d1))) (d_store d1) (ej_MessageID job1) _ (dr_waiting _ _ _ Hd1 _ ltac:(apply elem_of_app; right; apply list_elem_of_here)) Hlive Hblank) as (He & Hr & Ho).
    assert (Hd2 : draining start (d_store d2) ((ej_MessageID <$> batch) ++ (ej_MessageID <$> jobs))).
    { eapply (draining_done start _ _ _ [ej_MessageID job1]); [exact Hd1| |exact Hr|by intros id ->%list_elem_of_singleton|].
      - symmetry. exact (Permutation_middle (ej_MessageID <$> batch) (ej_MessageID <$> jobs) (ej_MessageID job1)).
      - intros id Hne. apply Ho. by rewrite list_elem_of_singleton in Hne. }
    assert (Hr2 : ms_rows (d_store d2) = ms_rows (d_store d1)) by done. clearbody d2.
    match goal with |- context [in_ledger clock ?f d2] => destruct (ledger_none f d2) as [Hnone Hstore]; [intros; by apply resolve_none|]; destruct (in_ledger clock f d2) as [e d3] end.
    cbn [fst snd] in *. subst e. rewrite <- Hstore in Hd2, Hr2. apply (listed_rows _ _ _ Hr2) in Hj, Hb. by apply IH.
  - assert (Hb' : Forall (listed (d_store d1)) (batch ++ [job1])) by (apply Forall_app; split; [done|by constructor]).
    assert (Hd1' : draining start (d_store d1) ((ej_MessageID <$> batch ++ [job1]) ++ (ej_MessageID <$> jobs))) by (by rewrite fmap_app, <- app_assoc).
    destruct (do_BatchSize o <=? _); [|by apply IH].
    destruct (flush_drains start (batch ++ [job1]) (ej_MessageID <$> jobs) st d1 Hd1' Hb' Hst) as (st2 & d2 & -> & Hst2 & Hr2 & Hd2).
    destruct Hst2 as (? & ? & Hlim). rewrite Hlim. apply (listed_rows _ _ _ Hr2) in Hj. apply IH; [done..|constructor|done].
Qed.
End drain.

(** The backlog of a store. *)
Definition backlog (s : mstate) : list (string * embedding_job) := List.filter (backlog_row s) (map_to_list (ms_jobs s)).

Lemma backlog_spec s id j : (id, j) ∈ backlog s ↔ ms_jobs s !! id = Some j ∧ backlog_row s (id, j) = true.
Proof. unfold backlog. by rewrite list_elem_of_In, filter_In, <- list_elem_of_In, elem_of_map_to_list. Qed.

Lemma filter_same {A} (p q : A → bool) l : (∀ x, x ∈ l → p x = q x) → List.filter p l = List.filter q l.
Proof.
  induction l as [|x l IH]; intros Hpq; [done|]. cbn. rewrite (Hpq x) by left. rewrite IH; [done|]. intros y Hy. apply Hpq. by right.
Qed.

Lemma drain_clears `{EmbedLib} `{ErrorReport} clock provider opts d :
  (∀ i, serves (provider i)) → (∀ id j, (id, j) ∈ backlog (d_store d) → j_locked j = ""%string ∧ 0 <= j_attempts j) →
  Z.of_nat (length (backlog (d_store d))) <= do_Limit (normalizeEmbeddingDrainOptions opts) →
  ∃ st d', DrainEmbeddingJobs clock provider opts d = (None, st, d') ∧ clean st ∧ st_RemainingBacklog st = 0
    ∧ backlog (d_store d') = [] ∧ ∀ id j, (id, j) ∈ backlog (d_store d) → embedded (normalizeEmbeddingDrainOptions opts) (d_store d') id.
Proof.
  intros Hs Hfree Hlim. unfold DrainEmbeddingJobs. cbv zeta. set (o := normalizeEmbeddingDrainOptions opts) in *. cbn [read_clock d_store].
  set (s := d_store d) in *. set (jobs := pendingEmbeddingJobs _ _ _). set (d0 := mkDrain s _ _ _).
  assert (Hjobs : ej_MessageID <$> jobs ≡ₚ fst <$> backlog s ∧ ∀ job, job ∈ jobs → ∃ j, (ej_MessageID job, j) ∈ backlog s ∧ job = drain_job s (ej_MessageID job, j)).
  { unfold jobs, pendingEmbeddingJobs. rewrite (filter_same _ (backlog_row s)).
    2:{ intros [id j] Hin%elem_of_map_to_list. cbn. destruct (backlog_row s (id, j)) eqn:Eb; [|done]. cbn. unfold unlocked. by rewrite (proj1 (Hfree id j (proj2 (backlog_spec s id j) (conj Hin Eb)))). }
    fold (backlog s). assert (sql_limit (do_Limit o) (merge_sort drain_le (backlog s)) ≡ₚ backlog s) as Hp.
    { unfold sql_limit. destruct (Z.ltb_spec (do_Limit o) 0); [apply merge_sort_Permutation|].
      rewrite firstn_all2; [apply merge_sort_Permutation|]. rewrite (Permutation_length (merge_sort_Permutation drain_le _)). lia. }
    split.
    - rewrite <- list_fmap_compose. rewrite (list_fmap_ext (ej_MessageID ∘ drain_job s) fst) by (by intros i [id j] _). by rewrite Hp.
    - intros job ([id j] & -> & Hin)%list_elem_of_fmap. exists j. rewrite Hp in Hin. done. }
  destruct Hjobs as [Hperm Hjobs].
  assert (Hd : draining o (fst <$> backlog s) (d_store d0) ((ej_MessageID <$> []) ++ (ej_MessageID <$> jobs))).
  { cbn. split.
    - rewrite Hperm. unfold backlog. pose proof (ready_rows_unique (backlog_row s) drain_le (-1) s) as Hn. unfold sql_limit in Hn. cbn in Hn. by rewrite merge_sort_Permutation in Hn.
    - intros id. rewrite Hperm. intros ([id' j] & -> & Hin)%list_elem_of_fmap. exists j. destruct (Hfree id' j Hin) as [Hl _]. apply backlog_spec in Hin as [Hj Hb]. split_and!; [done| |done].
      unfold backlog_row in Hb. cbn in *. by propify.
    - intros id j Hj Hb. rewrite Hperm. change id with (id, j).1. apply list_elem_of_fmap_2. by apply backlog_spec.
    - intros id Hid. left. by rewrite Hperm. }
  assert (Hl : Forall (listed (d_store d0)) jobs).
  { rewrite Forall_forall. intros job Hjob. destruct (Hjobs job Hjob) as (j & Hin & E). destruct (Hfree _ _ Hin) as [_ Ha]. apply backlog_spec in Hin as [_ Hb].
    unfold backlog_row in Hb. cbn [fst snd] in Hb. rewrite E. unfold listed, drain_job. cbn. destruct (live_text s (ej_MessageID job)); [done|by rewrite andb_false_r in Hb]. }
  clearbody jobs d0. destruct (jobs_drain clock provider o Hs (fst <$> backlog s) jobs [] (mkDrainStats 0 0 0 0 0 0 false) d0 Hd Hl ltac:(constructor) ltac:(done)) as (batch & st1 & d1 & -> & Hst1 & Hd1 & Hl1).
  destruct (Hst1) as (_ & _ & ->).
  destruct (flush_drains clock provider o Hs (fst <$> backlog s) batch [] st1 d1) as (st2 & d2 & -> & Hst2 & _ & Hd2); [by rewrite app_nil_r|done..|].
  assert (Hempty : backlog (d_store d2) = []).
  { destruct (backlog (d_store d2)) as [|[id j] l] eqn:E; [done|]. exfalso. assert ((id, j) ∈ backlog (d_store d2)) as [Hj Hb]%backlog_spec by (rewrite E; apply list_elem_of_here).
    by apply (dr_backlog _ _ _ _ Hd2 _ _ Hj), elem_of_nil in Hb. }
  eexists _, d2. split; [done|]. split_and!; [exact Hst2|cbn; unfold EmbeddingBacklog; fold (backlog (d_store d2)); by rewrite Hempty|done|].
  intros id j Hin. destruct (dr_done _ _ _ _ Hd2 id) as [?%elem_of_nil|?]; [|done..]. change id with (id, j).1. by apply list_elem_of_fmap_2.
Qed.

(** ** Properties *)

(** a pass of the worker embeds all that is due: with a provider that
    answers, a claim whose limit reaches the due jobs of its class, processed
    and completed before the lease ends, succeeds for every job; each due
    message is then done with its vector, or done because its text is blank,
    and nothing of the class is due. *)
Theorem worker_pass_embeds_all_due `{EmbedLib} (o : EmbeddingDrainOptions) (req : ClaimRequest) (tokens : nat → string)
    (embed : list string → EmbeddingBatch + err) (now : Z) (s : mstate)
    (Hkind : c_Kind req = "embeddings"%string) (Hserves : serves embed)
    (Hlease : String.ltb (timeLayout now) (timeLayout (c_LeaseUntil req)) = true)
    (Hlimit : Z.of_nat (length (due req s)) <= c_Limit req) :
  ∃ jobs oks s', worker_pass o req tokens embed now s = Some (jobs, oks, s') ∧ Forall (λ ok, ok = true) oks
    ∧ (∀ id j, (id, j) ∈ due req s → embedded o s' id) ∧ due req s' = [].
Proof. by apply pass_embeds. Qed.

(** C38: a drain leaves no backlog: with a provider that answers, no job held
    by another drain and a limit that reaches the backlog, [DrainEmbeddingJobs]
    returns without an error, counts no failure, no requeue and no remaining
    backlog, and every message of the backlog is embedded, whatever its job's
    earlier configuration, however the batches fall. *)
Theorem drain_clears_the_backlog `{EmbedLib} `{ErrorReport} (clock : nat → Z) (provider : nat → list string → EmbeddingBatch + err)
    (opts : EmbeddingDrainOptions) (d : drain)
    (Hserves : ∀ i, serves (provider i))
    (Hfree : ∀ id j, (id, j) ∈ backlog (d_store d) → j_locked j = ""%string ∧ 0 <= j_attempts j)
    (Hlimit : Z.of_nat (length (backlog (d_store d))) <= do_Limit (normalizeEmbeddingDrainOptions opts)) :
  ∃ st d', DrainEmbeddingJobs clock provider opts d = (None, st, d') ∧ clean st ∧ st_RemainingBacklog st = 0
    ∧ backlog (d_store d') = [] ∧ ∀ id j, (id, j) ∈ backlog (d_store d) → embedded (normalizeEmbeddingDrainOptions opts) (d_store d') id.
Proof. by apply drain_clears. Qed.

(** ** Witnesses *)

(** A provider that gives every input the same vector. *)
Definition constant_provider (inputs : list string) : EmbeddingBatch + err := inl (mkBatch ((λ _, [1; 2]) <$> inputs) 2).

Lemma constant_serves : serves constant_provider.
Proof.
  intros inputs. exists (mkBatch ((λ _, [1; 2]) <$> inputs) 2), 2. split_and!; [done| |].
  - unfold validateEmbeddingBatch. cbn [Vectors Dimensions]. rewrite length_fmap, Nat.eqb_refl. cbn [negb]. induction inputs as [|x l IH]; [done|exact IH].
  - apply Forall_fmap, Forall_forall. intros x _. by eexists.
Qed.

Definition blank_message : MessageMutation :=
  mkMessageMutation (mkMessageRecord "11" "9" "7" "general" "3" "ann" 0 (timeLayout 1) "" "" "" " " "" false false " " "[]" 2)
    "message" " " (mkWriteOptions (Some 5) "" true true false true true) [] [].
Definition two_messages : mstate := snd (@upsertMessages parse_written plain_payloads no_languages 4 ∅ [blank_message] one_message).

Lemma worker_pass_embeds_all_due_witness :
  length (due example_request two_messages) = 2%nat
  ∧ ∃ jobs oks s', worker_pass live_options example_request (λ i, bars (S i)) constant_provider 150 two_messages = Some (jobs, oks, s')
    ∧ due example_request s' = [].
Proof.
  split; [by vm_compute|].
  destruct (worker_pass_embeds_all_due live_options example_request (λ i, bars (S i)) constant_provider 150 two_messages eq_refl constant_serves)
    as (jobs & oks & s' & H & _ & _ & Hd); [vm_compute; reflexivity|vm_compute; discriminate|]. exists jobs, oks, s'. split; [exact H|exact Hd].
Defined.

Definition drain_clock (i : nat) : Z := 1000 + Z.of_nat i.
Lemma drain_clears_the_backlog_witness :
  EmbeddingBacklog two_messages = 2
  ∧ ∃ st d', DrainEmbeddingJobs drain_clock (λ _, constant_provider) live_options (mkDrain two_messages empty_ledger 0 []) = (None, st, d') ∧ backlog (d_store d') = [].
Proof.
  split; [by vm_compute|].
  destruct (drain_clears_the_backlog drain_clock (λ _, constant_provider) live_options (mkDrain two_messages empty_ledger 0 []) (λ _, constant_serves))
    as (st & d' & H & _ & _ & Hb & _); [|vm_compute; discriminate|exists st, d'; split; [exact H|exact Hb]].
  assert (Forall (λ row, j_locked row.2 = ""%string ∧ 0 <= j_attempts row.2) (backlog two_messages)) as Hall.
  { assert (backlog two_messages = [("11"%string, pending_job 4 false None); ("10"%string, pending_job 3 false None)]
      ∨ backlog two_messages = [("10"%string, pending_job 3 false None); ("11"%string, pending_job 4 false None)]) as [-> | ->]
      by (first [left; vm_compute; reflexivity|right; vm_compute; reflexivity]); repeat constructor; done. }
  intros id j Hin. rewrite Forall_forall in Hall. by apply (Hall (id, j)).
Defined.
